(* ===== verification/_CoqProject ===== *)
-Q . S2P
Prelude.v
Utf8.v
GoStrings.v
PartialJson.v
Json.v
GoJson.v
RawJson.v
Livedoc.v
Message.v
PatchJson.v
Chalkboard.v
Reminder.v
Store.v
Aria.v
AriaSync.v
AriaTrace.v
Inbox.v
Registry.v
Projection.v
Native.v
NativeWire.v
NativeStream.v
Sdk.v
Responses.v
ResponsesTurn.v
Copilot.v
Compose.v
Toolout.v
Turn.v
Round.v
Agent.v
AgentRound.v
AgentLogic.v
AgentSpec.v
AgentTurn.v
AgentMetrics.v
AgentLive.v
Truncate.v
Edit.v
Cmdkit.v
CmdkitFacts.v
Angelus.v
AngelusFacts.v
AngelusSpec.v
XwalStore.v
XwalLog.v
XwalBackend.v
XwalFacts.v
XwalSpec.v
RecordSet.v
KeyInput.v
Sanitize.v
Rows.v
Pager.v
PagerReads.v
PagerCopy.v
PagerLoop.v
PagerFacts.v
PagerInv.v
PagerPages.v
PagerSpec.v
Incipit.v
IncipitFacts.v
IncipitSpec.v
