(* ===== verification/Prelude.v ===== *)
(** * Verification of figaro: overview and prelude

    figaro (Go, src/internal) is a coding agent: an agent process per
    conversation ("aria") keeps an append-only log of messages, calls a model
    provider, runs the tools the model asks for, and shows the turn to any
    number of clients as a live list of nodes.  This library models the logic
    between the sockets, the files and the provider's HTTP API, and proves it
    correct.  Every definition names the Go function it translates in the
    comment above it.

    ** How the parts interact

    A client's prompt enters the agent's queue ([Inbox]); the turn loop appends
    it to the log ([Store]) with the chalkboard patch it carries
    ([Chalkboard]), projects the log to the provider's wire form
    ([Projection]), assembles the streamed answer and the results of its tools
    ([Turn] and [Round], whose streamed output is bounded by [Toolout]), and seals or
    repairs the log when it is interrupted.  At every change the messages
    ([Message]) of the turn are composed into nodes ([Compose], with the
    streaming tool arguments read by [PartialJson]); the node list goes to the
    broadcast server, which sends field deltas (text deltas by [Livedoc]) that
    each client folds ([Aria]).  [Agent] and [AgentRound] are the actor that
    does all of this in the order of the code.  The provider it calls is one of
    three: [Native] (Messages API by hand), [Sdk] (Messages API by the SDK),
    [Responses] and [Copilot] (Responses API behind a route).  The supervisor's
    table of agents and attached processes is [Registry], its request handlers and
    background work are [Angelus].  [Truncate] and [Edit] are the text functions
    of the tools.  [Cmdkit] parses the command line.

    ** Files

    - Prelude: Go strings as lists of bytes, slices, loops, decimal rendering,
      sort.Strings, sort.Search, with their lemmas, tactics and hint database.
    - Utf8, GoStrings, Json, GoJson, RawJson: the parts of Go's library the
      program uses (runes, strings.*, decoded JSON values, json.Marshal and
      Unmarshal of the values the providers exchange, json.RawMessage).  Not
      claims about figaro.
    - PartialJson (partialjson/partialjson.go): the extractor of a string field
      from a JSON prefix.  partialjson_monotonic: what it shows only grows;
      partialjson_value: it shows the value.
    - Livedoc (livedoc/livedoc.go, node.go): Diff/Apply and DiffNodes/ApplyOp.
      Round trips, rune alignment, bounds under int64 overflow.
    - Message (message/message.go): the message and the interrupt sentinel.
    - Chalkboard (chalkboard/chalkboard.go, state.go; figaro/turn.go,
      chalkboard.go): snapshots and patches; diff/apply and merge laws, what a
      client's input can do to the board.
    - Store (store/log.go, mem_log.go, cached_log.go; ariaRead of
      angelus/protocol.go): the Log[T] interface as the classes [LogOps],
      [LogLaws] and [LogStamps], MemLog and cachedLog as instances; the cached log refines the
      log it wraps, paging is complete and terminates.
    - Aria (livelog/aria/types.go, server.go, client.go): the server and the
      folding client.  AriaSync: one delta and its fold.  AriaTrace: the server
      under the agent's calls, empty units and the reconcile of a resized log
      included, and a client following it: aria_follow (one desync per empty unit
      closed, and no other), aria_catch_up (a simulation between the two states),
      and examples of what goes wrong outside their hypotheses.
    - Inbox (figaro/inbox.go): the queue; order, restoring, no lost wake-up.
    - Registry (angelus/registry.go): every method as a step of a transition
      relation, Kill as its two critical sections and Register as its check of
      draining, outside the mutex, and its insertion; the invariant by induction
      on reachability, what Bind and Kill do.
    - Projection (provider/projection.go): incremental equals from-scratch.
    - Compose (compose/compose.go): nodes of a turn and units of a history.
    - Toolout (toolout/governor.go): the bounded tail does not depend on the
      chunks.
    - Turn (figaro/turn.go, turn_seal.go, repair.go): the in-flight message,
      the checkpoint, sealing, results and tail repair; [turn_step] is the
      relation of what the turn loop does to the log and the checkpoint, and
      turn_seal_paired its pairing invariant.
    - Round (figaro/turn_seal.go, turn.go): the log facade of a provider round
      and the seal of its message; round_seal_predicted: the promised LT is the
      real one.
    - Reminder (chalkboard/render.go and its templates): the reminder block a
      patch is rendered to.
    - Agent (figaro/agent.go, turn.go): the actor's state as a record, a monad
      with panics and waiting, every method that changes the state.  The other
      goroutines are the class [Env]: clients and clock act at every [tick],
      which stands before each access to what they share.  AgentRound: one
      provider round (its select loop over the provider's and the tools'
      events, the tool results, every way it ends), the turn, the inbox loop,
      the recovery from a panic.  AgentLogic: triples over that monad.
      AgentSpec: what every step does to the log and the checkpoint.
      AgentTurn: agent_turn_paired, agent_recovery.  AgentMetrics: the counters.
      AgentLive: what steering and the collection of results deliver.
    - Native, NativeWire, NativeStream (provider/anthropic/anthropic.go): the
      rendering and the request, the stream decoder, the retry loop, the
      acceptance of the answer.  native_send_lands: a turn appends the decoded
      answer or nothing.
    - Sdk (provider/anthropicsdk): encoding, coalescing, cache breakpoints,
      thinking parameters, decoding.
    - Responses, ResponsesTurn (provider/copilot/responses.go): input items,
      the socket's events, the size estimate, the turn.  Copilot
      (copilot.go): model routing and context limits.
    - Truncate (tool/truncate.go): head and tail truncation.
    - Edit (tool/linending.go, fuzzy.go, editdiff.go, edit.go): the edit tool
      on the bytes of a file; its fuzzy normalizer is idempotent.
    - Cmdkit (cmdkit/): the router of the command line: flag parsing, dispatch,
      suggestions, usage, completion requests and their wire form.  CmdkitFacts:
      the parser inverts every spelling of a command line and its result is
      typed; the suggestion is the nearest name; the completion request
      survives the router.
    - Angelus (angelus/protocol.go, bindings.go, backfill.go, angelus.go): every
      request handler and background step as a function of the supervisor's
      state, over the class [BackendOps] (store.Backend).  AngelusFacts: the
      laws of a backend ([BackendLaws]) and the invariants one handler keeps.
      AngelusSpec: what holds after any requests: the registry (with creates
      that passed the draining check early and figaros that outlive the timeout
      of a shutdown), the identity of arias, listings, saved bindings.
    - PatchJson (message/patch.go): the JSON of a chalkboard patch and its round
      trip.
    - XwalStore (store/xwal_store.go): loadouts, forks, promotion and listings
      over the fork tree, which is the class [Figwal]; fork vectors, the cached
      topology.  XwalLog (store/xwal_log.go): one channel of an aria as a log.
      XwalBackend (store/xwal_backend.go): the backend with its cached logs,
      chalkboards and metadata.  XwalFacts: every operation keeps the caches
      equal to the tree.  XwalSpec: xwal_restart, the instance of
      [BackendLaws] that carries Angelus over to this backend, loadouts, and a
      small tree that meets the laws asked of the library.
    - KeyInput (cli/key_input.go, livelog/render/mouse, the loop of stream.go):
      what each read of the terminal is cut into; keys_decoded.
    - Sanitize (render/sanitize.go): the escape sequences a tool's output may
      keep; sanitize_for_terminal.
    - Rows (cli/nodes.go): clipping, wrapping, the tool widget; rows_tool,
      rows_clip.
    - Pager (cli/transcript.go, transcript_selection.go): the full-screen pager,
      its window of pages, screen, search, selection and requests; RecordSet is
      the notation for updating its fields.  PagerReads (stream.go): the reads
      it pages through; pager_next_page.  PagerCopy: the text of a selection
      over any pages, read from the server of [Aria]; pager_copy.  PagerLoop
      (stream.go, livelog_bridge.go): the input loop and the search worker
      around it, one event per holder of the lock.  PagerFacts, PagerInv and
      PagerPages build the invariant of the window; PagerSpec proves it of every
      run ([allowed]: two rows or more, reads of one history); pager_window.
    - Incipit (livelog/render: incipit.go, lines.go, fake.go): the inline
      renderer and the in-memory terminal that reads its bytes.  IncipitFacts
      says what each piece of output does to that terminal, IncipitSpec what a
      session shows; incipit_screen.

    ** Conventions

    A Go string is a list of bytes; a struct is a Record, an enum an Inductive
    or its string constants; a map is a gmap, with the iteration order proved
    irrelevant where a loop ranges over one.  int and uint64 are Z: where a sum
    can overflow the wrap is written out ([wrap64], [wrapu64]); elsewhere the
    bound that excludes it is a hypothesis or is stated in the file.  A panic
    is [None]; an error is a boolean, an option or a sum, as in the code.  A
    method under a mutex is one atomic function of the state; where the code
    gives the lock up in between (Kill), or looks before it takes it (Register),
    it is two.

    Fuel: PartialJson's loops run on the length of the input and every
    iteration consumes a byte (any fuel of at least that length gives the
    same result, by the file's [_fuel] lemmas); [while] is cut off after as many
    rounds as its measure, with [while_rule] giving the exit condition; [runes]
    uses the length of the string; paging runs for one page more than there are
    rows, and store_paging_complete shows that is enough.

    [drain], [toolLoop] and [drive] of AgentRound are structural on the events
    the other goroutines deliver and answer [Blocked] where the code would
    wait for the next one; the loop that empties the inbox takes fuel, and
    agent_prepare_returns shows that the number of queued events is enough.
    The retry loop of NativeStream is bounded by its own counter.

    The climbs of [loadoutAncestor] and [under_loadout] (Angelus) take one step
    more than there are nodes, which is enough in a forest.  [assign] (XwalStore) takes as many steps as there
    are trunks, enough because a trunk's depth is below their number.
    [clip_runes], [freeze] (Rows), [clip_loop] (Incipit), [sanitize] and [decode] (KeyInput) run on the
    length of their input, of which every round takes some; [trim_loop] (Pager)
    drops a page in each round; the search of [readNextPage] has 64 rounds, and
    an interval of int LTs is halved to nothing in as many; [copy_loop] takes a
    round per page, and pager_copy shows that the number of messages is enough.

    Parameters: Store's inner log, Projection's encoder, fold and cache,
    Compose's summary and preview hooks and fmt's %v verb, Edit's NFKC, the
    agents in Registry, the agent's provider, tools, clock and clients ([Env]),
    the HTTP transport, the token source and the tokenizer of the providers, the
    backend of the supervisor and what a handler finds on the machine ([env]),
    the fork tree ([Figwal]), json.Marshal of log payloads ([Codec]) and the
    metadata files ([Sidecar]) of the backend, column widths, markdown and the
    text of times and values ([Screen]), the status line ([PagerEnv]).
    Laws assumed of them are the [LogLaws] class, which MemLog proves, the
    [WrappedLaws] of a log that cachedLog wraps, which xwalLog proves,
    [BackendLaws], which XwalSpec proves, [TreeLaws], [StumpLaws], [ContentLaws],
    [LookupLaws] and [SidecarLaws], which the tree in XwalSpec meets, [NfkcLaws] of
    the Unicode normal form, which a stand-in in Edit meets, and the hypotheses
    stated in the theorems.

    ** Not modelled, and plan

    Sockets, processes, terminals, HTTP, files and telemetry are not modelled;
    nor are third-party libraries (markdown rendering, tokenizer, the
    write-ahead log).  The handlers of the command line's verbs, the running of
    commands by the tools, sign-in, configuration files and updates are left
    out: they are mostly such calls in sequence. *)

From Stdlib Require Export ZArith Lia.
From Stdlib Require Export Strings.Byte.
From Stdlib Require Import DecimalString DecimalZ DecimalPos.
From stdpp Require Export base tactics numbers list countable gmap sorting.
From stdpp Require Export strings.

#[global] Set Default Goal Selector "!".
#[global] Open Scope Z_scope.

(** ** Bytes and Go strings *)

(** A Go string (or []byte) is a finite sequence of bytes. *)
Abbreviation gostr := (list byte).

#[export] Instance byte_eq_dec : EqDecision byte := Byte.byte_eq_dec.

#[export] Program Instance byte_countable : Countable byte :=
  inj_countable Byte.to_N Byte.of_N _.
Next Obligation. intros b. apply Byte.of_to_N. Qed.

#[export] Instance byte_inhabited : Inhabited byte := populate x00.

(** String literals of the source. *)
Definition lit (s : string) : gostr := String.list_byte_of_string s.

#[global] Arguments lit : simpl never.

Declare Scope go_scope.
Delimit Scope go_scope with go.
Notation "'#' s" := (lit s%string) (at level 8, s at level 0, format "'#' s") : go_scope.
#[global] Open Scope go_scope.

(** The value of a byte, as Go's uint8. *)
Definition bz (b : byte) : Z := Z.of_N (Byte.to_N b).

(** len(s) *)
Definition glen {A} (s : list A) : Z := Z.of_nat (length s).

(** s[i] for an index the source has just checked to be in range. *)
Definition bget (s : gostr) (i : nat) : byte := nth i s x00.

(** The slice expression s[lo:hi]: it panics unless 0 <= lo <= hi <= len(s). *)
Definition slice {A} (s : list A) (lo hi : Z) : option (list A) :=
  if (0 <=? lo) && (lo <=? hi) && (hi <=? glen s)
  then Some (take (Z.to_nat (hi - lo)) (drop (Z.to_nat lo) s))
  else None.

(** ** Machine integers *)

(** Go's int on the 64-bit targets figaro ships for: two's complement. *)
Definition wrap64 (z : Z) : Z := (z + 2 ^ 63) mod 2 ^ 64 - 2 ^ 63.

(** Go's uint64. *)
Definition wrapu64 (z : Z) : Z := z mod 2 ^ 64.

Definition int64_ok (z : Z) : Prop := - 2 ^ 63 <= z < 2 ^ 63.

(** ** Loops *)

(** [for cond(s) { s = body(s) }], cut off after [fuel] iterations. *)
Fixpoint while {S : Type} (fuel : nat) (cond : S -> bool) (body : S -> S) (s : S) : S :=
  match fuel with
  | O => s
  | S fuel' => if cond s then while fuel' cond body (body s) else s
  end.

(** ** Tactics *)

(** Split boolean conjunctions in hypotheses and turn comparisons into Props. *)
Ltac bool_hyps :=
  repeat match goal with
  | H : (_ && _)%bool = true |- _ => apply andb_true_iff in H; destruct H
  | H : (_ || _)%bool = false |- _ => apply orb_false_iff in H; destruct H
  | H : negb _ = true |- _ => apply negb_true_iff in H
  | H : negb _ = false |- _ => apply negb_false_iff in H
  | H : (_ <? _)%Z = true |- _ => apply Z.ltb_lt in H
  | H : (_ <? _)%Z = false |- _ => apply Z.ltb_ge in H
  | H : (_ <=? _)%Z = true |- _ => apply Z.leb_le in H
  | H : (_ <=? _)%Z = false |- _ => apply Z.leb_gt in H
  | H : (_ =? _)%Z = true |- _ => apply Z.eqb_eq in H
  | H : (_ =? _)%Z = false |- _ => apply Z.eqb_neq in H
  | H : (_ <? _)%nat = true |- _ => apply Nat.ltb_lt in H
  | H : (_ <? _)%nat = false |- _ => apply Nat.ltb_ge in H
  | H : (_ <=? _)%nat = true |- _ => apply Nat.leb_le in H
  | H : (_ <=? _)%nat = false |- _ => apply Nat.leb_gt in H
  | H : (_ =? _)%nat = true |- _ => apply Nat.eqb_eq in H
  | H : (_ =? _)%nat = false |- _ => apply Nat.eqb_neq in H
  | H : bool_decide _ = true |- _ => apply bool_decide_eq_true in H
  | H : bool_decide _ = false |- _ => apply bool_decide_eq_false in H
  end.

(** Case analysis on the condition of the first [if] of the goal. *)
Ltac case_if :=
  match goal with
  | |- context [if ?b then _ else _] =>
      match type of b with
      | bool => let E := fresh "Eif" in destruct b eqn:E; bool_hyps
      end
  end.

(** ** Generic lemmas *)

Lemma byte_eqb_eq (a b : byte) : Byte.eqb a b = true <-> a = b.
Proof. split; [apply Byte.byte_dec_bl | apply Byte.byte_dec_lb]. Qed.

Lemma bz_range b : 0 <= bz b < 256.
Proof.
  unfold bz. pose proof (Byte.to_N_bounded b). lia.
Qed.

Lemma wrap64_id z : int64_ok z -> wrap64 z = z.
Proof. unfold int64_ok, wrap64. intros. rewrite Z.mod_small; lia. Qed.

Lemma wrap64_ok z : int64_ok (wrap64 z).
Proof.
  unfold int64_ok, wrap64.
  pose proof (Z.mod_pos_bound (z + 2 ^ 63) (2 ^ 64) ltac:(lia)). lia.
Qed.

Lemma glen_nonneg {A} (s : list A) : 0 <= glen s.
Proof. unfold glen. lia. Qed.

Lemma slice_some {A} (s : list A) lo hi :
  0 <= lo -> lo <= hi -> hi <= glen s ->
  slice s lo hi = Some (take (Z.to_nat (hi - lo)) (drop (Z.to_nat lo) s)).
Proof.
  intros. unfold slice.
  rewrite !(proj2 (Z.leb_le _ _)) by lia. reflexivity.
Qed.

Lemma slice_prefix {A} (s : list A) (n : nat) :
  (n <= length s)%nat -> slice s 0 (Z.of_nat n) = Some (take n s).
Proof.
  intros. rewrite slice_some by (unfold glen; lia). simpl.
  rewrite Z.sub_0_r, Nat2Z.id. reflexivity.
Qed.

Lemma slice_suffix {A} (s : list A) (n : nat) :
  (n <= length s)%nat -> slice s (Z.of_nat n) (glen s) = Some (drop n s).
Proof.
  intros. rewrite slice_some by (unfold glen; lia). unfold glen.
  rewrite Nat2Z.id, take_ge; [done|]. rewrite length_drop. lia.
Qed.

Lemma slice_mid {A} (s : list A) (m n : nat) :
  (m <= n <= length s)%nat ->
  slice s (Z.of_nat m) (Z.of_nat n) = Some (take (n - m) (drop m s)).
Proof.
  intros. rewrite slice_some by (unfold glen; lia).
  rewrite Nat2Z.id. do 2 f_equal. lia.
Qed.

Lemma slice_none {A} (s : list A) lo hi :
  slice s lo hi = None <-> (lo < 0 \/ hi < lo \/ glen s < hi).
Proof.
  unfold slice. split.
  - case_if; [done|]. intros _.
    destruct (0 <=? lo) eqn:?, (lo <=? hi) eqn:?, (hi <=? glen s) eqn:?; bool_hyps;
      simplify_eq/=; lia.
  - intros H. case_if; [|done]. lia.
Qed.

(** The loop rule: an invariant kept by every iteration and a measure that
    decreases make the cut-off irrelevant; the exit condition then holds. *)
Lemma while_rule {S : Type} (I : S -> Prop) (m : S -> nat) fuel cond body (s : S) :
  I s ->
  (forall x, I x -> cond x = true -> I (body x) /\ (m (body x) < m x)%nat) ->
  (m s <= fuel)%nat ->
  I (while fuel cond body s) /\ cond (while fuel cond body s) = false.
Proof.
  revert s. induction fuel as [|fuel IH]; intros s HI Hstep Hm; simpl.
  - split; [done|]. destruct (cond s) eqn:E; [|done].
    destruct (Hstep s HI E). lia.
  - destruct (cond s) eqn:E; [|done].
    destruct (Hstep s HI E). apply IH; [done|done|lia].
Qed.

(** An invariant alone survives the cut-off. *)
Lemma while_inv {S : Type} (I : S -> Prop) fuel cond body (s : S) :
  I s -> (forall x, I x -> cond x = true -> I (body x)) ->
  I (while fuel cond body s).
Proof.
  revert s. induction fuel as [|fuel IH]; intros s HI Hstep; simpl; [done|].
  destruct (cond s) eqn:E; [|done]. apply IH; auto.
Qed.

Create HintDb figaro discriminated.
#[export] Hint Resolve glen_nonneg bz_range wrap64_ok : figaro.

(** ** Lists read through [bget] *)

Lemma take_S_bget (s : gostr) a :
  (a < length s)%nat -> take (S a) s = take a s ++ [bget s a].
Proof.
  intros H. apply take_S_r. unfold bget.
  destruct (lookup_lt_is_Some_2 s a H) as [b Hb].
  rewrite Hb. f_equal. symmetry. by apply nth_lookup_Some.
Qed.

Lemma drop_bget (s : gostr) a :
  (a < length s)%nat -> drop a s = bget s a :: drop (S a) s.
Proof.
  intros H. destruct (lookup_lt_is_Some_2 s a H) as [b Hb].
  rewrite (drop_S s b a Hb). f_equal. unfold bget. symmetry. by apply nth_lookup_Some.
Qed.

(** A string cut in three at two boundaries. *)
Lemma cut3 {A} (s : list A) a z :
  (a + z <= length s)%nat ->
  s = take a s ++ take (length s - z - a) (drop a s) ++ drop (length s - z) s.
Proof.
  intros H. rewrite <- (take_drop a s) at 1. f_equal.
  rewrite <- (take_drop (length s - z - a) (drop a s)) at 1. f_equal.
  rewrite drop_drop. f_equal. lia.
Qed.

(** ** The order of Go strings and sort.Strings *)

(** [s <= t], comparing bytes left to right. *)
Fixpoint str_leb (s t : gostr) : bool :=
  match s, t with
  | [], _ => true
  | _ :: _, [] => false
  | a :: s', b :: t' => (bz a <? bz b) || ((bz a =? bz b) && str_leb s' t')
  end.

Definition str_le (s t : gostr) : Prop := str_leb s t = true.

#[export] Instance str_le_dec : RelDecision str_le.
Proof. intros s t. unfold str_le. apply _. Defined.

#[export] Instance str_le_total : Total str_le.
Proof.
  intros s. unfold str_le.
  induction s as [|a s IH]; intros [|b t]; simpl; try (by auto).
  destruct (Z.lt_trichotomy (bz a) (bz b)) as [H|[H|H]].
  - left. by rewrite (proj2 (Z.ltb_lt _ _) H).
  - rewrite H, Z.ltb_irrefl, Z.eqb_refl. simpl. apply IH.
  - right. by rewrite (proj2 (Z.ltb_lt _ _) H).
Qed.

#[export] Instance str_le_trans : Transitive str_le.
Proof.
  intros s. unfold str_le.
  induction s as [|a s IH]; intros [|b t] [|c u]; simpl; try done.
  rewrite !orb_true_iff, !andb_true_iff, !Z.ltb_lt, !Z.eqb_eq.
  intros [?|[? ?]] [?|[? ?]]; [left; lia|left; lia|left; lia|right].
  split; [lia|by eapply IH].
Qed.

(** sort.Strings *)
Definition sort_strings (l : list gostr) : list gostr := merge_sort str_le l.

Lemma sort_strings_perm l : sort_strings l ≡ₚ l.
Proof. apply merge_sort_Permutation. Qed.

Lemma sort_strings_sorted l : StronglySorted str_le (sort_strings l).
Proof. apply StronglySorted_merge_sort; apply _. Qed.

Lemma elem_of_sort_strings l x : x ∈ sort_strings l <-> x ∈ l.
Proof. by rewrite sort_strings_perm. Qed.

(** strings.HasPrefix *)
Fixpoint has_prefix (s p : gostr) {struct p} : bool :=
  match p, s with
  | [], _ => true
  | _ :: _, [] => false
  | b :: p', a :: s' => Byte.eqb a b && has_prefix s' p'
  end.

Lemma has_prefix_spec s p : has_prefix s p = true <-> exists t, s = p ++ t.
Proof.
  revert s. induction p as [|b p IH]; intros s; simpl.
  - split; [intros _; by exists s|done].
  - destruct s as [|a s]; [split; [done|intros [t Ht]; discriminate Ht]|].
    rewrite andb_true_iff, byte_eqb_eq, IH. split.
    + intros [-> [t ->]]. by eauto.
    + intros [t [= -> ->]]. by eauto.
Qed.


(** ** Decimal rendering: strconv.Itoa and the %d verb *)

Definition itoa (z : Z) : gostr := lit (DecimalString.NilZero.string_of_int (Z.to_int z)).

Lemma lit_inj s t : lit s = lit t -> s = t.
Proof.
  unfold lit. intros H.
  rewrite <- (String.string_of_list_byte_of_string s).
  rewrite <- (String.string_of_list_byte_of_string t). by rewrite H.
Qed.

Lemma itoa_inj a b : itoa a = itoa b -> a = b.
Proof.
  unfold itoa. intros H. apply lit_inj in H.
  assert (E : forall z, option_map Z.of_int (DecimalString.NilZero.int_of_string
            (DecimalString.NilZero.string_of_int (Z.to_int z))) = Some z).
  { intros z. rewrite DecimalString.NilZero.isi; [simpl; by rewrite DecimalZ.of_to| |];
      destruct z; simpl; try done; intros [=];
      by eapply (Unsigned.to_uint_nonnil). }
  pose proof (E a) as Ha. rewrite H, E in Ha. congruence.
Qed.

(** ** Binary search and filters *)

(** sort.Search of the Go library: binary search over [0, n). *)
Definition search (n : nat) (f : nat -> bool) : nat :=
  fst (while n (fun ij => (fst ij <? snd ij)%nat)
         (fun ij => let h := Nat.div2 (fst ij + snd ij) in
                    if f h then (fst ij, h) else (S h, snd ij))
         (0%nat, n)).

Lemma search_spec n f :
  (forall i j, (i <= j < n)%nat -> f i = true -> f j = true) ->
  (search n f <= n)%nat /\
  (forall i, (i < search n f)%nat -> f i = false) /\
  (forall i, (search n f <= i < n)%nat -> f i = true).
Proof.
  intros Hmono. unfold search.
  match goal with |- context [while ?fu ?c ?b ?s] =>
    destruct (while_rule
      (fun ij => (fst ij <= snd ij <= n)%nat /\
         (forall k, (k < fst ij)%nat -> f k = false) /\
         (forall k, (snd ij <= k < n)%nat -> f k = true))
      (fun ij => (snd ij - fst ij)%nat) fu c b s) as [(H1 & H2 & H3) Hend] end.
  - simpl. split_and!; [lia|lia|lia|lia].
  - intros [i j] (H1 & H2 & H3) Hc. bool_hyps. cbn [fst snd] in *.
    pose proof (Nat.div2_odd (i + j)) as Hd.
    set (h := Nat.div2 (i + j)) in *.
    assert (Hh : (i <= h < j)%nat) by (destruct (Nat.odd (i + j)); simpl in Hd; lia).
    destruct (f h) eqn:Ef; cbn [fst snd].
    + split; [|lia]. split_and!; [lia|lia|done|].
      intros k Hk. destruct (decide (k < j)%nat); [|apply H3; lia].
      apply (Hmono h k); [lia|done].
    + split; [|lia]. split_and!; [lia|lia| |done].
      intros k Hk. destruct (decide (k < i)%nat); [by apply H2|].
      apply not_true_is_false. intros Ek.
      rewrite (Hmono k h) in Ef; [done|lia|done].
  - simpl. lia.
  - bool_hyps. destruct (while _ _ _ _) as [i j]. cbn [fst snd] in *.
    split_and!; [lia|done|]. intros k Hk. apply H3. lia.
Qed.

(** The result is in range whatever the predicate. *)
Lemma search_le n f : (search n f <= n)%nat.
Proof.
  unfold search.
  match goal with |- context [while ?fu ?c ?b ?s] =>
    destruct (while_rule (fun ij => (fst ij <= snd ij <= n)%nat) (fun ij => (snd ij - fst ij)%nat) fu c b s)
      as [H _] end; [cbn; lia| |cbn; lia|lia].
  intros [i j] H1 Hc. bool_hyps. cbn [fst snd] in *. pose proof (Nat.div2_odd (i + j)) as Hd.
  destruct (f _); cbn [fst snd]; destruct (Nat.odd (i + j)); simpl in Hd; lia.
Qed.

Lemma filter_none {A} (p : A -> bool) l :
  Forall (fun e => p e = false) l -> List.filter p l = [].
Proof. induction 1 as [|x l H _ IH]; simpl; [done|]. by rewrite H. Qed.

Lemma filter_all {A} (p : A -> bool) l :
  Forall (fun e => p e = true) l -> List.filter p l = l.
Proof. induction 1 as [|x l H _ IH]; simpl; [done|]. by rewrite H, IH. Qed.
