(* ===== verification/Utf8.v ===== *)
(** * The part of Go's utf8, utf16 and string conversions the program uses

    [decode_rune] is utf8.DecodeRune (with its acceptance ranges),
    [encode_rune] is utf8.AppendRune, [runes] and [string_of_runes] are the
    conversions []rune(s) and string(rs).  This is the language, not figaro:
    no definition of this file is a claim about src/. *)

From S2P Require Import Prelude.

(** Byte from an integer already known to be in range. *)
Definition zb (z : Z) : byte :=
  match Byte.of_N (Z.to_N z) with Some b => b | None => x00 end.

Definition rune_error : Z := 0xFFFD.

(** utf8.RuneStart *)
Definition rune_start (b : byte) : bool := negb (Z.land (bz b) 0xC0 =? 0x80).

(** Size and acceptance range of the second byte for a multi-byte lead. *)
Definition lead_info (b : Z) : option (nat * Z * Z) :=
  if (0xC2 <=? b) && (b <=? 0xDF) then Some (2%nat, 0x80, 0xBF)
  else if b =? 0xE0 then Some (3%nat, 0xA0, 0xBF)
  else if b =? 0xED then Some (3%nat, 0x80, 0x9F)
  else if (0xE1 <=? b) && (b <=? 0xEF) then Some (3%nat, 0x80, 0xBF)
  else if b =? 0xF0 then Some (4%nat, 0x90, 0xBF)
  else if b =? 0xF4 then Some (4%nat, 0x80, 0x8F)
  else if (0xF1 <=? b) && (b <=? 0xF3) then Some (4%nat, 0x80, 0xBF)
  else None.

Definition is_cont (b : byte) : bool := (0x80 <=? bz b) && (bz b <=? 0xBF).
Definition in_rng (b : byte) (lo hi : Z) : bool := (lo <=? bz b) && (bz b <=? hi).

(** One well-formed rune at the head of [s], with its size. *)
Definition decode_ok (s : gostr) : option (Z * nat) :=
  match s with
  | [] => None
  | b0 :: t =>
      if bz b0 <? 0x80 then Some (bz b0, 1%nat) else
      match lead_info (bz b0), t with
      | Some (2%nat, lo, hi), b1 :: _ =>
          if in_rng b1 lo hi
          then Some (Z.lor (Z.shiftl (Z.land (bz b0) 0x1F) 6) (Z.land (bz b1) 0x3F), 2%nat)
          else None
      | Some (3%nat, lo, hi), b1 :: b2 :: _ =>
          if in_rng b1 lo hi && is_cont b2
          then Some (Z.lor (Z.shiftl (Z.land (bz b0) 0x0F) 12)
                    (Z.lor (Z.shiftl (Z.land (bz b1) 0x3F) 6) (Z.land (bz b2) 0x3F)), 3%nat)
          else None
      | Some (4%nat, lo, hi), b1 :: b2 :: b3 :: _ =>
          if in_rng b1 lo hi && is_cont b2 && is_cont b3
          then Some (Z.lor (Z.shiftl (Z.land (bz b0) 0x07) 18)
                    (Z.lor (Z.shiftl (Z.land (bz b1) 0x3F) 12)
                    (Z.lor (Z.shiftl (Z.land (bz b2) 0x3F) 6) (Z.land (bz b3) 0x3F))), 4%nat)
          else None
      | _, _ => None
      end
  end.

(** utf8.DecodeRune: an invalid byte decodes to (RuneError, 1). *)
Definition decode_rune (s : gostr) : Z * nat :=
  match s with
  | [] => (rune_error, 0%nat)
  | _ => match decode_ok s with Some r => r | None => (rune_error, 1%nat) end
  end.

Definition is_surrogate (r : Z) : bool := (0xD800 <=? r) && (r <? 0xE000).

(** A Unicode scalar value. *)
Definition valid_rune (r : Z) : bool :=
  ((0 <=? r) && (r <? 0xD800)) || ((0xE000 <=? r) && (r <=? 0x10FFFF)).

(** utf8.AppendRune onto the empty slice. *)
Definition encode_rune (r0 : Z) : gostr :=
  let r := if valid_rune r0 then r0 else rune_error in
  if r <=? 0x7F then [zb r]
  else if r <=? 0x7FF then
    [zb (Z.lor 0xC0 (Z.shiftr r 6)); zb (Z.lor 0x80 (Z.land r 0x3F))]
  else if r <=? 0xFFFF then
    [zb (Z.lor 0xE0 (Z.shiftr r 12));
     zb (Z.lor 0x80 (Z.land (Z.shiftr r 6) 0x3F)); zb (Z.lor 0x80 (Z.land r 0x3F))]
  else
    [zb (Z.lor 0xF0 (Z.shiftr r 18)); zb (Z.lor 0x80 (Z.land (Z.shiftr r 12) 0x3F));
     zb (Z.lor 0x80 (Z.land (Z.shiftr r 6) 0x3F)); zb (Z.lor 0x80 (Z.land r 0x3F))].

Fixpoint runes_fuel (fuel : nat) (s : gostr) : list Z :=
  match fuel, s with
  | S f, _ :: _ => let '(r, n) := decode_rune s in r :: runes_fuel f (drop n s)
  | _, _ => []
  end.

(** []rune(s): each iteration consumes at least one byte. *)
Definition runes (s : gostr) : list Z := runes_fuel (length s) s.

(** string(rs) *)
Definition string_of_runes (rs : list Z) : gostr := concat (map encode_rune rs).

(** A whole number of well-formed runes. *)
Definition one_rune (c : gostr) : Prop := exists r, decode_ok c = Some (r, length c).

Inductive valid_utf8 : gostr -> Prop :=
| valid_nil : valid_utf8 []
| valid_cons c s : one_rune c -> valid_utf8 s -> valid_utf8 (c ++ s).

(** utf16.DecodeRune *)
Definition utf16_decode (r1 r2 : Z) : Z :=
  if (0xD800 <=? r1) && (r1 <? 0xDC00) && (0xDC00 <=? r2) && (r2 <? 0xE000)
  then Z.lor (Z.shiftl (r1 - 0xD800) 10) (r2 - 0xDC00) + 0x10000
  else rune_error.

(** ** Byte arithmetic *)

Lemma bz_zb z : 0 <= z < 256 -> bz (zb z) = z.
Proof.
  intros Hz. unfold bz, zb.
  destruct (Byte.of_N (Z.to_N z)) as [b|] eqn:E.
  - apply Byte.to_of_N in E. rewrite E. lia.
  - apply Byte.of_N_None_iff in E. lia.
Qed.

Lemma bz_inj a b : bz a = bz b -> a = b.
Proof.
  intros H. unfold bz in H. apply N2Z.inj in H.
  assert (Some a = Some b) as [=]; [|done].
  rewrite <- (Byte.of_to_N a), <- (Byte.of_to_N b). congruence.
Qed.

(** Facts about a byte, checked on all 256 of them. *)
Definition all_bytes : list byte := map (fun n => zb (Z.of_nat n)) (seq 0 256).

Lemma all_bytes_in b : In b all_bytes.
Proof.
  unfold all_bytes. apply in_map_iff. exists (Z.to_nat (bz b)).
  pose proof (bz_range b). split.
  - apply bz_inj. rewrite Z2Nat.id by lia. apply bz_zb. lia.
  - apply in_seq. lia.
Qed.

Lemma byte_forall (P : byte -> bool) : forallb P all_bytes = true -> forall b, P b = true.
Proof. intros H b. eapply forallb_forall in H; [exact H|]. apply all_bytes_in. Qed.

Lemma rune_start_cont b : rune_start b = negb (is_cont b).
Proof.
  apply eqb_prop. revert b. apply byte_forall. vm_compute. reflexivity.
Qed.

Lemma is_cont_range b : is_cont b = true <-> 0x80 <= bz b <= 0xBF.
Proof. unfold is_cont. rewrite andb_true_iff, !Z.leb_le. lia. Qed.

Lemma lead_info_spec b n lo hi :
  lead_info b = Some (n, lo, hi) ->
  (2 <= n <= 4)%nat /\ 0x80 <= lo /\ hi <= 0xBF /\ 0xC2 <= b <= 0xF4.
Proof.
  unfold lead_info. repeat case_if; intros; simplify_eq; lia.
Qed.

Lemma in_rng_cont b n lo hi c :
  lead_info b = Some (n, lo, hi) -> in_rng c lo hi = true -> is_cont c = true.
Proof.
  intros Hl Hc. apply lead_info_spec in Hl. unfold in_rng in Hc. bool_hyps.
  apply is_cont_range. lia.
Qed.

(** ** The shape of one rune *)

Lemma decode_ok_shape s r n :
  decode_ok s = Some (r, n) ->
  (1 <= n <= length s)%nat /\
  (exists b t, s = b :: t /\ is_cont b = false) /\
  Forall (fun b => is_cont b = true) (take (n - 1) (tail s)).
Proof.
  destruct s as [|b0 t]; [done|]. unfold decode_ok.
  case_if.
  { intros [= <- <-]. split_and!; [lia|simpl; lia| |simpl; constructor].
    exists b0, t. split; [done|]. apply not_true_iff_false.
    rewrite is_cont_range. lia. }
  destruct (lead_info (bz b0)) as [[[m lo] hi]|] eqn:El; [|done].
  pose proof (lead_info_spec _ _ _ _ El) as (Hm & Hlo & Hhi & Hb).
  assert (Hb0 : is_cont b0 = false)
    by (apply not_true_iff_false; rewrite is_cont_range; lia).
  intros H.
  repeat match type of H with
  | match ?x with _ => _ end = _ => destruct x eqn:?; try discriminate H
  end; simplify_eq/=; bool_hyps; (split_and!;
    [simpl; lia| simpl; lia |by eauto|repeat constructor; eauto using in_rng_cont]).
Qed.

Lemma decode_ok_app s t r n :
  decode_ok s = Some (r, n) -> decode_ok (s ++ t) = Some (r, n).
Proof.
  destruct s as [|b0 [|b1 [|b2 [|b3 s]]]]; try done; simpl;
    destruct (bz b0 <? 128); try done;
    destruct (lead_info (bz b0)) as [[[[|[|[|[|[|?]]]]] lo] hi]|]; done.
Qed.

Lemma decode_ok_take s r n :
  decode_ok s = Some (r, n) -> decode_ok (take n s) = Some (r, n).
Proof.
  intros H. pose proof H as H0.
  destruct s as [|b0 t]; [done|]. unfold decode_ok in H.
  destruct (bz b0 <? 128) eqn:E0.
  { simplify_eq. simpl. by rewrite E0. }
  destruct (lead_info (bz b0)) as [[[m lo] hi]|] eqn:El; [|done].
  repeat match type of H with
  | match ?x with _ => _ end = _ => destruct x eqn:?; try discriminate H
  end; simplify_eq/=; rewrite E0, El;
    repeat match goal with K : _ = true |- _ => rewrite K end; done.
Qed.

Lemma one_rune_take s r n :
  decode_ok s = Some (r, n) -> one_rune (take n s).
Proof.
  intros H. exists r. pose proof (decode_ok_shape _ _ _ H) as ((? & ?) & _).
  rewrite length_take, Nat.min_l by lia. by apply decode_ok_take.
Qed.

Lemma one_rune_cons c :
  one_rune c ->
  exists b t, c = b :: t /\ is_cont b = false /\ Forall (fun x => is_cont x = true) t.
Proof.
  intros [r Hr]. apply decode_ok_shape in Hr as (Hn & (b & t & -> & Hb) & Hf).
  exists b, t. split_and!; [done|done|].
  simpl in Hf. rewrite Nat.sub_0_r, take_ge in Hf; done.
Qed.

Lemma valid_utf8_app s t : valid_utf8 s -> valid_utf8 t -> valid_utf8 (s ++ t).
Proof.
  induction 1 as [|c s Hc _ IH]; [done|]. intros Ht.
  rewrite <- app_assoc. constructor; auto.
Qed.

(** The first rune of a valid string is fixed by its bytes. *)
Lemma valid_utf8_head s :
  valid_utf8 s -> s <> [] ->
  exists r n, decode_ok s = Some (r, n) /\ valid_utf8 (drop n s).
Proof.
  intros H Hne. inversion H as [|c t [r Hr] Ht]; subst; [done|].
  exists r, (length c). split; [by apply decode_ok_app|]. by rewrite drop_app_length.
Qed.

(** A position of a valid string whose byte is a rune start splits it into
    two valid strings. *)
Lemma valid_utf8_split s a :
  valid_utf8 s -> (a <= length s)%nat ->
  (a = length s \/ (a < length s)%nat /\ rune_start (bget s a) = true) ->
  valid_utf8 (take a s) /\ valid_utf8 (drop a s).
Proof.
  intros Hv. revert a. induction Hv as [|c s Hc Hs IH]; intros a Ha Hcase.
  { rewrite take_nil, drop_nil. split; constructor. }
  destruct (one_rune_cons c Hc) as (b & t & -> & Hb & Hf).
  destruct (decide (a = 0%nat)) as [->|Ha0].
  { split; [constructor|by constructor]. }
  destruct (decide (a < length (b :: t))%nat) as [Hlt|Hge].
  - exfalso. destruct Hcase as [->|[_ Hst]].
    { rewrite length_app in Hlt. lia. }
    unfold bget in Hst. rewrite app_nth1 in Hst by lia.
    destruct a as [|a]; [lia|]. simpl in Hst, Hlt.
    rewrite rune_start_cont in Hst. apply negb_true_iff in Hst.
    rewrite Forall_forall in Hf. specialize (Hf (nth a t x00)).
    rewrite Hf in Hst; [done|]. apply list_elem_of_In, nth_In. lia.
  - rewrite length_app in Ha, Hcase.
    destruct (IH (a - length (b :: t))%nat) as [H1 H2]; [lia| |].
    { destruct Hcase as [->|[Hl Hst]]; [left; lia|right]. split; [lia|].
      unfold bget in *. rewrite app_nth2 in Hst by lia. done. }
    rewrite take_app, drop_app, take_ge, drop_ge by lia.
    split; [by constructor|done].
Qed.

(** Conversely a split into valid halves is at a rune start. *)
Lemma valid_utf8_start s : valid_utf8 s -> s <> [] -> rune_start (bget s 0) = true.
Proof.
  intros H Hne. destruct H as [|c s Hc _]; [done|].
  destruct (one_rune_cons c Hc) as (b & t & -> & Hb & _). unfold bget. simpl.
  by rewrite rune_start_cont, Hb.
Qed.

(** A valid prefix can be cancelled, and so can a valid suffix. *)
Lemma valid_utf8_cancel_prefix p s :
  valid_utf8 p -> valid_utf8 (p ++ s) -> valid_utf8 s.
Proof.
  induction 1 as [|c p [r Hc] _ IH]; [done|]. rewrite <- app_assoc. intros Hv.
  pose proof (decode_ok_app _ (p ++ s) _ _ Hc) as Hd.
  pose proof (decode_ok_shape _ _ _ Hc) as ((Hn & _) & _).
  destruct (valid_utf8_head (c ++ p ++ s) Hv) as (r' & n & Hd' & Hrest).
  { by destruct c. }
  rewrite Hd in Hd'. simplify_eq. rewrite drop_app_length in Hrest. auto.
Qed.

Lemma valid_utf8_cancel_suffix m s :
  valid_utf8 s -> valid_utf8 (m ++ s) -> valid_utf8 m.
Proof.
  intros Hs Hv. destruct (decide (s = [])) as [->|Hne]; [by rewrite app_nil_r in Hv|].
  destruct (valid_utf8_split (m ++ s) (length m) Hv) as [H _].
  - rewrite length_app. lia.
  - right. split; [rewrite length_app; destruct s; simpl in *; [done|lia]|].
    unfold bget. rewrite app_nth2, Nat.sub_diag by lia.
    by apply valid_utf8_start.
  - by rewrite take_app_length in H.
Qed.
