(* ===== verification/GoStrings.v ===== *)
(** * The functions of Go's strings package the program uses

    Trimming, Split and Join around one byte, Index, ReplaceAll and Count.
    This is the language's library, not figaro: no definition of this file is a
    claim about src/. *)

From S2P Require Import Prelude Utf8.

(** unicode.IsSpace *)
Definition is_space (r : Z) : bool :=
  ((0x09 <=? r) && (r <=? 0x0D)) || (r =? 0x20) || (r =? 0x85) || (r =? 0xA0) || (r =? 0x1680) ||
  ((0x2000 <=? r) && (r <=? 0x200A)) || (r =? 0x2028) || (r =? 0x2029) || (r =? 0x202F) ||
  (r =? 0x205F) || (r =? 0x3000).

Fixpoint trim_left_fuel (fuel : nat) (s : gostr) : gostr :=
  match fuel, s with
  | S f, _ :: _ =>
      let '(r, n) := decode_rune s in if is_space r then trim_left_fuel f (drop n s) else s
  | _, _ => s
  end.
Definition TrimLeftSpace (s : gostr) : gostr := trim_left_fuel (length s) s.

(** utf8.DecodeLastRuneInString: the size of a rune that ends the string. *)
Definition decode_last (s : gostr) : Z * nat :=
  let try k := let '(r, n) := decode_rune (drop (length s - k) s) in
               if (n =? k)%nat then Some (r, k) else None in
  let at_start k := (k <=? length s)%nat && rune_start (bget s (length s - k)) in
  if (length s =? 0)%nat then (rune_error, 0%nat)
  else if at_start 1%nat then default (rune_error, 1%nat) (try 1%nat)
  else if at_start 2%nat then default (rune_error, 1%nat) (try 2%nat)
  else if at_start 3%nat then default (rune_error, 1%nat) (try 3%nat)
  else if at_start 4%nat then default (rune_error, 1%nat) (try 4%nat)
  else (rune_error, 1%nat).

Fixpoint trim_right_fuel (fuel : nat) (s : gostr) : gostr :=
  match fuel, s with
  | S f, _ :: _ =>
      let '(r, n) := decode_last s in
      if is_space r then trim_right_fuel f (take (length s - n) s) else s
  | _, _ => s
  end.
Definition TrimRightSpace (s : gostr) : gostr := trim_right_fuel (length s) s.

(** strings.TrimSpace *)
Definition TrimSpace (s : gostr) : gostr := TrimRightSpace (TrimLeftSpace s).

(** strings.TrimRight with a cutset of one ASCII byte. *)
Fixpoint drop_byte (c : byte) (s : gostr) : gostr :=
  match s with x :: s' => if Byte.eqb x c then drop_byte c s' else s | [] => [] end.
Definition TrimRightByte (s : gostr) (c : byte) : gostr := rev (drop_byte c (rev s)).

Definition LF : byte := x0a.

(** strings.Split around one byte: never empty. *)
Fixpoint SplitByte (c : byte) (s : gostr) : list gostr :=
  match s with
  | [] => [[]]
  | x :: s' =>
      if Byte.eqb x c then [] :: SplitByte c s'
      else match SplitByte c s' with l :: ls => (x :: l) :: ls | [] => [[x]] end
  end.

(** strings.Join *)
Fixpoint Join (sep : gostr) (parts : list gostr) : gostr :=
  match parts with
  | [] => []
  | [p] => p
  | p :: ps => p ++ sep ++ Join sep ps
  end.

Lemma byte_eqb_refl c : Byte.eqb c c = true.
Proof. by apply byte_eqb_eq. Qed.

Lemma Split_nonempty c s : SplitByte c s <> [].
Proof.
  induction s as [|x s IH]; cbn; [done|]. destruct (Byte.eqb x c); [done|].
  by destruct (SplitByte c s).
Qed.

Lemma Join_cons sep p ps : ps <> [] -> Join sep (p :: ps) = p ++ sep ++ Join sep ps.
Proof. by destruct ps. Qed.

(** Joining what was split gives the string back. *)
Lemma Join_Split c s : Join [c] (SplitByte c s) = s.
Proof.
  induction s as [|x s IH]; cbn [SplitByte]; [done|].
  pose proof (Split_nonempty c s) as Hne. destruct (Byte.eqb x c) eqn:E.
  - apply byte_eqb_eq in E as ->. rewrite Join_cons by done. cbn. by rewrite IH.
  - destruct (SplitByte c s) as [|l ls]; [done|]. destruct ls as [|l2 ls]; cbn in *; by rewrite IH.
Qed.

(** No piece contains the separator. *)
Lemma Split_pieces c s : Forall (fun p => c ∉ p) (SplitByte c s).
Proof.
  induction s as [|x s IH]; cbn.
  { apply Forall_singleton. apply not_elem_of_nil. }
  destruct (Byte.eqb x c) eqn:E.
  - constructor; [apply not_elem_of_nil|done].
  - pose proof (Split_nonempty c s). destruct (SplitByte c s) as [|l ls]; [done|].
    apply Forall_cons in IH as [Hl Hls]. constructor; [|done].
    rewrite not_elem_of_cons. split; [|done]. intros ->. by rewrite byte_eqb_refl in E.
Qed.

(** Splitting a join of pieces without the separator gives the pieces back. *)
Lemma Split_Join c ps :
  ps <> [] -> Forall (fun p => c ∉ p) ps -> SplitByte c (Join [c] ps) = ps.
Proof.
  intros Hne Hps. induction Hps as [|p ps Hp Hps IH]; [done|].
  assert (forall t, SplitByte c (p ++ t) =
    match SplitByte c t with l :: ls => (p ++ l) :: ls | [] => [p] end) as Hpre.
  { intros t. induction p as [|x p IHp]; cbn.
    - pose proof (Split_nonempty c t). by destruct (SplitByte c t).
    - apply not_elem_of_cons in Hp as [Hx Hp]. destruct (Byte.eqb x c) eqn:E.
      + apply byte_eqb_eq in E. by subst.
      + rewrite IHp by done. by destruct (SplitByte c t). }
  destruct ps as [|p2 ps].
  - cbn. rewrite <- (app_nil_r p) at 1. rewrite Hpre. cbn. by rewrite app_nil_r.
  - rewrite Join_cons by done. rewrite Hpre. cbn [app SplitByte]. rewrite byte_eqb_refl.
    rewrite IH by done. by rewrite app_nil_r.
Qed.

(** TrimRight removes exactly the trailing run of the byte. *)
Lemma TrimRightByte_spec s c : exists n,
  s = TrimRightByte s c ++ replicate n c /\ last (TrimRightByte s c) <> Some c.
Proof.
  unfold TrimRightByte.
  assert (forall r, exists n, r = replicate n c ++ drop_byte c r /\ head (drop_byte c r) <> Some c) as H.
  { intros r. induction r as [|x r (n & Hr & Hh)]; [by exists 0%nat|]. cbn.
    destruct (Byte.eqb x c) eqn:E.
    - apply byte_eqb_eq in E as ->. exists (S n). cbn. by rewrite <- Hr.
    - exists 0%nat. cbn. split; [done|]. intros [= ->]. by rewrite byte_eqb_refl in E. }
  destruct (H (rev s)) as (n & Hr & Hh). exists n. split.
  - transitivity (rev (replicate n c ++ drop_byte c (rev s))).
    { by rewrite <- Hr, rev_involutive. }
    rewrite rev_app_distr. f_equal. clear. induction n as [|n IH]; [done|].
    cbn. rewrite IH. by rewrite <- replicate_cons_app.
  - destruct (drop_byte c (rev s)) as [|x r]; [done|]. cbn. by rewrite last_snoc.
Qed.

Lemma glen_app {A} (s t : list A) : glen (s ++ t) = glen s + glen t.
Proof. unfold glen. rewrite length_app. lia. Qed.

Lemma glen_cons {A} (x : A) s : glen (x :: s) = 1 + glen s.
Proof. unfold glen. cbn [length]. lia. Qed.

(** Joining a concatenation. *)
Lemma Join_app c a b :
  a <> [] -> b <> [] -> Join [c] (a ++ b) = Join [c] a ++ c :: Join [c] b.
Proof.
  intros Ha Hb. induction a as [|p a IH]; [done|]. destruct a as [|q a].
  - cbn [app]. rewrite Join_cons by done. done.
  - change ((p :: q :: a) ++ b) with (p :: ((q :: a) ++ b)).
    rewrite Join_cons by (by destruct b). rewrite IH by done.
    rewrite (Join_cons _ p (q :: a)) by done. by rewrite <- !app_assoc.
Qed.

Lemma Split_count c s : length (SplitByte c s) = S (length (List.filter (Byte.eqb c) s)).
Proof.
  induction s as [|x s IH]; [done|]. cbn [SplitByte List.filter]. pose proof (Split_nonempty c s) as Hne.
  destruct (Byte.eqb x c) eqn:E.
  - apply byte_eqb_eq in E as ->. rewrite byte_eqb_refl. cbn. by rewrite IH.
  - destruct (Byte.eqb c x) eqn:E'; [apply byte_eqb_eq in E' as ->; by rewrite byte_eqb_refl in E|].
    by destruct (SplitByte c s).
Qed.

(** strings.HasSuffix of one byte, strings.Count of one byte. *)
Definition HasSuffixByte (s : gostr) (c : byte) : bool := bool_decide (last s = Some c).
Definition CountByte (s : gostr) (c : byte) : nat := length (List.filter (Byte.eqb c) s).

(** strings.IndexByte; None is -1. *)
Fixpoint IndexByte (s : gostr) (c : byte) : option nat :=
  match s with
  | [] => None
  | x :: s' => if Byte.eqb c x then Some 0%nat else S <$> IndexByte s' c
  end.

(** strings.Contains *)
Fixpoint Contains (s sub : gostr) : bool :=
  has_prefix s sub || match s with _ :: s' => Contains s' sub | [] => false end.

(** ** Lines: the chunks of a text that end in the byte, and the partial rest. *)

Fixpoint lines (c : byte) (s : gostr) : list gostr :=
  match s with
  | [] => []
  | x :: s' =>
      if Byte.eqb c x then [x] :: lines c s'
      else match lines c s' with l :: ls => (x :: l) :: ls | [] => [[x]] end
  end.

Lemma lines_concat c s : concat (lines c s) = s.
Proof.
  induction s as [|x s IH]; cbn; [done|]. destruct (Byte.eqb c x); cbn; [by rewrite IH|].
  destruct (lines c s) as [|l ls]; cbn in *; by rewrite <- IH.
Qed.

Lemma lines_nil c s : lines c s = [] <-> s = [].
Proof.
  destruct s as [|x s]; cbn; [done|]. destruct (Byte.eqb c x); [done|].
  by destruct (lines c s).
Qed.

Lemma lines_cons_other c x s :
  Byte.eqb c x = false -> length (lines c (x :: s)) = Nat.max 1 (length (lines c s)).
Proof. intros E. cbn. rewrite E. destruct (lines c s); cbn; lia. Qed.

Lemma lines_count c s :
  length (lines c s) = (CountByte s c + if HasSuffixByte s c || bool_decide (s = []) then 0 else 1)%nat.
Proof.
  unfold HasSuffixByte. induction s as [|x s IH]; [done|].
  assert (CountByte (x :: s) c = (if Byte.eqb c x then 1 else 0) + CountByte s c)%nat as ->.
  { unfold CountByte. cbn. by destruct (Byte.eqb c x). }
  rewrite (bool_decide_eq_false_2 (x :: s = [])), orb_false_r by done.
  destruct (Byte.eqb c x) eqn:E.
  - cbn [lines]. rewrite E. cbn [length]. rewrite IH. apply byte_eqb_eq in E as ->.
    destruct s as [|y s]; [by rewrite (bool_decide_eq_true_2 (last [x] = Some x))|].
    rewrite (bool_decide_eq_false_2 (y :: s = [])), orb_false_r by done. done.
  - rewrite lines_cons_other, IH by done. destruct s as [|y s].
    + cbn [last]. rewrite (bool_decide_eq_false_2 (Some x = Some c)); [done|].
      intros [= ->]. by rewrite byte_eqb_refl in E.
    + rewrite (bool_decide_eq_false_2 (y :: s = [])), orb_false_r by done.
      change (last (x :: y :: s)) with (last (y :: s)).
      assert (1 <= length (lines c (y :: s)))%nat as Hl.
      { pose proof (proj1 (lines_nil c (y :: s))). destruct (lines c (y :: s)); [naive_solver|cbn; lia]. }
      rewrite IH, (bool_decide_eq_false_2 (y :: s = [])), orb_false_r in Hl by done. lia.
Qed.

(** A prefix that ends in the byte splits off its own lines. *)
Lemma lines_app c p s :
  p = [] \/ last p = Some c -> lines c (p ++ s) = lines c p ++ lines c s.
Proof.
  induction p as [|x p IH]; intros Hp; [done|]. cbn [app lines].
  assert (p = [] /\ x = c \/ p <> [] /\ last p = Some c) as [[-> ->]|[Hne Hl]].
  { destruct Hp as [|Hp]; [done|]. destruct p as [|y p]; [by injection Hp as ->; left|by right]. }
  - cbn. by rewrite byte_eqb_refl.
  - rewrite IH by (by right). destruct (Byte.eqb c x); [done|].
    destruct (lines c p) eqn:El; [by apply lines_nil in El|done].
Qed.

(** Every line but the last ends in the byte. *)
Lemma lines_take_last c s k :
  (k < length (lines c s))%nat -> concat (take k (lines c s)) = [] \/
  last (concat (take k (lines c s))) = Some c.
Proof.
  revert k. induction s as [|x s IH]; intros k; cbn; [lia|].
  destruct (Byte.eqb c x) eqn:E.
  - apply byte_eqb_eq in E as <-. destruct k as [|k]; [by left|]. cbn. intros Hk.
    right. destruct (IH k) as [->|H]; [lia|done|].
    destruct (concat (take k (lines c s))); [done|]. exact H.
  - pose proof (IH k) as Hk. destruct (lines c s) as [|l ls] eqn:El; cbn.
    + destruct k as [|k]; [by left|]. lia.
    + destruct k as [|k]; [by left|]. cbn in *. intros Hlt. right.
      destruct (Hk Hlt) as [H|H].
      * exfalso. assert (lines c s <> []) as Hne by (by rewrite El).
        assert (l <> []) as Hl.
        { intros ->. destruct s as [|y s]; [done|]. cbn in El. destruct (Byte.eqb c y); [done|].
          by destruct (lines c s). }
        by destruct l.
      * destruct (l ++ concat (take k ls)); [done|]. exact H.
Qed.

(** Adding text never removes lines. *)
Lemma lines_len_app c s t : (length (lines c s) <= length (lines c (s ++ t)))%nat.
Proof.
  induction s as [|x s IH]; cbn [app lines]; [cbn; lia|]. destruct (Byte.eqb c x); cbn; [lia|].
  destruct (lines c s) as [|l ls] eqn:E1, (lines c (s ++ t)) as [|l' ls'] eqn:E2; cbn in *; lia.
Qed.

(** ** Substrings: strings.Index, strings.ReplaceAll, strings.Count *)

(** strings.Index; None is -1. *)
Fixpoint Index (s sub : gostr) : option nat :=
  if has_prefix s sub then Some 0%nat else
  match s with [] => None | _ :: s' => S <$> Index s' sub end.

(** The scan of strings.ReplaceAll with a non-empty [old]: [skip] is what is
    left of a match already replaced. *)
Fixpoint replace_from (old new : gostr) (skip : nat) (s : gostr) : gostr :=
  match s with
  | [] => []
  | x :: s' =>
      match skip with
      | S k => replace_from old new k s'
      | O => if has_prefix s old then new ++ replace_from old new (length old - 1) s'
             else x :: replace_from old new 0 s'
      end
  end.

(** strings.ReplaceAll with a non-empty [old], the only use in figaro. *)
Definition ReplaceAll (s old new : gostr) : gostr := replace_from old new 0 s.

Fixpoint count_from (sub : gostr) (skip : nat) (s : gostr) : nat :=
  match s with
  | [] => 0
  | _ :: s' =>
      match skip with
      | S k => count_from sub k s'
      | O => if has_prefix s sub then S (count_from sub (length sub - 1) s')
             else count_from sub 0 s'
      end
  end.

(** strings.Count: an empty substring counts the gaps between runes. *)
Definition Count (s sub : gostr) : nat :=
  match sub with [] => S (length (runes s)) | _ => count_from sub 0 s end.

(** strings.TrimRight with a cutset of ASCII bytes. *)
Fixpoint drop_set (cut : gostr) (s : gostr) : gostr :=
  match s with x :: s' => if bool_decide (x ∈ cut) then drop_set cut s' else s | [] => [] end.
Definition TrimRightSet (s cut : gostr) : gostr := rev (drop_set cut (rev s)).

(** The match found is in range and reads [sub]. *)
Lemma Index_spec s sub i :
  Index s sub = Some i ->
  (i + length sub <= length s)%nat /\ take (length sub) (drop i s) = sub.
Proof.
  revert i. induction s as [|x s IH]; intros i; cbn [Index].
  - destruct (has_prefix [] sub) eqn:E; [|done]. intros [= <-].
    apply has_prefix_spec in E as [t Ht]. apply (f_equal length) in Ht as Hl.
    rewrite length_app in Hl. cbn in Hl. destruct sub; [cbn; split; [lia|done]|cbn in Hl; lia].
  - destruct (has_prefix (x :: s) sub) eqn:E.
    + intros [= <-]. apply has_prefix_spec in E as [t ->]. rewrite length_app. split; [lia|].
      by rewrite drop_0, take_app_length.
    + destruct (Index s sub) as [j|]; [|done]. intros [= <-]. cbn [length drop].
      destruct (IH j eq_refl) as [H1 H2]. split; [lia|done].
Qed.

(** A byte that does not occur is not replaced. *)
Lemma replace_absent c new s : c ∉ s -> ReplaceAll s [c] new = s.
Proof.
  unfold ReplaceAll. induction s as [|x s IH]; [done|]. rewrite not_elem_of_cons. intros [Hx Hs].
  cbn. assert (Byte.eqb x c = false) as ->.
  { apply not_true_iff_false. rewrite byte_eqb_eq. congruence. }
  cbn. by rewrite IH.
Qed.

(** Replacing one byte distributes over concatenation. *)
Lemma replace_byte_app c new s t :
  ReplaceAll (s ++ t) [c] new = ReplaceAll s [c] new ++ ReplaceAll t [c] new.
Proof.
  unfold ReplaceAll. induction s as [|x s IH]; [done|]. cbn.
  destruct (Byte.eqb x c); cbn; rewrite IH; [by rewrite app_assoc|done].
Qed.

Lemma replace_byte_not_in c new s : c ∉ new -> c ∉ ReplaceAll s [c] new.
Proof.
  unfold ReplaceAll. intros Hn. induction s as [|x s IH]; [apply not_elem_of_nil|]. cbn.
  destruct (Byte.eqb x c) eqn:E; cbn.
  - rewrite elem_of_app. tauto.
  - rewrite elem_of_cons. intros [->|?]; [|done]. by rewrite byte_eqb_refl in E.
Qed.
