(* ===== verification/PartialJson.v ===== *)
(** * partialjson: a string field of a JSON object that is still arriving
    (src/internal/partialjson/partialjson.go).

    The parser's position is the rest of the input, b[p.i:].  Loops that jump
    ahead run on fuel; every call starts them with at least the length of the
    rest, and the [_fuel] lemmas show that any such amounts give the same. *)

From S2P Require Import Prelude Utf8.

(** A character constant. *)
Definition ch (c : byte) (n : Z) : bool := bz c =? n.
Definition QUOTE : Z := 0x22.
Definition BACKSLASH : Z := 0x5C.
Definition LBRACE : Z := 0x7B.
Definition RBRACE : Z := 0x7D.
Definition LBRACKET : Z := 0x5B.
Definition RBRACKET : Z := 0x5D.
Definition COLON : Z := 0x3A.
Definition COMMA : Z := 0x2C.
Definition LOWER_U : Z := 0x75.

(** ** Definitions *)

(** func (p *parser) peek *)
Definition peek (b : gostr) : byte := match b with [] => x00 | c :: _ => c end.

Definition is_ws (c : byte) : bool := ch c 0x20 || ch c 0x09 || ch c 0x0A || ch c 0x0D.

(** func (p *parser) skipWS; None is false. *)
Fixpoint skipWS (b : gostr) : option gostr :=
  match b with [] => None | c :: b' => if is_ws c then skipWS b' else Some b end.

(** One hex digit of func parseHex4. *)
Definition hex_digit (c : byte) : option Z :=
  if (0x30 <=? bz c) && (bz c <=? 0x39) then Some (bz c - 0x30)
  else if (0x61 <=? bz c) && (bz c <=? 0x66) then Some (bz c - 0x61 + 10)
  else if (0x41 <=? bz c) && (bz c <=? 0x46) then Some (bz c - 0x41 + 10)
  else None.

(** func parseHex4, on at least four bytes. *)
Definition parseHex4 (b : gostr) : option Z :=
  foldl (fun r c => r ← r; v ← hex_digit c; Some (Z.lor (Z.land (Z.shiftl r 4) 0xFFFF) v))
    (Some 0) (take 4 b).

(** func decodeEscape: bytes consumed and the rune. *)
Definition decodeEscape (b : gostr) : option (nat * Z) :=
  if (length b <? 2)%nat then None else
  let c := bget b 1 in
  if ch c QUOTE then Some (2%nat, QUOTE)
  else if ch c BACKSLASH then Some (2%nat, BACKSLASH)
  else if ch c 0x2F then Some (2%nat, 0x2F)
  else if ch c 0x6E then Some (2%nat, 0x0A)
  else if ch c 0x74 then Some (2%nat, 0x09)
  else if ch c 0x72 then Some (2%nat, 0x0D)
  else if ch c 0x62 then Some (2%nat, 0x08)
  else if ch c 0x66 then Some (2%nat, 0x0C)
  else if ch c LOWER_U then
    if (length b <? 6)%nat then None else
    v ← parseHex4 (drop 2 b); Some (6%nat, v)
  else None.

(** func (p *parser) parseCompleteString after its opening quote: the string so
    far is [buf]. *)
Fixpoint completeString (fuel : nat) (buf b : gostr) : option (gostr * gostr) :=
  match fuel, b with
  | O, _ | _, [] => None
  | S fuel, c :: b' =>
      if ch c QUOTE then Some (buf, b')
      else if negb (ch c BACKSLASH) then completeString fuel (buf ++ [c]) b'
      else if (length b <? 2)%nat then None
      else
        '(n, r) ← decodeEscape b;
        if r <? 0 then None
        else if is_surrogate r then
          if (length b <? n + 6)%nat || negb (ch (bget b n) BACKSLASH) ||
             negb (ch (bget b (n + 1)) LOWER_U) then None
          else
            '(_, r2) ← decodeEscape (drop n b);
            completeString fuel (buf ++ encode_rune (utf16_decode r r2)) (drop (n + 6) b)
        else completeString fuel (buf ++ encode_rune r) (drop n b)
  end.

(** func (p *parser) parseCompleteString *)
Definition parseCompleteString (b : gostr) : option (gostr * gostr) :=
  if negb (ch (peek b) QUOTE) then None
  else completeString (length b) [] (drop 1 b).

(** The continuation bytes a UTF-8 lead announces. *)
Definition want_bytes (c : byte) : nat :=
  if Z.land (bz c) 0xE0 =? 0xC0 then 2
  else if Z.land (bz c) 0xF0 =? 0xE0 then 3
  else if Z.land (bz c) 0xF8 =? 0xF0 then 4
  else 0.

(** func (p *parser) decodeTolerant: what it appends from here on. *)
Fixpoint tolerant (fuel : nat) (b : gostr) : gostr :=
  match fuel, b with
  | O, _ | _, [] => []
  | S fuel, c :: b' =>
      if ch c QUOTE then []
      else if ch c BACKSLASH then
        if (length b <? 2)%nat then [] else
        match decodeEscape b with
        | None => []
        | Some (n, r) =>
            if is_surrogate r then
              if (length b <? n + 6)%nat then []
              else if negb (ch (bget b n) BACKSLASH) || negb (ch (bget b (n + 1)) LOWER_U) then
                encode_rune rune_error ++ tolerant fuel (drop n b)
              else
                match decodeEscape (drop n b) with
                | None => []
                | Some (_, r2) =>
                    encode_rune (utf16_decode r r2) ++ tolerant fuel (drop (n + 6) b)
                end
            else encode_rune r ++ tolerant fuel (drop n b)
        end
      else if bz c <? 0x80 then c :: tolerant fuel b'
      else
        let want := want_bytes c in
        if (want =? 0)%nat then c :: tolerant fuel b'
        else if (length b <? want)%nat then []
        else take want b ++ tolerant fuel (drop want b)
  end.

Definition decodeTolerant (b : gostr) : gostr := tolerant (length b) b.

(** func (p *parser) skipString after its opening quote. *)
Fixpoint stringBody (fuel : nat) (b : gostr) : option gostr :=
  match fuel, b with
  | O, _ | _, [] => None
  | S fuel, c :: b' =>
      if ch c BACKSLASH then
        if (length b <? 2)%nat then None
        else if ch (bget b 1) LOWER_U then
          if (length b <? 6)%nat then None else stringBody fuel (drop 6 b)
        else stringBody fuel (drop 2 b)
      else if ch c QUOTE then Some b'
      else stringBody fuel b'
  end.

Definition skipString (b : gostr) : option gostr :=
  if negb (ch (peek b) QUOTE) then None else stringBody (length b) (drop 1 b).

(** func (p *parser) skipContainer, at a depth. *)
Fixpoint container (fuel : nat) (depth : Z) (b : gostr) : option gostr :=
  match fuel, b with
  | O, _ | _, [] => None
  | S fuel, c :: b' =>
      if ch c QUOTE then b1 ← skipString b; container fuel depth b1
      else if ch c LBRACE || ch c LBRACKET then container fuel (depth + 1) b'
      else if ch c RBRACE || ch c RBRACKET then
        if depth - 1 =? 0 then Some b' else container fuel (depth - 1) b'
      else container fuel depth b'
  end.

Definition skipContainer (b : gostr) : option gostr := container (length b) 0 b.

(** func (p *parser) skipLiteral *)
Definition skipLiteral (b : gostr) : option gostr :=
  if has_prefix b #"true" then Some (drop 4 b)
  else if has_prefix b #"false" then Some (drop 5 b)
  else if has_prefix b #"null" then Some (drop 4 b)
  else None.

Definition is_digit (c : byte) : bool := (0x30 <=? bz c) && (bz c <=? 0x39).
Definition is_num (c : byte) : bool :=
  is_digit c || ch c 0x2E || ch c 0x65 || ch c 0x45 || ch c 0x2B || ch c 0x2D.

Fixpoint digits (b : gostr) : gostr :=
  match b with c :: b' => if is_num c then digits b' else b | [] => [] end.

(** func (p *parser) skipNumber *)
Definition skipNumber (b : gostr) : option gostr :=
  let b1 := match b with c :: b' => if ch c 0x2D then b' else b | [] => b end in
  let b2 := digits b1 in
  if (length b2 =? 0)%nat then None
  else if (length b2 <? length b)%nat then Some b2 else None.

(** func (p *parser) skipValue *)
Definition skipValue (b : gostr) : option gostr :=
  b ← skipWS b;
  let c := peek b in
  if ch c QUOTE then skipString b
  else if ch c LBRACE || ch c LBRACKET then skipContainer b
  else if ch c 0x74 || ch c 0x66 || ch c 0x6E then skipLiteral b
  else skipNumber b.

(** The loop of func StringField over the fields. *)
Fixpoint fields (fuel : nat) (name b : gostr) : option gostr :=
  match fuel with
  | O => None
  | S fuel =>
      b ← skipWS b;
      if ch (peek b) RBRACE then None else
      '(key, b) ← parseCompleteString b;
      b ← skipWS b;
      if negb (ch (peek b) COLON) then None else
      b ← skipWS (drop 1 b);
      if bool_decide (key = name) then
        if negb (ch (peek b) QUOTE) then None else Some (decodeTolerant (drop 1 b))
      else
        b ← skipValue b;
        b ← skipWS b;
        if negb (ch (peek b) COMMA) then None else fields fuel name (drop 1 b)
  end.

(** func StringField: the value, and whether it is present. *)
Definition StringField (data name : gostr) : gostr * bool :=
  match (b ← skipWS data;
         if negb (ch (peek b) LBRACE) then None else fields (length data) name (drop 1 b)) with
  | Some v => (v, true)
  | None => ([], false)
  end.

Example stringfield_ex1 :
  StringField (zb 0x7B :: zb QUOTE :: #"a" ++ [zb QUOTE; zb COLON; zb QUOTE] ++ #"hi") #"a" = (#"hi", true).
Proof. reflexivity. Qed.

(** ** Growing the input *)

Lemma skipWS_app b ext r : skipWS b = Some r -> skipWS (b ++ ext) = Some (r ++ ext).
Proof.
  induction b as [|c b IH]; cbn; [done|]. destruct (is_ws c); [apply IH|]. by intros [= <-].
Qed.

(** What skipWS leaves is not empty and no longer than its input. *)
Lemma skipWS_len b r : skipWS b = Some r -> r <> [] /\ (length r <= length b)%nat.
Proof.
  induction b as [|c b IH]; cbn; [done|]. destruct (is_ws c).
  - intros [? ?]%IH. split; [done|lia].
  - intros [= <-]. by split.
Qed.

Lemma peek_app b ext : b <> [] -> peek (b ++ ext) = peek b.
Proof. by destruct b. Qed.

Lemma bget_app_l (b ext : gostr) i : (i < length b)%nat -> bget (b ++ ext) i = bget b i.
Proof. intros. unfold bget. by apply app_nth1. Qed.

Lemma drop_app_l (b ext : gostr) n : (n <= length b)%nat -> drop n (b ++ ext) = drop n b ++ ext.
Proof. intros. by apply drop_app_le. Qed.

(** An escape that decodes keeps its meaning. *)
Lemma decodeEscape_app b ext n r :
  decodeEscape b = Some (n, r) -> decodeEscape (b ++ ext) = Some (n, r).
Proof.
  unfold decodeEscape. destruct (Nat.ltb_spec (length b) 2); [done|].
  rewrite (proj2 (Nat.ltb_ge (length (b ++ ext)) 2)) by (rewrite length_app; lia).
  rewrite bget_app_l by lia.
  repeat (case_match; [done|]). case_match; [|done].
  destruct (Nat.ltb_spec (length b) 6); [done|].
  rewrite (proj2 (Nat.ltb_ge (length (b ++ ext)) 6)) by (rewrite length_app; lia).
  unfold parseHex4. rewrite drop_app_l, take_app_le by (rewrite ?length_drop; lia). done.
Qed.

Lemma decodeEscape_size b n r : decodeEscape b = Some (n, r) -> (2 <= n <= length b)%nat.
Proof.
  unfold decodeEscape. destruct (Nat.ltb_spec (length b) 2); [done|].
  repeat (case_match; [intros; simplify_eq; lia|]). case_match; [|done].
  destruct (Nat.ltb_spec (length b) 6); [done|].
  destruct (parseHex4 _); cbn; intros; simplify_eq. lia.
Qed.

(** An escape with its six bytes there decides alike on any longer input. *)
Lemma decodeEscape_full b ext :
  (6 <= length b)%nat -> decodeEscape (b ++ ext) = decodeEscape b.
Proof.
  intros Hl. unfold decodeEscape. rewrite !(proj2 (Nat.ltb_ge _ _)) by (rewrite ?length_app; lia).
  rewrite bget_app_l by lia. unfold parseHex4.
  by rewrite drop_app_l, take_app_le by (rewrite ?length_drop; lia).
Qed.

(** A step [f] that succeeds on a prefix succeeds alike on the longer input, with
    any larger fuel, and has made progress. *)
Lemma completeString_app fuel buf b ext fuel' key r :
  completeString fuel buf b = Some (key, r) -> (fuel <= fuel')%nat ->
  completeString fuel' buf (b ++ ext) = Some (key, r ++ ext) /\ (length r < length b)%nat.
Proof.
  revert buf b fuel'. induction fuel as [|fuel IH]; intros buf b fuel'; [done|].
  destruct fuel' as [|fuel']; [lia|]. destruct b as [|c b]; [done|]. intros H Hf.
  cbn [completeString app] in H |- *. destruct (ch c QUOTE).
  { injection H as <- <-. split; [done|cbn; lia]. }
  destruct (negb (ch c BACKSLASH)).
  { apply (IH _ _ fuel') in H as [H ?]; [|lia]. split; [done|cbn; lia]. }
  change (c :: b ++ ext) with ((c :: b) ++ ext). set (s := c :: b) in *.
  destruct (Nat.ltb_spec (length s) 2); [done|].
  rewrite (proj2 (Nat.ltb_ge (length (s ++ ext)) 2)) by (rewrite length_app; lia).
  destruct (decodeEscape s) as [[n r0]|] eqn:Ed; [|done].
  rewrite (decodeEscape_app _ ext _ _ Ed). cbn [mbind option_bind] in *.
  pose proof (decodeEscape_size _ _ _ Ed). destruct (r0 <? 0); [done|].
  destruct (is_surrogate r0).
  - destruct (Nat.ltb_spec (length s) (n + 6)); [done|]. cbn [orb] in H.
    rewrite (proj2 (Nat.ltb_ge (length (s ++ ext)) (n + 6))) by (rewrite length_app; lia).
    rewrite !bget_app_l by lia. cbn [orb]. destruct (_ || _); [done|].
    destruct (decodeEscape (drop n s)) as [[n2 r2]|] eqn:Ed2; [|done].
    rewrite (drop_app_l s ext n), (decodeEscape_app _ ext _ _ Ed2) by lia. cbn [mbind option_bind] in *.
    rewrite drop_app_l by lia. apply (IH _ _ fuel') in H as [H Hl]; [|lia]. split; [done|].
    rewrite length_drop in Hl. lia.
  - rewrite drop_app_l by lia. apply (IH _ _ fuel') in H as [H Hl]; [|lia]. split; [done|].
    rewrite length_drop in Hl. lia.
Qed.

Lemma stringBody_app fuel b ext fuel' r :
  stringBody fuel b = Some r -> (fuel <= fuel')%nat ->
  stringBody fuel' (b ++ ext) = Some (r ++ ext) /\ (length r < length b)%nat.
Proof.
  revert b fuel'. induction fuel as [|fuel IH]; intros b fuel'; [done|].
  destruct fuel' as [|fuel']; [lia|]. destruct b as [|c b]; [done|]. intros H Hf.
  cbn [stringBody app] in H |- *.
  change (c :: b ++ ext) with ((c :: b) ++ ext). set (s := c :: b) in *.
  destruct (ch c BACKSLASH).
  - destruct (Nat.ltb_spec (length s) 2); [done|].
    rewrite (proj2 (Nat.ltb_ge (length (s ++ ext)) 2)) by (rewrite length_app; lia).
    rewrite bget_app_l by lia. destruct (ch (bget s 1) LOWER_U).
    + destruct (Nat.ltb_spec (length s) 6); [done|].
      rewrite (proj2 (Nat.ltb_ge (length (s ++ ext)) 6)) by (rewrite length_app; lia).
      rewrite drop_app_l by lia. apply (IH _ fuel') in H as [H Hl]; [|lia]. split; [done|].
      rewrite length_drop in Hl. lia.
    + rewrite drop_app_l by lia. apply (IH _ fuel') in H as [H Hl]; [|lia]. split; [done|].
      rewrite length_drop in Hl. lia.
  - destruct (ch c QUOTE); [injection H as <-; split; [done|cbn; lia]|].
    apply (IH _ fuel') in H as [H Hl]; [|lia]. split; [done|cbn; lia].
Qed.

Lemma quote_nonempty b : ch (peek b) QUOTE = true -> exists c t, b = c :: t /\ ch c QUOTE = true.
Proof. destruct b; [done|]. cbn. by eauto. Qed.

Lemma skipString_app b ext r :
  skipString b = Some r -> skipString (b ++ ext) = Some (r ++ ext) /\ (length r < length b)%nat.
Proof.
  unfold skipString. destruct (ch (peek b) QUOTE) eqn:E; [|done].
  destruct (quote_nonempty _ E) as (c & t & -> & Hc). cbn [peek app drop length] in *.
  rewrite Hc, !drop_0. cbn [negb].
  intros H. apply (stringBody_app _ _ ext (S (length (t ++ ext)))) in H as [H Hl].
  - split; [done|lia].
  - rewrite length_app. lia.
Qed.

Lemma parseString_app b ext key r :
  parseCompleteString b = Some (key, r) ->
  parseCompleteString (b ++ ext) = Some (key, r ++ ext) /\ (length r < length b)%nat.
Proof.
  unfold parseCompleteString. destruct (ch (peek b) QUOTE) eqn:E; [|done].
  destruct (quote_nonempty _ E) as (c & t & -> & Hc). cbn [peek app drop length] in *.
  rewrite Hc, !drop_0. cbn [negb].
  intros H. apply (completeString_app _ _ _ ext (S (length (t ++ ext)))) in H as [H Hl].
  - split; [done|lia].
  - rewrite length_app. lia.
Qed.

Lemma container_app fuel depth b ext fuel' r :
  container fuel depth b = Some r -> (fuel <= fuel')%nat ->
  container fuel' depth (b ++ ext) = Some (r ++ ext) /\ (length r < length b)%nat.
Proof.
  revert depth b fuel'. induction fuel as [|fuel IH]; intros depth b fuel'; [done|].
  destruct fuel' as [|fuel']; [lia|]. destruct b as [|c b]; [done|]. intros H Hf.
  cbn [container app] in H |- *. change (c :: b ++ ext) with ((c :: b) ++ ext).
  destruct (ch c QUOTE).
  - destruct (skipString (c :: b)) as [b1|] eqn:Es; [|done]. cbn [mbind option_bind] in H.
    apply (skipString_app _ ext) in Es as [-> Hl]. cbn [mbind option_bind].
    apply (IH _ _ fuel') in H as [H Hl']; [|lia]. split; [done|lia].
  - destruct (_ || _).
    + apply (IH _ _ fuel') in H as [H Hl]; [|lia]. split; [done|cbn; lia].
    + destruct (ch c RBRACE || ch c RBRACKET).
      * destruct (depth - 1 =? 0); [injection H as <-; split; [done|cbn; lia]|].
        apply (IH _ _ fuel') in H as [H Hl]; [|lia]. split; [done|cbn; lia].
      * apply (IH _ _ fuel') in H as [H Hl]; [|lia]. split; [done|cbn; lia].
Qed.

Lemma prefix_app (b ext p : gostr) : has_prefix b p = true ->
  has_prefix (b ++ ext) p = true /\ (length p <= length b)%nat.
Proof.
  intros (t & ->)%has_prefix_spec. split; [|rewrite length_app; lia].
  apply has_prefix_spec. exists (t ++ ext). by rewrite app_assoc.
Qed.

(** Whether [b] starts with [p] is decided by the first [length p] bytes. *)
Lemma prefix_app_inv (b ext p : gostr) : (length p <= length b)%nat ->
  has_prefix (b ++ ext) p = has_prefix b p.
Proof.
  revert b. induction p as [|x p IH]; intros [|y b] Hl; cbn in *; try lia; [done..|].
  rewrite IH by lia. done.
Qed.

Lemma digits_app b ext : digits b <> [] -> digits (b ++ ext) = digits b ++ ext.
Proof. induction b as [|c b IH]; cbn; [done|]. by destruct (is_num c). Qed.
Lemma digits_len b : (length (digits b) <= length b)%nat.
Proof. induction b as [|c b IH]; cbn; [done|]. destruct (is_num c); cbn; lia. Qed.

Lemma skipNumber_app b ext r :
  skipNumber b = Some r -> skipNumber (b ++ ext) = Some (r ++ ext) /\ (length r < length b)%nat.
Proof.
  unfold skipNumber. destruct b as [|c b]; [done|]. cbn [app].
  set (b1 := if ch c 0x2D then b else c :: b).
  assert ((if ch c 0x2D then b ++ ext else c :: b ++ ext) = b1 ++ ext) as ->
    by (subst b1; by destruct (ch c 0x2D)).
  destruct (Nat.eqb_spec (length (digits b1)) 0) as [|Hne]; [done|].
  assert (digits b1 <> []) as Hd by (by intros E; rewrite E in Hne).
  rewrite digits_app by done.
  destruct (Nat.ltb_spec (length (digits b1)) (length (c :: b))); [|done]. intros [= <-].
  rewrite (proj2 (Nat.eqb_neq _ _)) by (rewrite length_app; lia).
  rewrite (proj2 (Nat.ltb_lt _ _)); [done|]. cbn in *. rewrite !length_app. lia.
Qed.

Lemma skipLiteral_app b ext r :
  skipLiteral b = Some r -> skipLiteral (b ++ ext) = Some (r ++ ext) /\ (length r < length b)%nat.
Proof.
  unfold skipLiteral.
  destruct (has_prefix b #"true") eqn:E1.
  { destruct (prefix_app b ext _ E1) as [-> Hl]. intros [= <-].
    change (4 <= length b)%nat in Hl.
    rewrite drop_app_l, length_drop by lia. split; [done|lia]. }
  destruct (has_prefix b #"false") eqn:E2.
  { destruct (prefix_app b ext _ E2) as [E2' Hl]. intros [= <-].
    change (5 <= length b)%nat in Hl.
    rewrite prefix_app_inv, E1, E2', drop_app_l, length_drop
      by (lia || (change (4 <= length b)%nat; lia)).
    split; [done|lia]. }
  destruct (has_prefix b #"null") eqn:E3; [|done].
  destruct (prefix_app b ext _ E3) as [E3' Hl]. intros [= <-]. change (4 <= length b)%nat in Hl.
  rewrite prefix_app_inv, E1, E3' by done.
  assert (has_prefix (b ++ ext) #"false" = false) as ->.
  { apply has_prefix_spec in E3 as [t ->]. done. }
  rewrite drop_app_l, length_drop by lia. split; [done|lia].
Qed.

Lemma skipValue_app b ext r :
  skipValue b = Some r -> skipValue (b ++ ext) = Some (r ++ ext) /\ (length r < length b)%nat.
Proof.
  unfold skipValue. destruct (skipWS b) as [b1|] eqn:Ew; [|done].
  rewrite (skipWS_app _ ext _ Ew). cbn [mbind option_bind].
  destruct (skipWS_len _ _ Ew) as [Hne Hlen]. rewrite peek_app by done.
  assert (forall f, (forall b ext r, f b = Some r -> f (b ++ ext) = Some (r ++ ext) /\ (length r < length b)%nat) ->
    f b1 = Some r -> f (b1 ++ ext) = Some (r ++ ext) /\ (length r < length b)%nat) as Hstep.
  { intros f Hf H. apply (Hf _ ext) in H as [H Hl]. split; [done|lia]. }
  destruct (ch (peek b1) QUOTE); [apply Hstep, skipString_app|].
  destruct (_ || _).
  { apply Hstep. clear. intros b ext r H. unfold skipContainer in *. eapply container_app; [done|].
    rewrite length_app. lia. }
  destruct (_ || _); [apply Hstep, skipLiteral_app|apply Hstep, skipNumber_app].
Qed.

(** What has been decoded stays, and only grows. *)
Lemma tolerant_app fuel b ext fuel' :
  (fuel <= fuel')%nat -> (length b <= fuel)%nat -> (length (b ++ ext) <= fuel')%nat ->
  exists more, tolerant fuel' (b ++ ext) = tolerant fuel b ++ more.
Proof.
  revert b fuel'. induction fuel as [|fuel IH]; intros b fuel' Hf Hl Hl'; [by eexists|].
  destruct fuel' as [|fuel']; [lia|]. destruct b as [|c b]; [by eexists|].
  cbn [length] in Hl, Hl'. cbn [tolerant app] in *.
  assert (forall p s n, (n <= length (c :: b))%nat -> (0 < n)%nat -> s = drop n (c :: b) ->
    exists more, p ++ tolerant fuel' (s ++ ext) = (p ++ tolerant fuel s) ++ more) as Hstep.
  { intros p s n Hn Hpos ->. destruct (IH (drop n (c :: b)) fuel') as [more Hm].
    - lia.
    - rewrite length_drop. cbn. lia.
    - rewrite length_app, length_drop. cbn in *. rewrite length_app in Hl'. lia.
    - exists more. by rewrite Hm, app_assoc. }
  change (c :: b ++ ext) with ((c :: b) ++ ext). 
  destruct (ch c QUOTE); [by eexists|].
  destruct (ch c BACKSLASH).
  - set (s := c :: b) in *. destruct (Nat.ltb_spec (length s) 2); [by eexists|].
    rewrite (proj2 (Nat.ltb_ge (length (s ++ ext)) 2)) by (rewrite length_app; lia).
    destruct (decodeEscape s) as [[n r]|] eqn:Ed; cycle 1.
    { by eexists. }
    rewrite (decodeEscape_app _ ext _ _ Ed). pose proof (decodeEscape_size _ _ _ Ed).
    destruct (is_surrogate r).
    + destruct (Nat.ltb_spec (length s) (n + 6)); [by eexists|].
      rewrite (proj2 (Nat.ltb_ge (length (s ++ ext)) (n + 6))) by (rewrite length_app; lia).
      rewrite !bget_app_l by lia. destruct (_ || _).
      { rewrite drop_app_l by lia. apply (Hstep _ _ n); done || lia. }
      rewrite (drop_app_l s ext n) by lia.
      rewrite decodeEscape_full by (rewrite length_drop; lia).
      destruct (decodeEscape (drop n s)) as [[n2 r2]|]; [|by eexists].
      rewrite drop_app_l by lia. apply (Hstep _ _ (n + 6)%nat); done || lia.
    + rewrite drop_app_l by lia. apply (Hstep _ _ n); done || lia.
  - destruct (bz c <? 128); [apply (Hstep [c] b 1%nat); cbn; lia || done|].
    destruct (want_bytes c =? 0)%nat eqn:Ew; [apply (Hstep [c] b 1%nat); cbn; lia || done|].
    destruct (Nat.ltb_spec (length (c :: b)) (want_bytes c)); [by eexists|].
    rewrite (proj2 (Nat.ltb_ge (length ((c :: b) ++ ext)) (want_bytes c))) by (rewrite length_app; lia).
    rewrite drop_app_l, take_app_le by lia. apply Nat.eqb_neq in Ew.
    apply (Hstep _ _ (want_bytes c)); done || lia.
Qed.

Lemma fields_app fuel name b ext fuel' v :
  fields fuel name b = Some v -> (fuel <= fuel')%nat ->
  exists more, fields fuel' name (b ++ ext) = Some (v ++ more).
Proof.
  revert b fuel'. induction fuel as [|fuel IH]; intros b fuel'; [done|].
  destruct fuel' as [|fuel']; [lia|]. cbn [fields]. intros H Hf.
  destruct (skipWS b) as [b1|] eqn:E1; [|done]. rewrite (skipWS_app _ ext _ E1).
  cbn [mbind option_bind] in *. destruct (skipWS_len _ _ E1) as [N1 L1]. rewrite peek_app by done.
  destruct (ch (peek b1) RBRACE); [done|].
  destruct (parseCompleteString b1) as [[key b2]|] eqn:E2; [|done].
  destruct (parseString_app _ ext _ _ E2) as [-> L2]. cbn [mbind option_bind] in *.
  destruct (skipWS b2) as [b3|] eqn:E3; [|done]. rewrite (skipWS_app _ ext _ E3).
  cbn [mbind option_bind] in *. destruct (skipWS_len _ _ E3) as [N3 L3]. rewrite peek_app by done.
  destruct (negb (ch (peek b3) COLON)); [done|].
  rewrite drop_app_l by (destruct b3; [done|cbn; lia]).
  destruct (skipWS (drop 1 b3)) as [b4|] eqn:E4; [|done]. rewrite (skipWS_app _ ext _ E4).
  cbn [mbind option_bind] in *. destruct (skipWS_len _ _ E4) as [N4 L4]. rewrite peek_app by done.
  case_bool_decide.
  - destruct (negb (ch (peek b4) QUOTE)); [done|]. injection H as <-.
    rewrite drop_app_l by (destruct b4; [done|cbn; lia]). unfold decodeTolerant.
    destruct (tolerant_app (length (drop 1 b4)) (drop 1 b4) ext (length (drop 1 b4 ++ ext)))
      as [more ->]; [rewrite length_app; lia|done|done|]. by exists more.
  - destruct (skipValue b4) as [b5|] eqn:E5; [|done].
    destruct (skipValue_app _ ext _ E5) as [-> L5]. cbn [mbind option_bind] in *.
    destruct (skipWS b5) as [b6|] eqn:E6; [|done]. rewrite (skipWS_app _ ext _ E6).
    cbn [mbind option_bind] in *. destruct (skipWS_len _ _ E6) as [N6 L6]. rewrite peek_app by done.
    destruct (negb (ch (peek b6) COMMA)); [done|].
    rewrite drop_app_l by (destruct b6; [done|cbn; lia]). apply IH; [done|lia].
Qed.

(** ** The fuel is enough: any two amounts that reach the input's length agree *)

(** The two base cases: no fuel, and no input. *)
Ltac fuel_zero b g Hf := destruct b, g; done || (cbn in Hf; lia).
Ltac fuel_start b g Hg :=
  let c := fresh "c" in
  destruct b as [|c b]; [by destruct g|]; destruct g as [|g]; [cbn in Hg; lia|].

Lemma tolerant_fuel f g b :
  (length b <= f)%nat -> (length b <= g)%nat -> tolerant f b = tolerant g b.
Proof.
  revert g b. induction f as [|f IH]; intros g b Hf Hg; [fuel_zero b g Hf|].
  fuel_start b g Hg.
  assert (forall n, (0 < n)%nat -> tolerant f (drop n (c :: b)) = tolerant g (drop n (c :: b))) as Hn.
  { intros n H0. apply IH; rewrite length_drop; cbn in *; lia. }
  cbn [length] in *. cbn [tolerant]. rewrite (IH g b) by lia. repeat case_if; try done.
  - destruct (decodeEscape (c :: b)) as [[n r]|] eqn:E; [|done]. apply decodeEscape_size in E as [H2 _].
    rewrite !Hn by lia. done.
  - rewrite Hn by lia. done.
Qed.

Lemma completeString_fuel f g buf b :
  (length b <= f)%nat -> (length b <= g)%nat -> completeString f buf b = completeString g buf b.
Proof.
  revert g buf b. induction f as [|f IH]; intros g buf b Hf Hg; [fuel_zero b g Hf|].
  fuel_start b g Hg.
  assert (forall n buf, (0 < n)%nat ->
    completeString f buf (drop n (c :: b)) = completeString g buf (drop n (c :: b))) as Hn.
  { intros n buf' H0. apply IH; rewrite length_drop; cbn in *; lia. }
  cbn [length] in *. cbn [completeString]. repeat (case_if; [done|]).
  case_if; [by rewrite (IH g) by lia|]. case_if; [done|].
  destruct (decodeEscape (c :: b)) as [[n r]|] eqn:E; [|done]. apply decodeEscape_size in E as [H2 _].
  cbn [mbind option_bind]. case_if; [done|]. rewrite !Hn by lia. case_if; [|done]. case_if; [done|].
  destruct (decodeEscape _) as [[m s]|]; [|done]. cbn. by rewrite Hn by lia.
Qed.

Lemma stringBody_fuel f g b :
  (length b <= f)%nat -> (length b <= g)%nat -> stringBody f b = stringBody g b.
Proof.
  revert g b. induction f as [|f IH]; intros g b Hf Hg; [fuel_zero b g Hf|].
  fuel_start b g Hg.
  assert (forall n, (0 < n)%nat -> stringBody f (drop n (c :: b)) = stringBody g (drop n (c :: b))) as Hn.
  { intros n H0. apply IH; rewrite length_drop; cbn in *; lia. }
  cbn [length] in *. cbn [stringBody]. rewrite (IH g b), !Hn by lia. done.
Qed.

Lemma skipString_len b r : skipString b = Some r -> (length r < length b)%nat.
Proof. intros H. by apply (skipString_app b [] r). Qed.

Lemma container_fuel f g depth b :
  (length b <= f)%nat -> (length b <= g)%nat -> container f depth b = container g depth b.
Proof.
  revert g depth b. induction f as [|f IH]; intros g depth b Hf Hg; [fuel_zero b g Hf|].
  fuel_start b g Hg.
  cbn [length] in *. cbn [container]. rewrite !(fun d => IH g d b) by lia.
  destruct (skipString (c :: b)) as [r|] eqn:E; [|done]. apply skipString_len in E. cbn [length] in E.
  cbn [mbind option_bind]. by rewrite (IH g depth r) by lia.
Qed.

Lemma fields_fuel f g name b :
  (length b < f)%nat -> (length b < g)%nat -> fields f name b = fields g name b.
Proof.
  revert g b. induction f as [|f IH]; intros g b Hf Hg; [lia|]. destruct g as [|g]; [lia|]. cbn [fields].
  destruct (skipWS b) as [b1|] eqn:E1; [|done]. apply skipWS_len in E1 as [_ E1]. cbn [mbind option_bind].
  case_if; [done|]. destruct (parseCompleteString b1) as [[key b2]|] eqn:E2; [|done].
  apply (parseString_app _ []) in E2 as [_ E2]. cbn [mbind option_bind].
  destruct (skipWS b2) as [b3|] eqn:E3; [|done]. apply skipWS_len in E3 as [_ E3]. cbn [mbind option_bind].
  case_if; [done|]. destruct (skipWS (drop 1 b3)) as [b4|] eqn:E4; [|done].
  apply skipWS_len in E4 as [_ E4]. rewrite length_drop in E4. cbn [mbind option_bind]. case_if; [done|].
  destruct (skipValue b4) as [b5|] eqn:E5; [|done]. apply (skipValue_app _ []) in E5 as [_ E5].
  cbn [mbind option_bind]. destruct (skipWS b5) as [b6|] eqn:E6; [|done].
  apply skipWS_len in E6 as [_ E6]. cbn [mbind option_bind]. case_if; [done|].
  apply IH; rewrite length_drop; lia.
Qed.

(** ** Properties *)

(** C39: the live preview never rewrites what it showed: once the field is present
    in a prefix of the input, it stays present on every longer input and its
    value only grows. *)
Theorem partialjson_monotonic (data ext name v : gostr)
    (Hv : StringField data name = (v, true)) :
  exists more, StringField (data ++ ext) name = (v ++ more, true).
Proof.
  unfold StringField in *.
  destruct (skipWS data) as [b|] eqn:E; [|done]. rewrite (skipWS_app _ ext _ E).
  cbn [mbind option_bind] in *. destruct (skipWS_len _ _ E) as [N L]. rewrite peek_app by done.
  destruct (negb (ch (peek b) LBRACE)); [done|].
  rewrite drop_app_l by (destruct b; [done|cbn; lia]).
  destruct (fields (length data) name (drop 1 b)) as [v'|] eqn:Ef; [|done].
  injection Hv as ->.
  destruct (fields_app _ _ _ ext (length (data ++ ext)) _ Ef) as [more ->];
    [rewrite length_app; lia|]. by exists more.
Qed.

Definition ex_obj (rest : gostr) : gostr :=
  [zb LBRACE; zb QUOTE] ++ #"content" ++ [zb QUOTE; zb COLON; zb QUOTE] ++ rest.

Lemma partialjson_monotonic_witness :
  StringField (ex_obj #"pack") #"content" = (#"pack", true) /\
  exists more, StringField (ex_obj #"pack" ++ #"age" ++ [zb QUOTE]) #"content" = (#"pack" ++ more, true).
Proof.
  assert (StringField (ex_obj #"pack") #"content" = (#"pack", true)) as H by reflexivity.
  split; [exact H|]. exact (partialjson_monotonic _ (#"age" ++ [zb QUOTE]) _ _ H).
Defined.

(** Bytes that stand for themselves between quotes. *)
Definition no_special (s : gostr) : Prop :=
  Forall (fun c => ch c QUOTE = false /\ ch c BACKSLASH = false) s.

Lemma completeString_plain name buf rest fuel :
  no_special name -> (length name < fuel)%nat ->
  completeString fuel buf (name ++ zb QUOTE :: rest) = Some (buf ++ name, rest).
Proof.
  intros Hn. revert buf fuel. induction Hn as [|c name [Hq Hb] _ IH]; intros buf fuel Hl.
  - destruct fuel; [cbn in Hl; lia|]. cbn. by rewrite app_nil_r.
  - destruct fuel as [|fuel]; [cbn in Hl; lia|]. cbn [completeString app]. rewrite Hq, Hb. cbn [negb].
    rewrite IH by (cbn in Hl; lia). by rewrite <- app_assoc.
Qed.

Lemma lead_want b n lo hi : lead_info (bz b) = Some (n, lo, hi) -> want_bytes b = n.
Proof.
  assert (forallb (fun b => match lead_info (bz b) with
    | Some (n, _, _) => (want_bytes b =? n)%nat | None => true end) all_bytes = true) as H
    by (vm_compute; reflexivity).
  intros E. pose proof (byte_forall _ H b) as Hb. cbv beta in Hb. rewrite E in Hb.
  by apply Nat.eqb_eq.
Qed.

(** A well-formed multi-byte rune has the length its lead announces. *)
Lemma one_rune_want c b t :
  one_rune c -> c = b :: t -> (bz b <? 128) = false -> want_bytes b = length c.
Proof.
  intros [r Hr] -> Hb. unfold decode_ok in Hr. rewrite Hb in Hr.
  destruct (lead_info (bz b)) as [[[n lo] hi]|] eqn:El; [|done].
  rewrite (lead_want _ _ _ _ El). revert Hr.
  destruct n as [|[|[|[|[|n]]]]]; try done; destruct t as [|b1 [|b2 [|b3 t]]]; try done;
    case_match; try done; cbn [length]; intros Hr; injection Hr; cbn [length]; intros; lia.
Qed.

Lemma one_rune_ascii b t : one_rune (b :: t) -> (bz b <? 128) = true -> t = [].
Proof. intros [r Hr] Hb. cbn in Hr. rewrite Hb in Hr. injection Hr as _ Ht. by apply nil_length_inv. Qed.

Lemma tolerant_plain v rest fuel :
  valid_utf8 v -> no_special v -> (length (v ++ rest) <= fuel)%nat ->
  exists fuel', (length rest <= fuel')%nat /\ tolerant fuel (v ++ rest) = v ++ tolerant fuel' rest.
Proof.
  intros Hv. revert fuel. induction Hv as [|c v Hc _ IH]; intros fuel Hs Hl; [by exists fuel|].
  apply Forall_app in Hs as [Hsc Hs]. rewrite <- app_assoc in *.
  destruct (one_rune_cons _ Hc) as (b & t & -> & _ & _).
  apply Forall_cons in Hsc as [[Hq Hb] _].
  destruct fuel as [|fuel]; [cbn in Hl; lia|]. cbn [tolerant app]. rewrite Hq, Hb.
  rewrite length_app in Hl. cbn [length] in Hl.
  destruct (bz b <? 128) eqn:Ea.
  - rewrite (one_rune_ascii _ _ Hc Ea) in *. cbn [app length] in *.
    destruct (IH fuel Hs) as (fuel' & Hf & ->); [lia|]. by exists fuel'.
  - rewrite (one_rune_want _ _ _ Hc eq_refl Ea). cbn [length Nat.eqb].
    change (b :: t ++ v ++ rest) with ((b :: t) ++ v ++ rest).
    rewrite (proj2 (Nat.ltb_ge _ _)) by (rewrite length_app; cbn; lia).
    change (S (length t)) with (length (b :: t)). rewrite take_app_length, drop_app_length.
    destruct (IH fuel Hs) as (fuel' & Hf & ->); [cbn in *; lia|]. exists fuel'. split; [done|].
    cbn. by rewrite app_assoc.
Qed.

(** A field whose value needs no escapes is returned exactly: while it
    streams, everything that has arrived, up to the closing quote. *)
Theorem partialjson_value (name v rest : gostr)
    (Hname : no_special name) (Hv : valid_utf8 v) (Hs : no_special v)
    (Hrest : rest = [] \/ exists tl, rest = zb QUOTE :: tl) :
  StringField ([zb LBRACE; zb QUOTE] ++ name ++ [zb QUOTE; zb COLON; zb QUOTE] ++ v ++ rest) name
  = (v, true).
Proof.
  unfold StringField. cbn [app]. set (data := zb LBRACE :: _).
  assert (skipWS data = Some data) as -> by done. cbn [mbind option_bind].
  change (negb (ch (peek data) LBRACE)) with false. cbv iota.
  change (drop 1 data) with (tail data).
  assert (length data = S (length (tail data))) as -> by done. subst data. cbn [fields tail].
  assert (forall t, skipWS (zb QUOTE :: t) = Some (zb QUOTE :: t)) as HwsQ by done.
  assert (forall t, skipWS (zb COLON :: t) = Some (zb COLON :: t)) as HwsC by done.
  rewrite HwsQ. cbn [mbind option_bind peek].
  change (ch (zb QUOTE) RBRACE) with false. cbv iota. unfold parseCompleteString. cbn [peek drop length].
  change (negb (ch (zb QUOTE) QUOTE)) with false. cbv iota. rewrite ?drop_0.
  rewrite completeString_plain by (done || rewrite length_app; lia). cbn [mbind option_bind app].
  rewrite HwsC. cbn [mbind option_bind peek drop].
  change (negb (ch (zb COLON) COLON)) with false. cbv iota. rewrite ?drop_0.
  rewrite HwsQ. cbn [mbind option_bind peek drop].
  rewrite bool_decide_eq_true_2 by done.
  change (negb (ch (zb QUOTE) QUOTE)) with false. cbv iota. rewrite ?drop_0. unfold decodeTolerant.
  destruct (tolerant_plain v rest (length (v ++ rest)) Hv Hs ltac:(done)) as (fuel & Hf & ->).
  f_equal. destruct Hrest as [->|[tl ->]]; destruct fuel; cbn; by rewrite app_nil_r.
Qed.

Lemma partialjson_value_witness :
  StringField (ex_obj (#"package main" ++ zb QUOTE :: #",")) #"content" = (#"package main", true).
Proof.
  refine (partialjson_value #"content" #"package main" (zb QUOTE :: #",") _ _ _ _).
  - repeat constructor.
  - repeat (apply (valid_cons [_]); [by eexists|]). apply valid_nil.
  - repeat constructor.
  - right. by exists #",".
Defined.
