(* ===== verification/Json.v ===== *)
(** * Decoded JSON values (Go's interface{} as encoding/json fills it)

    Tool arguments travel through figaro as map[string]interface{}.  A decoded
    object is represented by its entries in key order, the canonical form of
    the Go map, so that Leibniz equality is reflect.DeepEqual; a decoded number
    (a float64) by the text encoding/json prints for it. *)

From S2P Require Import Prelude.

#[warnings="-register-all"] Inductive json : Type :=
| JNull
| JBool (b : bool)
| JNum (text : gostr)
| JStr (s : gostr)
| JArr (l : list json)
| JObj (m : list (gostr * json)).

(** map[string]interface{} *)
Abbreviation object := (list (gostr * json)).

#[export] Instance json_eq_dec : EqDecision json.
Proof.
  refine (fix go (x y : json) {struct x} : Decision (x = y) :=
    match x, y with
    | JNull, JNull => left eq_refl
    | JBool a, JBool b => cast_if (decide (a = b))
    | JNum a, JNum b => cast_if (decide (a = b))
    | JStr a, JStr b => cast_if (decide (a = b))
    | JArr l, JArr k =>
        cast_if ((fix gol (l k : list json) {struct l} : Decision (l = k) :=
          match l, k with
          | [], [] => left eq_refl
          | a :: l, b :: k => cast_if_and (go a b) (gol l k)
          | _, _ => right _
          end) l k)
    | JObj l, JObj k =>
        cast_if ((fix gom (l k : list (gostr * json)) {struct l} : Decision (l = k) :=
          match l, k with
          | [], [] => left eq_refl
          | (i, a) :: l, (j, b) :: k => cast_if_and3 (decide (i = j)) (go a b) (gom l k)
          | _, _ => right _
          end) l k)
    | _, _ => right _
    end); clear go; abstract congruence.
Defined.
