(* ===== verification/GoJson.v ===== *)
(** * encoding/json, as the program uses it

    [Parse] is the syntax checker and reader behind json.Unmarshal: it accepts
    exactly one JSON value with blanks around it and keeps an object's members
    in the order of the text.  The [dec_] functions are the assignments
    json.Unmarshal makes into Go values: each takes the present value and gives
    the new one with whether an UnmarshalTypeError was saved on the way.
    [Print] is json.Marshal on a value in key order.  This is the language's
    library, not figaro: no definition of this file is a claim about src/. *)

From S2P Require Import Prelude Utf8 GoStrings Json.

(** ** Reading *)

Definition is_blank (c : byte) : bool :=
  (bz c =? 0x20) || (bz c =? 0x09) || (bz c =? 0x0A) || (bz c =? 0x0D).

Fixpoint blanks (b : gostr) : gostr :=
  match b with
  | c :: r => if is_blank c then blanks r else b
  | [] => []
  end.

Definition hexval (c : byte) : option Z :=
  let z := bz c in
  if (0x30 <=? z) && (z <=? 0x39) then Some (z - 0x30)
  else if (0x41 <=? z) && (z <=? 0x46) then Some (z - 0x41 + 10)
  else if (0x61 <=? z) && (z <=? 0x66) then Some (z - 0x61 + 10)
  else None.

Definition hex4 (b : gostr) : option Z :=
  match b with
  | c1 :: c2 :: c3 :: c4 :: _ =>
      match hexval c1, hexval c2, hexval c3, hexval c4 with
      | Some a, Some b, Some c, Some d => Some (a * 4096 + b * 256 + c * 16 + d)
      | _, _, _, _ => None
      end
  | _ => None
  end.

(** The character a two-byte escape stands for. *)
Definition escaped (e : byte) : option byte :=
  let z := bz e in
  if z =? 0x22 then Some x22 else if z =? 0x5C then Some x5c
  else if z =? 0x2F then Some x2f else if z =? 0x62 then Some x08
  else if z =? 0x66 then Some x0c else if z =? 0x6E then Some x0a
  else if z =? 0x72 then Some x0d else if z =? 0x74 then Some x09
  else None.

(** The two words of a backslash-u pair that form one rune. *)
Definition low_half (u : Z) (b : gostr) : option Z :=
  match b with
  | c :: e :: r =>
      if (bz c =? 0x5C) && (bz e =? 0x75) then
        match hex4 r with
        | Some u2 => let d := utf16_decode u u2 in
                     if d =? rune_error then None else Some d
        | None => None
        end
      else None
  | _ => None
  end.

(** One step inside a string literal: what it decodes to and the text left. *)
Definition str_step (b : gostr) : option (gostr * gostr) :=
  match b with
  | [] => None
  | c :: r =>
      if bz c =? 0x5C then
        match r with
        | [] => None
        | e :: r1 =>
            match escaped e with
            | Some x => Some ([x], r1)
            | None =>
                if bz e =? 0x75 then
                  match hex4 r1 with
                  | None => None
                  | Some u =>
                      let r2 := drop 4 r1 in
                      if is_surrogate u then
                        match low_half u r2 with
                        | Some d => Some (encode_rune d, drop 6 r2)
                        | None => Some (encode_rune rune_error, r2)
                        end
                      else Some (encode_rune u, r2)
                  end
                else None
            end
        end
      else if bz c <? 0x20 then None
      else let '(rn, n) := decode_rune b in Some (encode_rune rn, drop n b)
  end.

(** The rest of a string literal after its opening quote. *)
Fixpoint str_body (fuel : nat) (b : gostr) : option (gostr * gostr) :=
  match fuel, b with
  | S f, c :: r =>
      if bz c =? 0x22 then Some ([], r)
      else match str_step b with
           | Some (x, r1) =>
               match str_body f r1 with Some (s, r2) => Some (x ++ s, r2) | None => None end
           | None => None
           end
  | _, _ => None
  end.

Definition str_lit (b : gostr) : option (gostr * gostr) := str_body (length b) b.

Definition digit (c : byte) : bool := (0x30 <=? bz c) && (bz c <=? 0x39).

Fixpoint span_digits (b : gostr) : gostr * gostr :=
  match b with
  | c :: r => if digit c then let '(d, r') := span_digits r in (c :: d, r') else ([], b)
  | [] => ([], [])
  end.

(** The optional sign of a number. *)
Definition num_sign (b : gostr) : gostr * gostr :=
  match b with
  | c :: r => if bz c =? 0x2D then ([c], r) else ([], b)
  | [] => ([], [])
  end.

(** The integer part: 0, or digits that do not start with 0. *)
Definition num_int (b : gostr) : option (gostr * gostr) :=
  match b with
  | c :: r =>
      if bz c =? 0x30 then Some ([c], r)
      else if digit c then Some (span_digits b) else None
  | [] => None
  end.

(** The optional fraction. *)
Definition num_frac (b : gostr) : option (gostr * gostr) :=
  match b with
  | c :: r =>
      if bz c =? 0x2E then
        let '(d, r') := span_digits r in
        match d with [] => None | _ => Some (c :: d, r') end
      else Some ([], b)
  | [] => Some ([], [])
  end.

(** The optional exponent. *)
Definition num_exp (b : gostr) : option (gostr * gostr) :=
  match b with
  | c :: r =>
      if (bz c =? 0x65) || (bz c =? 0x45) then
        let '(s, r1) := match r with
          | e :: r' => if (bz e =? 0x2B) || (bz e =? 0x2D) then ([e], r') else ([], r)
          | [] => ([], r)
          end in
        let '(d, r2) := span_digits r1 in
        match d with [] => None | _ => Some (c :: s ++ d, r2) end
      else Some ([], b)
  | [] => Some ([], [])
  end.

(** A number literal and the text after it. *)
Definition num_lit (b : gostr) : option (gostr * gostr) :=
  let '(s, r0) := num_sign b in
  match num_int r0 with
  | None => None
  | Some (i, r1) =>
      match num_frac r1 with
      | None => None
      | Some (fr, r2) =>
          match num_exp r2 with
          | None => None
          | Some (e, r3) => Some (s ++ i ++ fr ++ e, r3)
          end
      end
  end.

(** The deepest nesting encoding/json accepts. *)
Definition max_depth : Z := 10000.

Definition word (b w : gostr) (v : json) : option (json * gostr) :=
  if has_prefix b w then Some (v, drop (length w) b) else None.

Fixpoint value (fuel : nat) (depth : Z) (b : gostr) {struct fuel} : option (json * gostr) :=
  match fuel with
  | O => None
  | S f =>
      match blanks b with
      | [] => None
      | c :: r =>
          let z := bz c in
          if z =? 0x22 then
            match str_lit r with Some (s, r') => Some (JStr s, r') | None => None end
          else if z =? 0x5B then
            if max_depth <=? depth then None else
            match blanks r with
            | [] => None
            | c' :: r' =>
                if bz c' =? 0x5D then Some (JArr [], r')
                else match elements f (depth + 1) r with
                     | Some (l, r'') => Some (JArr l, r'')
                     | None => None
                     end
            end
          else if z =? 0x7B then
            if max_depth <=? depth then None else
            match blanks r with
            | [] => None
            | c' :: r' =>
                if bz c' =? 0x7D then Some (JObj [], r')
                else match members f (depth + 1) r with
                     | Some (m, r'') => Some (JObj m, r'')
                     | None => None
                     end
            end
          else if z =? 0x74 then word (c :: r) #"true" (JBool true)
          else if z =? 0x66 then word (c :: r) #"false" (JBool false)
          else if z =? 0x6E then word (c :: r) #"null" JNull
          else match num_lit (c :: r) with
               | Some (t, r') => Some (JNum t, r')
               | None => None
               end
      end
  end
with elements (fuel : nat) (depth : Z) (b : gostr) {struct fuel}
  : option (list json * gostr) :=
  match fuel with
  | O => None
  | S f =>
      match value f depth b with
      | None => None
      | Some (v, r) =>
          match blanks r with
          | [] => None
          | c :: r' =>
              if bz c =? 0x2C then
                match elements f depth r' with
                | Some (l, r'') => Some (v :: l, r'')
                | None => None
                end
              else if bz c =? 0x5D then Some ([v], r') else None
          end
      end
  end
with members (fuel : nat) (depth : Z) (b : gostr) {struct fuel}
  : option (list (gostr * json) * gostr) :=
  match fuel with
  | O => None
  | S f =>
      match blanks b with
      | [] => None
      | q :: r0 =>
          if negb (bz q =? 0x22) then None else
          match str_lit r0 with
          | None => None
          | Some (k, r1) =>
              match blanks r1 with
              | [] => None
              | c :: r2 =>
                  if negb (bz c =? 0x3A) then None else
                  match value f depth r2 with
                  | None => None
                  | Some (v, r3) =>
                      match blanks r3 with
                      | [] => None
                      | c' :: r4 =>
                          if bz c' =? 0x2C then
                            match members f depth r4 with
                            | Some (m, r5) => Some ((k, v) :: m, r5)
                            | None => None
                            end
                          else if bz c' =? 0x7D then Some ([(k, v)], r4) else None
                      end
                  end
              end
          end
      end
  end.

(** The value a whole text denotes; [None] is a syntax error. *)
Definition Parse (b : gostr) : option json :=
  match value (2 * length b + 1) 0 b with
  | Some (v, r) => match blanks r with [] => Some v | _ => None end
  | None => None
  end.

(** ** Assigning *)

(** A key with its letters folded, as encoding/json compares field names.  Of
    the runes outside ASCII only U+212A and U+017F fold to an ASCII letter. *)
Definition fold_byte (c : byte) : byte :=
  if (0x61 <=? bz c) && (bz c <=? 0x7A) then zb (bz c - 32) else c.

Fixpoint fold_key (s : gostr) : gostr :=
  match s with
  | xe2 :: x84 :: xaa :: r => x4b :: fold_key r
  | xc5 :: xbf :: r => x53 :: fold_key r
  | c :: r => fold_byte c :: fold_key r
  | [] => []
  end.

(** What one assignment does: the new value, and whether no type error was met. *)
Abbreviation decoder T := (json -> T -> T * bool).

Definition dec_string : decoder gostr := fun j cur =>
  match j with JStr s => (s, true) | JNull => (cur, true) | _ => (cur, false) end.

Definition dec_bool : decoder bool := fun j cur =>
  match j with JBool b => (b, true) | JNull => (cur, true) | _ => (cur, false) end.

(** strconv.ParseInt of a number literal, for a 64-bit int. *)
Fixpoint digits_value (acc : Z) (s : gostr) : option Z :=
  match s with
  | [] => Some acc
  | c :: r => if digit c then digits_value (acc * 10 + (bz c - 0x30)) r else None
  end.

Definition parse_int (s : gostr) : option Z :=
  let '(neg, r) := match s with
    | c :: r => if bz c =? 0x2D then (true, r) else if bz c =? 0x2B then (false, r) else (false, s)
    | [] => (false, [])
    end in
  match r with
  | [] => None
  | _ => match digits_value 0 r with
         | Some z => let z := if neg then - z else z in
                     if (- 2 ^ 63 <=? z) && (z <? 2 ^ 63) then Some z else None
         | None => None
         end
  end.

(** strconv.ParseUint(s, 10, 64). *)
Definition parse_uint (s : gostr) : option Z :=
  match s with
  | [] => None
  | _ => match digits_value 0 s with
         | Some z => if z <? 2 ^ 64 then Some z else None
         | None => None
         end
  end.

Definition dec_int : decoder Z := fun j cur =>
  match j with
  | JNum t => match parse_int t with Some z => (z, true) | None => (cur, false) end
  | JNull => (cur, true)
  | _ => (cur, false)
  end.

(** The fields of a struct, in declaration order. *)
Abbreviation fields T := (list (gostr * decoder T)).

(** The field a key selects: an exact match before a folded one. *)
Definition field_of {T} (fs : fields T) (key : gostr) : option (decoder T) :=
  match List.find (fun f => bool_decide (f.1 = key)) fs with
  | Some f => Some f.2
  | None =>
      match List.find (fun f => bool_decide (fold_key f.1 = fold_key key)) fs with
      | Some f => Some f.2
      | None => None
      end
  end.

Definition dec_member {T} (fs : fields T) (st : T * bool) (m : gostr * json) : T * bool :=
  match field_of fs m.1 with
  | Some d => let '(t, ok) := d m.2 st.1 in (t, st.2 && ok)
  | None => st
  end.

Definition dec_struct {T} (fs : fields T) : decoder T := fun j cur =>
  match j with
  | JObj m => foldl (dec_member fs) (cur, true) m
  | JNull => (cur, true)
  | _ => (cur, false)
  end.

(** A pointer to a struct: null clears it, an object fills a fresh one if it is nil. *)
Definition dec_ptr {T} (zero : T) (d : decoder T) : decoder (option T) := fun j cur =>
  match j with
  | JNull => (None, true)
  | _ => let '(t, ok) := d j (default zero cur) in (Some t, ok)
  end.

(** A slice: null clears it; an array is decoded into the elements already
    there and, past them, into fresh ones. *)
Fixpoint dec_elems {T} (zero : T) (d : decoder T) (l : list json) (cur : list T) : list T * bool :=
  match l with
  | [] => ([], true)
  | v :: l' =>
      let '(t, ok) := d v (hd zero cur) in
      let '(ts, oks) := dec_elems zero d l' (tl cur) in (t :: ts, ok && oks)
  end.

Definition dec_slice {T} (zero : T) (d : decoder T) : decoder (list T) := fun j cur =>
  match j with
  | JNull => ([], true)
  | JArr l => dec_elems zero d l cur
  | _ => (cur, false)
  end.

(** m[k] = v on the canonical form of a map. *)
Fixpoint obj_insert (k : gostr) (v : json) (m : object) : object :=
  match m with
  | [] => [(k, v)]
  | (k', v') :: m' =>
      if bool_decide (k = k') then (k, v) :: m'
      else if str_leb k k' then (k, v) :: m
      else (k', v') :: obj_insert k v m'
  end.

(** ** float64 *)

(** A number literal: its sign, digits and decimal exponent. *)
Definition decimal (t : gostr) : bool * Z * Z :=
  let '(sign, r0) := num_sign t in
  let '(i, r1) := span_digits r0 in
  let '(fr, r2) := match r1 with
    | c :: r => if bz c =? 0x2E then span_digits r else ([], r1)
    | [] => ([], [])
    end in
  let e := match r2 with
    | _ :: s :: r => let d := default 0 (digits_value 0 (if digit s then s :: r else r)) in
                     if bz s =? 0x2D then - d else d
    | _ => 0
    end in
  (negb (bool_decide (sign = [])), default 0 (digits_value 0 (i ++ fr)), e - glen fr).

(** The literal is out of the range of float64. *)
Definition num_overflows (t : gostr) : bool :=
  let '(_, m, e) := decimal t in
  if m =? 0 then false
  else if 400 <? e then true
  else if e <? 0 then (2 ^ 1024 - 2 ^ 970) * 10 ^ (- e) <=? m
  else 2 ^ 1024 - 2 ^ 970 <=? m * 10 ^ e.

(** (-1)^f_neg * f_m * 2^f_e *)
Record float64 := mkFloat { f_neg : bool; f_m : Z; f_e : Z }.

(** n / d to 53 bits, ties to even: m and e of m * 2^e. *)
Definition round53 (n d : Z) : Z * Z :=
  let scaled e := (n * 2 ^ Z.max 0 (- e), d * 2 ^ Z.max 0 e) in
  let k := Z.log2 n - Z.log2 d - 53 in
  let k := let '(a, b) := scaled k in if a / b <? 2 ^ 53 then k else k + 1 in
  let e := Z.max k (-1074) in
  let '(a, b) := scaled e in
  let q := a / b in
  let r := 2 * (a mod b) in
  let q := if (b <? r) || ((r =? b) && Z.odd q) then q + 1 else q in
  if q =? 2 ^ 53 then (2 ^ 52, e + 1) else (q, e).

Definition float_of (m e : Z) : Z * Z := round53 (m * 10 ^ Z.max 0 e) (10 ^ Z.max 0 (- e)).

(** strconv.ParseFloat(t, 64) on a number literal; [None] is a range error. *)
Definition ParseFloat (t : gostr) : option float64 :=
  if num_overflows t then None else
  let '(neg, m, e) := decimal t in
  if m =? 0 then Some (mkFloat neg 0 0)
  else let '(m, e) := float_of m e in Some (mkFloat neg m e).

(** Comparison with an integer constant. *)
Definition f_cmp (f : float64) (z : Z) : comparison :=
  let m := if f_neg f then - f_m f else f_m f in
  (m * 2 ^ Z.max 0 (f_e f)) ?= (z * 2 ^ Z.max 0 (- f_e f)).

(** The shortest digits that read back as the number n / d = m * 2^e, given the
    decimal exponent p of its first digit plus one: of the two decimals of k
    digits around it, one that reads back, the nearer if both do. *)
Fixpoint shortest (fuel : nat) (k : Z) (n d m e p : Z) : Z * Z :=
  let a := n * 10 ^ Z.max 0 (k - p) in
  let b := d * 10 ^ Z.max 0 (p - k) in
  let lo := a / b in
  let r := 2 * (a mod b) in
  let reads x := bool_decide (float_of x (p - k) = (m, e)) in
  let near := if (b <? r) || ((r =? b) && Z.odd lo) then lo + 1 else lo in
  match fuel with
  | O => (near, p - k)
  | S fuel =>
      if (0 <? lo) && reads lo then (if reads (lo + 1) then near else lo, p - k)
      else if reads (lo + 1) then (lo + 1, p - k)
      else shortest fuel (k + 1) n d m e p
  end.

(** The digits of z without trailing zeros, and how many there were. *)
Fixpoint strip_zeros (fuel : nat) (z e : Z) : Z * Z :=
  match fuel with
  | O => (z, e)
  | S fuel => if (z mod 10 =? 0) && negb (z =? 0) then strip_zeros fuel (z / 10) (e + 1) else (z, e)
  end.

Definition zeros (n : Z) : gostr := repeat x30 (Z.to_nat n).

(** The text of a float64 in JSON: 'f' form, or 'e' form below 1e-6 and from
    1e21 on. *)
Definition FormatFloat (f : float64) : gostr :=
  let sign := if f_neg f then #"-" else [] in
  if f_m f =? 0 then sign ++ #"0" else
  let n := f_m f * 2 ^ Z.max 0 (f_e f) in
  let d := 2 ^ Z.max 0 (- f_e f) in
  let p0 := (Z.log2 n - Z.log2 d) * 30103 / 100000 - 1 in
  let below p := n * 10 ^ Z.max 0 (- p) <? d * 10 ^ Z.max 0 p in
  let p := if below p0 then p0 else if below (p0 + 1) then p0 + 1
           else if below (p0 + 2) then p0 + 2 else p0 + 3 in
  let '(z, x) := shortest 17 1 n d (f_m f) (f_e f) p in
  let '(z, x) := strip_zeros 20 z x in
  let ds := itoa z in
  let point := glen ds + x in                      (* digits before the decimal point *)
  sign ++
  let '(mm, me) := float_of 1 (-6) in              (* the constant 1e-6 *)
  (if (n * 2 ^ Z.max 0 (- me) <? mm * d) || (10 ^ 21 * d <=? n) then
     take 1 ds ++ (match drop 1 ds with [] => [] | fr => x2e :: fr end) ++
     x65 :: (if point - 1 <? 0 then itoa (point - 1) else x2b :: itoa (point - 1))
   else if point <=? 0 then #"0." ++ zeros (- point) ++ ds
   else if glen ds <=? point then ds ++ zeros (point - glen ds)
   else take (Z.to_nat point) ds ++ x2e :: drop (Z.to_nat point) ds).

Definition dec_float : decoder float64 := fun j cur =>
  match j with
  | JNum t => match ParseFloat t with Some f => (f, true) | None => (cur, false) end
  | JNull => (cur, true)
  | _ => (cur, false)
  end.

(** v as interface{}: every object becomes a map and every number a
    float64, held as the text json.Marshal gives it. *)
Fixpoint canon (v : json) : json :=
  match v with
  | JNum t => JNum (match ParseFloat t with Some f => FormatFloat f | None => t end)
  | JArr l => JArr (map canon l)
  | JObj m => JObj (foldl (fun acc kv => obj_insert kv.1 (canon kv.2) acc) [] m)
  | _ => v
  end.

(** Some number in the value does not fit a float64. *)
Fixpoint num_range_err (v : json) : bool :=
  match v with
  | JNum t => num_overflows t
  | JArr l => existsb num_range_err l
  | JObj m => existsb (fun kv => num_range_err kv.2) m
  | _ => false
  end.

(** interface{}: nil is [None]. *)
Definition dec_any : decoder (option json) := fun j cur =>
  match j with
  | JNull => (None, true)
  | _ => (Some (canon j), negb (num_range_err j))
  end.

(** A nil map[string]interface{}: [None] is the nil map. *)
Definition dec_map : decoder (option object) := fun j cur =>
  match j with
  | JNull => (None, true)
  | JObj m => (Some (foldl (fun acc kv => obj_insert kv.1 (canon kv.2) acc) (default [] cur) m),
               negb (num_range_err j))
  | _ => (cur, false)
  end.

(** json.Unmarshal(data, &cur): the value left in [cur], and err == nil. *)
Definition Unmarshal {T} (d : decoder T) (data : gostr) (cur : T) : T * bool :=
  match Parse data with
  | None => (cur, false)
  | Some j => d j cur
  end.

(** json.NewDecoder(r).Decode(&cur): the first value of the stream. *)
Definition DecodeFirst {T} (d : decoder T) (data : gostr) (cur : T) : T * bool :=
  match value (2 * length data + 1) 0 data with
  | None => (cur, false)
  | Some (j, _) => d j cur
  end.

(** ** Printing *)

Definition hexdigit (z : Z) : byte := if z <? 10 then zb (0x30 + z) else zb (0x61 + (z - 10)).

(** An escape of four hex digits. *)
Definition uescape (u : Z) : gostr :=
  [x5c; x75; hexdigit (u / 4096); hexdigit (u / 256 mod 16); hexdigit (u / 16 mod 16); hexdigit (u mod 16)].

(** The text of one ASCII character inside a string. *)
Definition print_ascii (c : byte) : gostr :=
  let z := bz c in
  if (z =? 0x22) || (z =? 0x5C) then [x5c; c]
  else if z =? 0x08 then [x5c; x62] else if z =? 0x0C then [x5c; x66]
  else if z =? 0x0A then [x5c; x6e] else if z =? 0x0D then [x5c; x72]
  else if z =? 0x09 then [x5c; x74]
  else if (z <? 0x20) || (z =? 0x3C) || (z =? 0x3E) || (z =? 0x26) then uescape z
  else [c].

Definition print_rune (b : gostr) : gostr :=
  match b with
  | [] => []
  | c :: _ =>
      if bz c <? 0x80 then print_ascii c
      else match decode_ok b with
           | None => uescape rune_error
           | Some (r, n) => if (r =? 0x2028) || (r =? 0x2029) then uescape r else take n b
           end
  end.

Fixpoint print_chars (fuel : nat) (b : gostr) : gostr :=
  match fuel, b with
  | S f, _ :: _ => print_rune b ++ print_chars f (drop (decode_rune b).2 b)
  | _, _ => []
  end.

Definition print_string (s : gostr) : gostr := x22 :: print_chars (length s) s ++ [x22].

Fixpoint Print (v : json) : gostr :=
  match v with
  | JNull => #"null"
  | JBool true => #"true"
  | JBool false => #"false"
  | JNum t => t
  | JStr s => print_string s
  | JArr l => x5b :: Join [x2c] (map Print l) ++ [x5d]
  | JObj m =>
      x7b :: Join [x2c] (map (fun kv => print_string kv.1 ++ x3a :: Print kv.2) m) ++ [x7d]
  end.

(** What json.Marshal prints back faithfully at nesting [d]: valid UTF-8,
    number literals, no deeper than the reader accepts. *)
#[warnings="-register-all"] Inductive printable : Z -> json -> Prop :=
| pr_null d : printable d JNull
| pr_bool d b : printable d (JBool b)
| pr_num d t : num_lit t = Some (t, []) -> printable d (JNum t)
| pr_str d s : valid_utf8 s -> printable d (JStr s)
| pr_arr d l : d < max_depth -> Forall (printable (d + 1)) l -> printable d (JArr l)
| pr_obj d m : d < max_depth ->
    Forall (fun kv => valid_utf8 kv.1 /\ printable (d + 1) kv.2) m -> printable d (JObj m).

(** JSON text in examples is written with single quotes for double ones. *)
Definition js (s : string) : gostr :=
  map (fun c => if Byte.eqb c x27 then x22 else c) (lit s).

(** ** Encoding inverts decoding *)

Lemma land_ones_mod a n : 0 <= n -> Z.land a (2 ^ n - 1) = a mod 2 ^ n.
Proof. intros. rewrite <- Z.land_ones by lia. by rewrite Z.ones_equiv, Z.sub_1_r. Qed.

Lemma lor_plus a b n : 0 <= n -> 0 <= b < 2 ^ n -> Z.lor (Z.shiftl a n) b = a * 2 ^ n + b.
Proof.
  intros Hn Hb.
  assert (Hl : Z.land (Z.shiftl a n) b = 0).
  { apply Z.bits_inj'. intros k Hk. rewrite Z.land_spec, Z.bits_0.
    destruct (Z.ltb_spec k n).
    - rewrite Z.shiftl_spec_low by lia. done.
    - rewrite <- (Z.mod_small b (2 ^ n)) by lia.
      rewrite Z.mod_pow2_bits_high by lia. apply andb_false_r. }
  rewrite <- Z.lxor_lor, <- Z.add_nocarry_lxor, Z.shiftl_mul_pow2 by done. done.
Qed.

Lemma lor_tag a b n : 0 <= n -> 0 <= b < 2 ^ n -> Z.lor (a * 2 ^ n) b = a * 2 ^ n + b.
Proof. intros. rewrite <- (Z.shiftl_mul_pow2 a n) at 1 by lia. by apply lor_plus. Qed.

Lemma zb_bz b : zb (bz b) = b.
Proof. apply bz_inj. apply bz_zb. apply bz_range. Qed.

Lemma land_63 z : Z.land z 0x3F = z mod 64.
Proof. exact (land_ones_mod z 6 ltac:(lia)). Qed.

Lemma land_31 z : Z.land z 0x1F = z mod 32.
Proof. exact (land_ones_mod z 5 ltac:(lia)). Qed.
Lemma land_15 z : Z.land z 0x0F = z mod 16.
Proof. exact (land_ones_mod z 4 ltac:(lia)). Qed.
Lemma land_7 z : Z.land z 0x07 = z mod 8.
Proof. exact (land_ones_mod z 3 ltac:(lia)). Qed.
Lemma lor_128 z : 0 <= z < 64 -> Z.lor 0x80 z = 0x80 + z.
Proof. intros. exact (lor_tag 2 z 6 ltac:(lia) ltac:(lia)). Qed.
Lemma lor_192 z : 0 <= z < 64 -> Z.lor 0xC0 z = 0xC0 + z.
Proof. intros. exact (lor_tag 3 z 6 ltac:(lia) ltac:(lia)). Qed.
Lemma lor_224 z : 0 <= z < 32 -> Z.lor 0xE0 z = 0xE0 + z.
Proof. intros. exact (lor_tag 7 z 5 ltac:(lia) ltac:(lia)). Qed.
Lemma lor_240 z : 0 <= z < 16 -> Z.lor 0xF0 z = 0xF0 + z.
Proof. intros. exact (lor_tag 15 z 4 ltac:(lia) ltac:(lia)). Qed.

Lemma lead_info_rng b n lo hi c :
  lead_info b = Some (n, lo, hi) -> in_rng c lo hi = true ->
  0x80 <= bz c <= 0xBF /\
  (n = 2%nat /\ 0xC2 <= b <= 0xDF \/
   n = 3%nat /\ 0xE0 <= b <= 0xEF /\ (b = 0xE0 -> 0xA0 <= bz c) /\ (b = 0xED -> bz c <= 0x9F) \/
   n = 4%nat /\ 0xF0 <= b <= 0xF4 /\ (b = 0xF0 -> 0x90 <= bz c) /\ (b = 0xF4 -> bz c <= 0x8F)).
Proof.
  unfold lead_info, in_rng. intros H1 H2.
  repeat match type of H1 with context [if ?x then _ else _] =>
    let E := fresh "E" in destruct x eqn:E; bool_hyps; try discriminate H1 end;
  simplify_eq; bool_hyps; lia.
Qed.

Lemma encode_decode s r n : decode_ok s = Some (r, n) -> encode_rune r = take n s.
Proof.
  destruct s as [|b0 t]; [done|]. unfold decode_ok.
  pose proof (bz_range b0) as R0.
  destruct (bz b0 <? 128) eqn:E0; bool_hyps.
  { intros [= <- <-]. unfold encode_rune, valid_rune.
    rewrite (proj2 (Z.leb_le 0 (bz b0))), (proj2 (Z.ltb_lt (bz b0) 55296)) by lia. simpl.
    rewrite (proj2 (Z.leb_le (bz b0) 127)), zb_bz, take_0 by lia. done. }
  destruct (lead_info (bz b0)) as [[[m lo] hi]|] eqn:El; [|done].
  destruct m as [|[|[|[|[|?]]]]]; try done.
  - destruct t as [|b1 t]; [done|]. destruct (in_rng b1 lo hi) eqn:E1; [|done].
    destruct (lead_info_rng _ _ _ _ _ El E1) as [R1 R]. intros [= <- <-].
    rewrite land_31, land_63, lor_plus by (Z.div_mod_to_equations; lia).
    set (r := _ + _). assert (Hr : r = (bz b0 - 192) * 64 + (bz b1 - 128)).
    { unfold r. Z.div_mod_to_equations. lia. }
    unfold encode_rune, valid_rune. clearbody r.
    rewrite (proj2 (Z.leb_le 0 r)), (proj2 (Z.ltb_lt r 55296)) by lia. simpl.
    rewrite (proj2 (Z.leb_gt r 127)), (proj2 (Z.leb_le r 2047)) by lia.
    rewrite land_63, Z.shiftr_div_pow2, lor_192, lor_128 by (Z.div_mod_to_equations; lia).
    change (2 ^ 6) with 64. rewrite <- (zb_bz b0), <- (zb_bz b1), !take_0.
    repeat f_equal; rewrite ?bz_zb by lia; Z.div_mod_to_equations; lia.
  - destruct t as [|b1 [|b2 t]]; try done.
    destruct (in_rng b1 lo hi) eqn:E1; [|done].
    destruct (is_cont b2) eqn:E2; [|done]. apply is_cont_range in E2.
    destruct (lead_info_rng _ _ _ _ _ El E1) as [R1 R]. intros [= <- <-].
    rewrite land_15, !land_63, (lor_plus _ _ 6), lor_plus by (Z.div_mod_to_equations; lia).
    set (r := _ + _).
    assert (Hr : r = (bz b0 - 224) * 4096 + (bz b1 - 128) * 64 + (bz b2 - 128)).
    { unfold r. Z.div_mod_to_equations. lia. }
    unfold encode_rune. clearbody r.
    replace (valid_rune r) with true.
    2:{ unfold valid_rune. symmetry. apply orb_true_iff.
        rewrite !andb_true_iff, !Z.leb_le, Z.ltb_lt. lia. }
    rewrite (proj2 (Z.leb_gt r 127)), (proj2 (Z.leb_gt r 2047)), (proj2 (Z.leb_le r 65535)) by lia.
    rewrite !land_63, !Z.shiftr_div_pow2, lor_224, !lor_128 by (Z.div_mod_to_equations; lia).
    change (2 ^ 6) with 64. change (2 ^ 12) with 4096.
    rewrite <- (zb_bz b0), <- (zb_bz b1), <- (zb_bz b2). cbn [take].
    repeat f_equal; rewrite ?bz_zb by lia; Z.div_mod_to_equations; lia.
  - destruct t as [|b1 [|b2 [|b3 t]]]; try done.
    destruct (in_rng b1 lo hi) eqn:E1; [|done].
    destruct (is_cont b2) eqn:E2; [|done]. apply is_cont_range in E2.
    destruct (is_cont b3) eqn:E3; [|done]. apply is_cont_range in E3.
    destruct (lead_info_rng _ _ _ _ _ El E1) as [R1 R]. intros [= <- <-].
    rewrite land_7, !land_63, (lor_plus _ _ 6), (lor_plus _ _ 12), lor_plus
      by (Z.div_mod_to_equations; lia).
    set (r := _ + _).
    assert (Hr : r = (bz b0 - 240) * 262144 + (bz b1 - 128) * 4096 + (bz b2 - 128) * 64
                     + (bz b3 - 128)).
    { unfold r. Z.div_mod_to_equations. lia. }
    unfold encode_rune. clearbody r.
    replace (valid_rune r) with true.
    2:{ unfold valid_rune. symmetry. apply orb_true_iff.
        rewrite !andb_true_iff, !Z.leb_le, Z.ltb_lt. lia. }
    rewrite (proj2 (Z.leb_gt r 127)), (proj2 (Z.leb_gt r 2047)), (proj2 (Z.leb_gt r 65535)) by lia.
    rewrite !land_63, !Z.shiftr_div_pow2, lor_240, !lor_128 by (Z.div_mod_to_equations; lia).
    change (2 ^ 6) with 64. change (2 ^ 12) with 4096. change (2 ^ 18) with 262144.
    rewrite <- (zb_bz b0), <- (zb_bz b1), <- (zb_bz b2), <- (zb_bz b3). cbn [take].
    repeat f_equal; rewrite ?bz_zb by lia; Z.div_mod_to_equations; lia.
Qed.

Lemma decode_ok_valid s r n : decode_ok s = Some (r, n) -> valid_rune r = true.
Proof.
  destruct s as [|b0 t]; [done|]. unfold decode_ok.
  pose proof (bz_range b0) as R0.
  destruct (bz b0 <? 128) eqn:E0; bool_hyps.
  { intros [= <- <-]. unfold valid_rune. apply orb_true_iff.
    rewrite !andb_true_iff, !Z.leb_le, Z.ltb_lt. lia. }
  destruct (lead_info (bz b0)) as [[[m lo] hi]|] eqn:El; [|done].
  destruct m as [|[|[|[|[|?]]]]]; try done.
  all: destruct t as [|b1 t]; [done|]; try destruct t as [|b2 t]; try done;
    try destruct t as [|b3 t]; try done;
    destruct (in_rng b1 lo hi) eqn:E1; try done;
    destruct (lead_info_rng _ _ _ _ _ El E1) as [R1 R].
  all: try (destruct (is_cont b2) eqn:E2; [apply is_cont_range in E2|done]).
  all: try (destruct (is_cont b3) eqn:E3; [apply is_cont_range in E3|done]).
  all: intros [= <- <-]; unfold valid_rune; apply orb_true_iff;
    rewrite !andb_true_iff, !Z.leb_le, Z.ltb_lt, ?land_31, ?land_15, ?land_7, ?land_63.
  all: rewrite ?(lor_plus _ _ 6), ?(lor_plus _ _ 12), ?(lor_plus _ _ 18)
    by (Z.div_mod_to_equations; lia); Z.div_mod_to_equations; lia.
Qed.

(** ** Printed strings read back *)

Definition byte_text_ok (c : byte) : bool :=
  negb (bz c <? 0x80) ||
  match print_ascii c with
  | x5c :: x75 :: h =>
      bool_decide (hex4 h = Some (bz c)) && bool_decide (drop 4 h = []) && negb (is_surrogate (bz c))
  | x5c :: e :: [] => bool_decide (escaped e = Some c)
  | [x] => bool_decide (x = c) && negb (bz x =? 0x22) && negb (bz x =? 0x5C) && negb (bz x <? 0x20)
  | _ => false
  end.

Lemma byte_text_all c : byte_text_ok c = true.
Proof. revert c. apply byte_forall. vm_compute. reflexivity. Qed.

Lemma hex4_app h t u : hex4 h = Some u -> hex4 (h ++ t) = Some u.
Proof. destruct h as [|? [|? [|? [|? ?]]]]; done. Qed.

Lemma encode_ascii c : bz c < 128 -> encode_rune (bz c) = [c].
Proof.
  intros H. apply (encode_decode [c] (bz c) 1). simpl. by rewrite (proj2 (Z.ltb_lt _ _) H).
Qed.

Lemma str_step_ascii c t : bz c < 128 ->
  str_step (print_ascii c ++ t) = Some ([c], t) /\
  exists x r, print_ascii c = x :: r /\ (bz x =? 0x22) = false.
Proof.
  intros Hc. pose proof (byte_text_all c) as H. unfold byte_text_ok in H.
  rewrite (proj2 (Z.ltb_lt _ _) Hc) in H. cbn [negb orb] in H.
  destruct (print_ascii c) as [|x [|e h]] eqn:E; [done| |].
  - assert (Hx : bool_decide (x = c) && negb (bz x =? 0x22) && negb (bz x =? 0x5C) &&
                 negb (bz x <? 0x20) = true) by (destruct x; exact H).
    repeat (apply andb_true_iff in Hx as [Hx ?]). rewrite !negb_true_iff in *.
    bool_hyps. subst x. split; [|exists c, []; split; [done|by apply Z.eqb_neq]].
    cbn [app]. unfold str_step, decode_rune, decode_ok.
    rewrite (proj2 (Z.eqb_neq (bz c) 92)), (proj2 (Z.ltb_ge (bz c) 32)),
      (proj2 (Z.ltb_lt (bz c) 128)), encode_ascii by lia. done.
  - destruct x; try done. destruct (decide (e = x75)) as [->|Hne].
    + bool_hyps. split; [|by eauto]. rename h into h0.
      assert (Ht : drop 4 (h0 ++ t) = t).
      { match goal with K : drop 4 h0 = [] |- _ => revert K end.
        destruct h0 as [|? [|? [|? [|? l]]]]; try discriminate H. cbn [app]. rewrite !skipn_cons, !drop_0. by intros ->. }
      cbn [app]. unfold str_step.
      change (bz x5c =? 92) with true. change (escaped x75) with (@None byte).
      change (bz x75 =? 117) with true. cbv iota zeta beta.
      rewrite (hex4_app _ t _ H), Ht.
      match goal with K : is_surrogate _ = false |- _ => rewrite K end.
      by rewrite encode_ascii.
    + assert (Hh : h = [] /\ escaped e = Some c) by (destruct e, h; try done; bool_hyps; done).
      destruct Hh as [-> He]. split; [|by eauto]. cbn [app]. unfold str_step. cbn -[escaped].
      by rewrite He.
Qed.

(** The text of one rune decodes to the rune. *)
Lemma str_step_rune c t : one_rune c ->
  str_step (print_rune c ++ t) = Some (c, t) /\
  exists x r, print_rune c = x :: r /\ (bz x =? 0x22) = false.
Proof.
  intros [r Hr]. destruct (decode_ok_shape _ _ _ Hr) as ((Hn & _) & (b & u & -> & Hb) & _).
  pose proof (encode_decode _ _ _ Hr) as He. rewrite firstn_all in He.
  unfold print_rune. rewrite Hr. destruct (bz b <? 128) eqn:E; bool_hyps.
  { assert (u = []) as ->.
    { unfold decode_ok in Hr. rewrite (proj2 (Z.ltb_lt _ _) E) in Hr.
      destruct u; [done|]. simplify_eq. }
    by apply str_step_ascii. }
  case_if.
  - apply orb_true_iff in Eif. rewrite !Z.eqb_eq in Eif.
    destruct Eif as [-> | ->]; vm_compute in He; simplify_eq; (split; [done|by eauto]).
  - rewrite firstn_all. split.
    + unfold str_step. cbn [app].
      destruct (bz b =? 92) eqn:?; [bool_hyps; lia|].
      destruct (bz b <? 32) eqn:?; [bool_hyps; lia|].
      change (b :: u ++ t) with ((b :: u) ++ t).
      assert (Hd : decode_rune ((b :: u) ++ t) = (r, length (b :: u))).
      { unfold decode_rune. cbn [app]. change (b :: u ++ t) with ((b :: u) ++ t).
        by rewrite (decode_ok_app _ t _ _ Hr). }
      rewrite Hd, He. by rewrite drop_app_length.
    + exists b, u. split; [done|]. apply Z.eqb_neq. lia.
Qed.

Lemma print_rune_app c s : one_rune c -> print_rune (c ++ s) = print_rune c.
Proof.
  intros [r Hr]. destruct (decode_ok_shape _ _ _ Hr) as ((Hn & _) & (b & u & -> & Hb) & _).
  unfold print_rune. cbn [app]. change (b :: u ++ s) with ((b :: u) ++ s).
  rewrite (decode_ok_app _ s _ _ Hr), Hr. by rewrite take_app_length, firstn_all.
Qed.

(** One rune of the text at a time. *)
Lemma print_chars_cons f c s : one_rune c ->
  print_chars (S f) (c ++ s) = print_rune c ++ print_chars f s.
Proof.
  intros Hc. pose proof Hc as [r Hr]. destruct (decode_ok_shape _ _ _ Hr) as ((Hn & _) & (b & u & -> & Hb) & _).
  cbn [print_chars app]. change (b :: u ++ s) with ((b :: u) ++ s).
  assert (Hd : decode_rune ((b :: u) ++ s) = (r, length (b :: u))).
  { unfold decode_rune. cbn [app]. change (b :: u ++ s) with ((b :: u) ++ s).
    by rewrite (decode_ok_app _ s _ _ Hr). }
  rewrite Hd. cbn [snd]. by rewrite drop_app_length, print_rune_app.
Qed.

(** More fuel than text changes nothing. *)
Lemma str_body_fuel f g b : (length b <= f)%nat -> (length b <= g)%nat -> str_body f b = str_body g b.
Proof.
  revert g b. induction f as [|f IH]; intros [|g] [|c r] Hf Hg; cbn [length str_body] in *; try lia; try done.
  destruct (bz c =? 34); [done|]. destruct (str_step (c :: r)) as [[x r1]|] eqn:Es; [|done].
  assert (length r1 <= length r)%nat as Hl.
  { clear -Es. unfold str_step in Es. destruct (bz c =? 92).
    - destruct r as [|e r0]; [done|]. destruct (escaped e); [injection Es as <- <-; simpl; lia|].
      destruct (bz e =? 117); [|done]. destruct (hex4 r0); [|done].
      destruct (is_surrogate _); [destruct (low_half _ _)|];
        injection Es as <- <-; rewrite ?length_drop; simpl; lia.
    - destruct (bz c <? 32); [done|]. destruct (decode_rune (c :: r)) as [q n] eqn:Ed.
      injection Es as <- <-. unfold decode_rune in Ed.
      assert (1 <= n)%nat.
      { destruct (decode_ok (c :: r)) as [[q' n']|] eqn:Ek; injection Ed as <- <-; [|lia].
        apply decode_ok_shape in Ek. lia. }
      rewrite length_drop. simpl. lia. }
  rewrite (IH g r1) by lia. done.
Qed.

Lemma print_chars_len f s : valid_utf8 s -> (length s <= f)%nat ->
  (length s <= length (print_chars f s))%nat.
Proof.
  intros Hv. revert f. induction Hv as [|c s Hc Hs IH]; intros f Hf; [simpl; lia|].
  pose proof Hc as [r Hr]. destruct (decode_ok_shape _ _ _ Hr) as ((Hn & _) & (b & u & -> & Hb) & _).
  rewrite length_app in Hf. destruct f as [|f]; [simpl in Hf; lia|].
  rewrite print_chars_cons, !length_app by done.
  specialize (IH f). simpl in Hf.
  enough (length (b :: u) <= length (print_rune (b :: u)))%nat by (pose proof (IH ltac:(lia)); lia).
  unfold print_rune. rewrite Hr. case_if.
  - unfold decode_ok in Hr. rewrite (proj2 (Z.ltb_lt _ _) Eif) in Hr. simplify_eq.
    destruct u; [|done]. simpl.
    destruct (str_step_ascii b [] Eif) as [_ (x & q & -> & _)]. simpl. lia.
  - case_if; [|by rewrite firstn_all].
    pose proof (encode_decode _ _ _ Hr) as He. rewrite firstn_all in He.
    apply orb_true_iff in Eif0. rewrite !Z.eqb_eq in Eif0.
    destruct Eif0 as [-> | ->]; vm_compute in He; rewrite <- He; vm_compute; lia.
Qed.

Lemma str_body_print f g s t : valid_utf8 s -> (length s <= f)%nat ->
  (length (print_chars f s) + 1 <= g)%nat ->
  str_body g (print_chars f s ++ x22 :: t) = Some (s, t).
Proof.
  intros Hv. revert f g. induction Hv as [|c s Hc Hs IH]; intros f g Hf Hg.
  { destruct g; [destruct f; simpl in Hg; lia|]. by destruct f. }
  pose proof Hc as [r Hr]. destruct (decode_ok_shape _ _ _ Hr) as ((Hn & _) & (b & u & -> & Hb) & _).
  rewrite length_app in Hf. destruct f as [|f]; [simpl in Hf; lia|].
  pose proof (print_chars_cons f _ s Hc) as Hp.
  rewrite Hp in Hg |- *. rewrite length_app in Hg. rewrite <- app_assoc.
  destruct (str_step_rune (b :: u) (print_chars f s ++ x22 :: t) Hc) as [Hs1 (x & q & Hx & Hq)].
  destruct g as [|g]; [lia|].
  rewrite Hx in Hs1 |- *. cbn [app str_body] in *. rewrite Hq, Hs1.
  rewrite IH; [done|simpl in Hf; lia|]. rewrite Hx in Hg. simpl in Hg. lia.
Qed.

(** The text of a string reads back as the string. *)
Lemma str_lit_print s t : valid_utf8 s ->
  str_lit (print_chars (length s) s ++ x22 :: t) = Some (s, t).
Proof. intros. apply str_body_print; [done|done|]. rewrite length_app. simpl. lia. Qed.

(** ** What is printed is UTF-8 *)

Lemma valid_ascii c s : bz c < 128 -> valid_utf8 s -> valid_utf8 (c :: s).
Proof.
  intros Hc Hs. change (c :: s) with ([c] ++ s). constructor; [|done].
  exists (bz c). simpl. by rewrite (proj2 (Z.ltb_lt _ _) Hc).
Qed.

Lemma valid_lit s : forallb (fun c => bz c <? 128) s = true -> valid_utf8 s.
Proof.
  induction s as [|c s IH]; [constructor|]. cbn [forallb]. intros H.
  apply andb_true_iff in H as [Hc Hs]. apply Z.ltb_lt in Hc. by apply valid_ascii; auto.
Qed.

Ltac lit_ok := apply valid_lit; vm_compute; reflexivity.

Lemma print_ascii_utf8 c : bz c < 128 -> valid_utf8 (print_ascii c).
Proof.
  assert (H : (128 <=? bz c) || forallb (fun x => bz x <? 128) (print_ascii c) = true)
    by (revert c; apply byte_forall; vm_compute; reflexivity).
  intros Hc. apply orb_true_iff in H as [H|H]; bool_hyps; [lia|by apply valid_lit].
Qed.

Lemma print_rune_utf8 c : one_rune c -> valid_utf8 (print_rune c).
Proof.
  intros [r Hr]. pose proof Hr as Hr'. destruct (decode_ok_shape _ _ _ Hr) as ((Hn & _) & (b & u & -> & Hb) & _).
  unfold print_rune. rewrite Hr. destruct (bz b <? 128) eqn:E; bool_hyps; [by apply print_ascii_utf8|].
  destruct ((r =? 0x2028) || (r =? 0x2029)) eqn:E2.
  - apply orb_true_iff in E2. rewrite !Z.eqb_eq in E2. destruct E2 as [-> | ->]; lit_ok.
  - rewrite firstn_all, <- (app_nil_r (b :: u)). constructor; [by exists r|constructor].
Qed.

Lemma print_string_utf8 s : valid_utf8 s -> valid_utf8 (print_string s).
Proof.
  intros Hs. apply valid_ascii; [done|]. apply valid_utf8_app; [|lit_ok].
  assert (Hf : (length s <= length s)%nat) by lia. revert Hf. generalize (length s) at 2 3 as f.
  induction Hs as [|c s Hc Hs IH]; intros f Hf; [destruct f; constructor|].
  destruct (one_rune_cons c Hc) as (b & t & -> & _ & _). rewrite length_app in Hf.
  destruct f as [|f]; [cbn in Hf; lia|]. rewrite print_chars_cons by done.
  apply valid_utf8_app; [by apply print_rune_utf8|]. apply IH. cbn in Hf. lia.
Qed.

Lemma Join_utf8 sep l : valid_utf8 sep -> Forall valid_utf8 l -> valid_utf8 (Join sep l).
Proof.
  intros Hs. induction 1 as [|x l Hx Hl IH]; [constructor|].
  destruct l as [|y l]; [done|]. rewrite Join_cons by done. by repeat apply valid_utf8_app.
Qed.

Abbreviation ascii := (Forall (fun c => bz c < 128)).

Lemma ascii_utf8 s : ascii s -> valid_utf8 s.
Proof. induction 1; [constructor|by apply valid_ascii]. Qed.

(** The bytes of a number literal. *)
Abbreviation num_text := (Forall (fun c => 43 <= bz c <= 57 \/ bz c = 69 \/ bz c = 101)).

Lemma span_digits_text s a r : span_digits s = (a, r) -> num_text a.
Proof.
  revert a r. induction s as [|c s IH]; intros a r; cbn; [by intros [= <- <-]|].
  destruct (digit c) eqn:Ed; [|by intros [= <- <-]].
  destruct (span_digits s) as [d r'] eqn:Es. intros [= <- <-]. constructor; [|by eapply IH].
  unfold digit in Ed. bool_hyps. lia.
Qed.

Lemma num_int_text s a r : num_int s = Some (a, r) -> num_text a.
Proof.
  unfold num_int. destruct s as [|c s]; [done|]. destruct (bz c =? 48) eqn:E; bool_hyps.
  - intros [= <- <-]. constructor; [lia|done].
  - destruct (digit c); [|done]. intros H. apply (span_digits_text (c :: s) a r). congruence.
Qed.

Lemma num_frac_text s a r : num_frac s = Some (a, r) -> num_text a.
Proof.
  unfold num_frac. destruct s as [|c s]; [by intros [= <- <-]|].
  destruct (bz c =? 46) eqn:E; bool_hyps; [|by intros [= <- <-]].
  destruct (span_digits s) as [d r'] eqn:Es. apply span_digits_text in Es.
  destruct d; [done|]. intros [= <- <-]. constructor; [lia|done].
Qed.

Lemma num_exp_text s a r : num_exp s = Some (a, r) -> num_text a.
Proof.
  unfold num_exp. destruct s as [|c s]; [by intros [= <- <-]|].
  destruct ((bz c =? 101) || (bz c =? 69)) eqn:E; [|by intros [= <- <-]].
  apply orb_true_iff in E. rewrite !Z.eqb_eq in E.
  destruct (match s with [] => _ | _ => _ end) as [sg r1] eqn:Es.
  assert (Hsg : num_text sg).
  { destruct s as [|e s]; [by simplify_eq|]. destruct ((bz e =? 43) || (bz e =? 45)) eqn:E2; simplify_eq; [|done].
    apply orb_true_iff in E2. rewrite !Z.eqb_eq in E2. constructor; [lia|done]. }
  destruct (span_digits r1) as [d r2] eqn:Ed. apply span_digits_text in Ed.
  destruct d; [done|]. intros [= <- <-]. constructor; [lia|]. by apply Forall_app.
Qed.

Lemma num_lit_text s t r : num_lit s = Some (t, r) -> num_text t.
Proof.
  unfold num_lit. destruct (num_sign s) as [sg r0] eqn:Es.
  assert (Hs : num_text sg).
  { unfold num_sign in Es. destruct s as [|c s]; [by simplify_eq|].
    destruct (bz c =? 45) eqn:E; simplify_eq; bool_hyps; [|done]. constructor; [lia|done]. }
  destruct (num_int r0) as [[i r1]|] eqn:Ei; [|done]. apply num_int_text in Ei.
  destruct (num_frac r1) as [[fr r2]|] eqn:Ef; [|done]. apply num_frac_text in Ef.
  destruct (num_exp r2) as [[e r3]|] eqn:Ee; [|done]. apply num_exp_text in Ee.
  intros [= <- <-]. by rewrite !Forall_app.
Qed.

Lemma num_lit_ascii s t r : num_lit s = Some (t, r) -> ascii t.
Proof. intros H%num_lit_text. eapply Forall_impl; [done|]. cbn. lia. Qed.

(** ** Printed values read back *)

Lemma json_rect' (P : json -> Prop) :
  P JNull -> (forall b, P (JBool b)) -> (forall t, P (JNum t)) -> (forall s, P (JStr s)) ->
  (forall l, Forall P l -> P (JArr l)) ->
  (forall m, Forall (fun kv => P kv.2) m -> P (JObj m)) -> forall v, P v.
Proof.
  intros Hn Hb Hnum Hs Ha Ho.
  fix IH 1. intros [|b|t|s|l|m]; [apply Hn|apply Hb|apply Hnum|apply Hs| |].
  - apply Ha. induction l as [|v l IHl]; constructor; [apply IH|apply IHl].
  - apply Ho. induction m as [|[k v] m IHm]; constructor; [apply IH|apply IHm].
Qed.

(** Text after a number that cannot continue it. *)
Definition ends (t : gostr) : Prop :=
  match t with
  | [] => True
  | c :: _ => digit c = false /\ (bz c =? 0x2E) = false /\ (bz c =? 0x65) = false /\ (bz c =? 0x45) = false
  end.

Lemma span_digits_app s a r t : span_digits s = (a, r) -> ends t -> span_digits (s ++ t) = (a, r ++ t).
Proof.
  intros H Ht. revert a r H. induction s as [|c s IH]; intros a r H; simpl in *.
  - simplify_eq. destruct t as [|c t]; [done|]. simpl. destruct Ht as [-> _]. done.
  - destruct (digit c); [|by simplify_eq].
    destruct (span_digits s) as [d r'] eqn:E. simplify_eq. by rewrite (IH _ _ eq_refl).
Qed.

Lemma num_exp_app s a r t : num_exp s = Some (a, r) -> ends t -> num_exp (s ++ t) = Some (a, r ++ t).
Proof.
  destruct s as [|c s].
  - intros [= <- <-]. destruct t as [|c t]; [done|]. simpl. by intros (_ & _ & -> & ->).
  - intros H Ht. unfold num_exp in *. cbn [app].
    destruct ((bz c =? 101) || (bz c =? 69)); [|by simplify_eq].
    destruct s as [|e s]; [done|]. cbn [app].
    destruct ((bz e =? 43) || (bz e =? 45)).
    + destruct (span_digits s) as [d r2] eqn:E. rewrite (span_digits_app _ _ _ t E) by done.
      destruct d; by simplify_eq.
    + destruct (span_digits (e :: s)) as [d r2] eqn:E.
      change (e :: s ++ t) with ((e :: s) ++ t).
      rewrite (span_digits_app _ _ _ t E Ht). destruct d; by simplify_eq.
Qed.

Lemma num_frac_app s a r t : num_frac s = Some (a, r) -> ends t -> num_frac (s ++ t) = Some (a, r ++ t).
Proof.
  destruct s as [|c s]; simpl.
  - intros [= <- <-]. destruct t as [|c t]; [done|]. simpl. by intros (_ & -> & _).
  - intros H Ht. destruct (bz c =? 46); [|by simplify_eq].
    destruct (span_digits s) as [d r2] eqn:E. rewrite (span_digits_app _ _ _ t E) by done.
    destruct d; by simplify_eq.
Qed.

Lemma num_int_app s a r t : num_int s = Some (a, r) -> ends t -> num_int (s ++ t) = Some (a, r ++ t).
Proof.
  destruct s as [|c s]; [done|]. unfold num_int. cbn [app].
  intros H Ht. destruct (bz c =? 48); [by simplify_eq|]. destruct (digit c) eqn:Ed; [|done].
  assert (H2 : span_digits (c :: s) = (a, r)) by (by injection H).
  change (c :: s ++ t) with ((c :: s) ++ t).
  by rewrite (span_digits_app _ _ _ t H2).
Qed.

Lemma num_lit_app s a t : num_lit s = Some (a, []) -> ends t -> num_lit (s ++ t) = Some (a, t).
Proof.
  unfold num_lit. intros H Ht.
  assert (Hs : s <> [] -> num_sign (s ++ t) = ((num_sign s).1, (num_sign s).2 ++ t)).
  { destruct s as [|c s]; [done|]. intros _. simpl. by case_if. }
  destruct (num_sign s) as [sg r0] eqn:E0.
  destruct (num_int r0) as [[i r1]|] eqn:E1; [|done].
  rewrite Hs by (intros ->; simpl in E0; by simplify_eq). cbn [fst snd].
  rewrite (num_int_app _ _ _ t E1 Ht).
  destruct (num_frac r1) as [[fr r2]|] eqn:E2; [|done]. rewrite (num_frac_app _ _ _ t E2 Ht).
  destruct (num_exp r2) as [[e r3]|] eqn:E3; [|done]. rewrite (num_exp_app _ _ _ t E3 Ht).
  by simplify_eq.
Qed.

Lemma num_lit_head t : num_lit t = Some (t, []) ->
  exists c r, t = c :: r /\ (digit c = true \/ c = x2d).
Proof.
  destruct t as [|c r]; [done|]. intros H. exists c, r. split; [done|].
  unfold num_lit, num_sign in H. destruct (bz c =? 45) eqn:E; bool_hyps.
  - right. by apply bz_inj.
  - left. unfold num_int in H. destruct (bz c =? 48) eqn:E'; bool_hyps.
    + unfold digit. by rewrite E'.
    + by destruct (digit c).
Qed.

(** The first byte of a printed value. *)
Definition opens (c : byte) : bool :=
  negb (is_blank c) && negb (bz c =? 0x5D) && negb (bz c =? 0x7D).

Lemma Print_head d v : printable d v -> exists c r, Print v = c :: r /\ opens c = true.
Proof.
  intros H. destruct H as [| |? ? Hn| | |].
  - by eexists _, _.
  - destruct b; by eexists _, _.
  - destruct (num_lit_head _ Hn) as (c & r & -> & Hc). exists c, r. split; [done|].
    destruct Hc as [Hc|Hc]; [|by subst].
    revert Hc. pattern c. generalize c. clear.
    assert (forall c, implb (digit c) (opens c) = true) as Hall
      by (apply byte_forall; vm_compute; reflexivity).
    intros c Hc. specialize (Hall c). by rewrite Hc in Hall.
  - by eexists _, _.
  - by eexists _, _.
  - by eexists _, _.
Qed.

Lemma blanks_open c r : opens c = true -> blanks (c :: r) = c :: r.
Proof. unfold opens. intros H. bool_hyps. simpl. by destruct (is_blank c). Qed.

Definition reads_back (v : json) : Prop := forall d f t,
  printable d v -> (2 * length (Print v) <= f)%nat -> ends t -> value f d (Print v ++ t) = Some (v, t).

Lemma elements_print l d f t :
  Forall reads_back l -> Forall (printable d) l -> l <> [] ->
  (2 * length (Join [x2c] (map Print l)) + 1 <= f)%nat ->
  elements f d (Join [x2c] (map Print l) ++ x5d :: t) = Some (l, t).
Proof.
  intros Hrb Hp. revert f. induction Hp as [|v l Hv Hp IH]; intros f Hne Hf; [done|].
  inversion Hrb as [|? ? Hr Hrl]; subst. specialize (IH Hrl).
  destruct f as [|f]; [lia|]. cbn [elements].
  destruct l as [|w l].
  - cbn [map Join] in *. rewrite Hr; [done|done|lia|done].
  - cbn [map] in *. rewrite Join_cons in Hf |- * by done.
    rewrite !length_app in Hf. cbn [length] in Hf. rewrite <- !app_assoc.
    rewrite Hr; [|done|lia|done]. cbn [app blanks]. 
    change (is_blank x2c) with false. change (bz x2c =? 44) with true. cbv iota.
    rewrite IH; [done|done|lia].
Qed.

Abbreviation member_text := (fun kv : gostr * json => print_string kv.1 ++ x3a :: Print kv.2).

Lemma members_print m d f t :
  Forall (fun kv => reads_back kv.2) m ->
  Forall (fun kv => valid_utf8 kv.1 /\ printable d kv.2) m -> m <> [] ->
  (2 * length (Join [x2c] (map member_text m)) + 1 <= f)%nat ->
  members f d (Join [x2c] (map member_text m) ++ x7d :: t) = Some (m, t).
Proof.
  intros Hrb Hp. revert f. induction Hp as [|[k v] m [Hk Hv] Hp IH]; intros f Hne Hf; [done|].
  inversion Hrb as [|? ? Hr Hrl]; subst. specialize (IH Hrl). cbn [snd fst] in *.
  destruct f as [|f]; [lia|].
  assert (Hstep : forall u, ends u -> (2 * length (Print v) <= f)%nat ->
    members (S f) d (print_string k ++ x3a :: Print v ++ u) =
    match blanks u with
    | [] => None
    | c' :: r4 =>
        if bz c' =? 0x2C then
          match members f d r4 with Some (m, r5) => Some ((k, v) :: m, r5) | None => None end
        else if bz c' =? 0x7D then Some ([(k, v)], r4) else None
    end).
  { intros u Hu Hlen. unfold print_string. cbn [members app blanks].
    change (is_blank x22) with false. change (bz x22 =? 34) with true. cbv iota. cbn [negb].
    rewrite <- app_assoc. cbn [app]. rewrite (str_lit_print k) by done.
    cbn [blanks]. change (is_blank x3a) with false. change (bz x3a =? 58) with true.
    cbv iota. cbn [negb]. by rewrite Hr. }
  destruct m as [|w m].
  - cbn [map Join fst snd] in *. rewrite length_app in Hf. cbn [length] in Hf.
    rewrite <- app_assoc. cbn [app]. by rewrite Hstep by (done || lia).
  - cbn [map] in *. rewrite Join_cons in Hf |- * by done. cbn [fst snd] in *.
    rewrite !length_app in Hf. cbn [length] in Hf. rewrite <- !app_assoc. cbn [app].
    rewrite Hstep by (done || lia). cbn [app blanks].
    change (is_blank x2c) with false. change (bz x2c =? 44) with true. cbv iota.
    rewrite IH; [done|done|lia].
Qed.

Lemma Join_head sep p ps c r : p = c :: r -> exists q, Join sep (p :: ps) = c :: q.
Proof. intros ->. destruct ps; simpl; by eexists. Qed.

Lemma value_print v : reads_back v.
Proof.
  induction v as [|b|s|s|l IH|m IH] using json_rect'; intros d f t Hp Hf Ht.
  - destruct f; [simpl in Hf; lia|]. by destruct t.
  - destruct f; [destruct b; simpl in Hf; lia|]. by destruct b, t.
  - inversion Hp; subst. destruct (num_lit_head s) as (c & r & -> & Hc); [done|].
    assert (Hx : is_blank c = false /\ Forall (fun z => (bz c =? z) = false) [34; 91; 123; 116; 102; 110]).
    { destruct Hc as [Hc| ->]; [|by repeat constructor].
      assert (Hall : forall c, implb (digit c) (negb (is_blank c) &&
        forallb (fun z => negb (bz c =? z)) [34; 91; 123; 116; 102; 110]) = true)
        by (apply byte_forall; vm_compute; reflexivity).
      specialize (Hall c). rewrite Hc in Hall. cbn [implb forallb] in Hall. bool_hyps.
      split; [done|]. repeat constructor; by apply Z.eqb_neq. }
    destruct Hx as [Hb Hx]. rewrite !Forall_cons in Hx. destruct Hx as (E1 & E2 & E3 & E4 & E5 & E6 & _).
    destruct f; [simpl in Hf; lia|]. cbn [value Print app blanks]. rewrite Hb, E1, E2, E3, E4, E5, E6.
    change (c :: r ++ t) with ((c :: r) ++ t). by rewrite (num_lit_app _ (c :: r)).
  - inversion Hp; subst. destruct f; [simpl in Hf; lia|].
    cbn [value Print app blanks]. unfold print_string. cbn [app blanks].
    change (is_blank x22) with false. change (bz x22 =? 34) with true. cbv iota.
    rewrite <- app_assoc. cbn [app]. by rewrite str_lit_print.
  - inversion Hp as [| | | |? ? Hd Hl|]; subst. destruct f as [|f]; [simpl in Hf; lia|].
    cbn [value Print app blanks]. change (is_blank x5b) with false.
    change (bz x5b =? 34) with false. change (bz x5b =? 91) with true. cbv iota.
    rewrite (proj2 (Z.leb_gt max_depth d)) by done.
    destruct (decide (l = [])) as [->|Hne]; [done|].
    assert (Hh : exists c q, Join [x2c] (map Print l) = c :: q /\ opens c = true).
    { destruct l as [|w l]; [done|]. apply Forall_cons in Hl as [Hw _].
      destruct (Print_head _ _ Hw) as (c & r & E & Ho).
      destruct (Join_head [x2c] _ (map Print l) c r E) as [q Hq]. by exists c, q. }
    destruct Hh as (c & q & Hq & Ho). pose proof Hq as Hq'.
    rewrite <- app_assoc, Hq. cbn [app]. rewrite (blanks_open c) by done.
    unfold opens in Ho. bool_hyps. rewrite (proj2 (Z.eqb_neq (bz c) 93)) by done.
    change (c :: q ++ x5d :: t) with ((c :: q) ++ x5d :: t). rewrite <- Hq.
    rewrite elements_print; [done|done|done|done|].
    cbn [Print length] in Hf. rewrite length_app in Hf. cbn [length] in Hf. lia.
  - inversion Hp as [| | | | |? ? Hd Hl]; subst. destruct f as [|f]; [simpl in Hf; lia|].
    cbn [value Print app blanks]. change (is_blank x7b) with false.
    change (bz x7b =? 34) with false. change (bz x7b =? 91) with false.
    change (bz x7b =? 123) with true. cbv iota.
    rewrite (proj2 (Z.leb_gt max_depth d)) by done.
    destruct (decide (m = [])) as [->|Hne]; [done|].
    assert (Hh : exists q, Join [x2c] (map member_text m) = x22 :: q).
    { destruct m as [|[k w] m]; [done|]. by eapply Join_head. }
    destruct Hh as (q & Hq).
    rewrite <- app_assoc, Hq. cbn [app]. rewrite (blanks_open x22) by done.
    change (bz x22 =? 125) with false. cbv iota.
    change (x22 :: q ++ x7d :: t) with ((x22 :: q) ++ x7d :: t). rewrite <- Hq.
    rewrite members_print; [done|done|done|done|].
    cbn [Print length] in Hf. rewrite length_app in Hf. cbn [length] in Hf. lia.
Qed.

Lemma Print_utf8 v d : printable d v -> valid_utf8 (Print v).
Proof.
  revert d. induction v as [|b|s|s|l IH|m IH] using json_rect'; intros d Hp;
    inversion Hp as [| |? ? Hn|? ? Hs|? ? Hd Hl|? ? Hd Hl]; subst; cbn [Print].
  - lit_ok.
  - destruct b; lit_ok.
  - by eapply ascii_utf8, num_lit_ascii.
  - by apply print_string_utf8.
  - apply valid_ascii; [done|]. apply valid_utf8_app; [|lit_ok]. apply Join_utf8; [lit_ok|].
    apply Forall_map. rewrite Forall_forall in IH, Hl |- *. intros x Hx. by eapply IH, Hl.
  - apply valid_ascii; [done|]. apply valid_utf8_app; [|lit_ok]. apply Join_utf8; [lit_ok|].
    apply Forall_map. rewrite Forall_forall in IH, Hl |- *. intros x Hx. destruct (Hl x Hx) as [Hk Hv].
    change (valid_utf8 (print_string x.1 ++ x3a :: Print x.2)).
    apply valid_utf8_app; [by apply print_string_utf8|]. apply valid_ascii; [done|]. by eapply IH.
Qed.

(** json.Unmarshal reads back what json.Marshal wrote. *)
Lemma Parse_Print v : printable 0 v -> Parse (Print v) = Some v.
Proof.
  intros Hv. unfold Parse. rewrite <- (app_nil_r (Print v)) at 2.
  by rewrite (value_print v 0) by (done || lia).
Qed.

(** ** The reader consumes text, so its fuel is enough *)

Lemma blanks_len b : (length (blanks b) <= length b)%nat.
Proof. induction b as [|c b IH]; simpl; [lia|]. case_match; simpl; lia. Qed.

Lemma str_body_len f b s r : str_body f b = Some (s, r) -> (length r < length b)%nat.
Proof.
  revert b s r. induction f as [|f IH]; intros [|c b] s r H; try done.
  cbn [str_body] in H. destruct (bz c =? 34); [injection H as _ <-; simpl; lia|].
  destruct (str_step (c :: b)) as [[x r1]|] eqn:Es; [|done].
  destruct (str_body f r1) as [[s' r']|] eqn:E; [|done]. injection H as _ <-.
  apply IH in E. enough (length r1 <= length b)%nat by (simpl; lia).
  clear -Es. unfold str_step in Es. destruct (bz c =? 92).
  - destruct b as [|e r0]; [done|]. destruct (escaped e); [injection Es as _ <-; simpl; lia|].
    destruct (bz e =? 117); [|done]. destruct (hex4 r0); [|done].
    destruct (is_surrogate _); [destruct (low_half _ _)|];
      injection Es as _ <-; rewrite ?length_drop; simpl; lia.
  - destruct (bz c <? 32); [done|]. destruct (decode_rune (c :: b)) as [q n] eqn:Ed.
    injection Es as _ <-. unfold decode_rune in Ed.
    assert (1 <= n)%nat.
    { destruct (decode_ok (c :: b)) as [[q' n']|] eqn:Ek; injection Ed as <- <-; [|lia].
      apply decode_ok_shape in Ek. lia. }
    rewrite length_drop. simpl. lia.
Qed.

Lemma span_digits_len s a r : span_digits s = (a, r) -> (length r <= length s)%nat.
Proof.
  revert a r. induction s as [|c s IH]; intros a r; simpl.
  - intros [= _ <-]. simpl. lia.
  - destruct (digit c); [|intros [= _ <-]; simpl; lia].
    destruct (span_digits s) as [d r'] eqn:E. intros [= _ <-]. specialize (IH _ _ eq_refl). lia.
Qed.

Lemma num_lit_len b t r : num_lit b = Some (t, r) -> (length r < length b)%nat.
Proof.
  unfold num_lit. destruct (num_sign b) as [s r0] eqn:E0.
  destruct (num_int r0) as [[i r1]|] eqn:E1; [|done].
  destruct (num_frac r1) as [[fr r2]|] eqn:E2; [|done].
  destruct (num_exp r2) as [[e r3]|] eqn:E3; [|done]. intros [= _ <-].
  assert (length r0 <= length b)%nat.
  { destruct b as [|c b]; simpl in E0; [by simplify_eq|]. case_match; simplify_eq/=; lia. }
  assert (length r1 < length r0)%nat.
  { destruct r0 as [|c r0]; [done|]. unfold num_int in E1.
    destruct (bz c =? 48); [injection E1 as _ <-; simpl; lia|].
    destruct (digit c) eqn:Ed; [|done].
    assert (E : span_digits (c :: r0) = (i, r1)) by (by injection E1). simpl in E. rewrite Ed in E.
    destruct (span_digits r0) as [d r'] eqn:E'. injection E as _ <-.
    apply span_digits_len in E'. simpl. lia. }
  assert (length r2 <= length r1)%nat.
  { destruct r1 as [|c r1]; simpl in E2; [by simplify_eq|].
    destruct (bz c =? 46); [|by simplify_eq].
    destruct (span_digits r1) as [d r'] eqn:E'. apply span_digits_len in E'.
    destruct d; [done|]. injection E2 as _ <-. simpl. lia. }
  enough (length r3 <= length r2)%nat by lia.
  destruct r2 as [|c r2]; unfold num_exp in E3; [by simplify_eq|].
  destruct ((bz c =? 101) || (bz c =? 69)); [|by simplify_eq].
  match type of E3 with context [let '(_, _) := ?x in _] => destruct x as [sg r4] eqn:E4 end.
  destruct (span_digits r4) as [d r'] eqn:E'. apply span_digits_len in E'.
  destruct d; [done|]. injection E3 as _ <-. simpl.
  destruct r2 as [|e0 r2]; [|case_match]; injection E4 as _ <-; simpl in *; lia.
Qed.

Lemma reader_len f :
  (forall d b v r, value f d b = Some (v, r) -> (length r < length b)%nat) /\
  (forall d b l r, elements f d b = Some (l, r) -> (length r < length b)%nat) /\
  (forall d b m r, members f d b = Some (m, r) -> (length r < length b)%nat).
Proof.
  induction f as [|f (IHv & IHe & IHm)]; [done|]. split_and!.
  - intros d b v r H. cbn [value] in H. pose proof (blanks_len b) as Hb.
    destruct (blanks b) as [|c b']; [done|]. simpl in Hb.
    unfold word in H.
    destruct (bz c =? 34).
    { destruct (str_lit b') as [[s r']|] eqn:E; [|done]. injection H as _ <-.
      apply str_body_len in E. lia. }
    destruct (bz c =? 91).
    { destruct (max_depth <=? d); [done|]. pose proof (blanks_len b') as Hb'.
      destruct (blanks b') as [|c' r']; [done|]. simpl in Hb'.
      destruct (bz c' =? 93); [injection H as _ <-; lia|].
      destruct (elements _ _ _) as [[l r'']|] eqn:E; [|done]. injection H as _ <-.
      apply IHe in E. lia. }
    destruct (bz c =? 123).
    { destruct (max_depth <=? d); [done|]. pose proof (blanks_len b') as Hb'.
      destruct (blanks b') as [|c' r']; [done|]. simpl in Hb'.
      destruct (bz c' =? 125); [injection H as _ <-; lia|].
      destruct (members _ _ _) as [[l r'']|] eqn:E; [|done]. injection H as _ <-.
      apply IHm in E. lia. }
    repeat match type of H with
    | (if ?x then _ else _) = _ => destruct x
    end; try done;
      try (injection H as _ <-; rewrite length_drop; cbn; lia).
    destruct (num_lit (c :: b')) as [[t r']|] eqn:E; [|done]. injection H as _ <-.
    apply num_lit_len in E. simpl in E. lia.
  - intros d b l r H. cbn [elements] in H.
    destruct (value f d b) as [[v r1]|] eqn:Ev; [|done]. apply IHv in Ev.
    pose proof (blanks_len r1) as Hb. destruct (blanks r1) as [|c r2]; [done|]. simpl in Hb.
    destruct (bz c =? 44).
    + destruct (elements f d r2) as [[l' r3]|] eqn:E; [|done]. injection H as _ <-.
      apply IHe in E. lia.
    + destruct (bz c =? 93); [|done]. injection H as _ <-. lia.
  - intros d b m r H. cbn [members] in H. pose proof (blanks_len b) as Hb.
    destruct (blanks b) as [|q r0]; [done|]. simpl in Hb. destruct (negb _); [done|].
    destruct (str_lit r0) as [[k r1]|] eqn:Es; [|done]. apply str_body_len in Es.
    pose proof (blanks_len r1) as Hb1. destruct (blanks r1) as [|c r2]; [done|]. simpl in Hb1.
    destruct (negb _); [done|].
    destruct (value f d r2) as [[v r3]|] eqn:Ev; [|done]. apply IHv in Ev.
    pose proof (blanks_len r3) as Hb3. destruct (blanks r3) as [|c' r4]; [done|]. simpl in Hb3.
    destruct (bz c' =? 44).
    + destruct (members f d r4) as [[m' r5]|] eqn:E; [|done]. injection H as _ <-.
      apply IHm in E. lia.
    + destruct (bz c' =? 125); [|done]. injection H as _ <-. lia.
Qed.

Lemma reader_fuel f :
  (forall g d b, (2 * length b + 1 <= f)%nat -> (2 * length b + 1 <= g)%nat ->
     value f d b = value g d b) /\
  (forall g d b, (2 * length b + 2 <= f)%nat -> (2 * length b + 2 <= g)%nat ->
     elements f d b = elements g d b) /\
  (forall g d b, (2 * length b + 2 <= f)%nat -> (2 * length b + 2 <= g)%nat ->
     members f d b = members g d b).
Proof.
  induction f as [|f (IHv & IHe & IHm)]; [repeat split; lia|].
  split_and!; intros [|g] d b Hf Hg; try lia.
  - cbn [value]. pose proof (blanks_len b) as Hb.
    destruct (blanks b) as [|c b']; [done|]. simpl in Hb.
    rewrite (IHe g (d + 1) b'), (IHm g (d + 1) b') by lia. done.
  - cbn [elements]. rewrite (IHv g d b) by lia.
    destruct (value g d b) as [[v r1]|] eqn:Ev; [|done].
    apply (proj1 (reader_len g)) in Ev.
    pose proof (blanks_len r1) as Hb. destruct (blanks r1) as [|c r2]; [done|]. simpl in Hb.
    by rewrite (IHe g d r2) by lia.
  - cbn [members]. pose proof (blanks_len b) as Hb.
    destruct (blanks b) as [|q r0]; [done|]. simpl in Hb. destruct (negb _); [done|].
    destruct (str_lit r0) as [[k r1]|] eqn:Es; [|done]. apply str_body_len in Es.
    pose proof (blanks_len r1) as Hb1. destruct (blanks r1) as [|c r2]; [done|]. simpl in Hb1.
    destruct (negb _); [done|]. rewrite (IHv g d r2) by lia.
    destruct (value g d r2) as [[v r3]|] eqn:Ev; [|done].
    apply (proj1 (reader_len g)) in Ev.
    pose proof (blanks_len r3) as Hb3. destruct (blanks r3) as [|c' r4]; [done|]. simpl in Hb3.
    by rewrite (IHm g d r4) by lia.
Qed.

(** The fuel of [Parse] never cuts a text short. *)
Lemma Parse_fuel b f : (2 * length b + 1 <= f)%nat ->
  Parse b = match value f 0 b with
            | Some (v, r) => match blanks r with [] => Some v | _ => None end
            | None => None
            end.
Proof. intros Hf. unfold Parse. by rewrite (proj1 (reader_fuel _) f). Qed.

(** ** Strings and their runes *)

Lemma decode_rune_pos s : s <> [] -> (1 <= (decode_rune s).2)%nat.
Proof.
  intros Hs. unfold decode_rune. destruct s as [|b s]; [done|]. destruct (decode_ok (b :: s)) as [[r n]|] eqn:E; [|done].
  apply decode_ok_shape in E as ((? & _) & _). done.
Qed.

Lemma runes_fuel_enough f g s : (length s <= f)%nat -> (length s <= g)%nat -> runes_fuel f s = runes_fuel g s.
Proof.
  revert g s. induction f as [|f IH]; intros [|g] [|b s] Hf Hg; cbn in Hf, Hg; try lia; try done. cbn [runes_fuel].
  pose proof (decode_rune_pos (b :: s) ltac:(done)) as Hp. destruct (decode_rune (b :: s)) as [r n]. cbn [snd] in Hp. f_equal.
  apply IH; rewrite length_drop; cbn [length]; lia.
Qed.

Lemma runes_step s : s <> [] -> runes s = (decode_rune s).1 :: runes (drop (decode_rune s).2 s).
Proof.
  intros Hs. pose proof (decode_rune_pos s Hs) as Hp. destruct s as [|b s]; [done|]. unfold runes. cbn [length runes_fuel].
  destruct (decode_rune (b :: s)) as [r n]. cbn [fst snd] in *. f_equal. apply runes_fuel_enough; rewrite length_drop; cbn [length]; lia.
Qed.

Lemma runes_decode s r n : decode_ok s = Some (r, n) -> runes s = r :: runes (drop n s).
Proof. intros E. destruct s as [|b s]; [done|]. rewrite runes_step by done. unfold decode_rune. by rewrite E. Qed.

Lemma runes_app s t : valid_utf8 s -> runes (s ++ t) = runes s ++ runes t.
Proof.
  induction 1 as [|c s [r Hc] Hs IH]; [done|]. rewrite <-app_assoc.
  rewrite (runes_decode (c ++ s ++ t) r (length c)) by by apply decode_ok_app.
  rewrite (runes_decode (c ++ s) r (length c)) by by apply decode_ok_app. rewrite !drop_app_length, IH. done.
Qed.

(** The runes that reading a string can give. *)
Definition scalar_rune (r : Z) : Prop := decode_ok (encode_rune r) = Some (r, length (encode_rune r)).

Lemma scalar_ascii r : 0 <= r < 128 -> scalar_rune r.
Proof.
  intros Hr. unfold scalar_rune. pose proof (bz_zb r ltac:(lia)) as E. rewrite <-E at 1 3. rewrite encode_ascii by lia. cbn. rewrite E.
  destruct (Z.ltb_spec r 128); [done|lia].
Qed.

Lemma scalar_decode s r n : decode_ok s = Some (r, n) -> scalar_rune r.
Proof.
  intros E. unfold scalar_rune. rewrite (encode_decode s r n E), (decode_ok_take s r n E). f_equal. f_equal.
  apply decode_ok_shape in E as ((_ & ?) & _). rewrite length_take. lia.
Qed.

Lemma scalar_runes s : Forall scalar_rune (runes s).
Proof.
  remember (length s) as n eqn:En. revert s En. induction (lt_wf n) as [n _ IH]. intros s ->. destruct s as [|b s]; [constructor|].
  rewrite runes_step by done. pose proof (decode_rune_pos (b :: s) ltac:(done)) as Hp. constructor.
  - unfold decode_rune. destruct (decode_ok (b :: s)) as [[r n]|] eqn:E; [by eapply scalar_decode|]. vm_compute. reflexivity.
  - eapply IH; [|done]. rewrite length_drop. cbn [length]. lia.
Qed.

Lemma runes_of rs : Forall scalar_rune rs -> valid_utf8 (string_of_runes rs) /\ runes (string_of_runes rs) = rs.
Proof.
  induction 1 as [|r rs Hr Hrs [Hv IH]]; [by split; [constructor|]|]. unfold string_of_runes in *. cbn [map concat].
  assert (valid_utf8 (encode_rune r)) as He by (rewrite <-(app_nil_r (encode_rune r)); constructor; [by exists r|constructor]).
  split; [by apply valid_utf8_app|]. rewrite runes_app by done. rewrite IH, (runes_decode _ _ _ Hr), drop_all. done.
Qed.

Lemma ascii_runes s : ascii s -> valid_utf8 s /\ runes s = map bz s.
Proof.
  intros Hs. assert (s = string_of_runes (map bz s)) as E.
  { unfold string_of_runes. induction Hs as [|b s Hb Hs IH]; [done|]. cbn [map concat]. rewrite encode_ascii by done. cbn. by f_equal. }
  assert (Forall scalar_rune (map bz s)) as Hf.
  { apply Forall_fmap. eapply Forall_impl; [exact Hs|]. intros b Hb. apply scalar_ascii. split; [apply bz_range|exact Hb]. }
  destruct (runes_of _ Hf) as [H1 H2]. by rewrite <-E in H1, H2.
Qed.
