(* ===== verification/RawJson.v ===== *)
(** * json.RawMessage: values kept as the text they were read from

    Where a struct has a json.RawMessage field the bytes matter, so these
    readers work on the text: [RawObject] and [RawArray] split an object or an
    array into the texts of its parts, and an assigner is given the text of the
    value.  Like GoJson this is the language's library. *)

From S2P Require Import Prelude Utf8 GoStrings Json GoJson.

(** The first value of the text as it is written, and what follows it. *)
Definition raw_value (b : gostr) : option (gostr * gostr) :=
  let b := blanks b in
  match value (2 * length b + 1) 0 b with
  | Some (_, r) => Some (take (length b - length r) b, r)
  | None => None
  end.

Fixpoint raw_elements (fuel : nat) (b : gostr) : option (list gostr) :=
  match fuel with
  | O => None
  | S f =>
      match raw_value b with
      | None => None
      | Some (v, r) =>
          match blanks r with
          | [] => None
          | c :: r' => if bz c =? 0x2C then cons v <$> raw_elements f r'
                       else if bz c =? 0x5D then Some [v] else None
          end
      end
  end.

Fixpoint raw_members (fuel : nat) (b : gostr) : option (list (gostr * gostr)) :=
  match fuel with
  | O => None
  | S f =>
      match blanks b with
      | [] => None
      | q :: r0 =>
          if negb (bz q =? 0x22) then None else
          match str_lit r0 with
          | None => None
          | Some (k, r1) =>
              match blanks r1 with
              | [] => None
              | c :: r2 =>
                  if negb (bz c =? 0x3A) then None else
                  match raw_value r2 with
                  | None => None
                  | Some (v, r3) =>
                      match blanks r3 with
                      | [] => None
                      | c' :: r4 => if bz c' =? 0x2C then cons (k, v) <$> raw_members f r4
                                    else if bz c' =? 0x7D then Some [(k, v)] else None
                      end
                  end
              end
          end
      end
  end.

(** The elements of a text that is a JSON array, the members of one that is an object. *)
Definition RawArray (raw : gostr) : option (list gostr) :=
  match blanks raw with
  | c :: r => if negb (bz c =? 0x5B) then None else
              match blanks r with
              | c' :: _ => if bz c' =? 0x5D then Some [] else raw_elements (length r) r
              | [] => None
              end
  | [] => None
  end.

Definition RawObject (raw : gostr) : option (list (gostr * gostr)) :=
  match blanks raw with
  | c :: r => if negb (bz c =? 0x7B) then None else
              match blanks r with
              | c' :: _ => if bz c' =? 0x7D then Some [] else raw_members (length r) r
              | [] => None
              end
  | [] => None
  end.

(** ** Assigning from the text *)

Abbreviation rdecoder T := (gostr -> T -> T * bool).

(** A field without raw parts. *)
Definition of_value {T} (d : decoder T) : rdecoder T := fun raw cur => Unmarshal d raw cur.

(** A json.RawMessage takes the text, null included. *)
Definition raw_message : rdecoder gostr := fun raw _ => (raw, true).

Definition select {D} (fs : list (gostr * D)) (key : gostr) : option D :=
  match List.find (fun f => bool_decide (f.1 = key)) fs with
  | Some f => Some f.2
  | None => snd <$> List.find (fun f => bool_decide (fold_key f.1 = fold_key key)) fs
  end.

Definition raw_member {T} (fs : list (gostr * rdecoder T)) (st : T * bool) (m : gostr * gostr) : T * bool :=
  match select fs m.1 with
  | Some d => let '(t, ok) := d m.2 st.1 in (t, st.2 && ok)
  | None => st
  end.

Definition is_null (raw : gostr) : bool := match Parse raw with Some JNull => true | _ => false end.

Definition raw_struct {T} (fs : list (gostr * rdecoder T)) : rdecoder T := fun raw cur =>
  match RawObject raw with
  | Some ms => foldl (raw_member fs) (cur, true) ms
  | None => (cur, is_null raw)
  end.

(** []json.RawMessage *)
Definition raw_messages : rdecoder (list gostr) := fun raw cur =>
  match RawArray raw with
  | Some l => (l, true)
  | None => if is_null raw then ([], true) else (cur, false)
  end.

(** json.Unmarshal: the whole text is checked first. *)
Definition UnmarshalRaw {T} (d : rdecoder T) (data : gostr) (cur : T) : T * bool :=
  match Parse data with
  | None => (cur, false)
  | Some _ => d data cur
  end.

Definition rfld {T V} (key : gostr) (get : T -> V) (set : V -> T -> T) (d : rdecoder V)
  : gostr * rdecoder T :=
  (key, fun raw t => let '(v, ok) := d raw (get t) in (set v t, ok)).

(** ** What json.Marshal printed splits into what was printed *)

Lemma Print_unblank v : printable 0 v -> forall t, blanks (Print v ++ t) = Print v ++ t.
Proof.
  intros Hv t. destruct (Print_head _ _ Hv) as (c & r & E & Ho). rewrite E. cbn [app].
  by apply blanks_open.
Qed.

Lemma raw_value_print v t : printable 0 v -> ends t -> raw_value (Print v ++ t) = Some (Print v, t).
Proof.
  intros Hv Ht. unfold raw_value. rewrite Print_unblank by done.
  rewrite (value_print v 0) by (done || (rewrite length_app; lia)).
  rewrite length_app. replace (length (Print v) + length t - length t)%nat with (length (Print v)) by lia.
  by rewrite take_app_length.
Qed.

Lemma raw_members_print m f t :
  Forall (fun kv => valid_utf8 kv.1 /\ printable 0 kv.2) m -> m <> [] -> (length m <= f)%nat ->
  raw_members f (Join [x2c] (map member_text m) ++ x7d :: t) = Some (map (fun kv => (kv.1, Print kv.2)) m).
Proof.
  intros Hp. revert f. induction Hp as [|[k v] m [Hk Hv] Hp IH]; intros f Hne Hf; [done|].
  cbn [snd fst] in *. destruct f as [|f]; [cbn in Hf; lia|].
  assert (Hstep : forall u, ends u ->
    raw_members (S f) (print_string k ++ x3a :: Print v ++ u) =
    match blanks u with
    | [] => None
    | c' :: r4 => if bz c' =? 0x2C then cons (k, Print v) <$> raw_members f r4
                  else if bz c' =? 0x7D then Some [(k, Print v)] else None
    end).
  { intros u Hu. unfold print_string. cbn [raw_members app blanks].
    change (is_blank x22) with false. change (bz x22 =? 34) with true. cbv iota. cbn [negb].
    rewrite <- app_assoc. cbn [app]. rewrite (str_lit_print k) by done.
    cbn [blanks]. change (is_blank x3a) with false. change (bz x3a =? 58) with true.
    cbv iota. cbn [negb]. by rewrite raw_value_print. }
  destruct m as [|w m].
  - cbn [map Join fst snd] in *. rewrite <- app_assoc. cbn [app]. by rewrite Hstep.
  - cbn [map] in *. rewrite Join_cons by done. cbn [fst snd] in *. rewrite <- !app_assoc. cbn [app].
    rewrite Hstep by done. cbn [app blanks].
    change (is_blank x2c) with false. change (bz x2c =? 44) with true. cbv iota.
    rewrite IH; [done|done|cbn in *; lia].
Qed.

Lemma members_text_len m : (length m <= length (Join [x2c] (map member_text m)))%nat.
Proof.
  induction m as [|kv m IH]; [simpl; lia|]. destruct m as [|w m].
  - cbn. rewrite length_app. cbn. lia.
  - cbn [map] in *. rewrite Join_cons by done. rewrite !length_app. cbn [length] in *. lia.
Qed.

Lemma printable_members m : printable 0 (JObj m) -> Forall (fun kv => valid_utf8 kv.1 /\ printable 1 kv.2) m.
Proof. by inversion 1. Qed.

Lemma printable_weaken d d' v : d' <= d -> printable d v -> printable d' v.
Proof.
  revert d d'. induction v as [|b|s|s|l IH|m IH] using json_rect'; intros d d' Hd Hp;
    inversion Hp as [| | | |? ? Hm Hl|? ? Hm Hl]; subst; constructor; try done; try lia.
  - rewrite Forall_forall in IH, Hl |- *. intros x Hx. apply (IH x Hx (d + 1)); [lia|by apply Hl].
  - rewrite Forall_forall in IH, Hl |- *. intros x Hx. destruct (Hl x Hx). split; [done|].
    apply (IH x Hx (d + 1)); [lia|done].
Qed.

Lemma RawObject_Print m : printable 0 (JObj m) ->
  RawObject (Print (JObj m)) = Some (map (fun kv => (kv.1, Print kv.2)) m).
Proof.
  intros Hp. apply printable_members in Hp. destruct (decide (m = [])) as [->|Hne]; [done|].
  unfold RawObject. cbn [Print blanks]. change (is_blank x7b) with false. cbv iota.
  change (bz x7b =? 123) with true. cbn [negb].
  assert (Hh : exists q, Join [x2c] (map member_text m) = x22 :: q).
  { destruct m as [|[k w] m]; [done|]. by eapply Join_head. }
  destruct Hh as (q & Hq). pose proof (members_text_len m) as Hlen.
  rewrite Hq at 1. cbn [app]. rewrite (blanks_open x22) by done. change (bz x22 =? 125) with false. cbv iota.
  rewrite (raw_members_print m _ []); [done| |done|rewrite length_app; lia].
  apply (Forall_impl _ _ _ Hp). intros kv [Hk Hv]. split; [done|]. by apply (printable_weaken 1).
Qed.
