(* ===== verification/Livedoc.v ===== *)
(** * livedoc: single-region splices and positional node ops
    (src/internal/livedoc/livedoc.go, node.go) *)

From S2P Require Import Prelude Utf8 Json.

(** ** Text deltas *)

Record Delta := mkDelta { dAt : Z; dDel : Z; dIns : gostr }.

(** func Apply: [None] would be a slice-bounds panic. *)
Definition Apply (blob : gostr) (d : Delta) : option gostr :=
  let at0 := dAt d in
  let at1 := if at0 <? 0 then 0 else at0 in
  let at2 := if glen blob <? at1 then glen blob else at1 in
  let end0 := wrap64 (at2 + dDel d) in
  let end1 := if end0 <? at2 then at2 else end0 in
  let end2 := if glen blob <? end1 then glen blob else end1 in
  pre ← slice blob 0 at2;
  post ← slice blob end2 (glen blob);
  Some (pre ++ dIns d ++ post).

(** Longest common prefix, in bytes. *)
Definition diff_prefix (old new : gostr) : nat :=
  while (length old)
    (fun a => (a <? length old)%nat && (a <? length new)%nat &&
              Byte.eqb (bget old a) (bget new a))
    S 0%nat.

(** Longest common suffix that does not overlap the prefix. *)
Definition diff_suffix (old new : gostr) (a : nat) : nat :=
  while (length old)
    (fun z => (z <? length old - a)%nat && (z <? length new - a)%nat &&
              Byte.eqb (bget old (length old - 1 - z)) (bget new (length new - 1 - z)))
    S 0%nat.

(** Back the prefix boundary off to a rune start of [old]. *)
Definition align_prefix (old : gostr) (a : nat) : nat :=
  while a
    (fun a => (0 <? a)%nat && (a <? length old)%nat && negb (rune_start (bget old a)))
    pred a.

(** Back the suffix boundary off to a rune start of [old]. *)
Definition align_suffix (old : gostr) (z : nat) : nat :=
  while z
    (fun z => (0 <? z)%nat && negb (rune_start (bget old (length old - z))))
    pred z.

(** func Diff: [None] is ok=false. *)
Definition Diff (old new : gostr) : option Delta :=
  if bool_decide (old = new) then None else
  let a := diff_prefix old new in
  let z := diff_suffix old new a in
  let a := align_prefix old a in
  let z := align_suffix old z in
  Some {| dAt := Z.of_nat a;
          dDel := glen old - Z.of_nat a - Z.of_nat z;
          dIns := take (length new - z - a) (drop a new) |}.

(** ** Nodes *)

(** NodeType is an open string type; these are its constants. *)
Definition NodeProse := #"prose".
Definition NodeThinking := #"thinking".
Definition NodeTool := #"tool".
Definition NodeSteering := #"steering".

Definition StatusRunning := #"running".
Definition StatusOK := #"ok".
Definition StatusError := #"error".

Record Node := mkNode {
  nType : gostr;
  nVersion : Z;
  nMarkdown : gostr;
  nID : gostr;
  nName : gostr;
  nArgs : option object;          (* nil map or a map *)
  nStatus : gostr;
  nOutput : gostr;
  nSummary : gostr;
  nStartedAt : Z;
  nFinishedAt : Z }.

#[export] Instance Node_eq_dec : EqDecision Node.
Proof. solve_decision. Defined.

(** The zero Node. *)
Definition zero_Node : Node := mkNode [] 0 [] [] [] None [] [] [] 0 0.
#[export] Instance Node_inhabited : Inhabited Node := populate zero_Node.

Inductive OpKind := OpOpen | OpPatch | OpSet.

Record Op := mkOp {
  oKind : OpKind;
  oIndex : Z;
  oNode : option Node;
  oField : gostr;
  oAt : Z; oDel : Z; oIns : gostr;
  oStatus : gostr; oName : gostr; oArgs : option object;
  oStartedAt : Z; oFinishedAt : Z }.

Definition op_open (i : Z) (n : Node) : Op :=
  mkOp OpOpen i (Some n) [] 0 0 [] [] [] None 0 0.
Definition op_patch (i : Z) (field : gostr) (d : Delta) : Op :=
  mkOp OpPatch i None field (dAt d) (dDel d) (dIns d) [] [] None 0 0.
Definition op_set (i : Z) (n : Node) : Op :=
  mkOp OpSet i None [] 0 0 [] (nStatus n) (nName n) (nArgs n) (nStartedAt n) (nFinishedAt n).

(** func sameArgs: equal sizes (nil has size 0), then DeepEqual, which tells
    a nil map from an empty one. *)
Definition args_len (a : option object) : nat := length (default [] a).
Definition sameArgs (a b : option object) : bool :=
  if negb (args_len a =? args_len b)%nat then false else bool_decide (a = b).

(** The ops for one position present on both sides. *)
Definition DiffNode (i : Z) (o n : Node) : list Op :=
  if bool_decide (nType n = NodeProse) || bool_decide (nType n = NodeThinking) then
    match Diff (nMarkdown o) (nMarkdown n) with
    | Some d => [op_patch i #"markdown" d]
    | None => []
    end
  else if bool_decide (nType n = NodeTool) then
    match Diff (nOutput o) (nOutput n) with
    | Some d => [op_patch i #"output" d]
    | None => []
    end ++
    (if negb (bool_decide (nStatus o = nStatus n)) ||
        negb (bool_decide (nName o = nName n)) ||
        negb (sameArgs (nArgs o) (nArgs n)) ||
        negb (nStartedAt o =? nStartedAt n) || negb (nFinishedAt o =? nFinishedAt n)
     then [op_set i n] else [])
  else [].

Fixpoint DiffNodes_from (i : Z) (old next : list Node) : list Op :=
  match next, old with
  | [], _ => []
  | n :: next', [] => op_open i n :: DiffNodes_from (i + 1) [] next'
  | n :: next', o :: old' => DiffNode i o n ++ DiffNodes_from (i + 1) old' next'
  end.

(** func DiffNodes *)
Definition DiffNodes (old next : list Node) : list Op := DiffNodes_from 0 old next.

Definition set_output (n : Node) (s : gostr) : Node :=
  mkNode (nType n) (nVersion n) (nMarkdown n) (nID n) (nName n) (nArgs n) (nStatus n)
    s (nSummary n) (nStartedAt n) (nFinishedAt n).
Definition set_markdown (n : Node) (s : gostr) : Node :=
  mkNode (nType n) (nVersion n) s (nID n) (nName n) (nArgs n) (nStatus n)
    (nOutput n) (nSummary n) (nStartedAt n) (nFinishedAt n).
Definition set_tool (n : Node) (op : Op) : Node :=
  mkNode (nType n) (nVersion n) (nMarkdown n) (nID n)
    (if bool_decide (oName op = []) then nName n else oName op)
    (match oArgs op with None => nArgs n | Some _ => oArgs op end)
    (oStatus op) (nOutput n) (nSummary n)
    (if oStartedAt op =? 0 then nStartedAt n else oStartedAt op)
    (if oFinishedAt op =? 0 then nFinishedAt n else oFinishedAt op).

(** func ApplyOp *)
Definition ApplyOp (nodes : list Node) (op : Op) : option (list Node) :=
  match oKind op with
  | OpOpen =>
      match oNode op with
      | None => Some nodes
      | Some n => Some (nodes ++ [n])
      end
  | OpPatch =>
      if (oIndex op <? 0) || (glen nodes <=? oIndex op) then Some nodes else
      let d := mkDelta (oAt op) (oDel op) (oIns op) in
      n ← nodes !! Z.to_nat (oIndex op);
      if bool_decide (oField op = #"output")
      then s ← Apply (nOutput n) d; Some (<[Z.to_nat (oIndex op) := set_output n s]> nodes)
      else s ← Apply (nMarkdown n) d; Some (<[Z.to_nat (oIndex op) := set_markdown n s]> nodes)
  | OpSet =>
      if (oIndex op <? 0) || (glen nodes <=? oIndex op) then Some nodes else
      n ← nodes !! Z.to_nat (oIndex op);
      Some (<[Z.to_nat (oIndex op) := set_tool n op]> nodes)
  end.

(** A consumer folds a whole op list. *)
Definition ApplyOps (nodes : list Node) (ops : list Op) : option (list Node) :=
  foldl (fun acc op => ns ← acc; ApplyOp ns op) (Some nodes) ops.

(** ** Lemmas on Diff *)

(** [take]/[drop] agreement survives shrinking the boundary. *)
Lemma take_eq_le (s t : gostr) a b :
  (b <= a)%nat -> take a s = take a t -> take b s = take b t.
Proof.
  intros Hle H. rewrite <- (Nat.min_l b a Hle), <- !take_take. by f_equal.
Qed.

Lemma drop_eq_le (s t : gostr) y z :
  (y <= z)%nat -> (z <= length s)%nat -> (z <= length t)%nat ->
  drop (length s - z) s = drop (length t - z) t ->
  drop (length s - y) s = drop (length t - y) t.
Proof.
  intros Hle Hs Ht H.
  replace (length s - y)%nat with ((length s - z) + (z - y))%nat by lia.
  replace (length t - y)%nat with ((length t - z) + (z - y))%nat by lia.
  rewrite <- !drop_drop. by f_equal.
Qed.

Lemma diff_prefix_spec old new :
  let a := diff_prefix old new in
  (a <= length old)%nat /\ (a <= length new)%nat /\ take a old = take a new /\
  (a = length old \/ a = length new \/ bget old a <> bget new a).
Proof.
  unfold diff_prefix.
  match goal with |- context [while ?f ?c ?b ?s] =>
    destruct (while_rule
      (fun a => (a <= length old)%nat /\ (a <= length new)%nat /\ take a old = take a new)
      (fun a => (length old - a)%nat) f c b s) as [(H1 & H2 & H3) Hend] end.
  - split_and!; simpl; [lia|lia|done].
  - intros a (H1 & H2 & H3) Hc. bool_hyps. apply byte_eqb_eq in H0.
    split; [|lia]. split_and!; [lia|lia|].
    rewrite !take_S_bget by lia. by rewrite H3, H0.
  - lia.
  - split_and!; [done|done|done|].
    apply andb_false_iff in Hend as [Hend|Hend].
    + apply andb_false_iff in Hend as [Hend|Hend]; bool_hyps; lia.
    + right; right. intros E. apply byte_eqb_eq in E. congruence.
Qed.

Lemma diff_suffix_spec old new a :
  (a <= length old)%nat -> (a <= length new)%nat ->
  let z := diff_suffix old new a in
  (z <= length old - a)%nat /\ (z <= length new - a)%nat /\
  drop (length old - z) old = drop (length new - z) new.
Proof.
  intros Ha Ha'. unfold diff_suffix.
  apply while_inv.
  - split_and!; [lia|lia|]. rewrite !drop_ge by lia. done.
  - intros z (H1 & H2 & H3) Hc. bool_hyps. apply byte_eqb_eq in H0.
    split_and!; [lia|lia|].
    rewrite (drop_bget old), (drop_bget new) by lia.
    replace (length old - S z)%nat with (length old - 1 - z)%nat by lia.
    replace (length new - S z)%nat with (length new - 1 - z)%nat by lia.
    rewrite H0. f_equal.
    replace (S (length old - 1 - z)) with (length old - z)%nat by lia.
    replace (S (length new - 1 - z)) with (length new - z)%nat by lia. done.
Qed.

Lemma align_prefix_spec old a :
  (align_prefix old a <= a)%nat /\
  (align_prefix old a = 0%nat \/ (length old <= align_prefix old a)%nat \/
   rune_start (bget old (align_prefix old a)) = true).
Proof.
  unfold align_prefix.
  match goal with |- context [while ?f ?c ?b ?s] =>
    destruct (while_rule (fun x => (x <= a)%nat) (fun x => x) f c b s) as [H1 Hend] end;
    [lia|intros x Hx Hc; bool_hyps; lia|lia|].
  split; [done|].
  apply andb_false_iff in Hend as [Hend|Hend]; bool_hyps; [|by auto].
  apply andb_false_iff in Hend as [Hend|Hend]; bool_hyps; [left|right; left]; lia.
Qed.

Lemma align_suffix_spec old z :
  (align_suffix old z <= z)%nat /\
  (align_suffix old z = 0%nat \/
   rune_start (bget old (length old - align_suffix old z)) = true).
Proof.
  unfold align_suffix.
  match goal with |- context [while ?f ?c ?b ?s] =>
    destruct (while_rule (fun x => (x <= z)%nat) (fun x => x) f c b s) as [H1 Hend] end;
    [lia|intros x Hx Hc; bool_hyps; lia|lia|].
  split; [done|].
  apply andb_false_iff in Hend as [Hend|Hend]; bool_hyps; [left; lia|by auto].
Qed.

(** The three regions of old and new around a delta. *)
Lemma Diff_regions old new d :
  Diff old new = Some d ->
  exists a z,
    dAt d = Z.of_nat a /\ dDel d = glen old - Z.of_nat a - Z.of_nat z /\
    dIns d = take (length new - z - a) (drop a new) /\
    (a + z <= length old)%nat /\ (a + z <= length new)%nat /\
    take a old = take a new /\
    drop (length old - z) old = drop (length new - z) new /\
    (a = 0%nat \/ (length old <= a)%nat \/ rune_start (bget old a) = true) /\
    (z = 0%nat \/ rune_start (bget old (length old - z)) = true).
Proof.
  unfold Diff. case_bool_decide as Heq; [done|]. intros [= <-]. simpl.
  destruct (diff_prefix_spec old new) as (Ha & Ha' & Htake & _).
  set (a := diff_prefix old new) in *.
  destruct (diff_suffix_spec old new a Ha Ha') as (Hz & Hz' & Hdrop).
  set (z := diff_suffix old new a) in *.
  destruct (align_prefix_spec old a) as (Hal & Hast).
  destruct (align_suffix_spec old z) as (Hzl & Hzst).
  exists (align_prefix old a), (align_suffix old z).
  split_and!; try done; [lia|lia|..].
  - by eapply take_eq_le.
  - eapply drop_eq_le; [exact Hzl|lia|lia|done].
Qed.

(** Applying a delta whose boundaries are in range is the plain splice. *)
Lemma Apply_in_range blob a z ins :
  (a + z <= length blob)%nat -> int64_ok (glen blob) ->
  Apply blob {| dAt := Z.of_nat a; dDel := glen blob - Z.of_nat a - Z.of_nat z; dIns := ins |}
  = Some (take a blob ++ ins ++ drop (length blob - z) blob).
Proof.
  intros Hr Hok. unfold Apply. simpl. unfold int64_ok, glen in *.
  rewrite (proj2 (Z.ltb_ge (Z.of_nat a) 0)) by lia.
  rewrite (proj2 (Z.ltb_ge _ (Z.of_nat a))) by lia.
  rewrite wrap64_id by (unfold int64_ok; lia).
  replace (Z.of_nat a + _) with (Z.of_nat (length blob - z)) by lia.
  rewrite (proj2 (Z.ltb_ge (Z.of_nat (length blob - z)) _)) by lia.
  rewrite (proj2 (Z.ltb_ge _ (Z.of_nat (length blob - z)))) by lia.
  rewrite slice_prefix by lia. simpl.
  change (Z.of_nat (length blob)) with (glen blob).
  by rewrite slice_suffix by lia.
Qed.

(** The round trip, as used by every consumer of deltas. *)
Lemma Diff_roundtrip old new d :
  int64_ok (glen old) -> Diff old new = Some d -> Apply old d = Some new.
Proof.
  intros Hok Hd. apply Diff_regions in Hd as (a & z & H1 & H2 & H3 & H4 & H5 & H6 & H7 & _).
  destruct d as [da dd di]; simpl in *; subst.
  rewrite Apply_in_range by done. f_equal.
  rewrite H6, H7. symmetry. by apply cut3.
Qed.

Lemma Diff_None old new : Diff old new = None <-> old = new.
Proof. unfold Diff. by case_bool_decide. Qed.

(** Whatever the delta, the result is defined and only splices the blob. *)
Lemma Apply_shape blob d :
  exists p q, (p <= q <= length blob)%nat /\
    Apply blob d = Some (take p blob ++ dIns d ++ drop q blob).
Proof.
  unfold Apply.
  set (at1 := if dAt d <? 0 then 0 else dAt d).
  assert (0 <= at1) by (unfold at1; case_if; lia).
  set (at2 := if glen blob <? at1 then glen blob else at1).
  assert (0 <= at2 <= glen blob)
    by (unfold at2; case_if; pose proof (glen_nonneg blob); lia).
  set (e1 := if wrap64 (at2 + dDel d) <? at2 then at2 else wrap64 (at2 + dDel d)).
  assert (at2 <= e1) by (unfold e1; case_if; lia).
  set (e2 := if glen blob <? e1 then glen blob else e1).
  assert (at2 <= e2 <= glen blob) by (unfold e2; case_if; lia).
  exists (Z.to_nat at2), (Z.to_nat e2). unfold glen in *. split; [lia|].
  rewrite <- (Z2Nat.id at2) at 1 by lia. rewrite slice_prefix by lia. simpl.
  rewrite <- (Z2Nat.id e2) at 1 by lia.
  change (Z.of_nat (length blob)) with (glen blob). by rewrite slice_suffix by lia.
Qed.

(** ** Lemmas on node ops *)

Lemma ApplyOps_app ns ops1 ops2 :
  ApplyOps ns (ops1 ++ ops2) = (ms ← ApplyOps ns ops1; ApplyOps ms ops2).
Proof.
  unfold ApplyOps. rewrite foldl_app.
  destruct (foldl _ (Some ns) ops1) as [ms|]; [done|]. simpl.
  induction ops2 as [|op ops2 IH]; [done|]. simpl. apply IH.
Qed.

Lemma ApplyOps_one ns op : ApplyOps ns [op] = ApplyOp ns op.
Proof. done. Qed.

Lemma index_in_range (pre : list Node) o post :
  (glen pre <? 0) || (glen (pre ++ o :: post) <=? glen pre) = false.
Proof.
  apply orb_false_iff. unfold glen. rewrite length_app. simpl.
  split; [apply Z.ltb_ge|apply Z.leb_gt]; lia.
Qed.

Lemma ApplyOp_set pre o post n :
  ApplyOp (pre ++ o :: post) (op_set (glen pre) n) =
  Some (pre ++ set_tool o (op_set (glen pre) n) :: post).
Proof.
  unfold ApplyOp. simpl. rewrite index_in_range.
  unfold glen. rewrite Nat2Z.id, list_lookup_middle by done. simpl.
  by rewrite insert_app_r_alt, Nat.sub_diag by lia.
Qed.

Lemma ApplyOp_patch pre o post field d s :
  Apply (if bool_decide (field = #"output") then nOutput o else nMarkdown o) d = Some s ->
  ApplyOp (pre ++ o :: post) (op_patch (glen pre) field d) =
  Some (pre ++ (if bool_decide (field = #"output")
                then set_output o s else set_markdown o s) :: post).
Proof.
  intros H. unfold ApplyOp. simpl. rewrite index_in_range.
  unfold glen. rewrite Nat2Z.id, list_lookup_middle by done. simpl.
  destruct d as [da dd di]. simpl.
  case_bool_decide; rewrite H; simpl;
    by rewrite insert_app_r_alt, Nat.sub_diag by lia.
Qed.

(** The streamed text of a node may change freely. *)
Lemma text_patch pre o post field s :
  int64_ok (glen (if bool_decide (field = #"output") then nOutput o else nMarkdown o)) ->
  ApplyOps (pre ++ o :: post)
    (match Diff (if bool_decide (field = #"output") then nOutput o else nMarkdown o) s with
     | Some d => [op_patch (glen pre) field d] | None => [] end) =
  Some (pre ++ (if bool_decide (field = #"output")
                then set_output o s else set_markdown o s) :: post).
Proof.
  intros Hok.
  destruct (Diff _ s) as [d|] eqn:E.
  - apply Diff_roundtrip in E; [|done]. rewrite ApplyOps_one.
    by apply ApplyOp_patch.
  - apply Diff_None in E. unfold ApplyOps. simpl. do 3 f_equal. subst s.
    by case_bool_decide; destruct o.
Qed.

(** How a node may change between two frames of the same unit: by type, the
    streamed text changes freely, and a tool's scalars change without being
    cleared (an op carries no way to clear them). *)
Definition node_evolves (o n : Node) : Prop :=
  if bool_decide (nType n = NodeProse) || bool_decide (nType n = NodeThinking)
  then n = set_markdown o (nMarkdown n)
  else if bool_decide (nType n = NodeTool)
  then n = mkNode (nType o) (nVersion o) (nMarkdown o) (nID o) (nName n) (nArgs n)
             (nStatus n) (nOutput n) (nSummary o) (nStartedAt n) (nFinishedAt n) /\
       (nName n = [] -> nName o = []) /\ (nArgs n = None -> nArgs o = None) /\
       (nStartedAt n = 0 -> nStartedAt o = 0) /\ (nFinishedAt n = 0 -> nFinishedAt o = 0)
  else n = o.

Lemma sameArgs_eq a b : sameArgs a b = true -> a = b.
Proof. unfold sameArgs. case_if; [done|]. intros H. by bool_hyps. Qed.

Lemma set_tool_evolves o n i :
  nType o = nType n -> nVersion o = nVersion n -> nMarkdown o = nMarkdown n ->
  nID o = nID n -> nSummary o = nSummary n -> nOutput o = nOutput n ->
  (nName n = [] -> nName o = []) -> (nArgs n = None -> nArgs o = None) ->
  (nStartedAt n = 0 -> nStartedAt o = 0) -> (nFinishedAt n = 0 -> nFinishedAt o = 0) ->
  set_tool o (op_set i n) = n.
Proof.
  destruct o, n; unfold set_tool; simpl. intros ? ? ? ? ? ? Hn Ha Hs Hf. subst.
  f_equal; [case_bool_decide as E|case_match eqn:E|case_if|case_if]; try done.
  - rewrite E. auto.
  - auto.
  - rewrite Eif. auto.
  - rewrite Eif. auto.
Qed.

Lemma DiffNode_step pre o n post :
  node_evolves o n -> int64_ok (glen (nOutput o)) -> int64_ok (glen (nMarkdown o)) ->
  ApplyOps (pre ++ o :: post) (DiffNode (glen pre) o n) = Some (pre ++ n :: post).
Proof.
  unfold node_evolves, DiffNode. intros Hev Hout Hmd. case_if.
  { pose proof (text_patch pre o post #"markdown" (nMarkdown n)) as H.
    rewrite bool_decide_eq_false_2 in H by done. rewrite H by done.
    by rewrite <- Hev. }
  case_bool_decide as Ht; [|by subst].
  destruct Hev as (En & Hname & Hargs & Hst & Hfin).
  pose proof (text_patch pre o post #"output" (nOutput n)) as Hpatch.
  rewrite bool_decide_eq_true_2 in Hpatch by done.
  rewrite ApplyOps_app, Hpatch by done. simpl. case_if.
  - rewrite ApplyOps_one, ApplyOp_set. do 3 f_equal.
    apply set_tool_evolves; simpl; try done; by rewrite En.
  - bool_hyps. repeat match goal with
    | K : sameArgs _ _ = true |- _ => apply sameArgs_eq in K end.
    unfold ApplyOps. simpl. do 3 f_equal.
    rewrite En. unfold set_output. congruence.
Qed.

Lemma DiffNodes_from_sound pre old next :
  (length old <= length next)%nat ->
  Forall2 node_evolves old (take (length old) next) ->
  Forall (fun o => int64_ok (glen (nOutput o)) /\ int64_ok (glen (nMarkdown o))) old ->
  ApplyOps (pre ++ old) (DiffNodes_from (glen pre) old next) = Some (pre ++ next).
Proof.
  revert pre old. induction next as [|n next IH]; intros pre old Hlen Hev Hok.
  { destruct old; [|simpl in Hlen; lia]. done. }
  assert (Hpre : glen pre + 1 = glen (pre ++ [n]))
    by (unfold glen; rewrite length_app; simpl; lia).
  destruct old as [|o old]; cbn [DiffNodes_from].
  - rewrite app_nil_r.
    change (op_open (glen pre) n :: DiffNodes_from (glen pre + 1) [] next)
      with ([op_open (glen pre) n] ++ DiffNodes_from (glen pre + 1) [] next).
    rewrite ApplyOps_app, ApplyOps_one. simpl. rewrite Hpre.
    specialize (IH (pre ++ [n]) []). rewrite app_nil_r in IH. rewrite IH.
    + by rewrite <- app_assoc.
    + simpl; lia.
    + rewrite take_0. constructor.
    + constructor.
  - inversion Hev as [|? ? ? ? He Hev']; subst.
    inversion Hok as [|? ? [Ho Hm] Hok']; subst. simpl in Hlen.
    rewrite ApplyOps_app, DiffNode_step by done. simpl. rewrite Hpre.
    specialize (IH (pre ++ [n]) old). rewrite <- !app_assoc in IH.
    apply IH; [lia|done|done].
Qed.

(** ** Properties *)

(** C16: a delta computed by Diff, applied by Apply, turns the old blob into the
    new one; Diff reports no delta exactly when the blobs are equal.  (A Go
    string is shorter than 2^63 bytes.) *)
Theorem livedoc_diff_apply (old new : gostr) (Hlen : int64_ok (glen old)) :
  match Diff old new with
  | Some d => old <> new /\ Apply old d = Some new
  | None => old = new
  end.
Proof.
  destruct (Diff old new) as [d|] eqn:E.
  - split; [|by apply Diff_roundtrip].
    intros Heq. apply Diff_None in Heq. congruence.
  - by apply Diff_None.
Qed.

Lemma livedoc_diff_apply_witness :
  int64_ok (glen #"hello wrld") /\
  match Diff #"hello wrld" #"hello world!" with
  | Some d => #"hello wrld" <> #"hello world!" /\ Apply #"hello wrld" d = Some #"hello world!"
  | None => #"hello wrld" = #"hello world!"
  end.
Proof.
  split.
  - vm_compute. split; congruence.
  - apply (livedoc_diff_apply #"hello wrld" #"hello world!"). vm_compute. split; congruence.
Defined.

(** Between valid UTF-8 blobs, a delta lands on rune boundaries: the kept
    prefix, the kept suffix and the inserted text are all valid UTF-8, so no
    glyph is ever split on the wire. *)
Theorem livedoc_diff_rune_aligned (old new : gostr) (d : Delta)
    (Hold : valid_utf8 old) (Hnew : valid_utf8 new) (Hd : Diff old new = Some d) :
  0 <= dAt d /\ 0 <= dDel d /\ dAt d + dDel d <= glen old /\
  valid_utf8 (take (Z.to_nat (dAt d)) old) /\
  valid_utf8 (drop (Z.to_nat (dAt d + dDel d)) old) /\
  valid_utf8 (dIns d).
Proof.
  apply Diff_regions in Hd
    as (a & z & E1 & E2 & E3 & Ho & Hn & Ht & Hdr & Ha & Hz).
  unfold glen in *. rewrite E2, E1, E3.
  assert (Hp : valid_utf8 (take a old) /\ valid_utf8 (drop a old)).
  { apply valid_utf8_split; [done|lia|].
    destruct Ha as [->|[?|?]]; [|left; lia|].
    - destruct (decide (old = [])) as [->|Hne]; [by left|right].
      split; [destruct old; simpl; [done|lia]|by apply valid_utf8_start].
    - destruct (decide (a = length old)); [by left|right; split; [lia|done]]. }
  assert (Hs : valid_utf8 (drop (length old - z) old)).
  { apply valid_utf8_split; [done|lia|].
    destruct Hz as [->|Hz]; [left; lia|].
    destruct (decide (z = 0%nat)) as [->|]; [left; lia|right; split; [lia|done]]. }
  assert (Hpn : valid_utf8 (drop a new)).
  { apply (valid_utf8_cancel_prefix (take a new)); [by rewrite <- Ht; apply Hp|].
    by rewrite take_drop. }
  split_and!; [lia|lia|lia| | |].
  - by rewrite Nat2Z.id; apply Hp.
  - by replace (Z.to_nat _) with (length old - z)%nat by lia.
  - apply (valid_utf8_cancel_suffix _ (drop (length new - z) new)); [by rewrite <- Hdr|].
    replace (length new - z)%nat with (a + (length new - z - a))%nat at 2 by lia.
    by rewrite <- drop_drop, take_drop.
Qed.

Lemma livedoc_diff_rune_aligned_witness :
  exists d, Diff #"a✓ b" #"a✗ b" = Some d /\
    valid_utf8 (take (Z.to_nat (dAt d)) #"a✓ b") /\ dIns d = #"✗".
Proof.
  assert (H1 : valid_utf8 #"a✓ b").
  { change (#"a✓ b") with (#"a" ++ #"✓" ++ #" " ++ #"b" ++ []).
    repeat (constructor; [eexists; vm_compute; reflexivity|]). constructor. }
  assert (H2 : valid_utf8 #"a✗ b").
  { change (#"a✗ b") with (#"a" ++ #"✗" ++ #" " ++ #"b" ++ []).
    repeat (constructor; [eexists; vm_compute; reflexivity|]). constructor. }
  eexists. split; [vm_compute; reflexivity|]. split; [|vm_compute; reflexivity].
  eapply (livedoc_diff_rune_aligned #"a✓ b" #"a✗ b" _ H1 H2). vm_compute. reflexivity.
Defined.

(** Apply never slices out of bounds, whatever the delta a peer sent and
    even when At+Del overflows int64; the result is always the blob with one
    region replaced by Ins, and in-range deltas replace exactly [At, At+Del). *)
Theorem livedoc_apply_total (blob : gostr) (d : Delta) :
  (exists p q, (p <= q <= length blob)%nat /\
    Apply blob d = Some (take p blob ++ dIns d ++ drop q blob)) /\
    (0 <= dAt d -> 0 <= dDel d -> dAt d + dDel d <= glen blob -> int64_ok (glen blob) ->
   Apply blob d = Some (take (Z.to_nat (dAt d)) blob ++ dIns d ++
                        drop (Z.to_nat (dAt d + dDel d)) blob)).
Proof.
  split; [apply Apply_shape|]. intros H1 H2 H3 H4.
  pose proof (Apply_in_range blob (Z.to_nat (dAt d))
    (length blob - Z.to_nat (dAt d + dDel d)) (dIns d)) as H.
  destruct d as [da dd di]; simpl in *. unfold glen in *.
  replace (Z.of_nat (Z.to_nat da)) with da in H by lia.
  replace (Z.of_nat (length blob) - da - _) with dd in H by lia.
  rewrite H by (done || lia). do 4 f_equal. lia.
Qed.

Lemma livedoc_apply_total_witness :
  Apply #"hello" (mkDelta 1 (2 ^ 63 - 1) #"i") = Some #"hiello" /\
    Apply #"hello" (mkDelta 1 4 #"i") = Some #"hi".
Proof.
  split; [vm_compute; reflexivity|].
  rewrite (proj2 (livedoc_apply_total #"hello" (mkDelta 1 4 #"i"))); [done|..];
    try (vm_compute; congruence). vm_compute. split; congruence.
Defined.

(** Folding the ops DiffNodes derives over the old node list rebuilds the
    new list exactly, for an append-only list whose nodes evolve monotonically
    (text changes freely; a tool's name, arguments and times are never
    cleared; other node types do not change). *)
Theorem livedoc_diffnodes_roundtrip (old next : list Node)
    (Hlen : (length old <= length next)%nat)
    (Hev : Forall2 node_evolves old (take (length old) next))
    (Hok : Forall (fun o => int64_ok (glen (nOutput o)) /\ int64_ok (glen (nMarkdown o))) old) :
  ApplyOps old (DiffNodes old next) = Some next.
Proof. exact (DiffNodes_from_sound [] old next Hlen Hev Hok). Qed.

Definition ex_prose (s : gostr) : Node := mkNode NodeProse 0 s [] [] None [] [] [] 0 0.
Definition ex_tool (st out : gostr) (fin : Z) : Node :=
  mkNode NodeTool 0 [] #"t1" #"bash" (Some [(#"cmd", JStr #"ls")]) st out #"ls" 5 fin.

Lemma livedoc_diffnodes_roundtrip_witness :
  ApplyOps [ex_prose #"he"; ex_tool StatusRunning #"a" 0]
    (DiffNodes [ex_prose #"he"; ex_tool StatusRunning #"a" 0]
       [ex_prose #"hello"; ex_tool StatusOK #"ab" 9; ex_prose #"done"])
  = Some [ex_prose #"hello"; ex_tool StatusOK #"ab" 9; ex_prose #"done"].
Proof.
  apply livedoc_diffnodes_roundtrip.
  - simpl. lia.
  - repeat constructor; vm_compute; intuition congruence.
  - repeat constructor; vm_compute; congruence.
Defined.
