(* ===== verification/Message.v ===== *)
(** * message: the provider-agnostic IR (src/internal/message) *)

From S2P Require Import Prelude Json.

(** Role, ContentType, StopReason and InterruptReason are open string types. *)
Definition RoleUser := #"user".
Definition RoleAssistant := #"assistant".
Definition RoleToolResult := #"tool_result".
Definition RoleSystem := #"system".
Definition RoleSystemInterrupt := #"system.interrupt".
Definition RoleGenesis := #"genesis".

Definition StopEnd := #"stop".
Definition StopAborted := #"aborted".

Definition ContentProse := #"prose".
Definition ContentImage := #"image".
Definition ContentThinking := #"thinking".
Definition ContentToolInvoke := #"tool_invoke".
Definition ContentToolResult := #"tool_result".
Definition ContentInterrupt := #"interrupt".

Record Content := mkContent {
  cType : gostr;
  cText : gostr;
  cMimeType : gostr;
  cData : gostr;
  cToolCallID : gostr;
  cToolName : gostr;
  cArguments : option object;
  cIsError : bool;
  cReason : gostr }.

Record Usage := mkUsage {
  InputTokens : Z; OutputTokens : Z; CacheReadTokens : Z; CacheWriteTokens : Z }.

(** A chalkboard delta: keys to set plus keys to remove. *)
Record Patch := mkPatch { pSet : gmap gostr gostr; pRemove : list gostr }.

Record Message := mkMessage {
  mRole : gostr;
  mContent : list Content;
  mPatches : list Patch;
  mUsage : option Usage;
  mStopReason : gostr;
  mToolCallID : gostr;
  mToolName : gostr;
  mLogicalTime : Z;
  mTimestamp : Z }.

#[export] Instance Content_eq_dec : EqDecision Content.
Proof. solve_decision. Defined.
#[export] Instance Usage_eq_dec : EqDecision Usage.
Proof. solve_decision. Defined.
#[export] Instance Patch_eq_dec : EqDecision Patch.
Proof. solve_decision. Defined.
#[export] Instance Message_eq_dec : EqDecision Message.
Proof. solve_decision. Defined.

Definition zero_Message : Message := mkMessage [] [] [] None [] [] [] 0 0.

(** func (p Patch) IsEmpty *)
Definition IsEmpty (p : Patch) : bool :=
  bool_decide (size (pSet p) = 0%nat) && bool_decide (length (pRemove p) = 0%nat).

Definition TextContent (text : gostr) : Content :=
  mkContent ContentProse text [] [] [] [] None false [].

(** func ImageContent *)
Definition ImageContent (mimeType data : gostr) : Content :=
  mkContent ContentImage [] mimeType data [] [] None false [].

Definition ToolResultContent (id name text : gostr) (isErr : bool) : Content :=
  mkContent ContentToolResult text [] [] id name None isErr [].

Definition InterruptContent (id name reason text : gostr) : Content :=
  mkContent ContentInterrupt text [] [] id name None false reason.

(** func IsGenesis *)
Definition IsGenesis (m : Message) : bool := bool_decide (mRole m = RoleGenesis).

(** A user block that makes its message conversational. *)
Definition renderable_block (c : Content) : bool :=
  (bool_decide (cType c = ContentProse) && negb (bool_decide (cText c = []))) ||
  (bool_decide (cType c = ContentImage) || bool_decide (cType c = ContentToolResult)).

(** func IsCeremonial *)
Definition IsCeremonial (m : Message) : bool :=
  if bool_decide (mRole m = RoleGenesis) then true
  else if bool_decide (mRole m = RoleUser)
  then negb (existsb renderable_block (mContent m))
  else false.

(** func CountMessages *)
Definition CountMessages (msgs : list Message) : nat :=
  foldl (fun n m => if IsCeremonial m then n else S n) 0%nat msgs.

(** func NewInterruptSentinel *)
Definition NewInterruptSentinel (reason text : gostr) (calls : list Content) : Message :=
  let blocks := foldl (fun acc c =>
    if bool_decide (cType c <> ContentToolInvoke) then acc
    else acc ++ [InterruptContent (cToolCallID c) (cToolName c) reason text]) [] calls in
  mkMessage RoleSystemInterrupt blocks [] None [] [] [] 0 0.

(** func IsInterruptSentinel *)
Definition IsInterruptSentinel (m : Message) : bool :=
  bool_decide (mRole m = RoleSystemInterrupt).

(** func DanglingToolCallIDs *)
Definition DanglingToolCallIDs (m : Message) : list gostr :=
  if negb (IsInterruptSentinel m) then [] else
  foldl (fun ids c =>
    if bool_decide (cType c = ContentInterrupt) && negb (bool_decide (cToolCallID c = []))
    then ids ++ [cToolCallID c] else ids) [] (mContent m).

(** ** Lemmas *)

Lemma foldl_filter_map {A B} (p : A -> bool) (f : A -> B) acc l :
  foldl (fun acc c => if p c then acc ++ [f c] else acc) acc l =
  acc ++ map f (List.filter p l).
Proof.
  revert acc. induction l as [|c l IH]; intros acc; simpl; [by rewrite app_nil_r|].
  rewrite IH. destruct (p c); [by rewrite <- app_assoc|done].
Qed.

Lemma count_loop n l :
  foldl (fun n m => if IsCeremonial m then n else S n) n l = (n + CountMessages l)%nat.
Proof.
  unfold CountMessages. revert n.
  induction l as [|m l IH]; intros n; simpl; [lia|].
  rewrite IH. destruct (IsCeremonial m); [done|]. rewrite (IH 1%nat). lia.
Qed.

Lemma CountMessages_app l k :
  CountMessages (l ++ k) = (CountMessages l + CountMessages k)%nat.
Proof. unfold CountMessages at 1. by rewrite foldl_app, count_loop. Qed.

(** The tool calls of an assistant message. *)
Definition invokes (calls : list Content) : list Content :=
  List.filter (fun c => bool_decide (cType c = ContentToolInvoke)) calls.

Lemma foldl_skip_map {A B} (p : A -> bool) (f : A -> B) acc l :
  foldl (fun acc c => if p c then acc else acc ++ [f c]) acc l =
  acc ++ map f (List.filter (fun c => negb (p c)) l).
Proof.
  revert acc. induction l as [|c l IH]; intros acc; simpl; [by rewrite app_nil_r|].
  rewrite IH. destruct (p c); [done|by rewrite <- app_assoc].
Qed.

Lemma sentinel_blocks reason text calls :
  mContent (NewInterruptSentinel reason text calls) =
  map (fun c => InterruptContent (cToolCallID c) (cToolName c) reason text) (invokes calls).
Proof.
  unfold NewInterruptSentinel, invokes. simpl.
  rewrite (foldl_skip_map (fun c => bool_decide (cType c <> ContentToolInvoke))). simpl.
  f_equal. apply List.filter_ext. intros c. by do 2 case_bool_decide.
Qed.

(** ** Property *)

(** The interrupt sentinel built for an aborted assistant turn names exactly
    the (non-empty) ids of its dangling tool calls, in order: reading them back
    from the sentinel loses none and invents none. *)
Theorem message_sentinel_roundtrip (reason text : gostr) (calls : list Content) :
  DanglingToolCallIDs (NewInterruptSentinel reason text calls) =
  List.filter (fun id => negb (bool_decide (id = []))) (map cToolCallID (invokes calls)) /\
  CountMessages [NewInterruptSentinel reason text calls] = 1%nat.
Proof.
  split; [|done]. unfold DanglingToolCallIDs.
  change (IsInterruptSentinel (NewInterruptSentinel reason text calls)) with true.
  cbv [negb]. rewrite sentinel_blocks, (foldl_filter_map _ cToolCallID). simpl.
  induction (invokes calls) as [|c l IH]; simpl; [done|].
  case_bool_decide; simpl; [done|]. by f_equal.
Qed.
