(* ===== verification/PatchJson.v ===== *)
(** * chalkboard patches as JSON (src/internal/message/patch.go)

    json.Marshal and json.Unmarshal of message.Patch, whose values are
    json.RawMessages: [marshal_raw] is what the encoder makes of the text of a
    value (it drops blanks and escapes), [raw_map] what the decoder keeps of it.
    A patch whose values were printed by json.Marshal is read back as it was
    written ([unmarshal_marshal]). *)

From S2P Require Import Prelude Utf8 GoStrings Json GoJson RawJson Message.

(** ** Compaction: what json.Marshal makes of a json.RawMessage *)

Inductive scan := Outside | InString | Escaped.

#[export] Instance scan_eq_dec : EqDecision scan.
Proof. solve_decision. Defined.

(** The scanner drops blanks outside strings and escapes <, >, &, U+2028 and
    U+2029. *)
Fixpoint compact_scan (st : scan) (s : gostr) : gostr :=
  match s with
  | [] => []
  | c :: r =>
      if (bz c =? 0x3C) || (bz c =? 0x3E) || (bz c =? 0x26) then
        uescape (bz c) ++ compact_scan (match st with Escaped => InString | _ => st end) r
      else
        let keep st' := c :: compact_scan st' r in
        match st with
        | Outside => if is_blank c then compact_scan Outside r else
                     if bz c =? 0x22 then keep InString else keep Outside
        | Escaped => keep InString
        | InString =>
            if bz c =? 0xE2 then
              match r with
              | d :: e :: r' =>
                  if (bz d =? 0x80) && ((bz e =? 0xA8) || (bz e =? 0xA9))
                  then #"\u202" ++ hexdigit (Z.land (bz e) 0xF) :: compact_scan InString r'
                  else keep InString
              | _ => keep InString
              end
            else if bz c =? 0x22 then keep Outside else
            if bz c =? 0x5C then keep Escaped else keep InString
        end
  end.

(** A RawMessage that is nil prints null; one that is not JSON is an error. *)
Definition marshal_raw (raw : gostr) : option gostr :=
  if bool_decide (raw = []) then Some #"null" else
  match Parse raw with Some _ => Some (compact_scan Outside raw) | None => None end.

(** ** message.Patch *)

(** json.Marshal of a Patch; a map prints in the order of its keys. *)
Definition marshal_set (set : gmap gostr gostr) : option gostr :=
  members ← mapM (fun k => text ← marshal_raw (default [] (set !! k)); Some (print_string k ++ x3a :: text))
    (sort_strings (map fst (map_to_list set)));
  Some (x7b :: Join [x2c] members ++ [x7d]).
Definition marshal_patch (p : Patch) : option gostr :=
  set ← (if bool_decide (pSet p = ∅) then Some [] else
         text ← marshal_set (pSet p); Some [print_string #"set" ++ x3a :: text]);
  let remove := if bool_decide (pRemove p = []) then [] else
    [print_string #"remove" ++ x3a :: Print (JArr (map JStr (pRemove p)))] in
  Some (x7b :: Join [x2c] (set ++ remove) ++ [x7d]).

(** json.Unmarshal into a zero Patch: map[string]json.RawMessage takes the text
    of every member, the last one for a repeated key. *)
Definition raw_map : rdecoder (gmap gostr gostr) := fun raw cur =>
  match RawObject raw with
  | Some ms => (foldl (fun m kv => <[kv.1 := kv.2]> m) cur ms, true)
  | None => if is_null raw then (∅, true) else (cur, false)
  end.
Definition patch_fields : list (gostr * rdecoder Patch) := [
  rfld #"set" pSet (fun v p => mkPatch v (pRemove p)) raw_map;
  rfld #"remove" pRemove (fun v p => mkPatch (pSet p) v) (of_value (dec_slice [] dec_string))].
Definition unmarshal_patch (data : gostr) : option Patch :=
  match UnmarshalRaw (raw_struct patch_fields) data (mkPatch ∅ []) with
  | (p, true) => Some p
  | (_, false) => None
  end.

(** A patch as it comes back from the disk: its values are texts json.Marshal
    printed, its names valid UTF-8. *)
Definition canonical (p : Patch) : Prop :=
  map_Forall (fun k raw => valid_utf8 k /\ exists v, printable 2 v /\ raw = Print v) (pSet p) /\
  Forall valid_utf8 (pRemove p).

(** ** A printed value is compact *)

(** The state after a text the scanner keeps as it is. *)
Fixpoint calm (st : scan) (s : gostr) : option scan :=
  match s with
  | [] => Some st
  | c :: r =>
      if (bz c =? 0x3C) || (bz c =? 0x3E) || (bz c =? 0x26) then None else
      match st with
      | Outside => if is_blank c then None else calm (if bz c =? 0x22 then InString else Outside) r
      | Escaped => calm InString r
      | InString => if bz c =? 0xE2 then None else
                    calm (if bz c =? 0x22 then Outside else if bz c =? 0x5C then Escaped else InString) r
      end
  end.

Definition kept (st : scan) (s : gostr) (st' : scan) : Prop :=
  forall t, compact_scan st (s ++ t) = s ++ compact_scan st' t.

Lemma calm_kept st s st' : calm st s = Some st' -> kept st s st'.
Proof.
  revert st. induction s as [|c s IH]; intros st H t; [by injection H as ->|].
  cbn [calm app compact_scan] in *. destruct (_ || _ || _); [done|].
  destruct st; repeat case_match; try done; by rewrite IH.
Qed.

Lemma kept_app st s st' s' st'' : kept st s st' -> kept st' s' st'' -> kept st (s ++ s') st''.
Proof. intros H1 H2 t. by rewrite <-!app_assoc, H1, H2. Qed.

Lemma kept_nil st : kept st [] st.
Proof. done. Qed.

Lemma kept_high st s : Forall (fun c => 128 <= bz c /\ bz c <> 0xE2) s -> st = InString -> kept st s st.
Proof.
  intros H ->. apply calm_kept. induction H as [|c s Hc Hs IH]; [done|]. cbn [calm].
  rewrite !(proj2 (Z.eqb_neq _ _)) by lia. done.
Qed.

Lemma print_ascii_kept c : bz c < 128 -> calm InString (print_ascii c) = Some InString.
Proof.
  assert (H : (128 <=? bz c) || bool_decide (calm InString (print_ascii c) = Some InString) = true)
    by (revert c; apply byte_forall; vm_compute; reflexivity).
  intros Hc. apply orb_true_iff in H as [H|H]; bool_hyps; [lia|done].
Qed.

(** Three bytes that are neither U+2028 nor U+2029. *)
Lemma decode_E2 d e r : decode_ok [xe2; d; e] = Some (r, 3%nat) -> bz d = 0x80 ->
  bz e = 0xA8 \/ bz e = 0xA9 -> r = 0x2028 \/ r = 0x2029.
Proof.
  unfold decode_ok. change (bz xe2 <? 128) with false. cbn [lead_info]. 
  change (lead_info (bz xe2)) with (Some (3%nat, 0x80, 0xBF)). cbv iota.
  intros H Hd He. destruct (_ && _); [|done]. injection H as <-. rewrite Hd. destruct He as [-> | ->]; vm_compute; auto.
Qed.

Lemma print_rune_kept c : one_rune c -> kept InString (print_rune c) InString.
Proof.
  intros [r Hr]. destruct (decode_ok_shape _ _ _ Hr) as ((Hn & _) & (b & u & -> & Hb) & Hu).
  unfold print_rune. rewrite Hr. destruct (bz b <? 128) eqn:E; bool_hyps.
  { by apply calm_kept, print_ascii_kept. }
  destruct ((r =? 0x2028) || (r =? 0x2029)) eqn:E2.
  { apply orb_true_iff in E2. rewrite !Z.eqb_eq in E2. destruct E2 as [-> | ->]; apply calm_kept; by vm_compute. }
  rewrite firstn_all. cbn [length] in Hu. rewrite Nat.sub_succ, Nat.sub_0_r in Hu. cbn [tail] in Hu. rewrite firstn_all in Hu.
  assert (Forall (fun c => 128 <= bz c <= 191) u) as Hu'.
  { eapply Forall_impl; [done|]. intros x Hx. by apply is_cont_range in Hx. }
  assert (kept InString u InString) as Hk.
  { apply kept_high; [|done]. eapply Forall_impl; [done|]. cbn. lia. }
  intros t. cbn [app compact_scan]. rewrite !(proj2 (Z.eqb_neq _ _)) by lia. cbn [orb].
  destruct (Z.eqb_spec (bz b) 0xE2) as [Ee|Ee]; [|rewrite !(proj2 (Z.eqb_neq _ _)) by lia; by rewrite Hk].
  assert (b = xe2) as -> by (by apply bz_inj).
  assert (exists d e, u = [d; e]) as (d & e & ->).
  { unfold decode_ok in Hr. change (bz xe2 <? 128) with false in Hr.
    change (lead_info (bz xe2)) with (Some (3%nat, 0x80, 0xBF)) in Hr. cbv iota in Hr.
    destruct u as [|d [|e u]]; try done. destruct (_ && _); [|done]. injection Hr as _ Hl. destruct u; [by eauto|done]. }
  cbn [app]. destruct ((bz d =? 0x80) && _) eqn:E3; [|by rewrite (Hk t : compact_scan InString (d :: e :: t) = _)].
  apply andb_true_iff in E3 as [E3 E4]. apply orb_true_iff in E4. rewrite !Z.eqb_eq in *.
  exfalso. apply orb_false_iff in E2. rewrite !Z.eqb_neq in E2. destruct (decode_E2 _ _ _ Hr E3 E4); lia.
Qed.

Lemma print_string_kept s : valid_utf8 s -> kept Outside (print_string s) Outside.
Proof.
  intros Hs. unfold print_string. apply (kept_app _ [x22] InString); [by apply calm_kept|].
  apply (kept_app _ _ InString); [|by apply calm_kept].
  assert (Hf : (length s <= length s)%nat) by lia. revert Hf. generalize (length s) at 2 3 as f.
  induction Hs as [|c s Hc Hs IH]; intros f Hf; [by destruct f|].
  destruct (one_rune_cons c Hc) as (b & t & -> & _ & _). rewrite length_app in Hf.
  destruct f as [|f]; [cbn in Hf; lia|]. rewrite print_chars_cons by done.
  apply (kept_app _ _ InString); [by apply print_rune_kept|]. apply IH. cbn in Hf. lia.
Qed.

Lemma Join_kept l : Forall (fun s => kept Outside s Outside) l -> kept Outside (Join [x2c] l) Outside.
Proof.
  induction 1 as [|s l Hs Hl IH]; [done|]. destruct l as [|s' l]; [done|]. rewrite Join_cons by done.
  apply (kept_app _ _ Outside); [done|]. by apply (kept_app _ [x2c] Outside); [apply calm_kept|].
Qed.

Lemma num_text_kept t : num_text t -> kept Outside t Outside.
Proof.
  intros H. apply calm_kept. induction H as [|c s Hc Hs IH]; [done|]. cbn [calm].
  rewrite !(proj2 (Z.eqb_neq _ _)) by lia. cbn [orb].
  assert (is_blank c = false) as ->; [|done]. unfold is_blank. rewrite !(proj2 (Z.eqb_neq _ _)) by lia. done.
Qed.

Lemma Print_kept v d : printable d v -> kept Outside (Print v) Outside.
Proof.
  revert d. induction v as [|b|s|s|l IH|m IH] using json_rect'; intros d Hp;
    inversion Hp as [| |? ? Hn|? ? Hs|? ? Hd Hl|? ? Hd Hl]; subst; cbn [Print].
  - by apply calm_kept.
  - by destruct b; apply calm_kept.
  - by eapply num_text_kept, num_lit_text.
  - by apply print_string_kept.
  - apply (kept_app _ [x5b] Outside); [by apply calm_kept|].
    apply (kept_app _ _ Outside); [|by apply calm_kept]. apply Join_kept, Forall_map.
    rewrite Forall_forall in IH, Hl |- *. intros x Hx. by eapply IH, Hl.
  - apply (kept_app _ [x7b] Outside); [by apply calm_kept|].
    apply (kept_app _ _ Outside); [|by apply calm_kept]. apply Join_kept, Forall_map.
    rewrite Forall_forall in IH, Hl |- *. intros x Hx. destruct (Hl x Hx) as [Hk Hv].
    apply (kept_app _ _ Outside); [by apply print_string_kept|].
    apply (kept_app _ [x3a] Outside); [by apply calm_kept|]. by eapply IH.
Qed.

(** json.Marshal keeps a printed RawMessage as it is. *)
Lemma marshal_printed v : printable 0 v -> marshal_raw (Print v) = Some (Print v).
Proof.
  intros Hv. unfold marshal_raw. destruct (Print_head _ _ Hv) as (c & r & E & _).
  rewrite bool_decide_eq_false_2 by (by rewrite E). rewrite Parse_Print by done.
  pose proof (Print_kept _ _ Hv []) as Hk. rewrite app_nil_r in Hk. by rewrite Hk, app_nil_r.
Qed.

(** ** Round trip *)

Definition value_of (raw : gostr) : json := default JNull (Parse raw).
Definition set_members (set : gmap gostr gostr) : object :=
  map (fun k => (k, value_of (default [] (set !! k)))) (sort_strings (map fst (map_to_list set))).
Definition patch_json (p : Patch) : json :=
  JObj ((if bool_decide (pSet p = ∅) then [] else [ (#"set", JObj (set_members (pSet p)))]) ++
        (if bool_decide (pRemove p = []) then [] else [ (#"remove", JArr (map JStr (pRemove p)))])).

Lemma mapM_map {A B} (f : A -> option B) (g : A -> B) l :
  Forall (fun x => f x = Some (g x)) l -> mapM f l = Some (map g l).
Proof. induction 1 as [|x l Hx Hl IH]; [done|]. cbn. by rewrite Hx, IH. Qed.

Lemma set_keys (set : gmap gostr gostr) k :
  k ∈ sort_strings (map fst (map_to_list set)) <-> is_Some (set !! k).
Proof.
  rewrite elem_of_sort_strings, list_elem_of_fmap. split.
  - intros ([k' v] & -> & Hv%elem_of_map_to_list). by exists v.
  - intros [v Hv]. exists (k, v). split; [done|]. by apply elem_of_map_to_list.
Qed.

Lemma value_printed (set : gmap gostr gostr) k (d := default [] (set !! k)) :
  map_Forall (fun k raw => valid_utf8 k /\ exists v, printable 2 v /\ raw = Print v) set -> is_Some (set !! k) ->
  valid_utf8 k /\ printable 2 (value_of d) /\ Print (value_of d) = d.
Proof.
  intros Hs [raw Hk]. destruct (Hs _ _ Hk) as (Hu & v & Hv & ->). subst d. rewrite Hk. cbn [from_option id].
  unfold value_of. rewrite Parse_Print by (by apply (printable_weaken 2)). done.
Qed.

Lemma members_printable (set : gmap gostr gostr) :
  map_Forall (fun k raw => valid_utf8 k /\ exists v, printable 2 v /\ raw = Print v) set ->
  Forall (fun kv => valid_utf8 kv.1 /\ printable 2 kv.2) (set_members set).
Proof.
  intros Hs. unfold set_members. apply Forall_map, Forall_forall. intros k Hk%set_keys. cbn [fst snd].
  by destruct (value_printed set k Hs Hk) as (? & ? & _).
Qed.

Lemma patch_printable p : canonical p -> printable 0 (patch_json p).
Proof.
  intros [Hs Hr]. constructor; [done|]. apply Forall_app. split.
  - case_bool_decide; [done|]. constructor; [|done]. cbn [fst snd]. split; [lit_ok|].
    constructor; [done|]. eapply Forall_impl; [by apply members_printable|]. done.
  - case_bool_decide; [done|]. constructor; [|done]. cbn [fst snd]. split; [lit_ok|].
    constructor; [done|]. apply Forall_map. eapply Forall_impl; [done|]. intros s Hv. by constructor.
Qed.

Lemma marshal_set_print (set : gmap gostr gostr) :
  map_Forall (fun k raw => valid_utf8 k /\ exists v, printable 2 v /\ raw = Print v) set ->
  marshal_set set = Some (Print (JObj (set_members set))).
Proof.
  intros Hs. unfold marshal_set.
  rewrite (mapM_map _ (fun k => print_string k ++ x3a :: default [] (set !! k))).
  - cbn [mbind option_bind Print]. do 4 f_equal. unfold set_members. rewrite map_map. apply map_ext_in.
    intros k Hk%list_elem_of_In%set_keys. cbn [fst snd].
    destruct (value_printed set k Hs Hk) as (_ & _ & E). by rewrite E.
  - apply Forall_forall. intros k Hk%set_keys. destruct (value_printed set k Hs Hk) as (_ & Hp & E).
    rewrite <-E, marshal_printed by (by apply (printable_weaken 2)). done.
Qed.

Lemma marshal_patch_print p : canonical p -> marshal_patch p = Some (Print (patch_json p)).
Proof.
  intros [Hs Hr]. unfold marshal_patch, patch_json. rewrite marshal_set_print by done.
  do 2 case_bool_decide; done.
Qed.

Lemma foldl_insert_map (l : list (gostr * gostr)) :
  foldl (fun (m : gmap gostr gostr) kv => <[kv.1 := kv.2]> m) ∅ l = list_to_map (rev l).
Proof.
  induction l as [|[k v] l IH] using rev_ind; [done|]. rewrite foldl_app, rev_app_distr. cbn. by rewrite IH.
Qed.

Lemma set_read (set : gmap gostr gostr) :
  map_Forall (fun k raw => valid_utf8 k /\ exists v, printable 2 v /\ raw = Print v) set ->
  raw_map (Print (JObj (set_members set))) ∅ = (set, true).
Proof.
  intros Hs. unfold raw_map. rewrite RawObject_Print.
  2:{ constructor; [done|]. eapply Forall_impl; [by apply members_printable|]. cbn. intros kv [? ?].
      split; [done|]. by apply (printable_weaken 2). }
  f_equal. rewrite foldl_insert_map.
  unfold set_members. rewrite map_map. cbn [fst snd].
  set (pairs := map _ _).
  assert (pairs ≡ₚ map_to_list set) as Hp.
  { unfold pairs. rewrite sort_strings_perm. rewrite map_map. rewrite <-(map_id (map_to_list set)) at 2.
    erewrite map_ext_in; [done|]. intros [k v] Hkv%list_elem_of_In%elem_of_map_to_list. cbn [fst snd].
    destruct (value_printed set k Hs) as (_ & _ & ->); [by exists v|]. by rewrite Hkv. }
  rewrite <-(list_to_map_to_list set). apply list_to_map_proper; rewrite <-Permutation_rev, Hp; [|done].
  apply NoDup_fst_map_to_list.
Qed.

Lemma remove_read l : Forall valid_utf8 l ->
  of_value (dec_slice [] dec_string) (Print (JArr (map JStr l))) [] = (l, true).
Proof.
  intros Hl. unfold of_value, Unmarshal. rewrite Parse_Print.
  - cbn [dec_slice]. induction l as [|s l IH]; [done|]. apply Forall_cons in Hl as [_ Hl].
    cbn [map dec_elems dec_string hd tl]. by rewrite IH.
  - constructor; [done|]. apply Forall_map. eapply Forall_impl; [done|]. intros s Hv. by constructor.
Qed.

Lemma unmarshal_marshal p : canonical p ->
  exists text, marshal_patch p = Some text /\ text <> [] /\ unmarshal_patch text = Some p.
Proof.
  intros Hc. exists (Print (patch_json p)). split; [by apply marshal_patch_print|].
  pose proof (patch_printable p Hc) as Hp. split.
  { by destruct (Print_head _ _ Hp) as (c & r & -> & _). }
  unfold unmarshal_patch, UnmarshalRaw. rewrite Parse_Print by done. unfold raw_struct.
  rewrite (RawObject_Print _ Hp : RawObject (Print (patch_json p)) = _). destruct Hc as [Hs Hr], p as [set rm]. cbn [pSet pRemove] in *.
  assert (forall st raw, raw_member patch_fields (st, true) (#"set", raw) =
    let '(v, ok) := raw_map raw (pSet st) in (mkPatch v (pRemove st), ok)) as E1.
  { intros st raw. unfold raw_member. cbn [fst snd]. change (select patch_fields #"set") with
      (Some (rfld #"set" pSet (fun v p => mkPatch v (pRemove p)) raw_map).2). cbn [rfld snd].
    by destruct (raw_map _ _). }
  assert (forall st raw, raw_member patch_fields (st, true) (#"remove", raw) =
    let '(v, ok) := of_value (dec_slice [] dec_string) raw (pRemove st) in (mkPatch (pSet st) v, ok)) as E2.
  { intros st raw. unfold raw_member. cbn [fst snd]. change (select patch_fields #"remove") with
      (Some (rfld #"remove" pRemove (fun v p => mkPatch (pSet p) v) (of_value (dec_slice [] dec_string))).2).
    cbn [rfld snd]. by destruct (of_value _ _ _). }
  do 2 case_bool_decide; subst; cbn [map app foldl fst snd];
    rewrite ?E1, ?set_read by done; cbv iota beta; rewrite ?E2; cbn [pSet pRemove]; rewrite ?remove_read by done; done.
Qed.
