(* ===== verification/Chalkboard.v ===== *)
(** * chalkboard: snapshots, patches and their algebra
    (src/internal/chalkboard/chalkboard.go, state.go, and the client-input
    rules of src/internal/figaro/turn.go and chalkboard.go).

    A snapshot maps keys to raw JSON bytes; Go's map equality with
    bytes.Equal on the values is equality of finite maps. *)

From S2P Require Import Prelude Json Message.

(** map[string]json.RawMessage *)
Abbreviation snapshot := (gmap gostr gostr).

Definition empty_patch : Patch := mkPatch ∅ [].

(** func containsString *)
Definition containsString (xs : list gostr) (s : gostr) : bool := bool_decide (s ∈ xs).

(** func removeString: drops the first occurrence only. *)
Fixpoint removeString (xs : list gostr) (s : gostr) : list gostr :=
  match xs with
  | [] => []
  | x :: xs' => if bool_decide (x = s) then xs' else x :: removeString xs' s
  end.

Module Snapshot.

(** func (s Snapshot) Diff: the patch that turns [prev] into [s]. *)
Definition Diff (s prev : snapshot) : Patch :=
  {| pSet := filter (fun kv => prev !! kv.1 <> Some kv.2) s;
     pRemove := sort_strings (elements (dom prev ∖ dom s)) |}.

(** func (s Snapshot) Apply: sets first, then removes. *)
Definition Apply (s : snapshot) (p : Patch) : snapshot :=
  foldl (fun next k => delete k next) (pSet p ∪ s) (pRemove p).

End Snapshot.

(** One iteration of Merge's loop over q.Set. *)
Definition merge_set (k v : gostr) (out : snapshot * list gostr) : snapshot * list gostr :=
  (<[k := v]> out.1, removeString out.2 k).

(** One iteration of Merge's loop over q.Remove. *)
Definition merge_remove (out : snapshot * list gostr) (k : gostr) : snapshot * list gostr :=
  (delete k out.1, if containsString out.2 k then out.2 else out.2 ++ [k]).

(** func Merge: p, then q; q wins. *)
Definition Merge (p q : Patch) : Patch :=
  let out := (pSet p, pRemove p) in
  let out := map_fold merge_set out (pSet q) in
  let out := foldl merge_remove out (pRemove q) in
  {| pSet := out.1; pRemove := sort_strings out.2 |}.

(** type Entry: [None] is a nil RawMessage. *)
Record Entry := mkEntry { eKey : gostr; eOld : option gostr; eNew : option gostr }.

Definition IsRemoval (e : Entry) : bool :=
  match eNew e with None => true | Some _ => false end.

(** The keys PatchEntries lists, before sorting. *)
Definition patch_keys (p : Patch) : list gostr :=
  foldl (fun keys k => match pSet p !! k with Some _ => keys | None => keys ++ [k] end)
    (map fst (map_to_list (pSet p))) (pRemove p).

(** func PatchEntries *)
Definition PatchEntries (p : Patch) (prev : snapshot) : list Entry :=
  map (fun k => {| eKey := k; eOld := prev !! k; eNew := pSet p !! k |})
    (sort_strings (patch_keys p)).

(** type State: a single-owner handle. *)
Record State := mkState { sSnapshot : snapshot; sPath : gostr; sDirty : bool }.

(** func (s *State) Apply *)
Definition State_Apply (s : State) (p : Patch) : State * snapshot :=
  if IsEmpty p then (s, sSnapshot s)
  else let next := Snapshot.Apply (sSnapshot s) p in
       (mkState next (sPath s) true, next).

(** ** Client input (figaro/turn.go, figaro/chalkboard.go) *)

Record ChalkboardInput := mkInput { iContext : option snapshot; iPatch : option Patch }.

(** func withoutSystemNS *)
Definition withoutSystemNS (s : snapshot) : snapshot :=
  filter (fun kv => has_prefix kv.1 #"system." = false) s.

(** func additivePatch *)
Definition additivePatch (ctx snap : snapshot) : Patch :=
  {| pSet := filter (fun kv => snap !! kv.1 <> Some kv.2) ctx; pRemove := [] |}.

(** func (a *Agent) combineChalkboardInput, with a chalkboard present. *)
Definition combineChalkboardInput (snap : snapshot) (input : option ChalkboardInput) : Patch :=
  match input with
  | None => empty_patch
  | Some input =>
      let clientPatch := default empty_patch (iPatch input) in
      let ctxPatch := match iContext input with
                      | Some ctx => additivePatch (withoutSystemNS ctx) snap
                      | None => empty_patch
                      end in
      if negb (IsEmpty ctxPatch) && negb (IsEmpty clientPatch) then Merge ctxPatch clientPatch
      else if negb (IsEmpty ctxPatch) then ctxPatch
      else if negb (IsEmpty clientPatch) then clientPatch
      else empty_patch
  end.

(** The patch ApplyLoadout submits: the loadout's keys that are missing or
    different; [None] when nothing would change. *)
Definition loadout_additive (loaded : Patch) (current : snapshot) : option Patch :=
  if IsEmpty loaded then None else
  let additive := filter (fun kv => current !! kv.1 <> Some kv.2) (pSet loaded) in
  if bool_decide (size additive = 0%nat) then None
  else Some {| pSet := additive; pRemove := [] |}.

(** ** Lookups *)

Lemma decide_cons {A} (k x : gostr) ks (a b : A) :
  (if decide (k ∈ x :: ks) then a else b) =
  (if decide (k ∈ ks) then a else if decide (k = x) then a else b).
Proof.
  destruct (decide (k ∈ x :: ks)) as [H|H]; rewrite elem_of_cons in H;
    destruct (decide (k ∈ ks)), (decide (k = x)); tauto.
Qed.

Lemma foldl_delete_lookup (m : snapshot) ks k :
  foldl (fun next k => delete k next) m ks !! k =
  if decide (k ∈ ks) then None else m !! k.
Proof.
  revert m. induction ks as [|x ks IH]; intros m; simpl; [done|].
  rewrite IH, decide_cons, lookup_delete. repeat case_decide; congruence.
Qed.

Lemma Apply_lookup s p k :
  Snapshot.Apply s p !! k =
  if decide (k ∈ pRemove p) then None
  else match pSet p !! k with Some v => Some v | None => s !! k end.
Proof.
  unfold Snapshot.Apply. rewrite foldl_delete_lookup. case_decide; [done|].
  rewrite lookup_union. by destruct (pSet p !! k), (s !! k).
Qed.

Lemma Diff_set_lookup s prev k :
  pSet (Snapshot.Diff s prev) !! k =
  match s !! k with
  | Some v => if decide (prev !! k = Some v) then None else Some v
  | None => None
  end.
Proof.
  simpl. rewrite map_lookup_filter. destruct (s !! k) as [v|]; [|done]. simpl.
  destruct (decide (prev !! k = Some v)); by case_guard.
Qed.

Lemma Diff_remove_elem s prev k :
  k ∈ pRemove (Snapshot.Diff s prev) <-> is_Some (prev !! k) /\ s !! k = None.
Proof.
  simpl. rewrite elem_of_sort_strings, elem_of_elements, elem_of_difference.
  rewrite !elem_of_dom, <- eq_None_not_Some. done.
Qed.

Lemma removeString_elem xs s k :
  NoDup xs -> k ∈ removeString xs s <-> k ∈ xs /\ k <> s.
Proof.
  induction 1 as [|x xs Hx Hnd IH]; simpl; [set_solver|].
  case_bool_decide; [set_solver|]. rewrite !elem_of_cons, IH. naive_solver.
Qed.

Lemma removeString_NoDup xs s : NoDup xs -> NoDup (removeString xs s).
Proof.
  induction 1 as [|x xs Hx Hnd IH]; simpl; [constructor|].
  case_bool_decide; [done|]. constructor; [|done].
  rewrite removeString_elem by done. naive_solver.
Qed.

Lemma merge_set_fold (st : snapshot) (rm : list gostr) (qs : snapshot) :
  NoDup rm ->
  let out := map_fold merge_set (st, rm) qs in
  out.1 = qs ∪ st /\ NoDup out.2 /\ forall k, k ∈ out.2 <-> k ∈ rm /\ qs !! k = None.
Proof.
  intros Hnd. apply (map_fold_weak_ind (fun (out : snapshot * list gostr) (m : snapshot) =>
    out.1 = m ∪ st /\ NoDup out.2 /\ forall k, k ∈ out.2 <-> k ∈ rm /\ m !! k = None)).
  - simpl. split_and!; [by rewrite (left_id_L ∅ (∪))|done|].
    intros k. rewrite lookup_empty. naive_solver.
  - intros i x m [st' rm'] Hi (E & Hn & Hk). simpl in *. split_and!.
    + rewrite E. by rewrite insert_union_l.
    + by apply removeString_NoDup.
    + intros k. rewrite removeString_elem, Hk by done. rewrite lookup_insert.
      case_decide; naive_solver.
Qed.

Lemma merge_remove_fold (st : snapshot) (rm ks : list gostr) :
  let out := foldl merge_remove (st, rm) ks in
  (forall k, out.1 !! k = if decide (k ∈ ks) then None else st !! k) /\
  forall k, k ∈ out.2 <-> k ∈ rm \/ k ∈ ks.
Proof.
  revert st rm. induction ks as [|x ks IH]; intros st rm; simpl.
  { split; [done|]. set_solver. }
  destruct (IH (merge_remove (st, rm) x).1 (merge_remove (st, rm) x).2) as [H1 H2].
  simpl in H1, H2. unfold merge_remove at 1 3. simpl. split.
  - intros k. rewrite H1, decide_cons, lookup_delete. repeat case_decide; congruence.
  - intros k. rewrite H2, elem_of_cons. unfold containsString.
    case_bool_decide; [|rewrite elem_of_app, list_elem_of_singleton]; naive_solver.
Qed.

Lemma Merge_lookup p q k :
  NoDup (pRemove p) ->
  pSet (Merge p q) !! k =
    (if decide (k ∈ pRemove q) then None
     else match pSet q !! k with Some v => Some v | None => pSet p !! k end) /\
  (k ∈ pRemove (Merge p q) <->
    k ∈ pRemove q \/ (k ∈ pRemove p /\ pSet q !! k = None)).
Proof.
  intros Hnd. unfold Merge. simpl.
  destruct (merge_set_fold (pSet p) (pRemove p) (pSet q) Hnd) as (E & _ & Hk).
  destruct (map_fold merge_set (pSet p, pRemove p) (pSet q)) as [st rm]. simpl in *.
  destruct (merge_remove_fold st rm (pRemove q)) as [H1 H2]. split.
  - rewrite H1, E, lookup_union. case_decide; [done|].
    by destruct (pSet q !! k), (pSet p !! k).
  - rewrite elem_of_sort_strings, H2, Hk. naive_solver.
Qed.

(** A patch that changes nothing, seen through Apply. *)
Lemma Apply_IsEmpty s p : IsEmpty p = true -> Snapshot.Apply s p = s.
Proof.
  unfold IsEmpty. intros H. bool_hyps. apply map_size_empty_inv in H.
  apply nil_length_inv in H0. unfold Snapshot.Apply. rewrite H, H0. simpl.
  apply (left_id_L ∅ (∪)).
Qed.

Lemma additivePatch_Apply ctx snap :
  Snapshot.Apply snap (additivePatch ctx snap) = ctx ∪ snap.
Proof.
  apply map_eq. intros k. rewrite Apply_lookup. cbn [pSet pRemove additivePatch].
  rewrite decide_False by apply not_elem_of_nil.
  rewrite map_lookup_filter, lookup_union.
  destruct (ctx !! k) as [v|] eqn:E; simpl; [|by destruct (snap !! k)].
  case_guard as Hg; simpl; [by destruct (snap !! k)|by rewrite Hg].
Qed.

Lemma Merge_Apply s p q :
  NoDup (pRemove p) ->
  Snapshot.Apply s (Merge p q) = Snapshot.Apply (Snapshot.Apply s p) q.
Proof.
  intros Hnd. apply map_eq. intros k. rewrite !Apply_lookup.
  destruct (Merge_lookup p q k Hnd) as [H1 H2]. rewrite H1.
  destruct (decide (k ∈ pRemove (Merge p q))) as [H|H]; rewrite H2 in H;
    destruct (decide (k ∈ pRemove q)) as [Hq|Hq]; try tauto.
  - destruct H as [?|[Hp Hn]]; [done|]. by rewrite Hn, decide_True.
  - destruct (pSet q !! k) as [v|] eqn:E; [done|]. rewrite decide_False; tauto.
Qed.

Lemma withoutSystemNS_lookup s k :
  withoutSystemNS s !! k = if has_prefix k #"system." then None else s !! k.
Proof.
  unfold withoutSystemNS. rewrite map_lookup_filter.
  destruct (s !! k) as [v|]; [|by destruct (has_prefix k _)].
  cbn [mbind option_bind fst snd]. destruct (has_prefix k _); by case_guard.
Qed.

(** What combineChalkboardInput does to the board. *)
Definition context_of (input : option ChalkboardInput) : snapshot :=
  match input with
  | Some {| iContext := Some ctx |} => withoutSystemNS ctx
  | _ => ∅
  end.
Definition patch_of (input : option ChalkboardInput) : Patch :=
  match input with
  | Some {| iPatch := Some p |} => p
  | _ => empty_patch
  end.

Lemma empty_patch_IsEmpty : IsEmpty empty_patch = true.
Proof. reflexivity. Qed.

Lemma combine_Apply snap input :
  Snapshot.Apply snap (combineChalkboardInput snap input) =
  Snapshot.Apply (context_of input ∪ snap) (patch_of input).
Proof.
  destruct input as [[ctx pat]|]; simpl.
  2:{ by rewrite !Apply_IsEmpty, (left_id_L ∅ (∪)). }
  set (cp := match ctx with Some c => additivePatch (withoutSystemNS c) snap
             | None => empty_patch end).
  set (dp := default empty_patch pat).
  assert (Hc : Snapshot.Apply snap cp = context_of (Some (mkInput ctx pat)) ∪ snap).
  { unfold cp. destruct ctx as [c|]; simpl; [apply additivePatch_Apply|].
    by rewrite Apply_IsEmpty, (left_id_L ∅ (∪)). }
  assert (Hd : patch_of (Some (mkInput ctx pat)) = dp) by (by destruct pat, ctx).
  change (match ctx with Some c => withoutSystemNS c | None => ∅ end)
    with (context_of (Some (mkInput ctx pat))).
  simpl in Hd. rewrite <- Hc. fold cp dp.
  replace (match pat with Some p => p | None => empty_patch end) with dp by (by destruct pat).
  destruct (IsEmpty cp) eqn:Ec, (IsEmpty dp) eqn:Ed; simpl.
  - by rewrite !(Apply_IsEmpty _ _ Ec), !(Apply_IsEmpty _ _ Ed), Apply_IsEmpty.
  - by rewrite (Apply_IsEmpty _ _ Ec).
  - by rewrite (Apply_IsEmpty _ _ Ed).
  - apply Merge_Apply. unfold cp. destruct ctx; constructor.
Qed.

(** ** Properties *)

(** Applying s.Diff(prev) to prev gives s; the patch is empty exactly when
    the snapshots are equal; it sets only keys that differ and removes only
    keys that are gone, so it is minimal. *)
Theorem chalkboard_diff_apply (s prev : snapshot) :
  let p := Snapshot.Diff s prev in
  Snapshot.Apply prev p = s /\
  (IsEmpty p = true <-> s = prev) /\
  (forall k v, pSet p !! k = Some v <-> s !! k = Some v /\ prev !! k <> Some v) /\
  (forall k, k ∈ pRemove p <-> is_Some (prev !! k) /\ s !! k = None).
Proof.
  intros p.
  assert (Happ : Snapshot.Apply prev p = s).
  { apply map_eq. intros k. rewrite Apply_lookup.
    unfold p. rewrite Diff_set_lookup.
    destruct (decide (k ∈ _)) as [H|H]; rewrite Diff_remove_elem in H; [by destruct H|].
    destruct (s !! k) as [v|]; [by case_decide|].
    destruct (prev !! k); [|done]. exfalso. apply H. by eauto. }
  split_and!; [done| | |].
  - split.
    + intros He. rewrite <- Happ. by apply Apply_IsEmpty.
    + intros ->. unfold IsEmpty, p. apply andb_true_iff. split; apply bool_decide_eq_true.
      * apply map_size_empty_iff, map_eq. intros k. rewrite Diff_set_lookup, lookup_empty.
        destruct (prev !! k); [by case_decide|done].
      * simpl. rewrite difference_diag_L, elements_empty. done.
  - intros k v. unfold p. rewrite Diff_set_lookup.
    destruct (s !! k) as [w|]; [|naive_solver]. case_decide; naive_solver.
  - apply Diff_remove_elem.
Qed.

(** Merging two patches and applying the result is applying one after the
    other (q wins), provided p lists no key twice among its removals. *)
Theorem chalkboard_merge_apply (s : snapshot) (p q : Patch) (Hnd : NoDup (pRemove p)) :
  Snapshot.Apply s (Merge p q) = Snapshot.Apply (Snapshot.Apply s p) q.
Proof. by apply Merge_Apply. Qed.

Lemma chalkboard_merge_apply_witness :
  Snapshot.Apply {[ #"a" := #"1"; #"c" := #"3"]}
    (Merge (mkPatch {[ #"b" := #"2"]} [ #"a"]) (mkPatch {[ #"a" := #"9"]} [ #"c"; #"c"])) =
  Snapshot.Apply (Snapshot.Apply {[ #"a" := #"1"; #"c" := #"3"]}
    (mkPatch {[ #"b" := #"2"]} [ #"a"])) (mkPatch {[ #"a" := #"9"]} [ #"c"; #"c"]).
Proof.
  apply (chalkboard_merge_apply {[ #"a" := #"1"; #"c" := #"3"]}
    (mkPatch {[ #"b" := #"2"]} [ #"a"]) (mkPatch {[ #"a" := #"9"]} [ #"c"; #"c"])).
  apply NoDup_singleton.
Defined.

(** The same law fails once p repeats a removal: removeString drops only the
    first occurrence, so a key that q sets again is still removed. *)
Theorem chalkboard_merge_duplicate_remove :
  let p := mkPatch ∅ [ #"k"; #"k"] in
  let q := mkPatch {[ #"k" := #"1"]} [] in
  Snapshot.Apply (Snapshot.Apply ∅ p) q !! #"k" = Some #"1" /\
  Snapshot.Apply ∅ (Merge p q) !! #"k" = None.
Proof. vm_compute. done. Qed.

(** The board after a prompt is the old board overlaid with the client's
    Context (without its system. keys), then with the client's explicit Patch.  Hence
    Context never removes a key and never touches the system namespace. *)
Theorem chalkboard_context_additive (snap : snapshot) (input : option ChalkboardInput) :
  let next := Snapshot.Apply snap (combineChalkboardInput snap input) in
  next = Snapshot.Apply (context_of input ∪ snap) (patch_of input) /\
  (forall k, k ∉ pRemove (patch_of input) -> is_Some (snap !! k) -> is_Some (next !! k)) /\
  (forall k, has_prefix k #"system." = true -> k ∉ pRemove (patch_of input) ->
     pSet (patch_of input) !! k = None -> next !! k = snap !! k).
Proof.
  intros next. assert (E : next = _) by apply combine_Apply. split_and!; [done|..].
  - intros k Hk Hs. rewrite E, Apply_lookup, decide_False by done.
    destruct (pSet (patch_of input) !! k); [done|]. rewrite lookup_union.
    destruct Hs as [v ->]. destruct (context_of input !! k); by eexists.
  - intros k Hsys Hk Hnone. rewrite E, Apply_lookup, decide_False, Hnone by done.
    rewrite lookup_union. replace (context_of input !! k) with (@None gostr).
    { by destruct (snap !! k). }
    unfold context_of. destruct input as [[[c|] ?]|]; [|done|done].
    by rewrite withoutSystemNS_lookup, Hsys.
Qed.

Lemma chalkboard_context_additive_witness :
  is_Some (Snapshot.Apply {[ #"cwd" := #"1"; #"system.model" := #"m"]}
    (combineChalkboardInput {[ #"cwd" := #"1"; #"system.model" := #"m"]}
       (Some (mkInput (Some {[ #"system.model" := #"evil"]}) None))) !! #"cwd") /\
  Snapshot.Apply {[ #"cwd" := #"1"; #"system.model" := #"m"]}
    (combineChalkboardInput {[ #"cwd" := #"1"; #"system.model" := #"m"]}
       (Some (mkInput (Some {[ #"system.model" := #"evil"]}) None))) !! #"system.model"
  = Some #"m".
Proof.
  destruct (chalkboard_context_additive {[ #"cwd" := #"1"; #"system.model" := #"m"]}
    (Some (mkInput (Some {[ #"system.model" := #"evil"]}) None))) as (_ & H1 & H2).
  split.
  - apply H1; [apply not_elem_of_nil|by eexists].
  - apply (H2 #"system.model"); [reflexivity|apply not_elem_of_nil|reflexivity].
Defined.

(** PatchEntries lists the touched keys in sorted order, each with its prior
    and new value; a key that is only removed has no new value.  Removals of
    keys the patch also sets are not listed. *)
Theorem chalkboard_patch_entries (p : Patch) (prev : snapshot) :
  let es := PatchEntries p prev in
  StronglySorted str_le (map eKey es) /\
  (forall k, k ∈ map eKey es <-> is_Some (pSet p !! k) \/ k ∈ pRemove p) /\
  (forall e, e ∈ es -> eOld e = prev !! eKey e /\ eNew e = pSet p !! eKey e).
Proof.
  intros es. unfold es, PatchEntries.
  assert (Hkeys : map eKey (map (fun k => mkEntry k (prev !! k) (pSet p !! k))
                              (sort_strings (patch_keys p))) = sort_strings (patch_keys p)).
  { rewrite map_map. simpl. apply map_id. }
  rewrite Hkeys. split_and!.
  - apply sort_strings_sorted.
  - intros k. rewrite elem_of_sort_strings. unfold patch_keys.
    assert (Hloop : forall ks acc, k ∈ foldl (fun keys k => match pSet p !! k with
        Some _ => keys | None => keys ++ [k] end) acc ks <->
        k ∈ acc \/ (k ∈ ks /\ pSet p !! k = None)).
    { clear. induction ks as [|x ks IH]; intros acc; simpl; [set_solver|].
      rewrite IH, elem_of_cons. destruct (pSet p !! x) as [v|] eqn:E.
      - naive_solver congruence.
      - rewrite elem_of_app, list_elem_of_singleton. naive_solver. }
    rewrite Hloop, list_elem_of_In, in_map_iff. setoid_rewrite <- list_elem_of_In.
    split.
    + intros [([x v] & <- & Hx)|[? ?]]; [left|by right].
      apply elem_of_map_to_list in Hx. simpl. by eauto.
    + destruct (pSet p !! k) as [v|] eqn:E; [|naive_solver].
      intros _. left. exists (k, v). by rewrite elem_of_map_to_list.
  - intros e He. apply list_elem_of_In, in_map_iff in He as (k & <- & _). done.
Qed.
