(* ===== verification/Reminder.v ===== *)
(** * chalkboard: reading values and rendering patches as reminders
    (src/internal/chalkboard/chalkboard.go, render.go)

    A template is a partial function of a patch entry (an execution error is
    [None]); the templates shipped with figaro are written out, the user's own
    are a parameter. *)

From S2P Require Import Prelude Utf8 GoStrings Json GoJson Message Chalkboard.

(** func (s Snapshot) Lookup *)
Definition Lookup (s : snapshot) (key : gostr) : option gostr :=
  match s !! key with
  | Some raw => let '(v, ok) := Unmarshal dec_string raw [] in if ok then Some v else None
  | None => None
  end.

(** func decodeStringOrRaw *)
Definition decodeStringOrRaw (raw : option gostr) : gostr :=
  match raw with
  | None | Some [] => []
  | Some raw => let '(s, ok) := Unmarshal dec_string raw [] in if ok then s else raw
  end.

Definition NewString (e : Entry) : gostr := decodeStringOrRaw (eNew e).
Definition OldString (e : Entry) : gostr := decodeStringOrRaw (eOld e).

(** func genericBody *)
Definition genericBody (e : Entry) : gostr :=
  if IsRemoval e then [] else
  let s := NewString e in
  if negb (bool_decide (s = [])) then s else default [] (eNew e).

(** type RenderedEntry *)
Record RenderedEntry := mkRendered { rKey : gostr; rBody : gostr }.

#[export] Instance RenderedEntry_eq_dec : EqDecision RenderedEntry.
Proof. solve_decision. Defined.

(** *template.Template: Lookup, then Execute ([None]: error). *)
Abbreviation templates := (gostr -> option (Entry -> option gostr)).

(** One iteration of Render's loop; [None] is its error. *)
Definition render_entry (tmpls : templates) (out : list RenderedEntry) (e : Entry)
  : option (list RenderedEntry) :=
  if has_prefix (eKey e) #"system." then Some out else
  match tmpls (eKey e) with
  | None =>
      let body := genericBody e in
      if bool_decide (body = []) then Some out else Some (out ++ [mkRendered (eKey e) body])
  | Some t =>
      match t e with
      | None => None
      | Some buf =>
          let body := TrimSpace buf in
          if bool_decide (body = []) then Some out else Some (out ++ [mkRendered (eKey e) body])
      end
  end.

Fixpoint render_entries (tmpls : templates) (out : list RenderedEntry) (es : list Entry)
  : option (list RenderedEntry) :=
  match es with
  | [] => Some out
  | e :: es' =>
      match render_entry tmpls out e with
      | Some out' => render_entries tmpls out' es'
      | None => None
      end
  end.

(** func Render *)
Definition Render (p : Patch) (prev : snapshot) (tmpls : templates) : option (list RenderedEntry) :=
  if IsEmpty p then Some [] else render_entries tmpls [] (PatchEntries p prev).

(** The templates of templates/: a removal renders nothing. *)
Definition unless_removed (e : Entry) (body : gostr) : option gostr :=
  Some (if IsRemoval e then [] else body).

Definition default_templates : templates := fun key =>
  if bool_decide (key = #"cwd") then
    Some (fun e => unless_removed e (#"Working directory: " ++ NewString e))
  else if bool_decide (key = #"datetime") then
    Some (fun e => unless_removed e (#"Current time: " ++ NewString e))
  else if bool_decide (key = #"model") then
    Some (fun e => unless_removed e
      (if bool_decide (OldString e = []) then #"Model: " ++ NewString e
       else #"Model changed from " ++ OldString e ++ #" to " ++ NewString e ++ #"."))
  else if bool_decide (key = #"root") then
    Some (fun e => unless_removed e (#"Project root: " ++ NewString e))
  else if bool_decide (key = #"token_budget") then
    Some (fun e => unless_removed e
      (#"Conversation context is now using " ++ NewString e ++ #" of the model's input window."))
  else if bool_decide (key = #"truncation") then
    Some (fun e => unless_removed e (#"The previous tool output was truncated. " ++ NewString e))
  else None.

(** ** Lemmas *)

(** What one entry contributes. *)
Definition body_of (tmpls : templates) (e : Entry) : option (list RenderedEntry) :=
  render_entry tmpls [] e.

Lemma render_entry_app tmpls out e :
  render_entry tmpls out e = (fun b => out ++ b) <$> body_of tmpls e.
Proof.
  unfold body_of, render_entry. case_if; [simpl; by rewrite app_nil_r|].
  destruct (tmpls (eKey e)) as [t|].
  - destruct (t e); [|done]. case_if; simpl; by rewrite ?app_nil_r.
  - case_if; simpl; by rewrite ?app_nil_r.
Qed.

Lemma render_entries_spec tmpls out es :
  render_entries tmpls out es =
  (fun bs => out ++ concat bs) <$> mapM (body_of tmpls) es.
Proof.
  revert out. induction es as [|e es IH]; intros out; simpl; [by rewrite app_nil_r|].
  rewrite render_entry_app. destruct (body_of tmpls e) as [b|]; [|done]. simpl. rewrite IH.
  destruct (mapM (body_of tmpls) es); simpl; [by rewrite app_assoc|done].
Qed.

(** An entry contributes at most one reminder, under its own key, never a
    harness key, never an empty body. *)
Lemma body_of_spec tmpls e b :
  body_of tmpls e = Some b ->
  b = [] \/ exists body, b = [mkRendered (eKey e) body] /\ body <> [] /\
                         has_prefix (eKey e) #"system." = false.
Proof.
  unfold body_of, render_entry. case_if; [intros; simplify_eq; by left|].
  destruct (tmpls (eKey e)) as [t|]; [destruct (t e) as [buf|]; [|done]|];
    case_if; intros; simplify_eq; eauto 6.
Qed.

Lemma reminders_from tmpls es bs :
  mapM (body_of tmpls) es = Some bs ->
  map rKey (concat bs) `sublist_of` map eKey es /\
  Forall (fun r => has_prefix (rKey r) #"system." = false /\ rBody r <> []) (concat bs).
Proof.
  revert bs. induction es as [|e es IH]; intros bs H; simpl in H; [injection H as <-; by split|].
  destruct (body_of tmpls e) as [b|] eqn:Eb; [|done].
  destruct (mapM (body_of tmpls) es) as [bs'|]; [|done]. injection H as <-. cbn [map concat].
  destruct (IH _ eq_refl) as [H1 H2]. rewrite map_app, Forall_app.
  destruct (body_of_spec _ _ _ Eb) as [-> |(body & -> & Hne & Hp)]; simpl.
  - split; [by constructor|]. split; [constructor|done].
  - split; [by constructor|]. split; [by repeat constructor|done].
Qed.

Lemma mapM_elem {A B} (f : A -> option B) l k x :
  mapM f l = Some k -> x ∈ l -> exists y, f x = Some y /\ y ∈ k.
Proof.
  rewrite mapM_Some. intros H Hx. apply list_elem_of_lookup in Hx as [i Hi].
  destruct (Forall2_lookup_l _ _ _ _ _ H Hi) as (y & Hy & Hf).
  exists y. split; [done|]. by eapply list_elem_of_lookup_2.
Qed.

Lemma mapM_total {A B} (f : A -> option B) l :
  (forall x, x ∈ l -> f x <> None) -> exists k, mapM f l = Some k.
Proof.
  intros H. destruct (mapM f l) eqn:E; [by eauto|].
  apply mapM_None_1, Exists_exists in E as (x & Hx & Hn). by destruct (H x Hx).
Qed.

Lemma default_templates_run e : body_of default_templates e <> None.
Proof.
  unfold body_of, render_entry. case_if; [done|].
  unfold default_templates, unless_removed.
  repeat match goal with
  | |- context [if bool_decide (eKey e = ?x) then _ else _] => destruct (bool_decide (eKey e = x))
  end; by case_if.
Qed.

Lemma sorted_sublist (l k : list gostr) :
  l `sublist_of` k -> StronglySorted str_le k -> StronglySorted str_le l.
Proof.
  induction 1 as [|x l k Hs IH|x l k Hs IH]; intros Hk; [constructor| |].
  - inversion Hk; subst. constructor; [auto|].
    apply Forall_forall. intros y Hy.
    match goal with K : Forall _ k |- _ => rewrite Forall_forall in K; apply K end.
    by eapply elem_of_sublist.
  - inversion Hk; subst. auto.
Qed.

Lemma PatchEntries_keys p prev : map eKey (PatchEntries p prev) = sort_strings (patch_keys p).
Proof. unfold PatchEntries. rewrite map_map. cbn [eKey]. apply map_id. Qed.

Lemma touched_key p k : is_Some (pSet p !! k) -> k ∈ patch_keys p.
Proof.
  intros [v Hv]. unfold patch_keys.
  assert (forall l acc, k ∈ acc -> k ∈ foldl (fun keys k => match pSet p !! k with
    | Some _ => keys | None => keys ++ [k] end) acc l) as Hkeep.
  { induction l as [|x l IH]; intros acc Ha; [done|]. simpl. apply IH.
    destruct (pSet p !! x); set_solver. }
  apply Hkeep, list_elem_of_fmap. exists (k, v). split; [done|].
  by apply elem_of_map_to_list.
Qed.

(** A patch rendered with the shipped templates always succeeds; the
    reminders come in key order, each for a key the patch touches, never for a
    harness key (system.) and never empty; and a key outside the harness's
    namespace and the templates that is set to a value appears with exactly
    that value: the JSON string's content or, for any other value, its JSON. *)
Theorem reminder_render (p : Patch) (prev : snapshot) :
  exists out, Render p prev default_templates = Some out /\
    StronglySorted str_le (map rKey out) /\
    (forall r, r ∈ out -> rKey r ∈ patch_keys p /\
       has_prefix (rKey r) #"system." = false /\ rBody r <> []) /\
    (forall k raw, pSet p !! k = Some raw -> raw <> [] ->
       has_prefix k #"system." = false -> default_templates k = None ->
       mkRendered k (let s := decodeStringOrRaw (Some raw) in
                     if bool_decide (s = []) then raw else s) ∈ out).
Proof.
  destruct (mapM_total (body_of default_templates) (PatchEntries p prev)) as [bs Hbs].
  { intros e _. apply default_templates_run. }
  unfold Render. destruct (IsEmpty p) eqn:Ee.
  - exists []. split_and!; [done|constructor|set_solver|].
    intros k raw Hk. exfalso. unfold IsEmpty in Ee. bool_hyps.
    match goal with K : size _ = _ |- _ => apply map_size_empty_inv in K; rewrite K in Hk end.
    by rewrite lookup_empty in Hk.
  - rewrite render_entries_spec, Hbs. exists (concat bs).
    destruct (reminders_from _ _ _ Hbs) as [Hsub Hall].
    rewrite PatchEntries_keys in Hsub. split_and!; [done| | |].
    + eapply sorted_sublist; [done|]. apply sort_strings_sorted.
    + intros r Hr. rewrite Forall_forall in Hall. split; [|by apply Hall].
      rewrite <- elem_of_sort_strings. eapply elem_of_sublist; [|done].
      by apply list_elem_of_fmap_2.
    + intros k raw Hk Hraw Hsys Ht.
      assert (He : mkEntry k (prev !! k) (Some raw) ∈ PatchEntries p prev).
      { unfold PatchEntries. apply list_elem_of_fmap. exists k. rewrite Hk. split; [done|].
        rewrite elem_of_sort_strings. apply touched_key. by rewrite Hk. }
      destruct (mapM_elem _ _ _ _ Hbs He) as (b & Hb & Hin).
      unfold body_of, render_entry in Hb. cbn [eKey] in Hb. rewrite Hsys, Ht in Hb.
      unfold genericBody, NewString in Hb. cbn [eNew IsRemoval eKey] in Hb.
      change (default [] (Some raw)) with raw in Hb.
      apply list_elem_of_In, in_concat. exists b. rewrite <- !list_elem_of_In. split; [done|].
      cbn zeta. destruct (bool_decide (decodeStringOrRaw (Some raw) = [])) eqn:Ed;
        cbn [negb] in Hb; rewrite ?Ed, ?(bool_decide_eq_false_2 _ Hraw) in Hb;
        injection Hb as <-; by apply list_elem_of_singleton.
Qed.

Definition ex_patch : Patch :=
  mkPatch (list_to_map [(#"system.model", js "'m'"); (#"cwd", js "'/tmp'"); (#"plan", js "[1]")])
    [lit "datetime"].

Example reminder_example :
  Render ex_patch ∅ default_templates =
  Some [mkRendered #"cwd" #"Working directory: /tmp"; mkRendered #"plan" #"[1]"].
Proof. vm_compute. reflexivity. Qed.
