(* ===== verification/Store.v ===== *)
(** * store: append-only logs (src/internal/store/log.go, mem_log.go,
    cached_log.go) and the paged read served over them (ariaRead of
    src/internal/angelus/protocol.go).

    [LogOps]/[LogLaws] is the Log[T] interface with its contract; [MemLog] and
    [cachedLog] implement it.  A slice-bounds or makeslice panic is [None]. *)

From S2P Require Import Prelude.

(** type Entry[T]; LT and FigaroLT are uint64. *)
Record Entry (T : Type) := mkEntry {
  LT : Z; FigaroLT : Z; Payload : T; Fingerprint : gostr }.
Arguments mkEntry {T}.
Arguments LT {T}.
Arguments FigaroLT {T}.
Arguments Payload {T}.
Arguments Fingerprint {T}.

(** rows[i].FigaroLT for an index in range. *)
Definition figaro_lt_at {T} (rows : list (Entry T)) (i : nat) : Z :=
  match rows !! i with Some e => FigaroLT e | None => 0 end.

(** The tail shared by readPage and ReadFrom: out := make(_, end-start);
    copy(out, rows[start:end]). *)
Definition copy_window {T} (rows : list (Entry T)) (start : nat) (n : Z)
  : option (list (Entry T)) :=
  let stop := wrap64 (Z.of_nat start + n) in
  let end0 := if (0 <? n) && (stop <? glen rows) then stop else glen rows in
  slice rows (Z.of_nat start) end0.

(** The backward scan of readPage: newest first, until n rows are found. *)
Fixpoint scan_before {T} (rev_rows : list (Entry T)) (before : Z) (n : nat) : list (Entry T) :=
  match rev_rows with
  | [] => []
  | e :: rest =>
      match n with
      | O => []
      | S n' => if FigaroLT e <? before then e :: scan_before rest before n'
                else scan_before rest before n
      end
  end.

(** func readPage *)
Definition readPage {T} (rows : list (Entry T)) (from before n : Z)
  : option (list (Entry T) * nat) :=
  let total := length rows in
  if 0 <? before then
    if n <=? 0 then Some ([], total)
    else Some (rev (scan_before (rev rows) before (Z.to_nat n)), total)
  else
    let start := if 0 <? from
      then search (length rows) (fun i => from <=? figaro_lt_at rows i)
      else 0%nat in
    out ← copy_window rows start n; Some (out, total).

(** ReadFrom, as both MemLog and cachedLog write it. *)
Definition readFrom {T} (rows : list (Entry T)) (figaroLT n : Z) : option (list (Entry T)) :=
  copy_window rows (search (length rows) (fun i => figaroLT <=? figaro_lt_at rows i)) n.

(** TailSnapshot, as both MemLog and cachedLog write it. *)
Definition tailSnapshot {T} (rows : list (Entry T)) (n : Z) : list (Entry T) :=
  if (n <=? 0) || (length rows =? 0)%nat then [] else
  let n := if glen rows <? n then glen rows else n in
  drop (length rows - Z.to_nat n) rows.

(** PeekTail, as both write it. *)
Definition peekTail {T} (rows : list (Entry T)) : option (Entry T) :=
  if (length rows =? 0)%nat then None else rows !! (length rows - 1)%nat.

(** Lookup through an index of rows by FigaroLT; the index is used unchecked. *)
Definition lookupIndexed {T} (rows : list (Entry T)) (ix : gmap Z nat) (k : Z)
  : option (Entry T) :=
  match ix !! k with Some i => rows !! i | None => None end.

(** ** The Log[T] interface *)

Class LogOps (L T : Type) := {
  Read : L -> list (Entry T);
  Len : L -> nat;
  ReadFrom : L -> Z -> Z -> option (list (Entry T));
  ReadPage : L -> Z -> Z -> Z -> option (list (Entry T) * nat);
  Lookup : L -> Z -> option (Entry T);
  PeekTail : L -> option (Entry T);
  Append : L -> Entry T -> L * option (Entry T);      (* None: error *)
  Clear : L -> L * bool }.                            (* false: error *)

(** The newest entry of [rows] with a given FigaroLT. *)
Definition newest {T} (rows : list (Entry T)) (k : Z) : option (Entry T) :=
  List.find (fun e => FigaroLT e =? k) (rev rows).

(** What the interface promises to its clients.  (An explicit FigaroLT is kept;
    the log of messages is only ever given 0, see [LogStamps].) *)
Class LogLaws (L T : Type) `{LogOps L T} := {
  log_wf : L -> Prop;
  law_Len : forall l, log_wf l -> Len l = length (Read l);
  law_PeekTail : forall l, log_wf l -> PeekTail l = last (Read l);
  law_Lookup : forall l k, log_wf l -> Lookup l k = newest (Read l) k;
  law_ReadFrom : forall l k n, log_wf l -> ReadFrom l k n = readFrom (Read l) k n;
  law_ReadPage : forall l f b n, log_wf l -> ReadPage l f b n = readPage (Read l) f b n;
  law_Append_ok : forall l e l' e', log_wf l -> Append l e = (l', Some e') ->
    log_wf l' /\ Read l' = Read l ++ [e'] /\
    Payload e' = Payload e /\ Fingerprint e' = Fingerprint e /\
    (FigaroLT e <> 0 -> FigaroLT e' = FigaroLT e);
  law_Append_err : forall l e l', log_wf l -> Append l e = (l', None) ->
    log_wf l' /\ Read l' = Read l;
  law_Clear_ok : forall l l', log_wf l -> Clear l = (l', true) -> log_wf l' /\ Read l' = [];
  law_Clear_err : forall l l', log_wf l -> Clear l = (l', false) ->
    log_wf l' /\ Read l' = Read l }.

(** The LT the next entry gets. *)
Definition next_lt {T} (rows : list (Entry T)) : Z :=
  match last rows with Some e => wrapu64 (LT e + 1) | None => 1 end.

(** A log whose entries are stamped in sequence; an entry without a FigaroLT
    gets its LT as one (the log of messages, never given a FigaroLT). *)
Class LogStamps (L T : Type) `{LogLaws L T} :=
  law_Append_LT : forall l e l' e', log_wf l -> Append l e = (l', Some e') -> FigaroLT e = 0 ->
    LT e' = next_lt (Read l) /\ FigaroLT e' = LT e'.

(** ** MemLog *)

Record MemLog (T : Type) := mkMemLog {
  entries : list (Entry T); byFigaroLT : gmap Z nat; nextLT : Z }.
Arguments mkMemLog {T}.
Arguments entries {T}.
Arguments byFigaroLT {T}.
Arguments nextLT {T}.

Definition NewMemLog {T} : MemLog T := mkMemLog [] ∅ 1.

(** func (s *MemLog) appendLocked *)
Definition MemLog_Append {T} (s : MemLog T) (e : Entry T) : MemLog T * Entry T :=
  let lt := nextLT s in
  let flt := if FigaroLT e =? 0 then lt else FigaroLT e in
  let e' := mkEntry lt flt (Payload e) (Fingerprint e) in
  let idx := length (entries s) in
  (mkMemLog (entries s ++ [e']) (<[flt := idx]> (byFigaroLT s)) (wrapu64 (nextLT s + 1)), e').

(** func (s *MemLog) Clear *)
Definition MemLog_Clear {T} (s : MemLog T) : MemLog T := mkMemLog [] ∅ 1.

#[export] Instance MemLog_ops {T} : LogOps (MemLog T) T := {
  Read s := entries s;
  Len s := length (entries s);
  ReadFrom s k n := readFrom (entries s) k n;
  ReadPage s f b n := readPage (entries s) f b n;
  Lookup s k := lookupIndexed (entries s) (byFigaroLT s) k;
  PeekTail s := peekTail (entries s);
  Append s e := let '(s', e') := MemLog_Append s e in (s', Some e');
  Clear s := (MemLog_Clear s, true) }.

(** ** cachedLog: a memoized view over any Log *)

Record cachedLog (L T : Type) := mkCached {
  inner : L; rows : list (Entry T); byFK : gmap Z nat }.
Arguments mkCached {L T}.
Arguments inner {L T}.
Arguments rows {L T}.
Arguments byFK {L T}.

(** One iteration of newCachedLog's fill, and Append's bookkeeping. *)
Definition cache_row {T} (st : list (Entry T) * gmap Z nat) (e : Entry T)
  : list (Entry T) * gmap Z nat :=
  (st.1 ++ [e], <[FigaroLT e := length st.1]> st.2).

(** func newCachedLog *)
Definition newCachedLog {L T} `{LogOps L T} (l : L) : cachedLog L T :=
  let st := foldl cache_row ([], ∅) (Read l) in mkCached l st.1 st.2.

(** func (c *cachedLog) Append *)
Definition cachedLog_Append {L T} `{LogOps L T} (c : cachedLog L T) (e : Entry T)
  : cachedLog L T * option (Entry T) :=
  let '(l', r) := Append (inner c) e in
  match r with
  | None => (mkCached l' (rows c) (byFK c), None)
  | Some stamped =>
      let st := cache_row (rows c, byFK c) stamped in
      (mkCached l' st.1 st.2, Some stamped)
  end.

(** func (c *cachedLog) Clear *)
Definition cachedLog_Clear {L T} `{LogOps L T} (c : cachedLog L T) : cachedLog L T * bool :=
  let '(l', ok) := Clear (inner c) in
  if ok then (mkCached l' [] ∅, true) else (mkCached l' (rows c) (byFK c), false).

#[export] Instance cachedLog_ops {L T} `{LogOps L T} : LogOps (cachedLog L T) T := {
  Read c := rows c;
  Len c := length (rows c);
  ReadFrom c k n := readFrom (rows c) k n;
  ReadPage c f b n := readPage (rows c) f b n;
  Lookup c k := lookupIndexed (rows c) (byFK c) k;
  PeekTail c := peekTail (rows c);
  Append := cachedLog_Append;
  Clear := cachedLog_Clear }.

(** ** aria.read: keyset pagination over a main log *)

Definition ariaReadHardCap : Z := 1000.

(** The page and NextFrom that ariaRead answers with. *)
Definition ariaRead {L T} `{LogOps L T} (log : L) (From Before Limit : Z)
  : option (list (Entry T) * Z) :=
  let limit := if (Limit <=? 0) || (ariaReadHardCap <? Limit) then ariaReadHardCap else Limit in
  if 0 <? Before then
    '(selected, _) ← ReadPage log 0 Before limit;
    Some (selected, match selected with e :: _ => LT e | [] => 0 end)
  else
    '(selected, _) ← ReadPage log From 0 (limit + 1);
    let page := if limit <? glen selected then take (Z.to_nat limit) selected else selected in
    let nextFrom := if limit <? glen selected
      then match selected !! Z.to_nat limit with Some e => LT e | None => 0 end else 0 in
    Some (page, nextFrom).

(** A client that follows NextFrom until it is 0. *)
Fixpoint ariaReadAll {L T} `{LogOps L T} (fuel : nat) (log : L) (From Limit : Z)
  : option (list (Entry T)) :=
  match fuel with
  | O => None
  | S fuel' =>
      '(page, next) ← ariaRead log From 0 Limit;
      if next =? 0 then Some page
      else rest ← ariaReadAll fuel' log next Limit; Some (page ++ rest)
  end.

(** ** Lemmas: search and windows *)

(** Non-decreasing, and strictly increasing, FigaroLT. *)
Definition ascending {T} (rows : list (Entry T)) : Prop :=
  forall i j a b, rows !! i = Some a -> rows !! j = Some b -> (i <= j)%nat ->
  FigaroLT a <= FigaroLT b.
Definition strictly_ascending {T} (rows : list (Entry T)) : Prop :=
  forall i j a b, rows !! i = Some a -> rows !! j = Some b -> (i < j)%nat ->
  FigaroLT a < FigaroLT b.

Lemma strictly_ascending_weak {T} (rows : list (Entry T)) :
  strictly_ascending rows -> ascending rows.
Proof.
  intros H i j a b Ha Hb Hij. destruct (decide (i = j)) as [->|].
  - simplify_eq. lia.
  - specialize (H i j a b Ha Hb). lia.
Qed.

Lemma strictly_ascending_cons {T} (e : Entry T) rows :
  Forall (fun x => FigaroLT e < FigaroLT x) rows -> strictly_ascending rows ->
  strictly_ascending (e :: rows).
Proof.
  intros Hf Hs [|i] [|j] a b Ha Hb Hij; simpl in *; try lia.
  - simplify_eq. rewrite Forall_lookup in Hf. eauto.
  - apply (Hs i j); [done|done|lia].
Qed.

Lemma figaro_lt_at_lookup {T} (rows : list (Entry T)) i e :
  rows !! i = Some e -> figaro_lt_at rows i = FigaroLT e.
Proof. intros H. unfold figaro_lt_at. by rewrite H. Qed.

Definition search_from {T} (rows : list (Entry T)) (k : Z) : nat :=
  search (length rows) (fun i => k <=? figaro_lt_at rows i).

Lemma search_from_spec {T} (rows : list (Entry T)) k :
  ascending rows ->
  (search_from rows k <= length rows)%nat /\
  Forall (fun e => FigaroLT e < k) (take (search_from rows k) rows) /\
  Forall (fun e => k <= FigaroLT e) (drop (search_from rows k) rows).
Proof.
  intros Hasc. unfold search_from.
  destruct (search_spec (length rows) (fun i => k <=? figaro_lt_at rows i)) as (H1 & H2 & H3).
  { intros i j Hij Hi. bool_hyps. apply Z.leb_le.
    destruct (lookup_lt_is_Some_2 rows i) as [a Ha]; [lia|].
    destruct (lookup_lt_is_Some_2 rows j) as [b Hb]; [lia|].
    rewrite (figaro_lt_at_lookup _ _ _ Ha) in Hi.
    rewrite (figaro_lt_at_lookup _ _ _ Hb).
    specialize (Hasc i j a b Ha Hb). lia. }
  split_and!; [done| |]; apply Forall_lookup; intros i e He.
  - apply lookup_take_Some in He as [He Hi]. specialize (H2 i Hi).
    rewrite (figaro_lt_at_lookup _ _ _ He) in H2. by bool_hyps.
  - rewrite lookup_drop in He.
    pose proof (lookup_lt_Some _ _ _ He).
    match type of He with rows !! ?j = _ => specialize (H3 j ltac:(lia)) end.
    rewrite (figaro_lt_at_lookup _ _ _ He) in H3. by bool_hyps.
Qed.

(** Cutting sorted rows at the binary-search point is filtering them. *)
Lemma search_from_filter {T} (rows : list (Entry T)) k :
  ascending rows ->
  drop (search_from rows k) rows = List.filter (fun e => k <=? FigaroLT e) rows /\
  take (search_from rows k) rows = List.filter (fun e => FigaroLT e <? k) rows.
Proof.
  intros Hasc. destruct (search_from_spec rows k Hasc) as (_ & H2 & H3).
  rewrite <- (take_drop (search_from rows k) rows) at 3 6.
  rewrite !List.filter_app.
  rewrite (filter_none _ (take _ _)), (filter_all _ (drop _ _)),
    (filter_all _ (take _ _)), (filter_none _ (drop _ _)), app_nil_r; [done|..];
    eapply Forall_impl; try done; intros e He; cbv beta in *.
  - apply Z.ltb_ge. lia.
  - apply Z.ltb_lt. lia.
  - apply Z.leb_le. lia.
  - apply Z.leb_gt. lia.
Qed.

Lemma copy_window_spec {T} (rows : list (Entry T)) start n :
  (start <= length rows)%nat -> glen rows + Z.max 0 n < 2 ^ 63 ->
  copy_window rows start n =
  Some (if n <=? 0 then drop start rows else take (Z.to_nat n) (drop start rows)).
Proof.
  intros Hs Hn. unfold copy_window. unfold glen in *.
  destruct (Z.leb_spec n 0) as [Hle|Hgt].
  - rewrite (proj2 (Z.ltb_ge 0 n)) by lia. simpl.
    change (Z.of_nat (length rows)) with (glen rows). by apply slice_suffix.
  - rewrite (proj2 (Z.ltb_lt 0 n)) by lia. simpl.
    rewrite wrap64_id by (unfold int64_ok; lia). case_if.
    + rewrite slice_some by (unfold glen; lia). rewrite Nat2Z.id. do 2 f_equal. lia.
    + change (Z.of_nat (length rows)) with (glen rows).
      rewrite slice_suffix by done. f_equal. symmetry. apply take_ge.
      rewrite length_drop. lia.
Qed.

Lemma scan_before_spec {T} (rr : list (Entry T)) before n :
  scan_before rr before n = take n (List.filter (fun e => FigaroLT e <? before) rr).
Proof.
  revert n. induction rr as [|e rr IH]; intros n; simpl; [by rewrite take_nil|].
  destruct n as [|n]; [by rewrite take_0|]. by destruct (FigaroLT e <? before); simpl; rewrite IH.
Qed.

Lemma filter_rev {A} (p : A -> bool) l : List.filter p (rev l) = rev (List.filter p l).
Proof.
  induction l as [|x l IH]; simpl; [done|].
  rewrite List.filter_app, IH. simpl. destruct (p x); simpl; [done|by rewrite app_nil_r].
Qed.

Lemma rev_take_rev {A} n (l : list A) : rev (take n (rev l)) = drop (length l - n) l.
Proof.
  rewrite <- (rev_involutive l) at 2 3. rewrite length_rev.
  set (k := rev l). rewrite <- (take_drop n k) at 3. rewrite rev_app_distr.
  destruct (decide (n <= length k)%nat) as [Hn|Hn].
  - rewrite drop_app, drop_ge by (rewrite length_rev, length_drop; lia).
    rewrite length_rev, length_drop.
    by replace (length k - n - (length k - n))%nat with 0%nat by lia.
  - rewrite (drop_ge k), (take_ge k) by lia. simpl.
    by replace (length k - n)%nat with 0%nat by lia.
Qed.

(** ** Lemmas: the row index *)

(** The index points at the newest row of every FigaroLT. *)
Definition index_ok {T} (rows : list (Entry T)) (ix : gmap Z nat) : Prop :=
  forall k, lookupIndexed rows ix k = newest rows k /\
            (forall i, ix !! k = Some i -> (i < length rows)%nat).

Lemma newest_app {T} (rows : list (Entry T)) e k :
  newest (rows ++ [e]) k = if FigaroLT e =? k then Some e else newest rows k.
Proof. unfold newest. by rewrite rev_app_distr. Qed.

Lemma index_ok_nil {T} : index_ok (@nil (Entry T)) ∅.
Proof. intros k. unfold lookupIndexed. rewrite lookup_empty. done. Qed.

Lemma index_ok_app {T} (rows : list (Entry T)) ix e :
  index_ok rows ix -> index_ok (rows ++ [e]) (<[FigaroLT e := length rows]> ix).
Proof.
  intros H k. destruct (H k) as [H1 H2]. unfold lookupIndexed in *.
  rewrite newest_app, length_app, lookup_insert. simpl.
  destruct (Z.eqb_spec (FigaroLT e) k) as [->|Hne].
  - rewrite decide_True by done. split; [by apply list_lookup_middle|].
    intros i [= <-]. lia.
  - rewrite decide_False by done. split.
    + rewrite <- H1. destruct (ix !! k) as [i|] eqn:E; [|done].
      apply lookup_app_l. by apply H2.
    + intros i Hi. specialize (H2 i Hi). lia.
Qed.

Lemma peekTail_last {T} (rows : list (Entry T)) : peekTail rows = last rows.
Proof.
  unfold peekTail. rewrite last_lookup. destruct rows as [|e rows]; [done|].
  simpl. by rewrite Nat.sub_0_r.
Qed.

(** ** The two implementations keep the contract *)

#[export] Instance MemLog_laws {T} : LogLaws (MemLog T) T.
Proof.
  refine {| log_wf s := index_ok (entries s) (byFigaroLT s) /\ nextLT s = next_lt (entries s) |};
    simpl; try done.
  - intros. apply peekTail_last.
  - intros l k [H _]. apply H.
  - intros l e l' e' [H Hn] [= <- <-]. simpl. split_and!; try done.
    + by apply (index_ok_app _ _ (mkEntry _ _ _ _)).
    + unfold next_lt. by rewrite last_snoc.
    + intros Hne. by rewrite (proj2 (Z.eqb_neq _ _)).
  - intros l l' H [= <-]. split; [|done]. split; [exact index_ok_nil|done].
Defined.

#[export] Instance MemLog_stamps {T} : LogStamps (MemLog T) T.
Proof.
  intros l e l' e' [_ Hn] [= _ <-] ->. simpl. split; [exact Hn|done].
Qed.

Lemma NewMemLog_wf {T} : log_wf (@NewMemLog T).
Proof. split; [exact index_ok_nil|done]. Qed.

(** A cache is coherent when it holds exactly the rows of its inner log. *)
Definition coherent {L T} `{LogLaws L T} (c : cachedLog L T) : Prop :=
  log_wf (inner c) /\ rows c = Read (inner c) /\ index_ok (rows c) (byFK c).

Lemma cachedLog_Append_ok {L T} `{LogLaws L T} (c : cachedLog L T) e c' e' :
  coherent c -> cachedLog_Append c e = (c', Some e') ->
  coherent c' /\ rows c' = rows c ++ [e'] /\ Payload e' = Payload e /\
  Fingerprint e' = Fingerprint e /\ (FigaroLT e <> 0 -> FigaroLT e' = FigaroLT e).
Proof.
  intros (Hwf & Hrows & Hix). unfold cachedLog_Append.
  destruct (Append (inner c) e) as [l' [st|]] eqn:E; [|done]. intros [= <- <-].
  destruct (law_Append_ok _ _ _ _ Hwf E) as (Hwf' & Hr & Hp & Hf & Hflt).
  unfold coherent. simpl. split_and!; try done.
  - by rewrite Hr, Hrows.
  - by apply index_ok_app.
Qed.

Lemma cachedLog_Append_err {L T} `{LogLaws L T} (c : cachedLog L T) e c' :
  coherent c -> cachedLog_Append c e = (c', None) ->
  coherent c' /\ rows c' = rows c.
Proof.
  intros (Hwf & Hrows & Hix). unfold cachedLog_Append.
  destruct (Append (inner c) e) as [l' [st|]] eqn:E; [done|]. intros [= <-].
  destruct (law_Append_err _ _ _ Hwf E) as (Hwf' & Hr).
  unfold coherent. simpl. split_and!; try done. by rewrite Hr.
Qed.

Lemma cachedLog_Clear_any {L T} `{LogLaws L T} (c : cachedLog L T) c' ok :
  coherent c -> cachedLog_Clear c = (c', ok) ->
  coherent c' /\ rows c' = if ok then [] else rows c.
Proof.
  intros (Hwf & Hrows & Hix). unfold cachedLog_Clear.
  destruct (Clear (inner c)) as [l' []] eqn:E; intros [= <- <-].
  - destruct (law_Clear_ok _ _ Hwf E) as (Hwf' & Hr).
    unfold coherent. simpl. split_and!; auto using index_ok_nil.
  - destruct (law_Clear_err _ _ Hwf E) as (Hwf' & Hr).
    unfold coherent. simpl. split_and!; try done. by rewrite Hr.
Qed.

#[export] Instance cachedLog_laws {L T} `{LogLaws L T} : LogLaws (cachedLog L T) T.
Proof.
  refine {| log_wf := coherent |}; simpl; try done.
  - intros. apply peekTail_last.
  - intros l k (_ & _ & Hix). apply Hix.
  - intros. by eapply cachedLog_Append_ok.
  - intros. by eapply cachedLog_Append_err.
  - intros l l' Hc Ha. by eapply cachedLog_Clear_any in Ha.
  - intros l l' Hc Ha. by eapply cachedLog_Clear_any in Ha.
Defined.

#[export] Instance cachedLog_stamps {L T} `{LogStamps L T} : LogStamps (cachedLog L T) T.
Proof.
  intros c e c' e' (Hwf & Hrows & _). simpl. unfold cachedLog_Append.
  destruct (Append (inner c) e) as [l' [st|]] eqn:E; [|done]. intros [= <- <-] He.
  rewrite Hrows. by apply (law_Append_LT _ _ _ _ Hwf E).
Qed.

Lemma newCachedLog_fill {T} (es rows : list (Entry T)) ix :
  index_ok rows ix ->
  let st := foldl cache_row (rows, ix) es in
  st.1 = rows ++ es /\ index_ok st.1 st.2.
Proof.
  revert rows ix. induction es as [|e es IH]; intros rows ix H; simpl.
  { by rewrite app_nil_r. }
  destruct (IH (rows ++ [e]) (<[FigaroLT e := length rows]> ix)) as [H1 H2].
  - by apply index_ok_app.
  - by rewrite <- app_assoc in H1.
Qed.

Lemma newCachedLog_coherent {L T} `{LogLaws L T} (l : L) :
  log_wf l -> coherent (newCachedLog l).
Proof.
  intros Hl. unfold newCachedLog, coherent. simpl.
  by destruct (newCachedLog_fill (Read l) [] ∅ index_ok_nil) as [H1 H2].
Qed.

(** ** Writes, as a sequence *)

Inductive log_write (T : Type) := WAppend (e : Entry T) | WClear.
Arguments WAppend {T}.
Arguments WClear {T}.

Definition do_write {L T} `{LogOps L T} (l : L) (w : log_write T) : L :=
  match w with WAppend e => fst (Append l e) | WClear => fst (Clear l) end.

Lemma do_write_wf {L T} `{LogLaws L T} (l : L) w : log_wf l -> log_wf (do_write l w).
Proof.
  intros Hl. destruct w as [e|]; simpl.
  - destruct (Append l e) as [l' [e'|]] eqn:E; simpl.
    + eapply law_Append_ok; eauto.
    + eapply law_Append_err; eauto.
  - destruct (Clear l) as [l' []] eqn:E; simpl.
    + eapply law_Clear_ok; eauto.
    + eapply law_Clear_err; eauto.
Qed.

Lemma do_writes_wf {L T} `{LogLaws L T} ws (l : L) :
  log_wf l -> log_wf (foldl do_write l ws).
Proof.
  revert l. induction ws as [|w ws IH]; intros l Hl; simpl; [done|].
  by apply IH, do_write_wf.
Qed.

Lemma search_from_at {T} (rows : list (Entry T)) p e :
  strictly_ascending rows -> rows !! p = Some e -> search_from rows (FigaroLT e) = p.
Proof.
  intros Hs Hp.
  destruct (search_from_spec rows (FigaroLT e) (strictly_ascending_weak _ Hs)) as (H1 & H2 & H3).
  set (r := search_from rows (FigaroLT e)) in *.
  pose proof (lookup_lt_Some _ _ _ Hp) as Hlt.
  destruct (Nat.lt_trichotomy r p) as [Hr|[Hr|Hr]]; [exfalso|done|exfalso].
  - destruct (lookup_lt_is_Some_2 rows r ltac:(lia)) as [a Ha].
    rewrite Forall_lookup in H3. specialize (H3 0%nat a).
    rewrite lookup_drop, Nat.add_0_r in H3. specialize (H3 Ha).
    specialize (Hs _ _ _ _ Ha Hp Hr). lia.
  - rewrite Forall_lookup in H2. specialize (H2 p e).
    rewrite lookup_take_lt in H2 by done. specialize (H2 Hp). lia.
Qed.

(** A main-channel log: LT and FigaroLT agree, start above 0 and grow. *)
Definition main_rows {T} (rows : list (Entry T)) : Prop :=
  strictly_ascending rows /\ Forall (fun e => LT e = FigaroLT e /\ 0 < LT e) rows.

Definition page_start {T} (rows : list (Entry T)) (from : Z) : nat :=
  if 0 <? from then search_from rows from else 0%nat.

(** Reading everything from an LT on never panics. *)
Lemma readFrom_all {T} (rows : list (Entry T)) k :
  readFrom rows k 0 = Some (drop (search (length rows) (fun i => k <=? figaro_lt_at rows i)) rows).
Proof.
  unfold readFrom, copy_window. rewrite Z.ltb_irrefl. cbn [andb].
  pose proof (search_le (length rows) (fun i => k <=? figaro_lt_at rows i)).
  rewrite slice_some by (unfold glen; lia). rewrite Nat2Z.id, firstn_all2; [done|].
  rewrite length_drop. unfold glen. lia.
Qed.

Lemma page_start_le {T} (rows : list (Entry T)) from :
  ascending rows -> (page_start rows from <= length rows)%nat.
Proof. intros H. unfold page_start. case_if; [apply search_from_spec; done|lia]. Qed.

Lemma readPage_forward {T} (rows : list (Entry T)) from n :
  ascending rows -> glen rows + Z.max 0 n < 2 ^ 63 -> 0 < n ->
  readPage rows from 0 n =
  Some (take (Z.to_nat n) (drop (page_start rows from) rows), length rows).
Proof.
  intros Hasc Hlen Hn. unfold readPage. simpl.
  change (if 0 <? from then _ else 0%nat) with (page_start rows from).
  rewrite copy_window_spec; [|by apply page_start_le|done].
  by rewrite (proj2 (Z.leb_gt n 0)) by lia.
Qed.

Definition page_limit (Limit : Z) : Z :=
  if (Limit <=? 0) || (ariaReadHardCap <? Limit) then ariaReadHardCap else Limit.

Lemma page_limit_range Limit : 1 <= page_limit Limit <= 1000.
Proof.
  unfold page_limit, ariaReadHardCap. destruct (_ || _) eqn:E; [lia|]. bool_hyps. lia.
Qed.

(** One forward page: what it returns and where the next one starts. *)
Lemma ariaRead_forward {L T} `{LogLaws L T} (log : L) From Limit :
  log_wf log -> main_rows (Read log) -> glen (Read log) < 2 ^ 62 ->
  let D := drop (page_start (Read log) From) (Read log) in
  let n := Z.to_nat (page_limit Limit) in
  ariaRead log From 0 Limit =
  Some (take n D, match D !! n with Some e => LT e | None => 0 end).
Proof.
  intros Hwf [Hs _] Hlen D n. unfold ariaRead. fold (page_limit Limit).
  pose proof (page_limit_range Limit) as Hr. simpl.
  rewrite law_ReadPage, readPage_forward; [|by apply strictly_ascending_weak|lia|lia|done].
  cbn [mbind option_bind]. fold D.
  replace (Z.to_nat (page_limit Limit + 1)) with (S n) by lia.
  unfold glen. rewrite length_take. case_if.
  - rewrite take_take, Nat.min_l by lia. fold n. by rewrite lookup_take_lt by lia.
  - rewrite !take_ge, lookup_ge_None_2 by lia. done.
Qed.

Lemma ariaReadAll_complete {L T} `{LogLaws L T} (log : L) Limit fuel From :
  log_wf log -> main_rows (Read log) -> glen (Read log) < 2 ^ 62 ->
  (length (Read log) - page_start (Read log) From < fuel)%nat ->
  ariaReadAll fuel log From Limit =
  Some (drop (page_start (Read log) From) (Read log)).
Proof.
  intros Hwf Hm Hlen. revert From. induction fuel as [|fuel IH]; intros From Hfuel; [lia|].
  cbn [ariaReadAll]. rewrite ariaRead_forward by done. cbn [mbind option_bind].
  set (D := drop _ _). set (n := Z.to_nat (page_limit Limit)).
  destruct (D !! n) as [e|] eqn:E.
  - unfold D in E. rewrite lookup_drop in E.
    destruct Hm as [Hs Hpos].
    destruct (proj1 (Forall_lookup _ _) Hpos _ _ E) as [HLT Hgt].
    rewrite (proj2 (Z.eqb_neq _ 0)) by lia.
    assert (Hps : page_start (Read log) (LT e) = (page_start (Read log) From + n)%nat).
    { unfold page_start at 1. rewrite (proj2 (Z.ltb_lt 0 _)), HLT by lia.
      by apply search_from_at. }
    pose proof (lookup_lt_Some _ _ _ E) as Hlt.
    pose proof (page_limit_range Limit).
    rewrite IH by (rewrite Hps; lia).
    cbn [mbind option_bind]. rewrite Hps, <- drop_drop. fold D. by rewrite take_drop.
  - simpl. apply lookup_ge_None in E. by rewrite take_ge.
Qed.

(** ** Properties *)

(** On rows in FigaroLT order, readPage's forward page is the first n rows
    at or above [from] and its backward page the last n rows below [before],
    both ascending, with the total row count; no slice is out of bounds. *)
Theorem store_readPage_spec {T} (rows : list (Entry T)) (from before n : Z)
    (Hasc : ascending rows) (Hlen : glen rows + Z.max 0 n < 2 ^ 63) :
  readPage rows from before n =
  Some (if 0 <? before then
          let below := List.filter (fun e => FigaroLT e <? before) rows in
          if n <=? 0 then [] else drop (length below - Z.to_nat n) below
        else
          let above := if 0 <? from
                       then List.filter (fun e => from <=? FigaroLT e) rows else rows in
          if n <=? 0 then above else take (Z.to_nat n) above,
        length rows).
Proof.
  unfold readPage. destruct (0 <? before).
  - destruct (n <=? 0); [done|].
    by rewrite scan_before_spec, filter_rev, rev_take_rev.
  - change (if 0 <? from then _ else 0%nat) with (page_start rows from).
    rewrite copy_window_spec; [|by apply page_start_le|done].
    cbn [mbind option_bind]. unfold page_start.
    destruct (0 <? from); [|by rewrite drop_0].
    by rewrite (proj1 (search_from_filter rows from Hasc)).
Qed.

Definition ex_rows : list (Entry nat) :=
  map (fun n => mkEntry (Z.of_nat n) (Z.of_nat n) n []) [1; 2; 3; 4; 5]%nat.

Lemma ex_rows_ascending : strictly_ascending ex_rows.
Proof.
  unfold ex_rows. simpl.
  repeat (apply strictly_ascending_cons; [repeat constructor; simpl; lia|]).
  intros i j a b Ha. by rewrite lookup_nil in Ha.
Qed.

Lemma store_readPage_spec_witness :
  readPage ex_rows 0 4 2 = Some ([mkEntry 2 2 2%nat []; mkEntry 3 3 3%nat []], 5%nat).
Proof.
  rewrite (store_readPage_spec ex_rows 0 4 2); [vm_compute; reflexivity| |].
  - apply strictly_ascending_weak, ex_rows_ascending.
  - vm_compute. reflexivity.
Defined.

(** ** A cached log over a log that keeps less than the contract *)

(** What a log promises to its cache: [wl_fits] entries are read back as they
    were appended; reading from an LT answers as a search of the rows when they
    are in FigaroLT order, and a lookup finds the only entry of an LT.  Which of
    several entries of one LT it finds is left open. *)
Class WrappedLaws (L T : Type) `{LogOps L T} := {
  wl_wf : L -> Prop;
  wl_fits : L -> Entry T -> Prop;
  wl_Len : forall l, wl_wf l -> Len l = length (Read l);
  wl_PeekTail : forall l, wl_wf l -> PeekTail l = last (Read l);
  wl_Lookup : forall l k, wl_wf l -> NoDup (map FigaroLT (Read l)) -> Lookup l k = newest (Read l) k;
  wl_ReadFrom : forall l k n, wl_wf l -> ascending (Read l) -> glen (Read l) + Z.max 0 n < 2 ^ 63 ->
    ReadFrom l k n = readFrom (Read l) k n;
  wl_ReadPage : forall l f b n, wl_wf l -> ReadPage l f b n = readPage (Read l) f b n;
  wl_Append_ok : forall l e l' e', wl_wf l -> wl_fits l e -> Append l e = (l', Some e') ->
    wl_wf l' /\ Read l' = Read l ++ [e'];
  wl_Append_err : forall l e l', wl_wf l -> Append l e = (l', None) -> wl_wf l' /\ Read l' = Read l;
  wl_Clear_ok : forall l l', wl_wf l -> Clear l = (l', true) -> wl_wf l' /\ Read l' = [];
  wl_Clear_err : forall l l', wl_wf l -> Clear l = (l', false) -> wl_wf l' /\ Read l' = Read l }.

#[export] Instance log_wrapped {L T} `{LogLaws L T} : WrappedLaws L T.
Proof.
  refine {| wl_wf := log_wf; wl_fits _ _ := True |};
    eauto using law_Len, law_PeekTail, law_Lookup, law_ReadFrom, law_ReadPage, law_Append_err, law_Clear_ok, law_Clear_err.
  intros l e l' e' Hl _ Ha. destruct (law_Append_ok _ _ _ _ Hl Ha) as (? & ? & _). done.
Defined.

(** Writes whose entries the log reads back. *)
Fixpoint writes_fit {L T} `{WrappedLaws L T} (l : L) (ws : list (log_write T)) : Prop :=
  match ws with
  | [] => True
  | w :: ws => match w with WAppend e => wl_fits l e | WClear => True end /\ writes_fit (do_write l w) ws
  end.

Definition holds_inner {L T} `{WrappedLaws L T} (c : cachedLog L T) : Prop :=
  wl_wf (inner c) /\ rows c = Read (inner c) /\ index_ok (rows c) (byFK c).

Lemma holds_write {L T} `{WrappedLaws L T} (c : cachedLog L T) w :
  holds_inner c -> match w with WAppend e => wl_fits (inner c) e | WClear => True end ->
  holds_inner (do_write c w) /\ inner (do_write c w) = do_write (inner c) w.
Proof.
  intros (Hwf & Hrows & Hix) Hw. destruct w as [e|]; cbn [do_write Append Clear cachedLog_ops].
  - unfold cachedLog_Append. destruct (Append (inner c) e) as [l' [st|]] eqn:E; (split; [|done]); unfold holds_inner; cbn.
    + destruct (wl_Append_ok _ _ _ _ Hwf Hw E) as [Hwf' Hr]. split_and!; [done|by rewrite Hr, Hrows|by apply index_ok_app].
    + destruct (wl_Append_err _ _ _ Hwf E) as [Hwf' Hr]. split_and!; [done|by rewrite Hr|done].
  - unfold cachedLog_Clear. destruct (Clear (inner c)) as [l' []] eqn:E; (split; [|done]); unfold holds_inner; cbn.
    + destruct (wl_Clear_ok _ _ Hwf E) as [Hwf' Hr]. split_and!; [done|by rewrite Hr|apply index_ok_nil].
    + destruct (wl_Clear_err _ _ Hwf E) as [Hwf' Hr]. split_and!; [done|by rewrite Hr|done].
Qed.

Lemma holds_writes {L T} `{WrappedLaws L T} ws (c : cachedLog L T) :
  holds_inner c -> writes_fit (inner c) ws ->
  holds_inner (foldl do_write c ws) /\ inner (foldl do_write c ws) = foldl do_write (inner c) ws.
Proof.
  revert c. induction ws as [|w ws IH]; intros c Hc; cbn; [done|]. intros [Hw Hws].
  destruct (holds_write c w Hc Hw) as [Hc' E]. rewrite <- E in Hws |- *. by apply IH.
Qed.

Lemma newCachedLog_holds {L T} `{WrappedLaws L T} (l : L) : wl_wf l -> holds_inner (newCachedLog l).
Proof.
  intros Hl. unfold newCachedLog, holds_inner. simpl.
  by destruct (newCachedLog_fill (Read l) [] ∅ index_ok_nil) as [H1 H2].
Qed.

(** C17: a cachedLog opened over a log, after any appends of entries the log reads
    back and any clears, whether they succeed or fail: the log it wraps is as the
    writes alone would leave it, and the cache answers Read, Len, PeekTail and
    ReadPage as that log does, ReadFrom too when the rows are in FigaroLT order,
    and Lookup with the newest entry of an LT, which is the log's answer when no
    two rows share an LT.  (Where they do, the log on the tree finds the oldest.) *)
Theorem store_cached_refines {L T} `{WrappedLaws L T} (l : L) (ws : list (log_write T))
    (Hl : wl_wf l) (Hws : writes_fit l ws) :
  let c := foldl do_write (newCachedLog l) ws in
  inner c = foldl do_write l ws /\
  Read c = Read (inner c) /\ Len c = Len (inner c) /\ PeekTail c = PeekTail (inner c) /\
  (forall f b n, ReadPage c f b n = ReadPage (inner c) f b n) /\
  (ascending (Read c) -> forall k n, glen (Read c) + Z.max 0 n < 2 ^ 63 ->
     ReadFrom c k n = ReadFrom (inner c) k n) /\
  (forall k, Lookup c k = newest (Read c) k) /\
  (NoDup (map FigaroLT (Read c)) -> forall k, Lookup c k = Lookup (inner c) k).
Proof.
  intros c. destruct (holds_writes ws (newCachedLog l) (newCachedLog_holds l Hl) Hws) as [(Hwf & Hrows & Hix) Hin].
  fold c in Hwf, Hrows, Hix, Hin. cbn [Read Len Lookup PeekTail ReadFrom ReadPage cachedLog_ops].
  rewrite wl_Len, wl_PeekTail, peekTail_last, Hrows by done. split_and!; try done.
  - intros f b n. by rewrite wl_ReadPage.
  - intros Ha k n Hn. by rewrite wl_ReadFrom.
  - intros k. rewrite <- Hrows. apply Hix.
  - intros Hnd k. rewrite wl_Lookup by done. rewrite <- Hrows. apply Hix.
Qed.

(** A client that follows NextFrom page after page, with any limit it asks
    for, terminates and receives every entry from its starting LT on, in order,
    exactly once. *)
Theorem store_paging_complete {L T} `{LogLaws L T} (log : L) (From Limit : Z)
    (Hwf : log_wf log) (Hmain : main_rows (Read log)) (Hlen : glen (Read log) < 2 ^ 62) :
  ariaReadAll (S (length (Read log))) log From Limit =
  Some (if 0 <? From then List.filter (fun e => From <=? FigaroLT e) (Read log)
        else Read log).
Proof.
  rewrite ariaReadAll_complete by (done || lia).
  destruct Hmain as [Hs _]. unfold page_start. destruct (0 <? From); [|by rewrite drop_0].
  by rewrite (proj1 (search_from_filter _ From (strictly_ascending_weak _ Hs))).
Qed.

Definition ex_log : MemLog nat := mkMemLog ex_rows (foldl cache_row ([], ∅) ex_rows).2 6.

Lemma store_paging_complete_witness :
  ariaReadAll (S (length (Read ex_log))) ex_log 2 2 =
  Some (List.filter (fun e => 2 <=? FigaroLT e) (Read ex_log)).
Proof.
  apply (store_paging_complete ex_log 2 2).
  - split; [apply (newCachedLog_fill ex_rows [] ∅ index_ok_nil)|reflexivity].
  - split; [apply ex_rows_ascending|]. repeat constructor; vm_compute; congruence.
  - vm_compute. reflexivity.
Defined.
