(* ===== verification/Aria.v ===== *)
(** * livelog/aria: the paginated read protocol between the agent's server and
    its clients (src/internal/livelog/aria/server.go, client.go, types.go).

    [Server] broadcasts versioned field deltas of one open message; [Client]
    folds them.  A Go panic is [None]. *)

From S2P Require Import Prelude Json Livedoc.

(** ** types.go *)

(** The dynamic values a NodeDelta.Set holds: what fullSet and delta store, and
    what encoding/json decodes them to (numbers become float64; only integral
    ones occur). *)
Inductive any :=
| ANil
| AStr (s : gostr)
| AInt64 (n : Z)
| AFloat64 (n : Z)
| AObj (m : object).

#[export] Instance any_eq_dec : EqDecision any.
Proof. solve_decision. Defined.

Record NodeDelta := mkNodeDelta {
  ndID : gostr;
  ndSet : gmap gostr any;
  ndUnset : list gostr;
  ndPatch : gmap gostr Delta }.

(** func (d NodeDelta) Empty *)
Definition NodeDelta_Empty (d : NodeDelta) : bool :=
  bool_decide (size (ndSet d) = 0%nat) && bool_decide (length (ndUnset d) = 0%nat) &&
  bool_decide (size (ndPatch d) = 0%nat).

Record Live := mkLive { lvLT : Z; lvV : Z; lvRole : gostr; lvNodes : list NodeDelta }.

(** Nodes = None is the nil slice. *)
Record Committed := mkCommitted {
  cmLT : Z; cmV : Z; cmRole : gostr; cmNodes : option (list Node) }.

(** func (c Committed) Full *)
Definition Full (c : Committed) : bool :=
  match cmNodes c with Some _ => true | None => false end.

Record Metrics := mkMetrics {
  ContextTokens : Z; ContextLimit : Z; ContextExact : bool; TokensIn : Z; TokensOut : Z;
  CacheReadTokens : Z; CacheWriteTokens : Z; Mantra : gostr }.

Record AriaRead := mkAriaRead {
  arCommitted : list Committed; arLive : option Live; arMetrics : option Metrics }.

Definition empty_read : AriaRead := mkAriaRead [] None None.

(** func (r AriaRead) Empty *)
Definition AriaRead_Empty (r : AriaRead) : bool :=
  match arCommitted r, arLive r, arMetrics r with [], None, None => true | _, _, _ => false end.

(** A closed message. *)
Record Message := mkMessage { mLT : Z; mRole : gostr; mNodes : option (list Node) }.

(** ** server.go *)

Record openMsg := mkOpen {
  omLT : Z; omRole : gostr; omOrder : list gostr; omBlock : gmap gostr Node; omVer : Z }.

(** A subscriber is its id; pushes are collected as (id, frame). *)
Record Server := mkServer {
  svClosed : list Message;
  svOpen : option openMsg;
  svSubs : gset Z;
  svNextID : Z }.

Definition NewServer : Server := mkServer [] None ∅ 0.

(** func blockID *)
Definition blockID (i : nat) (n : Node) : gostr :=
  if bool_decide (nID n = []) then #"n" ++ itoa (Z.of_nat i) else nID n.

(** [if cond { set[k] = v }] *)
Definition put (k : gostr) (b : bool) (v : any) (m : gmap gostr any) : gmap gostr any :=
  if b then <[k := v]> m else m.
Definition nonempty (s : gostr) : bool := negb (bool_decide (s = [])).

(** func fullSet *)
Definition fullSet (id : gostr) (n : Node) : NodeDelta :=
  let set : gmap gostr any := {[ #"type" := AStr (nType n) ]} in
  let set := put #"name" (nonempty (nName n)) (AStr (nName n)) set in
  let set := put #"summary" (nonempty (nSummary n)) (AStr (nSummary n)) set in
  let set := match nArgs n with Some a => put #"args" true (AObj a) set | None => set end in
  let set := put #"status" (nonempty (nStatus n)) (AStr (nStatus n)) set in
  let set := put #"started_at" (negb (nStartedAt n =? 0)) (AInt64 (nStartedAt n)) set in
  let set := put #"finished_at" (negb (nFinishedAt n =? 0)) (AInt64 (nFinishedAt n)) set in
  let set := put #"markdown" (nonempty (nMarkdown n)) (AStr (nMarkdown n)) set in
  let set := put #"output" (nonempty (nOutput n)) (AStr (nOutput n)) set in
  mkNodeDelta id set [] ∅.

(** The closures of func delta, on its three accumulators. *)
Definition acc : Type := gmap gostr any * list gostr * gmap gostr Delta.

Definition acc_set (f : gostr) (v : any) (a : acc) : acc := (<[f := v]> a.1.1, a.1.2, a.2).
Definition acc_unset (f : gostr) (a : acc) : acc := (a.1.1, a.1.2 ++ [f], a.2).
Definition acc_patch (f : gostr) (d : Delta) (a : acc) : acc := (a.1, <[f := d]> a.2).

Definition scalar (f ov nv : gostr) (a : acc) : acc :=
  if bool_decide (nv = ov) then a
  else if bool_decide (nv = []) then acc_unset f a else acc_set f (AStr nv) a.

Definition scalarInt (f : gostr) (ov nv : Z) (a : acc) : acc :=
  if ov =? nv then a
  else if nv =? 0 then acc_unset f a else acc_set f (AInt64 nv) a.

Definition streamed (f ov nv : gostr) (a : acc) : acc :=
  if bool_decide (nv = ov) then a
  else if bool_decide (nv = []) then acc_unset f a
  else if bool_decide (ov = []) then acc_set f (AStr nv) a
  else match Diff ov nv with
       | Some dl => acc_patch f dl a
       | None => acc_set f (AStr nv) a
       end.

Definition type_change (ov nv : gostr) (a : acc) : acc :=
  if bool_decide (nv <> ov) then acc_set #"type" (AStr nv) a else a.

Definition args_change (ov nv : option object) (a : acc) : acc :=
  if bool_decide (ov = nv) then a
  else match nv with
       | None => acc_unset #"args" a
       | Some m => acc_set #"args" (AObj m) a
       end.

(** func delta; [old] is None when the block did not exist. *)
Definition delta (id : gostr) (old : option Node) (n : Node) : NodeDelta :=
  match old with
  | None => fullSet id n
  | Some old =>
      let a := (∅, [], ∅) in
      let a := type_change (nType old) (nType n) a in
      let a := scalar #"name" (nName old) (nName n) a in
      let a := scalar #"summary" (nSummary old) (nSummary n) a in
      let a := scalar #"status" (nStatus old) (nStatus n) a in
      let a := scalarInt #"started_at" (nStartedAt old) (nStartedAt n) a in
      let a := scalarInt #"finished_at" (nFinishedAt old) (nFinishedAt n) a in
      let a := streamed #"markdown" (nMarkdown old) (nMarkdown n) a in
      let a := streamed #"output" (nOutput old) (nOutput n) a in
      let a := args_change (nArgs old) (nArgs n) a in
      mkNodeDelta id a.1.1 a.1.2 a.2
  end.

(** func deliver, over the subscribers of subsLocked. *)
Definition deliver (s : Server) (r : AriaRead) : list (Z * AriaRead) :=
  map (fun id => (id, r)) (elements (svSubs s)).

(** func LastCommittedLT *)
Definition LastCommittedLT (s : Server) : Z :=
  match last (svClosed s) with Some m => mLT m | None => 0 end.

(** func HasOpen *)
Definition HasOpen (s : Server) : bool :=
  match svOpen s with Some _ => true | None => false end.

(** func Restore *)
Definition Restore (s : Server) (messages : list Message) : Server :=
  mkServer messages None (svSubs s) (svNextID s).

(** func Open *)
Definition Open (s : Server) (lt : Z) (role : gostr) : Server :=
  mkServer (svClosed s) (Some (mkOpen lt role [] ∅ 0)) (svSubs s) (svNextID s).

(** The loop of func Update over the new node list. *)
Fixpoint update_loop (i : nat) (nodes : list Node)
    (st : list gostr * gmap gostr Node * list NodeDelta)
  : list gostr * gmap gostr Node * list NodeDelta :=
  match nodes with
  | [] => st
  | n :: nodes' =>
      let '(order, block, deltas) := st in
      let id := blockID i n in
      let old := block !! id in
      let d := delta id old n in
      let deltas := if NodeDelta_Empty d then deltas else deltas ++ [d] in
      let order := match old with None => order ++ [id] | Some _ => order end in
      update_loop (S i) nodes' (order, <[id := n]> block, deltas)
  end.

(** func Update *)
Definition Update (s : Server) (nodes : list Node) : Server * option AriaRead :=
  match svOpen s with
  | None => (s, None)
  | Some o =>
      let '(order, block, deltas) := update_loop 0 nodes (omOrder o, omBlock o, []) in
      if (length deltas =? 0)%nat then
        (mkServer (svClosed s) (Some (mkOpen (omLT o) (omRole o) order block (omVer o)))
           (svSubs s) (svNextID s), None)
      else
        let v := omVer o in
        let role := if v =? 0 then omRole o else [] in
        let o' := mkOpen (omLT o) (omRole o) order block (v + 1) in
        (mkServer (svClosed s) (Some o') (svSubs s) (svNextID s),
         Some (mkAriaRead [] (Some (mkLive (omLT o) v role deltas)) None))
  end.

(** The nodes of an open message, nil when it has none. *)
Definition open_nodes (o : openMsg) : option (list Node) :=
  match omOrder o with
  | [] => None
  | order => Some (map (fun id => default zero_Node (omBlock o !! id)) order)
  end.

(** func Close *)
Definition Close (s : Server) : Server * option AriaRead :=
  match svOpen s with
  | None => (s, None)
  | Some o =>
      let m := mkMessage (omLT o) (omRole o) (open_nodes o) in
      let lastV := omVer o - 1 in
      let lastV := if lastV <? 0 then 0 else lastV in
      (mkServer (svClosed s ++ [m]) None (svSubs s) (svNextID s),
       Some (mkAriaRead [mkCommitted (mLT m) lastV [] None] None None))
  end.

(** func Abandon *)
Definition Abandon (s : Server) : Server :=
  mkServer (svClosed s) None (svSubs s) (svNextID s).

(** A closed message as a full snapshot (a marker if it has nil nodes). *)
Definition snapshot_of (m : Message) : Committed := mkCommitted (mLT m) 0 (mRole m) (mNodes m).

(** func Commit *)
Definition Commit (s : Server) (m : Message) : Server * option AriaRead :=
  (mkServer (svClosed s ++ [m]) (svOpen s) (svSubs s) (svNextID s),
   Some (mkAriaRead [snapshot_of m] None None)).

(** func Subscribe, and the cancel it returns. *)
Definition Subscribe (s : Server) : Server * Z :=
  (mkServer (svClosed s) (svOpen s) ({[svNextID s]} ∪ svSubs s) (svNextID s + 1), svNextID s).
Definition Cancel (s : Server) (id : Z) : Server :=
  mkServer (svClosed s) (svOpen s) (svSubs s ∖ {[id]}) (svNextID s).

(** func ReadBefore *)
Definition ReadBefore (s : Server) (beforeLT limit : Z) : option AriaRead :=
  if (beforeLT <=? 0) || (limit <=? 0) then Some empty_read else
  let hi := search (length (svClosed s)) (fun i =>
    match svClosed s !! i with Some m => beforeLT <=? mLT m | None => false end) in
  let lo := Z.of_nat hi - limit in
  let lo := if lo <? 0 then 0 else lo in
  ms ← slice (svClosed s) lo (Z.of_nat hi);
  Some (mkAriaRead (map snapshot_of ms) None None).

(** func Read *)
Definition Read (s : Server) (sinceLT : Z) : AriaRead :=
  let committed := map snapshot_of
    (List.filter (fun m => negb (mLT m <=? sinceLT)) (svClosed s)) in
  let live := match svOpen s with
    | Some o =>
        if (0 <? length (omOrder o))%nat then
          let deltas := map (fun id => fullSet id (default zero_Node (omBlock o !! id)))
                          (omOrder o) in
          let v := omVer o - 1 in
          let v := if v <? 0 then 0 else v in
          Some (mkLive (omLT o) v (omRole o) deltas)
        else None
    | None => None
    end in
  mkAriaRead committed live None.

(** ** client.go *)

Record Client := mkClient {
  clClosed : list Message;
  clSeen : gset Z;
  clFloor : Z;
  clLimit : Z;
  clLast : Z;
  clOpenLT : Z;
  clOpenRole : gostr;
  clOpenV : Z;
  clOpenOrder : list gostr;
  clOpenBlock : gmap gostr Node }.

Definition NewClient : Client := mkClient [] ∅ 0 0 0 0 [] 0 [] ∅.

(** The callbacks a client fires, in order. *)
Inductive event :=
| OnClosed (m : Message)
| OnLive (lt : Z) (role : gostr) (nodes : list Node)
| OnDesync (sinceLT : Z)
| OnMetrics (m : Metrics).

Definition asStr (v : any) : gostr := match v with AStr s => s | _ => [] end.
Definition asInt64 (v : any) : Z :=
  match v with AInt64 n => n | AFloat64 n => n | _ => 0 end.

(** func setField *)
Definition setField (n : Node) (field : gostr) (v : any) : Node :=
  if bool_decide (field = #"type") then
    mkNode (asStr v) (nVersion n) (nMarkdown n) (nID n) (nName n) (nArgs n) (nStatus n)
      (nOutput n) (nSummary n) (nStartedAt n) (nFinishedAt n)
  else if bool_decide (field = #"name") then
    mkNode (nType n) (nVersion n) (nMarkdown n) (nID n) (asStr v) (nArgs n) (nStatus n)
      (nOutput n) (nSummary n) (nStartedAt n) (nFinishedAt n)
  else if bool_decide (field = #"summary") then
    mkNode (nType n) (nVersion n) (nMarkdown n) (nID n) (nName n) (nArgs n) (nStatus n)
      (nOutput n) (asStr v) (nStartedAt n) (nFinishedAt n)
  else if bool_decide (field = #"status") then
    mkNode (nType n) (nVersion n) (nMarkdown n) (nID n) (nName n) (nArgs n) (asStr v)
      (nOutput n) (nSummary n) (nStartedAt n) (nFinishedAt n)
  else if bool_decide (field = #"markdown") then
    set_markdown n (asStr v)
  else if bool_decide (field = #"output") then
    set_output n (asStr v)
  else if bool_decide (field = #"id") then
    mkNode (nType n) (nVersion n) (nMarkdown n) (asStr v) (nName n) (nArgs n) (nStatus n)
      (nOutput n) (nSummary n) (nStartedAt n) (nFinishedAt n)
  else if bool_decide (field = #"started_at") then
    mkNode (nType n) (nVersion n) (nMarkdown n) (nID n) (nName n) (nArgs n) (nStatus n)
      (nOutput n) (nSummary n) (asInt64 v) (nFinishedAt n)
  else if bool_decide (field = #"finished_at") then
    mkNode (nType n) (nVersion n) (nMarkdown n) (nID n) (nName n) (nArgs n) (nStatus n)
      (nOutput n) (nSummary n) (nStartedAt n) (asInt64 v)
  else if bool_decide (field = #"args") then
    mkNode (nType n) (nVersion n) (nMarkdown n) (nID n) (nName n)
      (match v with ANil => None | AObj m => Some m | _ => nArgs n end) (nStatus n)
      (nOutput n) (nSummary n) (nStartedAt n) (nFinishedAt n)
  else n.

(** One iteration of foldDelta's loop over d.Patch. *)
Definition patchField (f : gostr) (dl : Delta) (n : option Node) : option Node :=
  n ← n;
  if bool_decide (f = #"markdown") then s ← Apply (nMarkdown n) dl; Some (set_markdown n s)
  else if bool_decide (f = #"output") then s ← Apply (nOutput n) dl; Some (set_output n s)
  else Some n.

(** func foldDelta; the three loops range over maps (in any order, see
    [foldDelta_spec]) and over d.Unset. *)
Definition foldDelta (n : Node) (d : NodeDelta) : option Node :=
  let n := map_fold (fun k v n => setField n k v) n (ndSet d) in
  let n := foldl (fun n f => setField n f ANil) n (ndUnset d) in
  map_fold patchField (Some n) (ndPatch d).

(** func openNodes *)
Definition openNodes (c : Client) : list Node :=
  map (fun id => default zero_Node (clOpenBlock c !! id)) (clOpenOrder c).

(** func Cursor *)
Definition Cursor (c : Client) : Z := clLast c.

(** func OpenAnimating *)
Definition OpenAnimating (c : Client) : bool :=
  negb (clOpenLT c =? 0) &&
  existsb (fun kn => bool_decide (nType (snd kn) = NodeTool) &&
                     bool_decide (nStatus (snd kn) = StatusRunning)) (map_to_list (clOpenBlock c)).

(** func resetOpen *)
Definition resetOpen (c : Client) : Client :=
  mkClient (clClosed c) (clSeen c) (clFloor c) (clLimit c) (clLast c) 0 [] 0 [] ∅.

(** func advanceCommitted *)
Definition advanceCommitted (c : Client) (lt : Z) : Client :=
  mkClient (clClosed c) (clSeen c) (clFloor c) (clLimit c)
    (if clLast c <? lt then lt else clLast c)
    (clOpenLT c) (clOpenRole c) (clOpenV c) (clOpenOrder c) (clOpenBlock c).

Definition mark_seen (c : Client) (lt : Z) : Client :=
  mkClient (clClosed c) ({[lt]} ∪ clSeen c) (clFloor c) (clLimit c) (clLast c)
    (clOpenLT c) (clOpenRole c) (clOpenV c) (clOpenOrder c) (clOpenBlock c).

(** func seenClosed *)
Definition seenClosed (c : Client) (lt : Z) : bool :=
  (lt <? clFloor c) || bool_decide (lt ∈ clSeen c).

(** sort.SliceStable by LT. *)
Fixpoint insert_stable (m : Message) (l : list Message) : list Message :=
  match l with
  | [] => [m]
  | x :: l' => if mLT x <? mLT m then x :: insert_stable m l' else m :: l
  end.
Definition sort_stable (l : list Message) : list Message := foldr insert_stable [] l.

(** func trimClosed *)
Definition trimClosed (c : Client) : Client :=
  if (clLimit c <=? 0) || (glen (clClosed c) <=? clLimit c) then c else
  let sorted := sort_stable (clClosed c) in
  let closed := drop (length sorted - Z.to_nat (clLimit c)) sorted in
  let seen : gset Z := list_to_set (map mLT closed) in
  let floor := match closed with
    | m :: _ => if clFloor c <? mLT m then mLT m else clFloor c
    | [] => clFloor c
    end in
  mkClient closed seen floor (clLimit c) (clLast c)
    (clOpenLT c) (clOpenRole c) (clOpenV c) (clOpenOrder c) (clOpenBlock c).

(** func SetClosedLimit *)
Definition SetClosedLimit (c : Client) (limit : Z) : Client :=
  trimClosed (mkClient (clClosed c) (clSeen c) (clFloor c) limit (clLast c)
    (clOpenLT c) (clOpenRole c) (clOpenV c) (clOpenOrder c) (clOpenBlock c)).

(** One committed entry of func Apply: the client, the finalized messages and
    the desync cursor (-1: none). *)
Definition apply_committed (st : Client * list Message * Z) (cm : Committed)
  : Client * list Message * Z :=
  let '(c, finalized, desync) := st in
  match cmNodes cm with
  | Some nodes =>
      let '(c, finalized) :=
        if seenClosed c (cmLT cm) then (c, finalized)
        else (mark_seen c (cmLT cm),
              finalized ++ [mkMessage (cmLT cm) (cmRole cm) (Some nodes)]) in
      let c := if cmLT cm =? clOpenLT c then resetOpen c else c in
      (advanceCommitted c (cmLT cm), finalized, desync)
  | None =>
      if (clOpenLT c =? cmLT cm) && (clOpenV c =? cmV cm) then
        let '(c, finalized) :=
          if bool_decide (cmLT cm ∈ clSeen c) then (c, finalized)
          else (mark_seen c (cmLT cm),
                finalized ++ [mkMessage (cmLT cm) (clOpenRole c) (Some (openNodes c))]) in
        (resetOpen (advanceCommitted c (cmLT cm)), finalized, desync)
      else (c, finalized, clLast c)
  end.

(** One NodeDelta of a live frame. *)
Definition apply_node (c : option Client) (nd : NodeDelta) : option Client :=
  c ← c;
  let cur := clOpenBlock c !! ndID nd in
  let order := match cur with None => clOpenOrder c ++ [ndID nd] | Some _ => clOpenOrder c end in
  n ← foldDelta (default zero_Node cur) nd;
  Some (mkClient (clClosed c) (clSeen c) (clFloor c) (clLimit c) (clLast c)
    (clOpenLT c) (clOpenRole c) (clOpenV c) order (<[ndID nd := n]> (clOpenBlock c))).

Definition set_open (c : Client) (lt : Z) (role : gostr) : Client :=
  mkClient (clClosed c) (clSeen c) (clFloor c) (clLimit c) (clLast c) lt role (clOpenV c) [] ∅.
Definition set_role (c : Client) (role : gostr) : Client :=
  mkClient (clClosed c) (clSeen c) (clFloor c) (clLimit c) (clLast c)
    (clOpenLT c) role (clOpenV c) (clOpenOrder c) (clOpenBlock c).
Definition set_v (c : Client) (v : Z) : Client :=
  mkClient (clClosed c) (clSeen c) (clFloor c) (clLimit c) (clLast c)
    (clOpenLT c) (clOpenRole c) v (clOpenOrder c) (clOpenBlock c).

(** The live section of func Apply. *)
Definition apply_live (c : Client) (f : Live) : option Client :=
  let c := if clOpenLT c =? lvLT f then c else set_open c (lvLT f) (lvRole f) in
  let c := if bool_decide (lvRole f = []) then c else set_role c (lvRole f) in
  c ← foldl apply_node (Some c) (lvNodes f);
  Some (set_v c (lvV f)).

Definition append_closed (c : Client) (ms : list Message) : Client :=
  mkClient (clClosed c ++ ms) (clSeen c) (clFloor c) (clLimit c) (clLast c)
    (clOpenLT c) (clOpenRole c) (clOpenV c) (clOpenOrder c) (clOpenBlock c).

(** func Apply (of Client), with the callbacks it fires. *)
Definition ApplyRead (c : Client) (r : AriaRead) : option (Client * list event) :=
  let '(c, finalized, desync) := foldl apply_committed (c, [], -1) (arCommitted r) in
  let c := trimClosed (append_closed c finalized) in
  '(c, live) ← match arLive r with
    | None => Some (c, [])
    | Some f =>
        c ← apply_live c f;
        Some (c, [OnLive (clOpenLT c) (clOpenRole c) (openNodes c)])
    end;
  Some (c, match arMetrics r with Some m => [OnMetrics m] | None => [] end ++
           map OnClosed finalized ++ live ++
           (if 0 <=? desync then [OnDesync desync] else [])).

(** func View: the closed messages in LT order and the open one. *)
Definition View (c : Client) : list Message * option Message :=
  (sort_stable (clClosed c),
   if clOpenLT c =? 0 then None
   else Some (mkMessage (clOpenLT c) (clOpenRole c) (Some (openNodes c)))).

(** A client that applies a stream of frames, collecting its callbacks. *)
Definition follow (st : option (Client * list event)) (r : AriaRead)
  : option (Client * list event) :=
  '(c, evs) ← st; '(c, evs') ← ApplyRead c r; Some (c, evs ++ evs').
