(* ===== verification/AriaSync.v ===== *)
(** * Correctness of the aria protocol: a client that follows the server's
    frames holds the server's state (livelog/aria). *)

From S2P Require Import Prelude Json Livedoc Aria.

(** ** foldDelta in closed form *)

(** Distinct string literals. *)
Ltac lit_neq := let H := fresh in intros H; vm_compute in H; discriminate H.

(** Evaluate the comparisons of literal field names. *)
Ltac decide_lits :=
  repeat match goal with
  | |- context [bool_decide (lit ?a = lit ?b)] =>
      let r := eval vm_compute in (bool_decide (lit a = lit b)) in
      change (bool_decide (lit a = lit b)) with r; cbv iota
  end.

(** What a delta says about one field: a value to set, an unset, a splice. *)
Abbreviation field_change := (option any * bool * option Delta)%type.
Definition no_change : field_change := (None, false, None).

Definition look (d : NodeDelta) (f : gostr) : field_change :=
  (ndSet d !! f, bool_decide (f ∈ ndUnset d), ndPatch d !! f).

Definition pick {A} (ch : field_change) (conv : any -> A) (zero old : A) : A :=
  if ch.1.2 then zero else match ch.1.1 with Some v => conv v | None => old end.
Definition pick_args (ch : field_change) (old : option object) : option object :=
  if ch.1.2 then None else
  match ch.1.1 with Some ANil => None | Some (AObj m) => Some m | _ => old end.
Definition pick_text (ch : field_change) (old : gostr) : gostr :=
  let s := pick ch asStr [] old in
  match ch.2 with Some dl => default s (Apply s dl) | None => s end.

(** The node a delta turns [n] into, field by field. *)
Definition node_of (n : Node) (L : gostr -> field_change) : Node :=
  mkNode (pick (L #"type") asStr [] (nType n)) (nVersion n)
    (pick_text (L #"markdown") (nMarkdown n)) (pick (L #"id") asStr [] (nID n))
    (pick (L #"name") asStr [] (nName n)) (pick_args (L #"args") (nArgs n))
    (pick (L #"status") asStr [] (nStatus n)) (pick_text (L #"output") (nOutput n))
    (pick (L #"summary") asStr [] (nSummary n))
    (pick (L #"started_at") asInt64 0 (nStartedAt n))
    (pick (L #"finished_at") asInt64 0 (nFinishedAt n)).

(** Prove two nodes equal: the fields that are syntactically the same at once,
    the others with [tac]. *)
Lemma Node_eq (a b : Node) :
  nType a = nType b -> nVersion a = nVersion b -> nMarkdown a = nMarkdown b ->
  nID a = nID b -> nName a = nName b -> nArgs a = nArgs b -> nStatus a = nStatus b ->
  nOutput a = nOutput b -> nSummary a = nSummary b -> nStartedAt a = nStartedAt b ->
  nFinishedAt a = nFinishedAt b -> a = b.
Proof. destruct a, b; cbn; by intros; subst. Qed.

Ltac node_eq tac :=
  apply Node_eq;
  cbn [nType nVersion nMarkdown nID nName nArgs nStatus nOutput nSummary nStartedAt
       nFinishedAt];
  lazymatch goal with
  | |- ?a = ?b => first [constr_eq a b; exact eq_refl | tac]
  end.

Definition set_look (m : gmap gostr any) (f : gostr) : field_change := (m !! f, false, None).
Definition unset_look (us : list gostr) (f : gostr) : field_change :=
  (None, bool_decide (f ∈ us), None).
Definition patch_look (m : gmap gostr Delta) (f : gostr) : field_change := (None, false, m !! f).

(** Case analysis on a field name against the names setField knows. *)
Ltac field_cases f :=
  destruct (decide (f = #"type")) as [->|?];
  [|destruct (decide (f = #"name")) as [->|?];
  [|destruct (decide (f = #"summary")) as [->|?];
  [|destruct (decide (f = #"status")) as [->|?];
  [|destruct (decide (f = #"markdown")) as [->|?];
  [|destruct (decide (f = #"output")) as [->|?];
  [|destruct (decide (f = #"id")) as [->|?];
  [|destruct (decide (f = #"started_at")) as [->|?];
  [|destruct (decide (f = #"finished_at")) as [->|?];
  [|destruct (decide (f = #"args")) as [->|?]]]]]]]]]].

Lemma setField_other (n : Node) f v :
  f <> #"type" -> f <> #"name" -> f <> #"summary" -> f <> #"status" -> f <> #"markdown" ->
  f <> #"output" -> f <> #"id" -> f <> #"started_at" -> f <> #"finished_at" ->
  f <> #"args" -> setField n f v = n.
Proof. intros. unfold setField. by rewrite !bool_decide_eq_false_2. Qed.

Lemma set_look_insert (m : gmap gostr any) f v g :
  set_look (<[f := v]> m) g =
  if bool_decide (f = g) then (Some v, false, None) else set_look m g.
Proof.
  unfold set_look. case_if; bool_hyps.
  - subst. by rewrite lookup_insert_eq.
  - by rewrite lookup_insert_ne.
Qed.

Lemma set_fold (n : Node) (m : gmap gostr any) :
  map_fold (fun k v n => setField n k v) n m = node_of n (set_look m).
Proof.
  apply (map_fold_weak_ind (fun r m => r = node_of n (set_look m))).
  - by destruct n.
  - intros f v m' r Hf ->. assert (set_look m' f = no_change) as Hl.
    { unfold set_look. by rewrite Hf. }
    unfold node_of at 2. rewrite !set_look_insert. field_cases f;
      [(unfold setField; decide_lits; unfold node_of, set_markdown, set_output;
           node_eq ltac:(rewrite ?Hl; by destruct v))..|].
    rewrite setField_other by done. by rewrite !(bool_decide_eq_false_2 (f = _)).
Qed.

Lemma unset_look_cons (f u : gostr) us :
  unset_look (u :: us) f =
  if bool_decide (u = f) then (None, true, None) else unset_look us f.
Proof.
  unfold unset_look. case_if; bool_hyps.
  - subst. rewrite bool_decide_eq_true_2 by apply list_elem_of_here. done.
  - repeat f_equal. apply bool_decide_ext. rewrite elem_of_cons. naive_solver.
Qed.

Lemma unset_fold (n : Node) us :
  foldl (fun n f => setField n f ANil) n us = node_of n (unset_look us).
Proof.
  revert n. induction us as [|u us IH]; intros n; cbn [foldl].
  { by destruct n. }
  rewrite IH. unfold node_of at 2. rewrite !unset_look_cons. field_cases u;
    [(unfold setField; decide_lits; unfold node_of, set_markdown, set_output;
         node_eq ltac:(unfold pick_text, pick_args, pick, unset_look; cbn [fst snd asStr asInt64];
                       by destruct (bool_decide _)))..|].
  rewrite setField_other by done. by rewrite !(bool_decide_eq_false_2 (u = _)).
Qed.

Lemma Apply_default blob d : Apply blob d = Some (default blob (Apply blob d)).
Proof. destruct (Apply_shape blob d) as (p & q & _ & ->). done. Qed.

Lemma patch_look_insert (m : gmap gostr Delta) f dl g :
  patch_look (<[f := dl]> m) g =
  if bool_decide (f = g) then (None, false, Some dl) else patch_look m g.
Proof.
  unfold patch_look. case_if; bool_hyps.
  - subst. by rewrite lookup_insert_eq.
  - by rewrite lookup_insert_ne.
Qed.

Lemma patch_fold (n : Node) (m : gmap gostr Delta) :
  map_fold patchField (Some n) m = Some (node_of n (patch_look m)).
Proof.
  apply (map_fold_weak_ind (fun r m => r = Some (node_of n (patch_look m)))).
  - by destruct n.
  - intros f dl m' r Hf ->. assert (patch_look m' f = no_change) as Hl.
    { unfold patch_look. by rewrite Hf. }
    unfold patchField. cbn [mbind option_bind].
    set (rhs := node_of n (patch_look (<[f := dl]> m'))).
    unfold node_of in rhs. subst rhs. rewrite !patch_look_insert.
    destruct (decide (f = #"markdown")) as [->|Hm];
      [|destruct (decide (f = #"output")) as [->|Ho]].
    + decide_lits. rewrite Apply_default. cbn [mbind option_bind]. f_equal.
      unfold node_of, set_markdown. node_eq ltac:(unfold pick_text; by rewrite ?Hl).
    + decide_lits. rewrite Apply_default. cbn [mbind option_bind]. f_equal.
      unfold node_of, set_output. node_eq ltac:(unfold pick_text; by rewrite ?Hl).
    + rewrite (bool_decide_eq_false_2 _ Hm), (bool_decide_eq_false_2 _ Ho).
      cbv iota. f_equal. unfold node_of.
      node_eq ltac:(by destruct (bool_decide _)).
Qed.

(** The result of foldDelta does not depend on the order in which the maps are
    walked, and no splice can panic. *)
Lemma foldDelta_spec (n : Node) d : foldDelta n d = Some (node_of n (look d)).
Proof.
  unfold foldDelta. rewrite set_fold, unset_fold, patch_fold. reflexivity.
Qed.

(** ** The deltas of the server *)

(** A node as a live frame can carry it: without ID and Version, which the
    deltas do not mention. *)
Definition erase (n : Node) : Node :=
  mkNode (nType n) 0 (nMarkdown n) [] (nName n) (nArgs n) (nStatus n) (nOutput n)
    (nSummary n) (nStartedAt n) (nFinishedAt n).

(** What the accumulators of func delta say about a field. *)
Definition acc_look (a : acc) (f : gostr) : field_change :=
  (a.1.1 !! f, bool_decide (f ∈ a.1.2), a.2 !! f).

Lemma look_acc id (a : acc) f : look (mkNodeDelta id a.1.1 a.1.2 a.2) f = acc_look a f.
Proof. done. Qed.

Lemma look_set_ne f g v (a : acc) : f <> g -> acc_look (acc_set g v a) f = acc_look a f.
Proof. intros. unfold acc_look, acc_set. cbn [fst snd]. by rewrite lookup_insert_ne. Qed.
Lemma look_patch_ne f g d (a : acc) : f <> g -> acc_look (acc_patch g d a) f = acc_look a f.
Proof. intros. unfold acc_look, acc_patch. cbn [fst snd]. by rewrite lookup_insert_ne. Qed.
Lemma look_unset_ne f g (a : acc) : f <> g -> acc_look (acc_unset g a) f = acc_look a f.
Proof.
  intros. unfold acc_look, acc_unset. cbn [fst snd]. repeat f_equal.
  apply bool_decide_ext. rewrite elem_of_app, list_elem_of_singleton. naive_solver.
Qed.

Lemma look_set_eq f v (a : acc) :
  acc_look a f = no_change -> acc_look (acc_set f v a) f = (Some v, false, None).
Proof.
  unfold acc_look, acc_set. cbn [fst snd]. rewrite lookup_insert_eq.
  intros H. injection H as _ -> ->. done.
Qed.
Lemma look_patch_eq f d (a : acc) :
  acc_look a f = no_change -> acc_look (acc_patch f d a) f = (None, false, Some d).
Proof.
  unfold acc_look, acc_patch. cbn [fst snd]. rewrite lookup_insert_eq.
  intros H. injection H as -> -> _. done.
Qed.
Lemma look_unset_eq f (a : acc) :
  acc_look a f = no_change -> acc_look (acc_unset f a) f = (None, true, None).
Proof.
  unfold acc_look, acc_unset. cbn [fst snd]. intros H. injection H as -> _ ->.
  rewrite bool_decide_eq_true_2; [done|]. apply elem_of_app. right. by apply list_elem_of_singleton.
Qed.

Section step_ne.
Context (f g : gostr) (a : acc) (Hne : f <> g).

Lemma scalar_ne ov nv : acc_look (scalar g ov nv a) f = acc_look a f.
Proof using Hne.
  unfold scalar. repeat case_bool_decide; rewrite ?look_unset_ne, ?look_set_ne; done.
Qed.
Lemma scalarInt_ne ov nv : acc_look (scalarInt g ov nv a) f = acc_look a f.
Proof using Hne.
  unfold scalarInt. repeat case_match; rewrite ?look_unset_ne, ?look_set_ne; done.
Qed.
Lemma streamed_ne ov nv : acc_look (streamed g ov nv a) f = acc_look a f.
Proof using Hne.
  unfold streamed. repeat case_bool_decide; try case_match;
    rewrite ?look_unset_ne, ?look_set_ne, ?look_patch_ne; done.
Qed.
Lemma type_change_ne ov nv :
  f <> #"type" -> acc_look (type_change ov nv a) f = acc_look a f.
Proof using Type.
  intros. unfold type_change. case_bool_decide; rewrite ?look_set_ne; done.
Qed.
Lemma args_change_ne ov nv :
  f <> #"args" -> acc_look (args_change ov nv a) f = acc_look a f.
Proof using Type.
  intros. unfold args_change. repeat case_match; rewrite ?look_unset_ne, ?look_set_ne; done.
Qed.
End step_ne.

Section step_eq.
Context (f : gostr) (a : acc) (Ha : acc_look a f = no_change).

Lemma scalar_eq ov nv : pick (acc_look (scalar f ov nv a) f) asStr [] ov = nv.
Proof using Ha.
  unfold scalar. repeat case_bool_decide; subst;
    rewrite ?look_unset_eq, ?look_set_eq, ?Ha by done; done.
Qed.
Lemma scalarInt_eq ov nv : pick (acc_look (scalarInt f ov nv a) f) asInt64 0 ov = nv.
Proof using Ha.
  unfold scalarInt. repeat case_if; bool_hyps; subst;
    rewrite ?look_unset_eq, ?look_set_eq, ?Ha by done; done.
Qed.
Lemma streamed_eq ov nv :
  int64_ok (glen ov) -> pick_text (acc_look (streamed f ov nv a) f) ov = nv.
Proof using Ha.
  intros Hok. unfold streamed. repeat case_bool_decide; subst;
    rewrite ?look_unset_eq, ?look_set_eq, ?Ha by done; [done..|].
  destruct (Diff ov nv) as [d|] eqn:E.
  - rewrite look_patch_eq by done. unfold pick_text. cbn.
    by rewrite (Diff_roundtrip _ _ _ Hok E).
  - by apply Diff_None in E.
Qed.
End step_eq.

Lemma type_change_eq (a : acc) ov nv :
  acc_look a #"type" = no_change ->
  pick (acc_look (type_change ov nv a) #"type") asStr [] ov = nv.
Proof.
  intros Ha. unfold type_change. case_bool_decide; [by rewrite look_set_eq|].
  rewrite Ha. destruct (decide (nv = ov)); [done|contradiction].
Qed.

Lemma args_change_eq (a : acc) ov nv :
  acc_look a #"args" = no_change ->
  pick_args (acc_look (args_change ov nv a) #"args") ov = nv.
Proof.
  intros Ha. unfold args_change. case_bool_decide; subst; [by rewrite Ha|].
  destruct nv; rewrite ?look_unset_eq, ?look_set_eq by done; done.
Qed.

(** Peel the steps that change other fields. *)
Ltac peel :=
  repeat first
    [ rewrite args_change_ne by lit_neq | rewrite streamed_ne by lit_neq
    | rewrite scalarInt_ne by lit_neq | rewrite scalar_ne by lit_neq
    | rewrite type_change_ne by lit_neq ].

Lemma delta_node id old n :
  int64_ok (glen (nMarkdown old)) -> int64_ok (glen (nOutput old)) ->
  node_of (erase old) (look (delta id (Some old) n)) = erase n.
Proof.
  intros Hm Ho. unfold delta. set (a := args_change _ _ _).
  assert (acc_look (∅, [], ∅) #"type" = no_change) as E by done.
  apply Node_eq; cbn [node_of erase nType nVersion nMarkdown nID nName nArgs nStatus nOutput
    nSummary nStartedAt nFinishedAt]; rewrite ?look_acc; subst a.
  - peel. by apply type_change_eq.
  - done.
  - peel. apply streamed_eq; [|done]. by peel.
  - by peel.
  - peel. apply scalar_eq. by peel.
  - apply args_change_eq. by peel.
  - peel. apply scalar_eq. by peel.
  - apply streamed_eq || (peel; apply streamed_eq); [|done]. by peel.
  - peel. apply scalar_eq. by peel.
  - peel. apply scalarInt_eq. by peel.
  - peel. apply scalarInt_eq. by peel.
Qed.

(** Applied to the client's copy of a block, the server's delta gives the
    client's copy of the new block. *)
Lemma delta_fold id old n :
  int64_ok (glen (nMarkdown old)) -> int64_ok (glen (nOutput old)) ->
  foldDelta (erase old) (delta id (Some old) n) = Some (erase n).
Proof. intros. by rewrite foldDelta_spec, delta_node. Qed.

Lemma put_look (k : gostr) (b : bool) (v : any) (m : gmap gostr any) (f : gostr) :
  set_look (put k b v m) f =
  if b && bool_decide (k = f) then (Some v, false, None) else set_look m f.
Proof. unfold put. destruct b; [|done]. cbn [andb]. apply set_look_insert. Qed.

Lemma singleton_look (k : gostr) (v : any) (f : gostr) :
  set_look {[k := v]} f = if bool_decide (k = f) then (Some v, false, None) else no_change.
Proof. apply set_look_insert. Qed.

(** An omitted zero value reads back as the zero value. *)
Lemma pick_nonempty (s : gostr) :
  pick (if nonempty s then (Some (AStr s), false, None) else no_change) asStr [] [] = s.
Proof. unfold nonempty. case_bool_decide; by subst. Qed.
Lemma pick_text_nonempty (s : gostr) :
  pick_text (if nonempty s then (Some (AStr s), false, None) else no_change) [] = s.
Proof. unfold nonempty. case_bool_decide; by subst. Qed.
Lemma pick_nonzero (z : Z) :
  pick (if negb (z =? 0) then (Some (AInt64 z), false, None) else no_change) asInt64 0 0 = z.
Proof. destruct (Z.eqb_spec z 0); by subst. Qed.

Lemma fullSet_fold id n : foldDelta zero_Node (fullSet id n) = Some (erase n).
Proof.
  rewrite foldDelta_spec. f_equal. unfold fullSet.
  set (m := put #"output" _ _ _).
  assert (forall f, look (mkNodeDelta id m [] ∅) f = set_look m f) as Hl by done.
  apply Node_eq; cbn [node_of erase zero_Node nType nVersion nMarkdown nID nName nArgs nStatus
    nOutput nSummary nStartedAt nFinishedAt]; rewrite ?Hl; try done;
    subst m; destruct (nArgs n) eqn:?; rewrite ?put_look, ?singleton_look; decide_lits;
    rewrite ?andb_false_r, ?andb_true_r; cbv iota;
    auto using pick_nonempty, pick_text_nonempty, pick_nonzero.
Qed.

Lemma empty_fold (n : Node) d : NodeDelta_Empty d = true -> foldDelta n d = Some n.
Proof.
  unfold NodeDelta_Empty. destruct d as [id st us pt]; cbn. rewrite !andb_true_iff, !bool_decide_eq_true.
  rewrite !map_size_empty_iff. intros [[-> H] ->]. by apply nil_length_inv in H as ->.
Qed.

Lemma fullSet_nonempty id n : NodeDelta_Empty (fullSet id n) = false.
Proof.
  unfold NodeDelta_Empty. rewrite bool_decide_eq_false_2; [done|].
  rewrite map_size_empty_iff. intros H.
  assert ((set_look (ndSet (fullSet id n)) #"type").1.1 = Some (AStr (nType n))) as E.
  { unfold fullSet. cbn [ndSet]. destruct (nArgs n); rewrite ?put_look, ?singleton_look;
      decide_lits; by rewrite ?andb_false_r. }
  rewrite H in E. discriminate E.
Qed.

(** ** One update, on both sides *)

Definition node_ok (n : Node) : Prop :=
  int64_ok (glen (nMarkdown n)) /\ int64_ok (glen (nOutput n)).
Definition block_ok (block : gmap gostr Node) : Prop := forall id n, block !! id = Some n -> node_ok n.

Definition with_blocks (c : Client) (order : list gostr) (block : gmap gostr Node) : Client :=
  mkClient (clClosed c) (clSeen c) (clFloor c) (clLimit c) (clLast c)
    (clOpenLT c) (clOpenRole c) (clOpenV c) order block.

(** The client folds one delta of the server. *)
Lemma apply_node_delta c id block n :
  block_ok block -> clOpenBlock c = erase <$> block ->
  apply_node (Some c) (delta id (block !! id) n) =
  Some (with_blocks c
    (match block !! id with None => clOpenOrder c ++ [id] | Some _ => clOpenOrder c end)
    (erase <$> <[id := n]> block)).
Proof.
  intros Hok Hb. unfold apply_node. cbn [mbind option_bind].
  assert (forall old, ndID (delta id old n) = id) as -> by (intros []; done).
  rewrite Hb, lookup_fmap. destruct (block !! id) as [old|] eqn:E; cbn [fmap option_fmap option_map].
  - destruct (Hok _ _ E). change (default zero_Node (Some (erase old))) with (erase old).
    rewrite delta_fold by done. cbn. by rewrite fmap_insert.
  - change (delta id None n) with (fullSet id n).
    change (default zero_Node None) with zero_Node. rewrite fullSet_fold. cbn. by rewrite fmap_insert.
Qed.

Lemma update_sync nodes i order block ds c :
  block_ok block -> Forall node_ok nodes ->
  clOpenOrder c = order -> clOpenBlock c = erase <$> block ->
  exists order' block' ds',
    update_loop i nodes (order, block, ds) = (order', block', ds ++ ds') /\
    foldl apply_node (Some c) ds' = Some (with_blocks c order' (erase <$> block')) /\
    block_ok block' /\ (exists more, order' = order ++ more) /\ (ds' = [] -> order' = order).
Proof.
  revert i order block ds c. induction nodes as [|n nodes IH]; intros i order block ds c Hok Hns Ho Hb.
  { exists order, block, []. rewrite app_nil_r. split; [done|].
    split; [|split; [done|split; [|done]]].
    - destruct c; cbn in *. by subst.
    - by exists []; rewrite app_nil_r. }
  apply Forall_cons in Hns as [Hn Hns]. cbn [update_loop].
  set (id := blockID i n). set (d := delta id (block !! id) n).
  set (order1 := match block !! id with None => order ++ [id] | Some _ => order end).
  assert (block_ok (<[id := n]> block)) as Hok1.
  { intros k m [[_ <-]|[_ Hk]]%lookup_insert_Some; [done|by eapply Hok]. }
  pose proof (apply_node_delta c id block n Hok Hb) as Hstep. rewrite Ho in Hstep.
  fold d order1 in Hstep. set (c1 := with_blocks c order1 _) in Hstep.
  destruct (IH (S i) order1 (<[id:=n]> block) (if NodeDelta_Empty d then ds else ds ++ [d]) c1)
    as (order' & block' & ds' & Heq & Hf & Hok' & [more Hm] & Hnil); [done..|].
  assert (exists more, order' = order ++ more) as Hpre.
  { subst order1. destruct (block !! id); [by eauto|].
    exists ([id] ++ more). by rewrite app_assoc. }
  destruct (NodeDelta_Empty d) eqn:He.
  - exists order', block', ds'. split; [done|].
    assert (block !! id <> None) as Hsome.
    { intros Hx. unfold d in He. rewrite Hx in He. cbn [delta] in He.
      by rewrite fullSet_nonempty in He. }
    assert (order1 = order) as E1 by (unfold order1; by destruct (block !! id)).
    assert (c1 = c) as E2.
    { unfold apply_node in Hstep. cbn [mbind option_bind] in Hstep.
      rewrite (empty_fold _ _ He) in Hstep. cbn in Hstep.
      assert (ndID d = id) as Hid by (unfold d; by destruct (block !! id)).
      rewrite Hid, Hb, lookup_fmap in Hstep.
      destruct (block !! id) as [old|] eqn:E; [|done]. cbn in Hstep.
      rewrite insert_id in Hstep by (by rewrite lookup_fmap, E).
      apply (inj Some) in Hstep. rewrite <- Hstep, <- Hb.
      by destruct c. }
    rewrite E2 in Hf. rewrite E1 in Hnil. done.
  - exists order', block', (d :: ds'). rewrite <- app_assoc in Heq. split; [done|].
    cbn [foldl]. rewrite Hstep, Hf. done.
Qed.
