(* ===== verification/AriaTrace.v ===== *)
(** * Traces of the aria protocol: a client that follows the frames of a server,
    or catches up with a Read after missing some, shows the server's messages. *)

From S2P Require Import Prelude Json Livedoc Aria AriaSync.

(** ** The calls the agent makes on its server *)

(** A reconciliation (agent.go:reconcileAriaServer) is given the history it
    rebuilds from the log: the server is restored from it without a frame, and
    the agent fans out the messages above the old cursor and, when a unit was
    open and nothing was added, an empty live frame at the next LT. *)
Inductive op :=
| OpOpen (lt : Z) (role : gostr)
| OpUpdate (nodes : list Node)
| OpClose
| OpAbandon
| OpCommit (m : Message)
| OpReconcile (history : list Message).

Definition blank_frame (s : Server) (history : list Message) : bool :=
  HasOpen s && (glen history <=? LastCommittedLT s).

Definition reconcile_frames (s : Server) (history : list Message) : list AriaRead :=
  map (fun m => mkAriaRead [snapshot_of m] None None)
    (List.filter (fun m => LastCommittedLT s <? mLT m) history) ++
  (if blank_frame s history
   then [mkAriaRead [] (Some (mkLive (glen history + 1) 0 #"assistant" [])) None] else []).

Definition opt_frames (x : Server * option AriaRead) : Server * list AriaRead :=
  (x.1, option_list x.2).

Definition run_op (s : Server) (o : op) : Server * list AriaRead :=
  match o with
  | OpOpen lt role => (Open s lt role, [])
  | OpUpdate nodes => opt_frames (Update s nodes)
  | OpClose => opt_frames (Close s)
  | OpAbandon => (Abandon s, [])
  | OpCommit m => opt_frames (Commit s m)
  | OpReconcile history => (Restore s history, reconcile_frames s history)
  end.

Fixpoint run (s : Server) (ops : list op) : Server * list AriaRead :=
  match ops with
  | [] => (s, [])
  | o :: ops' =>
      let '(s1, f) := run_op s o in
      let '(s2, fs) := run s1 ops' in
      (s2, f ++ fs)
  end.

(** The largest LT used so far. *)
Definition op_top (top : Z) (s : Server) (o : op) : Z :=
  match o with
  | OpOpen lt _ => lt
  | OpCommit m => mLT m
  | OpReconcile history => Z.max top (glen history + if blank_frame s history then 1 else 0)
  | _ => top
  end.

(** The messages a client can be shown: a unit closed without nodes is kept by
    the server with nil nodes, which the wire cannot tell from a marker. *)
Definition has_nodes (m : Message) : bool := match mNodes m with Some _ => true | None => false end.
Definition shown (s : Server) : list Message := List.filter has_nodes (svClosed s).
Definition shown_last (s : Server) : Z := match last (shown s) with Some m => mLT m | None => 0 end.

Definition erase_msg (m : Message) : Message :=
  mkMessage (mLT m) (mRole m) (map erase <$> mNodes m).

(** How the agent uses the server: a unit opens, or is committed whole, at a
    fresh LT (turn.go:emitSnapshot, agent.go); it may be closed with or without
    nodes, or abandoned; text lengths are machine integers.  The history of a
    reconciliation numbers its units from 1 and, up to the last LT the server
    had committed, is what clients were shown. *)
Definition op_ok (top : Z) (s : Server) (o : op) : Prop :=
  match o with
  | OpOpen lt _ => top < lt
  | OpUpdate nodes => Forall node_ok nodes
  | OpClose => True
  | OpAbandon => True
  | OpCommit m => svOpen s = None /\ top < mLT m /\ is_Some (mNodes m)
  | OpReconcile history =>
      map mLT history = map Z.of_nat (seq 1 (length history)) /\
      Forall (fun m => is_Some (mNodes m)) history /\
      map erase_msg (List.filter (fun m => negb (LastCommittedLT s <? mLT m)) history) =
      map erase_msg (shown s)
  end.

Fixpoint trace_ok (top : Z) (s : Server) (ops : list op) : Prop :=
  match ops with
  | [] => True
  | o :: ops' => op_ok top s o /\ trace_ok (op_top top s o) (fst (run_op s o)) ops'
  end.

Fixpoint tops (top : Z) (s : Server) (ops : list op) : Z :=
  match ops with
  | [] => top
  | o :: ops' => tops (op_top top s o) (fst (run_op s o)) ops'
  end.

(** The units a trace closes without nodes. *)
Definition empty_close (s : Server) (o : op) : nat :=
  match o, svOpen s with
  | OpClose, Some m => if bool_decide (omOrder m = []) then 1 else 0
  | _, _ => 0
  end.

Fixpoint empty_closes (s : Server) (ops : list op) : nat :=
  match ops with
  | [] => 0
  | o :: ops' => empty_close s o + empty_closes (fst (run_op s o)) ops'
  end.

Lemma run_app s ops1 ops2 :
  run s (ops1 ++ ops2) =
  let '(s1, f1) := run s ops1 in let '(s2, f2) := run s1 ops2 in (s2, f1 ++ f2).
Proof.
  revert s. induction ops1 as [|o ops1 IH]; intros s; simpl.
  { by destruct (run s ops2). }
  destruct (run_op s o) as [s1 f]. rewrite IH. destruct (run s1 ops1) as [s2 f1].
  destruct (run s2 ops2) as [s3 f2]. by rewrite <- app_assoc.
Qed.

Lemma trace_ok_app top s ops1 ops2 :
  trace_ok top s (ops1 ++ ops2) <->
  trace_ok top s ops1 /\ trace_ok (tops top s ops1) (fst (run s ops1)) ops2.
Proof.
  revert top s. induction ops1 as [|o ops1 IH]; intros top s; simpl; [tauto|].
  rewrite IH. destruct (run_op s o) as [s1 f] eqn:E; simpl.
  destruct (run s1 ops1) as [s2 f1] eqn:E2; simpl. tauto.
Qed.

Lemma tops_app top s ops1 ops2 :
  tops top s (ops1 ++ ops2) = tops (tops top s ops1) (fst (run s ops1)) ops2.
Proof.
  revert top s. induction ops1 as [|o ops1 IH]; intros top s; simpl; [done|].
  rewrite IH. destruct (run_op s o) as [s1 f] eqn:E; simpl.
  by destruct (run s1 ops1) as [s2 f1].
Qed.

(** ** The server's invariant *)

Definition open_ok (top : Z) (s : Server) (o : openMsg) : Prop :=
  0 < omLT o <= top /\ Forall (fun m => mLT m < omLT o) (svClosed s) /\
  block_ok (omBlock o) /\ NoDup (omOrder o) /\ dom (omBlock o) = list_to_set (omOrder o) /\
  (omVer o = 0 <-> omOrder o = []) /\ 0 <= omVer o.

Record server_ok (top : Z) (s : Server) : Prop := {
  so_sorted : StronglySorted Z.lt (map mLT (svClosed s));
  so_closed : Forall (fun m => 0 < mLT m <= top) (svClosed s);
  so_top : 0 <= top;
  so_open : forall o, svOpen s = Some o -> open_ok top s o }.

Lemma sorted_snoc (l : list Z) x :
  StronglySorted Z.lt l -> Forall (fun y => y < x) l -> StronglySorted Z.lt (l ++ [x]).
Proof.
  intros Hs Hx. induction Hs as [|y l Hs IH Hy]; simpl; [repeat constructor|].
  apply Forall_cons in Hx as [Hyx Hx]. constructor; [by apply IH|].
  apply Forall_app. split; [done|]. by constructor.
Qed.

Lemma closed_snoc top s lt role nodes open :
  server_ok top s -> Forall (fun m => mLT m < lt) (svClosed s) -> 0 < lt -> open = None ->
  server_ok (Z.max top lt)
    (mkServer (svClosed s ++ [mkMessage lt role nodes]) open (svSubs s) (svNextID s)).
Proof.
  intros [Hs Hc Ht Ho] Hlt Hpos ->. split; simpl.
  - rewrite map_app. apply sorted_snoc; [done|]. by apply Forall_map.
  - apply Forall_app. split.
    + eapply Forall_impl; [exact Hc|]. simpl. lia.
    + apply Forall_singleton. simpl. lia.
  - lia.
  - done.
Qed.

Lemma update_dom nodes i order block ds order' block' ds' :
  update_loop i nodes (order, block, ds) = (order', block', ds') ->
  NoDup order -> dom block = list_to_set order ->
  NoDup order' /\ dom block' = list_to_set order'.
Proof.
  revert i order block ds. induction nodes as [|n nodes IH]; intros i order block ds; simpl.
  { by intros [= <- <- <-]. }
  intros H Hnd Hdom. eapply IH in H; [done|..]; clear H IH.
  - destruct (block !! blockID i n) eqn:E; [done|]. apply NoDup_app. split; [done|].
    split; [|apply NoDup_singleton]. intros x Hx ->%list_elem_of_singleton.
    apply not_elem_of_dom in E. apply E. rewrite Hdom. by apply elem_of_list_to_set.
  - rewrite dom_insert_L, Hdom. destruct (block !! blockID i n) eqn:E.
    + apply elem_of_dom_2 in E. rewrite Hdom in E. set_solver.
    + rewrite list_to_set_app_L. set_solver.
Qed.

Lemma update_mono nodes i order block ds order' block' ds' id :
  update_loop i nodes (order, block, ds) = (order', block', ds') ->
  id ∈ dom block \/ nodes <> [] /\ id = blockID i (hd zero_Node nodes) -> id ∈ dom block'.
Proof.
  revert i order block ds. induction nodes as [|n nodes IH]; intros i order block ds; simpl.
  { intros [= <- <- <-]. by intros [?|[? _]]. }
  intros H Hid. eapply IH in H; [done|]. left. rewrite dom_insert.
  destruct Hid as [?|[_ ->]]; set_solver.
Qed.

Lemma update_nonempty nodes i order block ds order' block' ds' :
  update_loop i nodes (order, block, ds) = (order', block', ds') ->
  dom block' = list_to_set order' -> nodes <> [] -> order' <> [].
Proof.
  intros H Hdom Hn ->. eapply (update_mono _ _ _ _ _ _ _ _ (blockID i (hd zero_Node nodes))) in H;
    [|by right]. rewrite Hdom in H. set_solver.
Qed.

Lemma Forall_closed top s lt :
  server_ok top s -> top < lt -> Forall (fun m => mLT m < lt) (svClosed s).
Proof.
  intros Hs Hlt. eapply Forall_impl; [apply (so_closed _ _ Hs)|]. simpl. lia.
Qed.

Lemma last_mLT_le top s : server_ok top s -> 0 <= LastCommittedLT s <= top.
Proof.
  intros Hs. pose proof (so_top _ _ Hs). unfold LastCommittedLT.
  destruct (last (svClosed s)) as [m|] eqn:E; [|lia].
  apply last_Some_elem_of in E. pose proof (so_closed _ _ Hs) as Hc.
  rewrite Forall_forall in Hc. apply Hc in E. lia.
Qed.

(** ** Client and server in step *)

(** The client's open message against the server's. *)
Definition open_sync (c : Client) (o : openMsg) : Prop :=
  if bool_decide (omOrder o = []) then clOpenLT c <> omLT o
  else clOpenLT c = omLT o /\ clOpenRole c = omRole o /\ clOpenOrder c = omOrder o /\
       clOpenBlock c = erase <$> omBlock o /\ clOpenV c = omVer o - 1.

Record synced (top : Z) (s : Server) (c : Client) : Prop := {
  sy_closed : map erase_msg (clClosed c) = map erase_msg (shown s);
  sy_seen : clSeen c = list_to_set (map mLT (shown s));
  sy_floor : clFloor c = 0;
  sy_limit : clLimit c = 0;
  sy_last : clLast c = shown_last s;
  sy_stale : clOpenLT c <= top;
  sy_open : forall o, svOpen s = Some o -> open_sync c o }.

Lemma erase_default (o : option Node) :
  default zero_Node (erase <$> o) = erase (default zero_Node o).
Proof. by destruct o. Qed.

Lemma erase_erase (l : list Node) : map erase (map erase l) = map erase l.
Proof. rewrite map_map. by apply map_ext. Qed.

(** The client's nodes of the open message are the server's, erased. *)
Lemma openNodes_sync c o :
  clOpenOrder c = omOrder o -> clOpenBlock c = erase <$> omBlock o ->
  openNodes c = map erase (map (fun id => default zero_Node (omBlock o !! id)) (omOrder o)).
Proof.
  intros Ho Hb. unfold openNodes. rewrite Ho, Hb, map_map. apply map_ext. intros id.
  by rewrite lookup_fmap, erase_default.
Qed.

Lemma trim_unlimited c : clLimit c = 0 -> trimClosed c = c.
Proof. intros H. unfold trimClosed. by rewrite H. Qed.

(** The client once it has taken the header of a live frame of [o]. *)
Definition header (c : Client) (o : openMsg) : Client :=
  if bool_decide (omOrder o = []) then set_role (set_open c (omLT o) (omRole o)) (omRole o)
  else c.

Lemma live_header c o :
  open_sync c o -> dom (omBlock o) = list_to_set (omOrder o) ->
  clOpenLT (header c o) = omLT o /\ clOpenRole (header c o) = omRole o /\
  clOpenOrder (header c o) = omOrder o /\ clOpenBlock (header c o) = erase <$> omBlock o.
Proof.
  unfold open_sync, header. case_bool_decide as Hnil; intros Ho Hdom; [|tauto].
  cbn. rewrite Hnil in *. repeat split. apply dom_empty_inv_L in Hdom as ->.
  by rewrite fmap_empty.
Qed.

Lemma apply_live_header c o ds c' :
  open_sync c o -> (omVer o = 0 <-> omOrder o = []) ->
  foldl apply_node (Some (header c o)) ds = Some c' ->
  apply_live c (mkLive (omLT o) (omVer o) (if omVer o =? 0 then omRole o else []) ds) =
  Some (set_v c' (omVer o)).
Proof.
  unfold open_sync, header, apply_live. cbn [lvLT lvRole lvNodes lvV].
  case_bool_decide as Hnil; intros Ho Hv Hf.
  - rewrite (proj2 Hv Hnil). cbn [Z.eqb]. destruct (Z.eqb_spec (clOpenLT c) (omLT o)); [done|].
    case_bool_decide as Hr; [|by rewrite Hf].
    unfold set_role, set_open in Hf. cbn in Hf. unfold set_open. by rewrite Hf.
  - destruct Ho as (-> & _). rewrite Z.eqb_refl.
    destruct (Z.eqb_spec (omVer o) 0) as [E|_]; [by apply Hv in E|]. cbn. by rewrite Hf.
Qed.

(** An update frame, on both sides. *)
Lemma sync_update top s c nodes :
  server_ok top s -> synced top s c -> Forall node_ok nodes ->
  server_ok top (fst (Update s nodes)) /\
  match snd (Update s nodes) with
  | Some r => exists c', ApplyRead c r = Some (c', [OnLive (clOpenLT c') (clOpenRole c') (openNodes c')])
                /\ synced top (fst (Update s nodes)) c'
  | None => synced top (fst (Update s nodes)) c
  end.
Proof.
  intros Hs Hc Hn. unfold Update. destruct (svOpen s) as [o|] eqn:Eo; [|done].
  destruct (so_open _ _ Hs _ Eo) as (Hlt & Hlts & Hbok & Hnd & Hdom & Hver & Hver0).
  pose proof (sy_open _ _ _ Hc _ Eo) as Hopen.
  destruct (live_header c o Hopen Hdom) as (H1 & H2 & H3 & H4).
  destruct (update_sync nodes 0 (omOrder o) (omBlock o) [] (header c o))
    as (order & block & ds & Heq & Hf & Hok & [more Hmore] & Hnil); [done..|].
  rewrite Heq. cbn [app].
  destruct (update_dom _ _ _ _ _ _ _ _ Heq Hnd Hdom) as [Hnd' Hdom'].
  destruct ds as [|d ds]; cbn [length Nat.eqb].
  - specialize (Hnil eq_refl). clear Hmore. subst order. cbn [foldl] in Hf. apply (inj Some) in Hf.
    split; cbn [fst snd].
    + split; cbn; [apply Hs..|]. intros o' [= <-]. unfold open_ok. cbn.
      split_and!; done || lia || tauto.
    + split; cbn; [apply Hc..|]. intros o' [= <-]. unfold open_sync, header in *. cbn.
      revert Hopen Hf. case_bool_decide; [done|]. intros Hopen Hf. destruct Hopen as (? & ? & ? & ? & ?).
      split_and!; try done. by rewrite Hf.
  - assert (order <> []) as Hne.
    { eapply update_nonempty; [done..|]. intros ->. discriminate Heq. }
    split; cbn [fst snd].
    + split; cbn; [apply Hs..|]. intros o' [= <-]. unfold open_ok. cbn.
      split_and!; try done; try lia. split; [lia|done].
    + eexists. unfold ApplyRead. cbn [arCommitted foldl arLive arMetrics].
      unfold append_closed. rewrite app_nil_r, trim_unlimited by apply Hc.
      replace (mkClient _ _ _ _ _ _ _ _ _ _) with c by (by destruct c).
      rewrite (apply_live_header _ _ _ _ Hopen Hver Hf). split; [done|].
      destruct Hc. split; try (cbn; unfold header; by case_bool_decide).
      * change (clOpenLT (header c o) <= top). rewrite H1. lia.
      * intros o' [= <-]. unfold open_sync. cbn -[header]. rewrite bool_decide_eq_false_2 by done.
        split_and!; done || lia.
Qed.

Lemma shown_in s m : m ∈ shown s -> m ∈ svClosed s.
Proof. unfold shown. rewrite !list_elem_of_In, List.filter_In. tauto. Qed.

Lemma shown_snoc s m open subs next :
  shown (mkServer (svClosed s ++ [m]) open subs next) =
  shown s ++ (if has_nodes m then [m] else []).
Proof. unfold shown. cbn [svClosed]. rewrite List.filter_app. cbn. by destruct (has_nodes m). Qed.

Lemma shown_below s lt :
  Forall (fun m => mLT m < lt) (svClosed s) -> Forall (fun m => mLT m < lt) (shown s).
Proof. rewrite !Forall_forall. intros H m Hm. by apply H, shown_in. Qed.

Lemma filter_sorted (p : Message -> bool) l :
  StronglySorted Z.lt (map mLT l) -> StronglySorted Z.lt (map mLT (List.filter p l)).
Proof.
  induction l as [|m l IH]; cbn; [done|]. intros [Hs Hm]%StronglySorted_inv.
  destruct (p m); [|by apply IH]. cbn. constructor; [by apply IH|].
  rewrite Forall_map in *. rewrite Forall_forall in *. intros x Hx. apply Hm.
  revert Hx. rewrite !list_elem_of_In, List.filter_In. tauto.
Qed.

Lemma not_seen top s c lt :
  synced top s c -> Forall (fun m => mLT m < lt) (svClosed s) -> lt ∉ clSeen c.
Proof.
  intros Hc Hlt%shown_below. rewrite (sy_seen _ _ _ Hc), elem_of_list_to_set.
  intros (m & -> & Hm)%list_elem_of_fmap. rewrite Forall_forall in Hlt. apply Hlt in Hm. lia.
Qed.

Lemma shown_last_below s lt :
  Forall (fun m => mLT m < lt) (svClosed s) -> 0 < lt -> shown_last s < lt.
Proof.
  intros H%shown_below Hlt. unfold shown_last. destruct (last (shown s)) as [m|] eqn:E; [|lia].
  apply last_Some_elem_of in E. rewrite Forall_forall in H. by apply H.
Qed.

(** The client after it finalized a message. *)
Definition finalize (c : Client) (m : Message) (reset : bool) : Client :=
  let c := advanceCommitted (mark_seen c (mLT m)) (mLT m) in
  append_closed (if reset then resetOpen c else c) [m].

Lemma sync_finalize top s c m m' reset :
  server_ok top s -> synced top s c -> Forall (fun m' => mLT m' < mLT m) (svClosed s) ->
  0 < mLT m -> has_nodes m = true -> erase_msg m = erase_msg m' ->
  synced (Z.max top (mLT m)) (mkServer (svClosed s ++ [m]) None (svSubs s) (svNextID s))
    (finalize c m' reset).
Proof.
  intros Hs Hc Hlt Hpos Hn He. assert (mLT m' = mLT m) as Hm by (by injection He).
  destruct Hc as [H1 H2 H3 H4 H5 H6 H7]. unfold finalize.
  assert (clLast c < mLT m) as Hl by (rewrite H5; by apply shown_last_below).
  pose proof (so_top _ _ Hs).
  split; destruct reset; cbn -[shown shown_last]; rewrite ?Hm; try done; try lia.
  1,2: rewrite shown_snoc, Hn, !map_app, H1; cbn; by rewrite He.
  1,2: rewrite shown_snoc, Hn, H2, map_app, list_to_set_app_L; cbn; set_solver.
  1,2: unfold shown_last; rewrite shown_snoc, Hn, last_snoc; case_match; bool_hyps; lia.
Qed.

(** The desyncs among the callbacks. *)
Definition is_desync (e : event) : bool := match e with OnDesync _ => true | _ => false end.
Definition desyncs (evs : list event) : nat := length (List.filter is_desync evs).

Lemma desyncs_app evs1 evs2 : desyncs (evs1 ++ evs2) = (desyncs evs1 + desyncs evs2)%nat.
Proof. unfold desyncs. by rewrite List.filter_app, length_app. Qed.

(** The close marker of a unit without nodes: the client does not hold it and
    desyncs, its state unchanged. *)
Lemma sync_empty_close top s c lt role v :
  server_ok top s -> synced top s c -> lt <= top -> clOpenLT c <> lt ->
  exists c' evs, ApplyRead c (mkAriaRead [mkCommitted lt v [] None] None None) = Some (c', evs) /\
    desyncs evs = 1%nat /\
    synced top (mkServer (svClosed s ++ [mkMessage lt role None]) None (svSubs s) (svNextID s)) c'.
Proof.
  intros Hs Hc Hlt Hopen. unfold ApplyRead. cbn [arCommitted foldl arLive arMetrics apply_committed
    cmNodes cmLT cmV]. rewrite (proj2 (Z.eqb_neq _ _)) by done. cbn [andb].
  unfold append_closed. rewrite app_nil_r, trim_unlimited by apply Hc.
  replace (mkClient _ _ _ _ _ _ _ _ _ _) with c by (by destruct c).
  assert (0 <= clLast c) as Hl.
  { rewrite (sy_last _ _ _ Hc). unfold shown_last.
    destruct (last (shown s)) as [m|] eqn:E; [|lia].
    apply last_Some_elem_of, shown_in in E. pose proof (so_closed _ _ Hs) as H.
    rewrite Forall_forall in H. apply H in E. lia. }
  eexists c, _. split; [reflexivity|]. rewrite (proj2 (Z.leb_le _ _) Hl). split; [done|].
  assert (shown (mkServer (svClosed s ++ [mkMessage lt role None]) None (svSubs s) (svNextID s))
    = shown s) as E by (rewrite shown_snoc; apply app_nil_r).
  destruct Hc. split; unfold shown_last; rewrite ?E; try done.
Qed.

(** A close marker, on both sides. *)
Lemma sync_close top s c :
  server_ok top s -> synced top s c ->
  server_ok top (fst (Close s)) /\
  match snd (Close s) with
  | Some r => exists c' evs, ApplyRead c r = Some (c', evs) /\
      desyncs evs = empty_close s OpClose /\ synced top (fst (Close s)) c'
  | None => synced top (fst (Close s)) c
  end.
Proof.
  intros Hs Hc. unfold Close, empty_close. destruct (svOpen s) as [o|] eqn:Eo; [|done].
  destruct (so_open _ _ Hs _ Eo) as (Hlt & Hlts & _ & _ & _ & Hver & Hver0).
  pose proof (sy_open _ _ _ Hc _ Eo) as Hopen. unfold open_sync in Hopen.
  case_bool_decide as Hop.
  { split; cbn [fst snd].
    - replace top with (Z.max top (omLT o)) by lia. apply closed_snoc; done || lia.
    - unfold open_nodes. rewrite Hop. cbn [mLT]. apply sync_empty_close; done || lia. } destruct Hopen as (H1 & H2 & H3 & H4 & H5).
  assert (open_nodes o = Some (map (fun id => default zero_Node (omBlock o !! id)) (omOrder o)))
    as Hnodes by (unfold open_nodes; by destruct (omOrder o)).
  assert (omVer o <> 0) by (by intros ?%Hver). rewrite Hnodes.
  replace top with (Z.max top (omLT o)) by lia. split; cbn [fst snd].
  - apply closed_snoc; done || lia.
  - unfold ApplyRead. cbn [arCommitted foldl arLive arMetrics apply_committed cmNodes cmLT cmV mLT].
    rewrite H1, H5, Z.eqb_refl. rewrite (proj2 (Z.eqb_eq _ _)) by (case_match; bool_hyps; lia).
    cbn [andb]. rewrite bool_decide_eq_false_2 by (by eapply not_seen).
    cbn [app]. rewrite trim_unlimited by apply Hc. eexists _, _. split; [done|]. split.
    + done.
    + refine (sync_finalize _ _ _ (mkMessage _ _ (Some _)) (mkMessage _ _ _) true Hs Hc Hlts _ _ _).
      * cbn. lia.
      * done.
      * unfold erase_msg. cbn. rewrite H2. f_equal. f_equal.
        by rewrite (openNodes_sync _ _ H3 H4), erase_erase.
Qed.

(** A committed snapshot folded by a client that has finalized [acc] in the
    same frame. *)
Lemma apply_snapshot top s c m acc :
  synced top s (append_closed c acc) -> server_ok top s ->
  Forall (fun m' => mLT m' < mLT m) (svClosed s) -> 0 < mLT m -> is_Some (mNodes m) ->
  exists c', apply_committed (c, acc, -1) (snapshot_of m) = (c', acc ++ [m], -1) /\
  append_closed c' (acc ++ [m]) = finalize (append_closed c acc) m (mLT m =? clOpenLT c) /\
  (clOpenLT c' = clOpenLT c \/ clOpenLT c' = 0).
Proof.
  intros Hc Hs Hlt Hpos [nodes Hn]. unfold snapshot_of. cbn. rewrite Hn.
  unfold seenClosed. pose proof (sy_floor _ _ _ Hc) as Hfl. cbn in Hfl.
  rewrite Hfl, (proj2 (Z.ltb_ge _ _)) by lia. cbn [orb].
  rewrite bool_decide_eq_false_2 by (by eapply (not_seen _ _ _ _ Hc)).
  assert (mkMessage (mLT m) (mRole m) (Some nodes) = m) as ->.
  { destruct m; cbn in *. by rewrite Hn. }
  change (clOpenLT (mark_seen c (mLT m))) with (clOpenLT c).
  destruct (mLT m =? clOpenLT c); (eexists; split; [reflexivity|]);
    unfold finalize, append_closed; cbn; (split; [by rewrite app_assoc|by auto]).
Qed.

(** One committed snapshot, in a frame of its own. *)
Lemma sync_snapshot top s c m :
  server_ok top s -> synced top s c -> svOpen s = None ->
  Forall (fun m' => mLT m' < mLT m) (svClosed s) -> 0 < mLT m -> is_Some (mNodes m) ->
  let s' := mkServer (svClosed s ++ [m]) None (svSubs s) (svNextID s) in
  server_ok (Z.max top (mLT m)) s' /\
  exists c' evs, ApplyRead c (mkAriaRead [snapshot_of m] None None) = Some (c', evs) /\
    desyncs evs = 0%nat /\ synced (Z.max top (mLT m)) s' c'.
Proof.
  intros Hs Hc Ho Hlts Hpos Hn s'.
  assert (append_closed c [] = c) as Hnil by (unfold append_closed; rewrite app_nil_r; by destruct c).
  destruct (apply_snapshot top s c m []) as (c' & Hap & Hfin & _); rewrite ?Hnil; try done.
  rewrite Hnil in Hfin. split.
  - destruct m as [lt role ns]. cbn in *. apply closed_snoc; done || lia.
  - pose proof (sync_finalize top s c m m (mLT m =? clOpenLT c) Hs Hc Hlts Hpos
      ltac:(unfold has_nodes; by destruct Hn as [? ->]) eq_refl) as Hsy.
    unfold ApplyRead. cbn [arCommitted foldl arLive arMetrics]. rewrite Hap.
    cbn [app] in *. rewrite Hfin, trim_unlimited by apply Hsy.
    eexists _, _. split; [done|]. split; [done|]. exact Hsy.
Qed.

Lemma sync_commit top s c m :
  server_ok top s -> synced top s c -> op_ok top s (OpCommit m) ->
  server_ok (mLT m) (fst (Commit s m)) /\
  exists c' evs, ApplyRead c (mkAriaRead [snapshot_of m] None None) = Some (c', evs) /\
    desyncs evs = 0%nat /\ synced (mLT m) (fst (Commit s m)) c'.
Proof.
  intros Hs Hc (Ho & Hlt & Hn). pose proof (so_top _ _ Hs).
  assert (Forall (fun m' => mLT m' < mLT m) (svClosed s)) as Hlts by (by eapply Forall_closed).
  replace (mLT m) with (Z.max top (mLT m)) by lia.
  unfold Commit. rewrite Ho. apply sync_snapshot; done || lia.
Qed.

Lemma sync_mono top top' s c : synced top s c -> top <= top' -> synced top' s c.
Proof. intros [] ?. split; done || lia. Qed.
Lemma server_mono top top' s : server_ok top s -> top <= top' -> server_ok top' s.
Proof.
  intros [H1 H2 H3 H4] ?. split; [done| |lia|].
  - eapply Forall_impl; [exact H2|]. simpl. lia.
  - intros o Ho. destruct (H4 o Ho) as (? & ?). split; [lia|done].
Qed.

Lemma follow_app st fs1 fs2 :
  foldl follow st (fs1 ++ fs2) = foldl follow (foldl follow st fs1) fs2.
Proof. apply foldl_app. Qed.

Lemma follow_events c evs0 fs :
  foldl follow (Some (c, evs0)) fs =
  '(c', evs) ← foldl follow (Some (c, [])) fs; Some (c', evs0 ++ evs).
Proof.
  revert c evs0. induction fs as [|f fs IH]; intros c evs0; cbn [foldl].
  { cbn. by rewrite app_nil_r. }
  unfold follow at 2 4. cbn [mbind option_bind]. destruct (ApplyRead c f) as [[c1 e1]|]; cbn.
  - rewrite IH, (IH c1 e1). destruct (foldl follow (Some (c1, [])) fs) as [[c2 e2]|]; cbn; [|done].
    by rewrite app_assoc.
  - clear IH. by induction fs.
Qed.

(** The client follows [fs] into step with [s], with [n] desyncs. *)
Definition follows (top : Z) (s : Server) (c : Client) (fs : list AriaRead) (n : nat) : Prop :=
  exists c' evs, foldl follow (Some (c, [])) fs = Some (c', evs) /\ desyncs evs = n /\ synced top s c'.

Lemma follows_nil top s c : synced top s c -> follows top s c [] 0.
Proof. intros. by exists c, []. Qed.

Lemma follows_one top s c r n :
  (exists c' evs, ApplyRead c r = Some (c', evs) /\ desyncs evs = n /\ synced top s c') ->
  follows top s c [r] n.
Proof. intros (c' & evs & Hap & Hd & Hc). exists c', evs. cbn. by rewrite Hap. Qed.

Lemma follows_app top1 s1 top2 s2 c fs1 fs2 n1 n2 :
  follows top1 s1 c fs1 n1 -> (forall c1, synced top1 s1 c1 -> follows top2 s2 c1 fs2 n2) ->
  follows top2 s2 c (fs1 ++ fs2) (n1 + n2).
Proof.
  intros (c1 & e1 & Hf1 & Hd1 & Hc1) H2. destruct (H2 c1 Hc1) as (c2 & e2 & Hf2 & Hd2 & Hc2).
  exists c2, (e1 ++ e2). rewrite follow_app, Hf1, follow_events, Hf2. cbn.
  by rewrite desyncs_app, Hd1, Hd2.
Qed.

(** ** A reconciliation *)

Lemma synced_ext top s s' c :
  synced top s c -> map erase_msg (shown s') = map erase_msg (shown s) -> svOpen s' = None ->
  synced top s' c.
Proof.
  intros [] E Ho. assert (map mLT (shown s') = map mLT (shown s)) as Elt.
  { assert (forall l, map mLT l = map mLT (map erase_msg l)) as H
      by (intros l; by rewrite map_map). by rewrite H, E, <- H. }
  assert (shown_last s' = shown_last s) as El.
  { unfold shown_last. apply (f_equal last) in Elt. rewrite !fmap_last in Elt.
    by destruct (last (shown s)), (last (shown s')); simplify_eq/=. }
  split; rewrite ?E, ?Elt, ?El, ?Ho; done.
Qed.

Lemma shown_all s : Forall (fun m => is_Some (mNodes m)) (svClosed s) -> shown s = svClosed s.
Proof.
  intros H. apply filter_all. eapply Forall_impl; [exact H|]. unfold has_nodes. by intros m [? ->].
Qed.

Lemma consecutive_sorted (l : list Message) :
  map mLT l = map Z.of_nat (seq 1 (length l)) ->
  StronglySorted Z.lt (map mLT l) /\ Forall (fun m => 0 < mLT m <= glen l) l.
Proof.
  intros E. split.
  - rewrite E. clear E. generalize 1%nat. induction (length l) as [|n IH]; intros k; cbn; [constructor|].
    constructor; [apply IH|]. rewrite Forall_map. apply Forall_forall. intros x Hx.
    apply list_elem_of_In, in_seq in Hx. lia.
  - assert (Forall (fun x => 0 < x <= glen l) (map mLT l)) as H by
      (rewrite E, Forall_map; apply Forall_forall; intros x Hx;
       apply list_elem_of_In, in_seq in Hx; unfold glen; lia).
    by rewrite Forall_map in H.
Qed.

Lemma filter_split (old : Z) (l : list Message) :
  StronglySorted Z.lt (map mLT l) ->
  List.filter (fun m => negb (old <? mLT m)) l ++ List.filter (fun m => old <? mLT m) l = l.
Proof.
  induction l as [|m l IH]; cbn; [done|]. intros [Hs Hm]%StronglySorted_inv.
  destruct (Z.ltb_spec old (mLT m)) as [H|H]; cbn; [|by rewrite IH].
  rewrite filter_none, filter_all; [done|..]; rewrite Forall_map in Hm;
    (eapply Forall_impl; [exact Hm|]); cbn; intros x ?; [apply Z.ltb_lt|]; try lia.
Qed.

Lemma sync_snapshots top s c new :
  server_ok top s -> synced top s c -> svOpen s = None ->
  StronglySorted Z.lt (map mLT (svClosed s ++ new)) ->
  Forall (fun m => 0 < mLT m <= top /\ is_Some (mNodes m)) new ->
  follows top (mkServer (svClosed s ++ new) None (svSubs s) (svNextID s)) c
    (map (fun m => mkAriaRead [snapshot_of m] None None) new) 0.
Proof.
  revert s c. induction new as [|m new IH]; intros s c Hs Hc Ho Hsort Hnew.
  { rewrite app_nil_r. apply follows_nil. destruct s; cbn in *; by subst. }
  apply Forall_cons in Hnew as [[Hm Hn] Hnew]. rewrite cons_middle, app_assoc in Hsort.
  assert (Forall (fun m' => mLT m' < mLT m) (svClosed s)) as Hlts.
  { apply Forall_forall. intros a Ha. rewrite map_app in Hsort.
    rewrite <- (take_drop 1 new) in Hsort. clear -Hsort Ha. rewrite map_app in Hsort.
    cbn in Hsort. induction (svClosed s) as [|x l IH]; [by apply not_elem_of_nil in Ha|].
    cbn in Hsort. apply StronglySorted_inv in Hsort as [Hs Hx].
    apply elem_of_cons in Ha as [->|Ha]; [|by apply IH].
    rewrite Forall_forall in Hx. apply Hx. set_solver. }
  destruct (sync_snapshot top s c m Hs Hc Ho Hlts ltac:(lia) Hn) as [Hs1 H1].
  rewrite Z.max_l in Hs1, H1 by lia.
  change (map _ (m :: new)) with ([mkAriaRead [snapshot_of m] None None] ++
    map (fun m => mkAriaRead [snapshot_of m] None None) new).
  apply (follows_app top _ top _ _ _ _ 0 0 (follows_one _ _ _ _ _ H1)).
  intros c1 Hc1. pose proof (IH _ c1 Hs1 Hc1 eq_refl) as H. cbn in H.
  rewrite <- app_assoc in H, Hsort. by apply H.
Qed.

Lemma sync_blank top s c lt role :
  synced top s c -> svOpen s = None -> lt <= top ->
  follows top s c [mkAriaRead [] (Some (mkLive lt 0 role [])) None] 0.
Proof.
  intros Hc Ho Hlt. apply follows_one. unfold ApplyRead. cbn [arCommitted foldl arLive arMetrics].
  unfold append_closed. rewrite app_nil_r, trim_unlimited by apply Hc.
  replace (mkClient _ _ _ _ _ _ _ _ _ _) with c by (by destruct c).
  unfold apply_live. cbn [lvLT lvRole lvNodes lvV foldl mbind option_bind].
  eexists _, _. split; [reflexivity|]. split; [done|].
  destruct Hc. rewrite Ho in *.
  split; try (by repeat case_match); repeat case_match; cbn in *; bool_hyps; try lia; by rewrite Ho.
Qed.

Lemma sync_reconcile top s c history :
  server_ok top s -> synced top s c -> op_ok top s (OpReconcile history) ->
  let top' := op_top top s (OpReconcile history) in
  server_ok top' (Restore s history) /\
  follows top' (Restore s history) c (reconcile_frames s history) 0.
Proof.
  intros Hs Hc (Hlt & Hn & Hold) top'. pose proof (consecutive_sorted _ Hlt) as [Hsort Hpos].
  assert (top <= top' /\ glen history + (if blank_frame s history then 1 else 0) <= top') as [Ht Hb]
    by (unfold top'; cbn; lia).
  pose proof (so_top _ _ Hs). clearbody top'.
  assert (glen history <= top') as Hlen by (case_match; lia).
  set (old := LastCommittedLT s) in *. set (l0 := List.filter (fun m => negb (old <? mLT m)) history).
  pose proof (filter_split old _ Hsort) as Hsplit. fold l0 in Hsplit.
  assert (forall l, StronglySorted Z.lt (map mLT l) -> Forall (fun m => 0 < mLT m <= glen history) l ->
    server_ok top' (mkServer l None (svSubs s) (svNextID s))) as Hok.
  { intros l H1 H2. split; cbn; try done; [|lia]. eapply Forall_impl; [exact H2|]. cbn. lia. }
  split; [by apply Hok|].
  assert (forall P, Forall P history -> Forall P l0) as Hl0.
  { intros P. unfold l0. rewrite !Forall_forall. intros Hall x Hx. apply Hall.
    revert Hx. rewrite !list_elem_of_In, List.filter_In. tauto. }
  set (s0 := mkServer l0 None (svSubs s) (svNextID s)).
  assert (synced top' s0 c) as Hc0.
  { apply (synced_ext _ s); [by eapply sync_mono| |done].
    rewrite shown_all by (by apply Hl0). exact Hold. }
  unfold reconcile_frames. apply (follows_app top' (Restore s history) top' _ _ _ _ 0 0).
  - assert (Restore s history =
      mkServer (svClosed s0 ++ List.filter (fun m => old <? mLT m) history) None (svSubs s0) (svNextID s0))
      as -> by (unfold Restore, s0; cbn [svClosed svSubs svNextID]; by rewrite Hsplit).
    apply sync_snapshots; [by apply Hok; [apply filter_sorted|apply Hl0]|done|done| |].
    + change (StronglySorted Z.lt (map mLT (l0 ++ List.filter (fun m => old <? mLT m) history))).
      by rewrite Hsplit.
    + apply Forall_forall. intros m Hm. rewrite list_elem_of_In, List.filter_In in Hm.
      destruct Hm as [Hm%list_elem_of_In _]. rewrite Forall_forall in Hpos, Hn. split; [|by apply Hn].
      specialize (Hpos _ Hm). lia.
  - intros c1 Hc1. destruct (blank_frame s history); [|by apply follows_nil].
    apply sync_blank; done || lia.
Qed.

(** One call of the agent, followed by the client. *)
Lemma sync_op top s c o :
  server_ok top s -> synced top s c -> op_ok top s o ->
  server_ok (op_top top s o) (fst (run_op s o)) /\
  follows (op_top top s o) (fst (run_op s o)) c (snd (run_op s o)) (empty_close s o).
Proof.
  intros Hs Hc Hop. destruct o as [lt role|nodes| | |m|history]; cbn [run_op op_top].
  - cbn in *. split.
    + pose proof (so_top _ _ Hs). pose proof (Forall_closed _ _ _ Hs Hop) as Hlts.
      apply (server_mono _ lt) in Hs; [|lia]. destruct Hs as [H1 H2 H3 H4].
      split; cbn; try done. intros o [= <-]. unfold open_ok. cbn.
      split_and!; try done; try lia. constructor.
    + apply follows_nil. destruct Hc. split; cbn; try done; [lia|].
      intros o [= <-]. unfold open_sync. cbn. lia.
  - destruct (sync_update top s c nodes Hs Hc Hop) as [H1 H2]. split; [done|].
    unfold opt_frames. cbn [fst snd empty_close]. destruct (snd (Update s nodes)).
    + destruct H2 as (c' & Hap & Hsy). apply follows_one. by eexists _, _.
    + by apply follows_nil.
  - destruct (sync_close top s c Hs Hc) as [H1 H2]. split; [done|].
    unfold opt_frames. cbn [fst snd]. destruct (Close s) as [s' [r|]] eqn:E; cbn [fst snd] in *.
    + by apply follows_one.
    + unfold Close, empty_close in *. destruct (svOpen s); [done|]. by apply follows_nil.
  - split.
    + destruct Hs. by split.
    + apply follows_nil. destruct Hc. by split.
  - destruct (sync_commit top s c m Hs Hc Hop) as (H1 & H2).
    split; [done|]. by apply follows_one.
  - by apply sync_reconcile.
Qed.

(** A client in step stays in step through any trace. *)
Lemma sync_run top s c ops :
  server_ok top s -> synced top s c -> trace_ok top s ops ->
  server_ok (tops top s ops) (fst (run s ops)) /\
  follows (tops top s ops) (fst (run s ops)) c (snd (run s ops)) (empty_closes s ops).
Proof.
  revert top s c. induction ops as [|o ops IH]; intros top s c Hs Hc Hops; cbn [run tops empty_closes].
  { split; [done|]. by apply follows_nil. }
  destruct Hops as [Hop Hops].
  destruct (sync_op top s c o Hs Hc Hop) as (Hs1 & Hf1).
  assert (forall c1, synced (op_top top s o) (fst (run_op s o)) c1 ->
    server_ok (tops (op_top top s o) (fst (run_op s o)) ops) (fst (run (fst (run_op s o)) ops)) /\
    follows (tops (op_top top s o) (fst (run_op s o)) ops) (fst (run (fst (run_op s o)) ops)) c1
      (snd (run (fst (run_op s o)) ops)) (empty_closes (fst (run_op s o)) ops)) as H2
    by (intros c1 Hc1; by apply IH).
  destruct (run_op s o) as [s1 f]. cbn [fst snd] in *.
  destruct (run s1 ops) as [s2 fs]. cbn [fst snd] in *. split.
  - destruct Hf1 as (c1 & _ & _ & _ & Hc1). by apply (H2 c1).
  - eapply follows_app; [exact Hf1|]. intros c1 Hc1. by apply H2.
Qed.

Lemma server_init : server_ok 0 NewServer.
Proof. split; cbn; [constructor|constructor|done|done]. Qed.
Lemma client_init : synced 0 NewServer NewClient.
Proof. by split. Qed.

(** ** Catching up with a Read *)

Definition no_reconcile (o : op) : bool := match o with OpReconcile _ => false | _ => true end.

Lemma run_op_closed s o :
  no_reconcile o = true -> exists new, svClosed (fst (run_op s o)) = svClosed s ++ new.
Proof.
  destruct o; cbn; unfold Update, Close; intros Hr; try (exists []; by rewrite app_nil_r).
  - destruct (svOpen s); [|exists []; by rewrite app_nil_r].
    destruct (update_loop _ _ _) as [[order block] ds].
    destruct (length ds =? 0)%nat; exists []; by rewrite app_nil_r.
  - destruct (svOpen s); cbn; [by eexists|exists []; by rewrite app_nil_r].
  - by eexists.
Qed.

Lemma run_closed s ops :
  forallb no_reconcile ops = true -> exists new, svClosed (fst (run s ops)) = svClosed s ++ new.
Proof.
  revert s. induction ops as [|o ops IH]; intros s; cbn.
  { exists []. by rewrite app_nil_r. }
  intros [Ho Hr]%andb_true_iff.
  destruct (run_op_closed s o Ho) as [n1 H1]. destruct (run_op s o) as [s1 f].
  destruct (IH s1 Hr) as [n2 H2]. destruct (run s1 ops) as [s2 fs]. cbn in *.
  exists (n1 ++ n2). by rewrite H2, H1, app_assoc.
Qed.

(** The open message of a later state is the same message or a newer one. *)
Lemma run_op_open top s o o1 :
  op_ok top s o -> svOpen (fst (run_op s o)) = Some o1 ->
  (exists o0, svOpen s = Some o0 /\ omLT o0 = omLT o1) \/ top < omLT o1.
Proof.
  destruct o; cbn; unfold Update, Close; intros Hop.
  - intros [= <-]. cbn. lia.
  - destruct (svOpen s) as [o|] eqn:E; cbn; [|by rewrite E].
    destruct (update_loop _ _ _) as [[order block] ds].
    destruct (length ds =? 0)%nat; intros [= <-]; eauto.
  - destruct (svOpen s) eqn:E; cbn; [done|]. by rewrite E.
  - done.
  - eauto.
  - done.
Qed.

Lemma op_top_le top s o : op_ok top s o -> top <= op_top top s o.
Proof. destruct o; cbn; lia. Qed.

Lemma tops_le top s ops : trace_ok top s ops -> top <= tops top s ops.
Proof.
  revert top s. induction ops as [|o ops IH]; intros top s; cbn; [lia|].
  intros [Ho Hops]. apply IH in Hops. pose proof (op_top_le _ _ _ Ho). lia.
Qed.

Lemma run_open top s ops o1 :
  trace_ok top s ops -> svOpen (fst (run s ops)) = Some o1 ->
  (exists o0, svOpen s = Some o0 /\ omLT o0 = omLT o1) \/ top < omLT o1.
Proof.
  revert top s. induction ops as [|o ops IH]; intros top s; cbn; [eauto|].
  intros [Ho Hops]. pose proof (run_op_open top s o) as Hstep.
  pose proof (op_top_le _ _ _ Ho) as Htop.
  specialize (IH _ _ Hops).
  destruct (run_op s o) as [s1 f]. cbn [fst] in *.
  destruct (run s1 ops) as [s2 fs]. cbn in *. intros H1.
  destruct (IH H1) as [(o0 & E0 & E)|]; [|lia].
  destruct (Hstep _ Ho E0) as [(o' & ? & ?)|]; [|lia]. left. exists o'. by rewrite <- E.
Qed.

(** The committed part of a Read: the messages above the cursor. *)
Lemma filter_above (l0 new : list Message) (cur : Z) :
  Forall (fun m => mLT m <= cur) l0 -> Forall (fun m => cur < mLT m) new ->
  List.filter (fun m => negb (mLT m <=? cur)) (l0 ++ new) = new.
Proof.
  intros H0 H1. rewrite List.filter_app.
  replace (List.filter _ l0) with (@nil Message); cbn [app].
  - induction H1 as [|m new Hm _ IH]; cbn; [done|].
    by rewrite (proj2 (Z.leb_gt _ _) Hm), IH.
  - induction H0 as [|m l0 Hm _ IH]; cbn; [done|]. by rewrite (proj2 (Z.leb_le _ _) Hm).
Qed.

Lemma sorted_split (l0 new : list Message) :
  StronglySorted Z.lt (map mLT (l0 ++ new)) ->
  StronglySorted Z.lt (map mLT l0) /\ StronglySorted Z.lt (map mLT new) /\
  forall a b, a ∈ l0 -> b ∈ new -> mLT a < mLT b.
Proof.
  induction l0 as [|m l0 IH]; cbn; intros H.
  { split; [constructor|]. split; [done|]. set_solver. }
  apply StronglySorted_inv in H as [H Hm]. apply IH in H as (H0 & H1 & H2).
  rewrite Forall_map, Forall_app in Hm. destruct Hm as [Hm0 Hm1].
  split; [constructor; [done|by apply Forall_map]|]. split; [done|].
  intros a b [->|Ha]%elem_of_cons Hb; [|by apply H2]. rewrite Forall_forall in Hm1. by apply Hm1.
Qed.

Lemma sorted_cursor s :
  StronglySorted Z.lt (map mLT (svClosed s)) ->
  Forall (fun m => mLT m <= LastCommittedLT s) (svClosed s).
Proof.
  unfold LastCommittedLT. destruct (svClosed s) as [|m l _] using rev_ind; [constructor|].
  rewrite last_snoc. intros (_ & _ & H)%sorted_split. apply Forall_app. split.
  - apply Forall_forall. intros a Ha. apply Z.lt_le_incl, H; set_solver.
  - by apply Forall_singleton.
Qed.

Lemma snapshots_sync top top1 new s c acc :
  server_ok top s -> svOpen s = None -> synced top s (append_closed c acc) ->
  StronglySorted Z.lt (map mLT (svClosed s ++ new)) ->
  Forall (fun m => 0 < mLT m <= top1 /\ is_Some (mNodes m)) new -> top <= top1 ->
  exists c', foldl apply_committed (c, acc, -1) (map snapshot_of new) = (c', acc ++ new, -1) /\
    synced top1 (mkServer (svClosed s ++ new) None (svSubs s) (svNextID s))
      (append_closed c' (acc ++ new)) /\
    (clOpenLT c' = clOpenLT c \/ clOpenLT c' = 0).
Proof.
  revert top s c acc. induction new as [|m new IH]; intros top s c acc Hs Ho Hc Hsort Hnew Htop.
  { exists c. rewrite !app_nil_r. split; [done|]. split; [|by left].
    apply (sync_mono top); [|done]. by destruct s; cbn in *; subst. }
  apply Forall_cons in Hnew as [[Hm [nodes Hn]] Hnew]. cbn [map foldl].
  rewrite cons_middle, app_assoc in Hsort.
  assert (Forall (fun m' => mLT m' < mLT m) (svClosed s)) as Hlts.
  { apply Forall_forall. intros a Ha.
    rewrite <- app_assoc in Hsort. apply sorted_split in Hsort as (_ & _ & H).
    apply H; [done|]. by apply list_elem_of_here. }
  destruct (apply_snapshot top s c m acc) as (c1 & Hap & Hfin & Hopen);
    [done..|lia|by eexists|]. rewrite Hap.
  pose proof (sync_finalize top s _ m m (mLT m =? clOpenLT c) Hs Hc Hlts ltac:(lia)
    ltac:(unfold has_nodes; by rewrite Hn) eq_refl) as Hsy.
  rewrite <- Hfin in Hsy.
  destruct (IH (Z.max top (mLT m)) (mkServer (svClosed s ++ [m]) None (svSubs s) (svNextID s))
    c1 (acc ++ [m])) as (c' & Hf & Hsy' & Hopen'); cbn; try done; [|lia|].
  - destruct m as [lt role ns]; cbn in *; subst ns. apply closed_snoc; done || lia.
  - cbn in Hf, Hsy'. rewrite <- !app_assoc in Hf. rewrite <- (app_assoc acc), <- app_assoc in Hsy'. exists c'. split; [exact Hf|].
    split; [exact Hsy'|].
    destruct Hopen as [E|E], Hopen' as [E'|E']; rewrite E', ?E; tauto.
Qed.

Lemma fullSets_fold (B : gmap gostr Node) l c :
  NoDup l -> (forall id, id ∈ l -> clOpenBlock c !! id = None) ->
  exists blk,
    foldl apply_node (Some c) (map (fun id => fullSet id (default zero_Node (B !! id))) l)
      = Some (with_blocks c (clOpenOrder c ++ l) blk) /\
    forall id, blk !! id = if decide (id ∈ l) then Some (erase (default zero_Node (B !! id)))
                           else clOpenBlock c !! id.
Proof.
  revert c. induction l as [|id l IH]; intros c Hnd Hno; cbn [map foldl].
  { exists (clOpenBlock c). rewrite app_nil_r. split; [by destruct c|]. intros id.
    by rewrite decide_False by apply not_elem_of_nil. }
  apply NoDup_cons in Hnd as [Hid Hnd]. unfold apply_node at 2. cbn [mbind option_bind].
  change (ndID (fullSet id _)) with id. rewrite (Hno id) by set_solver.
  change (default zero_Node None) with zero_Node. rewrite fullSet_fold. cbn [mbind option_bind].
  set (n := erase (default zero_Node (B !! id))).
  match goal with |- context [Some (mkClient _ _ _ _ _ _ _ _ ?o ?b)] =>
    destruct (IH (with_blocks c o b)) as (blk & Hf & Hblk) end; [done| |].
  { intros k Hk. cbn. rewrite lookup_insert_ne by (intros ->; done). apply Hno; set_solver. }
  exists blk. cbn in Hf. rewrite <- app_assoc in Hf. split; [exact Hf|].
  intros k. rewrite Hblk. cbn. destruct (decide (k = id)) as [->|Hne].
  - rewrite decide_False by done. rewrite lookup_insert_eq, decide_True by set_solver. done.
  - rewrite lookup_insert_ne by done. apply decide_ext. set_solver.
Qed.

Lemma read_live c o v :
  dom (omBlock o) = list_to_set (omOrder o) -> NoDup (omOrder o) -> clOpenLT c <> omLT o ->
  exists c', apply_live c (mkLive (omLT o) v (omRole o)
      (map (fun id => fullSet id (default zero_Node (omBlock o !! id))) (omOrder o))) = Some c' /\
    c' = mkClient (clClosed c) (clSeen c) (clFloor c) (clLimit c) (clLast c) (omLT o) (omRole o)
      v (omOrder o) (erase <$> omBlock o).
Proof.
  intros Hdom Hnd Hlt. unfold apply_live. cbn [lvLT lvRole lvNodes lvV].
  rewrite (proj2 (Z.eqb_neq _ _)) by done.
  set (c0 := if bool_decide (omRole o = []) then _ else _).
  assert (c0 = set_open c (omLT o) (omRole o)) as -> by (subst c0; by case_bool_decide).
  destruct (fullSets_fold (omBlock o) (omOrder o) (set_open c (omLT o) (omRole o)))
    as (blk & -> & Hblk); [done|by intros|].
  eexists. split; [reflexivity|]. unfold set_v. cbn. f_equal. apply map_eq. intros id.
  rewrite Hblk, lookup_fmap. case_decide as Hid.
  - rewrite <- (elem_of_list_to_set (C := gset gostr)), <- Hdom in Hid.
    apply elem_of_dom in Hid as [n ->]. done.
  - rewrite <- (elem_of_list_to_set (C := gset gostr)), <- Hdom in Hid.
    apply not_elem_of_dom in Hid as ->. done.
Qed.

Lemma sync_read top top1 s c s1 new :
  server_ok top s -> synced top s c -> server_ok top1 s1 -> top <= top1 ->
  svClosed s1 = svClosed s ++ new -> Forall (fun m => is_Some (mNodes m)) (svClosed s1) ->
  (forall o1, svOpen s1 = Some o1 -> clOpenLT c <> omLT o1) ->
  exists c' evs, ApplyRead c (Read s1 (clLast c)) = Some (c', evs) /\ desyncs evs = 0%nat /\
    synced top1 s1 c'.
Proof.
  intros Hs Hc Hs1 Htop Hcl Hall Hopen.
  assert (shown_last s = LastCommittedLT s) as Hlast.
  { unfold shown_last, LastCommittedLT. rewrite shown_all; [done|].
    rewrite Hcl in Hall. by apply Forall_app in Hall as [? _]. }
  unfold ApplyRead, Read. cbn [arCommitted arLive arMetrics].
  pose proof (so_sorted _ _ Hs1) as Hsort. pose proof (so_closed _ _ Hs1) as Hmem.
  pose proof (proj2 (Forall_and _ _) (conj Hmem Hall)) as Hboth. clear Hmem.
  rewrite Hcl in Hsort, Hboth. apply Forall_app in Hboth as [_ Hmem].
  assert (List.filter (fun m => negb (mLT m <=? clLast c)) (svClosed s1) = new) as ->.
  { rewrite Hcl, (sy_last _ _ _ Hc), Hlast. apply filter_above; [apply sorted_cursor, Hs|].
    apply sorted_split in Hsort as (_ & _ & Hlt). apply Forall_forall. intros b Hb.
    unfold LastCommittedLT. destruct (last (svClosed s)) as [a|] eqn:E.
    - apply Hlt; [|done]. by apply last_Some_elem_of.
    - rewrite Forall_forall in Hmem. by apply Hmem. }
  set (s0 := mkServer (svClosed s) None (svSubs s) (svNextID s)).
  assert (append_closed c [] = c) as Hnil by (unfold append_closed; rewrite app_nil_r; by destruct c).
  destruct (snapshots_sync top top1 new s0 c []) as (c1 & -> & Hc1 & Hlt1); try done.
  { destruct Hs. by split. }
  { rewrite Hnil. destruct Hc. by split. }
  rewrite trim_unlimited by apply Hc1. cbn [app] in *. set (c2 := append_closed c1 new) in *.
  assert (forall o1, svOpen s1 = Some o1 -> clOpenLT c2 <> omLT o1) as Hopen2.
  { intros o1 Ho1. destruct (so_open _ _ Hs1 _ Ho1) as [? _].
    unfold c2. cbn. destruct Hlt1 as [->| ->]; [by apply Hopen|lia]. }
  assert (desyncs (map OnClosed new) = 0%nat) as Hq by (clear; by induction new).
  cbn [s0 svClosed svSubs svNextID] in Hc1. subst s0. cbn in Hc1. rewrite <- Hcl in Hc1.
  destruct (svOpen s1) as [o1|] eqn:Ho1; cycle 1.
  { eexists _, _. cbn. split; [reflexivity|]. rewrite app_nil_r. split; [done|].
    destruct Hc1. split; try done. by rewrite Ho1. }
  destruct (so_open _ _ Hs1 _ Ho1) as (Hlt & Hlts & _ & Hnd & Hdom & Hver & Hver0).
  destruct (Nat.ltb_spec 0 (length (omOrder o1))) as [Hlen|Hlen]; cycle 1.
  { eexists _, _. cbn. split; [reflexivity|]. rewrite app_nil_r. split; [done|].
    destruct Hc1. split; try done. intros o' Ho'. rewrite Ho1 in Ho'. injection Ho' as <-.
    unfold open_sync. rewrite bool_decide_eq_true_2; [by apply Hopen2|].
    apply nil_length_inv. lia. }
  set (v := if omVer o1 - 1 <? 0 then 0 else omVer o1 - 1).
  destruct (read_live c2 o1 v Hdom Hnd) as (c3 & -> & ->); [by apply Hopen2|].
  eexists _, _. cbn [mbind option_bind]. split; [reflexivity|]. split.
  { by rewrite desyncs_app, Hq. }
  assert (omOrder o1 <> []) as Hne by (intros E; rewrite E in Hlen; cbn in Hlen; lia).
  assert (omVer o1 <> 0) by (by intros ?%Hver).
  destruct Hc1. split; try done; [cbn; lia|]. intros o' Ho'. rewrite Ho1 in Ho'. injection Ho' as <-.
  unfold open_sync. rewrite bool_decide_eq_false_2 by done. cbn. split_and!; try done.
  subst v. case_match; bool_hyps; lia.
Qed.

(** ** Properties *)

(** What the client displays, against the server: the closed messages with
    nodes (up to the node ids and versions live frames do not carry), the
    cursor, and the open message once it has nodes. *)
Definition shows (c : Client) (s : Server) : Prop :=
  map erase_msg (fst (View c)) = map erase_msg (shown s) /\
  clLast c = shown_last s /\
  forall o, svOpen s = Some o -> omOrder o <> [] ->
    snd (View c) = Some (mkMessage (omLT o) (omRole o) (map erase <$> open_nodes o)).

Lemma sort_sorted l : StronglySorted Z.lt (map mLT l) -> sort_stable l = l.
Proof.
  induction l as [|m l IH]; [done|]. intros [Hs Hm]%StronglySorted_inv.
  change (sort_stable (m :: l)) with (insert_stable m (sort_stable l)). rewrite IH by done. destruct l as [|x l]; [done|]. cbn.
  apply Forall_inv in Hm. by rewrite (proj2 (Z.ltb_ge _ _)) by lia.
Qed.

Lemma synced_shows top s c : server_ok top s -> synced top s c -> shows c s.
Proof.
  intros Hs Hc. unfold shows, View. cbn [fst snd].
  assert (map mLT (clClosed c) = map mLT (shown s)) as Hlt.
  { assert (forall l, map mLT l = map mLT (map erase_msg l)) as E
      by (intros l; by rewrite map_map).
    by rewrite E, (sy_closed _ _ _ Hc), <- E. }
  rewrite sort_sorted by (rewrite Hlt; apply filter_sorted, Hs).
  split; [apply Hc|]. split; [apply Hc|]. intros o Ho Hne.
  destruct (so_open _ _ Hs _ Ho) as [Hpos _].
  pose proof (sy_open _ _ _ Hc _ Ho) as Hopen. unfold open_sync in Hopen.
  rewrite bool_decide_eq_false_2 in Hopen by done. destruct Hopen as (H1 & H2 & H3 & H4 & _).
  rewrite H1, H2, (proj2 (Z.eqb_neq _ _)), (openNodes_sync _ _ H3 H4) by lia.
  unfold open_nodes. by destruct (omOrder o).
Qed.

(** C1: a client that follows a server from its start.  The agent opens or
    commits units at fresh LTs, closes them with or without nodes, abandons
    them, and reconciles its server with a history that numbers the units from 1
    and agrees with what was shown up to the last committed LT; text lengths are
    machine integers.  Then every frame applies without a panic, the client
    reports one desync per unit closed without nodes and no other, and it shows
    the server's messages that have nodes. *)
Theorem aria_follow (ops : list op) (Hops : trace_ok 0 NewServer ops) :
  exists c evs, foldl follow (Some (NewClient, [])) (snd (run NewServer ops)) = Some (c, evs) /\
    desyncs evs = empty_closes NewServer ops /\ shows c (fst (run NewServer ops)).
Proof.
  destruct (sync_run _ _ _ _ server_init client_init Hops) as (Hs & c & evs & Hf & Hq & Hc).
  exists c, evs. split; [done|]. split; [done|]. by eapply synced_shows.
Qed.

Lemma catch_up ops0 ops1 :
  trace_ok 0 NewServer (ops0 ++ ops1) ->
  let s0 := fst (run NewServer ops0) in
  let s1 := fst (run NewServer (ops0 ++ ops1)) in
  let top1 := tops 0 NewServer (ops0 ++ ops1) in
  forallb no_reconcile ops1 = true -> Forall (fun m => is_Some (mNodes m)) (svClosed s1) ->
  (forall o0 o1, svOpen s0 = Some o0 -> svOpen s1 = Some o1 -> omLT o0 <> omLT o1) ->
  forall c, synced (tops 0 NewServer ops0) s0 c ->
  exists c' evs, ApplyRead c (Read s1 (clLast c)) = Some (c', evs) /\ desyncs evs = 0%nat /\
    server_ok top1 s1 /\ synced top1 s1 c'.
Proof.
  cbn zeta. intros Hops Hrec Hall Hopen c Hc. pose proof Hops as Hfull.
  apply trace_ok_app in Hops as [H0 H1].
  destruct (sync_run _ _ _ _ server_init client_init H0) as (Hs0 & _).
  destruct (sync_run _ _ _ _ server_init client_init Hfull) as (Hs1 & _).
  pose proof (run_closed (fst (run NewServer ops0)) ops1 Hrec) as [new Hnew].
  pose proof (fun o1 => run_open _ _ _ o1 H1) as Hlater. apply tops_le in H1.
  rewrite tops_app in *. rewrite run_app in *. destruct (run NewServer ops0) as [s0 f0]. cbn [fst] in *.
  destruct (run s0 ops1) as [s1 f1]. cbn [fst] in *.
  destruct (sync_read _ _ _ _ _ _ Hs0 Hc Hs1 H1 Hnew Hall) as (c' & evs & ? & ? & ?);
    [|by exists c', evs].
  intros o1 Ho1 Heq. pose proof (sy_stale _ _ _ Hc).
  destruct (Hlater o1 Ho1) as [(o0 & Ho0 & ?)|?]; [|lia].
  by apply (Hopen o0 o1).
Qed.

(** C15: catching up: a client that followed a server under the calls of the
    agent (C1) up to a point, missed every frame of [ops1], and then applied one
    Read from its cursor shows what the server holds, without a desync, and goes
    on as a follower does; provided the unit open at the Read is not the one it
    missed the frames of, every message the Read covers was closed with nodes,
    and no reconciliation happened among the missed calls.  With [ops0] empty it
    is a client that joins late. *)
Theorem aria_catch_up (ops0 ops1 ops2 : list op)
    (Hops : trace_ok 0 NewServer (ops0 ++ ops1 ++ ops2))
    (Hrec : forallb no_reconcile ops1 = true)
    (Hall : Forall (fun m => is_Some (mNodes m)) (svClosed (fst (run NewServer (ops0 ++ ops1)))))
    (Hopen : forall o0 o1,
      svOpen (fst (run NewServer ops0)) = Some o0 ->
      svOpen (fst (run NewServer (ops0 ++ ops1))) = Some o1 -> omLT o0 <> omLT o1) :
  let s1 := fst (run NewServer (ops0 ++ ops1)) in
  exists c0 evs0 c1 evs1 c2 evs2,
    foldl follow (Some (NewClient, [])) (snd (run NewServer ops0)) = Some (c0, evs0) /\
    ApplyRead c0 (Read s1 (clLast c0)) = Some (c1, evs1) /\ desyncs evs1 = 0%nat /\ shows c1 s1 /\
    foldl follow (Some (c1, [])) (snd (run s1 ops2)) = Some (c2, evs2) /\
    desyncs evs2 = empty_closes s1 ops2 /\ shows c2 (fst (run s1 ops2)).
Proof.
  cbn zeta. rewrite app_assoc in Hops. apply trace_ok_app in Hops as [H01 H2].
  pose proof H01 as H0. apply trace_ok_app in H0 as [H0 _].
  destruct (sync_run _ _ _ _ server_init client_init H0) as (_ & c0 & evs0 & Hf0 & Hq0 & Hc0).
  destruct (catch_up _ _ H01 Hrec Hall Hopen c0 Hc0) as (c1 & evs1 & Hap & Hq1 & Hs1 & Hc1).
  destruct (sync_run _ _ _ _ Hs1 Hc1 H2) as (Hs2 & c2 & evs2 & Hf2 & Hq2 & Hc2).
  exists c0, evs0, c1, evs1, c2, evs2. split_and!; try done; by eapply synced_shows.
Qed.

(** A turn: a prompt, then an answer that streams text and a tool output;
    an answer that ends without a node; a crash, after which the server is
    rebuilt from the log. *)
Definition text_node (md : gostr) : Node :=
  mkNode #"prose" 0 md [] [] None [] [] [] 0 0.
Definition tool_node (status output : gostr) : Node :=
  mkNode #"tool" 1 [] #"t1" #"bash" (Some [(#"command", JStr #"ls")]) status output [] 5 0.
Definition turn_ops : list op :=
  [OpOpen 1 #"user"; OpUpdate [text_node #"hi"]; OpClose;
   OpOpen 2 #"assistant"; OpUpdate [text_node #"he"];
   OpUpdate [text_node #"hello"; tool_node #"running" #"a"];
   OpUpdate [text_node #"hello"; tool_node #"done" #"ab"]].
Definition crash_ops : list op :=
  turn_ops ++ [OpReconcile [mkMessage 1 #"user" (Some [text_node #"hi"]);
                            mkMessage 2 #"assistant" (Some [text_node #"hello"])];
               OpOpen 3 #"user"; OpUpdate [text_node #"go on"]; OpClose;
               OpOpen 4 #"assistant"; OpClose].

(** The discipline, decided (but for reconciliations). *)
Definition node_okb (n : Node) : bool :=
  (glen (nMarkdown n) <? 2 ^ 63) && (glen (nOutput n) <? 2 ^ 63).
Definition op_okb (top : Z) (s : Server) (o : op) : bool :=
  match o with
  | OpOpen lt _ => top <? lt
  | OpUpdate nodes => forallb node_okb nodes
  | OpClose | OpAbandon => true
  | OpCommit m => match svOpen s, mNodes m with None, Some _ => top <? mLT m | _, _ => false end
  | OpReconcile _ => false
  end.
Fixpoint trace_okb (top : Z) (s : Server) (ops : list op) : bool :=
  match ops with
  | [] => true
  | o :: ops' => op_okb top s o && trace_okb (op_top top s o) (fst (run_op s o)) ops'
  end.

Lemma node_okb_ok n : node_okb n = true -> node_ok n.
Proof.
  unfold node_okb, node_ok, int64_ok. intros. bool_hyps.
  pose proof (glen_nonneg (nMarkdown n)). pose proof (glen_nonneg (nOutput n)). lia.
Qed.

Lemma trace_okb_ok top s ops : trace_okb top s ops = true -> trace_ok top s ops.
Proof.
  revert top s. induction ops as [|o ops IH]; intros top s; cbn [trace_ok trace_okb]; [done|].
  intros [Ho Hops]%andb_true_iff. split; [|by apply IH]. clear IH Hops.
  destruct o; cbn in *; bool_hyps; try done.
  - apply Forall_forall. intros n Hn. rewrite forallb_forall in Ho.
    apply node_okb_ok, Ho. by apply list_elem_of_In.
  - destruct (svOpen s), (mNodes m) eqn:E; try done. bool_hyps. by eauto.
Qed.

Lemma turn_ops_ok : trace_ok 0 NewServer turn_ops.
Proof. by apply trace_okb_ok. Qed.

Lemma crash_ops_ok : trace_ok 0 NewServer crash_ops.
Proof.
  apply trace_ok_app. split; [exact turn_ops_ok|]. split.
  - split; [done|]. split; [by repeat constructor|]. by vm_compute.
  - by apply trace_okb_ok.
Qed.

(** The crash after the answer and the empty answer after it. *)
Lemma aria_follow_witness :
  trace_ok 0 NewServer crash_ops /\ empty_closes NewServer crash_ops = 1%nat /\
  exists c evs, foldl follow (Some (NewClient, [])) (snd (run NewServer crash_ops)) = Some (c, evs) /\
    desyncs evs = empty_closes NewServer crash_ops /\ shows c (fst (run NewServer crash_ops)).
Proof. split; [exact crash_ops_ok|]. split; [done|]. exact (aria_follow crash_ops crash_ops_ok). Defined.

(** The next turn, missed except for its last update. *)
Definition missed_ops : list op :=
  [OpClose; OpOpen 3 #"user"; OpUpdate [text_node #"more"]; OpClose;
   OpOpen 4 #"assistant"; OpUpdate [text_node #"so"]].
Definition rest_ops : list op := [OpUpdate [text_node #"sound"]].

Lemma aria_catch_up_witness :
  let s1 := fst (run NewServer (turn_ops ++ missed_ops)) in
  exists c0 evs0 c1 evs1 c2 evs2,
    foldl follow (Some (NewClient, [])) (snd (run NewServer turn_ops)) = Some (c0, evs0) /\
    ApplyRead c0 (Read s1 (clLast c0)) = Some (c1, evs1) /\ desyncs evs1 = 0%nat /\ shows c1 s1 /\
    foldl follow (Some (c1, [])) (snd (run s1 rest_ops)) = Some (c2, evs2) /\
    desyncs evs2 = empty_closes s1 rest_ops /\ shows c2 (fst (run s1 rest_ops)).
Proof.
  refine (aria_catch_up turn_ops missed_ops rest_ops _ eq_refl _ _).
  - by apply trace_okb_ok.
  - assert (forallb has_nodes (svClosed (fst (run NewServer (turn_ops ++ missed_ops)))) = true) as H
      by done.
    apply Forall_forall. intros m Hm%list_elem_of_In. rewrite forallb_forall in H.
    apply H in Hm. unfold has_nodes in Hm. by destruct (mNodes m).
  - intros o0 o1 H0 H1.
    assert (omLT <$> svOpen (fst (run NewServer turn_ops)) = Some 2) as E0 by done.
    assert (omLT <$> svOpen (fst (run NewServer (turn_ops ++ missed_ops))) = Some 4) as E1 by done.
    rewrite H0 in E0. rewrite H1 in E1. cbn in E0, E1. injection E0 as ->. injection E1 as ->. lia.
Defined.

(** ** Pages of history *)

Lemma mLT_sorted (l : list Message) i j a b :
  StronglySorted Z.lt (map mLT l) -> l !! i = Some a -> l !! j = Some b -> (i <= j)%nat ->
  mLT a <= mLT b.
Proof.
  revert i j. induction l as [|m l IH]; intros i j; [done|]. intros [Hs Hm]%StronglySorted_inv.
  change (Forall (Z.lt (mLT m)) (map mLT l)) in Hm.
  rewrite Forall_map, Forall_lookup in Hm.
  destruct i as [|i], j as [|j]; cbn; intros Ha Hb Hij; try lia.
  - by simplify_eq.
  - simplify_eq. apply Hm in Hb. cbn in Hb. lia.
  - apply (IH i j); done || lia.
Qed.

(** A page of history: the last [limit] closed messages below the given LT. *)
Theorem aria_read_before (s : Server) (beforeLT limit : Z)
    (Hs : StronglySorted Z.lt (map mLT (svClosed s))) (Hb : 0 < beforeLT) (Hl : 0 < limit) :
  let older := List.filter (fun m => mLT m <? beforeLT) (svClosed s) in
  ReadBefore s beforeLT limit =
  Some (mkAriaRead (map snapshot_of (drop (length older - Z.to_nat limit) older)) None None).
Proof.
  cbn zeta. unfold ReadBefore. rewrite (proj2 (Z.leb_gt _ _) Hb), (proj2 (Z.leb_gt _ _) Hl).
  cbn [orb]. set (f := fun i : nat => _). destruct (search_spec (length (svClosed s)) f) as (H1 & H2 & H3).
  { intros i j Hij. subst f. cbn. destruct (svClosed s !! i) as [a|] eqn:Ea; [|done].
    destruct (lookup_lt_is_Some_2 (svClosed s) j) as [b Eb]; [lia|]. rewrite Eb.
    pose proof (mLT_sorted _ _ _ _ _ Hs Ea Eb). intros. bool_hyps. apply Z.leb_le. lia. }
  set (hi := search _ f) in *.
  assert (List.filter (fun m => mLT m <? beforeLT) (svClosed s) = take hi (svClosed s)) as ->.
  { rewrite <- (take_drop hi (svClosed s)) at 1. rewrite List.filter_app, filter_all, filter_none.
    - apply app_nil_r.
    - apply Forall_lookup. intros i m Hm. rewrite lookup_drop in Hm. apply Z.ltb_ge.
      pose proof (lookup_lt_Some _ _ _ Hm). specialize (H3 (hi + i)%nat ltac:(lia)).
      subst f. cbn in H3. rewrite Hm in H3. by bool_hyps.
    - apply Forall_lookup. intros i m [Hm Hi]%lookup_take_Some. apply Z.ltb_lt.
      specialize (H2 i Hi). subst f. cbn in H2. rewrite Hm in H2. by bool_hyps. }
  rewrite length_take, Nat.min_l by done.
  replace (if Z.of_nat hi - limit <? 0 then 0 else Z.of_nat hi - limit)
    with (Z.of_nat (hi - Z.to_nat limit)) by (case_match; bool_hyps; lia).
  rewrite slice_mid by lia. cbn. do 3 f_equal. by rewrite skipn_firstn_comm || by rewrite drop_take_drop.
Qed.

Lemma aria_read_before_witness :
  let s := fst (run NewServer (turn_ops ++ missed_ops)) in
  ReadBefore s 4 2 =
  let older := List.filter (fun m => mLT m <? 4) (svClosed s) in
  Some (mkAriaRead (map snapshot_of (drop (length older - Z.to_nat 2) older)) None None).
Proof.
  cbn zeta. apply (aria_read_before _ 4 2); [|lia|lia].
  apply (so_sorted (tops 0 NewServer (turn_ops ++ missed_ops))).
  apply (sync_run _ _ _ _ server_init client_init). by apply trace_okb_ok.
Defined.

(** ** Any frames at all *)

Lemma apply_nodes_total nds c : exists c',
  foldl apply_node (Some c) nds = Some c' /\ clClosed c' = clClosed c /\ clSeen c' = clSeen c /\
  clLimit c' = clLimit c.
Proof.
  revert c. induction nds as [|nd nds IH]; intros c; cbn [foldl]; [by exists c|].
  unfold apply_node at 2. cbn [mbind option_bind]. rewrite foldDelta_spec. cbn [mbind option_bind].
  match goal with |- context [foldl _ (Some ?c1) nds] => destruct (IH c1) as (c' & -> & ? & ? & ?) end.
  by exists c'.
Qed.

Lemma apply_live_total c f : exists c',
  apply_live c f = Some c' /\ clClosed c' = clClosed c /\ clSeen c' = clSeen c /\
  clLimit c' = clLimit c.
Proof.
  unfold apply_live. set (c1 := if bool_decide _ then _ else _).
  assert (clClosed c1 = clClosed c /\ clSeen c1 = clSeen c /\ clLimit c1 = clLimit c) as (H1 & H2 & H3).
  { subst c1. by repeat case_match. }
  destruct (apply_nodes_total (lvNodes f) c1) as (c' & -> & E1 & E2 & E3).
  eexists. split; [reflexivity|]. cbn. by rewrite E1, E2, E3.
Qed.

(** The messages a list of callbacks finalizes. *)
Fixpoint finalized (evs : list event) : list Message :=
  match evs with
  | [] => []
  | OnClosed m :: evs' => m :: finalized evs'
  | _ :: evs' => finalized evs'
  end.

Lemma finalized_app evs1 evs2 : finalized (evs1 ++ evs2) = finalized evs1 ++ finalized evs2.
Proof. induction evs1 as [|[] evs1 IH]; cbn; by rewrite ?IH. Qed.
Lemma finalized_closed ms : finalized (map OnClosed ms) = ms.
Proof. induction ms; cbn; congruence. Qed.

(** Apply, whatever the frame: it never panics; what it finalizes is what its
    committed section adds. *)
Lemma ApplyRead_total c r : exists c1 fin d c' evs,
  foldl apply_committed (c, [], -1) (arCommitted r) = (c1, fin, d) /\
  ApplyRead c r = Some (c', evs) /\ finalized evs = fin /\
  clClosed c' = clClosed (trimClosed (append_closed c1 fin)) /\
  clSeen c' = clSeen (trimClosed (append_closed c1 fin)) /\
  clLimit c' = clLimit (trimClosed (append_closed c1 fin)).
Proof.
  unfold ApplyRead. destruct (foldl apply_committed _ _) as [[c1 fin] d].
  set (c2 := trimClosed _). exists c1, fin, d.
  assert (exists c' live, match arLive r with
    | None => Some (c2, [])
    | Some f => c ← apply_live c2 f; Some (c, [OnLive (clOpenLT c) (clOpenRole c) (openNodes c)])
    end = Some (c', live) /\ finalized live = [] /\ clClosed c' = clClosed c2 /\
    clSeen c' = clSeen c2 /\ clLimit c' = clLimit c2) as (c' & live & -> & Hl & H1 & H2 & H3).
  { destruct (arLive r) as [f|]; [|by exists c2, []].
    destruct (apply_live_total c2 f) as (c' & -> & ? & ? & ?). by eexists _, _. }
  eexists c', _. split; [done|]. split; [reflexivity|]. split; [|done].
  rewrite !finalized_app, finalized_closed, Hl, app_nil_l.
  destruct (arMetrics r), (0 <=? d); cbn; by rewrite app_nil_r.
Qed.

(** One committed entry finalizes at most one message, of an LT not seen. *)
Lemma committed_step c fin d cm c1 fin1 d1 :
  apply_committed (c, fin, d) cm = (c1, fin1, d1) ->
  clClosed c1 = clClosed c /\ clLimit c1 = clLimit c /\
  (fin1 = fin /\ clSeen c1 = clSeen c \/
   exists m, fin1 = fin ++ [m] /\ (mLT m ∉ clSeen c) /\ clSeen c1 = {[mLT m]} ∪ clSeen c).
Proof.
  unfold apply_committed, seenClosed. destruct (cmNodes cm) as [nodes|].
  - destruct (_ || _) eqn:E; intros H; injection H as <- <- <-; cbn.
    + destruct (_ =? _); cbn; tauto.
    + bool_hyps. split; [by destruct (_ =? _)|]. split; [by destruct (_ =? _)|].
      right. eexists. cbn. split; [done|]. split; [done|]. by destruct (_ =? _).
  - destruct (_ && _); [|intros H; injection H as <- <- <-; tauto].
    case_bool_decide; intros H1; injection H1 as <- <- <-; cbn; [tauto|].
    split; [done|]. split; [done|]. right. by eexists.
Qed.

Lemma committed_once c fin d cms c1 fin1 d1 :
  foldl apply_committed (c, fin, d) cms = (c1, fin1, d1) ->
  clClosed c1 = clClosed c /\ clLimit c1 = clLimit c /\
  (NoDup (map mLT (clClosed c ++ fin)) ->
   (forall m, m ∈ clClosed c ++ fin -> mLT m ∈ clSeen c) ->
   NoDup (map mLT (clClosed c ++ fin1)) /\
   (forall m, m ∈ clClosed c ++ fin1 -> mLT m ∈ clSeen c1)).
Proof.
  revert c fin d. induction cms as [|cm cms IH]; intros c fin d; cbn [foldl].
  { by intros [= <- <- _]. }
  destruct (apply_committed (c, fin, d) cm) as [[c2 fin2] d2] eqn:E. intros H.
  apply IH in H as (H1 & H2 & H3). apply committed_step in E as (E1 & E2 & E3).
  rewrite E1 in H1, H3. rewrite E2 in H2. split; [done|]. split; [done|]. intros Hnd Hseen.
  apply H3; destruct E3 as [[-> Es]|(m & -> & Hm & Es)]; rewrite ?Es, ?app_assoc; try done.
  - rewrite map_app, NoDup_app. split; [done|]. split; [|by apply NoDup_singleton].
    intros x Hx ->%list_elem_of_singleton. apply list_elem_of_fmap in Hx as (m' & E & Hx).
    apply Hm. rewrite E. by apply Hseen.
  - intros m' [Hm'| ->%list_elem_of_singleton]%elem_of_app; [|set_solver].
    apply elem_of_union_r. by apply Hseen.
Qed.

(** Whatever frames arrive (duplicated, reordered, from a resync), a client
    that keeps its whole history never panics, finalizes at most one message per
    LT, and what it has finalized is what it holds closed. *)
Theorem aria_client_once (frames : list AriaRead) :
  exists c evs, foldl follow (Some (NewClient, [])) frames = Some (c, evs) /\
    NoDup (map mLT (finalized evs)) /\ clClosed c = finalized evs.
Proof.
  enough (exists c evs, foldl follow (Some (NewClient, [])) frames = Some (c, evs) /\
    NoDup (map mLT (clClosed c)) /\ clClosed c = finalized evs /\ clLimit c = 0 /\
    (forall m, m ∈ clClosed c -> mLT m ∈ clSeen c)) as (c & evs & ? & Hnd & E & _).
  { exists c, evs. by rewrite <- E. }
  induction frames as [|r frames IH] using rev_ind.
  { exists NewClient, []. repeat split; try constructor. intros m Hm. inversion Hm. }
  destruct IH as (c & evs & Hf & Hnd & E & Hlim & Hseen).
  rewrite follow_app, Hf. cbn [foldl]. unfold follow. cbn [mbind option_bind].
  destruct (ApplyRead_total c r) as (c1 & fin & d & c' & evs' & Hcm & -> & Hfin & H1 & H2 & H3).
  apply committed_once in Hcm as (K1 & K2 & K3).
  rewrite trim_unlimited in H1, H2, H3 by (cbn; congruence). cbn in H1, H2, H3.
  rewrite app_nil_r in K3. destruct K3 as [K3 K4]; [done..|].
  eexists _, _. split; [reflexivity|]. rewrite H1, H2, H3, K1, K2, finalized_app, Hfin, E.
  rewrite E in K3, K4. done.
Qed.

Lemma sort_stable_perm l : sort_stable l ≡ₚ l.
Proof.
  induction l as [|m l IH]; [done|].
  change (sort_stable (m :: l)) with (insert_stable m (sort_stable l)).
  rewrite <- IH at 2. clear IH. induction (sort_stable l) as [|x k IH]; cbn; [done|].
  destruct (mLT x <? mLT m); [|done]. rewrite IH. constructor.
Qed.

Lemma sort_stable_sorted l : StronglySorted (fun a b => mLT a <= mLT b) (sort_stable l).
Proof.
  induction l as [|m l IH]; [constructor|].
  change (sort_stable (m :: l)) with (insert_stable m (sort_stable l)).
  induction IH as [|x k Hs IH Hx]; cbn; [repeat constructor|].
  destruct (Z.ltb_spec (mLT x) (mLT m)).
  - constructor; [done|]. apply Forall_forall. intros y Hy.
    assert ((insert_stable m k) ≡ₚ (m :: k)) as Hp.
    { clear. induction k as [|z k IH]; cbn; [done|]. destruct (mLT z <? mLT m); [|done].
      rewrite IH. constructor. }
    rewrite Hp in Hy. apply elem_of_cons in Hy as [->|Hy]; [lia|].
    rewrite Forall_forall in Hx. by apply Hx.
  - constructor; [by constructor|]. constructor; [done|].
    eapply Forall_impl; [exact Hx|]. cbn. lia.
Qed.

(** With a positive limit the client keeps at most that many closed
    messages, and drops only the lowest LTs. *)
Theorem aria_retention (c : Client) (r : AriaRead) (Hlim : 0 < clLimit c) :
  exists c' evs dropped, ApplyRead c r = Some (c', evs) /\
    glen (clClosed c') <= Z.max (clLimit c) 0 /\
    (dropped ++ clClosed c' ≡ₚ clClosed c ++ finalized evs) /\
    (forall a b, a ∈ dropped -> b ∈ clClosed c' -> mLT a <= mLT b).
Proof.
  destruct (ApplyRead_total c r) as (c1 & fin & d & c' & evs & Hcm & Hap & Hfin & H1 & _).
  apply committed_once in Hcm as (K1 & K2 & _). subst fin.
  unfold trimClosed in H1. cbn [clLimit clClosed append_closed] in H1. rewrite K1, K2 in H1.
  rewrite (proj2 (Z.leb_gt _ _) Hlim) in H1. cbn [orb] in H1.
  destruct (Z.leb_spec (glen (clClosed c ++ finalized evs)) (clLimit c)) as [Hle|Hgt]; cbn in H1.
  - exists c', evs, []. rewrite H1, K1. split; [done|]. split; [lia|]. split; [done|].
    intros a b Ha. by apply not_elem_of_nil in Ha.
  - set (l := sort_stable _) in H1. set (k := (length l - _)%nat) in H1.
    exists c', evs, (take k l). rewrite H1. split; [done|].
    assert (l ≡ₚ clClosed c ++ finalized evs) as Hp by apply sort_stable_perm.
    split. { unfold glen. rewrite length_drop. subst k. rewrite Hp.
      unfold glen in Hgt. lia. }
    split; [by rewrite take_drop|]. intros a b Ha Hb.
    pose proof (sort_stable_sorted (clClosed c ++ finalized evs)) as Hs. fold l in Hs.
    rewrite <- (take_drop k l) in Hs. clearbody k l. clear -Hs Ha Hb.
    induction (take k l) as [|x t IH]; [by apply not_elem_of_nil in Ha|].
    cbn in Hs. apply StronglySorted_inv in Hs as [Hs Hx].
    apply elem_of_cons in Ha as [->|Ha]; [|by apply IH].
    rewrite Forall_forall in Hx. apply Hx. apply elem_of_app. by right.
Qed.

Lemma aria_retention_witness :
  let c := SetClosedLimit NewClient 1 in
  let r := mkAriaRead (map snapshot_of [mkMessage 2 #"user" (Some []);
                                        mkMessage 1 #"user" (Some [])]) None None in
  0 < clLimit c /\
  exists c' evs dropped, ApplyRead c r = Some (c', evs) /\
    glen (clClosed c') <= Z.max (clLimit c) 0 /\
    (dropped ++ clClosed c' ≡ₚ clClosed c ++ finalized evs) /\
    (forall a b, a ∈ dropped -> b ∈ clClosed c' -> mLT a <= mLT b).
Proof. cbn zeta. split; [done|]. by apply aria_retention. Defined.

(** ** What the discipline excludes *)

(** A unit closed without nodes breaks recovery: a Read sends its entry
    without nodes, the client takes it for a marker it cannot match and desyncs
    again with its state unchanged, so re-reading from the cursor never ends. *)
Theorem aria_empty_close_loops (s : Server) (c : Client) (old : list Message) (lt : Z) (role : gostr)
    (Hcl : svClosed s = old ++ [mkMessage lt role None]) (Hopen : svOpen s = None)
    (Hold : Forall (fun m => mLT m <= clLast c) old) (Hlt : clLast c < lt) (Hcur : 0 <= clLast c)
    (Hc : clOpenLT c <> lt) (Hlim : clLimit c = 0) :
  ApplyRead c (Read s (clLast c)) = Some (c, [OnDesync (clLast c)]).
Proof.
  unfold Read. rewrite Hopen, Hcl, filter_above; [|done|by apply Forall_singleton].
  unfold ApplyRead. cbn [arCommitted arLive arMetrics map foldl apply_committed snapshot_of
    cmNodes cmLT cmV mLT mNodes mRole].
  rewrite (proj2 (Z.eqb_neq _ _) Hc). cbn [andb].
  assert (append_closed c [] = c) as -> by (unfold append_closed; rewrite app_nil_r; by destruct c).
  rewrite trim_unlimited by done. cbn. by rewrite (proj2 (Z.leb_le _ _) Hcur).
Qed.

Lemma aria_empty_close_loops_witness :
  let s := fst (run NewServer [OpOpen 1 #"assistant"; OpClose]) in
  ApplyRead NewClient (Read s (clLast NewClient)) = Some (NewClient, [OnDesync 0]).
Proof.
  cbn zeta. refine (aria_empty_close_loops _ NewClient [] 1 #"assistant" _ _ _ _ _ _ _); done || constructor.
Defined.

(** Applying is not idempotent: a text patch that arrives again (after the
    snapshot of a Read that already includes it) is spliced a second time. *)
Theorem aria_reapply_duplicates :
  let s0 := fst (run NewServer [OpOpen 1 #"assistant"; OpUpdate [text_node #"ab"]]) in
  let '(s1, frame) := Update s0 [text_node #"abc"] in
  (st ← foldl follow (Some (NewClient, [])) (Read s1 0 :: option_list frame);
   Some (map nMarkdown (openNodes (fst st)))) = Some [ #"abcc" ].
Proof. vm_compute. reflexivity. Qed.

(** What the discipline excludes of reconciliations: the history is numbered
    anew from 1, so after a unit that ended without nodes every later unit moves
    down by one LT; a unit moved to an LT the server had committed is not
    announced, and a client that followed never shows it. *)
Example reconcile_renumbers :
  let ops := [OpOpen 1 #"user"; OpUpdate [text_node #"hi"]; OpClose; OpOpen 2 #"assistant"; OpClose;
              OpOpen 3 #"user"; OpUpdate [text_node #"go on"]; OpClose;
              OpReconcile [mkMessage 1 #"user" (Some [text_node #"hi"]);
                           mkMessage 2 #"user" (Some [text_node #"go on"]);
                           mkMessage 3 #"assistant" (Some [text_node #"done"])]] in
  let '(s, frames) := run NewServer ops in
  let show m := (mLT m, map nMarkdown (default [] (mNodes m))) in
  (map show (svClosed s), (fun st => map show (clClosed st.1)) <$> foldl follow (Some (NewClient, [])) frames) =
  ([(1, [ #"hi"]); (2, [ #"go on"]); (3, [ #"done"])], Some [(1, [ #"hi"]); (3, [ #"go on"])]).
Proof. vm_compute. reflexivity. Qed.
