(* ===== verification/Inbox.v ===== *)
(** * figaro/inbox: the per-aria event queue (src/internal/figaro/inbox.go).

    The mutex makes each method atomic, so a method is a function of the queue.
    [wake] is the one-place channel the turn loop selects on. *)

From S2P Require Import Prelude Message Chalkboard.

(** ** State *)

(** event of figaro/agent.go; a fork's closure and channel are its number. *)
Inductive event :=
| eventUserPrompt (text : gostr) (chalkboard : option ChalkboardInput)
| eventSet (setPatch : Patch)
| eventFork (fork : nat).

Definition is_prompt (e : event) : bool := match e with eventUserPrompt _ _ => true | _ => false end.
Definition is_fork (e : event) : bool := match e with eventFork _ => true | _ => false end.

Record Inbox := mkInbox { queue : list event; wake : bool; closed : bool }.

Definition NewInbox : Inbox := mkInbox [] false false.

(** ** Operations *)

(** func (b *Inbox) Send *)
Definition Send (b : Inbox) (evt : event) : Inbox * bool :=
  if closed b then (b, false) else (mkInbox (queue b ++ [evt]) true (closed b), true).

(** What Recv answers: it blocks on an empty open queue. *)
Inductive received := RBlocked | RClosed | REvent (e : event).

(** func (b *Inbox) Recv *)
Definition Recv (b : Inbox) : Inbox * received :=
  match queue b with
  | [] => (b, if closed b then RClosed else RBlocked)
  | evt :: q => (mkInbox q (wake b) (closed b), REvent evt)
  end.

(** The counting loop: the length of the longest prefix satisfying [p]. *)
Fixpoint prefix_len (p : event -> bool) (q : list event) : nat :=
  match q with e :: q' => if p e then S (prefix_len p q') else 0%nat | [] => 0%nat end.

(** func (b *Inbox) signalReadyForkLocked *)
Definition signalReadyForkLocked (b : Inbox) : Inbox :=
  match queue b with
  | e :: _ => if is_fork e then mkInbox (queue b) true (closed b) else b
  | [] => b
  end.

(** func (b *Inbox) TakeReadyUserPrompts *)
Definition TakeReadyUserPrompts (b : Inbox) : Inbox * list event :=
  let n := prefix_len is_prompt (queue b) in
  (signalReadyForkLocked (mkInbox (drop n (queue b)) (wake b) (closed b)), take n (queue b)).

(** func (b *Inbox) TakeReadyForks *)
Definition TakeReadyForks (b : Inbox) : Inbox * list event :=
  let n := prefix_len is_fork (queue b) in
  (mkInbox (drop n (queue b)) (wake b) (closed b), take n (queue b)).

(** func (b *Inbox) Prepend *)
Definition Prepend (b : Inbox) (events : list event) : Inbox * bool :=
  match events with
  | [] => (b, true)
  | _ => if closed b then (b, false) else (mkInbox (events ++ queue b) true (closed b), true)
  end.

(** func (b *Inbox) IsIdle *)
Definition IsIdle (b : Inbox) : bool := bool_decide (queue b = []).

(** func (b *Inbox) Close *)
Definition Close (b : Inbox) : Inbox := mkInbox (queue b) (wake b) true.

(** A receive on Wake(): it takes the token when there is one. *)
Definition recvWake (b : Inbox) : option Inbox :=
  if wake b then Some (mkInbox (queue b) false (closed b)) else None.

(** What other goroutines may do to the inbox meanwhile: Send an event, or Close. *)
Definition other (b : Inbox) (o : option event) : Inbox :=
  match o with Some e => fst (Send b e) | None => Close b end.

(** serviceForks, woken through Wake (figaro/agent.go, figaro/turn.go): the
    receive and the take are two steps, and [between] is what others do in between. *)
Definition wakeServiceForks (between : list (option event)) (b : Inbox) : Inbox * list event :=
  match recvWake b with Some b => TakeReadyForks (foldl other b between) | None => (b, []) end.

(** ** Lemmas *)

Lemma prefix_len_spec p q :
  (prefix_len p q <= length q)%nat /\ Forall (fun e => p e = true) (take (prefix_len p q) q) /\
  match drop (prefix_len p q) q with e :: _ => p e = false | [] => True end.
Proof.
  induction q as [|e q IH]; cbn; [by repeat constructor|]. destruct (p e) eqn:E; cbn; [|split; [lia|by split; [constructor|]]].
  destruct IH as (? & ? & ?). split; [lia|]. by split; [constructor|].
Qed.

Definition fork_head (b : Inbox) : bool :=
  match queue b with e :: _ => is_fork e | [] => false end.

(** A fork at the head has its wake-up pending. *)
Definition fork_signalled (b : Inbox) : Prop := fork_head b = true -> wake b = true.

Lemma forks_taken b : fork_head (fst (TakeReadyForks b)) = false.
Proof.
  unfold TakeReadyForks, fork_head. cbn.
  destruct (prefix_len_spec is_fork (queue b)) as (_ & _ & H).
  by destruct (drop _ _).
Qed.

Lemma signal_queue b : queue (signalReadyForkLocked b) = queue b.
Proof. unfold signalReadyForkLocked. destruct (queue b) as [|e q] eqn:E; [done|]. by destruct (is_fork e). Qed.
Lemma signal_closed b : closed (signalReadyForkLocked b) = closed b.
Proof. unfold signalReadyForkLocked. destruct (queue b) as [|e q]; [done|]. by destruct (is_fork e). Qed.

(** ** Traces *)

(** Everything that can happen to an inbox: a client's Send, the drain loop's
    Recv, the turn's takes, its Prepend of events it took, a wake-up with what
    others do before it is acted on, Close. *)
Inductive op := OSend (e : event) | ORecv | OPrompts | OForks | OPrepend (es : list event)
  | OWake (between : list (option event)) | OClose.

Definition run_op (b : Inbox) (o : op) : Inbox * list event :=
  match o with
  | OSend e => (fst (Send b e), [])
  | ORecv => let '(b', r) := Recv b in (b', match r with REvent e => [e] | _ => [] end)
  | OPrompts => TakeReadyUserPrompts b
  | OForks => TakeReadyForks b
  | OPrepend es => (fst (Prepend b es), [])
  | OWake between => wakeServiceForks between b
  | OClose => (Close b, [])
  end.

Fixpoint run (b : Inbox) (ops : list op) : Inbox * list event :=
  match ops with
  | [] => (b, [])
  | o :: ops' => let '(b1, t1) := run_op b o in let '(b2, t2) := run b1 ops' in (b2, t1 ++ t2)
  end.

(** The events accepted into the queue, in order. *)
Fixpoint accepted_others (b : Inbox) (os : list (option event)) : list event :=
  match os with
  | [] => []
  | o :: os' =>
      match o with Some e => if closed b then [] else [e] | None => [] end ++ accepted_others (other b o) os'
  end.

Definition accepted_op (b : Inbox) (o : op) : list event :=
  match o with
  | OSend e => if closed b then [] else [e]
  | OWake between => match recvWake b with Some b => accepted_others b between | None => [] end
  | _ => []
  end.

Fixpoint accepted (b : Inbox) (ops : list op) : list event :=
  match ops with
  | [] => []
  | o :: ops' => accepted_op b o ++ accepted (fst (run_op b o)) ops'
  end.

Definition no_prepend (o : op) : bool := match o with OPrepend _ => false | _ => true end.

Lemma others_queue b os : queue (foldl other b os) = queue b ++ accepted_others b os.
Proof.
  revert b. induction os as [|o os IH]; intros b; cbn; [by rewrite app_nil_r|]. rewrite IH.
  destruct o as [e|]; cbn [other]; [|done]. unfold Send. destruct (closed b); cbn; [done|]. by rewrite <-app_assoc.
Qed.

Lemma take_op_queue b o :
  no_prepend o = true ->
  queue b ++ accepted_op b o =
  snd (run_op b o) ++ queue (fst (run_op b o)).
Proof.
  destruct o as [e| | | |es|between|]; intros Ho; try discriminate; cbn [run_op accepted_op].
  - unfold Send. destruct (closed b); cbn; by rewrite ?app_nil_r.
  - unfold Recv. rewrite app_nil_r. destruct (queue b) eqn:E; cbn; [|done].
    rewrite E. by destruct (closed b).
  - unfold TakeReadyUserPrompts. cbn. rewrite signal_queue, app_nil_r. cbn. by rewrite take_drop.
  - unfold TakeReadyForks. cbn. by rewrite app_nil_r, take_drop.
  - unfold wakeServiceForks, recvWake, TakeReadyForks. destruct (wake b); cbn; [|by rewrite app_nil_r].
    by rewrite take_drop, others_queue.
  - cbn. by rewrite app_nil_r.
Qed.

(** First in, first out: as long as nothing is put back, the events that
    were accepted are exactly the ones taken so far followed by the queue, in
    the order of their Sends, whichever method took them. *)
Theorem inbox_fifo (b : Inbox) (ops : list op) (Hops : forallb no_prepend ops = true) :
  queue b ++ accepted b ops = snd (run b ops) ++ queue (fst (run b ops)).
Proof.
  revert b Hops. induction ops as [|o ops IH]; intros b Hops; cbn; [by rewrite app_nil_r|].
  cbn in Hops. apply andb_true_iff in Hops as [Ho Hops].
  pose proof (take_op_queue b o Ho) as Hq. rewrite app_assoc, Hq.
  destruct (run_op b o) as [b1 t1]. cbn in *. specialize (IH b1 Hops).
  destruct (run b1 ops) as [b2 t2]. cbn in *. by rewrite <- !app_assoc, IH.
Qed.

Definition ex_prompt (t : gostr) : event := eventUserPrompt t None.
Definition ex_ops : list op :=
  [OSend (ex_prompt #"a"); OSend (eventFork 1); OSend (ex_prompt #"b"); OPrompts; OWake [Some (eventFork 2)]; ORecv].

Lemma inbox_fifo_witness :
  forallb no_prepend ex_ops = true /\
  queue NewInbox ++ accepted NewInbox ex_ops =
  snd (run NewInbox ex_ops) ++ queue (fst (run NewInbox ex_ops)).
Proof. split; [done|]. by apply inbox_fifo. Defined.

(** A prompt never overtakes a control or fork event: TakeReadyUserPrompts
    takes exactly the prompts at the head, and putting back the ones that could
    not be persisted restores the queue, unless the inbox was closed. *)
Theorem inbox_prompts_restore (b : Inbox) (i : nat) :
  let '(b1, prompts) := TakeReadyUserPrompts b in
  Forall (fun e => is_prompt e = true) prompts /\
  match queue b1 with e :: _ => is_prompt e = false | [] => True end /\
  let '(b2, ok) := Prepend b1 (drop i prompts) in
  take i prompts ++ queue b2 = (if ok then queue b else take i prompts ++ queue b1) /\
  (ok = false -> closed b = true).
Proof.
  unfold TakeReadyUserPrompts. destruct (prefix_len_spec is_prompt (queue b)) as (_ & H1 & H2).
  set (n := prefix_len is_prompt (queue b)) in *. rewrite signal_queue. cbn [queue].
  split; [done|]. split; [done|]. unfold Prepend. rewrite signal_closed. cbn [closed].
  destruct (drop i (take n (queue b))) as [|e es] eqn:E.
  - rewrite signal_queue. cbn. split; [|done].
    assert (take i (take n (queue b)) = take n (queue b)) as ->.
    { rewrite <- (take_drop i (take n (queue b))) at 2. by rewrite E, app_nil_r. }
    by rewrite take_drop.
  - destruct (closed b); cbn; [by rewrite signal_queue|].
    split; [|done]. rewrite signal_queue. cbn. by rewrite app_comm_cons, <- E, app_assoc, !take_drop.
Qed.

(** What the turn does to the inbox between two rounds; Recv happens only
    between turns. *)
Definition turn_op (o : op) : bool := match o with ORecv => false | _ => true end.

Lemma signalled_step b o :
  turn_op o = true -> fork_signalled b -> fork_signalled (fst (run_op b o)).
Proof.
  destruct o as [e| | | |es|between|]; intros Ho Hb; try discriminate; cbn [run_op].
  - unfold Send. by destruct (closed b).
  - unfold TakeReadyUserPrompts, signalReadyForkLocked, fork_signalled, fork_head. cbn.
    destruct (drop _ (queue b)) as [|e q]; cbn; [done|].
    destruct (is_fork e) eqn:Ef; cbn; [done|by rewrite Ef].
  - intros H. by rewrite forks_taken in H.
  - unfold Prepend. destruct es; [done|]. by destruct (closed b).
  - unfold wakeServiceForks, recvWake. destruct (wake b); cbn [fst]; [|done].
    intros H. by rewrite forks_taken in H.
  - exact Hb.
Qed.

(** C40: no lost wake-up: once a round has serviced the ready forks, a fork that
    reaches the head of the queue during the turn always has its wake-up token
    pending, so the turn's select services it. *)
Theorem inbox_fork_wake (b : Inbox) (ops : list op) (Hops : forallb turn_op ops = true) :
  fork_signalled (fst (run (fst (TakeReadyForks b)) ops)).
Proof.
  assert (fork_signalled (fst (TakeReadyForks b))) as Hb.
  { intros H. by rewrite forks_taken in H. }
  revert Hb. generalize (fst (TakeReadyForks b)). clear b. revert Hops.
  induction ops as [|o ops IH]; intros Hops b Hb; cbn; [done|].
  cbn in Hops. apply andb_true_iff in Hops as [Ho Hops].
  pose proof (signalled_step b o Ho Hb) as H1. destruct (run_op b o) as [b1 t1]. cbn in H1.
  specialize (IH Hops b1 H1). by destruct (run b1 ops).
Qed.

Lemma inbox_fork_wake_witness :
  let ops := [OSend (ex_prompt #"a"); OSend (eventFork 1); OWake [Some (eventFork 2)]; OPrompts] in
  forallb turn_op ops = true /\
  fork_signalled (fst (run (fst (TakeReadyForks NewInbox)) ops)).
Proof. cbn zeta. split; [done|]. by apply inbox_fork_wake. Defined.
