(* ===== verification/Registry.v ===== *)
(** * angelus/registry: the supervisor's table of running figaros and of the
    processes attached to them (src/internal/angelus/registry.go).

    Register looks at the draining flag before it takes the lock, and Kill holds
    the lock twice, around the kill of the agent: each is two steps that other
    calls may come between. *)

From S2P Require Import Prelude.

Section registry.
  (** The agents, whose own state is elsewhere. *)
  Context {F : Type}.

(** ** State *)

Record Registry := mkRegistry {
  figaros : gmap gostr F;
  pidToFigaro : gmap Z gostr;
  pidToLT : gmap Z Z;
  figaroPIDs : gmap gostr (gset Z);
  killing : gset gostr;
  draining : bool }.

Definition NewRegistry : Registry := mkRegistry ∅ ∅ ∅ ∅ ∅ false.

(** ** Operations; the boolean is false for an error. *)

(** func (r *Registry) Register, once past the look at the draining flag. *)
Definition Insert (r : Registry) (id : gostr) (f : F) : Registry * bool :=
  match figaros r !! id with
  | Some _ => (r, false)
  | None =>
      (mkRegistry (<[id := f]> (figaros r)) (pidToFigaro r) (pidToLT r)
         (<[id := ∅]> (figaroPIDs r)) (killing r) (draining r), true)
  end.

(** func (r *Registry) Register; [early]: its look at the flag came before a
    shutdown that has set the flag since. *)
Definition Register (early : bool) (r : Registry) (id : gostr) (f : F) : Registry * bool :=
  if draining r && negb early then (r, false) else Insert r id f.

(** func (r *Registry) Get *)
Definition Get (r : Registry) (id : gostr) : option F := figaros r !! id.

(** func (r *Registry) Kill, up to the call of f.Kill. *)
Definition KillBegin (r : Registry) (id : gostr) : Registry * bool :=
  match figaros r !! id with
  | None => (r, false)
  | Some _ =>
      if bool_decide (id ∈ killing r) then (r, false)
      else (mkRegistry (figaros r) (pidToFigaro r) (pidToLT r) (figaroPIDs r)
              ({[id]} ∪ killing r) (draining r), true)
  end.

(** func (r *Registry) Kill, after f.Kill returned. *)
Definition KillEnd (r : Registry) (id : gostr) : Registry :=
  let pids := default ∅ (figaroPIDs r !! id) in
  mkRegistry (delete id (figaros r))
    (foldl (fun m pid => delete pid m) (pidToFigaro r) (elements pids))
    (pidToLT r) (delete id (figaroPIDs r)) (killing r ∖ {[id]}) (draining r).

(** func (r *Registry) unbindLocked *)
Definition unbindLocked (r : Registry) (pid : Z) : Registry :=
  match pidToFigaro r !! pid with
  | None => r
  | Some id =>
      mkRegistry (figaros r) (delete pid (pidToFigaro r)) (delete pid (pidToLT r))
        (match figaroPIDs r !! id with
         | Some pids => <[id := pids ∖ {[pid]}]> (figaroPIDs r)
         | None => figaroPIDs r
         end) (killing r) (draining r)
  end.

(** func (r *Registry) Unbind *)
Definition Unbind (r : Registry) (pid : Z) : Registry := unbindLocked r pid.

(** func (r *Registry) Bind; the write into figaroPIDs[figaroID] panics on a
    missing entry, which is [None]. *)
Definition Bind (r : Registry) (pid : Z) (figaroID : gostr) (lt : Z) : option (Registry * bool) :=
  match figaros r !! figaroID with
  | None => Some (r, false)
  | Some _ =>
      if bool_decide (pidToFigaro r !! pid = Some figaroID) then
        Some (mkRegistry (figaros r) (pidToFigaro r) (<[pid := lt]> (pidToLT r)) (figaroPIDs r)
                (killing r) (draining r), true)
      else
        let r := unbindLocked r pid in
        pids ← figaroPIDs r !! figaroID;
        Some (mkRegistry (figaros r) (<[pid := figaroID]> (pidToFigaro r))
                (<[pid := lt]> (pidToLT r)) (<[figaroID := {[pid]} ∪ pids]> (figaroPIDs r))
                (killing r) (draining r), true)
  end.

(** func (r *Registry) Resolve *)
Definition Resolve (r : Registry) (pid : Z) : gostr * option F * Z :=
  match pidToFigaro r !! pid with
  | None => ([], None, 0)
  | Some id => (id, figaros r !! id, default 0 (pidToLT r !! pid))
  end.

(** func (r *Registry) BoundPIDs, as a set (Go ranges over a map). *)
Definition BoundPIDs (r : Registry) (figaroID : gostr) : gset Z :=
  default ∅ (figaroPIDs r !! figaroID).

(** func (r *Registry) BoundPIDsByFigaro *)
Definition BoundPIDsByFigaro (r : Registry) : gmap gostr (gset Z) := figaroPIDs r.

(** func (r *Registry) AllPIDs *)
Definition AllPIDs (r : Registry) : gset Z := dom (pidToFigaro r).

(** func (r *Registry) All *)
Definition All (r : Registry) : list F := (map_to_list (figaros r)).*2.

(** func (r *Registry) FigaroCount, BoundPIDCount *)
Definition FigaroCount (r : Registry) : nat := size (figaros r).
Definition BoundPIDCount (r : Registry) : nat := size (pidToFigaro r).

(** func (r *Registry) SetDraining, IsDraining *)
Definition SetDraining (r : Registry) : Registry :=
  mkRegistry (figaros r) (pidToFigaro r) (pidToLT r) (figaroPIDs r) (killing r) true.
Definition IsDraining (r : Registry) : bool := draining r.

(** ** Steps: any interleaving of calls; a call that fails leaves the state. *)

Inductive step : Registry -> Registry -> Prop :=
| s_insert r id f : step r (fst (Insert r id f))
| s_kill_begin r id : step r (fst (KillBegin r id))
| s_kill_end r id : id ∈ killing r -> step r (KillEnd r id)
| s_bind r pid id lt r' ok : Bind r pid id lt = Some (r', ok) -> step r r'
| s_unbind r pid : step r (Unbind r pid)
| s_drain r : step r (SetDraining r).

(** The two indexes agree, every figaro has its set of pids, and only registered
    figaros are being killed. *)
Record wf (r : Registry) : Prop := {
  wf_index : forall pid id, pidToFigaro r !! pid = Some id <->
               exists pids, figaroPIDs r !! id = Some pids /\ pid ∈ pids;
  wf_dom : dom (figaroPIDs r) = dom (figaros r);
  wf_killing : killing r ⊆ dom (figaros r);
  wf_lt : dom (pidToFigaro r) ⊆ dom (pidToLT r) }.

(** ** Lemmas *)

Lemma pids_of_figaro r id f : wf r -> figaros r !! id = Some f -> exists pids, figaroPIDs r !! id = Some pids.
Proof.
  intros Hr Hf. apply elem_of_dom_2 in Hf. rewrite <- (wf_dom _ Hr) in Hf.
  by apply elem_of_dom in Hf as [? ?]; eauto.
Qed.

Lemma foldl_delete_pids (m : gmap Z gostr) ks k :
  foldl (fun m pid => delete pid m) m ks !! k = if decide (k ∈ ks) then None else m !! k.
Proof.
  revert m. induction ks as [|x ks IH]; intros m; cbn.
  { by rewrite decide_False by apply not_elem_of_nil. }
  rewrite IH. destruct (decide (k ∈ ks)).
  - by rewrite decide_True by (apply elem_of_cons; by right).
  - destruct (decide (k = x)) as [->|].
    + rewrite decide_True by apply list_elem_of_here. by rewrite lookup_delete_eq.
    + rewrite decide_False by (rewrite elem_of_cons; tauto). by rewrite lookup_delete_ne.
Qed.

Lemma unbind_wf r pid : wf r -> wf (unbindLocked r pid).
Proof.
  intros Hr. unfold unbindLocked. destruct (pidToFigaro r !! pid) as [id|] eqn:E; [|done].
  pose proof E as E'. apply (wf_index _ Hr) in E' as (pids & Hp & Hin). rewrite Hp.
  split; cbn.
  - intros p i. rewrite lookup_delete_Some, (wf_index _ Hr). split.
    + intros (Hne & qs & Hq & Hin'). destruct (decide (i = id)) as [->|Hi].
      * exists (pids ∖ {[pid]}). rewrite lookup_insert_eq. simplify_eq. split; [done|set_solver].
      * exists qs. by rewrite lookup_insert_ne.
    + intros (qs & Hq & Hin'). apply lookup_insert_Some in Hq as [[<- <-]|[Hi Hq]].
      * split; [set_solver|]. exists pids. split; [done|set_solver].
      * split; [|by exists qs]. intros <-.
        assert (pidToFigaro r !! pid = Some i) by (apply (wf_index _ Hr); by exists qs).
        congruence.
  - rewrite dom_insert_L, (wf_dom _ Hr). apply elem_of_dom_2 in Hp.
    rewrite (wf_dom _ Hr) in Hp. set_solver.
  - apply Hr.
  - rewrite !dom_delete_L. pose proof (wf_lt _ Hr). set_solver.
Qed.

Lemma unbind_none r pid : pidToFigaro (unbindLocked r pid) !! pid = None.
Proof.
  unfold unbindLocked. destruct (pidToFigaro r !! pid) as [id|] eqn:E; [|done].
  apply lookup_delete_eq.
Qed.

Lemma unbind_figaros r pid : figaros (unbindLocked r pid) = figaros r.
Proof. unfold unbindLocked. by destruct (pidToFigaro r !! pid). Qed.

Lemma unbind_other r pid p : p <> pid ->
  pidToFigaro (unbindLocked r pid) !! p = pidToFigaro r !! p /\
  pidToLT (unbindLocked r pid) !! p = pidToLT r !! p.
Proof.
  intros Hne. unfold unbindLocked. destruct (pidToFigaro r !! pid); [|done]. cbn.
  by rewrite !lookup_delete_ne.
Qed.

(** Bind cannot panic: the set of pids of a registered figaro exists. *)
Lemma Bind_total r pid id lt : wf r -> exists r' ok, Bind r pid id lt = Some (r', ok) /\
  wf r' /\ (ok = true <-> is_Some (figaros r !! id)).
Proof.
  intros Hr. unfold Bind. destruct (figaros r !! id) as [f|] eqn:Ef; cycle 1.
  { exists r, false. split; [done|]. split; [done|]. split; [done|]. by intros [? ?]. }
  case_bool_decide as Hcur.
  - eexists _, true. split; [done|]. split; [|by split; eauto]. destruct Hr as [H1 H2 H3 H4].
    split; cbn; try done. rewrite dom_insert_L. set_solver.
  - pose proof (unbind_wf r pid Hr) as Hu. pose proof (unbind_none r pid) as Hn.
    pose proof (unbind_figaros r pid) as Hf. rewrite <- Hf in Ef.
    destruct (pids_of_figaro _ _ _ Hu Ef) as [pids Hp]. rewrite Hp. cbn.
    eexists _, true. split; [done|]. split; [|by split; eauto].
    destruct Hu as [H1 H2 H3 H4]. split; cbn.
    + intros p i. destruct (decide (p = pid)) as [->|Hp'].
      * rewrite lookup_insert_eq. split.
        -- intros [= <-]. eexists. rewrite lookup_insert_eq. split; [done|set_solver].
        -- intros (qs & Hq & Hin). apply lookup_insert_Some in Hq as [[<- _]|[Hne Hq]]; [done|].
           assert (pidToFigaro (unbindLocked r pid) !! pid = Some i) by (apply H1; by exists qs).
           congruence.
      * rewrite lookup_insert_ne by done. rewrite H1. split.
        -- intros (qs & Hq & Hin). destruct (decide (i = id)) as [->|Hi].
           ++ eexists. rewrite lookup_insert_eq. split; [done|]. simplify_eq. set_solver.
           ++ exists qs. by rewrite lookup_insert_ne.
        -- intros (qs & Hq & Hin). apply lookup_insert_Some in Hq as [[<- <-]|[Hne Hq]].
           ++ exists pids. split; [done|set_solver].
           ++ by exists qs.
    + rewrite dom_insert_L, H2. apply elem_of_dom_2 in Ef. set_solver.
    + done.
    + rewrite !dom_insert_L. set_solver.
Qed.

Lemma killend_wf r id : wf r -> wf (KillEnd r id).
Proof.
  intros Hr. unfold KillEnd. split; cbn.
  - intros p i. rewrite foldl_delete_pids.
    assert (p ∈ elements (default ∅ (figaroPIDs r !! id)) <-> pidToFigaro r !! p = Some id) as Hin.
    { rewrite elem_of_elements, (wf_index _ Hr). destruct (figaroPIDs r !! id); cbn; [|set_solver].
      split; [by eauto|]. by intros (qs & [= <-] & ?). }
    case_decide as Hd.
    + split; [done|]. intros (qs & Hq & Hp). apply lookup_delete_Some in Hq as [Hne Hq].
      apply Hin in Hd. assert (pidToFigaro r !! p = Some i) by (apply (wf_index _ Hr); by exists qs).
      congruence.
    + rewrite (wf_index _ Hr). split.
      * intros (qs & Hq & Hp). exists qs. rewrite lookup_delete_ne; [done|]. intros ->.
        apply Hd, Hin, (wf_index _ Hr). by exists qs.
      * intros (qs & Hq & Hp). apply lookup_delete_Some in Hq as [Hne Hq]. by exists qs.
  - rewrite !dom_delete_L, (wf_dom _ Hr). done.
  - rewrite dom_delete_L. pose proof (wf_killing _ Hr). set_solver.
  - intros p Hp. apply (wf_lt _ Hr). apply elem_of_dom in Hp as [i Hp].
    rewrite foldl_delete_pids in Hp. case_decide; [done|]. by apply elem_of_dom_2 in Hp.
Qed.

Lemma step_wf r r' : wf r -> step r r' -> wf r'.
Proof.
  intros Hr Hs. destruct Hs as [r id f|r id|r id Hk|r pid id lt r' ok Hb|r pid|r].
  - unfold Insert. destruct (figaros r !! id) eqn:E; [done|]. cbn.
    assert (figaroPIDs r !! id = None) as Hn.
    { apply not_elem_of_dom. rewrite (wf_dom _ Hr). by apply not_elem_of_dom. }
    destruct Hr as [H1 H2 H3 H4]. split; cbn; try done.
    + intros p i. rewrite H1. split.
      * intros (qs & Hq & Hin). exists qs. rewrite lookup_insert_ne; [done|]. intros <-. congruence.
      * intros (qs & Hq & Hin). apply lookup_insert_Some in Hq as [[<- <-]|[Hne Hq]]; [set_solver|].
        by exists qs.
    + rewrite !dom_insert_L. by rewrite H2.
    + rewrite dom_insert_L. set_solver.
  - unfold KillBegin. destruct (figaros r !! id) eqn:E; [|done]. case_bool_decide; [done|]. cbn.
    destruct Hr as [H1 H2 H3 H4]. split; cbn; try done. apply elem_of_dom_2 in E. set_solver.
  - by apply killend_wf.
  - destruct (Bind_total r pid id lt Hr) as (r2 & ok2 & E & Hwf & _). rewrite E in Hb.
    by simplify_eq.
  - by apply unbind_wf.
  - by destruct Hr; split.
Qed.

Lemma register_wf early r id f : wf r -> wf (fst (Register early r id f)).
Proof.
  intros Hr. unfold Register. destruct (_ && _); [done|]. by eapply step_wf; [|apply s_insert].
Qed.

Lemma new_wf : wf NewRegistry.
Proof.
  split; cbn; try done. intros pid id. rewrite lookup_empty. split; [done|].
  intros (qs & Hq & _). by rewrite lookup_empty in Hq.
Qed.

Lemma steps_wf r r' : wf r -> rtc step r r' -> wf r'.
Proof. intros Hr Hs. induction Hs as [|r1 r2 r3 H _ IH]; [done|]. by apply IH, (step_wf r1). Qed.

(** In every state an interleaving of calls reaches, the pid index and the
    per-figaro pid sets describe the same 1:1 attachment, every attached pid has
    a registered figaro and a fork point, and Bind cannot panic. *)
Theorem registry_invariant (r : Registry) (Hr : rtc step NewRegistry r) :
  wf r /\
  (forall pid id f lt, Resolve r pid = (id, Some f, lt) ->
     figaros r !! id = Some f /\ pid ∈ BoundPIDs r id) /\
  (forall pid id, pidToFigaro r !! pid = Some id ->
     exists f lt, Resolve r pid = (id, Some f, lt) /\ pidToLT r !! pid = Some lt) /\
  (forall id1 id2 pid, pid ∈ BoundPIDs r id1 -> pid ∈ BoundPIDs r id2 -> id1 = id2) /\
  (forall pid id lt, is_Some (Bind r pid id lt)).
Proof.
  assert (wf r) as Hwf by (by eapply steps_wf, Hr; apply new_wf).
  assert (forall pid id, pidToFigaro r !! pid = Some id <-> pid ∈ BoundPIDs r id) as Hb.
  { intros pid id. rewrite (wf_index _ Hwf). unfold BoundPIDs. split.
    - by intros (qs & -> & ?).
    - destruct (figaroPIDs r !! id); cbn; [by eauto|set_solver]. }
  split; [done|]. split; [|split; [|split]].
  - intros pid id f lt. unfold Resolve. destruct (pidToFigaro r !! pid) as [i|] eqn:E; [|done].
    intros [= -> -> _]. by apply Hb in E.
  - intros pid id Hp. unfold Resolve. rewrite Hp.
    pose proof (proj1 (wf_index _ Hwf pid id) Hp) as (qs & Hq & _).
    apply elem_of_dom_2 in Hq. rewrite (wf_dom _ Hwf) in Hq. apply elem_of_dom in Hq as [f ->].
    apply elem_of_dom_2, (wf_lt _ Hwf), elem_of_dom in Hp as [lt ->]. by exists f, lt.
  - intros id1 id2 pid H1%Hb H2%Hb. congruence.
  - intros pid id lt. destruct (Bind_total r pid id lt Hwf) as (r' & ok & -> & _). done.
Qed.

(** Binding: it fails exactly for an unknown figaro, changing nothing; on
    success the pid resolves to the new figaro and fork point, leaves the set of
    the figaro it was bound to, and no other pid is affected. *)
Theorem registry_bind (r : Registry) (pid : Z) (id : gostr) (lt : Z) (Hr : wf r) :
  match Bind r pid id lt with
  | None => False
  | Some (r', false) => figaros r !! id = None /\ r' = r
  | Some (r', true) =>
      Resolve r' pid = (id, figaros r !! id, lt) /\ is_Some (figaros r !! id) /\
      (forall id', pid ∈ BoundPIDs r' id' <-> id' = id) /\
      (forall p, p <> pid -> Resolve r' p = Resolve r p)
  end.
Proof.
  destruct (Bind_total r pid id lt Hr) as (r' & ok & E & Hwf & Hok). rewrite E.
  destruct ok; cycle 1.
  { destruct (figaros r !! id) eqn:Ef; [by assert (false = true) by (apply Hok; eauto)|].
    split; [done|]. unfold Bind in E. rewrite Ef in E. by simplify_eq. }
  assert (pidToFigaro r' !! pid = Some id /\ pidToLT r' !! pid = Some lt /\ figaros r' = figaros r /\
    forall p, p <> pid -> pidToFigaro r' !! p = pidToFigaro r !! p /\
                          pidToLT r' !! p = pidToLT r !! p) as (H1 & H2 & H3 & H4).
  { unfold Bind in E. destruct (figaros r !! id); [|done]. case_bool_decide as Hc.
    - injection E as <-. cbn. split_and!; try done; [by rewrite lookup_insert_eq|].
      intros p Hp. by rewrite lookup_insert_ne.
    - destruct (figaroPIDs (unbindLocked r pid) !! id); [|done]. injection E as <-. cbn.
      rewrite !lookup_insert_eq, unbind_figaros. split_and!; try done. intros p Hp.
      rewrite !lookup_insert_ne by done. by apply unbind_other. }
  unfold Resolve. rewrite H1, H2, H3. split; [done|]. split; [by apply Hok|]. split.
  - intros id'. unfold BoundPIDs. pose proof (wf_index _ Hwf pid id') as Hi. rewrite H1 in Hi.
    destruct (figaroPIDs r' !! id') as [qs|]; cbn.
    + split; [intros Hp; assert (Some id = Some id') by (apply Hi; by exists qs); congruence|].
      intros ->. destruct (proj1 Hi eq_refl) as (? & [= <-] & ?). done.
    + split; [set_solver|]. intros ->. destruct (proj1 Hi eq_refl) as (? & [=] & ?).
  - intros p Hp. destruct (H4 p Hp) as [-> ->]. done.
Qed.

(** Kill, with any calls of others between its two critical sections: the
    id stays registered, refuses a second Kill and cannot be re-registered until
    the agent is dead; the end of Kill detaches every process that is bound to it
    then, including one that bound meanwhile, and touches no other attachment. *)
Theorem registry_kill (r r1 r2 : Registry) (id : gostr) (Hr : wf r)
    (Hb : KillBegin r id = (r1, true)) (Hsteps : rtc step r1 r2) (Hk : id ∈ killing r2) :
  snd (KillBegin r2 id) = false /\
  (forall early f, snd (Register early r2 id f) = false) /\
  Get (KillEnd r2 id) id = None /\
  (forall pid, (Resolve (KillEnd r2 id) pid).1.1 = id -> pidToFigaro (KillEnd r2 id) !! pid = None) /\
  BoundPIDs (KillEnd r2 id) id = ∅ /\
  (forall pid id', id' <> id -> pidToFigaro r2 !! pid = Some id' ->
     Resolve (KillEnd r2 id) pid = Resolve r2 pid).
Proof.
  assert (wf r2) as Hwf.
  { assert (wf r1) as H1.
    { assert (r1 = fst (KillBegin r id)) as -> by (by rewrite Hb).
      by eapply step_wf; [|apply s_kill_begin]. }
    by eapply steps_wf. }
  assert (is_Some (figaros r2 !! id)) as [f Hf].
  { apply elem_of_dom. by apply (wf_killing _ Hwf). }
  pose proof (killend_wf r2 id Hwf) as Hend.
  assert (forall pid, pidToFigaro (KillEnd r2 id) !! pid <> Some id) as Hno.
  { intros pid (qs & Hq & _)%(wf_index _ Hend). unfold KillEnd in Hq. cbn in Hq.
    by rewrite lookup_delete_eq in Hq. }
  split_and!.
  - unfold KillBegin. rewrite Hf. by rewrite bool_decide_eq_true_2.
  - intros early g. unfold Register, Insert. destruct (_ && _); [done|]. by rewrite Hf.
  - apply lookup_delete_eq.
  - intros pid. unfold Resolve. destruct (pidToFigaro (KillEnd r2 id) !! pid) as [i|] eqn:E; [|done].
    cbn. intros ->. by apply Hno in E.
  - unfold BoundPIDs, KillEnd. cbn. by rewrite lookup_delete_eq.
  - intros pid id' Hne Hp. unfold Resolve, KillEnd. cbn. rewrite foldl_delete_pids.
    rewrite decide_False, Hp, lookup_delete_ne by
      (done || (rewrite elem_of_elements; intros Hin;
        assert (pidToFigaro r2 !! pid = Some id) by
          (apply (wf_index _ Hwf); destruct (figaroPIDs r2 !! id); [by eauto|set_solver]);
        congruence)).
    done.
Qed.

(** Kill leaves the fork points of the pids it detaches behind in pidToLT
    (unlike Unbind); they are not reachable, since the next Bind of the pid
    overwrites them and Resolve asks pidToFigaro first, but they are kept for the
    life of the supervisor. *)
Theorem registry_kill_keeps_lt (r : Registry) (id : gostr) (pid : Z) (lt : Z)
    (Hr : wf r) (Hlt : pidToLT r !! pid = Some lt) (Hp : pidToFigaro r !! pid = Some id) :
  pidToLT (KillEnd r id) !! pid = Some lt /\ pidToFigaro (KillEnd r id) !! pid = None /\
  pidToLT (Unbind r pid) !! pid = None.
Proof.
  split; [done|]. split.
  - unfold KillEnd. cbn. rewrite foldl_delete_pids, decide_True; [done|].
    apply elem_of_elements. apply (wf_index _ Hr) in Hp as (qs & -> & ?). done.
  - unfold Unbind, unbindLocked. rewrite Hp. apply lookup_delete_eq.
Qed.

End registry.

(** ** Witnesses: two agents, two processes *)

Definition ex0 : Registry (F := nat) := fst (Register false (fst (Register false NewRegistry #"a" 1%nat)) #"b" 2%nat).
Definition bind_or (r : Registry (F := nat)) (pid : Z) (id : gostr) (lt : Z) : Registry :=
  match Bind r pid id lt with Some (r', _) => r' | None => r end.
Definition ex_reg : Registry := bind_or (bind_or (bind_or ex0 10 #"a" 0) 11 #"a" 7) 11 #"b" 3.

Lemma bind_or_step r0 r pid id lt : rtc step r0 r -> rtc step r0 (bind_or r pid id lt).
Proof.
  intros H. unfold bind_or. destruct (Bind r pid id lt) as [[r' ok]|] eqn:E; [|done].
  eapply rtc_r; [exact H|]. by eapply s_bind.
Qed.

Lemma ex_reg_reachable : rtc step NewRegistry ex_reg.
Proof.
  unfold ex_reg. do 3 apply bind_or_step.
  eapply rtc_l; [apply (s_insert _ #"a" 1%nat)|].
  eapply rtc_l; [apply (s_insert _ #"b" 2%nat)|]. apply rtc_refl.
Qed.

Lemma ex_wf : wf ex_reg.
Proof. apply (steps_wf _ _ new_wf), ex_reg_reachable. Qed.

Lemma registry_invariant_witness : wf ex_reg.
Proof. exact (proj1 (registry_invariant ex_reg ex_reg_reachable)). Defined.

Lemma registry_bind_witness :
  match Bind ex_reg 10 #"b" 9 with
  | Some (r', true) => Resolve r' 10 = (#"b", figaros ex_reg !! #"b", 9)
  | _ => False
  end.
Proof.
  pose proof (registry_bind ex_reg 10 #"b" 9 ex_wf) as H.
  destruct (Bind ex_reg 10 #"b" 9) as [[r' [|]]|] eqn:E; [exact (proj1 H)| |exact H].
  apply proj1 in H. vm_compute in H. discriminate H.
Defined.

(** A process attaches to "b" while it is being killed. *)
Lemma registry_kill_witness :
  let r1 := fst (KillBegin ex_reg #"b") in
  let r2 := bind_or r1 12 #"b" 4 in
  Resolve r2 12 = (#"b", Some 2%nat, 4) /\ Resolve (KillEnd r2 #"b") 10 = Resolve r2 10.
Proof.
  cbn zeta. split; [by vm_compute|].
  refine (proj2 (proj2 (proj2 (proj2 (proj2
    (registry_kill ex_reg (fst (KillBegin ex_reg #"b")) _ #"b" ex_wf _ _ _))))) 10 #"a" _ _).
  - by vm_compute.
  - apply bind_or_step, rtc_refl.
  - apply (bool_decide_eq_true_1 (_ ∈ _)). by vm_compute.
  - intros H. by apply lit_inj in H.
  - by vm_compute.
Defined.

Lemma registry_kill_keeps_lt_witness : pidToLT (KillEnd ex_reg #"b") !! 11 = Some 3.
Proof.
  refine (proj1 (registry_kill_keeps_lt ex_reg #"b" 11 3 ex_wf _ _)); by vm_compute.
Defined.
