(* ===== verification/Projection.v ===== *)
(** * provider/projection: the wire form of a conversation, kept up to date
    incrementally (src/internal/provider/projection.go).

    The log, the translation cache and the encoder are parameters: the logs by
    their contract [LogLaws], Encode and Append as functions. *)

From S2P Require Import Prelude Message Chalkboard Store.

(** json.RawMessage values. *)
Abbreviation raws := (list gostr).

Definition with_lt (m : Message) (lt : Z) : Message :=
  mkMessage (mRole m) (mContent m) (mPatches m) (mUsage m) (mStopReason m) (mToolCallID m)
    (mToolName m) lt (mTimestamp m).
Definition with_patches (m : Message) (ps : list Patch) : Message :=
  mkMessage (mRole m) (mContent m) ps (mUsage m) (mStopReason m) (mToolCallID m)
    (mToolName m) (mLogicalTime m) (mTimestamp m).

Record IncrementalProjection (T : Type) := mkIP {
  ipState : T; ipChalkboard : snapshot; ipFingerprint : gostr; ipEntries : nat; ipLastLT : Z }.
Arguments mkIP {T}.
Arguments ipState {T}.
Arguments ipChalkboard {T}.
Arguments ipFingerprint {T}.
Arguments ipEntries {T}.
Arguments ipLastLT {T}.

Record ProjectionStats := mkStats {
  stEntries : nat; stStartIndex : nat; stCached : nat; stEncoded : nat }.

Record ProjectionConfig (T : Type) := mkConfig {
  cfChalkboard : option (Z -> list Patch);
  cfFingerprint : gostr;
  cfInitial : T;
  cfEncode : Message -> snapshot -> option raws;       (* None: error *)
  cfAppend : T -> raws -> Z -> T }.
Arguments mkConfig {T}.
Arguments cfChalkboard {T}.
Arguments cfFingerprint {T}.
Arguments cfInitial {T}.
Arguments cfEncode {T}.
Arguments cfAppend {T}.

(** func AppendEncodedMessage, the fold of the providers. *)
Record EncodedMessages := mkEncoded { PerMessage : list raws; LogicalTimes : list Z }.
Definition AppendEncodedMessage (state : EncodedMessages) (encoded : raws) (lt : Z) : EncodedMessages :=
  mkEncoded (PerMessage state ++ [encoded]) (LogicalTimes state ++ [lt]).

Section projection.
  Context {T C : Type} `{LogLaws C raws}.
  Context (cf : ProjectionConfig T).

(** The message an entry carries, stamped and with its patches. *)
Definition entry_message (entry : Entry Message) : Message :=
  let msg := with_lt (Payload entry) (LT entry) in
  match cfChalkboard cf with
  | Some patchesAt => with_patches msg (patchesAt (LT entry))
  | None => msg
  end.

(** The cached translation, if it may be used. *)
Definition cache_hit (cache : option C) (lt : Z) : option raws :=
  match cache with
  | None => None
  | Some c =>
      match Lookup c lt with
      | Some e =>
          if (bool_decide (Fingerprint e = []) || bool_decide (Fingerprint e = cfFingerprint cf)) &&
             (0 <? length (Payload e))%nat
          then Some (Payload e) else None
      | None => None
      end
  end.

(** State of the loop: the state, the snapshot, the cache, cached and encoded
    counts. *)
Definition loop_state : Type := T * snapshot * option C * nat * nat.

(** One iteration of the loop over the suffix; [inr] is an encoding error. *)
Definition visit (st : loop_state) (entry : Entry Message) : loop_state + loop_state :=
  let '(state, snap, cache, cached, encd) := st in
  if bool_decide (mRole (Payload entry) = RoleGenesis) then inl st else
  let msg := entry_message entry in
  let r :=
    match cache_hit cache (LT entry) with
    | Some e => Some (e, cache, S cached, encd)
    | None =>
        match cfEncode cf msg snap with
        | None => None
        | Some e =>
            let cache' := match cache with
              | Some c => if (0 <? length e)%nat
                  then Some (fst (Append c (mkEntry 0 (LT entry) e (cfFingerprint cf))))
                  else cache
              | None => cache
              end in
            Some (e, cache', cached, S encd)
        end
    end in
  match r with
  | None => inr st
  | Some (e, cache, cached, encd) =>
      let state := if (0 <? length e)%nat then cfAppend cf state e (LT entry) else state in
      inl (state, foldl Snapshot.Apply snap (mPatches msg), cache, cached, encd)
  end.

Fixpoint visits (st : loop_state) (entries : list (Entry Message)) : loop_state + loop_state :=
  match entries with
  | [] => inl st
  | entry :: entries' =>
      match visit st entry with inl st' => visits st' entries' | inr st' => inr st' end
  end.

(** Whether the previous projection may be extended. *)
Definition reusable (previous : IncrementalProjection T) (entries : list (Entry Message)) : bool :=
  bool_decide (ipFingerprint previous = cfFingerprint cf) &&
  (ipEntries previous <=? length entries)%nat &&
  ((ipEntries previous =? 0)%nat ||
   match entries !! (ipEntries previous - 1)%nat with
   | Some e => LT e =? ipLastLT previous
   | None => false
   end).

Definition last_lt (entries : list (Entry Message)) : Z :=
  match last entries with Some e => LT e | None => 0 end.

(** func ProjectIncrementally: the projection ([None] on an encoding error), the
    stats and the cache. *)
Definition ProjectIncrementally (entries : list (Entry Message)) (cache : option C)
    (previous : option (IncrementalProjection T))
  : option (IncrementalProjection T) * ProjectionStats * option C :=
  let '(state, snap, start) :=
    match previous with
    | Some p => if reusable p entries then (ipState p, ipChalkboard p, ipEntries p)
                else (cfInitial cf, ∅, 0%nat)
    | None => (cfInitial cf, ∅, 0%nat)
    end in
  match visits (state, snap, cache, 0%nat, 0%nat) (drop start entries) with
  | inr (_, _, cache, cached, encd) =>
      (None, mkStats (length entries) start cached encd, cache)
  | inl (state, snap, cache, cached, encd) =>
      (Some (mkIP state snap (cfFingerprint cf) (length entries) (last_lt entries)),
       mkStats (length entries) start cached encd, cache)
  end.

(** func ClearStaleTranslationCache: the cache, the old fingerprint, whether it
    was stale and whether Clear succeeded. *)
Definition ClearStaleTranslationCache (cache : C) (fingerprint : gostr) : C * gostr * bool * bool :=
  match PeekTail cache with
  | None => (cache, [], false, true)
  | Some entry =>
      if bool_decide (Fingerprint entry = []) || bool_decide (Fingerprint entry = fingerprint)
      then (cache, [], false, true)
      else let '(cache, ok) := Clear cache in (cache, Fingerprint entry, true, ok)
  end.

(** ** Specification: translate the whole log, without cache or memory *)

Definition translate_entry (st : T * snapshot) (entry : Entry Message) : option (T * snapshot) :=
  if bool_decide (mRole (Payload entry) = RoleGenesis) then Some st else
  let msg := entry_message entry in
  e ← cfEncode cf msg (snd st);
  Some (if (0 <? length e)%nat then cfAppend cf (fst st) e (LT entry) else fst st,
        foldl Snapshot.Apply (snd st) (mPatches msg)).

Definition translate_from (st : T * snapshot) (entries : list (Entry Message)) : option (T * snapshot) :=
  foldl (fun st entry => s ← st; translate_entry s entry) (Some st) entries.

Definition translate (entries : list (Entry Message)) : option (T * snapshot) :=
  translate_from (cfInitial cf, ∅) entries.

(** ** What the cache must hold *)

(** The snapshot before the entry at [i], and the encoding it gets. *)
Definition encoding_at (entries : list (Entry Message)) (i : nat) : option raws :=
  '(_, snap) ← translate (take i entries);
  e ← entries !! i;
  cfEncode cf (entry_message e) snap.

(** The rows of the cache are keyed by LTs of the log, and a usable translation
    is the encoding of its entry. *)
Definition cache_ok (entries : list (Entry Message)) (cache : option C) : Prop :=
  match cache with
  | None => True
  | Some c =>
      log_wf c /\ Forall (fun r => FigaroLT r ∈ map LT entries) (Read c) /\
      forall i entry e, entries !! i = Some entry -> cache_hit cache (LT entry) = Some e ->
        translate (take i entries) <> None ->
        mRole (Payload entry) <> RoleGenesis -> encoding_at entries i = Some e
  end.

(** A projection made of a prefix of the log. *)
Definition projects (entries : list (Entry Message)) (p : IncrementalProjection T) : Prop :=
  reusable p entries = true ->
  translate (take (ipEntries p) entries) = Some (ipState p, ipChalkboard p).

(** LTs of the main log: positive and distinct. *)
Definition lts_ok (entries : list (Entry Message)) : Prop :=
  Forall (fun e => 0 < LT e) entries /\ NoDup (map LT entries).

(** ** Lemmas *)

Lemma translate_None entries : foldl (fun st entry => s ← st; translate_entry s entry) None entries = None.
Proof using. induction entries; cbn; done. Qed.

Lemma translate_app l1 l2 : translate (l1 ++ l2) = st ← translate l1; translate_from st l2.
Proof using.
  unfold translate, translate_from. rewrite foldl_app.
  destruct (foldl _ (Some (cfInitial cf, ∅)) l1); [done|]. apply translate_None.
Qed.

Lemma translate_S entries i entry st :
  entries !! i = Some entry -> translate (take i entries) = Some st ->
  translate (take (S i) entries) = translate_entry st entry.
Proof using.
  intros Hi Ht. rewrite (take_S_r _ _ _ Hi), translate_app, Ht. done.
Qed.

(** An entry that cannot be encoded fails the whole translation. *)
Lemma translate_fail entries i entry st :
  entries !! i = Some entry -> translate (take i entries) = Some st ->
  translate_entry st entry = None -> translate entries = None.
Proof using.
  intros Hi Ht Hn. rewrite <- (take_drop (S i) entries), translate_app.
  by rewrite (translate_S _ _ _ _ Hi Ht), Hn.
Qed.

Lemma newest_snoc {A} (l : list (Entry A)) (x : Entry A) k :
  newest (l ++ [x]) k = if FigaroLT x =? k then Some x else newest l k.
Proof using. unfold newest. rewrite rev_app_distr. done. Qed.

Lemma lts_inj entries i j a b :
  lts_ok entries -> entries !! i = Some a -> entries !! j = Some b -> LT a = LT b -> i = j.
Proof using.
  intros [_ Hnd] Ha Hb Heq. eapply (NoDup_lookup _ _ _ (LT a) Hnd).
  - by rewrite list_lookup_fmap, Ha.
  - by rewrite list_lookup_fmap, Hb, Heq.
Qed.

Lemma cache_append entries c i entry st e :
  lts_ok entries -> cache_ok entries (Some c) -> entries !! i = Some entry ->
  translate (take i entries) = Some st -> cfEncode cf (entry_message entry) (snd st) = Some e ->
  cache_ok entries (Some (fst (Append c (mkEntry 0 (LT entry) e (cfFingerprint cf))))).
Proof using.
  intros Hlts (Hwf & Hk & Hc) Hi Ht He. cbn [cache_ok].
  destruct (Append c _) as [c' [e'|]] eqn:Ea; cbn [fst].
  - destruct (law_Append_ok _ _ _ _ Hwf Ea) as (Hwf' & Hr & Hp & Hf & Hflt). split; [done|].
    assert (LT entry <> 0) as Hne.
    { destruct Hlts as [Hpos _]. rewrite Forall_lookup in Hpos. apply Hpos in Hi. lia. }
    specialize (Hflt Hne). cbn in Hp, Hflt.
    split. { rewrite Hr. apply Forall_app. split; [done|]. apply Forall_singleton.
      rewrite Hflt. apply list_elem_of_fmap. exists entry. split; [done|].
      by eapply list_elem_of_lookup_2. }
    intros j entry' e2 Hj Hhit Htj Hrole. unfold cache_hit in Hhit.
    rewrite law_Lookup, Hr, newest_snoc, Hflt in Hhit by done.
    destruct (Z.eqb_spec (LT entry) (LT entry')) as [Heq|Hneq].
    + pose proof (lts_inj _ _ _ _ _ Hlts Hi Hj Heq) as <-. simplify_eq.
      destruct (_ && _); [|done]. injection Hhit as <-. unfold encoding_at.
      rewrite Ht, Hi. cbn. by destruct st.
    + apply (Hc j entry' e2 Hj); try done. unfold cache_hit. by rewrite law_Lookup.
  - destruct (law_Append_err _ _ _ Hwf Ea) as [Hwf' Hr]. split; [done|]. split; [by rewrite Hr|].
    intros j entry' e2 Hj Hhit. apply (Hc j entry' e2 Hj). unfold cache_hit in *.
    rewrite law_Lookup in * by done. by rewrite Hr in Hhit.
Qed.

(** One iteration computes one step of the specification. *)
Lemma visit_spec entries i entry state snap cache a b :
  lts_ok entries -> cache_ok entries cache -> entries !! i = Some entry ->
  translate (take i entries) = Some (state, snap) ->
  match visit (state, snap, cache, a, b) entry with
  | inl (state', snap', cache', a', b') =>
      translate_entry (state, snap) entry = Some (state', snap') /\ cache_ok entries cache' /\
      (a' + b' <= a + b + 1)%nat
  | inr (_, _, cache', a', b') =>
      translate_entry (state, snap) entry = None /\ cache_ok entries cache' /\ a' = a /\ b' = b
  end.
Proof using.
  intros Hlts Hc Hi Ht. unfold visit, translate_entry. case_bool_decide as Hg.
  { split_and!; [done|done|lia]. }
  destruct (cache_hit cache (LT entry)) as [e|] eqn:Eh.
  - assert (cfEncode cf (entry_message entry) snap = Some e) as Henc.
    { destruct cache as [c|]; [|done]. destruct Hc as (_ & _ & Hc).
      assert (encoding_at entries i = Some e) as Hat.
      { apply (Hc i entry e Hi Eh); [by rewrite Ht|done]. }
      unfold encoding_at in Hat. rewrite Ht, Hi in Hat. exact Hat. }
    cbn. rewrite Henc. cbn. split_and!; [done|done|lia].
  - destruct (cfEncode cf (entry_message entry) snap) as [e|] eqn:Ee; cbn -[Nat.ltb cache_ok]; cycle 1.
    { by rewrite Ee. }
    rewrite Ee. cbn -[Nat.ltb cache_ok]. split; [done|]. split; [|lia]. 
    destruct cache as [c|]; [|exact Hc]. destruct (0 <? length e)%nat; [|exact Hc].
    by eapply cache_append.
Qed.

Lemma visits_spec n entries i state snap cache a b :
  (length entries - i = n)%nat -> (i <= length entries)%nat ->
  lts_ok entries -> cache_ok entries cache -> translate (take i entries) = Some (state, snap) ->
  match visits (state, snap, cache, a, b) (drop i entries) with
  | inl (state', snap', cache', a', b') =>
      translate entries = Some (state', snap') /\ cache_ok entries cache' /\
      (a' + b' <= a + b + n)%nat
  | inr (_, _, cache', a', b') =>
      translate entries = None /\ cache_ok entries cache' /\ (a' + b' <= a + b + n)%nat
  end.
Proof using.
  revert i state snap cache a b. induction n as [|n IH]; intros i state snap cache a b Hn Hi Hlts Hc Ht.
  { rewrite drop_ge by lia. cbn. rewrite take_ge in Ht by lia. split_and!; [done|done|lia]. }
  destruct (lookup_lt_is_Some_2 entries i) as [entry He]; [lia|].
  rewrite (drop_S _ _ _ He). cbn [visits].
  pose proof (visit_spec entries i entry state snap cache a b Hlts Hc He Ht) as Hv.
  destruct (visit _ entry) as [[[[[s' sn'] c'] a'] b']|[[[[s' sn'] c'] a'] b']].
  - destruct Hv as (Hs & Hc' & Hab). rewrite <- (translate_S _ _ _ _ He Ht) in Hs.
    specialize (IH (S i) s' sn' c' a' b' ltac:(lia) ltac:(lia) Hlts Hc' Hs).
    destruct (visits _ _) as [[[[[? ?] ?] ?] ?]|[[[[? ?] ?] ?] ?]];
      destruct IH as (? & ? & ?); split_and!; done || lia.
  - destruct Hv as (Hs & Hc' & -> & ->). split_and!; [by eapply translate_fail|done|lia].
Qed.

(** The projection the specification gives. *)
Definition spec_projection (entries : list (Entry Message)) : option (IncrementalProjection T) :=
  '(state, snap) ← translate entries;
  Some (mkIP state snap (cfFingerprint cf) (length entries) (last_lt entries)).

Definition start_of (previous : option (IncrementalProjection T)) (entries : list (Entry Message)) : nat :=
  match previous with Some p => if reusable p entries then ipEntries p else 0%nat | None => 0%nat end.

Definition previous_ok (previous : option (IncrementalProjection T)) (entries : list (Entry Message)) : Prop :=
  match previous with Some p => projects entries p | None => True end.

Lemma project_spec entries cache previous :
  lts_ok entries -> cache_ok entries cache -> previous_ok previous entries ->
  let '(r, stats, cache') := ProjectIncrementally entries cache previous in
  r = spec_projection entries /\ cache_ok entries cache' /\
  stEntries stats = length entries /\ stStartIndex stats = start_of previous entries /\
  (stCached stats + stEncoded stats <= length entries - start_of previous entries)%nat.
Proof using.
  intros Hlts Hc Hp. unfold ProjectIncrementally, spec_projection.
  assert (exists state snap,
    match previous with
    | Some p => if reusable p entries then (ipState p, ipChalkboard p, ipEntries p)
                else (cfInitial cf, ∅, 0%nat)
    | None => (cfInitial cf, ∅, 0%nat)
    end = (state, snap, start_of previous entries) /\
    (start_of previous entries <= length entries)%nat /\
    translate (take (start_of previous entries) entries) = Some (state, snap))
    as (state & snap & -> & Hle & Ht).
  { unfold start_of, previous_ok in *. destruct previous as [p|].
    - destruct (reusable p entries) eqn:E.
      + exists (ipState p), (ipChalkboard p). split; [done|]. split; [|by apply Hp].
        unfold reusable in E. rewrite !andb_true_iff in E. destruct E as [[_ E] _].
        by apply Nat.leb_le in E.
      + exists (cfInitial cf), ∅. split_and!; [done|lia|done].
    - exists (cfInitial cf), ∅. split_and!; [done|lia|done]. }
  pose proof (visits_spec _ entries _ state snap cache 0 0 eq_refl Hle Hlts Hc Ht) as Hv.
  destruct (visits _ _) as [[[[[s' sn'] c'] a'] b']|[[[[s' sn'] c'] a'] b']];
    destruct Hv as (-> & Hc' & Hab); by split_and!.
Qed.

(** ** Growing the log *)

Lemma translate_take_app i entries more :
  (i <= length entries)%nat -> translate (take i (entries ++ more)) = translate (take i entries).
Proof using. intros Hi. by rewrite take_app_le. Qed.

Lemma newest_in {A} (l : list (Entry A)) k e : newest l k = Some e -> e ∈ l /\ FigaroLT e = k.
Proof using.
  unfold newest. intros [Hin Hk]%List.find_some. apply Z.eqb_eq in Hk.
  split; [|done]. by apply list_elem_of_In, in_rev.
Qed.

Lemma cache_ok_app entries more cache :
  lts_ok (entries ++ more) -> cache_ok entries cache -> cache_ok (entries ++ more) cache.
Proof using.
  intros Hlts. destruct cache as [c|]; [|done]. intros (Hwf & Hk & Hc). split; [done|]. split.
  { eapply Forall_impl; [exact Hk|]. cbn. intros r Hr. rewrite map_app. set_solver. }
  intros i entry e Hi Hhit. destruct (decide (i < length entries)%nat) as [Hlt|Hge].
  - rewrite lookup_app_l in Hi by done. unfold encoding_at.
    rewrite translate_take_app, lookup_app_l by lia. by apply Hc.
  - exfalso. unfold cache_hit in Hhit. rewrite law_Lookup in Hhit by done.
    destruct (newest (Read c) (LT entry)) as [r|] eqn:En; [|done].
    apply newest_in in En as [Hr Heq]. rewrite Forall_forall in Hk. apply Hk in Hr.
    rewrite Heq in Hr. apply list_elem_of_fmap in Hr as (entry' & Hlt & Hin).
    apply list_elem_of_lookup in Hin as [j Hj]. pose proof (lookup_lt_Some _ _ _ Hj).
    assert (i = j); [|lia]. eapply lts_inj; [exact Hlts|exact Hi| |done].
    by rewrite lookup_app_l.
Qed.

(** A projection that an earlier call returned. *)
Definition made_of (entries : list (Entry Message)) (p : IncrementalProjection T) : Prop :=
  exists n, (n <= length entries)%nat /\ spec_projection (take n entries) = Some p.

Lemma made_of_app entries more p : made_of entries p -> made_of (entries ++ more) p.
Proof using.
  intros (n & Hn & Hp). exists n. rewrite length_app, take_app_le by lia. split; [lia|done].
Qed.

Lemma made_of_projects entries p : made_of entries p -> projects entries p.
Proof using.
  intros (n & Hn & Hp) _. unfold spec_projection in Hp.
  destruct (translate (take n entries)) as [[state snap]|] eqn:Et; [|done].
  injection Hp as <-. cbn. by rewrite length_take, Nat.min_l.
Qed.

(** A conversation: at each turn the log grows and is projected again, with what
    the previous turns left. *)
Fixpoint project_all (entries : list (Entry Message)) (cache : option C)
    (previous : option (IncrementalProjection T)) (chunks : list (list (Entry Message)))
  : list (option (IncrementalProjection T)) :=
  match chunks with
  | [] => []
  | chunk :: chunks' =>
      let '(r, _, cache) := ProjectIncrementally (entries ++ chunk) cache previous in
      r :: project_all (entries ++ chunk) cache (match r with Some _ => r | None => previous end) chunks'
  end.

Fixpoint reproject_all (entries : list (Entry Message)) (chunks : list (list (Entry Message)))
  : list (option (IncrementalProjection T)) :=
  match chunks with
  | [] => []
  | chunk :: chunks' => spec_projection (entries ++ chunk) :: reproject_all (entries ++ chunk) chunks'
  end.

Lemma lts_ok_app l1 l2 : lts_ok (l1 ++ l2) -> lts_ok l1.
Proof using.
  intros [Hp Hn]. apply Forall_app in Hp as [Hp _]. rewrite map_app in Hn.
  apply NoDup_app in Hn as [Hn _]. done.
Qed.

(** One call: whatever usable previous projection and cache it is given, the
    result is the translation of the whole log from scratch (an error when that
    is one), the cache stays right, and only the entries after the watermark
    are looked at. *)
Theorem projection_refines (entries : list (Entry Message)) (cache : option C)
    (previous : option (IncrementalProjection T))
    (Hlts : lts_ok entries) (Hc : cache_ok entries cache) (Hp : previous_ok previous entries) :
  let '(r, stats, cache') := ProjectIncrementally entries cache previous in
  r = spec_projection entries /\ cache_ok entries cache' /\
  stEntries stats = length entries /\ stStartIndex stats = start_of previous entries /\
  (stCached stats + stEncoded stats <= length entries - start_of previous entries)%nat.
Proof using. by apply project_spec. Qed.

(** C14: a whole conversation: starting from an empty cache and no previous
    projection, projecting incrementally after every growth of the log gives at
    every turn exactly the projection made from scratch. *)
Theorem projection_conversation (c : C) (chunks : list (list (Entry Message)))
    (Hwf : log_wf c) (Hempty : Read c = []) (Hlts : lts_ok (concat chunks)) :
  project_all [] (Some c) None chunks = reproject_all [] chunks.
Proof using.
  assert (forall entries cache previous, lts_ok (entries ++ concat chunks) ->
    cache_ok entries cache ->
    match previous with Some p => made_of entries p | None => True end ->
    project_all entries cache previous chunks = reproject_all entries chunks) as H1; cycle 1.
  { apply H1; [done| |done]. split; [done|]. rewrite Hempty. split; [done|].
    intros i entry e Hi. by rewrite lookup_nil in Hi. }
  clear c Hwf Hempty Hlts. induction chunks as [|chunk chunks IH]; [done|].
  intros entries cache previous Hlts Hc Hp. cbn in Hlts. rewrite app_assoc in Hlts.
  pose proof (lts_ok_app _ _ Hlts) as Hlts'.
  pose proof (project_spec (entries ++ chunk) cache previous Hlts'
    ltac:(by apply cache_ok_app)) as Hs.
  cbn [project_all reproject_all].
  destruct (ProjectIncrementally (entries ++ chunk) cache previous) as [[r stats] cache'].
  destruct Hs as (-> & Hc' & _).
  { destruct previous; [|done]. by apply made_of_projects, made_of_app. }
  f_equal. apply IH; [done|done|].
  destruct (spec_projection (entries ++ chunk)) as [p|] eqn:E.
  - exists (length (entries ++ chunk)). split; [done|]. by rewrite take_ge.
  - destruct previous; [|done]. by apply made_of_app.
Qed.

End projection.

(** ** Witnesses: an encoder that stamps the role, over a MemLog cache *)

Definition ex_cf : ProjectionConfig (list raws) :=
  mkConfig (Some (fun lt => if lt =? 2 then [mkPatch {[ #"cwd" := #"/" ]} []] else []))
    #"v1" [] (fun m s => Some [mRole m ++ default [] (s !! #"cwd")]) (fun st e _ => st ++ [e]).
Definition ex_entry (lt : Z) (role : gostr) : Entry Message :=
  mkEntry lt 0 (mkMessage role [] [] None [] [] [] 0 0) [].
Definition ex_chunks : list (list (Entry Message)) :=
  [[ex_entry 1 RoleGenesis; ex_entry 2 RoleUser]; [ex_entry 3 RoleAssistant]].

Lemma ex_lts : lts_ok (concat ex_chunks).
Proof.
  split.
  - repeat constructor.
  - by apply (bool_decide_eq_true_1 (NoDup _)).
Qed.

Lemma projection_conversation_witness :
  project_all ex_cf [] (Some (NewMemLog (T := raws))) None ex_chunks = reproject_all ex_cf [] ex_chunks /\
  map (fun r => ipState <$> r) (reproject_all ex_cf [] ex_chunks) =
  [Some [[RoleUser]]; Some [[RoleUser]; [RoleAssistant ++ #"/"]]].
Proof.
  split; [|by vm_compute].
  apply (projection_conversation ex_cf NewMemLog ex_chunks); [apply NewMemLog_wf|done|exact ex_lts].
Defined.

Lemma projection_refines_witness :
  let entries := concat ex_chunks in
  let '(r, stats, _) := ProjectIncrementally ex_cf entries (Some (NewMemLog (T := raws))) None in
  r = spec_projection ex_cf entries /\ stStartIndex stats = 0%nat.
Proof.
  cbn zeta.
  pose proof (projection_refines ex_cf (concat ex_chunks) (Some (NewMemLog (T := raws))) None ex_lts) as H.
  destruct (ProjectIncrementally ex_cf (concat ex_chunks) (Some (NewMemLog (T := raws))) None) as [[r stats] c].
  destruct H as (Hr & _ & _ & Hs & _); [|done|done].
  split; [apply NewMemLog_wf|]. split; [constructor|].
  intros i entry e _ Hhit. unfold cache_hit in Hhit. cbn in Hhit. done.
Defined.
