(* ===== verification/Native.v ===== *)
(** * provider/anthropic: the wire shapes, the encoder and the request
    (src/internal/provider/anthropic/anthropic.go)

    An interface{} field is an optional JSON value: nil is [None], a string the
    partial input of a tool call still being streamed, an object the decoded
    map; [Some JNull] is the typed nil map that the input "null" leaves.  The
    []nativeBlock a tool_result carries is held as the JSON it marshals to. *)

From S2P Require Import Prelude Utf8 GoStrings Json GoJson Message Chalkboard Reminder.

(** ** Wire types *)

(** type nativeBlock *)
Record nativeBlock := mkBlock {
  bType : gostr;
  bText : gostr;
  bThinking : gostr;
  bSignature : gostr;
  bData : gostr;
  bID : gostr;
  bName : gostr;
  bInput : option json;
  bToolUseID : gostr;
  bIsError : bool;
  bContent : option json;
  bSource : option json;
  bCacheControl : option gostr }.

Definition set_Type (v : gostr) (b : nativeBlock) : nativeBlock :=
  mkBlock v (bText b) (bThinking b) (bSignature b) (bData b) (bID b) (bName b) (bInput b)
    (bToolUseID b) (bIsError b) (bContent b) (bSource b) (bCacheControl b).
Definition set_Text (v : gostr) (b : nativeBlock) : nativeBlock :=
  mkBlock (bType b) v (bThinking b) (bSignature b) (bData b) (bID b) (bName b) (bInput b)
    (bToolUseID b) (bIsError b) (bContent b) (bSource b) (bCacheControl b).
Definition set_Thinking (v : gostr) (b : nativeBlock) : nativeBlock :=
  mkBlock (bType b) (bText b) v (bSignature b) (bData b) (bID b) (bName b) (bInput b)
    (bToolUseID b) (bIsError b) (bContent b) (bSource b) (bCacheControl b).
Definition set_Signature (v : gostr) (b : nativeBlock) : nativeBlock :=
  mkBlock (bType b) (bText b) (bThinking b) v (bData b) (bID b) (bName b) (bInput b)
    (bToolUseID b) (bIsError b) (bContent b) (bSource b) (bCacheControl b).
Definition set_Data (v : gostr) (b : nativeBlock) : nativeBlock :=
  mkBlock (bType b) (bText b) (bThinking b) (bSignature b) v (bID b) (bName b) (bInput b)
    (bToolUseID b) (bIsError b) (bContent b) (bSource b) (bCacheControl b).
Definition set_ID (v : gostr) (b : nativeBlock) : nativeBlock :=
  mkBlock (bType b) (bText b) (bThinking b) (bSignature b) (bData b) v (bName b) (bInput b)
    (bToolUseID b) (bIsError b) (bContent b) (bSource b) (bCacheControl b).
Definition set_Name (v : gostr) (b : nativeBlock) : nativeBlock :=
  mkBlock (bType b) (bText b) (bThinking b) (bSignature b) (bData b) (bID b) v (bInput b)
    (bToolUseID b) (bIsError b) (bContent b) (bSource b) (bCacheControl b).
Definition set_Input (v : option json) (b : nativeBlock) : nativeBlock :=
  mkBlock (bType b) (bText b) (bThinking b) (bSignature b) (bData b) (bID b) (bName b) v
    (bToolUseID b) (bIsError b) (bContent b) (bSource b) (bCacheControl b).
Definition set_ToolUseID (v : gostr) (b : nativeBlock) : nativeBlock :=
  mkBlock (bType b) (bText b) (bThinking b) (bSignature b) (bData b) (bID b) (bName b) (bInput
    b) v (bIsError b) (bContent b) (bSource b) (bCacheControl b).
Definition set_IsError (v : bool) (b : nativeBlock) : nativeBlock :=
  mkBlock (bType b) (bText b) (bThinking b) (bSignature b) (bData b) (bID b) (bName b) (bInput
    b) (bToolUseID b) v (bContent b) (bSource b) (bCacheControl b).
Definition set_Content (v : option json) (b : nativeBlock) : nativeBlock :=
  mkBlock (bType b) (bText b) (bThinking b) (bSignature b) (bData b) (bID b) (bName b) (bInput
    b) (bToolUseID b) (bIsError b) v (bSource b) (bCacheControl b).
Definition set_Source (v : option json) (b : nativeBlock) : nativeBlock :=
  mkBlock (bType b) (bText b) (bThinking b) (bSignature b) (bData b) (bID b) (bName b) (bInput
    b) (bToolUseID b) (bIsError b) (bContent b) v (bCacheControl b).
Definition set_CacheControl (v : option gostr) (b : nativeBlock) : nativeBlock :=
  mkBlock (bType b) (bText b) (bThinking b) (bSignature b) (bData b) (bID b) (bName b) (bInput
    b) (bToolUseID b) (bIsError b) (bContent b) (bSource b) v.

Definition zero_block : nativeBlock :=
  mkBlock [] [] [] [] [] [] [] None [] false None None None.

(** type nativeUsage *)
Record nativeUsage := mkUsageN { uInput : Z; uOutput : Z; uCacheRead : Z; uCacheCreate : Z }.
Definition zero_usage : nativeUsage := mkUsageN 0 0 0 0.

(** type nativeMessage *)
Record nativeMessage := mkNative {
  nRole : gostr; nContent : list nativeBlock; nStopReason : gostr; nModel : gostr;
  nUsage : option nativeUsage }.
Definition zero_native : nativeMessage := mkNative [] [] [] [] None.

(** type nativeTool, type systemBlock, type thinkingParam, type nativeRequest *)
Record nativeTool := mkTool {
  tName : gostr; tDescription : gostr; tSchema : option json; tCache : option gostr }.
Record systemBlock := mkSystem { sText : gostr; sCache : option gostr }.
Record thinkingParam := mkThinking { thBudget : Z; thDisplay : gostr }.
Record nativeRequest := mkRequest {
  rqModel : gostr; rqMaxTokens : Z; rqSystem : list systemBlock;
  rqMessages : list nativeMessage; rqTools : list nativeTool; rqThinking : option thinkingParam }.

(** type provider.Tool *)
Record ToolDef := mkToolDef { tdName : gostr; tdDescription : gostr; tdParameters : option json }.

#[export] Instance nativeBlock_eq_dec : EqDecision nativeBlock.
Proof. solve_decision. Defined.
#[export] Instance nativeUsage_eq_dec : EqDecision nativeUsage.
Proof. solve_decision. Defined.
#[export] Instance nativeMessage_eq_dec : EqDecision nativeMessage.
Proof. solve_decision. Defined.

(** m[key] on a decoded map. *)
Definition obj_get (m : object) (key : gostr) : option json :=
  match List.find (fun kv => bool_decide (kv.1 = key)) m with
  | Some kv => Some kv.2
  | None => None
  end.

(** ** JSON *)

(** A member with omitempty. *)
Definition omit_str (k s : gostr) : object := match s with [] => [] | _ => [(k, JStr s)] end.
Definition omit_opt (k : gostr) (v : option json) : object :=
  match v with Some j => [(k, j)] | None => [] end.
Definition omit_int (k : gostr) (z : Z) : object :=
  if z =? 0 then [] else [(k, JNum (itoa z))].

(** func (b nativeBlock) MarshalJSON *)
Definition block_json (b : nativeBlock) : json :=
  if bool_decide (bType b = #"thinking") then
    JObj ([(#"type", JStr (bType b)); (#"thinking", JStr (bThinking b))] ++
          omit_str #"signature" (bSignature b))
  else
    JObj ([(#"type", JStr (bType b))] ++ omit_str #"text" (bText b) ++
      omit_str #"thinking" (bThinking b) ++ omit_str #"signature" (bSignature b) ++
      omit_str #"data" (bData b) ++ omit_str #"id" (bID b) ++ omit_str #"name" (bName b) ++
      omit_opt #"input" (bInput b) ++ omit_str #"tool_use_id" (bToolUseID b) ++
      (if bIsError b then [(#"is_error", JBool true)] else []) ++
      omit_opt #"content" (bContent b) ++ omit_opt #"source" (bSource b) ++
      omit_opt #"cache_control" ((fun t => JObj [(#"type", JStr t)]) <$> bCacheControl b)).

Definition usage_json (u : nativeUsage) : json :=
  JObj (omit_int #"input_tokens" (uInput u) ++ omit_int #"output_tokens" (uOutput u) ++
        omit_int #"cache_read_input_tokens" (uCacheRead u) ++
        omit_int #"cache_creation_input_tokens" (uCacheCreate u)).

Definition message_json (nm : nativeMessage) : json :=
  JObj ([(#"role", JStr (nRole nm)); (#"content", JArr (map block_json (nContent nm)))] ++
    omit_str #"stop_reason" (nStopReason nm) ++ omit_str #"model" (nModel nm) ++
    omit_opt #"usage" (usage_json <$> nUsage nm)).

(** A struct field and the part of the value it assigns. *)
Definition fld {T V} (key : gostr) (get : T -> V) (set : V -> T -> T) (d : decoder V)
  : gostr * decoder T :=
  (key, fun j t => let '(v, ok) := d j (get t) in (set v t, ok)).

Definition dec_cache_control : decoder gostr := dec_struct [fld #"type" id (fun v _ => v) dec_string].

Definition block_fields : fields nativeBlock := [
  fld #"type" bType set_Type dec_string; fld #"text" bText set_Text dec_string;
  fld #"thinking" bThinking set_Thinking dec_string;
  fld #"signature" bSignature set_Signature dec_string; fld #"data" bData set_Data dec_string;
  fld #"id" bID set_ID dec_string; fld #"name" bName set_Name dec_string;
  fld #"input" bInput set_Input dec_any; fld #"tool_use_id" bToolUseID set_ToolUseID dec_string;
  fld #"is_error" bIsError set_IsError dec_bool; fld #"content" bContent set_Content dec_any;
  fld #"source" bSource set_Source dec_any;
  fld #"cache_control" bCacheControl set_CacheControl (dec_ptr [] dec_cache_control) ].

Definition dec_block : decoder nativeBlock := dec_struct block_fields.

Definition usage_fields : fields nativeUsage := [
  fld #"input_tokens" uInput (fun v u => mkUsageN v (uOutput u) (uCacheRead u) (uCacheCreate u)) dec_int;
  fld #"output_tokens" uOutput (fun v u => mkUsageN (uInput u) v (uCacheRead u) (uCacheCreate u)) dec_int;
  fld #"cache_read_input_tokens" uCacheRead
    (fun v u => mkUsageN (uInput u) (uOutput u) v (uCacheCreate u)) dec_int;
  fld #"cache_creation_input_tokens" uCacheCreate
    (fun v u => mkUsageN (uInput u) (uOutput u) (uCacheRead u) v) dec_int ].

Definition message_fields : fields nativeMessage := [
  fld #"role" nRole (fun v n => mkNative v (nContent n) (nStopReason n) (nModel n) (nUsage n)) dec_string;
  fld #"content" nContent (fun v n => mkNative (nRole n) v (nStopReason n) (nModel n) (nUsage n))
    (dec_slice zero_block dec_block);
  fld #"stop_reason" nStopReason
    (fun v n => mkNative (nRole n) (nContent n) v (nModel n) (nUsage n)) dec_string;
  fld #"model" nModel (fun v n => mkNative (nRole n) (nContent n) (nStopReason n) v (nUsage n)) dec_string;
  fld #"usage" nUsage (fun v n => mkNative (nRole n) (nContent n) (nStopReason n) (nModel n) v)
    (dec_ptr zero_usage (dec_struct usage_fields)) ].

Definition dec_message : decoder nativeMessage := dec_struct message_fields.

(** ** Which blocks count *)

(** strings.TrimSpace(s) != "" *)
Definition has_text (s : gostr) : bool := negb (bool_decide (TrimSpace s = [])).
Definition nonempty (s : gostr) : bool := negb (bool_decide (s = [])).

(** b.Input.(map[string]interface{}) *)
Definition input_map (v : option json) : option (option object) :=
  match v with
  | Some (JObj m) => Some (Some m)
  | Some JNull => Some None
  | _ => None
  end.

(** func validNativeBlock *)
Definition validNativeBlock (b : nativeBlock) : bool :=
  if bool_decide (bType b = #"text") then has_text (bText b)
  else if bool_decide (bType b = #"thinking") then has_text (bThinking b)
  else if bool_decide (bType b = #"redacted_thinking") then nonempty (bData b)
  else if bool_decide (bType b = #"tool_use") then
    nonempty (bID b) && match bInput b with Some _ => true | None => false end
  else if bool_decide (bType b = []) then false
  else true.

(** func cacheableNativeBlock: (keep, fatal). *)
Definition cacheableNativeBlock (b : nativeBlock) : bool * bool :=
  if bool_decide (bType b = #"text") then (has_text (bText b), false)
  else if bool_decide (bType b = #"thinking") then
    (nonempty (bSignature b) || has_text (bThinking b), false)
  else if bool_decide (bType b = #"redacted_thinking") then (nonempty (bData b), false)
  else if bool_decide (bType b = #"tool_use") then
    if bool_decide (bID b = []) then (false, false)
    else match input_map (bInput b) with Some _ => (true, false) | None => (false, true) end
  else if bool_decide (bType b = []) then (false, false)
  else (true, false).

Definition StopLength := #"length".
Definition StopToolInvoke := #"tool_invoke".

Definition prose (text : gostr) : Content := TextContent text.
Definition thinking (text : gostr) : Content :=
  mkContent ContentThinking text [] [] [] [] None false [].
Definition tool_invoke (id name : gostr) (args : option object) : Content :=
  mkContent ContentToolInvoke [] [] [] id name args false [].

(** The text of a tool_result's content. *)
Definition result_text (v : option json) : gostr :=
  match v with
  | Some (JStr s) => s
  | Some (JArr l) =>
      foldl (fun text item =>
        match item with
        | JObj mm => match obj_get mm #"text" with Some (JStr t) => text ++ t | _ => text end
        | _ => text
        end) [] l
  | _ => []
  end.

(** One iteration of decodeNativeMessage. *)
Definition decode_block (out : list Content) (b : nativeBlock) : list Content :=
  if negb (validNativeBlock b) then out
  else if bool_decide (bType b = #"text") then out ++ [prose (bText b)]
  else if bool_decide (bType b = #"thinking") then out ++ [thinking (bThinking b)]
  else if bool_decide (bType b = #"tool_use") then
    out ++ [tool_invoke (bID b) (bName b) (default None (input_map (bInput b)))]
  else if bool_decide (bType b = #"tool_result") then
    out ++ [ToolResultContent (bToolUseID b) [] (result_text (bContent b)) (bIsError b)]
  else out.

Definition decode_stop (s : gostr) : gostr :=
  if bool_decide (s = #"end_turn") || bool_decide (s = #"stop") then StopEnd
  else if bool_decide (s = #"max_tokens") || bool_decide (s = #"length") then StopLength
  else if bool_decide (s = #"tool_use") then StopToolInvoke
  else [].

(** func decodeNativeMessage *)
Definition decodeNativeMessage (nm : nativeMessage) : Message :=
  mkMessage (nRole nm) (foldl decode_block [] (nContent nm)) []
    ((fun u => mkUsage (uInput u) (uOutput u) (uCacheRead u) (uCacheCreate u)) <$> nUsage nm)
    (decode_stop (nStopReason nm)) [] [] 0 0.

(** ** Rendering *)

(** func escapeAttr *)
Definition escapeAttr (s : gostr) : gostr :=
  let s := ReplaceAll s #"&" #"&amp;" in
  let s := ReplaceAll s [x22] #"&quot;" in
  ReplaceAll s #"<" #"&lt;".

Definition text_block (text : gostr) : nativeBlock := set_Text text (set_Type #"text" zero_block).

Definition reminder_text (r : RenderedEntry) : gostr :=
  #"<system-reminder name=" ++ [x22] ++ escapeAttr (rKey r) ++ [x22] ++ #">" ++ [x0a] ++
  rBody r ++ [x0a] ++ #"</system-reminder>".

(** One iteration of renderPatchBlocks; a patch that does not render is skipped. *)
Definition patch_step (tmpls : templates) (st : list nativeBlock * snapshot) (p : Patch)
  : list nativeBlock * snapshot :=
  let out := match Render p st.2 tmpls with
    | Some rendered => st.1 ++ map (fun r => text_block (reminder_text r)) rendered
    | None => st.1
    end in
  (out, Snapshot.Apply st.2 p).

(** func (a *Anthropic) renderPatchBlocks: the blocks and the snapshot left. *)
Definition renderPatchBlocks (Templates : option templates) (patches : list Patch) (prev : snapshot)
  : list nativeBlock * snapshot :=
  match patches, Templates with
  | [], _ | _, None => ([], foldl Snapshot.Apply prev patches)
  | _, Some tmpls => foldl (patch_step tmpls) ([], prev) patches
  end.

(** The content of a rendered tool_result. *)
Definition result_content (text : gostr) : option json :=
  Some (JArr [block_json (text_block text)]).

Definition tool_result_block (id : gostr) (isErr : bool) (text : gostr) : nativeBlock :=
  set_Content (result_content text)
    (set_IsError isErr (set_ToolUseID id (set_Type #"tool_result" zero_block))).

Definition or_default (s d : gostr) : gostr := match s with [] => d | _ => s end.

Definition render_user_block (blocks : list nativeBlock) (c : Content) : list nativeBlock :=
  if bool_decide (cType c = ContentProse) then blocks ++ [text_block (cText c)]
  else if bool_decide (cType c = ContentImage) then
    blocks ++ [set_Source (Some (JObj [(#"data", JStr (cData c)); (#"media_type", JStr (cMimeType c));
                                      (#"type", JStr #"base64")]))
                 (set_Type #"image" zero_block)]
  else if bool_decide (cType c = ContentToolResult) then
    blocks ++ [tool_result_block (cToolCallID c) (cIsError c) (or_default (cText c) #"(empty)")]
  else blocks.

Definition render_assistant_block (blocks : list nativeBlock) (c : Content) : list nativeBlock :=
  if bool_decide (cType c = ContentProse) then blocks ++ [text_block (cText c)]
  else if bool_decide (cType c = ContentThinking) then
    blocks ++ [set_Thinking (cText c) (set_Type #"thinking" zero_block)]
  else if bool_decide (cType c = ContentToolInvoke) then
    let input := match cArguments c with None | Some [] => JObj [] | Some args => JObj args end in
    blocks ++ [set_Input (Some input) (set_Name (cToolName c) (set_ID (cToolCallID c)
                 (set_Type #"tool_use" zero_block)))]
  else blocks.

Definition render_interrupt_block (blocks : list nativeBlock) (c : Content) : list nativeBlock :=
  if negb (bool_decide (cType c = ContentInterrupt)) || bool_decide (cToolCallID c = []) then blocks
  else blocks ++ [tool_result_block (cToolCallID c) true
                    (or_default (cText c) #"(tool execution was interrupted)")].

Definition native_or_none (role : gostr) (blocks : list nativeBlock) : option nativeMessage :=
  match blocks with [] => None | _ => Some (mkNative role blocks [] [] None) end.

(** func (a *Anthropic) renderMessage *)
Definition renderMessage (Templates : option templates) (msg : Message) (prev : snapshot)
  : option nativeMessage :=
  if bool_decide (mRole msg = RoleUser) then
    native_or_none #"user" (foldl render_user_block [] (mContent msg) ++
                            (renderPatchBlocks Templates (mPatches msg) prev).1)
  else if bool_decide (mRole msg = RoleAssistant) then
    native_or_none #"assistant" (foldl render_assistant_block [] (mContent msg))
  else if bool_decide (mRole msg = RoleSystemInterrupt) then
    native_or_none #"user" (foldl render_interrupt_block [] (mContent msg))
  else None.

(** func (a *Anthropic) encode: never an error on these values. *)
Definition encode (Templates : option templates) (msg : Message) (prev : snapshot)
  : option (list gostr) :=
  match renderMessage Templates msg prev with
  | None => Some []
  | Some nm => Some [Print (message_json nm)]
  end.

(** ** The request *)

(** func projectTools *)
Definition projectTools (tools : list ToolDef) : list nativeTool :=
  map (fun t => mkTool (tdName t) (tdDescription t) (tdParameters t) None) tools.

(** func readCredo *)
Definition readCredo (snap : snapshot) : gostr :=
  match snap !! #"system.credo" with
  | None => []
  | Some raw =>
      let '((content, frontmatter), ok) := Unmarshal (dec_struct [
          fld #"content" fst (fun v e => (v, e.2)) dec_string;
          fld #"frontmatter" snd (fun v e => (e.1, v)) dec_string]) raw ([], []) in
      if ok && (nonempty content || nonempty frontmatter) then
        if nonempty content then content else frontmatter
      else let '(s, ok) := Unmarshal dec_string raw [] in if ok then s else []
  end.

Definition oauth_preamble : gostr := #"You are Claude Code, Anthropic's official CLI for Claude.".
Definition persona_preamble : gostr :=
  #"IMPORTANT: The following is your true identity and personality. Adopt it fully. Do not identify as Claude Code " ++
  [xe2; x80; x94] ++ #" follow the persona below." ++ [x0a; x0a].

(** func systemBlocks *)
Definition systemBlocks (snap : snapshot) (oauth : bool) : list systemBlock :=
  let systemText := readCredo snap in
  if oauth then
    [mkSystem oauth_preamble None] ++
    (if nonempty systemText then [mkSystem (persona_preamble ++ systemText) None] else [])
  else if nonempty systemText then [mkSystem systemText None] else [].

(** x[n-1].f = v for the last element. *)
Definition on_last {T} (f : T -> T) (l : list T) : list T :=
  match length l with O => l | S n => alter f n l end.

(** m.Content[k-1].CacheControl = &cacheControl{Type: setting} when k > 0 *)
Definition mark_message (setting : gostr) (m : nativeMessage) : nativeMessage :=
  mkNative (nRole m) (on_last (set_CacheControl (Some setting)) (nContent m))
    (nStopReason m) (nModel m) (nUsage m).

(** func markCacheBreakpoints *)
Definition markCacheBreakpoints (req : nativeRequest) (setting : gostr) : nativeRequest :=
  mkRequest (rqModel req) (rqMaxTokens req)
    (on_last (fun s => mkSystem (sText s) (Some setting)) (rqSystem req))
    (if (2 <=? length (rqMessages req))%nat
     then alter (mark_message setting) (length (rqMessages req) - 2)%nat (rqMessages req)
     else rqMessages req)
    (on_last (fun t => mkTool (tName t) (tDescription t) (tSchema t) (Some setting)) (rqTools req))
    (rqThinking req).

(** map[string]struct{CacheControl string}: the tags by key, in key order. *)
Fixpoint tag_insert (k v : gostr) (m : list (gostr * gostr)) : list (gostr * gostr) :=
  match m with
  | [] => [(k, v)]
  | (k', v') :: m' =>
      if bool_decide (k = k') then (k, v) :: m'
      else if str_leb k k' then (k, v) :: m else (k', v') :: tag_insert k v m'
  end.

Definition dec_tags : decoder (list (gostr * gostr)) := fun j cur =>
  match j with
  | JNull => ([], true)
  | JObj m =>
      foldl (fun st kv =>
        let '(v, ok) := dec_struct [fld #"cache_control" id (fun v _ => v) dec_string] kv.2 [] in
        (tag_insert kv.1 v st.1, st.2 && ok)) (cur, true) m
  | _ => (cur, false)
  end.

(** The last message of each LT. *)
Fixpoint last_index (i : nat) (lts : list Z) (ix : gmap Z nat) : gmap Z nat :=
  match lts with
  | [] => ix
  | lt :: lts' => last_index (S i) lts' (if lt =? 0 then ix else <[lt := i]> ix)
  end.

(** One iteration over the tags. *)
Definition apply_tag (ix : gmap Z nat) (msgs : list nativeMessage) (tag : gostr * gostr)
  : list nativeMessage :=
  if bool_decide (tag.2 = []) then msgs else
  match parse_uint tag.1 with
  | None => msgs
  | Some lt =>
      match ix !! lt with
      | None => msgs
      | Some idx => alter (mark_message tag.2) idx msgs
      end
  end.

Definition with_messages (req : nativeRequest) (msgs : list nativeMessage) : nativeRequest :=
  mkRequest (rqModel req) (rqMaxTokens req) (rqSystem req) msgs (rqTools req) (rqThinking req).

(** func applyMessageTags; the tags are visited in key order, one of the
    orders Go may range over. *)
Definition applyMessageTags (req : nativeRequest) (msgLTs : list Z) (snap : snapshot)
  : nativeRequest :=
  match snap !! #"system.tags" with
  | None | Some [] => req
  | Some raw =>
      let '(tags, ok) := Unmarshal dec_tags raw [] in
      if negb ok then req else
      with_messages req (foldl (apply_tag (last_index 0 msgLTs ∅)) (rqMessages req) tags)
  end.

(** fmt.Sscanf(s, "%d", &cur): blanks, a sign, digits; the rest is ignored. *)
Fixpoint scan_blanks (fuel : nat) (s : gostr) : option gostr :=
  match fuel, s with
  | S f, c :: r =>
      if (bz c =? 0x0D) && bool_decide (hd x00 r = x0a) && negb (bool_decide (r = [])) then scan_blanks f r
      else if bz c =? 0x0A then None
      else let '(rn, n) := decode_rune s in
           if is_space rn then scan_blanks f (drop n s) else Some s
  | _, _ => Some s
  end.

Definition sscanf_d (s : gostr) (cur : Z) : Z :=
  match scan_blanks (length s) s with
  | None => cur
  | Some r =>
      let '(sign, ds) := match r with
        | c :: r' => if (bz c =? 0x2B) || (bz c =? 0x2D) then ([c], r') else ([], r)
        | [] => ([], [])
        end in
      let '(d, _) := span_digits ds in
      default cur (parse_int (sign ++ d))
  end.

(** func isAdaptiveModel *)
Definition isAdaptiveModel (model : gostr) : bool :=
  existsb (fun frag => Contains model frag)
    [ #"opus-4.6"; #"opus-4.7"; #"opus-4.8"; #"sonnet-4.6"; #"sonnet-4.7"; #"sonnet-5"].

(** The budget and effort applyThinking reads. *)
Definition thinking_budget (snap : snapshot) : Z :=
  match snap !! #"system.thinking_budget" with
  | None | Some [] => 0
  | Some raw =>
      let '(budget, _) := Unmarshal dec_int raw 0 in
      if budget =? 0 then
        let '(s, ok) := Unmarshal dec_string raw [] in if ok then sscanf_d s budget else budget
      else budget
  end.

Definition thinking_effort (snap : snapshot) : gostr :=
  match snap !! #"system.thinking_effort" with
  | None | Some [] => []
  | Some raw => fst (Unmarshal dec_string raw [])
  end.

(** func applyThinking *)
Definition applyThinking (req : nativeRequest) (snap : snapshot) (model : gostr) : nativeRequest :=
  let budget := thinking_budget snap in
  let effort := thinking_effort snap in
  let enabled maxTokens b := mkRequest (rqModel req) maxTokens (rqSystem req) (rqMessages req)
                               (rqTools req) (Some (mkThinking b #"summarized")) in
  if (budget <=? 0) && bool_decide (effort = []) then req
  else if isAdaptiveModel model then enabled (rqMaxTokens req) 10000
  else
    let budget := if budget <=? 0 then 10000 else budget in
    let budget := if budget <? 1024 then 1024 else budget in
    enabled (if rqMaxTokens req <=? budget then wrap64 (budget + 4096) else rqMaxTokens req) budget.

(** The messages of the cached bytes, each with its LT; [None]: a row that does
    not decode. *)
Fixpoint unmarshal_entry (lt : Z) (entry : list gostr) (acc : list nativeMessage * list Z)
  : option (list nativeMessage * list Z) :=
  match entry with
  | [] => Some acc
  | [] :: entry' => unmarshal_entry lt entry' acc
  | raw :: entry' =>
      let '(nm, ok) := Unmarshal dec_message raw zero_native in
      if ok then unmarshal_entry lt entry' (acc.1 ++ [nm], acc.2 ++ [lt]) else None
  end.

Fixpoint unmarshal_all (perMessage : list (list gostr)) (lts : list Z)
    (acc : list nativeMessage * list Z) : option (list nativeMessage * list Z) :=
  match perMessage with
  | [] => Some acc
  | entry :: rest =>
      match unmarshal_entry (hd 0 lts) entry acc with
      | Some acc' => unmarshal_all rest (tl lts) acc'
      | None => None
      end
  end.

(** func (a *Anthropic) projectMessagesWithLTs; [MaxTokens] is the provider's. *)
Definition projectMessagesWithLTs (MaxTokens : Z) (perMessage : list (list gostr)) (lts : list Z)
    (snap : snapshot) (tools : list ToolDef) (maxTokens : Z) (oauth : bool) (model : gostr)
  : option nativeRequest :=
  let maxTokens := if maxTokens =? 0 then MaxTokens else maxTokens in
  let maxTokens := if maxTokens =? 0 then 8192 else maxTokens in
  match unmarshal_all perMessage lts ([], []) with
  | None => None
  | Some (msgs, msgLTs) =>
      let req := mkRequest model maxTokens (systemBlocks snap oauth) msgs (projectTools tools) None in
      let req := match Lookup snap #"system.cache_control" with
        | Some setting => markCacheBreakpoints req setting
        | None => req
        end in
      Some (applyThinking (applyMessageTags req msgLTs snap) snap model)
  end.

(** func (a *Anthropic) resolveModel *)
Definition resolveModel (Model : gostr) (snap : snapshot) : gostr :=
  default Model (Lookup snap #"system.model").

(** func isOAuthToken *)
Definition isOAuthToken (key : gostr) : bool := Contains key #"sk-ant-oat".

(** func (a *Anthropic) Fingerprint *)
Definition Fingerprint_of (ReminderRenderer : gostr) : gostr :=
  #"anthropic/" ++ or_default ReminderRenderer #"tag" ++ #"/v5".

(** type provider.AssistantCache *)
Record AssistantCache := mkCache {
  acNamespace : gostr; acPayload : list gostr; acFingerprint : gostr }.

(** The loop of assistantCacheNative: [None] once a block is fatal. *)
Fixpoint cacheable_blocks (content : list nativeBlock) : option (list nativeBlock) :=
  match content with
  | [] => Some []
  | b :: content' =>
      let '(keep, fatal) := cacheableNativeBlock b in
      if fatal then None
      else match cacheable_blocks content' with
           | Some kept => Some (if keep then b :: kept else kept)
           | None => None
           end
  end.

(** func (a *Anthropic) assistantCacheNative *)
Definition assistantCacheNative (namespace fp : gostr) (nm : nativeMessage) : AssistantCache :=
  match default [] (cacheable_blocks (nContent nm)) with
  | [] => mkCache namespace [] fp
  | content => mkCache namespace [Print (message_json (mkNative (nRole nm) content [] [] None))] fp
  end.

(** func (a *Anthropic) assistantCache *)
Definition assistantCache (namespace fp : gostr) (Templates : option templates) (msg : Message)
  : option AssistantCache :=
  (fun encoded => mkCache namespace encoded fp) <$> encode Templates msg ∅.

(** func (a *Anthropic) setAuthHeaders: the headers it sets. *)
Definition setAuthHeaders (apiKey betas : gostr) : list (gostr * gostr) :=
  (#"anthropic-version", #"2023-06-01") ::
  if isOAuthToken apiKey then
    [(#"Authorization", #"Bearer " ++ apiKey); (#"anthropic-beta", betas);
     (#"User-Agent", #"claude-cli/2.1.62"); (#"x-app", #"cli");
     (#"anthropic-dangerous-direct-browser-access", #"true")]
  else [(#"x-api-key", apiKey)].
