(* ===== verification/NativeWire.v ===== *)
(** * provider/anthropic: what reaches the wire
    (theorems about src/internal/provider/anthropic/anthropic.go)

    The encoder's bytes read back as what was rendered, so a request assembled
    from cached bytes carries the log's messages; tool calls keep their pairing;
    the thinking budget fits the request. *)

From S2P Require Import Prelude Utf8 GoStrings Json GoJson Message Chalkboard Reminder Native.

(** ** Definitions *)

(** An interface{} that travels: not the typed nil, within float64's range. *)
Definition any_ok (v : option json) : Prop :=
  match v with
  | None => True
  | Some j => j <> JNull /\ num_range_err j = false /\ printable 3 j
  end.

(** A block whose strings are UTF-8 and whose values travel. *)
Definition block_ok (b : nativeBlock) : Prop :=
  Forall valid_utf8 [bType b; bText b; bThinking b; bSignature b; bData b; bID b; bName b;
                     bToolUseID b; default [] (bCacheControl b)] /\
  any_ok (bInput b) /\ any_ok (bContent b) /\ any_ok (bSource b) /\
  (bType b = #"thinking" -> b = set_Signature (bSignature b) (set_Thinking (bThinking b)
                                   (set_Type #"thinking" zero_block))).

(** The block with its values as decoded. *)
Definition canon_block (b : nativeBlock) : nativeBlock :=
  set_Input (canon <$> bInput b) (set_Content (canon <$> bContent b) (set_Source (canon <$> bSource b) b)).

Definition wire_ok (nm : nativeMessage) : Prop :=
  valid_utf8 (nRole nm) /\ nStopReason nm = [] /\ nModel nm = [] /\ nUsage nm = None /\
  Forall block_ok (nContent nm).

Definition canon_native (nm : nativeMessage) : nativeMessage :=
  mkNative (nRole nm) (map canon_block (nContent nm)) (nStopReason nm) (nModel nm) (nUsage nm).

(** A message without its cache marks. *)
Definition unmarked (nm : nativeMessage) : nativeMessage :=
  mkNative (nRole nm) (map (set_CacheControl None) (nContent nm)) (nStopReason nm) (nModel nm) (nUsage nm).

(** ** One member after another *)

(** The field at position [i], when no earlier one has its key. *)
Lemma field_of_at {T} (F : fields T) i k d :
  F !! i = Some (k, d) -> forallb (fun k' => negb (bool_decide (k' = k))) (map fst (take i F)) = true ->
  field_of F k = Some d.
Proof.
  intros Hi Hf. unfold field_of.
  assert (List.find (fun f => bool_decide (f.1 = k)) F = Some (k, d)) as ->; [|done].
  revert i Hi Hf. induction F as [|f F IH]; intros [|i] Hi Hf; try done.
  - injection Hi as ->. cbn. by rewrite bool_decide_eq_true_2.
  - cbn in Hf. apply andb_true_iff in Hf as [Hn Hf]. cbn.
    destruct (bool_decide (f.1 = k)); [done|]. by apply (IH i).
Qed.

Ltac field_at i := apply (field_of_at _ i); [reflexivity|vm_compute; reflexivity].

Section members.
Context {T : Type} (F : fields T).

Lemma member_fld {V} k (get : T -> V) set d t j :
  field_of F k = Some (snd (fld k get set d)) ->
  dec_member F (t, true) (k, j) = let '(v, ok) := d j (get t) in (set v t, ok).
Proof. intros H. unfold dec_member. cbn [fst snd]. rewrite H. cbn. by destruct (d j (get t)). Qed.

Lemma fold_str k get set s t rest :
  field_of F k = Some (snd (fld k get set dec_string)) ->
  foldl (dec_member F) (t, true) ((k, JStr s) :: rest) =
  foldl (dec_member F) (set s t, true) rest.
Proof. intros H. cbn [foldl]. by rewrite (member_fld _ _ _ _ _ _ H). Qed.

Lemma fold_omit_str k get set s t rest :
  field_of F k = Some (snd (fld k get set dec_string)) -> get t = [] -> (forall u, set (get u) u = u) ->
  foldl (dec_member F) (t, true) (omit_str k s ++ rest) =
  foldl (dec_member F) (set s t, true) rest.
Proof. intros H Ht Hs. destruct s; cbn [omit_str app]; [by rewrite <- Ht, Hs|by apply fold_str with get]. Qed.

Lemma fold_omit_any k get set v t rest :
  field_of F k = Some (snd (fld k get set dec_any)) -> get t = None -> (forall u, set (get u) u = u) -> any_ok v ->
  foldl (dec_member F) (t, true) (omit_opt k v ++ rest) =
  foldl (dec_member F) (set (canon <$> v) t, true) rest.
Proof.
  intros H Ht Hs Hv.
  destruct v as [j|]; cbn [omit_opt app fmap option_fmap option_map]; [|by rewrite <- Ht, Hs].
  destruct Hv as (Hn & Hr & _). cbn [foldl]. rewrite (member_fld _ _ _ _ _ _ H).
  destruct j; cbn -[canon num_range_err]; try done; by rewrite Hr.
Qed.

Lemma fold_omit_bool k get set (v : bool) t rest :
  field_of F k = Some (snd (fld k get set dec_bool)) -> get t = false -> (forall u, set (get u) u = u) ->
  foldl (dec_member F) (t, true) ((if v then [(k, JBool true)] else []) ++ rest) =
  foldl (dec_member F) (set v t, true) rest.
Proof.
  intros H Ht Hs. destruct v; cbn [app]; [|by rewrite <- Ht, Hs].
  cbn [foldl]. by rewrite (member_fld _ _ _ _ _ _ H).
Qed.

End members.

Lemma dec_block_json b : block_ok b -> dec_block (block_json b) zero_block = (canon_block b, true).
Proof.
  intros (_ & Hi & Hc & Hs & Hth). unfold block_json. case_bool_decide as Et.
  - rewrite Et. specialize (Hth Et). rewrite Hth. cbn [bThinking bSignature set_Signature set_Thinking set_Type].
    unfold dec_block, dec_struct. cbn [app].
    rewrite (fold_str _ _ bType set_Type) by field_at 0%nat.
    rewrite (fold_str _ _ bThinking set_Thinking) by field_at 2%nat.
    rewrite <- (app_nil_r (omit_str _ _)).
    by rewrite (fold_omit_str _ _ bSignature set_Signature); [|field_at 3%nat|reflexivity|intros []].
  - unfold dec_block, dec_struct. cbn [app].
    rewrite (fold_str _ _ bType set_Type); [|field_at 0%nat].
    rewrite (fold_omit_str _ _ bText set_Text); [|field_at 1%nat|reflexivity|by intros []].
    rewrite (fold_omit_str _ _ bThinking set_Thinking); [|field_at 2%nat|reflexivity|by intros []].
    rewrite (fold_omit_str _ _ bSignature set_Signature); [|field_at 3%nat|reflexivity|by intros []].
    rewrite (fold_omit_str _ _ bData set_Data); [|field_at 4%nat|reflexivity|by intros []].
    rewrite (fold_omit_str _ _ bID set_ID); [|field_at 5%nat|reflexivity|by intros []].
    rewrite (fold_omit_str _ _ bName set_Name); [|field_at 6%nat|reflexivity|by intros []].
    rewrite (fold_omit_any _ _ bInput set_Input); [|field_at 7%nat|reflexivity|by intros []|done].
    rewrite (fold_omit_str _ _ bToolUseID set_ToolUseID); [|field_at 8%nat|reflexivity|by intros []].
    rewrite (fold_omit_bool _ _ bIsError set_IsError); [|field_at 9%nat|reflexivity|by intros []].
    rewrite (fold_omit_any _ _ bContent set_Content); [|field_at 10%nat|reflexivity|by intros []|done].
    rewrite (fold_omit_any _ _ bSource set_Source); [|field_at 11%nat|reflexivity|by intros []|done].
    destruct (bCacheControl b) as [cc|] eqn:Ecc; cbn [fmap option_fmap option_map omit_opt foldl].
    + rewrite (member_fld _ _ bCacheControl set_CacheControl (dec_ptr [] dec_cache_control));
        [|field_at 12%nat].
      unfold dec_ptr, dec_cache_control, dec_struct. cbn [foldl].
      rewrite (member_fld _ _ id (fun v _ => v) dec_string); [|field_at 0%nat].
      cbn. f_equal. unfold canon_block. destruct b; cbn in *. by subst.
    + unfold canon_block. destruct b; cbn in *. by subst.
Qed.

Lemma dec_elems_blocks l : Forall block_ok l ->
  dec_elems zero_block dec_block (map block_json l) [] = (map canon_block l, true).
Proof.
  induction 1 as [|b l Hb _ IH]; [done|]. cbn [map dec_elems hd tl].
  by rewrite (dec_block_json b Hb), IH.
Qed.

Lemma dec_message_json nm : wire_ok nm ->
  dec_message (message_json nm) zero_native = (canon_native nm, true).
Proof.
  intros (_ & Hs & Hm & Hu & Hb). unfold message_json, dec_message, dec_struct.
  rewrite Hs, Hm, Hu. cbn [omit_str omit_opt fmap option_fmap option_map app].
  rewrite (fold_str _ _ nRole (fun v n => mkNative v (nContent n) (nStopReason n) (nModel n) (nUsage n)));
    [|field_at 0%nat].
  cbn [foldl].
  rewrite (member_fld _ _ nContent
    (fun v n => mkNative (nRole n) v (nStopReason n) (nModel n) (nUsage n))
    (dec_slice zero_block dec_block)); [|field_at 1%nat].
  cbn [dec_slice]. cbn [nContent zero_native]. rewrite dec_elems_blocks by done.
  unfold canon_native. by rewrite Hs, Hm, Hu.
Qed.

(** ** The bytes are printable *)

Abbreviation member_ok d := (fun kv : gostr * json => valid_utf8 kv.1 /\ printable d kv.2).

Lemma omit_str_ok d k s : valid_utf8 k -> valid_utf8 s -> Forall (member_ok d) (omit_str k s).
Proof. intros Hk Hs. destruct s; repeat constructor; done. Qed.

Lemma omit_any_ok k v : valid_utf8 k -> any_ok v -> Forall (member_ok 3) (omit_opt k v).
Proof. intros Hk Hv. destruct v; repeat constructor; [done|]. by destruct Hv as (_ & _ & ?). Qed.

Lemma block_printable b : block_ok b -> printable 2 (block_json b).
Proof.
  intros (Hs & Hi & Hc & Hso & _). rewrite !Forall_cons in Hs.
  destruct Hs as (H1 & H2 & H3 & H4 & H5 & H6 & H7 & H8 & H9 & _).
  assert (Hstr : forall d s, valid_utf8 s -> printable d (JStr s)) by (intros; by constructor).
  unfold block_json. case_bool_decide; constructor; try done; rewrite ?Forall_app, ?Forall_cons.
  - split_and!; cbn; try lit_ok; auto using Forall_nil_2. apply omit_str_ok; [lit_ok|done].
  - split_and!; cbn -[omit_str omit_opt]; try lit_ok; auto using Forall_nil_2;
      try (apply omit_str_ok; [lit_ok|done]); try (apply omit_any_ok; [lit_ok|done]).
    + destruct (bIsError b); repeat constructor; lit_ok.
    + destruct (bCacheControl b); repeat constructor; cbn; try lit_ok; done.
Qed.

Lemma message_printable nm : wire_ok nm -> printable 0 (message_json nm).
Proof.
  intros (Hr & Hs & Hm & Hu & Hb). unfold message_json.
  rewrite Hs, Hm, Hu. cbn [omit_str omit_opt fmap option_fmap option_map app].
  constructor; [done|]. repeat constructor; cbn [fst snd]; try lit_ok; try done.
  clear -Hb. induction Hb as [|b l Hb _ IH]; constructor; [|done]. by apply block_printable.
Qed.

(** The encoder's bytes read back as the rendered message. *)
Lemma encode_reads_back nm : wire_ok nm ->
  Unmarshal dec_message (Print (message_json nm)) zero_native = (canon_native nm, true).
Proof.
  intros H. unfold Unmarshal. rewrite (Parse_Print _ (message_printable nm H)).
  by apply dec_message_json.
Qed.

(** ** Assembling a request *)

(** The messages of a log as the encoder rendered them. *)
Definition rendered (Templates : option templates) (log : list (Message * snapshot)) : list nativeMessage :=
  omap (fun ms => renderMessage Templates ms.1 ms.2) log.

Lemma Print_nonempty d v : printable d v -> Print v <> [].
Proof. intros H. destruct (Print_head d v H) as (c & r & -> & _). done. Qed.

Lemma unmarshal_entry_encode Templates msg prev lt acc :
  (forall nm, renderMessage Templates msg prev = Some nm -> wire_ok nm) ->
  exists lts, unmarshal_entry lt (default [] (encode Templates msg prev)) acc =
    Some (acc.1 ++ map canon_native (rendered Templates [(msg, prev)]), acc.2 ++ lts).
Proof.
  intros Hok. unfold encode, rendered. cbn [omap list_omap fst snd].
  destruct (renderMessage Templates msg prev) as [nm|] eqn:Er; cbn [default].
  - specialize (Hok nm eq_refl).
    pose proof (Print_nonempty _ _ (message_printable _ Hok)) as Hne.
    pose proof (encode_reads_back nm Hok) as Hrb.
    destruct (Print (message_json nm)) as [|c r]; [done|]. cbn [unmarshal_entry id].
    rewrite Hrb. by exists [lt].
  - exists []. cbn. rewrite !app_nil_r. by destruct acc.
Qed.

Lemma unmarshal_all_encode Templates log lts acc :
  Forall (fun ms => forall nm, renderMessage Templates ms.1 ms.2 = Some nm -> wire_ok nm) log ->
  exists lts', unmarshal_all (map (fun ms => default [] (encode Templates ms.1 ms.2)) log) lts acc =
    Some (acc.1 ++ map canon_native (rendered Templates log), acc.2 ++ lts').
Proof.
  intros H. revert lts acc. induction H as [|[msg prev] log Hm _ IH]; intros lts acc.
  - exists []. cbn. rewrite !app_nil_r. by destruct acc.
  - cbn [map unmarshal_all fst snd]. cbn [fst snd] in Hm.
    destruct (unmarshal_entry_encode Templates msg prev (hd 0 lts) acc Hm) as [l1 ->].
    destruct (IH (tl lts) (acc.1 ++ map canon_native (rendered Templates [(msg, prev)]), acc.2 ++ l1))
      as [l2 ->]. cbn [fst snd].
    exists (l1 ++ l2). rewrite <- !app_assoc, <- map_app. do 4 f_equal.
    symmetry. exact (omap_app _ [(msg, prev)] log).
Qed.

Lemma unmarked_mark setting m : unmarked (mark_message setting m) = unmarked m.
Proof.
  unfold unmarked, mark_message. cbn. f_equal.
  unfold on_last. destruct (length (nContent m)) as [|n] eqn:E; [done|].
  apply list_eq. intros i. rewrite !list_lookup_fmap. 
  destruct (decide (i = n)) as [->|Hne].
  - rewrite list_lookup_alter_eq. by destruct (nContent m !! n).
  - by rewrite list_lookup_alter_ne.
Qed.

Lemma unmarked_alter setting i ms :
  map unmarked (alter (mark_message setting) i ms) = map unmarked ms.
Proof.
  apply list_eq. intros k. rewrite !list_lookup_fmap.
  destruct (decide (k = i)) as [->|Hne].
  - rewrite list_lookup_alter_eq. destruct (ms !! i); cbn; [by rewrite unmarked_mark|done].
  - by rewrite list_lookup_alter_ne.
Qed.

Lemma unmarked_tags ix tags ms :
  map unmarked (foldl (apply_tag ix) ms tags) = map unmarked ms.
Proof.
  revert ms. induction tags as [|tag tags IH]; intros ms; [done|]. cbn [foldl]. rewrite IH.
  unfold apply_tag. case_bool_decide; [done|].
  destruct (parse_uint tag.1) as [lt|]; [|done]. destruct (ix !! lt); [|done].
  apply unmarked_alter.
Qed.

Lemma unmarked_request req lts snap setting model :
  let req1 := match setting with Some s => markCacheBreakpoints req s | None => req end in
  map unmarked (rqMessages (applyThinking (applyMessageTags req1 lts snap) snap model)) =
  map unmarked (rqMessages req).
Proof.
  intros req1.
  assert (H1 : map unmarked (rqMessages req1) = map unmarked (rqMessages req)).
  { subst req1. destruct setting; [|done]. unfold markCacheBreakpoints. cbn.
    case_match; [apply unmarked_alter|done]. }
  rewrite <- H1. clearbody req1.
  assert (H2 : forall r, rqMessages (applyThinking r snap model) = rqMessages r).
  { intros r. unfold applyThinking. by repeat case_match. }
  rewrite H2. unfold applyMessageTags. destruct (snap !! _) as [[|c raw]|]; [done| |done].
  destruct (Unmarshal _ _ _) as [tags [|]]; cbn; [apply unmarked_tags|done].
Qed.

(** ** The pairing of tool calls *)

Definition block_ids (typ : gostr) (get : nativeBlock -> gostr) (blocks : list nativeBlock) : list gostr :=
  map get (List.filter (fun b => bool_decide (bType b = typ)) blocks).

Lemma block_ids_app typ get l k :
  block_ids typ get (l ++ k) = block_ids typ get l ++ block_ids typ get k.
Proof. unfold block_ids. by rewrite List.filter_app, map_app. Qed.

(** A renderer that adds at most one block per content item. *)
Lemma foldl_blocks (f : list nativeBlock -> Content -> list nativeBlock) (one : Content -> list nativeBlock) l acc :
  (forall acc c, f acc c = acc ++ one c) -> foldl f acc l = acc ++ concat (map one l).
Proof.
  intros H. revert acc. induction l as [|c l IH]; intros acc; cbn; [by rewrite app_nil_r|].
  by rewrite IH, H, app_assoc.
Qed.

Lemma block_ids_concat typ get (one : Content -> list nativeBlock) (p : Content -> bool) l :
  (forall c, block_ids typ get (one c) = if p c then [cToolCallID c] else []) ->
  block_ids typ get (concat (map one l)) = map cToolCallID (List.filter p l).
Proof.
  intros H. induction l as [|c l IH]; [done|]. cbn [map concat List.filter].
  rewrite block_ids_app, H, IH. by destruct (p c).
Qed.

Lemma user_one acc c : render_user_block acc c = acc ++ render_user_block [] c.
Proof. unfold render_user_block. by repeat case_bool_decide; rewrite ?app_nil_r. Qed.
Lemma assistant_one acc c : render_assistant_block acc c = acc ++ render_assistant_block [] c.
Proof. unfold render_assistant_block. by repeat case_bool_decide; rewrite ?app_nil_r. Qed.
Lemma interrupt_one acc c : render_interrupt_block acc c = acc ++ render_interrupt_block [] c.
Proof. unfold render_interrupt_block. by case_if; rewrite ?app_nil_r. Qed.

Lemma reminders_are_text tmpls patches st :
  Forall (fun b => bType b = #"text") st.1 ->
  Forall (fun b => bType b = #"text") (foldl (patch_step tmpls) st patches).1.
Proof.
  revert st. induction patches as [|p patches IH]; intros st Hst; [done|]. cbn [foldl].
  apply IH. unfold patch_step. cbn [fst]. destruct (Render p st.2 tmpls); [|done].
  apply Forall_app. split; [done|]. apply Forall_forall. intros b Hb.
  apply list_elem_of_fmap in Hb as (r & -> & _). done.
Qed.

Lemma patch_blocks_text Templates patches prev :
  Forall (fun b => bType b = #"text") (renderPatchBlocks Templates patches prev).1.
Proof.
  unfold renderPatchBlocks. destruct patches; [constructor|]. destruct Templates; [|constructor].
  by apply reminders_are_text.
Qed.

Lemma text_no_ids typ get blocks :
  typ <> #"text" -> Forall (fun b => bType b = #"text") blocks -> block_ids typ get blocks = [].
Proof.
  intros Hne H. unfold block_ids. rewrite filter_none; [done|].
  eapply Forall_impl; [done|]. cbn. intros b ->. by apply bool_decide_eq_false_2.
Qed.

Definition rendered_blocks (Templates : option templates) (msg : Message) (prev : snapshot) : list nativeBlock :=
  default [] (nContent <$> renderMessage Templates msg prev).

Lemma native_or_none_blocks role blocks :
  default [] (nContent <$> native_or_none role blocks) = blocks.
Proof. by destruct blocks. Qed.

(** C20: A rendered message carries exactly the tool calls of the message: an
    assistant message renders one tool_use per call, in order and under its id
    (and no tool_result); a user message renders one tool_result per result;
    an interrupt sentinel renders one erroneous tool_result for every dangling
    call; no other message renders either. *)
Theorem native_pairing (Templates : option templates) (msg : Message) (prev : snapshot) :
  let blocks := rendered_blocks Templates msg prev in
  block_ids #"tool_use" bID blocks =
    (if bool_decide (mRole msg = RoleAssistant) then map cToolCallID (invokes (mContent msg)) else []) /\
  block_ids #"tool_result" bToolUseID blocks =
    (if bool_decide (mRole msg = RoleUser)
     then map cToolCallID (List.filter (fun c => bool_decide (cType c = ContentToolResult)) (mContent msg))
     else DanglingToolCallIDs msg).
Proof.
  intros blocks. subst blocks. unfold rendered_blocks, renderMessage, DanglingToolCallIDs, IsInterruptSentinel.
  destruct (decide (mRole msg = RoleUser)) as [Eu|Eu].
  { rewrite Eu. rewrite (bool_decide_eq_true_2 (RoleUser = RoleUser)),
      (bool_decide_eq_false_2 (RoleUser = RoleAssistant)) by done.
    rewrite native_or_none_blocks, (foldl_blocks _ _ _ _ user_one). cbn [app].
    rewrite !block_ids_app.
    rewrite !(text_no_ids _ _ (renderPatchBlocks _ _ _).1), !app_nil_r
      by (done || apply patch_blocks_text).
    rewrite (block_ids_concat _ _ _ (fun _ => false)).
    - rewrite (block_ids_concat _ _ _ (fun c => bool_decide (cType c = ContentToolResult))).
      + split; [|done]. by induction (mContent msg).
      + intros c. unfold render_user_block. generalize (cToolCallID c), (cText c), (cIsError c), (cMimeType c), (cData c).
        generalize (cType c). intros ty *. repeat case_bool_decide; by simplify_eq.
    - intros c. unfold render_user_block. repeat case_bool_decide; done. }
  rewrite (bool_decide_eq_false_2 (mRole msg = RoleUser)) by done.
  destruct (decide (mRole msg = RoleAssistant)) as [Ea|Ea].
  { rewrite Ea, (bool_decide_eq_true_2 (RoleAssistant = RoleAssistant)) by done.
    rewrite (bool_decide_eq_false_2 (RoleAssistant = RoleSystemInterrupt)) by done.
    cbn [negb]. rewrite native_or_none_blocks, (foldl_blocks _ _ _ _ assistant_one). cbn [app].
    rewrite (block_ids_concat _ _ _ (fun c => bool_decide (cType c = ContentToolInvoke))).
    - rewrite (block_ids_concat _ _ _ (fun _ => false)).
      + split; [done|]. by induction (mContent msg).
      + intros c. unfold render_assistant_block. repeat case_bool_decide; done.
    - intros c. unfold render_assistant_block. generalize (cType c). intros ty. repeat case_bool_decide; by simplify_eq. }
  rewrite (bool_decide_eq_false_2 (mRole msg = RoleAssistant)) by done.
  case_bool_decide as Ei; [|done]. cbn [negb].
  rewrite native_or_none_blocks, (foldl_blocks _ _ _ _ interrupt_one). cbn [app].
  rewrite (block_ids_concat _ _ _ (fun _ => false)); cycle 1.
  { intros c. unfold render_interrupt_block. by case_if. }
  split; [by induction (mContent msg)|].
  rewrite (block_ids_concat _ _ _ (fun c => bool_decide (cType c = ContentInterrupt) &&
    negb (bool_decide (cToolCallID c = [])))); [by rewrite foldl_filter_map|].
  intros c. unfold render_interrupt_block. by repeat case_bool_decide.
Qed.

(** C21: Whatever the log holds, a request assembled from the encoder's bytes
    succeeds and its messages are exactly the rendered messages, in order, as
    decoded values; cache marks and message tags change nothing else. *)
Theorem native_request_carries (MaxTokens : Z) (Templates : option templates)
    (log : list (Message * snapshot)) (lts : list Z) (snap : snapshot) (tools : list ToolDef)
    (maxTokens : Z) (oauth : bool) (model : gostr)
    (Hok : Forall wire_ok (rendered Templates log)) :
  exists req,
    projectMessagesWithLTs MaxTokens (map (fun ms => default [] (encode Templates ms.1 ms.2)) log)
      lts snap tools maxTokens oauth model = Some req /\
    map unmarked (rqMessages req) = map unmarked (map canon_native (rendered Templates log)) /\
    map tName (rqTools req) = map tdName tools.
Proof.
  assert (Hall : Forall (fun ms => forall nm, renderMessage Templates ms.1 ms.2 = Some nm -> wire_ok nm) log).
  { apply Forall_forall. intros ms Hms nm Hr. rewrite Forall_forall in Hok. apply Hok.
    unfold rendered. apply list_elem_of_omap. by exists ms. }
  destruct (unmarshal_all_encode Templates log lts ([], []) Hall) as [lts' Hu].
  unfold projectMessagesWithLTs. rewrite Hu. cbn [fst snd app].
  eexists. split; [done|]. split; [apply unmarked_request|].
  assert (H1 : forall r, rqTools (applyThinking r snap model) = rqTools r).
  { intros r. unfold applyThinking. by repeat case_match. }
  assert (H2 : forall r, rqTools (applyMessageTags r lts' snap) = rqTools r).
  { intros r. unfold applyMessageTags. repeat case_match; done. }
  rewrite H1, H2. destruct (Lookup snap #"system.cache_control") as [setting|]; cbn.
  - unfold on_last.
    assert (H3 : forall n, map tName (alter (fun t => mkTool (tName t) (tDescription t) (tSchema t) (Some setting)) n
        (projectTools tools)) = map tName (projectTools tools)).
    { intros n. apply list_eq. intros i. rewrite !list_lookup_fmap, list_lookup_alter.
      case_decide; [subst|done]. by destruct (projectTools tools !! i). }
    destruct (length (projectTools tools)); rewrite ?H3; unfold projectTools; by rewrite map_map.
  - unfold projectTools. by rewrite map_map.
Qed.

(** ** From the IR to bytes and back *)

(** Content an assistant message replays and reads back. *)
Inductive replayable : Content -> Prop :=
| rp_prose t : has_text t = true -> valid_utf8 t -> replayable (prose t)
| rp_thinking t : has_text t = true -> valid_utf8 t -> replayable (thinking t)
| rp_invoke id name args : id <> [] -> valid_utf8 id -> valid_utf8 name ->
    canon (JObj args) = JObj args -> any_ok (Some (JObj args)) ->
    replayable (tool_invoke id name (Some args)).

Lemma render_one_replayable c : replayable c ->
  exists b, render_assistant_block [] c = [b] /\ block_ok b /\ decode_block [] (canon_block b) = [c].
Proof.
  assert (Hnil : valid_utf8 []) by constructor.
  assert (Hl : forall s, forallb (fun c => bz c <? 128) s = true -> valid_utf8 s) by apply valid_lit.
  destruct 1 as [t Ht Hv|t Ht Hv|id name args Hid Hvi Hvn Hc Ha].
  - exists (text_block t). split; [done|]. split.
    + split; [|done]. repeat constructor; try done. apply Hl. vm_compute. reflexivity.
    + unfold decode_block, validNativeBlock. cbn -[has_text lit]. by rewrite Ht.
  - eexists. split; [done|]. split.
    + split; [|done]. repeat constructor; try done. apply Hl. vm_compute. reflexivity.
    + unfold decode_block, validNativeBlock. cbn -[has_text lit]. by rewrite Ht.
  - exists (set_Input (Some (JObj args)) (set_Name name (set_ID id (set_Type #"tool_use" zero_block)))).
    split; [by destruct args|]. split.
    + split; [|done]. repeat constructor; try done. apply Hl. vm_compute. reflexivity.
    + unfold canon_block. cbn [bInput set_Input set_Content set_Source fmap option_fmap option_map].
      cbn -[canon lit decode_block]. rewrite Hc. unfold decode_block, validNativeBlock, nonempty.
      cbn -[lit]. by rewrite (bool_decide_eq_false_2 (id = [])).
Qed.

Lemma decode_block_app acc b : decode_block acc b = acc ++ decode_block [] b.
Proof. unfold decode_block. by repeat case_if; rewrite ?app_nil_r. Qed.

Lemma decode_blocks_app l acc : foldl decode_block acc l = acc ++ foldl decode_block [] l.
Proof.
  revert acc. induction l as [|b l IH]; intros acc; cbn; [by rewrite app_nil_r|].
  rewrite IH, (IH (decode_block [] b)), (decode_block_app acc). by rewrite app_assoc.
Qed.

Lemma replayable_blocks content : Forall replayable content ->
  Forall block_ok (foldl render_assistant_block [] content) /\
  foldl decode_block [] (map canon_block (foldl render_assistant_block [] content)) = content /\
  (content <> [] -> foldl render_assistant_block [] content <> []).
Proof.
  rewrite (foldl_blocks _ _ _ _ assistant_one). cbn [app].
  induction 1 as [|c content Hc _ (IH1 & IH2 & _)]; [done|].
  destruct (render_one_replayable c Hc) as (b & Hb & Hok & Hd).
  cbn [map concat]. rewrite Hb. cbn [app map foldl]. split_and!; [by constructor| |done].
  by rewrite decode_blocks_app, Hd, IH2.
Qed.

(** C22: An assistant message with at least one content block, each of them
    replayable (prose or thinking that is not blank and is valid UTF-8, or a tool
    call with an id, a valid name and arguments that are not nil and are such as
    JSON reads back), goes to the wire and comes back: its encoding succeeds with
    one raw message, the bytes unmarshal, and decoding the result gives the same
    content blocks, in order. *)
Theorem native_content_roundtrip (Templates : option templates) (msg : Message) (prev : snapshot)
    (Hrole : mRole msg = RoleAssistant) (Hne : mContent msg <> [])
    (Hc : Forall replayable (mContent msg)) :
  exists raw nm, encode Templates msg prev = Some [raw] /\
    Unmarshal dec_message raw zero_native = (nm, true) /\
    mRole (decodeNativeMessage nm) = RoleAssistant /\
    mContent (decodeNativeMessage nm) = mContent msg.
Proof.
  destruct (replayable_blocks _ Hc) as (Hok & Hdec & Hnb). specialize (Hnb Hne).
  set (blocks := foldl render_assistant_block [] (mContent msg)) in *.
  set (nm := mkNative #"assistant" blocks [] [] None).
  assert (Hw : wire_ok nm).
  { split_and!; try done. apply valid_lit. vm_compute. reflexivity. }
  exists (Print (message_json nm)), (canon_native nm). split_and!.
  - unfold encode, renderMessage. rewrite Hrole.
    rewrite (bool_decide_eq_false_2 (RoleAssistant = RoleUser)),
      (bool_decide_eq_true_2 (RoleAssistant = RoleAssistant)) by done.
    fold blocks. destruct blocks; done.
  - by apply encode_reads_back.
  - done.
  - done.
Qed.

(** ** The thinking budget *)

(** Thinking on a budget model is always granted at least 1024 tokens and
    the request's limit leaves room for it; on an adaptive model the budget is
    10000 and the limit is left as it was, even below the budget. *)
Theorem native_thinking_budget (req : nativeRequest) (snap : snapshot) (model : gostr)
    (Hb : thinking_budget snap < 2 ^ 63 - 4096) :
  let req' := applyThinking req snap model in
  match rqThinking req' with
  | None => rqThinking req = None /\ req' = req
  | Some th =>
      rqThinking req = Some th /\ req' = req \/
      (if isAdaptiveModel model
       then thBudget th = 10000 /\ rqMaxTokens req' = rqMaxTokens req
       else 1024 <= thBudget th < rqMaxTokens req' /\ rqMaxTokens req <= rqMaxTokens req')
  end.
Proof.
  intros req'. subst req'. unfold applyThinking.
  destruct ((thinking_budget snap <=? 0) && bool_decide (thinking_effort snap = [])) eqn:E0.
  { destruct (rqThinking req); auto. }
  destruct (isAdaptiveModel model); cbn [rqThinking rqMaxTokens thBudget]; [by right|].
  right. set (b := if _ <? 1024 then 1024 else _).
  assert (1024 <= b < 2 ^ 63 - 4096) by (subst b; repeat case_if; lia).
  clearbody b. case_if; [|lia]. rewrite wrap64_id by (unfold int64_ok; lia). lia.
Qed.

(** ** Witnesses *)

Definition ex_args : object := [(#"command", JStr #"ls")].
Definition ex_assistant : Message :=
  mkMessage RoleAssistant [prose #"Let me look."; tool_invoke #"t1" #"bash" (Some ex_args)]
    [] None [] [] [] 2 0.
Definition ex_log : list (Message * snapshot) :=
  [(mkMessage RoleUser [prose #"hi"] [] None [] [] [] 1 0, ∅); (ex_assistant, ∅);
   (mkMessage RoleUser [ToolResultContent #"t1" #"bash" [] false] [] None [] [] [] 3 0, ∅)].

Ltac wire_check := repeat first
  [ progress (rewrite ?Forall_cons, ?Forall_nil)
  | match goal with
    | |- wire_ok _ => unfold wire_ok; cbn [nRole nContent nStopReason nModel nUsage]
    | |- block_ok _ => unfold block_ok
    | |- any_ok _ => cbn; split_and?
    | |- valid_utf8 _ => apply valid_lit; vm_compute; reflexivity
    | |- printable _ _ => constructor
    | |- _ /\ _ => split
    | |- True => exact I
    | |- _ -> _ => intros
    end
  | reflexivity | discriminate ].

Lemma native_request_carries_witness :
  Forall wire_ok (rendered None ex_log) /\
  exists req,
    projectMessagesWithLTs 0 (map (fun ms => default [] (encode None ms.1 ms.2)) ex_log)
      [1; 2; 3] ∅ [] 0 false #"m" = Some req /\
    map unmarked (rqMessages req) = map unmarked (map canon_native (rendered None ex_log)) /\
    map tName (rqTools req) = map tdName [].
Proof.
  assert (Hok : Forall wire_ok (rendered None ex_log)).
  { change (rendered None ex_log) with
      [mkNative #"user" [text_block #"hi"] [] [] None;
       mkNative #"assistant" [text_block #"Let me look.";
         set_Input (Some (JObj ex_args)) (set_Name #"bash" (set_ID #"t1" (set_Type #"tool_use" zero_block)))]
         [] [] None;
       mkNative #"user" [tool_result_block #"t1" false #"(empty)"] [] [] None].
    wire_check; cbn; repeat constructor; apply valid_lit; vm_compute; reflexivity. }
  split; [exact Hok|]. exact (native_request_carries 0 None ex_log [1; 2; 3] ∅ [] 0 false #"m" Hok).
Defined.

Lemma native_content_roundtrip_witness :
  Forall replayable (mContent ex_assistant) /\
  exists raw nm, encode None ex_assistant ∅ = Some [raw] /\
    Unmarshal dec_message raw zero_native = (nm, true) /\
    mRole (decodeNativeMessage nm) = RoleAssistant /\
    mContent (decodeNativeMessage nm) = mContent ex_assistant.
Proof.
  assert (Hr : Forall replayable (mContent ex_assistant)).
  { repeat constructor; try done; try (apply valid_lit; vm_compute; reflexivity). }
  split; [exact Hr|].
  exact (native_content_roundtrip None ex_assistant ∅ eq_refl ltac:(discriminate) Hr).
Defined.

Definition ex_request : nativeRequest := mkRequest #"m" 8192 [] [] [] None.
Definition ex_thinking : snapshot := {[ #"system.thinking_effort" := js "'high'" ]}.

Lemma native_thinking_budget_witness :
  applyThinking ex_request ex_thinking #"m" =
    mkRequest #"m" 14096 [] [] [] (Some (mkThinking 10000 #"summarized")) /\
  rqMaxTokens (applyThinking ex_request ex_thinking #"opus-4.6") = 8192 /\
  let req' := applyThinking ex_request ex_thinking #"opus-4.6" in
  match rqThinking req' with
  | None => rqThinking ex_request = None /\ req' = ex_request
  | Some th =>
      rqThinking ex_request = Some th /\ req' = ex_request \/
      (if isAdaptiveModel #"opus-4.6"
       then thBudget th = 10000 /\ rqMaxTokens req' = rqMaxTokens ex_request
       else 1024 <= thBudget th < rqMaxTokens req' /\ rqMaxTokens ex_request <= rqMaxTokens req')
  end.
Proof.
  split; [vm_compute; reflexivity|]. split; [vm_compute; reflexivity|].
  exact (native_thinking_budget ex_request ex_thinking #"opus-4.6" ltac:(vm_compute; reflexivity)).
Defined.

(** The bytes of a rendered message. *)
Example encode_example :
  option_map (map String.string_of_list_byte) (encode None ex_assistant ∅) =
  Some [String.string_of_list_byte (js
    "{'role':'assistant','content':[{'type':'text','text':'Let me look.'},{'type':'tool_use','id':'t1','name':'bash','input':{'command':'ls'}}]}")].
Proof. vm_compute. reflexivity. Qed.
