(* ===== verification/NativeStream.v ===== *)
(** * provider/anthropic: the event stream, the retries and a whole turn
    (src/internal/provider/anthropic/anthropic.go)

    A stream is the sequence of things drainSSE's select can receive; the bus
    is the list of calls made on it.  A panic of the program is [None]. *)

From S2P Require Import Prelude Utf8 GoStrings Json GoJson Message Chalkboard Reminder Native.
From S2P Require Import NativeWire Store Projection.

(** ** The bus *)

Inductive bus_call :=
| PushDelta (c : Content)
| PushToolInvokeStart (id name : gostr)
| PushToolInvokeDelta (id partial : gostr)
| PushToolReady (c : Content)
| PushMessageEnd (stop : gostr)
| PushFigaro (m : Message) (cache : AssistantCache).

(** ** The accumulator of drainSSE *)

Record sse := mkSse {
  acc : nativeMessage; usage : nativeUsage; stopReason : gostr; bus : list bus_call }.

Definition with_content (st : sse) (cs : list nativeBlock) : sse :=
  mkSse (mkNative (nRole (acc st)) cs (nStopReason (acc st)) (nModel (acc st)) (nUsage (acc st)))
    (usage st) (stopReason st) (bus st).
Definition push (e : bus_call) (st : sse) : sse :=
  mkSse (acc st) (usage st) (stopReason st) (bus st ++ [e]).
Definition blocks (st : sse) : list nativeBlock := nContent (acc st).

(** cs[i] = b; [None] is the panic of an index out of range. *)
Definition set_at (cs : list nativeBlock) (i : Z) (b : nativeBlock) : option (list nativeBlock) :=
  if (0 <=? i) && (i <? glen cs) then Some (<[Z.to_nat i := b]> cs) else None.

(** for len(cs) <= i { cs = append(cs, nativeBlock{}) } *)
Definition grow (cs : list nativeBlock) (i : Z) : list nativeBlock :=
  cs ++ replicate (Z.to_nat (i + 1 - glen cs)) zero_block.

(** ** Event payloads *)

Record start_event := mkStart {
  seIndex : Z; seType : gostr; seID : gostr; seName : gostr; seSignature : gostr; seData : gostr }.

Definition dec_start : decoder start_event := dec_struct [
  fld #"index" seIndex
    (fun v e => mkStart v (seType e) (seID e) (seName e) (seSignature e) (seData e)) dec_int;
  fld #"content_block" id (fun v _ => v) (dec_struct [
    fld #"type" seType
      (fun v e => mkStart (seIndex e) v (seID e) (seName e) (seSignature e) (seData e)) dec_string;
    fld #"id" seID
      (fun v e => mkStart (seIndex e) (seType e) v (seName e) (seSignature e) (seData e)) dec_string;
    fld #"name" seName
      (fun v e => mkStart (seIndex e) (seType e) (seID e) v (seSignature e) (seData e)) dec_string;
    fld #"signature" seSignature
      (fun v e => mkStart (seIndex e) (seType e) (seID e) (seName e) v (seData e)) dec_string;
    fld #"data" seData
      (fun v e => mkStart (seIndex e) (seType e) (seID e) (seName e) (seSignature e) v) dec_string ]) ].

Record delta_event := mkDelta {
  deIndex : Z; deType : gostr; deText : gostr; deThinking : gostr; dePartial : gostr;
  deSignature : gostr }.

Definition dec_delta : decoder delta_event := dec_struct [
  fld #"index" deIndex
    (fun v e => mkDelta v (deType e) (deText e) (deThinking e) (dePartial e) (deSignature e)) dec_int;
  fld #"delta" id (fun v _ => v) (dec_struct [
    fld #"type" deType
      (fun v e => mkDelta (deIndex e) v (deText e) (deThinking e) (dePartial e) (deSignature e)) dec_string;
    fld #"text" deText
      (fun v e => mkDelta (deIndex e) (deType e) v (deThinking e) (dePartial e) (deSignature e)) dec_string;
    fld #"thinking" deThinking
      (fun v e => mkDelta (deIndex e) (deType e) (deText e) v (dePartial e) (deSignature e)) dec_string;
    fld #"partial_json" dePartial
      (fun v e => mkDelta (deIndex e) (deType e) (deText e) (deThinking e) v (deSignature e)) dec_string;
    fld #"signature" deSignature
      (fun v e => mkDelta (deIndex e) (deType e) (deText e) (deThinking e) (dePartial e) v) dec_string ]) ].

Definition dec_stop : decoder Z := dec_struct [fld #"Index" id (fun v _ => v) dec_int].

Definition set_input_usage (v : nativeUsage) (_ : nativeUsage) : nativeUsage := v.

Definition dec_message_start : decoder nativeUsage := dec_struct [
  fld #"message" id set_input_usage (dec_struct [
    fld #"usage" id set_input_usage (dec_struct [
      fld #"input_tokens" uInput (fun v u => mkUsageN v (uOutput u) (uCacheRead u) (uCacheCreate u)) dec_int;
      fld #"cache_read_input_tokens" uCacheRead
        (fun v u => mkUsageN (uInput u) (uOutput u) v (uCacheCreate u)) dec_int;
      fld #"cache_creation_input_tokens" uCacheCreate
        (fun v u => mkUsageN (uInput u) (uOutput u) (uCacheRead u) v) dec_int ]) ]) ].

(** (delta.stop_reason, usage.output_tokens) *)
Definition dec_message_delta : decoder (gostr * Z) := dec_struct [
  fld #"delta" fst (fun v e => (v, e.2)) (dec_struct [fld #"stop_reason" id (fun v _ => v) dec_string]);
  fld #"usage" snd (fun v e => (e.1, v)) (dec_struct [fld #"output_tokens" id (fun v _ => v) dec_int]) ].

(** ** func (a *Anthropic) foldSSEEvent *)

Definition fold_start (ev : start_event) (st : sse) : option sse :=
  let cs := grow (blocks st) (seIndex ev) in
  let put b := (fun cs => with_content st cs) <$> set_at cs (seIndex ev) b in
  if bool_decide (seType ev = #"text") then put (set_Type #"text" zero_block)
  else if bool_decide (seType ev = #"thinking") then
    put (set_Signature (seSignature ev) (set_Type #"thinking" zero_block))
  else if bool_decide (seType ev = #"redacted_thinking") then
    put (set_Data (seData ev) (set_Type #"redacted_thinking" zero_block))
  else if bool_decide (seType ev = #"tool_use") then
    push (PushToolInvokeStart (seID ev) (seName ev)) <$>
      put (set_Name (seName ev) (set_ID (seID ev) (set_Type #"tool_use" zero_block)))
  else Some (with_content st cs).

(** The block after a delta, and the call made. *)
Definition apply_delta (ev : delta_event) (b : nativeBlock) : nativeBlock * list bus_call :=
  if bool_decide (deType ev = #"text_delta") then
    (set_Text (bText b ++ deText ev) b,
     if nonempty (deText ev) then [PushDelta (prose (deText ev))] else [])
  else if bool_decide (deType ev = #"thinking_delta") then
    (set_Thinking (bThinking b ++ deThinking ev) b,
     if nonempty (deThinking ev) then [PushDelta (thinking (deThinking ev))] else [])
  else if bool_decide (deType ev = #"signature_delta") then
    (set_Signature (bSignature b ++ deSignature ev) b, [])
  else if bool_decide (deType ev = #"input_json_delta") then
    (set_Input (Some (JStr (match bInput b with
                            | Some (JStr s) => s ++ dePartial ev
                            | _ => dePartial ev
                            end))) b,
     if nonempty (dePartial ev) then [PushToolInvokeDelta (bID b) (dePartial ev)] else [])
  else (b, []).

Definition fold_delta (ev : delta_event) (st : sse) : option sse :=
  if glen (blocks st) <=? deIndex ev then Some st
  else if deIndex ev <? 0 then None
  else match blocks st !! Z.to_nat (deIndex ev) with
       | None => Some st
       | Some b =>
           let '(b', calls) := apply_delta ev b in
           Some (mkSse (acc (with_content st (<[Z.to_nat (deIndex ev) := b']> (blocks st))))
                   (usage st) (stopReason st) (bus st ++ calls))
       end.

(** The input a finished tool call is left with. *)
Definition finish_input (v : option json) : option json :=
  match v with
  | Some (JStr []) => v
  | Some (JStr s) =>
      let '(args, ok) := Unmarshal dec_map s None in
      if ok then Some (match args with Some m => JObj m | None => JNull end) else v
  | None => Some (JObj [])
  | _ => v
  end.

(** The block after its stop, and the call made. *)
Definition apply_stop (b : nativeBlock) : nativeBlock * list bus_call :=
  if bool_decide (bType b = #"tool_use") then
    let b' := set_Input (finish_input (bInput b)) b in
    (b', match input_map (bInput b') with
         | Some args => [PushToolReady (tool_invoke (bID b) (bName b) args)]
         | None => []
         end)
  else (b, []).

Definition fold_stop (index : Z) (st : sse) : option sse :=
  if glen (blocks st) <=? index then Some st
  else if index <? 0 then None
  else match blocks st !! Z.to_nat index with
       | None => Some st
       | Some b =>
           let '(b', calls) := apply_stop b in
           Some (mkSse (acc (with_content st (<[Z.to_nat index := b']> (blocks st))))
                   (usage st) (stopReason st) (bus st ++ calls))
       end.

Definition foldSSEEvent (eventType data : gostr) (st : sse) : option sse :=
  if bool_decide (eventType = #"content_block_start") then
    let '(ev, ok) := Unmarshal dec_start data (mkStart 0 [] [] [] [] []) in
    if ok then fold_start ev st else Some st
  else if bool_decide (eventType = #"content_block_delta") then
    let '(ev, ok) := Unmarshal dec_delta data (mkDelta 0 [] [] [] [] []) in
    if ok then fold_delta ev st else Some st
  else if bool_decide (eventType = #"content_block_stop") then
    let '(index, ok) := Unmarshal dec_stop data 0 in
    if ok then fold_stop index st else Some st
  else if bool_decide (eventType = #"message_start") then
    let '(u, ok) := Unmarshal dec_message_start data zero_usage in
    Some (if ok then mkSse (acc st) (mkUsageN (uInput u) (uOutput (usage st)) (uCacheRead u) (uCacheCreate u))
                       (stopReason st) (bus st)
          else st)
  else if bool_decide (eventType = #"message_delta") then
    let '((stop, out), ok) := Unmarshal dec_message_delta data ([], 0) in
    Some (if ok then
            mkSse (acc st) (mkUsageN (uInput (usage st)) out (uCacheRead (usage st)) (uCacheCreate (usage st)))
              (if nonempty stop then stop else stopReason st) (bus st)
          else st)
  else if bool_decide (eventType = #"error") then
    Some (mkSse (acc st) (usage st) #"error" (bus st))
  else Some st.

(** ** func (a *Anthropic) drainSSE *)

(** What the select receives. *)
Inductive sse_in := InLine (line : gostr) | InEOF | InScanError | InTimeout | InCancel.

Inductive sse_error := ErrCanceled | ErrScanner | ErrPremature | ErrTimeout | ErrEvent (data : gostr).

Inductive drained :=
| Drained (nm : nativeMessage) (calls : list bus_call)
| DrainFailed (e : sse_error) (calls : list bus_call)
| DrainPanic
| DrainWaiting (eventType : gostr) (st : sse).

Definition finalizeClean (st : sse) : nativeMessage :=
  mkNative (nRole (acc st)) (nContent (acc st)) (or_default (stopReason st) #"end_turn")
    (nModel (acc st)) (Some (usage st)).

(** strings.TrimPrefix *)
Definition trim_prefix (s p : gostr) : gostr := if has_prefix s p then drop (length p) s else s.

Fixpoint drain (ins : list sse_in) (eventType : gostr) (st : sse) : drained :=
  match ins with
  | [] => DrainWaiting eventType st
  | InCancel :: _ => DrainFailed ErrCanceled (bus st)
  | InScanError :: _ => DrainFailed ErrScanner (bus st)
  | InEOF :: _ => DrainFailed ErrPremature (bus st)
  | InTimeout :: _ => DrainFailed ErrTimeout (bus st)
  | InLine line :: ins' =>
      if has_prefix line #"event: " then drain ins' (trim_prefix line #"event: ") st
      else if negb (has_prefix line #"data: ") then drain ins' eventType st
      else
        let data := trim_prefix line #"data: " in
        match foldSSEEvent eventType data st with
        | None => DrainPanic
        | Some st' =>
            if bool_decide (eventType = #"message_stop") then Drained (finalizeClean st') (bus st')
            else if bool_decide (eventType = #"error") then DrainFailed (ErrEvent data) (bus st')
            else drain ins' eventType st'
        end
  end.

Definition sse_start (model : gostr) : sse :=
  mkSse (mkNative #"assistant" [] [] model None) zero_usage [] [].

Definition drainSSE (model : gostr) (ins : list sse_in) : drained := drain ins [] (sse_start model).

(** bufio.Scanner over the body: lines without their terminator, and an error
    at a line of a mebibyte. *)
Definition strip_cr (l : gostr) : gostr :=
  if HasSuffixByte l x0d then take (length l - 1) l else l.

Fixpoint scan_pieces (pieces : list gostr) : list sse_in :=
  match pieces with
  | [] => [InEOF]
  | [[]] => [InEOF]
  | p :: pieces' =>
      if 1048576 <=? glen p then [InScanError] else InLine (strip_cr p) :: scan_pieces pieces'
  end.

Definition scan_body (body : gostr) : list sse_in := scan_pieces (SplitByte LF body).

(** ** func (a *Anthropic) doWithAuthRetry *)

Definition maxTransientRetries : Z := 5.
Definition second : Z := 1000000000.
Definition retryBaseDelay : Z := second.
Definition retryMaxDelay : Z := 30 * second.

(** func isTransientStatus *)
Definition isTransientStatus (code : Z) : bool :=
  (code =? 429) || (code =? 529) || ((500 <=? code) && (code <=? 599)).

(** func backoffDelay, in nanoseconds of an int64 *)
Definition backoffDelay (attempt : Z) : Z :=
  let d := wrap64 (Z.shiftl retryBaseDelay attempt) in
  if (retryMaxDelay <? d) || (d <=? 0) then retryMaxDelay else d.

(** strconv.Atoi *)
Definition atoi (s : gostr) : option Z := parse_int s.

(** func parseRetryAfter of the header's value ([] when absent) *)
Definition parseRetryAfter (v : gostr) : Z :=
  match v with
  | [] => 0
  | _ => match atoi (TrimSpace v) with
         | Some secs => if 0 <=? secs then wrap64 (secs * second) else 0
         | None => 0
         end
  end.

(** What one HTTP attempt gives: a transport error (with whether the context
    was done) or a response. *)
Inductive http_result := HttpError (ctx_done : bool) | HttpResponse (status : Z) (retryAfter : gostr).

(** The world the loop runs in: the answer to the n-th call of each kind. *)
Record world := mkWorld {
  w_resolve : nat -> option gostr;        (* a.auth.Resolve; None: error *)
  w_invalidate : nat -> bool;             (* a.auth.Invalidate succeeded *)
  w_build : nat -> bool;                  (* build succeeded *)
  w_http : nat -> gostr -> http_result;   (* with the key the request carries *)
  w_sleep : nat -> bool }.                (* the sleep ran to its end *)

Inductive retry_error :=
| RetryResolve | RetryCanceled | RetryBuild | RetryHTTP | RetryResolve401 | RetryInvalidate
| RetryUnchanged | RetryGaveUp.

Inductive retry_result := RetryOK (status : Z) (apiKey : gostr) | RetryErr (e : retry_error) | RetryFuel.

Record retry_state := mkRetry {
  rAttempt : Z; rKey : gostr; rAuthRetried : bool; rDelay : Z;
  rRequests : nat; rSleeps : list Z }.

Definition after_attempt (s : retry_state) (delay : Z) : retry_state :=
  mkRetry (rAttempt s + 1) (rKey s) (rAuthRetried s) delay (rRequests s) (rSleeps s).

(** One iteration: the next state, or the result and the state it leaves. *)
Definition retry_step (w : world) (s : retry_state) : retry_state + retry_result * retry_state :=
  let slept := if 0 <? rDelay s then w_sleep w (length (rSleeps s)) else true in
  let s := if 0 <? rDelay s
           then mkRetry (rAttempt s) (rKey s) (rAuthRetried s) 0 (rRequests s) (rSleeps s ++ [rDelay s])
           else s in
  if negb slept then inr (RetryErr RetryCanceled, s) else
  if negb (w_build w (rRequests s)) then inr (RetryErr RetryBuild, s) else
  let resp := w_http w (rRequests s) (rKey s) in
  let s := mkRetry (rAttempt s) (rKey s) (rAuthRetried s) (rDelay s) (S (rRequests s)) (rSleeps s) in
  match resp with
  | HttpError true => inr (RetryErr RetryHTTP, s)
  | HttpError false => inl (after_attempt s (backoffDelay (rAttempt s)))
  | HttpResponse status retryAfter =>
      if (status =? 401) && negb (rAuthRetried s) then
        match w_resolve w 1 with
        | None => inr (RetryErr RetryResolve401, s)
        | Some newKey =>
            if bool_decide (newKey = rKey s) then
              inr (RetryErr (if w_invalidate w 0 then RetryUnchanged else RetryInvalidate), s)
            else inl (mkRetry (rAttempt s) newKey true (rDelay s) (rRequests s) (rSleeps s))
        end
      else if isTransientStatus status then
        let ra := parseRetryAfter retryAfter in
        inl (after_attempt s (if 0 <? ra then ra else backoffDelay (rAttempt s)))
      else inr (RetryOK status (rKey s), s)
  end.

Fixpoint retry_loop (fuel : nat) (w : world) (s : retry_state) : retry_result * retry_state :=
  match fuel with
  | O => (RetryFuel, s)
  | S fuel' =>
      if maxTransientRetries <? rAttempt s then (RetryErr RetryGaveUp, s)
      else match retry_step w s with
           | inr r => r
           | inl s' => retry_loop fuel' w s'
           end
  end.

(** Six attempts and the free one after a 401, then the exit test. *)
Definition retry_fuel : nat := 8.

Definition doWithAuthRetry (w : world) : retry_result * retry_state :=
  match w_resolve w 0 with
  | None => (RetryErr RetryResolve, mkRetry 0 [] false 0 0 [])
  | Some apiKey => retry_loop retry_fuel w (mkRetry 0 apiKey false 0 0 [])
  end.

(** ** A turn: Send and SendWithTransport *)

(** The provider's state across turns. *)
Record provider_state := mkProvider {
  pModel : gostr; pMaxTokens : Z; pRenderer : gostr; pTemplates : option templates;
  pNamespace : gostr; pProjection : option (IncrementalProjection EncodedMessages) }.

(** type SendInput *)
Record SendInput := mkSendInput {
  siSnapshot : snapshot; siChalkboard : option (Z -> list Patch); siTools : list ToolDef;
  siMaxTokens : Z }.

Definition set_projection (p : provider_state) (ip : option (IncrementalProjection EncodedMessages))
  : provider_state :=
  mkProvider (pModel p) (pMaxTokens p) (pRenderer p) (pTemplates p) (pNamespace p) ip.

(** func (a *Anthropic) acceptAssistantProjection *)
Definition acceptAssistantProjection (p : provider_state) (lt : Z) (encoded : list gostr)
  : provider_state :=
  match pProjection p with
  | None => p
  | Some ip =>
      set_projection p (Some (mkIP (AppendEncodedMessage (ipState ip) encoded lt) (ipChalkboard ip)
                                (ipFingerprint ip) (S (ipEntries ip)) lt))
  end.

Definition projection_config (p : provider_state) (chalk : option (Z -> list Patch))
  : ProjectionConfig EncodedMessages :=
  mkConfig chalk (Fingerprint_of (pRenderer p)) (mkEncoded [] []) (encode (pTemplates p))
    AppendEncodedMessage.

Inductive send_error :=
| SendEmpty | SendResolve | SendProject | SendTransport | SendStatus (code : Z)
| SendStream (e : sse_error) | SendAppend | SendPanic | SendWaiting.

Section turn.
Context {C F : Type} `{LogLaws C (list gostr)} `{LogLaws F Message}.

(** func (a *Anthropic) invalidateIfStale: the cache left, and whether it may be used. *)
Definition invalidateIfStale (p : provider_state) (c : C) : C * bool :=
  let '(c, _, _, ok) := ClearStaleTranslationCache c (Fingerprint_of (pRenderer p)) in (c, ok).

(** func (a *Anthropic) cacheFor: [held] is the cache kept from an earlier turn,
    [opened] what CacheOpen gives ([None]: no CacheOpen, or its error). *)
Definition cacheFor (p : provider_state) (aria : gostr) (held opened : option C) : option C :=
  if bool_decide (aria = []) then None else
  match held, opened with
  | Some c, _ => Some c
  | None, None => None
  | None, Some c => let '(c, ok) := invalidateIfStale p c in if ok then Some c else None
  end.

(** func (a *Anthropic) catchUp *)
Definition catchUp (p : provider_state) (figLog : F) (cache : option C) (chalk : option (Z -> list Patch))
  : provider_state * option C * (list (list gostr) * list Z) :=
  match ProjectIncrementally (projection_config p chalk) (Read figLog) cache (pProjection p) with
  | (None, _, cache) => (p, cache, ([], []))
  | (Some ip, _, cache) =>
      (set_projection p (Some ip), cache, (PerMessage (ipState ip), LogicalTimes (ipState ip)))
  end.

(** The answer of the endpoint: a transport error, or a status and what the
    body's stream delivers. *)
Abbreviation response := (option (Z * list sse_in)).

(** The tail both functions share: post the request, drain the stream, land
    the assistant message; [now] is the clock. *)
Definition land (p : provider_state) (figLog : F) (now : Z) (nm : nativeMessage) (calls : list bus_call)
  : provider_state * F * list bus_call * option send_error :=
  let msg := decodeNativeMessage nm in
  let msg := mkMessage (mRole msg) (mContent msg) (mPatches msg) (mUsage msg) (mStopReason msg)
               (mToolCallID msg) (mToolName msg) (mLogicalTime msg) now in
  match Append figLog (mkEntry 0 0 msg []) with
  | (figLog, None) => (p, figLog, calls, Some SendAppend)
  | (figLog, Some entry) =>
      let native := assistantCacheNative (pNamespace p) (Fingerprint_of (pRenderer p)) nm in
      (acceptAssistantProjection p (LT entry) (acPayload native), figLog,
       calls ++ [PushMessageEnd (mStopReason msg); PushFigaro (with_lt msg (LT entry)) native], None)
  end.

(** func (a *Anthropic) SendWithTransport *)
Definition SendWithTransport (p : provider_state) (figLog : F) (cache : option C) (sin : SendInput)
    (oauth : bool) (fn : nativeRequest -> response) (now : Z)
  : provider_state * F * option C * list bus_call * option send_error :=
  let '(p, cache, (perMessage, lts)) := catchUp p figLog cache (siChalkboard sin) in
  match perMessage with
  | [] => (p, figLog, cache, [], Some SendEmpty)
  | _ =>
      let model := resolveModel (pModel p) (siSnapshot sin) in
      match projectMessagesWithLTs (pMaxTokens p) perMessage lts (siSnapshot sin) (siTools sin)
              (siMaxTokens sin) oauth model with
      | None => (p, figLog, cache, [], Some SendProject)
      | Some req =>
          match fn req with
          | None => (p, figLog, cache, [], Some SendTransport)
          | Some (status, ins) =>
              if negb (status =? 200) then (p, figLog, cache, [], Some (SendStatus status)) else
              match drainSSE model ins with
              | Drained nm calls =>
                  match nContent nm with
                  | [] => (p, figLog, cache, calls, None)
                  | _ => let '(p, figLog, calls, err) := land p figLog now nm calls in
                         (p, figLog, cache, calls, err)
                  end
              | DrainFailed e calls => (p, figLog, cache, calls, Some (SendStream e))
              | DrainPanic => (p, figLog, cache, [], Some SendPanic)
              | DrainWaiting _ st => (p, figLog, cache, bus st, Some SendWaiting)
              end
          end
      end
  end.

(** func (a *Anthropic) Send: the token is resolved after the projection, and
    the request goes through doWithAuthRetry. *)
Definition Send (p : provider_state) (figLog : F) (cache : option C) (sin : SendInput)
    (token : option gostr) (w : world) (body : nativeRequest -> list sse_in) (now : Z)
  : provider_state * F * option C * list bus_call * option send_error :=
  match token with
  | None =>
      let '(p, cache, (perMessage, _)) := catchUp p figLog cache (siChalkboard sin) in
      (p, figLog, cache, [],
       Some (match perMessage with [] => SendEmpty | _ => SendResolve end))
  | Some apiKey =>
      SendWithTransport p figLog cache sin (isOAuthToken apiKey)
        (fun req => match doWithAuthRetry w with
                    | (RetryOK status _, _) => Some (status, body req)
                    | _ => None
                    end) now
  end.

End turn.

(** ** Models *)

(** type provider.ModelInfo *)
Record ModelInfo := mkModel { miID : gostr; miName : gostr; miProvider : gostr }.

(** The body of the models endpoint, as func (a *Anthropic) Models lists it. *)
Definition Models (body : gostr) : option (list ModelInfo) :=
  let '(data, ok) := DecodeFirst (dec_struct [fld #"data" id (fun v _ => v)
      (dec_slice ([], []) (dec_struct [
        fld #"id" fst (fun v e => (v, e.2)) dec_string;
        fld #"display_name" snd (fun v e => (e.1, v)) dec_string ]))]) body [] in
  if ok then Some (map (fun m => mkModel m.1 m.2 #"anthropic") data) else None.

(** ** In-order streams *)

(** The deltas pushed for prose and for thinking, joined. *)
Definition pushed (typ : gostr) (calls : list bus_call) : gostr :=
  concat (omap (fun e => match e with
    | PushDelta c => if bool_decide (cType c = typ) then Some (cText c) else None
    | _ => None
    end) calls).

(** The calls declared ready for execution. *)
Definition ready_calls (calls : list bus_call) : list Content :=
  omap (fun e => match e with PushToolReady c => Some c | _ => None end) calls.

(** The execution a block stands for: a tool call whose input is decoded. *)
Definition executable (b : nativeBlock) : option Content :=
  if bool_decide (bType b = #"tool_use")
  then tool_invoke (bID b) (bName b) <$> input_map (bInput b)
  else None.

(** An event that keeps the blocks in sequence: a block starts at the end when
    the one before has stopped; deltas and the stop go to the open last block.
    [opened] says whether a block is open. *)
Definition in_order_event (eventType data : gostr) (opened : bool) (st : sse) : bool :=
  if bool_decide (eventType = #"content_block_start") then
    let '(ev, ok) := Unmarshal dec_start data (mkStart 0 [] [] [] [] []) in
    negb ok || (negb opened && (seIndex ev =? glen (blocks st)))
  else if bool_decide (eventType = #"content_block_delta") then
    let '(ev, ok) := Unmarshal dec_delta data (mkDelta 0 [] [] [] [] []) in
    negb ok || (opened && (deIndex ev =? glen (blocks st) - 1))
  else if bool_decide (eventType = #"content_block_stop") then
    let '(index, ok) := Unmarshal dec_stop data 0 in
    negb ok || (opened && (index =? glen (blocks st) - 1))
  else true.

Definition opened_after (eventType data : gostr) (opened : bool) : bool :=
  if bool_decide (eventType = #"content_block_start")
  then opened || snd (Unmarshal dec_start data (mkStart 0 [] [] [] [] []))
  else if bool_decide (eventType = #"content_block_stop")
  then opened && negb (snd (Unmarshal dec_stop data 0))
  else opened.

(** The lines of a stream, in order and with no block left open at the end. *)
Fixpoint in_order (ins : list sse_in) (eventType : gostr) (opened : bool) (st : sse) : bool :=
  match ins with
  | InLine line :: ins' =>
      if has_prefix line #"event: " then in_order ins' (trim_prefix line #"event: ") opened st
      else if negb (has_prefix line #"data: ") then in_order ins' eventType opened st
      else
        let data := trim_prefix line #"data: " in
        in_order_event eventType data opened st &&
        if bool_decide (eventType = #"message_stop") then negb opened else
        match foldSSEEvent eventType data st with
        | None => false
        | Some st' => in_order ins' eventType (opened_after eventType data opened) st'
        end
  | _ => true
  end.

(** What the bus has been told of the blocks so far. *)
Record told (opened : bool) (st : sse) : Prop := {
  told_prose : pushed ContentProse (bus st) = concat (map bText (blocks st));
  told_thinking : pushed ContentThinking (bus st) = concat (map bThinking (blocks st));
  told_ready : ready_calls (bus st) = omap executable (blocks st);
  told_open : opened = true -> exists cs b, blocks st = cs ++ [b] /\ input_map (bInput b) = None }.

Lemma pushed_app typ a b : pushed typ (a ++ b) = pushed typ a ++ pushed typ b.
Proof. unfold pushed. by rewrite omap_app, concat_app. Qed.

Lemma ready_app a b : ready_calls (a ++ b) = ready_calls a ++ ready_calls b.
Proof. apply omap_app. Qed.

Lemma closed_none b : input_map (bInput b) = None -> executable b = None.
Proof. intros H. unfold executable. rewrite H. by case_if. Qed.

Lemma grow_end cs : grow cs (glen cs) = cs ++ [zero_block].
Proof. unfold grow. by replace (Z.to_nat (glen cs + 1 - glen cs)) with 1%nat by lia. Qed.

Lemma set_at_end cs b b' : set_at (cs ++ [b]) (glen cs) b' = Some (cs ++ [b']).
Proof.
  unfold set_at, glen. rewrite length_app. cbn [length].
  rewrite (proj2 (Z.leb_le _ _)), (proj2 (Z.ltb_lt _ _)) by lia. cbn [andb].
  rewrite Nat2Z.id. by rewrite insert_app_r_alt, Nat.sub_diag by lia.
Qed.

(** A new last block with no text and no decoded input. *)
Lemma told_new st b calls :
  told false st -> bText b = [] -> bThinking b = [] -> input_map (bInput b) = None ->
  pushed ContentProse calls = [] -> pushed ContentThinking calls = [] -> ready_calls calls = [] ->
  told true (mkSse (acc (with_content st (blocks st ++ [b]))) (usage st) (stopReason st) (bus st ++ calls)).
Proof.
  intros [H1 H2 H3 _] Ht Hth Hi Hp1 Hp2 Hp3. split; cbn [bus blocks acc with_content nContent].
  - by rewrite pushed_app, H1, Hp1, map_app, concat_app; cbn [map concat]; rewrite Ht, !app_nil_r.
  - by rewrite pushed_app, H2, Hp2, map_app, concat_app; cbn [map concat]; rewrite Hth, !app_nil_r.
  - rewrite ready_app, H3, Hp3, omap_app. cbn [omap list_omap]. by rewrite (closed_none b Hi).
  - intros _. by exists (blocks st), b.
Qed.

Lemma told_start ev st st' :
  told false st -> seIndex ev = glen (blocks st) -> fold_start ev st = Some st' -> told true st'.
Proof.
  intros Ht Hi H. unfold fold_start in H. rewrite Hi, grow_end in H.
  assert (Hw : forall cs, with_content st cs =
    mkSse (acc (with_content st cs)) (usage st) (stopReason st) (bus st ++ []))
    by (intros; by rewrite app_nil_r).
  rewrite !set_at_end in H. cbn [fmap option_fmap option_map] in H.
  repeat case_bool_decide; injection H as <-.
  - rewrite Hw. by apply told_new.
  - rewrite Hw. by apply told_new.
  - rewrite Hw. by apply told_new.
  - unfold push. cbn [acc usage stopReason bus with_content]. by apply told_new.
  - rewrite Hw. by apply told_new.
Qed.

(** The last block replaced. *)
Lemma told_last st cs b b' calls opened' :
  told true st -> blocks st = cs ++ [b] -> input_map (bInput b) = None ->
  bText b' = bText b ++ pushed ContentProse calls ->
  bThinking b' = bThinking b ++ pushed ContentThinking calls ->
  ready_calls calls = omap executable [b'] ->
  (opened' = true -> input_map (bInput b') = None) ->
  told opened' (mkSse (acc (with_content st (cs ++ [b']))) (usage st) (stopReason st) (bus st ++ calls)).
Proof.
  intros [H1 H2 H3 _] Hb Hi Ht Hth Hr Ho. rewrite Hb in H1, H2, H3.
  rewrite map_app, concat_app in H1, H2. rewrite omap_app in H3. cbn [map concat omap list_omap] in H1, H2, H3.
  rewrite (closed_none b Hi) in H3. rewrite !app_nil_r in *. split; cbn [bus blocks acc with_content nContent].
  - rewrite pushed_app, H1, map_app, concat_app. cbn [map concat]. by rewrite Ht, app_nil_r, app_assoc.
  - rewrite pushed_app, H2, map_app, concat_app. cbn [map concat]. by rewrite Hth, app_nil_r, app_assoc.
  - by rewrite ready_app, H3, Hr, omap_app.
  - intros Hop. exists cs, b'. auto.
Qed.

Lemma told_last_inv opened st : told opened st -> opened = true ->
  exists cs b, blocks st = cs ++ [b] /\ input_map (bInput b) = None /\
    (forall i, i = glen (blocks st) - 1 ->
       (glen (blocks st) <=? i) = false /\ (i <? 0) = false /\
       blocks st !! Z.to_nat i = Some b /\
       forall b', <[Z.to_nat i := b']> (blocks st) = cs ++ [b']).
Proof.
  intros Ht Ho. destruct (told_open _ _ Ht Ho) as (cs & b & Hb & Hi).
  exists cs, b. split; [done|]. split; [done|]. intros i ->. rewrite Hb. unfold glen.
  rewrite length_app. cbn [length]. replace (Z.to_nat _) with (length cs) by lia.
  split_and!; [apply Z.leb_gt; lia|apply Z.ltb_ge; lia|by rewrite list_lookup_middle|].
  intros b'. by rewrite insert_app_r_alt, Nat.sub_diag by lia.
Qed.

Lemma pushed_delta typ c : pushed typ [PushDelta c] = if bool_decide (cType c = typ) then cText c else [].
Proof. unfold pushed. cbn [omap list_omap]. case_bool_decide; cbn; by rewrite ?app_nil_r. Qed.

Lemma apply_delta_told ev b : input_map (bInput b) = None ->
  let '(b', calls) := apply_delta ev b in
  bText b' = bText b ++ pushed ContentProse calls /\
  bThinking b' = bThinking b ++ pushed ContentThinking calls /\
  ready_calls calls = [] /\ input_map (bInput b') = None.
Proof.
  intros Hi. unfold apply_delta, nonempty.
  assert (Hnil : forall typ, pushed typ [] = []) by done.
  assert (Htool : forall typ id p, pushed typ [PushToolInvokeDelta id p] = []) by done.
  repeat case_bool_decide; cbn [negb]; rewrite ?Hnil, ?Htool, ?pushed_delta;
    repeat match goal with H : deText _ = _ |- _ => rewrite H | H : deThinking _ = _ |- _ => rewrite H end;
    cbn [cType prose thinking TextContent cText bText bThinking set_Text set_Thinking set_Signature
         set_Input bInput]; rewrite ?app_nil_r; split_and!; try done; by rewrite app_nil_r.
Qed.

Lemma told_delta ev st st' :
  told true st -> deIndex ev = glen (blocks st) - 1 -> fold_delta ev st = Some st' -> told true st'.
Proof.
  intros Ht Hx H. destruct (told_last_inv _ _ Ht eq_refl) as (cs & b & Hb & Hi & Hat).
  destruct (Hat _ Hx) as (E1 & E2 & E3 & E4). unfold fold_delta in H. rewrite E1, E2, E3 in H.
  pose proof (apply_delta_told ev b Hi) as Hd. destruct (apply_delta ev b) as [b' calls].
  destruct Hd as (D1 & D2 & D3 & D4). injection H as <-. rewrite E4.
  apply (told_last st cs b); try done. cbn. by rewrite (closed_none b' D4).
Qed.

Lemma apply_stop_told b : input_map (bInput b) = None ->
  let '(b', calls) := apply_stop b in
  bText b' = bText b ++ pushed ContentProse calls /\
  bThinking b' = bThinking b ++ pushed ContentThinking calls /\
  ready_calls calls = omap executable [b'].
Proof.
  intros Hi. unfold apply_stop. case_bool_decide as Et.
  - set (b' := set_Input _ b).
    assert (Hx : executable b' = tool_invoke (bID b) (bName b) <$> input_map (bInput b')).
    { unfold executable. by rewrite bool_decide_eq_true_2. }
    cbn [omap list_omap]. rewrite Hx.
    destruct (input_map (bInput b')); cbn; by rewrite !app_nil_r.
  - cbn. unfold executable. rewrite bool_decide_eq_false_2 by done. by rewrite !app_nil_r.
Qed.

Lemma told_stop index st st' :
  told true st -> index = glen (blocks st) - 1 -> fold_stop index st = Some st' -> told false st'.
Proof.
  intros Ht Hx H. destruct (told_last_inv _ _ Ht eq_refl) as (cs & b & Hb & Hi & Hat).
  destruct (Hat _ Hx) as (E1 & E2 & E3 & E4). unfold fold_stop in H. rewrite E1, E2, E3 in H.
  pose proof (apply_stop_told b Hi) as Hd. destruct (apply_stop b) as [b' calls].
  destruct Hd as (D1 & D2 & D3). injection H as <-. rewrite E4.
  by apply (told_last st cs b).
Qed.

Lemma told_event ty data opened st st' :
  told opened st -> in_order_event ty data opened st = true ->
  foldSSEEvent ty data st = Some st' -> told (opened_after ty data opened) st'.
Proof.
  intros Ht Ho H. unfold in_order_event, foldSSEEvent, opened_after in *.
  assert (Hmeta : forall u s, told opened (mkSse (acc st) u s (bus st))) by (intros; by destruct Ht).
  case_bool_decide as E1.
  { destruct (Unmarshal dec_start _ _) as [ev [|]]; cbn [snd negb orb] in *.
    - destruct opened; [done|]. cbn [negb andb orb] in *. bool_hyps.
      by eapply told_start.
    - injection H as <-. by rewrite orb_false_r. }
  case_bool_decide as E2.
  { subst ty. rewrite (bool_decide_eq_false_2 (_ = #"content_block_stop")) by done.
    destruct (Unmarshal dec_delta _ _) as [ev [|]]; cbn [snd negb orb] in *.
    - destruct opened; [|done]. cbn [andb] in *. bool_hyps. by eapply told_delta.
    - by injection H as <-. }
  case_bool_decide as E3.
  { destruct (Unmarshal dec_stop _ _) as [ix [|]]; cbn [snd negb orb] in *.
    - destruct opened; [|done]. cbn [andb negb] in *. bool_hyps. by eapply told_stop.
    - injection H as <-. by rewrite andb_true_r. }
  case_bool_decide as E4.
  { destruct (Unmarshal dec_message_start _ _) as [u [|]]; injection H as <-; [apply Hmeta|done]. }
  case_bool_decide as E5.
  { destruct (Unmarshal dec_message_delta _ _) as [[s o] [|]]; injection H as <-; [apply Hmeta|done]. }
  case_bool_decide as E6; injection H as <-; [apply Hmeta|done].
Qed.

Lemma drain_told ins ty opened st nm calls :
  told opened st -> in_order ins ty opened st = true -> drain ins ty st = Drained nm calls ->
  exists st', told false st' /\ nm = finalizeClean st' /\ calls = bus st'.
Proof.
  revert ty opened st. induction ins as [|[line| | | |] ins IH]; intros ty opened st Ht Ho H; try done.
  cbn [drain in_order] in *.
  destruct (has_prefix line #"event: "); [by eapply IH|].
  destruct (negb (has_prefix line #"data: ")); [by eapply IH|].
  set (data := trim_prefix line #"data: ") in *.
  destruct (in_order_event ty data opened st) eqn:Eo; [|done]. cbn [andb] in Ho.
  destruct (foldSSEEvent ty data st) as [st'|] eqn:Ef; [|done].
  pose proof (told_event _ _ _ _ _ Ht Eo Ef) as Ht'.
  case_bool_decide as Es.
  - injection H as <- <-. exists st'. split; [|done].
    subst ty. unfold opened_after in Ht'.
    rewrite !bool_decide_eq_false_2 in Ht' by done. by destruct opened.
  - case_bool_decide; [done|]. by eapply IH.
Qed.

Lemma fold_keeps ty data st st' : foldSSEEvent ty data st = Some st' ->
  nRole (acc st') = nRole (acc st) /\ nModel (acc st') = nModel (acc st).
Proof.
  assert (Hput : forall cs i b st', (fun cs => with_content st cs) <$> set_at cs i b = Some st' ->
    nRole (acc st') = nRole (acc st) /\ nModel (acc st') = nModel (acc st)).
  { intros cs i b s'. destruct (set_at cs i b); [|done]. by intros [= <-]. }
  unfold foldSSEEvent, fold_start, fold_delta, fold_stop, push. intros H.
  repeat match type of H with
  | (if ?b then _ else _) = _ => destruct b
  | (let '(_, _) := ?x in _) = _ => destruct x
  | match ?x with Some _ => _ | None => _ end = _ => destruct x eqn:?
  | Some _ = Some _ => injection H as <-
  | None = Some _ => discriminate H
  end; try done; try by eapply Hput.
  all: try (match goal with |- context [if ?b then _ else _] => destruct b end; done).
  destruct (set_at _ _ _) eqn:Es; [|done]. by injection H as <-.
Qed.

Lemma drain_keeps ins ty st nm calls : drain ins ty st = Drained nm calls ->
  nRole nm = nRole (acc st) /\ nModel nm = nModel (acc st).
Proof.
  revert ty st. induction ins as [|[line| | | |] ins IH]; intros ty st H; try done.
  cbn [drain] in H. destruct (has_prefix line #"event: "); [by eapply IH|].
  destruct (negb (has_prefix line #"data: ")); [by eapply IH|].
  destruct (foldSSEEvent _ _ st) as [st'|] eqn:Ef; [|done].
  destruct (fold_keeps _ _ _ _ Ef) as [<- <-].
  case_bool_decide; [by injection H as <- <-|]. case_bool_decide; [done|]. by eapply IH.
Qed.

(** C19: For a stream that ends with message_stop and delivers its blocks one after
    another ([in_order]: a block starts, at the next index, only when the one before
    has stopped, its deltas and its stop carry its index, and none is open at the
    end), the bus is told what the message holds: the prose and thinking deltas
    pushed are, joined, the text and thinking of its blocks, and the calls declared
    ready are, in order and each once, exactly those of its tool calls whose input
    is an object or null once the block has stopped (a block without an input delta
    gets the empty object).  A tool call whose streamed input is the empty text, or
    does not decode, is in the message and is not declared. *)
Theorem sse_bus_faithful (model : gostr) (ins : list sse_in) (nm : nativeMessage) (calls : list bus_call)
    (Ho : in_order ins [] false (sse_start model) = true)
    (H : drainSSE model ins = Drained nm calls) :
  pushed ContentProse calls = concat (map bText (nContent nm)) /\
  pushed ContentThinking calls = concat (map bThinking (nContent nm)) /\
  ready_calls calls = omap executable (nContent nm) /\
  nRole nm = #"assistant" /\ nModel nm = model.
Proof.
  assert (H0 : told false (sse_start model)) by (by split).
  destruct (drain_told _ _ _ _ _ _ H0 Ho H) as (st' & [H1 H2 H3 _] & -> & ->).
  by destruct (drain_keeps _ _ _ _ _ H) as [-> ->].
Qed.

(** ** Retries *)

Lemma backoff_exact a : 0 <= a -> backoffDelay a = Z.min (2 ^ a * second) retryMaxDelay.
Proof.
  intros Ha. destruct (Z.ltb_spec a 64) as [Hlt|Hge].
  - assert (Hall : forallb (fun n => backoffDelay (Z.of_nat n) =?
        Z.min (2 ^ Z.of_nat n * second) retryMaxDelay) (seq 0 64) = true) by (vm_compute; reflexivity).
    rewrite forallb_forall in Hall. specialize (Hall (Z.to_nat a)).
    rewrite Z2Nat.id in Hall by lia. apply Z.eqb_eq, Hall, in_seq. lia.
  - unfold backoffDelay. rewrite Z.shiftl_mul_pow2 by lia.
    assert (Hw : wrap64 (retryBaseDelay * 2 ^ a) = 0).
    { unfold wrap64. replace a with (64 + (a - 64)) by lia. rewrite Z.pow_add_r by lia.
      replace (retryBaseDelay * (2 ^ 64 * 2 ^ (a - 64)) + 2 ^ 63)
        with (2 ^ 63 + (retryBaseDelay * 2 ^ (a - 64)) * 2 ^ 64) by ring.
      by rewrite Z.mod_add, Z.mod_small by lia. }
    rewrite Hw. change (retryMaxDelay = Z.min (2 ^ a * second) retryMaxDelay). symmetry. apply Z.min_r.
    assert (2 ^ 64 <= 2 ^ a) by (apply Z.pow_le_mono_r; lia).
    unfold retryMaxDelay, second. lia.
Qed.

(** What holds of every state of the loop. *)
Record retry_inv (s : retry_state) : Prop := {
  ri_attempt : 0 <= rAttempt s <= 6;
  ri_requests : Z.of_nat (rRequests s) = rAttempt s + (if rAuthRetried s then 1 else 0);
  ri_sleeps : Z.of_nat (length (rSleeps s)) <= rAttempt s;
  ri_delay : 0 < rDelay s -> Z.of_nat (length (rSleeps s)) + 1 <= rAttempt s }.

Definition retry_measure (s : retry_state) : Z := 7 - rAttempt s + (if rAuthRetried s then 0 else 1).

Definition retry_final (r : retry_result * retry_state) : Prop :=
  (rRequests r.2 <= 7)%nat /\ (length (rSleeps r.2) <= 6)%nat /\
  match r.1 with
  | RetryFuel => False
  | RetryOK status key =>
      isTransientStatus status = false /\ (status = 401 -> rAuthRetried r.2 = true) /\ key = rKey r.2
  | RetryErr RetryGaveUp => (6 <= rRequests r.2)%nat
  | RetryErr _ => True
  end.

Lemma retry_step_ok w s : retry_inv s -> rAttempt s <= 5 ->
  match retry_step w s with
  | inl s' => retry_inv s' /\ retry_measure s' = retry_measure s - 1
  | inr r => retry_final r
  end.
Proof.
  intros [Ha Hr Hs Hd] Hle. unfold retry_step.
  set (s1 := if 0 <? rDelay s then _ else s).
  assert (H1 : rAttempt s1 = rAttempt s /\ rKey s1 = rKey s /\ rAuthRetried s1 = rAuthRetried s /\
    rRequests s1 = rRequests s /\ rDelay s1 <= 0 /\ Z.of_nat (length (rSleeps s1)) <= rAttempt s).
  { subst s1. destruct (0 <? rDelay s) eqn:E; bool_hyps; cbn; rewrite ?length_app; cbn;
      split_and!; try done; lia. }
  clearbody s1. destruct H1 as (A1 & A2 & A3 & A4 & A5 & A6).
  assert (Hreq : Z.of_nat (rRequests s1) <= 6) by (destruct (rAuthRetried s); lia).
  assert (Hfin : forall r n, (n <= S (rRequests s1))%nat ->
    match r with RetryErr RetryGaveUp => False | RetryErr _ => True | _ => False end ->
    forall s2, rRequests s2 = n -> rSleeps s2 = rSleeps s1 -> retry_final (r, s2)).
  { intros r n Hn Hr' s2 E1 E2. unfold retry_final. cbn. rewrite E1, E2.
    split_and!; [lia|lia|]. destruct r as [| []|]; done. }
  destruct (negb _); [eapply (Hfin _ (rRequests s1)); [lia|exact I|reflexivity|reflexivity]|].
  destruct (negb _); [eapply (Hfin _ (rRequests s1)); [lia|exact I|reflexivity|reflexivity]|].
  destruct (w_http w _ _) as [[|]|status ra].
  - eapply (Hfin _ (S (rRequests s1))); [lia|exact I|reflexivity|reflexivity].
  - split; [split; cbn; rewrite ?A1, ?A3, ?A4; lia|].
    unfold retry_measure. cbn. rewrite A1, A3. lia.
  - cbn [rAuthRetried]. destruct ((status =? 401) && negb (rAuthRetried s1)) eqn:E4.
    + apply andb_true_iff in E4 as [_ E4]. rewrite A3 in E4. apply negb_true_iff in E4.
      destruct (w_resolve w 1) as [k|]; [|eapply (Hfin _ (S (rRequests s1))); [lia|exact I|reflexivity|reflexivity]].
      cbn [rKey]. case_bool_decide.
      { apply (Hfin _ (S (rRequests s1))); [lia| |done|done]. by destruct (w_invalidate w 0). }
      split; [split; cbn; rewrite ?A1, ?A4; try lia; by rewrite E4 in Hr; lia|].
      unfold retry_measure. cbn. rewrite A1, E4. lia.
    + destruct (isTransientStatus status) eqn:Et.
      * split; [split; cbn; rewrite ?A1, ?A3, ?A4; lia|].
        unfold retry_measure. cbn. rewrite A1, A3. lia.
      * unfold retry_final. cbn. split_and!; [lia|lia|done| |done].
        intros ->. by destruct (rAuthRetried s1).
Qed.

Lemma retry_loop_ok fuel w s : retry_inv s -> retry_measure s <= Z.of_nat fuel ->
  retry_final (retry_loop fuel w s).
Proof.
  revert s. induction fuel as [|fuel IH]; intros s Hi Hm.
  - exfalso. destruct Hi as [Ha _ _ _]. unfold retry_measure in Hm. destruct (rAuthRetried s); lia.
  - cbn [retry_loop]. unfold maxTransientRetries. destruct (5 <? rAttempt s) eqn:E; bool_hyps.
    + destruct Hi as [Ha Hr Hs Hd]. unfold retry_final. cbn.
      destruct (rAuthRetried s); split_and!; lia.
    + pose proof (retry_step_ok w s Hi E) as Hs. destruct (retry_step w s) as [s'|r]; [|done].
      destruct Hs as [Hi' Hm']. apply IH; [done|lia].
Qed.

(** Whatever the network, the token source and the clock do, the request
    loop ends: it sends at most seven requests (six attempts and the free one
    after a 401) and sleeps at most six times; a response it returns is never
    one worth retrying (no 429, 529 or 5xx, and a 401 only after the token was
    refreshed) and is reported with the key that request carried; it gives up
    only after six attempts. *)
Theorem retry_bounded (w : world) :
  let '(r, s) := doWithAuthRetry w in
  (rRequests s <= 7)%nat /\ (length (rSleeps s) <= 6)%nat /\
  match r with
  | RetryFuel => False
  | RetryOK status key =>
      isTransientStatus status = false /\ (status = 401 -> rAuthRetried s = true) /\ key = rKey s
  | RetryErr RetryGaveUp => (6 <= rRequests s)%nat
  | RetryErr _ => True
  end.
Proof.
  unfold doWithAuthRetry. destruct (w_resolve w 0) as [key|]; [|cbn; lia].
  assert (H : retry_final (retry_loop retry_fuel w (mkRetry 0 key false 0 0 []))).
  { apply retry_loop_ok; [split; cbn; lia|]. vm_compute. discriminate. }
  by destruct (retry_loop _ _ _).
Qed.

(** ** What is cached for replay *)

Lemma keep_tool_use b : cacheableNativeBlock b = (true, false) -> bType b = #"tool_use" ->
  bID b <> [] /\ exists args, input_map (bInput b) = Some args.
Proof.
  unfold cacheableNativeBlock. intros H E. rewrite E in H.
  rewrite !(bool_decide_eq_false_2 (#"tool_use" = _)) in H by done.
  rewrite (bool_decide_eq_true_2 (#"tool_use" = #"tool_use")) in H by done.
  case_bool_decide; [done|]. split; [done|]. destruct (input_map (bInput b)); [by eauto|done].
Qed.

Lemma drop_tool_use b : cacheableNativeBlock b = (false, false) -> bType b = #"tool_use" -> bID b = [].
Proof.
  unfold cacheableNativeBlock. intros H E. rewrite E in H.
  rewrite !(bool_decide_eq_false_2 (#"tool_use" = _)) in H by done.
  rewrite (bool_decide_eq_true_2 (#"tool_use" = #"tool_use")) in H by done.
  case_bool_decide; [done|]. by destruct (input_map (bInput b)).
Qed.

(** The calls a block decodes to. *)
Lemma decode_invokes b :
  map cToolCallID (invokes (decode_block [] b)) =
  if bool_decide (bType b = #"tool_use") && nonempty (bID b) &&
     match bInput b with Some _ => true | None => false end
  then [bID b] else [].
Proof.
  unfold decode_block, validNativeBlock.
  destruct (decide (bType b = #"tool_use")) as [E|E].
  - rewrite E, !(bool_decide_eq_false_2 (#"tool_use" = _)), (bool_decide_eq_true_2 (#"tool_use" = _)) by done.
    cbn [andb]. by destruct (nonempty (bID b) && _).
  - rewrite (bool_decide_eq_false_2 (bType b = #"tool_use")) by done. cbn [andb].
    repeat case_if; done.
Qed.

Lemma invokes_app l k : invokes (l ++ k) = invokes l ++ invokes k.
Proof. apply List.filter_app. Qed.

Lemma cached_ids content kept :
  cacheable_blocks content = Some kept ->
  block_ids #"tool_use" bID kept = map cToolCallID (invokes (foldl decode_block [] content)).
Proof.
  revert kept. induction content as [|b content IH]; intros kept H; cbn in H; [by simplify_eq|].
  destruct (cacheableNativeBlock b) as [keep fatal] eqn:Ec. destruct fatal; [done|].
  destruct (cacheable_blocks content) as [kept'|]; [|done]. injection H as <-.
  cbn [foldl]. rewrite decode_blocks_app, invokes_app, map_app, decode_invokes, <- (IH _ eq_refl).
  destruct keep.
  - change (b :: kept') with ([b] ++ kept'). rewrite block_ids_app. f_equal.
    unfold block_ids. cbn [List.filter]. case_bool_decide as Et; [|done].
    destruct (keep_tool_use b Ec Et) as [Hid [args Ha]].
    unfold nonempty. rewrite (bool_decide_eq_false_2 (bID b = [])) by done.
    by destruct (bInput b).
  - case_bool_decide as Et; [|done]. rewrite (drop_tool_use b Ec Et). done.
Qed.

(** The bytes kept to replay an assistant message, when any are kept, read
    back as a message with exactly the tool calls of the message put in the
    log: no call is replayed that the log does not know and none is lost, so
    no tool_result is orphaned by the cache. *)
Theorem native_cache_pairing (namespace fp : gostr) (nm : nativeMessage) (kept : list nativeBlock) (raw : gostr)
    (Hk : cacheable_blocks (nContent nm) = Some kept)
    (Hw : wire_ok (mkNative (nRole nm) kept [] [] None))
    (Hp : acPayload (assistantCacheNative namespace fp nm) = [raw]) :
  exists nm', Unmarshal dec_message raw zero_native = (nm', true) /\ nRole nm' = nRole nm /\
    block_ids #"tool_use" bID (nContent nm') =
    map cToolCallID (invokes (mContent (decodeNativeMessage nm))).
Proof.
  unfold assistantCacheNative in Hp. rewrite Hk in Hp. cbn [default] in Hp.
  exists (canon_native (mkNative (nRole nm) kept [] [] None)).
  assert (Hraw : raw = Print (message_json (mkNative (nRole nm) kept [] [] None))).
  { destruct kept; [done|]. cbn [acPayload id] in Hp. by injection Hp as <-. }
  split; [rewrite Hraw; by apply encode_reads_back|]. split; [done|].
  cbn [mContent decodeNativeMessage canon_native nContent]. rewrite <- (cached_ids _ _ Hk).
  unfold block_ids. clear. induction kept as [|b kept IH]; [done|].
  cbn [map List.filter]. change (bType (canon_block b)) with (bType b).
  case_bool_decide; cbn [map]; rewrite IH; done.
Qed.

(** ** A tool call whose input never parsed *)

Lemma fatal_blocks content b :
  b ∈ content -> cacheableNativeBlock b = (false, true) -> cacheable_blocks content = None.
Proof.
  induction content as [|c content IH]; intros Hin Hb; [by apply elem_of_nil in Hin|].
  apply elem_of_cons in Hin as [<-|Hin]; cbn; [by rewrite Hb|].
  destruct (cacheableNativeBlock c) as [keep [|]]; [done|]. by rewrite IH.
Qed.

Lemma unmarshal_entry_lt lt lt' entry ms l l' :
  option_map fst (unmarshal_entry lt entry (ms, l)) = option_map fst (unmarshal_entry lt' entry (ms, l')).
Proof.
  revert ms l l'. induction entry as [|raw entry IH]; intros ms l l'; [done|]. cbn [unmarshal_entry].
  destruct raw; [apply IH|]. destruct (Unmarshal _ _ _) as [nm [|]]; [apply IH|done].
Qed.

Lemma unmarshal_all_lts pm lts lts' ms l l' :
  option_map fst (unmarshal_all pm lts (ms, l)) = option_map fst (unmarshal_all pm lts' (ms, l')).
Proof.
  revert lts lts' ms l l'. induction pm as [|e pm IH]; intros lts lts' ms l l'; [done|].
  cbn [unmarshal_all]. pose proof (unmarshal_entry_lt (hd 0 lts) (hd 0 lts') e ms l l') as He.
  destruct (unmarshal_entry _ e (ms, l)) as [[m1 l1]|], (unmarshal_entry _ e (ms, l')) as [[m2 l2]|];
    try done. cbn in He. injection He as <-. apply IH.
Qed.

Lemma unmarshal_all_nil_snoc pm lts ms l :
  option_map fst (unmarshal_all (pm ++ [[]]) lts (ms, l)) = option_map fst (unmarshal_all pm lts (ms, l)).
Proof.
  revert lts ms l. induction pm as [|e pm IH]; intros lts ms l; [done|]. cbn [app unmarshal_all].
  destruct (unmarshal_entry _ e (ms, l)) as [[m1 l1]|]; [apply IH|done].
Qed.

(** The messages the next request is assembled from. *)
Definition projected_messages (p : provider_state) : option (list nativeMessage) :=
  ip ← pProjection p;
  fst <$> unmarshal_all (PerMessage (ipState ip)) (LogicalTimes (ipState ip)) ([], []).

(** An assistant message with a tool call whose streamed input did not parse
    keeps that call in the log, but the projection accepted for it holds no
    bytes: the entry counts as projected and the next request is assembled
    from the same messages as before, without the call its tool_result
    answers. *)
Theorem native_unparsed_absent (p : provider_state) (ip : IncrementalProjection EncodedMessages)
    (lt : Z) (nm : nativeMessage) (b : nativeBlock) (s : gostr)
    (Hp : pProjection p = Some ip) (Hin : b ∈ nContent nm)
    (Hb : bType b = #"tool_use" /\ bID b <> [] /\ bInput b = Some (JStr s)) :
  let native := assistantCacheNative (pNamespace p) (Fingerprint_of (pRenderer p)) nm in
  let p' := acceptAssistantProjection p lt (acPayload native) in
  bID b ∈ map cToolCallID (invokes (mContent (decodeNativeMessage nm))) /\
  projected_messages p' = projected_messages p /\
  (fun ip' => (ipEntries ip', ipLastLT ip')) <$> pProjection p' = Some (S (ipEntries ip), lt).
Proof.
  destruct Hb as (Et & Hid & Hi). intros native p'.
  assert (Hfatal : cacheableNativeBlock b = (false, true)).
  { unfold cacheableNativeBlock. rewrite Et, !(bool_decide_eq_false_2 (#"tool_use" = _)),
      (bool_decide_eq_true_2 (#"tool_use" = _)), (bool_decide_eq_false_2 (bID b = [])), Hi by done.
    done. }
  assert (Hnone : acPayload native = []).
  { subst native. unfold assistantCacheNative. by rewrite (fatal_blocks _ _ Hin Hfatal). }
  split.
  - cbn [mContent decodeNativeMessage]. clear -Hin Et Hid Hi.
    induction (nContent nm) as [|c l IH]; [by apply elem_of_nil in Hin|].
    cbn [foldl]. rewrite decode_blocks_app, invokes_app, map_app. apply elem_of_app.
    apply elem_of_cons in Hin as [<-|Hin]; [left|right; by apply IH].
    rewrite decode_invokes, Et, (bool_decide_eq_true_2 (#"tool_use" = _)), Hi by done.
    unfold nonempty. rewrite (bool_decide_eq_false_2 (bID b = [])) by done. by apply list_elem_of_singleton.
  - subst p'. unfold acceptAssistantProjection, projected_messages. rewrite Hp, Hnone.
    split; [|done]. cbn [set_projection pProjection mbind option_bind ipState AppendEncodedMessage
      PerMessage LogicalTimes].
    change (fmap (M:=option) fst) with (option_map (A := list nativeMessage * list Z) fst).
    rewrite unmarshal_all_nil_snoc. apply unmarshal_all_lts.
Qed.

(** ** A turn lands once or not at all *)

Section landing.
Context {C F : Type} `{LogLaws C (list gostr)} `{LogLaws F Message}.

(** The request of a turn, when there is anything to send. *)
Definition request_of (p : provider_state) (figLog : F) (cache : option C) (sin : SendInput) (oauth : bool)
  : option nativeRequest :=
  let '(_, _, (perMessage, lts)) := catchUp p figLog cache (siChalkboard sin) in
  match perMessage with
  | [] => None
  | _ => projectMessagesWithLTs (pMaxTokens p) perMessage lts (siSnapshot sin) (siTools sin) (siMaxTokens sin) oauth
           (resolveModel (pModel p) (siSnapshot sin))
  end.

Definition dated (now : Z) (m : Message) : Message :=
  mkMessage (mRole m) (mContent m) (mPatches m) (mUsage m) (mStopReason m) (mToolCallID m) (mToolName m)
    (mLogicalTime m) now.

Lemma catchUp_config (p : provider_state) (figLog : F) (cache : option C) chalk :
  let '(p', _, _) := catchUp p figLog cache chalk in
  pModel p' = pModel p /\ pMaxTokens p' = pMaxTokens p /\ pNamespace p' = pNamespace p /\ pRenderer p' = pRenderer p.
Proof. unfold catchUp. by destruct (ProjectIncrementally _ _ _ _) as [[[ip|] ?] ?]. Qed.

(** C18: A turn that fails leaves the log as it was.  One that succeeds had its
    request answered with status 200 and a stream that drained to a message:
    when that message has no content, nothing is appended and the bus is what
    the stream pushed; otherwise exactly one entry is appended, the message
    decoded from the stream's, dated now, with role assistant, and the bus ends
    with its end and the message with the LT it got and its native blocks.
    Conversely, such an answer makes the turn succeed unless the log refuses the
    append. *)
Theorem native_send_lands (p : provider_state) (figLog : F) (cache : option C) (sin : SendInput)
    (oauth : bool) (fn : nativeRequest -> option (Z * list sse_in)) (now : Z)
    (Hwf : log_wf figLog) :
  let model := resolveModel (pModel p) (siSnapshot sin) in
  let '(p', figLog', cache', calls, err) := SendWithTransport p figLog cache sin oauth fn now in
  match err with
  | Some _ => Read figLog' = Read figLog
  | None => exists req ins nm bus,
      request_of p figLog cache sin oauth = Some req /\ fn req = Some (200, ins) /\
      drainSSE model ins = Drained nm bus /\
      if (length (nContent nm) =? 0)%nat then figLog' = figLog /\ calls = bus
      else exists entry, Read figLog' = Read figLog ++ [entry] /\
        Payload entry = dated now (decodeNativeMessage nm) /\ mRole (Payload entry) = RoleAssistant /\
        calls = bus ++ [PushMessageEnd (mStopReason (Payload entry));
                        PushFigaro (with_lt (Payload entry) (LT entry))
                          (assistantCacheNative (pNamespace p) (Fingerprint_of (pRenderer p)) nm)]
  end /\
  (forall req ins nm bus, request_of p figLog cache sin oauth = Some req -> fn req = Some (200, ins) ->
     drainSSE model ins = Drained nm bus -> err = None \/ err = Some SendAppend).
Proof.
  cbv zeta. unfold SendWithTransport, request_of. pose proof (catchUp_config p figLog cache (siChalkboard sin)) as Hc.
  destruct (catchUp p figLog cache _) as [[p1 c1] [pm lts]]. destruct Hc as (Em & Et & En & Er). rewrite Em, Et.
  destruct pm as [|e pm]; [done|].
  destruct (projectMessagesWithLTs _ _ _ _ _ _ _ _) as [req|]; [|done].
  destruct (fn req) as [[status ins]|] eqn:Ef; [|split; [done|intros; simplify_eq]].
  destruct (Z.eqb_spec status 200) as [->|Hst]; cbn [negb]; [|split; [done|intros; simplify_eq]].
  destruct (drainSSE _ ins) as [nm calls| | |] eqn:Ed;
    [|split; [done|intros; simplify_eq; congruence]..].
  destruct (nContent nm) as [|b bs] eqn:Ec.
  { split; [|by left]. exists req, ins, nm, calls. by rewrite Ec. }
  unfold land. rewrite En, Er. destruct (Append figLog _) as [log' [entry|]] eqn:Ea.
  - split; [|by left]. destruct (law_Append_ok _ _ _ _ Hwf Ea) as (_ & Hr & Hpay & _). cbn [Payload] in Hpay.
    exists req, ins, nm, calls. rewrite Ec. cbn [length Nat.eqb]. split_and!; try done.
    exists entry. rewrite Hpay. destruct (drain_keeps _ _ _ _ _ Ed) as [Hrole _].
    by split_and!.
  - split; [|by right]. by destruct (law_Append_err _ _ _ Hwf Ea) as (_ & Hr).
Qed.

End landing.

(** ** Witnesses *)

Definition ex_line (s : string) : sse_in := InLine (js s).
Definition ex_stream : list sse_in := [
  ex_line "event: message_start"; ex_line "data: {'message':{'usage':{'input_tokens':7}}}";
  ex_line "event: content_block_start"; ex_line "data: {'index':0,'content_block':{'type':'text'}}";
  ex_line "event: content_block_delta"; ex_line "data: {'index':0,'delta':{'type':'text_delta','text':'Hi '}}";
  ex_line "data: {'index':0,'delta':{'type':'text_delta','text':'there'}}";
  ex_line "event: content_block_stop"; ex_line "data: {'index':0}";
  ex_line "event: content_block_start";
  ex_line "data: {'index':1,'content_block':{'type':'tool_use','id':'t1','name':'bash'}}";
  ex_line "event: content_block_delta";
  ex_line "data: {'index':1,'delta':{'type':'input_json_delta','partial_json':'{\'command\':'}}";
  ex_line "data: {'index':1,'delta':{'type':'input_json_delta','partial_json':'\'ls\'}'}}";
  ex_line "event: content_block_stop"; ex_line "data: {'index':1}";
  ex_line "event: message_delta"; ex_line "data: {'delta':{'stop_reason':'tool_use'},'usage':{'output_tokens':5}}";
  ex_line "event: message_stop"; ex_line "data: {}" ].

Definition ex_drained : nativeMessage :=
  mkNative #"assistant"
    [text_block #"Hi there";
     set_Input (Some (JObj ex_args)) (set_Name #"bash" (set_ID #"t1" (set_Type #"tool_use" zero_block)))]
    #"tool_use" #"m" (Some (mkUsageN 7 5 0 0)).

Definition ex_calls : list bus_call :=
  [PushDelta (prose #"Hi "); PushDelta (prose #"there"); PushToolInvokeStart #"t1" #"bash";
   PushToolInvokeDelta #"t1" (js "{'command':"); PushToolInvokeDelta #"t1" (js "'ls'}");
   PushToolReady (tool_invoke #"t1" #"bash" (Some ex_args))].

Lemma sse_bus_faithful_witness :
  drainSSE #"m" ex_stream = Drained ex_drained ex_calls /\
  pushed ContentProse ex_calls = concat (map bText (nContent ex_drained)) /\
  pushed ContentThinking ex_calls = concat (map bThinking (nContent ex_drained)) /\
  ready_calls ex_calls = omap executable (nContent ex_drained) /\
  nRole ex_drained = #"assistant" /\ nModel ex_drained = #"m".
Proof.
  assert (H : drainSSE #"m" ex_stream = Drained ex_drained ex_calls) by (vm_compute; reflexivity).
  split; [exact H|].
  apply (sse_bus_faithful #"m" ex_stream ex_drained ex_calls); [vm_compute; reflexivity|exact H].
Defined.

Lemma native_cache_pairing_witness :
  exists raw nm', acPayload (assistantCacheNative #"anthropic" #"f" ex_drained) = [raw] /\
    Unmarshal dec_message raw zero_native = (nm', true) /\ nRole nm' = nRole ex_drained /\
    block_ids #"tool_use" bID (nContent nm') =
    map cToolCallID (invokes (mContent (decodeNativeMessage ex_drained))).
Proof.
  exists (Print (message_json (mkNative (nRole ex_drained) (nContent ex_drained) [] [] None))).
  assert (Hw : wire_ok (mkNative (nRole ex_drained) (nContent ex_drained) [] [] None)).
  { unfold ex_drained. cbn [nRole nContent].
    wire_check; cbn; repeat constructor; apply valid_lit; vm_compute; reflexivity. }
  destruct (native_cache_pairing #"anthropic" #"f" ex_drained (nContent ex_drained)
    (Print (message_json (mkNative (nRole ex_drained) (nContent ex_drained) [] [] None)))
    eq_refl Hw eq_refl) as (nm' & H1 & H2 & H3).
  exists nm'. split; [reflexivity|]. split; [exact H1|]. split; [exact H2|exact H3].
Defined.

(** A tool call whose input is cut short. *)
Definition ex_cut_block : nativeBlock :=
  set_Input (Some (JStr (js "{'command':"))) (set_Name #"bash" (set_ID #"t1" (set_Type #"tool_use" zero_block))).
Definition ex_cut : nativeMessage := mkNative #"assistant" [ex_cut_block] #"tool_use" #"m" None.
Definition ex_projection : IncrementalProjection EncodedMessages :=
  mkIP (mkEncoded [[js "{'role':'user','content':[{'type':'text','text':'hi'}]}"]] [1]) ∅ [] 1 1.
Definition ex_provider : provider_state :=
  mkProvider #"m" 0 [] None #"anthropic" (Some ex_projection).

Lemma native_unparsed_absent_witness :
  let native := assistantCacheNative #"anthropic" (Fingerprint_of []) ex_cut in
  let p' := acceptAssistantProjection ex_provider 2 (acPayload native) in
  bID ex_cut_block ∈ map cToolCallID (invokes (mContent (decodeNativeMessage ex_cut))) /\
  projected_messages p' = projected_messages ex_provider /\
  (fun ip' => (ipEntries ip', ipLastLT ip')) <$> pProjection p' = Some (S (ipEntries ex_projection), 2).
Proof.
  apply (native_unparsed_absent ex_provider ex_projection 2 ex_cut ex_cut_block (js "{'command':")).
  - reflexivity.
  - by apply list_elem_of_singleton.
  - by split_and!.
Defined.

Definition ex_figlog : MemLog Message :=
  fst (Append (NewMemLog (T := Message)) (mkEntry 0 0 (mkMessage RoleUser [prose #"hi"] [] None [] [] [] 0 0) [])).

Lemma native_send_lands_witness :
  let '(p', figLog', cache', calls, err) :=
    SendWithTransport (C := MemLog (list gostr)) (mkProvider #"m" 0 [] None #"anthropic" None) ex_figlog None
      (mkSendInput ∅ None [] 0) false (fun _ => Some (200, ex_stream)) 42 in
  err = None /\ length (Read figLog') = 2%nat /\
  exists req nm bus, drainSSE #"m" ex_stream = Drained nm bus /\
    request_of (C := MemLog (list gostr)) (mkProvider #"m" 0 [] None #"anthropic" None) ex_figlog None
      (mkSendInput ∅ None [] 0) false = Some req /\
    (if (length (nContent nm) =? 0)%nat then figLog' = ex_figlog /\ calls = bus
     else exists entry, Read figLog' = Read ex_figlog ++ [entry] /\
       Payload entry = dated 42 (decodeNativeMessage nm)).
Proof.
  assert (Hwf : log_wf ex_figlog).
  { eapply (law_Append_ok NewMemLog); [apply NewMemLog_wf|reflexivity]. }
  pose proof (native_send_lands (C := MemLog (list gostr)) (mkProvider #"m" 0 [] None #"anthropic" None) ex_figlog None
    (mkSendInput ∅ None [] 0) false (fun _ => Some (200, ex_stream)) 42 Hwf) as H. cbv zeta in H.
  destruct (SendWithTransport _ _ _ _ _ _ _) as [[[[p' l'] c'] calls] err] eqn:E.
  vm_compute in E. injection E as <- <- <- <- <-.
  split; [reflexivity|]. split; [reflexivity|].
  destruct H as [(req & ins & nm & bus & H1 & H2 & H3 & H4) _]. exists req, nm, bus.
  assert (Hi : ex_stream = ins).
  { exact (f_equal (fun o => match o with Some (_, i) => i | None => [] end) H2). }
  rewrite <- Hi in H3. split; [exact H3|]. split; [exact H1|].
  destruct (length (nContent nm) =? 0)%nat; [exact H4|]. destruct H4 as (entry & H5 & H6 & _).
  exists entry. split; [exact H5|exact H6].
Defined.
