(* ===== verification/Sdk.v ===== *)
(** * provider/anthropicsdk: request assembly and streams over the SDK's types
    (src/internal/provider/anthropicsdk/assemble.go, encode.go, decode.go,
    cache.go, stream.go, anthropicsdk.go)

    The SDK is third-party code: of its types the fields the program reads or
    sets are modelled; its JSON codec of a message and its stream accumulator
    are parameters. *)

From S2P Require Import Prelude Utf8 GoStrings Json GoJson Message Chalkboard Reminder Native.

(** ** The SDK's data *)

(** anthropic.CacheControlEphemeralParam: the TTL of a mark. *)
Inductive ttl := TTLDefault | TTL5m | TTL1h.

(** anthropic.ContentBlockParamUnion: the variant, then its own cache mark
    where the variant has one. *)
Inductive sdkBlock :=
| OfText (text : gostr) (cc : option ttl)
| OfImage (media data : gostr) (cc : option ttl)
| OfToolUse (id : gostr) (input : json) (name : gostr) (cc : option ttl)
| OfToolResult (id text : gostr) (isError : bool) (cc : option ttl)
| OfDocument (source : json) (cc : option ttl)
| OfThinking (signature thinking : gostr)
| OfRedactedThinking (data : gostr).

(** anthropic.MessageParam *)
Record MessageParam := mkParam { pRole : gostr; pContent : list sdkBlock }.

(** anthropic.ContentBlockUnion, as the accumulator fills it. *)
Record accBlock := mkAcc {
  aType : gostr; aText : gostr; aThinking : gostr; aSignature : gostr; aData : gostr;
  aID : gostr; aName : gostr; aInput : gostr }.

(** anthropic.Message *)
Record accMessage := mkAccMessage {
  amContent : list accBlock; amStopReason : gostr; amUsage : nativeUsage }.

#[export] Instance ttl_eq_dec : EqDecision ttl.
Proof. solve_decision. Defined.
#[export] Instance sdkBlock_eq_dec : EqDecision sdkBlock.
Proof. solve_decision. Defined.
#[export] Instance MessageParam_eq_dec : EqDecision MessageParam.
Proof. solve_decision. Defined.

(** ** encode.go *)

(** func toolInput *)
Definition toolInput (args : option object) : json :=
  match args with None | Some [] => JObj [] | Some args => JObj args end.

Definition render_user (blocks : list sdkBlock) (c : Content) : list sdkBlock :=
  if bool_decide (cType c = ContentProse) then blocks ++ [OfText (cText c) None]
  else if bool_decide (cType c = ContentImage) then blocks ++ [OfImage (cMimeType c) (cData c) None]
  else if bool_decide (cType c = ContentToolResult) then
    blocks ++ [OfToolResult (cToolCallID c) (or_default (cText c) #"(empty)") (cIsError c) None]
  else blocks.

(** Thinking is dropped: the IR has no signature to replay it with. *)
Definition render_assistant (blocks : list sdkBlock) (c : Content) : list sdkBlock :=
  if bool_decide (cType c = ContentProse) then blocks ++ [OfText (cText c) None]
  else if bool_decide (cType c = ContentThinking) then blocks
  else if bool_decide (cType c = ContentToolInvoke) then
    blocks ++ [OfToolUse (cToolCallID c) (toolInput (cArguments c)) (cToolName c) None]
  else blocks.

Definition render_interrupt (blocks : list sdkBlock) (c : Content) : list sdkBlock :=
  if negb (bool_decide (cType c = ContentInterrupt)) || bool_decide (cToolCallID c = []) then blocks
  else blocks ++ [OfToolResult (cToolCallID c)
                    (or_default (cText c) #"(tool execution was interrupted)") true None].

Definition patch_reminders (tmpls : templates) (st : list sdkBlock * snapshot) (p : Patch)
  : list sdkBlock * snapshot :=
  let out := match Render p st.2 tmpls with
    | Some rendered => st.1 ++ map (fun r => OfText (reminder_text r) None) rendered
    | None => st.1
    end in
  (out, Snapshot.Apply st.2 p).

(** func (p *Provider) renderPatchBlocks *)
Definition renderPatches (Templates : option templates) (patches : list Patch) (prev : snapshot)
  : list sdkBlock * snapshot :=
  match patches, Templates with
  | [], _ | _, None => ([], foldl Snapshot.Apply prev patches)
  | _, Some tmpls => foldl (patch_reminders tmpls) ([], prev) patches
  end.

Definition param_or_none (role : gostr) (blocks : list sdkBlock) : option MessageParam :=
  match blocks with [] => None | _ => Some (mkParam role blocks) end.

(** func (p *Provider) renderMessage *)
Definition renderParam (Templates : option templates) (msg : Message) (prev : snapshot)
  : option MessageParam :=
  if bool_decide (mRole msg = RoleUser) then
    param_or_none #"user" (foldl render_user [] (mContent msg) ++
                           (renderPatches Templates (mPatches msg) prev).1)
  else if bool_decide (mRole msg = RoleAssistant) then
    param_or_none #"assistant" (foldl render_assistant [] (mContent msg))
  else if bool_decide (mRole msg = RoleSystemInterrupt) then
    param_or_none #"user" (foldl render_interrupt [] (mContent msg))
  else None.

(** ** assemble.go *)

(** The loop of coalesceMessages; [None] is the panic of an index out of range. *)
Fixpoint coalesce_loop (i : nat) (msgs : list MessageParam) (lts : list Z)
    (outMsgs : list MessageParam) (outLTs : list Z) : option (list MessageParam * list Z) :=
  match msgs with
  | [] => Some (outMsgs, outLTs)
  | m :: msgs' =>
      match outMsgs !! (length outMsgs - 1)%nat with
      | None => None
      | Some last =>
          if bool_decide (pRole m = pRole last) then
            let outMsgs := <[(length outMsgs - 1)%nat := mkParam (pRole last) (pContent last ++ pContent m)]> outMsgs in
            match lts !! i with
            | None => coalesce_loop (S i) msgs' lts outMsgs outLTs
            | Some lt =>
                if (length outMsgs - 1 <? length outLTs)%nat
                then coalesce_loop (S i) msgs' lts outMsgs (<[(length outMsgs - 1)%nat := lt]> outLTs)
                else None
            end
          else
            coalesce_loop (S i) msgs' lts (outMsgs ++ [m])
              (match lts !! i with Some lt => outLTs ++ [lt] | None => outLTs end)
      end
  end.

Fixpoint needs_coalescing (msgs : list MessageParam) : bool :=
  match msgs with
  | a :: (b :: _) as rest => bool_decide (pRole b = pRole a) || needs_coalescing rest
  | _ => false
  end.

(** func coalesceMessages *)
Definition coalesceMessages (msgs : list MessageParam) (lts : list Z)
  : option (list MessageParam * list Z) :=
  match msgs with
  | m :: ((_ :: _) as rest) =>
      if needs_coalescing msgs
      then coalesce_loop 1 rest lts [m] (match lts with lt :: _ => [lt] | [] => [] end)
      else Some (msgs, lts)
  | _ => Some (msgs, lts)
  end.

(** func cacheControlOf *)
Definition cacheControlOf (setting : gostr) : ttl :=
  if bool_decide (setting = #"5m") then TTL5m
  else if bool_decide (setting = #"1h") then TTL1h else TTLDefault.

Definition mark_leaf (cc : ttl) (b : sdkBlock) : sdkBlock :=
  match b with
  | OfText t _ => OfText t (Some cc)
  | OfToolUse id input name _ => OfToolUse id input name (Some cc)
  | OfToolResult id t e _ => OfToolResult id t e (Some cc)
  | OfImage m d _ => OfImage m d (Some cc)
  | OfDocument s _ => OfDocument s (Some cc)
  | OfThinking _ _ | OfRedactedThinking _ => b
  end.

(** func setLeafCache *)
Definition setLeafCache (cc : ttl) (m : MessageParam) : MessageParam :=
  mkParam (pRole m) (on_last (mark_leaf cc) (pContent m)).

(** anthropic.MessageNewParams, with the thinking configuration. *)
Inductive sdkThinking := ThinkingOff | ThinkingAdaptive (effort : gostr) | ThinkingEnabled (budget : Z).

(** anthropic.ToolInputSchemaParam *)
Record toolSchema := mkSchema {
  scProperties : option json; scRequired : list gostr; scExtra : object }.

Record sdkTool := mkSdkTool {
  stName : gostr; stDescription : gostr; stSchema : toolSchema; stCache : option ttl }.

Record params := mkParams {
  prMaxTokens : Z; prModel : gostr; prSystem : list (gostr * option ttl);
  prTools : list sdkTool; prMessages : list MessageParam; prThinking : sdkThinking }.

Definition set_messages (ps : params) (ms : list MessageParam) : params :=
  mkParams (prMaxTokens ps) (prModel ps) (prSystem ps) (prTools ps) ms (prThinking ps).

(** ASCII lower case: the words resolveCacheControl compares with have no
    letter another rune lowers to. *)
Definition lower_byte (c : byte) : byte :=
  if (0x41 <=? bz c) && (bz c <=? 0x5A) then zb (bz c + 32) else c.

(** func resolveCacheControl *)
Definition resolveCacheControl (snap : snapshot) : gostr :=
  match Lookup snap #"system.cache_control" with
  | Some cc =>
      let s := map lower_byte (TrimSpace cc) in
      if bool_decide (s = #"none") || bool_decide (s = #"off") || bool_decide (s = #"false") ||
         bool_decide (s = [])
      then [] else cc
  | None => #"ephemeral"
  end.

(** func markCacheBreakpoints *)
Definition markBreakpoints (ps : params) (setting : gostr) : params :=
  let cc := cacheControlOf setting in
  mkParams (prMaxTokens ps) (prModel ps)
    (on_last (fun s => (s.1, Some cc)) (prSystem ps))
    (on_last (fun t => mkSdkTool (stName t) (stDescription t) (stSchema t) (Some cc)) (prTools ps))
    (on_last (setLeafCache cc) (prMessages ps)) (prThinking ps).

(** One iteration over the tags of applyMessageTags. *)
Definition apply_sdk_tag (ix : gmap Z nat) (ms : list MessageParam) (tag : gostr * gostr)
  : list MessageParam :=
  if bool_decide (tag.2 = []) then ms else
  match parse_uint tag.1 with
  | None => ms
  | Some lt => match ix !! lt with
               | None => ms
               | Some idx => alter (setLeafCache (cacheControlOf tag.2)) idx ms
               end
  end.

(** func applyMessageTags *)
Definition applyTags (ps : params) (msgLTs : list Z) (snap : snapshot) : params :=
  match snap !! #"system.tags" with
  | None | Some [] => ps
  | Some raw =>
      let '(tags, ok) := Unmarshal dec_tags raw [] in
      if negb ok then ps else
      set_messages ps (foldl (apply_sdk_tag (last_index 0 msgLTs ∅)) (prMessages ps) tags)
  end.

(** strconv.Atoi with its error dropped: 0, or the nearest int out of range. *)
Definition atoi_value (s : gostr) : Z :=
  match parse_int s with
  | Some z => z
  | None =>
      let '(neg, r) := match s with
        | c :: r => if bz c =? 0x2D then (true, r) else if bz c =? 0x2B then (false, r) else (false, s)
        | [] => (false, [])
        end in
      match r with
      | [] => 0
      | _ => match digits_value 0 r with
             | Some _ => if neg then - 2 ^ 63 else 2 ^ 63 - 1
             | None => 0
             end
      end
  end.

(** func thinkingInt *)
Definition thinkingInt (raw : option gostr) : Z :=
  match raw with
  | None | Some [] => 0
  | Some raw =>
      let '(n, ok) := Unmarshal dec_int raw 0 in
      if ok then n
      else let '(s, ok) := Unmarshal dec_string raw [] in
           if ok then atoi_value (TrimSpace s) else n
  end.

(** func thinkingStr *)
Definition thinkingStr (raw : option gostr) : gostr :=
  match raw with
  | None | Some [] => []
  | Some raw => TrimSpace (fst (Unmarshal dec_string raw []))
  end.

(** func isAdaptiveThinkingModel *)
Definition isAdaptiveThinkingModel (model : gostr) : bool :=
  existsb (fun frag => Contains model frag)
    [ #"opus-4-6"; #"opus-4.6"; #"opus-4-7"; #"opus-4.7"; #"opus-4-8"; #"opus-4.8";
      #"sonnet-4-6"; #"sonnet-4.6"].

(** func applyThinking *)
Definition applySdkThinking (ps : params) (snap : snapshot) (model : gostr) : params :=
  let budget := thinkingInt (snap !! #"system.thinking_budget") in
  let effort := thinkingStr (snap !! #"system.thinking_effort") in
  if (budget <=? 0) && bool_decide (effort = []) then ps
  else if isAdaptiveThinkingModel model then
    mkParams (prMaxTokens ps) (prModel ps) (prSystem ps) (prTools ps) (prMessages ps)
      (ThinkingAdaptive (or_default effort #"high"))
  else
    let budget := if budget <=? 0 then 1024 else budget in
    let budget := if budget <? 1024 then 1024 else budget in
    mkParams (if prMaxTokens ps <=? budget then wrap64 (budget + 4096) else prMaxTokens ps)
      (prModel ps) (prSystem ps) (prTools ps) (prMessages ps) (ThinkingEnabled budget).

(** One iteration of toolInputSchema. *)
Definition schema_field (sc : toolSchema) (kv : gostr * json) : toolSchema :=
  if bool_decide (kv.1 = #"type") then sc
  else if bool_decide (kv.1 = #"properties") then mkSchema (Some kv.2) (scRequired sc) (scExtra sc)
  else if bool_decide (kv.1 = #"required") then
    match kv.2 with
    | JArr l => mkSchema (scProperties sc)
                  (omap (fun r => match r with JStr s => Some s | _ => None end) l) (scExtra sc)
    | _ => sc
    end
  else mkSchema (scProperties sc) (scRequired sc) (scExtra sc ++ [kv]).

(** func toolInputSchema *)
Definition toolInputSchema (v : option json) : toolSchema :=
  match v with
  | Some (JObj m) => foldl schema_field (mkSchema None [] []) m
  | _ => mkSchema None [] []
  end.

(** func toolUnions *)
Definition toolUnions (tools : list ToolDef) : list sdkTool :=
  map (fun t => mkSdkTool (tdName t) (tdDescription t) (toolInputSchema (tdParameters t)) None) tools.

(** func systemBlocks (readCredo is the other package's, line for line). *)
Definition sdkSystem (snap : snapshot) (oauth : bool) : list (gostr * option ttl) :=
  let systemText := readCredo snap in
  if oauth then
    [(oauth_preamble, None)] ++
    (if nonempty systemText then [(persona_preamble ++ systemText, None)] else [])
  else if nonempty systemText then [(systemText, None)] else [].

(** func buildParams; [None] is a panic. *)
Definition buildParams (messages : list MessageParam) (lts : list Z) (snap : snapshot)
    (tools : list ToolDef) (maxTokens : Z) (oauth : bool) (model : gostr) : option params :=
  match coalesceMessages messages lts with
  | None => None
  | Some (ms, msgLTs) =>
      let ps := mkParams maxTokens model (sdkSystem snap oauth) (toolUnions tools) ms ThinkingOff in
      let setting := resolveCacheControl snap in
      let ps := if nonempty setting then markBreakpoints ps setting else ps in
      Some (applySdkThinking (applyTags ps msgLTs snap) snap model)
  end.

(** ** cache.go, with the SDK's codec of a message *)

Record projectedMessages := mkProjected {
  pmMessages : list MessageParam; pmLogicalTimes : list Z; pmErr : bool }.

Section codec.
Context (marshal : MessageParam -> gostr) (unmarshal : gostr -> option MessageParam).

(** func appendProjectedMessages *)
Fixpoint append_raws (state : projectedMessages) (encoded : list gostr) (lt : Z) : projectedMessages :=
  match encoded with
  | [] => state
  | [] :: rest => append_raws state rest lt
  | raw :: rest =>
      match unmarshal raw with
      | None => mkProjected (pmMessages state) (pmLogicalTimes state) true
      | Some m => append_raws (mkProjected (pmMessages state ++ [m]) (pmLogicalTimes state ++ [lt]) false) rest lt
      end
  end.

Definition appendProjectedMessages (state : projectedMessages) (encoded : list gostr) (lt : Z)
  : projectedMessages :=
  if pmErr state then state else append_raws state encoded lt.

(** func (p *Provider) encode *)
Definition encodeParam (Templates : option templates) (msg : Message) (prev : snapshot)
  : option (list gostr) :=
  match renderParam Templates msg prev with
  | None => Some []
  | Some mp => Some [marshal mp]
  end.

End codec.

(** ** decode.go *)

(** func validAccumulatedBlock *)
Definition validAccumulatedBlock (b : accBlock) : bool :=
  if bool_decide (aType b = #"text") then has_text (aText b)
  else if bool_decide (aType b = #"thinking") then has_text (aThinking b)
  else if bool_decide (aType b = #"redacted_thinking") then nonempty (aData b)
  else if bool_decide (aType b = #"tool_use") then nonempty (aID b) && nonempty (aInput b)
  else negb (bool_decide (aType b = [])).

(** json.Unmarshal into map[string]json.RawMessage succeeds. *)
Definition is_object (raw : gostr) : bool :=
  match Parse raw with Some (JObj _) | Some JNull => true | _ => false end.

(** func cacheableAccumulatedBlock: (keep, fatal) *)
Definition cacheableAccumulatedBlock (b : accBlock) : bool * bool :=
  if bool_decide (aType b = #"text") then (has_text (aText b), false)
  else if bool_decide (aType b = #"thinking") then
    (nonempty (aSignature b) || has_text (aThinking b), false)
  else if bool_decide (aType b = #"redacted_thinking") then (nonempty (aData b), false)
  else if bool_decide (aType b = #"tool_use") then
    if bool_decide (aID b = []) then (false, false)
    else if is_object (aInput b) then (true, false) else (false, true)
  else (negb (bool_decide (aType b = [])), false).

(** func asArgsMap *)
Definition asArgsMap (input : gostr) : option object :=
  match input with
  | [] => None
  | _ => let '(m, ok) := Unmarshal dec_map input None in if ok then m else None
  end.

(** func mapStopReason *)
Definition mapStopReason (s : gostr) : gostr :=
  if bool_decide (s = #"end_turn") || bool_decide (s = #"stop_sequence") then StopEnd
  else if bool_decide (s = #"max_tokens") then StopLength
  else if bool_decide (s = #"tool_use") then StopToolInvoke
  else [].

Definition decode_acc (out : list Content) (b : accBlock) : list Content :=
  if negb (validAccumulatedBlock b) then out
  else if bool_decide (aType b = #"text") then out ++ [prose (aText b)]
  else if bool_decide (aType b = #"thinking") then out ++ [thinking (aThinking b)]
  else if bool_decide (aType b = #"tool_use") then
    out ++ [tool_invoke (aID b) (aName b) (asArgsMap (aInput b))]
  else out.

(** func decodeAssistantMessage *)
Definition decodeAssistantMessage (m : accMessage) : Message :=
  let u := amUsage m in
  mkMessage RoleAssistant (foldl decode_acc [] (amContent m)) []
    (Some (mkUsage (uInput u) (uOutput u) (uCacheRead u) (uCacheCreate u)))
    (mapStopReason (amStopReason m)) [] [] 0 0.

Fixpoint cacheable_acc (content : list accBlock) : option (list accBlock) :=
  match content with
  | [] => Some []
  | b :: content' =>
      let '(keep, fatal) := cacheableAccumulatedBlock b in
      if fatal then None
      else match cacheable_acc content' with
           | Some kept => Some (if keep then b :: kept else kept)
           | None => None
           end
  end.

(** func (p *Provider) assistantCache; [to_param] is json.Marshal(acc.ToParam()). *)
Definition assistantCacheSdk (namespace fp : gostr) (to_param : accMessage -> gostr) (acc : accMessage)
  : AssistantCache :=
  match default [] (cacheable_acc (amContent acc)) with
  | [] => mkCache namespace [] fp
  | content => mkCache namespace [to_param (mkAccMessage content (amStopReason acc) (amUsage acc))] fp
  end.

(** ** stream.go *)

Inductive sdk_delta := TextDelta (text : gostr) | ThinkingDelta (text : gostr)
  | InputJSONDelta (partial : gostr) | OtherDelta.
Inductive sdk_event :=
| StartEvent (index : Z) (tool : option (gostr * gostr))   (* the id and name of a tool_use block *)
| DeltaEvent (index : Z) (d : sdk_delta)
| StopEvent (index : Z)
| OtherEvent.

Inductive sdk_call :=
| SdkDelta (c : Content) | SdkToolStart (id name : gostr) | SdkToolDelta (id partial : gostr)
| SdkToolReady (c : Content).

(** acc.Content[idx] with its range test. *)
Definition acc_at (acc : accMessage) (index : Z) : option accBlock :=
  if (index <? 0) || (glen (amContent acc) <=? index) then None else amContent acc !! Z.to_nat index.

(** func handleBlockStart *)
Definition handleBlockStart (tool : option (gostr * gostr)) : list sdk_call :=
  match tool with Some (id, name) => [SdkToolStart id name] | None => [] end.

(** func handleBlockDelta *)
Definition handleBlockDelta (index : Z) (d : sdk_delta) (acc : accMessage) : list sdk_call :=
  match d with
  | TextDelta t => if nonempty t then [SdkDelta (prose t)] else []
  | ThinkingDelta t => if nonempty t then [SdkDelta (thinking t)] else []
  | InputJSONDelta p =>
      if negb (nonempty p) then [] else
      match acc_at acc index with
      | Some owner => if bool_decide (aType owner = #"tool_use") then [SdkToolDelta (aID owner) p] else []
      | None => []
      end
  | OtherDelta => []
  end.

(** func handleBlockStop *)
Definition handleBlockStop (index : Z) (acc : accMessage) : list sdk_call :=
  match acc_at acc index with
  | None => []
  | Some b =>
      if negb (bool_decide (aType b = #"tool_use")) then [] else
      let ready args := [SdkToolReady (tool_invoke (aID b) (aName b) (Some args))] in
      match aInput b with
      | [] => ready []
      | raw => match Unmarshal dec_map raw None with
               | (Some args, true) => ready args
               | _ => []
               end
      end
  end.

Definition handle_event (ev : sdk_event) (acc : accMessage) : list sdk_call :=
  match ev with
  | StartEvent _ tool => handleBlockStart tool
  | DeltaEvent index d => handleBlockDelta index d acc
  | StopEvent index => handleBlockStop index acc
  | OtherEvent => []
  end.

(** What the stream delivers: events, then its end or error, and cancellation. *)
Inductive sdk_in := InEvent (ev : sdk_event) | InCanceled | InError | InEnd.

Inductive sdk_drained :=
| SdkDone (msg : Message) (acc : accMessage) (calls : list sdk_call)
| SdkFailed (calls : list sdk_call)
| SdkWaiting (acc : accMessage) (calls : list sdk_call).

Section stream.
Context (Accumulate : accMessage -> sdk_event -> option accMessage).

(** func drainStream: the side effects see the accumulator before the event. *)
Fixpoint drainStream (ins : list sdk_in) (acc : accMessage) (calls : list sdk_call) : sdk_drained :=
  match ins with
  | [] => SdkWaiting acc calls
  | InEvent ev :: ins' =>
      let calls := calls ++ handle_event ev acc in
      match Accumulate acc ev with
      | None => SdkFailed calls
      | Some acc' => drainStream ins' acc' calls
      end
  | InCanceled :: _ | InError :: _ => SdkFailed calls
  | InEnd :: _ => SdkDone (decodeAssistantMessage acc) acc calls
  end.

End stream.

(** func safeHead, func safeTail *)
Definition safeHead (b : gostr) (n : Z) : option gostr := if glen b <=? n then Some b else slice b 0 n.
Definition safeTail (b : gostr) (n : Z) : option gostr :=
  if glen b <=? n then Some b else slice b (glen b - n) (glen b).

(** func windowAround *)
Definition windowAround (b : gostr) (off radius : Z) : option gostr :=
  let lo := if off - radius <? 0 then 0 else off - radius in
  let hi := if glen b <? off + radius then glen b else off + radius in
  if hi <? lo then Some [] else slice b lo hi.

(** ** auth.go *)

Inductive auth_error := AuthResolve | AuthResolve401 | AuthInvalidate | AuthUnchanged | AuthCall (code : Z).

(** func (p *Provider) callWithAuthRetry: [call] is do with the token's options
    (the status of the API error it fails with, or [None]); the number of calls
    made comes with the result. *)
Definition callWithAuthRetry (resolve : nat -> option gostr) (invalidated : bool)
    (call : nat -> gostr -> option Z) : option auth_error * nat :=
  match resolve 0%nat with
  | None => (Some AuthResolve, 0%nat)
  | Some token =>
      match call 0%nat token with
      | None => (None, 1%nat)
      | Some code =>
          if negb (code =? 401) then (Some (AuthCall code), 1%nat) else
          match resolve 1%nat with
          | None => (Some AuthResolve401, 1%nat)
          | Some fresh =>
              if bool_decide (fresh = token)
              then (Some (if invalidated then AuthUnchanged else AuthInvalidate), 1%nat)
              else (AuthCall <$> call 1%nat fresh, 2%nat)
          end
      end
  end.

(** ** Coalescing *)

(** No two neighbours have the same role. *)
Fixpoint alternates (msgs : list MessageParam) : Prop :=
  match msgs with
  | a :: (b :: _) as rest => pRole a <> pRole b /\ alternates rest
  | _ => True
  end.

(** The blocks of a conversation, each under its role. *)
Definition spoken (msgs : list MessageParam) : list (gostr * sdkBlock) :=
  concat (map (fun m => map (pair (pRole m)) (pContent m)) msgs).

(** The reference: runs of one role, each with the last LT of its run. *)
Fixpoint runs (cur : MessageParam * Z) (rest : list (MessageParam * Z)) : list (MessageParam * Z) :=
  match rest with
  | [] => [cur]
  | (m, lt) :: rest' =>
      if bool_decide (pRole m = pRole cur.1)
      then runs (mkParam (pRole cur.1) (pContent cur.1 ++ pContent m), lt) rest'
      else cur :: runs (m, lt) rest'
  end.

Definition coalesce_spec (l : list (MessageParam * Z)) : list (MessageParam * Z) :=
  match l with [] => [] | m :: l' => runs m l' end.

Lemma runs_alternate cur rest : alternates (map fst (runs cur rest)).
Proof.
  revert cur. induction rest as [|[m lt] rest IH]; intros cur; [done|]. cbn [runs].
  case_bool_decide as E; [apply IH|]. cbn [map alternates]. specialize (IH (m, lt)).
  destruct (runs (m, lt) rest) as [|[m' lt'] l] eqn:Er; [done|]. cbn [map fst] in *.
  split; [|done].
  assert (pRole m' = pRole m) as ->; [|done].
  { clear -Er. revert m lt m' lt' l Er. induction rest as [|[x lx] rest IH]; intros m lt m' lt' l Er; cbn [runs fst] in Er.
    - by injection Er as <- <-.
    - case_bool_decide; [by apply IH in Er|by injection Er as <- <-]. }
Qed.

Lemma runs_spoken cur rest : spoken (map fst (runs cur rest)) = spoken (cur.1 :: map fst rest).
Proof.
  revert cur. induction rest as [|[m lt] rest IH]; intros [c clt]; [done|]. cbn [runs fst].
  case_bool_decide as E.
  - rewrite IH. unfold spoken. cbn [map concat fst pRole pContent].
    by rewrite map_app, E, <- app_assoc.
  - cbn [map fst]. unfold spoken in *. cbn [map concat]. f_equal. by rewrite (IH (m, lt)).
Qed.

Lemma needs_false msgs : needs_coalescing msgs = false -> alternates msgs.
Proof.
  induction msgs as [|a [|b rest] IH]; [done|done|]. intros H.
  cbn [needs_coalescing alternates] in *. bool_hyps. split; [by intros E; symmetry in E|].
  by apply IH.
Qed.

(** Runs of an alternating conversation change nothing. *)
Lemma runs_id c clt rest : alternates (c :: map fst rest) -> runs (c, clt) rest = (c, clt) :: rest.
Proof.
  revert c clt. induction rest as [|[m lt] rest IH]; intros c clt H; [done|]. cbn [map fst] in H.
  destruct H as [Hne H]. cbn [runs fst]. rewrite bool_decide_eq_false_2 by (intros E; by symmetry in E).
  by rewrite IH.
Qed.

Lemma coalesce_loop_spec i msgs lts done_ last lt :
  length lts = length msgs ->
  forall lts0, drop i lts0 = lts ->
  coalesce_loop i msgs lts0 (map fst done_ ++ [last]) (map snd done_ ++ [lt]) =
  Some (map fst done_ ++ map fst (runs (last, lt) (zip msgs lts)),
        map snd done_ ++ map snd (runs (last, lt) (zip msgs lts))).
Proof.
  revert i lts done_ last lt. induction msgs as [|m msgs IH]; intros i lts done_ last lt Hl lts0 Hd.
  - by destruct lts.
  - destruct lts as [|l lts]; [done|]. cbn [coalesce_loop zip runs zip_with fst].
    assert (Hi : lts0 !! i = Some l) by (rewrite <- (Nat.add_0_r i), <- lookup_drop, Hd; done).
    assert (Hd' : drop (S i) lts0 = lts).
    { rewrite <- Nat.add_1_r, <- drop_drop, Hd. done. }
    rewrite !length_app, !length_map. cbn [length].
    replace (length done_ + 1 - 1)%nat with (length (map fst done_)) by (rewrite length_map; lia).
    rewrite list_lookup_middle by done. case_bool_decide as E.
    + rewrite Hi, length_insert, length_app, length_map. cbn [length].
      rewrite (proj2 (Nat.ltb_lt _ _)) by lia.
      rewrite insert_app_r_alt by (rewrite length_map; lia).
      replace (length done_ - length (map fst done_))%nat with 0%nat by (rewrite length_map; lia).
      replace (length done_ + 1 - 1)%nat with (length (map snd done_)) by (rewrite length_map; lia).
      rewrite insert_app_r_alt by lia. rewrite Nat.sub_diag. cbn [insert list_insert].
      apply (IH (S i) lts); [by injection Hl|done].
    + rewrite Hi.
      specialize (IH (S i) lts (done_ ++ [(last, lt)]) m l ltac:(by injection Hl) lts0 Hd').
      rewrite !map_app in IH. cbn [map fst snd] in IH. rewrite IH. cbn [map fst snd].
      by rewrite <- !app_assoc.
Qed.

Lemma coalesce_ok msgs lts : length lts = length msgs ->
  let spec := coalesce_spec (zip msgs lts) in
  coalesceMessages msgs lts = Some (map fst spec, map snd spec) /\
  alternates (map fst spec) /\ spoken (map fst spec) = spoken msgs.
Proof.
  intros Hl spec. subst spec. destruct msgs as [|m msgs]; [by destruct lts|].
  destruct lts as [|lt lts]; [done|]. injection Hl as Hl. cbn [zip zip_with coalesce_spec].
  assert (Hz : map fst (zip msgs lts) = msgs) by (apply fst_zip; lia).
  split; [|split; [apply runs_alternate|by rewrite runs_spoken; cbn [fst]; rewrite Hz]].
  destruct msgs as [|m' msgs]; [by destruct lts|]. cbn [coalesceMessages].
  destruct (needs_coalescing (m :: m' :: msgs)) eqn:En.
  - apply (coalesce_loop_spec 1 (m' :: msgs) lts [] m lt Hl (lt :: lts) eq_refl).
  - rewrite runs_id by (rewrite Hz; by apply needs_false). cbn [map fst snd]. rewrite Hz.
    rewrite snd_zip by lia. done.
Qed.

(** With a logical time per message, coalescing never reads out of range and
    gives exactly the runs of one role, each with the last logical time of its
    run: neighbours then differ in role and every block is kept, in order and
    under its role. *)
Theorem sdk_coalesce (msgs : list MessageParam) (lts : list Z) (Hl : length lts = length msgs) :
  let spec := coalesce_spec (zip msgs lts) in
  coalesceMessages msgs lts = Some (map fst spec, map snd spec) /\
  alternates (map fst spec) /\ spoken (map fst spec) = spoken msgs.
Proof. by apply coalesce_ok. Qed.

(** ** The request *)

Definition unmark (b : sdkBlock) : sdkBlock :=
  match b with
  | OfText t _ => OfText t None
  | OfToolUse id input name _ => OfToolUse id input name None
  | OfToolResult id t e _ => OfToolResult id t e None
  | OfImage m d _ => OfImage m d None
  | OfDocument s _ => OfDocument s None
  | b => b
  end.

Definition unmark_param (m : MessageParam) : MessageParam := mkParam (pRole m) (map unmark (pContent m)).

Lemma map_on_last {A B} (g : A -> B) f (l : list A) :
  (forall x, g (f x) = g x) -> map g (on_last f l) = map g l.
Proof.
  intros H. unfold on_last. destruct (length l); [done|].
  apply list_eq. intros i. rewrite !list_lookup_fmap, list_lookup_alter.
  case_decide; [subst|done]. destruct (l !! i); [cbn; by rewrite H|done].
Qed.

Lemma unmark_leaf cc m : unmark_param (setLeafCache cc m) = unmark_param m.
Proof. unfold unmark_param, setLeafCache. cbn. f_equal. apply map_on_last. by intros []. Qed.

Lemma unmark_sdk_tags ix tags ms :
  map unmark_param (foldl (apply_sdk_tag ix) ms tags) = map unmark_param ms.
Proof.
  revert ms. induction tags as [|tag tags IH]; intros ms; [done|]. cbn [foldl]. rewrite IH.
  unfold apply_sdk_tag. case_bool_decide; [done|].
  destruct (parse_uint tag.1) as [lt|]; [|done]. destruct (ix !! lt); [|done].
  apply list_eq. intros i. rewrite !list_lookup_fmap, list_lookup_alter.
  case_decide; [subst|done]. destruct (ms !! i); [cbn; by rewrite unmark_leaf|done].
Qed.

Lemma alternates_roles ms ms' : map pRole ms = map pRole ms' -> alternates ms -> alternates ms'.
Proof.
  revert ms'. induction ms as [|a ms IH]; intros [|a' ms'] H Ha; try done.
  injection H as E H. destruct ms as [|b ms], ms' as [|b' ms']; try done.
  destruct Ha as [Hne Ha]. split; [|by apply IH].
  injection H as E2 _. congruence.
Qed.

Lemma unmark_roles ms ms' : map unmark_param ms = map unmark_param ms' -> map pRole ms = map pRole ms'.
Proof.
  intros H. apply (f_equal (map pRole)) in H. by rewrite !map_map in H.
Qed.

Lemma spoken_unmark ms :
  spoken (map unmark_param ms) = map (fun rb => (rb.1, unmark rb.2)) (spoken ms).
Proof.
  unfold spoken. induction ms as [|m ms IH]; [done|]. cbn [map concat]. rewrite IH, map_app.
  f_equal. cbn [unmark_param pRole pContent]. by rewrite !map_map.
Qed.

Definition thinking_fits (ps : params) : Prop :=
  match prThinking ps with
  | ThinkingEnabled b => 1024 <= b < prMaxTokens ps
  | ThinkingAdaptive effort => effort <> []
  | ThinkingOff => True
  end.

(** C25: A request built from a projection with aligned logical times never
    panics; its messages alternate in role and hold the projection's blocks,
    in order, whatever cache marks and tags are set; an extended-thinking
    budget is at least 1024 and leaves room in the request's limit. *)
Theorem sdk_request (messages : list MessageParam) (lts : list Z) (snap : snapshot)
    (tools : list ToolDef) (maxTokens : Z) (oauth : bool) (model : gostr)
    (Hl : length lts = length messages)
    (Hb : thinkingInt (snap !! #"system.thinking_budget") < 2 ^ 63 - 4096) :
  exists ps, buildParams messages lts snap tools maxTokens oauth model = Some ps /\
    alternates (prMessages ps) /\
    spoken (map unmark_param (prMessages ps)) =
      map (fun rb => (rb.1, unmark rb.2)) (spoken messages) /\
    map stName (prTools ps) = map tdName tools /\ thinking_fits ps.
Proof.
  destruct (coalesce_ok messages lts Hl) as (Hc & Ha & Hs).
  unfold buildParams. rewrite Hc. eexists. split; [reflexivity|].
  set (out := map fst (coalesce_spec (zip messages lts))) in *.
  set (ps0 := mkParams maxTokens model _ _ out ThinkingOff).
  set (ps1 := if nonempty _ then markBreakpoints ps0 _ else ps0).
  set (ps2 := applyTags ps1 _ snap).
  assert (H1 : map unmark_param (prMessages ps1) = map unmark_param out /\
               map stName (prTools ps1) = map tdName tools /\ prThinking ps1 = ThinkingOff).
  { assert (Ht : map stName (toolUnions tools) = map tdName tools)
      by (unfold toolUnions; by rewrite map_map).
    subst ps1. destruct (nonempty _); [|done]. cbn. split; [|split; [|done]].
    - apply map_on_last. intros. apply unmark_leaf.
    - rewrite map_on_last; done. }
  assert (H2 : map unmark_param (prMessages ps2) = map unmark_param out /\
               map stName (prTools ps2) = map tdName tools /\ prThinking ps2 = ThinkingOff).
  { subst ps2. clearbody ps1. unfold applyTags. destruct (snap !! #"system.tags") as [[|c raw]|]; [exact H1| |exact H1].
    destruct (Unmarshal _ _ _) as [tags [|]]; [|exact H1].
    cbn [negb set_messages prMessages prTools prThinking]. by rewrite unmark_sdk_tags. }
  clearbody ps2. destruct H2 as (M & T & Th).
  set (ps3 := applySdkThinking ps2 snap model).
  assert (H3 : prMessages ps3 = prMessages ps2 /\ prTools ps3 = prTools ps2 /\ thinking_fits ps3).
  { subst ps3. unfold applySdkThinking, thinking_fits.
    destruct ((_ <=? 0) && bool_decide _); [by rewrite Th|].
    destruct (isAdaptiveThinkingModel model); cbn.
    - split_and!; [done|done|]. by destruct (thinkingStr _).
    - split_and!; [done|done| |].
      + repeat case_if; lia.
      + set (b := if _ <? 1024 then 1024 else _).
        assert (1024 <= b < 2 ^ 63 - 4096) by (subst b; repeat case_if; lia).
        clearbody b. case_if; [|lia]. rewrite wrap64_id by (unfold int64_ok; lia). lia. }
  destruct H3 as (-> & -> & H3). split_and!; [|by rewrite M, spoken_unmark, Hs|done|done].
  apply (alternates_roles out); [|done]. symmetry. by apply unmark_roles.
Qed.

(** The projection keeps a logical time per message, so the hypothesis of the
    two theorems holds of every projection. *)
Lemma projected_aligned unmarshal state encoded lt :
  length (pmLogicalTimes state) = length (pmMessages state) ->
  length (pmLogicalTimes (appendProjectedMessages unmarshal state encoded lt)) =
  length (pmMessages (appendProjectedMessages unmarshal state encoded lt)).
Proof.
  unfold appendProjectedMessages. destruct (pmErr state); [done|].
  revert state. induction encoded as [|[|c raw] rest IH]; intros state H; [done|by apply IH|].
  cbn [append_raws]. destruct (unmarshal (c :: raw)); [|done].
  apply IH. cbn. rewrite !length_app. cbn. lia.
Qed.

(** ** The accumulated message *)

Definition acc_ids (content : list accBlock) : list gostr :=
  map aID (List.filter (fun b => bool_decide (aType b = #"tool_use")) content).

Lemma decode_acc_invokes acc b :
  map cToolCallID (invokes (decode_acc acc b)) = map cToolCallID (invokes acc) ++
  (if bool_decide (aType b = #"tool_use") && nonempty (aID b) && nonempty (aInput b) then [aID b] else []).
Proof.
  unfold decode_acc, validAccumulatedBlock, invokes.
  destruct (decide (aType b = #"tool_use")) as [E|E].
  - rewrite E, !(bool_decide_eq_false_2 (#"tool_use" = _)), (bool_decide_eq_true_2 (#"tool_use" = _)) by done.
    cbn [andb]. destruct (nonempty (aID b) && _); cbn [negb]; [|by rewrite app_nil_r].
    by rewrite List.filter_app, map_app.
  - rewrite (bool_decide_eq_false_2 (aType b = #"tool_use")) by done. cbn [andb].
    repeat case_if; rewrite ?app_nil_r, ?List.filter_app, ?map_app; cbn; by rewrite ?app_nil_r.
Qed.

Lemma cached_acc_ids content kept acc :
  cacheable_acc content = Some kept ->
  map cToolCallID (invokes (foldl decode_acc acc content)) =
  map cToolCallID (invokes acc) ++ acc_ids kept.
Proof.
  revert kept acc. induction content as [|b content IH]; intros kept acc H; cbn in H.
  { simplify_eq. cbn. by rewrite app_nil_r. }
  destruct (cacheableAccumulatedBlock b) as [keep fatal] eqn:Ec. destruct fatal; [done|].
  destruct (cacheable_acc content) as [kept'|]; [|done]. injection H as <-.
  cbn [foldl]. rewrite (IH _ _ eq_refl), decode_acc_invokes, <- app_assoc. f_equal.
  unfold cacheableAccumulatedBlock in Ec.
  destruct (decide (aType b = #"tool_use")) as [E|E].
  - rewrite E, !(bool_decide_eq_false_2 (#"tool_use" = _)), (bool_decide_eq_true_2 (#"tool_use" = _)) in Ec by done.
    rewrite E, (bool_decide_eq_true_2 (#"tool_use" = _)) by done. unfold nonempty. cbn [andb].
    case_bool_decide as Hid; [injection Ec as <-; done|].
    destruct (is_object (aInput b)) eqn:Eo; [|done]. injection Ec as <-.
    assert (aInput b <> []) as Hin by (intros Hin; rewrite Hin in Eo; done).
    rewrite bool_decide_eq_false_2 by done. cbn [negb andb app].
    unfold acc_ids. cbn [List.filter]. by rewrite E, bool_decide_eq_true_2.
  - rewrite (bool_decide_eq_false_2 (aType b = #"tool_use")) by done. cbn [andb app].
    destruct keep; [|done]. unfold acc_ids. cbn [List.filter].
    by rewrite (bool_decide_eq_false_2 (aType b = #"tool_use")).
Qed.

(** What the SDK provider keeps to replay an assistant message has exactly
    the tool calls it puts in the log, in order; it keeps nothing as soon as
    one call's input is not a JSON object. *)
Theorem sdk_cache_pairing (namespace fp : gostr) (to_param : accMessage -> gostr) (acc : accMessage) :
  (exists kept, acPayload (assistantCacheSdk namespace fp to_param acc) =
     [to_param (mkAccMessage kept (amStopReason acc) (amUsage acc))] /\
     acc_ids kept = map cToolCallID (invokes (mContent (decodeAssistantMessage acc)))) \/
  acPayload (assistantCacheSdk namespace fp to_param acc) = [] /\
    (cacheable_acc (amContent acc) = None \/ cacheable_acc (amContent acc) = Some []).
Proof.
  unfold assistantCacheSdk. destruct (cacheable_acc (amContent acc)) as [kept|] eqn:Ek; cbn [default]; [|auto].
  destruct kept as [|b kept]; [auto|]. left. exists (b :: kept). split; [done|].
  cbn [mContent decodeAssistantMessage]. by rewrite (cached_acc_ids _ _ [] Ek).
Qed.

(** ** Witnesses *)

Definition ex_params : list MessageParam :=
  [mkParam #"user" [OfText #"a" None]; mkParam #"user" [OfText #"b" None];
   mkParam #"assistant" [OfToolUse #"t1" (JObj []) #"ls" None]; mkParam #"user" [OfToolResult #"t1" #"x" false None]].

Lemma sdk_coalesce_witness :
  let spec := coalesce_spec (zip ex_params [1; 2; 3; 4]) in
  map snd spec = [2; 3; 4] /\
  coalesceMessages ex_params [1; 2; 3; 4] = Some (map fst spec, map snd spec) /\
  alternates (map fst spec) /\ spoken (map fst spec) = spoken ex_params.
Proof. split; [reflexivity|]. exact (sdk_coalesce ex_params [1; 2; 3; 4] eq_refl). Defined.

Lemma sdk_request_witness :
  exists ps, buildParams ex_params [1; 2; 3; 4] {[ #"system.thinking_budget" := js "9000" ]} [] 8192 false #"m" = Some ps /\
    alternates (prMessages ps) /\
    spoken (map unmark_param (prMessages ps)) =
      map (fun rb => (rb.1, unmark rb.2)) (spoken ex_params) /\
    map stName (prTools ps) = map tdName [] /\ thinking_fits ps.
Proof.
  apply (sdk_request ex_params [1; 2; 3; 4] {[ #"system.thinking_budget" := js "9000" ]} [] 8192 false #"m");
    [reflexivity|vm_compute; reflexivity].
Defined.
