(* ===== verification/Responses.v ===== *)
(** * provider/copilot: the Responses transport and the model routing
    (src/internal/provider/copilot/responses.go, copilot.go;
    src/internal/tokens/tokens.go)

    The websocket is the sequence of messages it delivers; uuid.NewString is a
    supply of names.  The text of an error, which isResponseUnauthorized
    searches, is a parameter: much of it comes from the network and from other
    packages. *)

From S2P Require Import Prelude Utf8 GoStrings Json GoJson RawJson Message Chalkboard Reminder Store.
From S2P Require Import Projection Native NativeStream.

(** ** tokens: context size *)

(** func EstimateMessage *)
Definition estimate_block (chars : Z) (c : Content) : Z :=
  if bool_decide (cType c = ContentProse) || bool_decide (cType c = ContentThinking) then
    chars + glen (cText c)
  else if bool_decide (cType c = ContentImage) then chars + 4800
  else if bool_decide (cType c = ContentToolInvoke) then
    chars + glen (cToolName c) +
    match cArguments c with Some args => glen (Print (JObj args)) | None => 0 end
  else if bool_decide (cType c = ContentToolResult) then
    chars + (glen (cToolCallID c) + glen (cToolName c) + glen (cText c))
  else chars.

Definition EstimateMessage (m : Message) : Z :=
  let chars := foldl estimate_block 0 (mContent m) in
  if chars =? 0 then 0 else (chars + 3) `quot` 4.

Definition estimate_all (total : Z) (msgs : list Message) : Z :=
  foldl (fun total m => total + EstimateMessage m) total msgs.

(** The last message with a usage: what precedes it is not needed. *)
Fixpoint watermark (msgs : list Message) : option (Usage * list Message) :=
  match msgs with
  | [] => None
  | m :: rest => match watermark rest with
                 | Some w => Some w
                 | None => (fun u => (u, rest)) <$> mUsage m
                 end
  end.

(** func ContextSize: the tokens, and whether they are exact. *)
Definition ContextSize (msgs : list Message) : Z * bool :=
  match msgs with
  | [] => (0, true)
  | _ => match watermark msgs with
         | None => (estimate_all 0 msgs, false)
         | Some (u, tail) =>
             let base := InputTokens u + OutputTokens u in
             match tail with
             | [] => (base, true)
             | _ => (base + estimate_all 0 tail, false)
             end
         end
  end.

(** func contextSizeForLog: the last 64 entries first, the whole log only if
    none of them has a usage. *)
Definition contextSizeForLog (entries : list (Entry Message)) : Z * bool :=
  let tailSize := 64 in
  let tail := tailSnapshot entries tailSize in
  match watermark (map Payload tail) with
  | Some (u, rest) => (estimate_all (InputTokens u + OutputTokens u) rest, (length rest =? 0)%nat)
  | None =>
      if glen tail <? tailSize then (estimate_all 0 (map Payload tail), (length tail =? 0)%nat)
      else match watermark (map Payload entries) with
           | None => (estimate_all 0 (map Payload entries), false)
           | Some (u, rest) => (estimate_all (InputTokens u + OutputTokens u) rest, (length rest =? 0)%nat)
           end
  end.

(** ** Encoding *)

(** type responseContent *)
Record responseContent := mkRC { rcType : gostr; rcText : gostr; rcImageURL : gostr }.

(** type responseInputItem *)
Record responseInputItem := mkItem {
  iType : gostr; iRole : gostr; iContent : list responseContent; iCallID : gostr; iName : gostr;
  iArguments : gostr; iOutput : gostr }.

Definition content_json (c : responseContent) : json :=
  JObj ([(#"type", JStr (rcType c))] ++ omit_str #"text" (rcText c) ++ omit_str #"image_url" (rcImageURL c)).

Definition item_json (i : responseInputItem) : json :=
  JObj (omit_str #"type" (iType i) ++ omit_str #"role" (iRole i) ++
        (match iContent i with [] => [] | l => [(#"content", JArr (map content_json l))] end) ++
        omit_str #"call_id" (iCallID i) ++ omit_str #"name" (iName i) ++
        omit_str #"arguments" (iArguments i) ++ omit_str #"output" (iOutput i)).

(** func marshalResponseItem *)
Definition marshalResponseItem (i : responseInputItem) : gostr := Print (item_json i).

(** func responseMessage *)
Definition responseMessage (role : gostr) (content : list responseContent) : responseInputItem :=
  mkItem #"message" role content [] [] [] [].

(** func responseFunctionCall *)
Definition responseFunctionCall (c : Content) : responseInputItem :=
  mkItem #"function_call" [] [] (cToolCallID c) (cToolName c)
    (match cArguments c with None | Some [] => #"{}" | Some args => Print (JObj args) end) [].

(** func responseFunctionOutput *)
Definition responseFunctionOutput (callID output : gostr) : responseInputItem :=
  mkItem #"function_call_output" [] [] callID [] [] (or_default output #"(empty)").

Definition input_text (text : gostr) : responseContent := mkRC #"input_text" text [].

(** The locals of encodeResponseMessage. *)
Record encoding := mkEncoding {
  beforeMessage : list gostr; afterMessage : list gostr;
  userContent : list responseContent; assistantContent : list responseContent }.

Definition add_before (e : encoding) (i : responseInputItem) : encoding :=
  mkEncoding (beforeMessage e ++ [marshalResponseItem i]) (afterMessage e) (userContent e) (assistantContent e).
Definition add_after (e : encoding) (i : responseInputItem) : encoding :=
  mkEncoding (beforeMessage e) (afterMessage e ++ [marshalResponseItem i]) (userContent e) (assistantContent e).
Definition add_user (e : encoding) (c : responseContent) : encoding :=
  mkEncoding (beforeMessage e) (afterMessage e) (userContent e ++ [c]) (assistantContent e).
Definition add_assistant (e : encoding) (c : responseContent) : encoding :=
  mkEncoding (beforeMessage e) (afterMessage e) (userContent e) (assistantContent e ++ [c]).

(** One block of the message, by the role of the message. *)
Definition encode_content (role : gostr) (e : encoding) (c : Content) : encoding :=
  if bool_decide (role = RoleUser) then
    if bool_decide (cType c = ContentProse) then
      if nonempty (cText c) then add_user e (input_text (cText c)) else e
    else if bool_decide (cType c = ContentImage) then
      if nonempty (cData c) then
        add_user e (mkRC #"input_image" [] (#"data:" ++ cMimeType c ++ #";base64," ++ cData c))
      else e
    else if bool_decide (cType c = ContentToolResult) then
      add_before e (responseFunctionOutput (cToolCallID c) (cText c))
    else e
  else if bool_decide (role = RoleAssistant) then
    if bool_decide (cType c = ContentProse) then
      if nonempty (cText c) then add_assistant e (mkRC #"output_text" (cText c) []) else e
    else if bool_decide (cType c = ContentToolInvoke) then add_after e (responseFunctionCall c)
    else e
  else if bool_decide (role = RoleSystem) then
    if bool_decide (cType c = ContentProse) && nonempty (cText c)
    then add_user e (input_text (cText c)) else e
  else if bool_decide (role = RoleSystemInterrupt) then
    if bool_decide (cType c = ContentInterrupt)
    then add_before e (responseFunctionOutput (cToolCallID c) (cText c)) else e
  else e.

(** func renderResponsePatch (escapeResponseAttr is escapeAttr). *)
Definition renderResponsePatch (p : Patch) (snap : snapshot) (tmpls : option templates)
  : option (list gostr) :=
  match tmpls with
  | None => Some []
  | Some t => map reminder_text <$> Render p snap t
  end.

(** The loop over the patches; [None] is its error. *)
Fixpoint encode_patches (tmpls : option templates) (patches : list Patch) (snap : snapshot) (e : encoding)
  : option encoding :=
  match patches with
  | [] => Some e
  | p :: rest =>
      match renderResponsePatch p snap tmpls with
      | None => None
      | Some texts =>
          encode_patches tmpls rest (Snapshot.Apply snap p)
            (foldl (fun e text => add_user e (input_text text)) e texts)
      end
  end.

(** func encodeResponseMessage; [None] is its error. *)
Definition encodeResponseMessage (msg : Message) (patches : list Patch) (snap : snapshot)
    (tmpls : option templates) : option (list gostr) :=
  let e := foldl (encode_content (mRole msg)) (mkEncoding [] [] [] []) (mContent msg) in
  match encode_patches tmpls patches snap e with
  | None => None
  | Some e =>
      let after := afterMessage e in
      let after := match userContent e with
        | [] => after
        | l => marshalResponseItem (responseMessage #"user" l) :: after
        end in
      let after := match assistantContent e with
        | [] => after
        | l => if bool_decide (mRole msg = RoleAssistant)
               then marshalResponseItem (responseMessage #"assistant" l) :: after else after
        end in
      Some (beforeMessage e ++ after)
  end.

(** ** Options *)

(** The option's value: whether it is set, or the error of its type. *)
Definition optional {T} (d : decoder T) (zero : T) (snap : snapshot) (key : gostr) : option (option T) :=
  match snap !! key with
  | None => Some None
  | Some raw => if bool_decide (raw = #"null") then Some None else
                let '(v, ok) := Unmarshal d raw zero in if ok then Some (Some v) else None
  end.

(** func responseOptionalString, responseOptionalBool, responseOptionalFloat,
    responseOptionalInt *)
Definition responseOptionalString (snap : snapshot) (key : gostr) : option (option gostr) :=
  option_map TrimSpace <$> optional dec_string [] snap key.
Definition responseOptionalBool : snapshot -> gostr -> option (option bool) := optional dec_bool false.
Definition responseOptionalFloat : snapshot -> gostr -> option (option float64) :=
  optional dec_float (mkFloat false 0 0).
Definition responseOptionalInt : snapshot -> gostr -> option (option Z) := optional dec_int 0.

(** type responseReasoning, responseRequestOptions, responseTool *)
Record responseReasoning := mkReasoning { rsContext : gostr; rsEffort : gostr; rsSummary : gostr }.
Record responseRequestOptions := mkOptions {
  opContextTier : gostr; opParallel : bool; opReasoning : option responseReasoning;
  opTemperature : option float64; opVerbosity : option gostr; opTopP : option float64 }.
Record responseTool := mkRTool { rtName : gostr; rtDescription : gostr; rtParameters : option json }.

Inductive responses_error :=
| ErrOption (key : gostr)          (* the value's type *)
| ErrValue (key : gostr) | ErrBoth (* its range *)
| ErrLimitPositive | ErrLimitExceeds | ErrContext (used limit : Z)
| ErrResolve | ErrInvalidate | ErrResolveFresh
| ErrCache | ErrEncode | ErrEmpty | ErrModel | ErrDial | ErrSend
| ErrReceive | ErrCanceled | ErrDecodeEvent | ErrArguments (name : gostr) | ErrFailed (text : gostr)
| ErrOutput | ErrAppendLog.

Abbreviation result T := (T + responses_error)%type.

Definition bind {A B} (r : result A) (f : A -> result B) : result B :=
  match r with inl a => f a | inr e => inr e end.
Definition ok_or {A} (key : gostr) (o : option A) : result A :=
  match o with Some a => inl a | None => inr (ErrOption key) end.

(** A string option that must be one of some words; absent counts as empty. *)
Definition word_option (snap : snapshot) (key : gostr) (words : list gostr) : result gostr :=
  bind (ok_or key (responseOptionalString snap key)) (fun v =>
  let v := default [] v in
  if bool_decide (v = []) || existsb (fun w => bool_decide (v = w)) words then inl v
  else inr (ErrValue key)).

(** A number option within a range. *)
Definition range_option (snap : snapshot) (key : gostr) (bad : float64 -> bool) : result (option float64) :=
  bind (ok_or key (responseOptionalFloat snap key)) (fun v =>
  match v with
  | Some f => if bad f then inr (ErrValue key) else inl v
  | None => inl None
  end).

Definition f_lt (f : float64) (z : Z) : bool := bool_decide (f_cmp f z = Lt).
Definition f_gt (f : float64) (z : Z) : bool := bool_decide (f_cmp f z = Gt).

(** func responseOptionsFor *)
Definition responseOptionsFor (snap : snapshot) : result responseRequestOptions :=
  bind (ok_or #"system.parallel_tool_calls" (responseOptionalBool snap #"system.parallel_tool_calls")) (fun parallel =>
  bind (word_option snap #"system.context_tier" [ #"default"; #"long_context" ]) (fun contextTier =>
  bind (ok_or #"system.thinking_effort" (responseOptionalString snap #"system.thinking_effort")) (fun effort =>
  let effort := default [] effort in
  bind (word_option snap #"system.reasoning_context" [ #"auto"; #"current_turn"; #"all_turns" ]) (fun reasoningContext =>
  bind (word_option snap #"system.reasoning_summary" [ #"auto"; #"concise"; #"detailed" ]) (fun reasoningSummary =>
  let reasoning := if nonempty reasoningContext || nonempty effort || nonempty reasoningSummary
                   then Some (mkReasoning reasoningContext effort reasoningSummary) else None in
  bind (ok_or #"system.verbosity" (responseOptionalString snap #"system.verbosity")) (fun verbosity =>
  let text := match verbosity with Some v => if nonempty v then Some v else None | None => None end in
  bind (range_option snap #"system.temperature" (fun t => f_lt t 0 || f_gt t 2)) (fun temperature =>
  bind (range_option snap #"system.top_p" (fun p => negb (f_gt p 0) || f_gt p 1)) (fun topP =>
  match temperature, topP with
  | Some _, Some _ => inr ErrBoth
  | _, _ => inl (mkOptions contextTier (default true parallel) reasoning temperature text topP)
  end)))))))).

(** func responseInstructions *)
Definition responseInstructions (snap : snapshot) : gostr :=
  match snap !! #"system.credo" with
  | None => []
  | Some raw =>
      let '(env, ok) := Unmarshal (dec_struct [
          fld #"content" fst (fun v e => (v, e.2)) dec_string;
          fld #"frontmatter" snd (fun v e => (e.1, v)) dec_string ]) raw ([], []) in
      if ok && nonempty env.1 then env.1
      else if ok && nonempty env.2 then env.2
      else fst (Unmarshal dec_string raw [])
  end.

(** func responseString *)
Definition responseString (snap : snapshot) (key : gostr) : gostr :=
  match snap !! key with
  | None => []
  | Some raw => TrimSpace (fst (Unmarshal dec_string raw []))
  end.

(** func responseTools *)
Definition responseTools (tools : list ToolDef) : list responseTool :=
  map (fun t => mkRTool (tdName t) (tdDescription t) (tdParameters t)) tools.

(** func responseFingerprint *)
Definition responseFingerprint (model : gostr) : gostr :=
  #"copilot-responses/v2/" ++ or_default (TrimSpace model) #"unset".

(** func responsesEndpoint *)
Definition responsesEndpoint (baseURL : gostr) : gostr :=
  let b := TrimRightByte baseURL x2f in
  if has_prefix b #"https://" then #"wss://" ++ trim_prefix b #"https://" ++ #"/responses"
  else if has_prefix b #"http://" then #"ws://" ++ trim_prefix b #"http://" ++ #"/responses"
  else b ++ #"/responses".

(** ** The stream *)

(** type responseUsage (the fields read), responseObject, responseOutputItem,
    responseStreamEvent; a field the code never reads is checked and dropped; a json.RawMessage is its text, [] the nil one. *)
Record responseUsage := mkRUsage { ruInput : Z; ruOutput : Z; ruCached : Z; ruCacheWrite : Z }.
Record responseObject := mkResponse {
  roOutput : list gostr; roStatus : gostr; roUsage : responseUsage; roError : gostr }.
Record responseOutputItem := mkOutput {
  oiType : gostr; oiID : gostr; oiContent : list responseContent; oiSummary : list responseContent;
  oiCallID : gostr; oiName : gostr; oiArguments : option gostr }.
Record responseStreamEvent := mkEvent {
  evType : gostr; evDelta : gostr; evItem : responseOutputItem; evItemID : gostr; evCallID : gostr;
  evName : gostr; evArguments : gostr; evResponse : responseObject; evError : gostr }.

Definition zero_rc : responseContent := mkRC [] [] [].
Definition zero_item : responseOutputItem := mkOutput [] [] [] [] [] [] None.
Definition zero_response : responseObject := mkResponse [] [] (mkRUsage 0 0 0 0) [].
Definition zero_event : responseStreamEvent :=
  mkEvent [] [] zero_item [] [] [] [] zero_response [].

Definition rc_fields : fields responseContent := [
  fld #"type" rcType (fun v c => mkRC v (rcText c) (rcImageURL c)) dec_string;
  fld #"text" rcText (fun v c => mkRC (rcType c) v (rcImageURL c)) dec_string;
  fld #"image_url" rcImageURL (fun v c => mkRC (rcType c) (rcText c) v) dec_string ].

(** The details' own struct, for the one or two counts read from it. *)
Definition dec_details : decoder (Z * Z) := dec_struct [
  fld #"cached_tokens" fst (fun v p => (v, p.2)) dec_int;
  fld #"cache_write_tokens" snd (fun v p => (p.1, v)) dec_int ].

Definition dec_rusage : decoder responseUsage := dec_struct [
  fld #"input_tokens" ruInput (fun v u => mkRUsage v (ruOutput u) (ruCached u) (ruCacheWrite u)) dec_int;
  fld #"output_tokens" ruOutput (fun v u => mkRUsage (ruInput u) v (ruCached u) (ruCacheWrite u)) dec_int;
  fld #"total_tokens" (fun _ => 0) (fun _ u => u) dec_int;
  fld #"input_tokens_details" (fun u => (ruCached u, ruCacheWrite u))
    (fun v u => mkRUsage (ruInput u) (ruOutput u) v.1 v.2) dec_details;
  fld #"output_tokens_details" (fun _ => 0) (fun _ u => u)
    (dec_struct [fld #"reasoning_tokens" id (fun v _ => v) dec_int]) ].

Definition response_fields : list (gostr * rdecoder responseObject) := [
  rfld #"id" (fun _ => []) (fun _ r => r) (of_value dec_string);
  rfld #"output" roOutput (fun v r => mkResponse v (roStatus r) (roUsage r) (roError r)) raw_messages;
  rfld #"status" roStatus (fun v r => mkResponse (roOutput r) v (roUsage r) (roError r)) (of_value dec_string);
  rfld #"usage" roUsage (fun v r => mkResponse (roOutput r) (roStatus r) v (roError r)) (of_value dec_rusage);
  rfld #"error" roError (fun v r => mkResponse (roOutput r) (roStatus r) (roUsage r) v) raw_message ].

Definition item_fields : list (gostr * rdecoder responseOutputItem) := [
  rfld #"type" oiType (fun v i => mkOutput v (oiID i) (oiContent i) (oiSummary i) (oiCallID i) (oiName i) (oiArguments i))
    (of_value dec_string);
  rfld #"id" oiID (fun v i => mkOutput (oiType i) v (oiContent i) (oiSummary i) (oiCallID i) (oiName i) (oiArguments i))
    (of_value dec_string);
  rfld #"role" (fun _ => []) (fun _ i => i) (of_value dec_string);
  rfld #"content" oiContent
    (fun v i => mkOutput (oiType i) (oiID i) v (oiSummary i) (oiCallID i) (oiName i) (oiArguments i))
    (of_value (dec_slice zero_rc (dec_struct rc_fields)));
  rfld #"summary" oiSummary
    (fun v i => mkOutput (oiType i) (oiID i) (oiContent i) v (oiCallID i) (oiName i) (oiArguments i))
    (of_value (dec_slice zero_rc (dec_struct rc_fields)));
  rfld #"call_id" oiCallID
    (fun v i => mkOutput (oiType i) (oiID i) (oiContent i) (oiSummary i) v (oiName i) (oiArguments i))
    (of_value dec_string);
  rfld #"name" oiName
    (fun v i => mkOutput (oiType i) (oiID i) (oiContent i) (oiSummary i) (oiCallID i) v (oiArguments i))
    (of_value dec_string);
  (#"arguments", fun raw i =>
    (mkOutput (oiType i) (oiID i) (oiContent i) (oiSummary i) (oiCallID i) (oiName i) (Some raw), true)) ].

Definition event_fields : list (gostr * rdecoder responseStreamEvent) := [
  rfld #"type" evType (fun v e => mkEvent v (evDelta e) (evItem e) (evItemID e) (evCallID e) (evName e)
    (evArguments e) (evResponse e) (evError e)) (of_value dec_string);
  rfld #"delta" evDelta (fun v e => mkEvent (evType e) v (evItem e) (evItemID e) (evCallID e) (evName e)
    (evArguments e) (evResponse e) (evError e)) (of_value dec_string);
  rfld #"text" (fun _ => []) (fun _ e => e) (of_value dec_string);
  rfld #"item" evItem (fun v e => mkEvent (evType e) (evDelta e) v (evItemID e) (evCallID e) (evName e)
    (evArguments e) (evResponse e) (evError e)) (raw_struct item_fields);
  rfld #"item_id" evItemID (fun v e => mkEvent (evType e) (evDelta e) (evItem e) v (evCallID e) (evName e)
    (evArguments e) (evResponse e) (evError e)) (of_value dec_string);
  rfld #"call_id" evCallID (fun v e => mkEvent (evType e) (evDelta e) (evItem e) (evItemID e) v (evName e)
    (evArguments e) (evResponse e) (evError e)) (of_value dec_string);
  rfld #"name" evName (fun v e => mkEvent (evType e) (evDelta e) (evItem e) (evItemID e) (evCallID e) v
    (evArguments e) (evResponse e) (evError e)) (of_value dec_string);
  rfld #"arguments" evArguments (fun v e => mkEvent (evType e) (evDelta e) (evItem e) (evItemID e) (evCallID e)
    (evName e) v (evResponse e) (evError e)) raw_message;
  rfld #"response" evResponse (fun v e => mkEvent (evType e) (evDelta e) (evItem e) (evItemID e) (evCallID e)
    (evName e) (evArguments e) v (evError e)) (raw_struct response_fields);
  rfld #"error" evError (fun v e => mkEvent (evType e) (evDelta e) (evItem e) (evItemID e) (evCallID e)
    (evName e) (evArguments e) (evResponse e) v) raw_message;
  rfld #"output_index" (fun _ => 0) (fun _ e => e) (of_value dec_int);
  rfld #"content_index" (fun _ => 0) (fun _ e => e) (of_value dec_int) ].

(** type responseCall, with its key in the maps the id it carries. *)
Record responseCall := mkCall { rcName : gostr; rcArguments : gostr; rcReady : bool }.

(** The maps of readResponseStream (a value of [items] is the pointer to a
    call, so the id of one in [calls]), the names drawn and the bus. *)
Record rstream := mkStream {
  calls : gmap gostr responseCall; items : gmap gostr gostr; drawn : nat; rbus : list bus_call }.

Definition with_call (st : rstream) (id : gostr) (c : responseCall) : rstream :=
  mkStream (<[id := c]> (calls st)) (items st) (drawn st) (rbus st).
Definition with_item (st : rstream) (item id : gostr) : rstream :=
  if bool_decide (item = []) then st else mkStream (calls st) (<[item := id]> (items st)) (drawn st) (rbus st).
Definition rpush (st : rstream) (c : bus_call) : rstream :=
  mkStream (calls st) (items st) (drawn st) (rbus st ++ [c]).
Definition call_of (st : rstream) (id : gostr) : responseCall := default (mkCall [] [] false) (calls st !! id).

(** func decodeResponseArguments *)
Definition decodeResponseArguments (raw : gostr) : option object :=
  let raw := if bool_decide (TrimSpace raw = []) then #"{}" else raw in
  match Unmarshal dec_map raw None with
  | (Some args, true) => Some args
  | _ => None
  end.

(** func responseArgumentBytes *)
Definition responseArgumentBytes (raw : gostr) : gostr :=
  match raw with
  | [] => []
  | _ => let '(s, ok) := Unmarshal dec_string raw [] in if ok then s else raw
  end.

Section stream.
(** uuid.NewString: the n-th name. *)
Context (fresh : nat -> gostr).

(** func ensureResponseCall: the state and the id of the call. *)
Definition ensureResponseCall (st : rstream) (id name : gostr) : rstream * gostr :=
  let '(st, id) := if bool_decide (id = [])
    then (mkStream (calls st) (items st) (S (drawn st)) (rbus st), fresh (drawn st)) else (st, id) in
  match calls st !! id with
  | Some c => (if bool_decide (rcName c = []) then with_call st id (mkCall name (rcArguments c) (rcReady c)) else st, id)
  | None => (with_call st id (mkCall name [] false), id)
  end.

(** func responseCallFor; [None] is the nil call. *)
Definition responseCallFor (st : rstream) (ev : responseStreamEvent) : rstream * option gostr :=
  if nonempty (evCallID ev) then
    let '(st, id) := ensureResponseCall st (evCallID ev) (evName ev) in (st, Some id)
  else if nonempty (evItemID ev) then (st, items st !! evItemID ev)
  else (st, None).

(** func readyResponseCall *)
Definition readyResponseCall (st : rstream) (id : gostr) : rstream * option responses_error :=
  let c := call_of st id in
  if rcReady c then (st, None) else
  match decodeResponseArguments (TrimSpace (rcArguments c)) with
  | None => (st, Some (ErrArguments (rcName c)))
  | Some args =>
      (rpush (with_call st id (mkCall (rcName c) (rcArguments c) true))
         (PushToolReady (tool_invoke id (rcName c) (Some args))), None)
  end.

(** arguments.Write, and arguments.Reset before it. *)
Definition write_arguments (st : rstream) (id : gostr) (reset : bool) (bytes : gostr) : rstream :=
  let c := call_of st id in
  with_call st id (mkCall (rcName c) ((if reset then [] else rcArguments c) ++ bytes) (rcReady c)).

(** What an event does: go on, end with the response, or fail. *)
Inductive flow := Continue | Completed (r : responseObject) | Failed (e : responses_error).

Definition then_go (r : rstream * option responses_error) : rstream * flow :=
  match r with (st, None) => (st, Continue) | (st, Some e) => (st, Failed e) end.

(** A raw error that is present. *)
Definition raw_error (raw : gostr) : bool := nonempty raw && negb (bool_decide (raw = #"null")).

(** The case of one event in readResponseStream. *)
Definition stream_event (ev : responseStreamEvent) (st : rstream) : rstream * flow :=
  let t := evType ev in
  let item := evItem ev in
  if bool_decide (t = #"response.output_text.delta") then
    (if nonempty (evDelta ev) then rpush st (PushDelta (prose (evDelta ev))) else st, Continue)
  else if bool_decide (t = #"response.reasoning.delta") ||
          bool_decide (t = #"response.reasoning_summary_text.delta") ||
          bool_decide (t = #"response.reasoning_text.delta") then
    (if nonempty (evDelta ev) then rpush st (PushDelta (thinking (evDelta ev))) else st, Continue)
  else if bool_decide (t = #"response.output_item.added") then
    if negb (bool_decide (oiType item = #"function_call")) then (st, Continue) else
    let '(st, id) := ensureResponseCall st (oiCallID item) (oiName item) in
    let st := with_item st (oiID item) id in
    let st := match oiArguments item with
      | Some raw => write_arguments st id false (responseArgumentBytes raw)
      | None => st
      end in
    (rpush st (PushToolInvokeStart id (rcName (call_of st id))), Continue)
  else if bool_decide (t = #"response.function_call_arguments.delta") then
    let '(st, call) := responseCallFor st ev in
    match call with
    | Some id => (if nonempty (evDelta ev)
                  then rpush (write_arguments st id false (evDelta ev)) (PushToolInvokeDelta id (evDelta ev))
                  else st, Continue)
    | None => (st, Continue)
    end
  else if bool_decide (t = #"response.function_call_arguments.done") then
    let '(st, call) := responseCallFor st ev in
    match call with
    | Some id =>
        let st := if nonempty (evArguments ev)
                  then write_arguments st id true (responseArgumentBytes (evArguments ev)) else st in
        then_go (readyResponseCall st id)
    | None => (st, Continue)
    end
  else if bool_decide (t = #"response.output_item.done") then
    if negb (bool_decide (oiType item = #"function_call")) then (st, Continue) else
    let '(st, id) := ensureResponseCall st (oiCallID item) (oiName item) in
    let st := with_item st (oiID item) id in
    let st := match oiArguments item with
      | Some raw => write_arguments st id true (responseArgumentBytes raw)
      | None => st
      end in
    then_go (readyResponseCall st id)
  else if bool_decide (t = #"response.completed") then (st, Completed (evResponse ev))
  else if bool_decide (t = #"response.failed") || bool_decide (t = #"error") then
    (st, Failed (if raw_error (evError ev) then ErrFailed (evError ev)
                 else if raw_error (roError (evResponse ev)) then ErrFailed (roError (evResponse ev))
                 else ErrFailed t))
  else (st, Continue).

(** What the connection delivers: a message, or the error that ends it, with
    whether the context was cancelled. *)
Inductive ws_in := WsMessage (raw : gostr) | WsError (canceled : bool).

(** func readResponseStream; [None] while the connection has delivered nothing
    that ends it. *)
Fixpoint readResponseStream (ins : list ws_in) (st : rstream)
  : rstream * option (result responseObject) :=
  match ins with
  | [] => (st, None)
  | WsError canceled :: _ => (st, Some (inr (if canceled then ErrCanceled else ErrReceive)))
  | WsMessage raw :: ins' =>
      let '(ev, ok) := UnmarshalRaw (raw_struct event_fields) raw zero_event in
      if negb ok then (st, Some (inr ErrDecodeEvent)) else
      match stream_event ev st with
      | (st, Continue) => readResponseStream ins' st
      | (st, Completed r) => (st, Some (inl r))
      | (st, Failed e) => (st, Some (inr e))
      end
  end.

End stream.

(** func hasResponseToolInvoke *)
Definition hasResponseToolInvoke (content : list Content) : bool :=
  existsb (fun c => bool_decide (cType c = ContentToolInvoke)) content.

Definition decode_text (c : responseContent) : list Content :=
  if bool_decide (rcType c = #"output_text") then
    if nonempty (rcText c) then [prose (rcText c)] else []
  else if bool_decide (rcType c = #"reasoning") || bool_decide (rcType c = #"reasoning_text") ||
          bool_decide (rcType c = #"reasoning_summary") then
    if nonempty (rcText c) then [thinking (rcText c)] else []
  else [].

(** One output item of decodeResponseAssistant. *)
Definition decode_output (raw : gostr) : result (list Content) :=
  let '(item, ok) := UnmarshalRaw (raw_struct item_fields) raw zero_item in
  if negb ok then inr ErrOutput
  else if bool_decide (oiType item = #"message") then inl (concat (map decode_text (oiContent item)))
  else if bool_decide (oiType item = #"function_call") then
    match decodeResponseArguments (responseArgumentBytes (default [] (oiArguments item))) with
    | Some args => inl [tool_invoke (oiCallID item) (oiName item) (Some args)]
    | None => inr (ErrArguments (oiName item))
    end
  else if bool_decide (oiType item = #"reasoning") then
    inl (concat (map (fun s => if nonempty (rcText s) then [thinking (rcText s)] else []) (oiSummary item)))
  else inl [].

Fixpoint decode_outputs (raws : list gostr) : result (list Content) :=
  match raws with
  | [] => inl []
  | raw :: rest => bind (decode_output raw) (fun cs => bind (decode_outputs rest) (fun cs' => inl (cs ++ cs')))
  end.

(** func decodeResponseAssistant *)
Definition decodeResponseAssistant (r : responseObject) : result Message :=
  bind (decode_outputs (roOutput r)) (fun content =>
  inl (mkMessage RoleAssistant content []
    (Some (mkUsage (ruInput (roUsage r)) (ruOutput (roUsage r)) (ruCached (roUsage r)) (ruCacheWrite (roUsage r))))
    (if hasResponseToolInvoke content then StopToolInvoke
     else if bool_decide (roStatus r = #"incomplete") then StopLength else StopEnd) [] [] 0 0)).

(** ** The provider *)

(** type responseContextLimits *)
Record responseContextLimits := mkLimits { lmDefault : Z; lmLong : Z }.

(** type responsesProvider: the fields that change. *)
Record responsesProvider := mkRP {
  rpModel : gostr; rpMaxTokens : Z; rpTemplates : option templates;
  rpProjection : option (IncrementalProjection raws); rpSessionID : gostr;
  rpLimits : gmap gostr responseContextLimits }.

(** func (p *responsesProvider) SetModel, SetTemplates, SetContextLimits *)
Definition SetModel (p : responsesProvider) (model : gostr) : responsesProvider :=
  mkRP model (rpMaxTokens p) (rpTemplates p) (rpProjection p) (rpSessionID p) (rpLimits p).
Definition SetTemplates (p : responsesProvider) (t : option templates) : responsesProvider :=
  mkRP (rpModel p) (rpMaxTokens p) t (rpProjection p) (rpSessionID p) (rpLimits p).
Definition SetContextLimits (p : responsesProvider) (model : gostr) (limits : responseContextLimits)
  : responsesProvider :=
  if bool_decide (model = []) then p
  else mkRP (rpModel p) (rpMaxTokens p) (rpTemplates p) (rpProjection p) (rpSessionID p)
         (<[model := limits]> (rpLimits p)).
Definition set_rprojection (p : responsesProvider) (ip : option (IncrementalProjection raws)) : responsesProvider :=
  mkRP (rpModel p) (rpMaxTokens p) (rpTemplates p) ip (rpSessionID p) (rpLimits p).

(** func (p *responsesProvider) sessionIDFor, with the name it would draw. *)
Definition sessionIDFor (p : responsesProvider) (name : gostr) : responsesProvider * gostr :=
  if nonempty (rpSessionID p) then (p, rpSessionID p)
  else (mkRP (rpModel p) (rpMaxTokens p) (rpTemplates p) (rpProjection p) name (rpLimits p), name).

(** func (p *responsesProvider) acceptAssistantProjection *)
Definition accept_response (p : responsesProvider) (lt : Z) (payload : raws) : responsesProvider :=
  match rpProjection p with
  | None => p
  | Some ip => set_rprojection p (Some (mkIP (ipState ip ++ payload) (ipChalkboard ip) (ipFingerprint ip)
                                          (S (ipEntries ip)) lt))
  end.

(** func (p *responsesProvider) validateContext; [None] is no error. *)
Definition validateContext (p : responsesProvider) (entries : list (Entry Message)) (snap : snapshot)
    (model : gostr) (contextTier : gostr) : option responses_error :=
  match responseOptionalInt snap #"system.max_context_tokens" with
  | None => Some (ErrOption #"system.max_context_tokens")
  | Some requested =>
      let limitSet := match requested with Some _ => true | None => false end in
      let requestedLimit := default 0 requested in
      if limitSet && (requestedLimit <=? 0) then Some ErrLimitPositive else
      let limits := default (mkLimits 0 0) (rpLimits p !! model) in
      let tierLimit := if bool_decide (contextTier = #"long_context") && (0 <? lmLong limits)
                       then lmLong limits else lmDefault limits in
      if (0 <? requestedLimit) && (0 <? tierLimit) && (tierLimit <? requestedLimit) then Some ErrLimitExceeds
      else
        let tierLimit := if 0 <? requestedLimit then requestedLimit else tierLimit in
        if negb limitSet && (tierLimit =? 0) then None else
        let used := fst (contextSizeForLog entries) in
        if tierLimit <? used then Some (ErrContext used tierLimit) else None
  end.

(** type responseCreateRequest, with the parts that depend on the turn. *)
Record responseCreateRequest := mkCreate {
  crInput : raws; crInstructions : gostr; crMaxOutputTokens : Z; crModel : gostr; crParallel : bool;
  crReasoning : option responseReasoning; crTemperature : option float64; crVerbosity : option gostr;
  crTopP : option float64; crTools : list responseTool; crTaskID : gostr; crSessionID : gostr;
  crInteractionID : gostr }.

(** The case fold of isResponseUnauthorized: of the runes outside ASCII only
    U+0130 and U+212A lower to an ASCII letter, and the others never match. *)
Fixpoint to_lower (s : gostr) : gostr :=
  match s with
  | xc4 :: xb0 :: r => x69 :: to_lower r
  | xe2 :: x84 :: xaa :: r => x6b :: to_lower r
  | c :: r => (if (0x41 <=? bz c) && (bz c <=? 0x5A) then zb (bz c + 32) else c) :: to_lower r
  | [] => []
  end.

Section provider.
Context {C F : Type} `{LogLaws C raws} `{LogLaws F Message}.
Context (error_text : responses_error -> gostr).

(** func isResponseUnauthorized *)
Definition isResponseUnauthorized (e : responses_error) : bool :=
  let text := to_lower (error_text e) in
  Contains text #"401" || Contains text #"unauthorized".

(** func (p *responsesProvider) cacheFor: the cache held, the one cacheOpen
    gives; the cache to use and the one held on, or an error. *)
Definition cacheForResponses (p : responsesProvider) (aria : gostr) (held opened : option C)
  : result (option C * option C) :=
  if bool_decide (aria = []) then inl (None, held) else
  let fingerprint := responseFingerprint (rpModel p) in
  match held, opened with
  | Some c, _ =>
      let '(c, _, _, ok) := ClearStaleTranslationCache c fingerprint in
      if ok then inl (Some c, Some c) else inr ErrCache
  | None, None => inl (None, None)
  | None, Some c =>
      let '(c, _, _, ok) := ClearStaleTranslationCache c fingerprint in
      if ok then inl (Some c, Some c) else inl (None, None)
  end.

Definition response_config (p : responsesProvider) (chalk : option (Z -> list Patch)) : ProjectionConfig raws :=
  mkConfig chalk (responseFingerprint (rpModel p)) []
    (fun msg snap => encodeResponseMessage msg (mPatches msg) snap (rpTemplates p))
    (fun input encoded _ => input ++ encoded).

(** func (p *responsesProvider) inputFor, given the cache. *)
Definition inputFor (p : responsesProvider) (figLog : F) (cache : option C) (chalk : option (Z -> list Patch))
  : responsesProvider * option C * result raws :=
  match ProjectIncrementally (response_config p chalk) (Read figLog) cache (rpProjection p) with
  | (None, _, cache) => (p, cache, inr ErrEncode)
  | (Some ip, _, cache) => (set_rprojection p (Some ip), cache, inl (ipState ip))
  end.

(** What the other side does: the connection (or a failure to dial), whether
    the request could be sent, and what the connection delivers. *)
Record exchange := mkExchange { xDialed : bool; xSent : bool; xReceived : list ws_in }.

(** What one attempt leaves: the provider, the log, the bus, and how it ended. *)
Inductive outcome := Done | Pending | Error (e : responses_error).

(** The landing of a decoded response; a commit without a cache is the empty one. *)
Definition land_response (p : responsesProvider) (figLog : F) (now : Z) (r : responseObject) (assistant : Message)
    (bus : list bus_call) : responsesProvider * F * list bus_call * outcome :=
  let assistant := mkMessage (mRole assistant) (mContent assistant) [] (mUsage assistant)
                     (mStopReason assistant) [] [] 0 now in
  match Append figLog (mkEntry 0 0 assistant []) with
  | (figLog, None) => (p, figLog, bus, Error ErrAppendLog)
  | (figLog, Some entry) =>
      let commit := match roOutput r with
        | [] => []
        | out => [mkCache #"copilot-responses" out (responseFingerprint (rpModel p))]
        end in
      (match roOutput r with [] => p | out => accept_response p (LT entry) out end, figLog,
       bus ++ [PushMessageEnd (mStopReason assistant);
               PushFigaro (with_lt assistant (LT entry)) (hd (mkCache [] [] []) commit)], Done)
  end.

(** func (p *responsesProvider) sendWithToken, given the cache and the names
    uuid.NewString draws. *)
Definition sendWithToken (fresh : nat -> gostr) (p : responsesProvider) (figLog : F) (cache : option C) (sin : SendInput)
    (options : responseRequestOptions) (exch : responseCreateRequest -> exchange) (now : Z)
  : responsesProvider * F * option C * list bus_call * outcome :=
  let '(p, cache, input) := inputFor p figLog cache (siChalkboard sin) in
  match input with
  | inr e => (p, figLog, cache, [], Error e)
  | inl [] => (p, figLog, cache, [], Error ErrEmpty)
  | inl input =>
      if bool_decide (rpModel p = []) then (p, figLog, cache, [], Error ErrModel) else
      let maxTokens := if 0 <? siMaxTokens sin then siMaxTokens sin else rpMaxTokens p in
      let '(p, session) := sessionIDFor p (fresh 1%nat) in
      let request := mkCreate input (responseInstructions (siSnapshot sin))
        (if 0 <? maxTokens then maxTokens else 0) (rpModel p) (opParallel options) (opReasoning options)
        (opTemperature options) (opVerbosity options) (opTopP options) (responseTools (siTools sin))
        (fresh 0%nat) session (fresh 2%nat) in
      let x := exch request in
      if negb (xDialed x) then (p, figLog, cache, [], Error ErrDial)
      else if negb (xSent x) then (p, figLog, cache, [], Error ErrSend)
      else match readResponseStream fresh (xReceived x) (mkStream ∅ ∅ 3 []) with
           | (st, None) => (p, figLog, cache, rbus st, Pending)
           | (st, Some (inr e)) => (p, figLog, cache, rbus st, Error e)
           | (st, Some (inl r)) =>
               match decodeResponseAssistant r with
               | inr e => (p, figLog, cache, rbus st, Error e)
               | inl assistant =>
                   match mContent assistant, roOutput r with
                   | [], [] => (p, figLog, cache, rbus st, Done)
                   | _, _ => let '(p, figLog, bus, err) := land_response p figLog now r assistant (rbus st) in
                             (p, figLog, cache, bus, err)
                   end
               end
           end
  end.

(** func (p *responsesProvider) Send: whether the token resolves ([false]: the
    first time) and is invalidated; [exch] is what each attempt meets and
    [fresh] the names it draws. *)
Definition SendResponses (p : responsesProvider) (figLog : F) (cache : option C) (sin : SendInput)
    (resolve : bool -> bool) (invalidated : bool)
    (exch : nat -> responseCreateRequest -> exchange) (fresh : nat -> nat -> gostr) (now : Z)
  : responsesProvider * F * option C * list bus_call * outcome :=
  let snap := siSnapshot sin in
  match responseOptionalString snap #"system.model" with
  | None => (p, figLog, cache, [], Error (ErrOption #"system.model"))
  | Some model =>
      let p := match model with Some m => if nonempty m then SetModel p m else p | None => p end in
      match responseOptionsFor snap with
      | inr e => (p, figLog, cache, [], Error e)
      | inl options =>
          match validateContext p (Read figLog) snap (rpModel p) (opContextTier options) with
          | Some e => (p, figLog, cache, [], Error e)
          | None =>
              if negb (resolve false) then (p, figLog, cache, [], Error ErrResolve) else
              match sendWithToken (fresh 0%nat) p figLog cache sin options (exch 0%nat) now with
              | (p, figLog, cache, bus, Error e) =>
                  if negb (isResponseUnauthorized e) then (p, figLog, cache, bus, Error e)
                  else if negb invalidated then (p, figLog, cache, bus, Error ErrInvalidate)
                  else if negb (resolve true) then (p, figLog, cache, bus, Error ErrResolveFresh)
                  else let '(p, figLog, cache, bus', out) 
                         := sendWithToken (fresh 1%nat) p figLog cache sin options (exch 1%nat) now in
                       (p, figLog, cache, bus ++ bus', out)
              | done => done
              end
          end
      end
  end.

End provider.
