(* ===== verification/ResponsesTurn.v ===== *)
(** * provider/copilot: what the Responses transport guarantees
    (theorems about src/internal/provider/copilot/responses.go and
    src/internal/tokens/tokens.go)

    The context estimate, the round trip of an assistant message, the calls a
    stream declares ready, and what a turn leaves in the log. *)

From S2P Require Import Prelude Utf8 GoStrings Json GoJson RawJson Message Chalkboard Reminder Store.
From S2P Require Import Projection Native NativeWire NativeStream Responses.

(** ** Context size *)

Lemma watermark_app l k :
  watermark (l ++ k) =
  match watermark k with
  | Some w => Some w
  | None => (fun ur => (ur.1, ur.2 ++ k)) <$> watermark l
  end.
Proof.
  induction l as [|m l IH]; [cbn; by destruct (watermark k)|]. cbn [app watermark]. rewrite IH.
  destruct (watermark k); [done|]. destruct (watermark l); [done|]. by destruct (mUsage m).
Qed.

Lemma estimate_all_base total msgs : estimate_all total msgs = total + estimate_all 0 msgs.
Proof.
  assert (H : forall a b, foldl (fun t m => t + EstimateMessage m) (a + b) msgs =
    a + foldl (fun t m => t + EstimateMessage m) b msgs).
  { induction msgs as [|m msgs IH]; intros a b; cbn [foldl]; [lia|].
    rewrite <- Z.add_assoc. apply IH. }
  unfold estimate_all. rewrite <- (H total 0). f_equal. lia.
Qed.

Lemma tailSnapshot_split (entries : list (Entry Message)) n : 0 < n ->
  exists pre, entries = pre ++ tailSnapshot entries n /\
    (glen (tailSnapshot entries n) < n -> pre = []).
Proof.
  intros Hn. unfold tailSnapshot, glen. rewrite (proj2 (Z.leb_gt n 0)) by done. cbn [orb].
  destruct (Nat.eqb_spec (length entries) 0) as [E|E].
  { destruct entries; [|done]. by exists []. }
  destruct (Z.ltb_spec (Z.of_nat (length entries)) n).
  - exists []. rewrite Nat2Z.id, Nat.sub_diag. done.
  - exists (take (length entries - Z.to_nat n) entries). rewrite take_drop. split; [done|].
    rewrite length_drop. intros. replace (length entries - Z.to_nat n)%nat with 0%nat by lia. done.
Qed.

(** The estimate the Responses provider makes from the last 64 entries of
    the log is the context size of the whole conversation: the same tokens and
    the same exactness, whatever the length of the log and wherever its last
    usage is. *)
Theorem responses_context_size (entries : list (Entry Message)) :
  contextSizeForLog entries = ContextSize (map Payload entries).
Proof.
  unfold contextSizeForLog. destruct (tailSnapshot_split entries 64) as (pre & E & Hpre); [done|].
  set (tail := tailSnapshot entries 64) in *. clearbody tail.
  assert (Hsize : forall msgs u rest, watermark msgs = Some (u, rest) ->
    (estimate_all (InputTokens u + OutputTokens u) rest, (length rest =? 0)%nat) = ContextSize msgs).
  { intros msgs u rest Hw. unfold ContextSize. destruct msgs as [|m msgs]; [done|]. rewrite Hw.
    destruct rest as [|r rest]; [done|]. by rewrite estimate_all_base. }
  destruct (watermark (map Payload tail)) as [[u rest]|] eqn:Ew.
  - apply Hsize. by rewrite E, map_app, watermark_app, Ew.
  - destruct (Z.ltb_spec (glen tail) 64) as [Hlt|Hlt].
    + rewrite (Hpre Hlt) in E. cbn [app] in E. subst tail.
      unfold ContextSize. rewrite Ew. by destruct entries.
    + destruct (watermark (map Payload entries)) as [[u rest]|] eqn:Ee; [by apply Hsize|].
      unfold ContextSize. rewrite Ee. destruct entries as [|e entries]; [|done].
      apply (f_equal length) in E. rewrite length_app in E. unfold glen in Hlt. cbn in E. lia.
Qed.

(** ** From the IR to input items and back *)

Lemma select_at {D} (F : list (gostr * D)) i k d :
  F !! i = Some (k, d) -> forallb (fun k' => negb (bool_decide (k' = k))) (map fst (take i F)) = true ->
  select F k = Some d.
Proof.
  intros Hi Hf. unfold select.
  assert (List.find (fun f => bool_decide (f.1 = k)) F = Some (k, d)) as ->; [|done].
  revert i Hi Hf. induction F as [|f F IH]; intros [|i] Hi Hf; try done.
  - injection Hi as ->. cbn. by rewrite bool_decide_eq_true_2.
  - cbn in Hf. apply andb_true_iff in Hf as [Hn Hf]. cbn.
    destruct (bool_decide (f.1 = k)); [done|]. by apply (IH i).
Qed.

Ltac select_tac i := apply (select_at _ i); [reflexivity|vm_compute; reflexivity].

Abbreviation printed m := (map (fun kv : gostr * json => (kv.1, Print kv.2)) m).

Section raw.
Context {T : Type} (F : list (gostr * rdecoder T)).

Lemma raw_rfld {V} k (get : T -> V) set d t raw :
  select F k = Some (snd (rfld k get set d)) ->
  raw_member F (t, true) (k, raw) = let '(v, ok) := d raw (get t) in (set v t, ok).
Proof. intros H. unfold raw_member. cbn [fst snd]. rewrite H. cbn. by destruct (d raw (get t)). Qed.

Lemma raw_omit_str k get set s t rest :
  select F k = Some (snd (rfld k get set (of_value dec_string))) ->
  get t = [] -> (forall u, set (get u) u = u) -> valid_utf8 s ->
  foldl (raw_member F) (t, true) (printed (omit_str k s) ++ rest) =
  foldl (raw_member F) (set s t, true) rest.
Proof.
  intros H Ht Hs Hv. destruct s as [|c s]; cbn [omit_str map app]; [by rewrite <- Ht, Hs|].
  cbn [foldl fst snd]. rewrite (raw_rfld _ _ _ _ _ _ H).
  unfold of_value, Unmarshal. rewrite Parse_Print by by constructor. done.
Qed.

End raw.

(** Text content reads back. *)
Definition text_ok (c : responseContent) : Prop := valid_utf8 (rcType c) /\ valid_utf8 (rcText c) /\ rcImageURL c = [].

Lemma dec_content c : text_ok c -> dec_struct rc_fields (content_json c) zero_rc = (c, true).
Proof.
  intros (_ & _ & Hi). unfold content_json, dec_struct. rewrite Hi. cbn [omit_str]. rewrite app_nil_r. cbn [app].
  rewrite (fold_str _ _ rcType (fun v c => mkRC v (rcText c) (rcImageURL c))); [|field_at 0%nat].
  rewrite <- (app_nil_r (omit_str _ _)).
  rewrite (fold_omit_str _ _ rcText (fun v c => mkRC (rcType c) v (rcImageURL c))); [|field_at 1%nat|done|by intros []].
  destruct c. cbn in *. by subst.
Qed.

Lemma content_printable d c : d < max_depth -> text_ok c -> printable d (content_json c).
Proof.
  intros Hd (Ht & Hx & Hi). unfold content_json. rewrite Hi. cbn [omit_str]. rewrite app_nil_r.
  constructor; [done|]. constructor; [split; cbn [fst snd]; [lit_ok|by constructor]|]. by apply omit_str_ok; [lit_ok|].
Qed.

Lemma contents_printable d l : d + 1 < max_depth -> Forall text_ok l -> printable d (JArr (map content_json l)).
Proof.
  intros Hd Hl. constructor; [lia|]. induction Hl; constructor; [by apply content_printable|done].
Qed.

Lemma dec_contents l : Forall text_ok l ->
  dec_slice zero_rc (dec_struct rc_fields) (JArr (map content_json l)) [] = (l, true).
Proof.
  intros Hl. cbn [dec_slice]. induction Hl as [|c l Hc _ IH]; [done|]. cbn [map dec_elems hd tl].
  by rewrite dec_content, IH.
Qed.

(** What an assistant's item is read as. *)
Definition item_read (i : responseInputItem) : responseOutputItem :=
  mkOutput (iType i) [] (iContent i) [] (iCallID i) (iName i)
    (match iArguments i with [] => None | a => Some (Print (JStr a)) end).

Definition item_ok (i : responseInputItem) : Prop :=
  Forall valid_utf8 [iType i; iRole i; iCallID i; iName i; iArguments i] /\ iOutput i = [] /\
  Forall text_ok (iContent i).

Lemma item_printable i : item_ok i -> printable 0 (item_json i).
Proof.
  intros (Hs & Ho & Hc). rewrite !Forall_cons in Hs. destruct Hs as (H1 & H2 & H3 & H4 & H5 & _).
  unfold item_json. rewrite Ho. constructor; [done|]. rewrite !Forall_app.
  split_and!; try (apply omit_str_ok; [lit_ok|done]).
  - pose proof (contents_printable 1 _ ltac:(done) Hc). destruct (iContent i); [done|].
    constructor; [|done]. split; [lit_ok|done].
  - done.
Qed.

Lemma item_reads_back i : item_ok i ->
  UnmarshalRaw (raw_struct item_fields) (marshalResponseItem i) zero_item = (item_read i, true).
Proof.
  intros Hok. pose proof (item_printable i Hok) as Hp. destruct Hok as (Hs & Ho & Hc).
  rewrite !Forall_cons in Hs. destruct Hs as (H1 & H2 & H3 & H4 & H5 & _).
  unfold UnmarshalRaw, marshalResponseItem. rewrite Parse_Print by done.
  unfold raw_struct. unfold item_json in *. rewrite RawObject_Print by done. rewrite Ho. cbn [omit_str].
  rewrite app_nil_r, !map_app.
  rewrite (raw_omit_str _ _ oiType
    (fun v i => mkOutput v (oiID i) (oiContent i) (oiSummary i) (oiCallID i) (oiName i) (oiArguments i)));
    [|select_tac 0%nat|done|by intros []|done].
  rewrite (raw_omit_str _ _ (fun _ => []) (fun _ i => i)); [|select_tac 2%nat|done|done|done].
  set (t1 := mkOutput (iType i) [] (iContent i) [] [] [] None).
  assert (E : forall rest, foldl (raw_member item_fields) (mkOutput (iType i) [] [] [] [] [] None, true)
    (printed (match iContent i with [] => [] | l => [(#"content", JArr (map content_json l))] end) ++ rest) =
    foldl (raw_member item_fields) (t1, true) rest).
  { intros rest. subst t1. destruct (iContent i) as [|c l] eqn:Ec; [done|]. cbn [map app foldl fst snd].
    rewrite (raw_rfld _ _ oiContent
      (fun v i => mkOutput (oiType i) (oiID i) v (oiSummary i) (oiCallID i) (oiName i) (oiArguments i))
      (of_value (dec_slice zero_rc (dec_struct rc_fields)))); [|select_tac 3%nat].
    unfold of_value, Unmarshal. change (content_json c :: map content_json l) with (map content_json (c :: l)).
    rewrite Parse_Print by by apply contents_printable. cbn [oiContent]. by rewrite dec_contents. }
  cbn [oiID oiContent oiSummary oiCallID oiName oiArguments zero_item]. rewrite E. clear E. subst t1.
  rewrite (raw_omit_str _ _ oiCallID
    (fun v i => mkOutput (oiType i) (oiID i) (oiContent i) (oiSummary i) v (oiName i) (oiArguments i)));
    [|select_tac 5%nat|done|by intros []|done].
  rewrite (raw_omit_str _ _ oiName
    (fun v i => mkOutput (oiType i) (oiID i) (oiContent i) (oiSummary i) (oiCallID i) v (oiArguments i)));
    [|select_tac 6%nat|done|by intros []|done].
  unfold item_read. destruct (iArguments i) as [|a args] eqn:Ea; [done|].
  cbn [omit_str map app foldl fst snd]. unfold raw_member.
  assert (Hsel : select item_fields #"arguments" = Some (fun raw i =>
    (mkOutput (oiType i) (oiID i) (oiContent i) (oiSummary i) (oiCallID i) (oiName i) (Some raw), true)))
    by select_tac 7%nat.
  cbn [fst snd]. by rewrite Hsel.
Qed.

(** A text from "{" to "}" has no blanks to trim. *)
Lemma TrimSpace_braces s : TrimSpace (x7b :: s ++ [x7d]) = x7b :: s ++ [x7d].
Proof.
  unfold TrimSpace, TrimLeftSpace. cbn [trim_left_fuel length].
  change (decode_rune (x7b :: s ++ [x7d])) with (0x7B, 1%nat). change (is_space 0x7B) with false. cbv iota.
  unfold TrimRightSpace. set (t := x7b :: s ++ [x7d]).
  assert (Ht : t = (x7b :: s) ++ [x7d]) by done.
  assert (Hlen : length t = S (length (x7b :: s))) by (rewrite Ht, length_app; cbn; lia).
  assert (Hlast : decode_last t = (0x7D, 1%nat)).
  { unfold decode_last. rewrite Hlen. cbn [Nat.eqb].
    replace (S (length (x7b :: s)) - 1)%nat with (length (x7b :: s)) by lia.
    rewrite Ht, drop_app_length. unfold bget. rewrite nth_middle.
    cbn [Nat.leb]. done. }
  assert (E : trim_right_fuel (length t) t = t).
  { rewrite Hlen, Ht. cbn [trim_right_fuel app]. change (x7b :: s ++ [x7d]) with t. by rewrite Hlast. }
  exact E.
Qed.

Lemma decode_arguments args : canon (JObj args) = JObj args -> any_ok (Some (JObj args)) ->
  decodeResponseArguments (match args with [] => #"{}" | _ => Print (JObj args) end) = Some args.
Proof.
  intros Hc (_ & Hr & Hp). destruct args as [|kv args]; [vm_compute; reflexivity|].
  unfold decodeResponseArguments.
  assert (Ht : TrimSpace (Print (JObj (kv :: args))) = Print (JObj (kv :: args))) by apply TrimSpace_braces.
  rewrite Ht, bool_decide_eq_false_2 by (cbn; done). clear Ht.
  unfold Unmarshal. rewrite Parse_Print by (by apply (printable_weaken 3)).
  assert (Hd : forall m, dec_map (JObj m) None =
    (match canon (JObj m) with JObj m' => Some m' | _ => None end, negb (num_range_err (JObj m)))) by done.
  by rewrite Hd, Hc, Hr.
Qed.

Lemma arguments_of_string s : valid_utf8 s -> responseArgumentBytes (Print (JStr s)) = s.
Proof.
  intros Hs. unfold responseArgumentBytes. cbn [Print]. unfold print_string at 1.
  unfold Unmarshal. change (print_string s) with (Print (JStr s)). by rewrite Parse_Print by by constructor.
Qed.

(** The prose an assistant message sends. *)
Definition said (content : list Content) : list Content :=
  List.filter (fun c => bool_decide (cType c = ContentProse)) content.

Definition output_text (c : Content) : responseContent := mkRC #"output_text" (cText c) [].

Lemma encode_assistant content e : Forall replayable content ->
  foldl (encode_content RoleAssistant) e content =
  mkEncoding (beforeMessage e)
    (afterMessage e ++ map (fun c => marshalResponseItem (responseFunctionCall c)) (invokes content))
    (userContent e) (assistantContent e ++ map output_text (said content)).
Proof.
  intros H. revert e. induction H as [|c content Hc _ IH]; intros e.
  { destruct e. cbn. by rewrite !app_nil_r. }
  cbn [foldl]. rewrite IH. clear IH.
  unfold encode_content. rewrite (bool_decide_eq_false_2 (RoleAssistant = RoleUser)),
    (bool_decide_eq_true_2 (RoleAssistant = RoleAssistant)) by done.
  destruct Hc as [t Ht _|t Ht _|id name args Hid _ _ _ _]; unfold invokes, said; cbn [List.filter].
  - change (bool_decide (cType (prose t) = ContentProse)) with true.
    change (bool_decide (cType (prose t) = ContentToolInvoke)) with false. cbv iota.
    unfold nonempty. rewrite bool_decide_eq_false_2; [|intros E; cbn in E; subst t; discriminate Ht].
    cbn [negb]. destruct e as [be af us st]; cbn [add_assistant beforeMessage afterMessage userContent assistantContent map].
    f_equal. by rewrite <- app_assoc.
  - change (bool_decide (cType (thinking t) = ContentProse)) with false.
    change (bool_decide (cType (thinking t) = ContentToolInvoke)) with false. cbv iota. done.
  - change (bool_decide (cType (tool_invoke id name (Some args)) = ContentProse)) with false.
    change (bool_decide (cType (tool_invoke id name (Some args)) = ContentToolInvoke)) with true. cbv iota.
    destruct e as [be af us st]; cbn [add_after beforeMessage afterMessage userContent assistantContent map].
    f_equal. by rewrite <- app_assoc.
Qed.

Lemma output_texts content : Forall replayable content ->
  Forall text_ok (map output_text (said content)) /\
  concat (map decode_text (map output_text (said content))) = said content.
Proof.
  unfold said. induction 1 as [|c content Hc _ (IH1 & IH2)]; [done|].
  destruct Hc as [t Ht Hv|t|]; cbn [List.filter].
  - change (bool_decide (cType (prose t) = ContentProse)) with true. cbn [map concat]. split.
    + constructor; [|done]. split; [cbn; lit_ok|done].
    + rewrite IH2. unfold decode_text. cbn [output_text rcType rcText].
      rewrite bool_decide_eq_true_2 by done. unfold nonempty.
      rewrite bool_decide_eq_false_2; [done|]. intros E. cbn in E. subst t. discriminate Ht.
  - by change (bool_decide (cType (thinking t) = ContentProse)) with false.
  - by change (bool_decide (cType (tool_invoke id name (Some args)) = ContentProse)) with false.
Qed.


Lemma call_reads id name args : valid_utf8 id -> valid_utf8 name ->
  canon (JObj args) = JObj args -> any_ok (Some (JObj args)) ->
  decode_output (marshalResponseItem (responseFunctionCall (tool_invoke id name (Some args)))) =
  inl [tool_invoke id name (Some args)].
Proof.
  intros Hi Hn Hc Ha. set (a := match args with [] => #"{}" | _ => Print (JObj args) end).
  assert (Hcall : responseFunctionCall (tool_invoke id name (Some args)) =
    mkItem #"function_call" [] [] id name a []) by (by destruct args).
  assert (Hav : valid_utf8 a).
  { subst a. destruct Ha as (_ & _ & Hp). destruct args; [lit_ok|by eapply Print_utf8]. }
  assert (Hane : exists c r, a = c :: r) by (subst a; destruct args; by eauto).
  unfold decode_output. rewrite Hcall, item_reads_back; [|split_and!; [|done|constructor]].
  2:{ rewrite !Forall_cons. split_and!; try done; cbn; first [lit_ok|constructor]. }
  cbn [negb item_read oiType oiArguments oiCallID oiName iType iArguments iCallID iName].
  rewrite bool_decide_eq_false_2, bool_decide_eq_true_2 by done.
  destruct Hane as (c & r & E). rewrite E. cbn [default Datatypes.id]. rewrite <- E, arguments_of_string by done.
  subst a. by rewrite decode_arguments.
Qed.

Lemma text_reads content : Forall replayable content ->
  decode_output (marshalResponseItem (responseMessage #"assistant" (map output_text (said content)))) =
  inl (said content).
Proof.
  intros Hc. destruct (output_texts content Hc) as [Hok Hd].
  unfold decode_output. rewrite item_reads_back; [|split_and!; [|done|done]].
  2:{ rewrite !Forall_cons. split_and!; try done; cbn; first [lit_ok|constructor]. }
  cbn [negb item_read oiType oiContent responseMessage iType iContent].
  by rewrite bool_decide_eq_true_2, Hd.
Qed.

(** What the encoder puts in a Responses request for an assistant message
    reads back, as output items of that API, to the message's prose and its
    tool calls with their arguments: all of the prose first, then the calls,
    each in order; thinking is not replayed. *)
Theorem responses_roundtrip (msg : Message) (snap : snapshot) (tmpls : option templates)
    (Hrole : mRole msg = RoleAssistant) (Hc : Forall replayable (mContent msg)) :
  exists out, encodeResponseMessage msg [] snap tmpls = Some out /\
    decode_outputs out = inl (said (mContent msg) ++ invokes (mContent msg)).
Proof.
  unfold encodeResponseMessage. rewrite Hrole, encode_assistant by done.
  cbn [encode_patches beforeMessage afterMessage userContent assistantContent app].
  rewrite (bool_decide_eq_true_2 (RoleAssistant = RoleAssistant)) by done.
  assert (Hcalls : decode_outputs (map (fun c => marshalResponseItem (responseFunctionCall c)) (invokes (mContent msg))) =
    inl (invokes (mContent msg))).
  { clear Hrole. induction Hc as [|c content Hc1 _ IH]; [done|]. unfold invokes in *. cbn [List.filter].
    destruct Hc1 as [t|t|id name args Hid Hi Hn Hca Ha].
    - exact IH.
    - exact IH.
    - change (bool_decide (cType (tool_invoke id name (Some args)) = ContentToolInvoke)) with true.
      cbv iota. cbn [map decode_outputs]. rewrite call_reads by done. cbn [bind]. by rewrite IH. }
  eexists. split; [reflexivity|].
  pose proof (text_reads _ Hc) as Ht.
  destruct (said (mContent msg)) as [|c l]; [exact Hcalls|].
  cbn [map] in *. cbn [decode_outputs]. rewrite Ht. cbn [bind]. by rewrite Hcalls.
Qed.

(** ** The stream: a call becomes ready once *)

Definition ready_ids (st : rstream) : list gostr := map cToolCallID (ready_calls (rbus st)).

(** Every call declared ready is marked, so it is declared once. *)
Definition marked_once (st : rstream) : Prop :=
  NoDup (ready_ids st) /\ forall id, id ∈ ready_ids st -> rcReady (call_of st id) = true.

(** Steps that keep what is on the bus and never unmark a call. *)
Definition keeps (st st' : rstream) : Prop :=
  ready_ids st' = ready_ids st /\
  forall id, rcReady (call_of st id) = true -> rcReady (call_of st' id) = true.

#[local] Instance keeps_preorder : PreOrder keeps.
Proof.
  split; [by split|]. intros a b c [H1 H2] [H3 H4]. split; [congruence|auto].
Qed.

Lemma keeps_marked st st' : keeps st st' -> marked_once st -> marked_once st'.
Proof. intros [H1 H2] [H3 H4]. split; rewrite H1; [done|auto]. Qed.

Lemma keeps_with_call st id c :
  (rcReady (call_of st id) = true -> rcReady c = true) -> keeps st (with_call st id c).
Proof.
  intros H. split; [done|]. intros i Hi. unfold call_of, with_call in *. cbn [calls] in *.
  destruct (decide (i = id)) as [->|]; [rewrite lookup_insert_eq; cbn; auto|by rewrite lookup_insert_ne].
Qed.

Lemma keeps_push st c : (forall x, c <> PushToolReady x) -> keeps st (rpush st c).
Proof.
  intros H. split; [|done]. unfold ready_ids, ready_calls, rpush. cbn [rbus].
  rewrite omap_app, map_app. destruct c; cbn; rewrite ?app_nil_r; try done. by destruct (H c).
Qed.

Lemma keeps_with_item st i id : keeps st (with_item st i id).
Proof. unfold with_item. by case_bool_decide. Qed.

Lemma keeps_write st id reset b : keeps st (write_arguments st id reset b).
Proof. by apply keeps_with_call. Qed.

Section stream_marks.
Context (fresh : nat -> gostr).

Lemma keeps_ensure st id name : keeps st (fst (ensureResponseCall fresh st id name)).
Proof.
  unfold ensureResponseCall.
  set (r := if bool_decide (id = []) then _ else _).
  assert (Hr : keeps st (fst r)) by (subst r; by case_bool_decide).
  destruct r as [st1 id1]. cbn [fst] in Hr.
  destruct (calls st1 !! id1) as [c|] eqn:E; cbn [fst].
  - etransitivity; [exact Hr|]. case_bool_decide; [|done].
    apply keeps_with_call. unfold call_of. by rewrite E.
  - etransitivity; [exact Hr|]. apply keeps_with_call. unfold call_of. by rewrite E.
Qed.

Lemma keeps_call_for st ev : keeps st (fst (responseCallFor fresh st ev)).
Proof.
  unfold responseCallFor. destruct (nonempty _); [|by destruct (nonempty _)].
  pose proof (keeps_ensure st (evCallID ev) (evName ev)) as H. by destruct (ensureResponseCall _ _ _ _).
Qed.

Lemma ready_marks st id : marked_once st -> marked_once (fst (readyResponseCall st id)).
Proof.
  intros [Hn Hm]. unfold readyResponseCall. destruct (rcReady (call_of st id)) eqn:Er; [done|].
  destruct (decodeResponseArguments _) as [args|]; [|done]. cbn [fst].
  set (c := mkCall _ _ true).
  assert (Hnot : id ∉ ready_ids st) by (intros Hin; apply Hm in Hin; congruence).
  assert (Hids : ready_ids (rpush (with_call st id c) (PushToolReady (tool_invoke id (rcName (call_of st id)) (Some args)))) =
    ready_ids st ++ [id]).
  { unfold ready_ids, ready_calls, rpush. cbn [rbus]. by rewrite omap_app, map_app. }
  split; rewrite Hids.
  - apply NoDup_app. split_and!; [done| |apply NoDup_singleton].
    intros i Hi Hi2. apply list_elem_of_singleton in Hi2. by subst.
  - intros i Hi. unfold call_of, rpush, with_call. cbn [calls].
    destruct (decide (i = id)) as [->|Hne]; [by rewrite lookup_insert_eq|].
    rewrite lookup_insert_ne by done. apply Hm.
    apply elem_of_app in Hi as [Hi|Hi]; [done|]. by apply list_elem_of_singleton in Hi.
Qed.

Lemma event_marks ev st : marked_once st -> marked_once (fst (stream_event fresh ev st)).
Proof.
  intros H. unfold stream_event.
  assert (Hgo : forall r, fst (then_go r) = fst r) by (by intros [? [|]]).
  repeat case_if; try done.
  - apply (keeps_marked st); [by apply keeps_push|done].
  - apply (keeps_marked st); [by apply keeps_push|done].
  - pose proof (keeps_ensure st (oiCallID (evItem ev)) (oiName (evItem ev))) as Hk.
    destruct (ensureResponseCall _ _ _ _) as [st1 id]. cbn [fst] in Hk |- *.
    apply (keeps_marked st); [|exact H]. etransitivity; [exact Hk|].
    etransitivity; [apply (keeps_with_item _ (oiID (evItem ev)) id)|].
    destruct (oiArguments _) as [raw|]; [|by apply keeps_push].
    etransitivity; [apply (keeps_write _ id false)|]. by apply keeps_push.
  - pose proof (keeps_call_for st ev) as Hk. destruct (responseCallFor _ _ _) as [st1 [id|]]; cbn [fst] in Hk |- *.
    + apply (keeps_marked st); [|exact H]. etransitivity; [exact Hk|].
      etransitivity; [apply (keeps_write _ id false)|]. by apply keeps_push.
    + by apply (keeps_marked st).
  - pose proof (keeps_call_for st ev) as Hk.
    destruct (responseCallFor _ _ _) as [st1 [id|]]; by apply (keeps_marked st).
  - pose proof (keeps_call_for st ev) as Hk. destruct (responseCallFor _ _ _) as [st1 [id|]]; cbn [fst] in Hk |- *.
    + rewrite Hgo. apply ready_marks. apply (keeps_marked st); [|exact H]. etransitivity; [exact Hk|].
      apply keeps_write.
    + by apply (keeps_marked st).
  - pose proof (keeps_call_for st ev) as Hk.
    destruct (responseCallFor _ _ _) as [st1 [id|]]; cbn [fst] in Hk |- *; [rewrite Hgo; apply ready_marks|];
      by apply (keeps_marked st).
  - pose proof (keeps_ensure st (oiCallID (evItem ev)) (oiName (evItem ev))) as Hk.
    destruct (ensureResponseCall _ _ _ _) as [st1 id]. cbn [fst] in Hk |- *.
    rewrite Hgo. apply ready_marks. apply (keeps_marked st); [|exact H]. etransitivity; [exact Hk|].
    etransitivity; [apply (keeps_with_item _ (oiID (evItem ev)) id)|].
    destruct (oiArguments _); [apply keeps_write|done].
Qed.

Lemma stream_marks ins st : marked_once st -> marked_once (fst (readResponseStream fresh ins st)).
Proof.
  revert st. induction ins as [|[raw|c] ins IH]; intros st H; [done| |done]. cbn [readResponseStream].
  destruct (UnmarshalRaw _ _ _) as [ev [|]]; [|done]. cbn [negb].
  pose proof (event_marks ev st H) as He. destruct (stream_event _ _ _) as [st1 []]; cbn [fst] in *; [|done|done].
  by apply IH.
Qed.

End stream_marks.

Definition stream_start : rstream := mkStream ∅ ∅ 3 [].

(** C24: Whatever the socket delivers, in whatever order, a tool call is declared
    ready for execution at most once: the ids of the PushToolReady calls on the
    bus are distinct, and each belongs to a call marked ready. *)
Theorem responses_ready_once (fresh : nat -> gostr) (ins : list ws_in) :
  let st := fst (readResponseStream fresh ins stream_start) in
  NoDup (map cToolCallID (ready_calls (rbus st))) /\
  Forall (fun c => (rcReady <$> calls st !! cToolCallID c) = Some true) (ready_calls (rbus st)).
Proof.
  intros st. destruct (stream_marks fresh ins stream_start) as [Hn Hm].
  { split; [constructor|]. by intros id Hid%elem_of_nil. }
  split; [exact Hn|]. apply Forall_forall. intros c Hc.
  specialize (Hm (cToolCallID c)). unfold call_of in Hm. fold st in Hm.
  destruct (calls st !! cToolCallID c); cbn in Hm |- *.
  - f_equal. apply Hm. unfold ready_ids. by apply list_elem_of_fmap_2.
  - discriminate Hm. unfold ready_ids. by apply list_elem_of_fmap_2.
Qed.

(** ** A turn *)

Section sends.
Context {C F : Type} `{LogLaws C raws} `{LogLaws F Message}.

(** What a turn that succeeded leaves, for an attempt that met [exch]: the
    stream completed with a response whose output decodes; without output
    nothing lands, with any output (also one that decodes to no content) the
    decoded message does. *)
Definition landed (figLog figLog' : F) (p' : responsesProvider) (bus : list bus_call) (now : Z)
    (exch : responseCreateRequest -> exchange) (names : nat -> gostr) : Prop :=
  exists rq st r assistant pre,
    xDialed (exch rq) = true /\ xSent (exch rq) = true /\
    readResponseStream names (xReceived (exch rq)) stream_start = (st, Some (inl r)) /\
    decodeResponseAssistant r = inl assistant /\
    if (length (roOutput r) =? 0)%nat
    then Read figLog' = Read figLog /\ bus = pre ++ rbus st /\
         ipState <$> rpProjection p' = Some (crInput rq)
    else exists entry cache,
      Read figLog' = Read figLog ++ [entry] /\ Payload entry = dated now assistant /\
      mRole (Payload entry) = RoleAssistant /\ decode_outputs (roOutput r) = inl (mContent (Payload entry)) /\
      bus = pre ++ rbus st ++ [PushMessageEnd (mStopReason (Payload entry));
                               PushFigaro (with_lt (Payload entry) (LT entry)) cache] /\
      acPayload cache = roOutput r /\
      (fun ip => (ipState ip, ipLastLT ip)) <$> rpProjection p' = Some (crInput rq ++ roOutput r, LT entry).

Definition attempt_ok (figLog : F) (exch : responseCreateRequest -> exchange) (names : nat -> gostr) (now : Z)
    (res : responsesProvider * F * option C * list bus_call * outcome) : Prop :=
  let '(p', figLog', cache', bus, out) := res in
  log_wf figLog' /\
  match out with
  | Done => landed figLog figLog' p' bus now exch names
  | _ => Read figLog' = Read figLog
  end.

Lemma sendWithToken_ok names p figLog cache sin options exch now : log_wf figLog ->
  attempt_ok figLog exch names now (sendWithToken names p figLog cache sin options exch now).
Proof.
  intros Hwf. unfold sendWithToken.
  destruct (inputFor p figLog cache (siChalkboard sin)) as [[p1 c1] input] eqn:Ei.
  destruct input as [input|e]; [|done]. destruct input as [|raw input]; [done|].
  case_bool_decide; [done|].
  assert (Hip : exists ip, rpProjection p1 = Some ip /\ ipState ip = raw :: input).
  { unfold inputFor in Ei. destruct (ProjectIncrementally _ _ _ _) as [[[ip|] ?] ?]; [|done].
    injection Ei as <- <- Hs. by exists ip. }
  destruct Hip as (ip & Hp & Hs).
  set (ps := sessionIDFor p1 (names 1%nat)).
  assert (Hps : rpProjection (fst ps) = Some ip) by (subst ps; unfold sessionIDFor; by destruct (nonempty _)).
  destruct ps as [p2 session]. cbn [fst] in Hps.
  set (rq := mkCreate _ _ _ _ _ _ _ _ _ _ _ _ _). assert (Hrq : crInput rq = raw :: input) by done.
  clearbody rq. destruct (xDialed (exch rq)) eqn:Edial; [cbn [negb]|done].
  destruct (xSent (exch rq)) eqn:Esent; [cbn [negb]|done].
  destruct (readResponseStream names (xReceived (exch rq)) (mkStream ∅ ∅ 3 [])) as [st [[r|e]|]] eqn:Er; [|done|done].
  destruct (decodeResponseAssistant r) as [assistant|e] eqn:Ed; [|done]. pose proof Ed as Ed'.
  unfold decodeResponseAssistant in Ed. destruct (decode_outputs (roOutput r)) as [content|e] eqn:Eo; [|done].
  cbn [bind] in Ed. injection Ed as <-. cbn [mContent].
  destruct (roOutput r) as [|out outs] eqn:Eout.
  { injection Eo as <-. split; [done|]. eexists rq, st, r, _, [].
    do 4 (split; [done|]). rewrite Eout, Hps. cbn. by rewrite Hs, Hrq. }
  match goal with
  | Ed' : decodeResponseAssistant r = inl ?m |- _ =>
      assert (Hl : attempt_ok figLog exch names now
        (let '(p, figLog, bus, err) := land_response p2 figLog now r m (rbus st) in (p, figLog, c1, bus, err)))
  end.
  { unfold land_response. rewrite Eout. cbn [mRole mContent mUsage mStopReason].
    destruct (Append figLog _) as [log' [entry|]] eqn:Ea.
    - destruct (law_Append_ok _ _ _ _ Hwf Ea) as (Hw & Hr & Hpay & _). cbn [Payload] in Hpay.
      split; [exact Hw|]. eexists rq, st, r, _, []. do 4 (split; [done|]).
      rewrite Eout. cbn [length Nat.eqb]. exists entry, (mkCache #"copilot-responses" (out :: outs)
        (responseFingerprint (rpModel p2))).
      rewrite Hpay, Hrq. cbn [app acPayload mRole mTimestamp mContent mStopReason hd].
      split_and!; try done.
      unfold accept_response. rewrite Hps. cbn. by rewrite Hs.
    - destruct (law_Append_err _ _ _ Hwf Ea) as (Hw & Hr). by split. }
  destruct content; apply Hl.
Qed.

Lemma attempt_again figLog figLog1 exch names now p' figLog' bus bus' :
  Read figLog1 = Read figLog ->
  landed figLog1 figLog' p' bus' now exch names -> landed figLog figLog' p' (bus ++ bus') now exch names.
Proof.
  intros E (rq & st & r & assistant & pre & Q1 & Q2 & Q3 & Q4 & Q5).
  exists rq, st, r, assistant, (bus ++ pre). do 4 (split; [done|]). rewrite <- !app_assoc.
  destruct (length (roOutput r) =? 0)%nat.
  - destruct Q5 as (R1 & R2 & R3). split_and!; [congruence| |done]. rewrite R2. by rewrite ?app_assoc.
  - destruct Q5 as (entry & cache & R1 & R2 & R3 & R4 & R5 & R6 & R7). exists entry, cache.
    split_and!; try done; [congruence|]. rewrite R5. by rewrite ?app_assoc.
Qed.

(** C23: A turn on the Responses transport that fails (options, context limit,
    token, dial, send, receive, a bad event or argument, append), also after
    the one retry a 401 allows, or that is still waiting for the socket, leaves
    the log's messages as they were.  One that succeeds had a stream that
    completed with a response whose output decodes.  When that response has no
    output item, nothing is appended, the bus is what the stream pushed and the
    projection is the input sent.  When it has one, exactly one message is
    appended, the decoded one dated now, an assistant message whose content is
    the decoded output; the bus hears its end and the message with the LT it
    got, last; and what is cached and projected for the next request is the
    input sent followed by the output received, byte for byte. *)
Theorem responses_send_lands (error_text : responses_error -> gostr) (p : responsesProvider) (figLog : F)
    (cache : option C) (sin : SendInput) (resolve : bool -> bool) (invalidated : bool)
    (exch : nat -> responseCreateRequest -> exchange) (fresh : nat -> nat -> gostr) (now : Z)
    (Hwf : log_wf figLog) :
  let '(p', figLog', cache', bus, out) :=
    SendResponses error_text p figLog cache sin resolve invalidated exch fresh now in
  match out with
  | Done => exists n, (n <= 1)%nat /\ landed figLog figLog' p' bus now (exch n) (fresh n)
  | _ => Read figLog' = Read figLog
  end.
Proof.
  unfold SendResponses. destruct (responseOptionalString _ _) as [model|]; [|done].
  set (p0 := match model with Some m => _ | None => p end). clearbody p0.
  destruct (responseOptionsFor _) as [options|e]; [|done].
  destruct (validateContext _ _ _ _ _); [done|].
  destruct (negb (resolve false)); [done|].
  pose proof (sendWithToken_ok (fresh 0%nat) p0 figLog cache sin options (exch 0%nat) now Hwf) as H1'.
  destruct (sendWithToken (fresh 0%nat) p0 figLog cache sin options (exch 0%nat) now)
    as [[[[p1 log1] c1] bus1] [| |e]]; cbn in H1'; destruct H1' as [Hwf1 H1'].
  - exists 0%nat. split; [lia|done].
  - done.
  - destruct (negb (isResponseUnauthorized _ _)); [done|]. destruct (negb invalidated); [done|].
    destruct (negb (resolve true)); [done|].
    pose proof (sendWithToken_ok (fresh 1%nat) p1 log1 c1 sin options (exch 1%nat) now Hwf1) as H2'.
    destruct (sendWithToken (fresh 1%nat) p1 log1 c1 sin options (exch 1%nat) now)
      as [[[[p2 log2] c2] bus2] out2]; cbn in H2'; destruct H2' as [Hwf2 H2'].
    destruct out2; [|by rewrite H2'..].
    exists 1%nat. split; [lia|]. by apply (attempt_again figLog log1).
Qed.

End sends.

(** ** Witnesses *)

Definition ex_reply : Message :=
  mkMessage RoleAssistant
    [thinking #"hm"; tool_invoke #"c1" #"bash" (Some [(#"command", JStr #"ls")]); prose #"Listing."]
    [] None StopToolInvoke [] [] 0 0.

Lemma responses_roundtrip_witness :
  Forall replayable (mContent ex_reply) /\
  exists out, encodeResponseMessage ex_reply [] ∅ None = Some out /\
    decode_outputs out = inl (said (mContent ex_reply) ++ invokes (mContent ex_reply)).
Proof.
  assert (Hr : Forall replayable (mContent ex_reply)).
  { repeat constructor; try done; try (apply valid_lit; vm_compute; reflexivity). }
  split; [exact Hr|]. exact (responses_roundtrip ex_reply ∅ None eq_refl Hr).
Defined.

Definition ex_ws (s : string) : ws_in := WsMessage (js s).
Definition ex_socket : list ws_in := [
  ex_ws "{'type':'response.output_item.added','item':{'type':'function_call','id':'i1','call_id':'c1','name':'bash'}}";
  ex_ws "{'type':'response.function_call_arguments.delta','item_id':'i1','delta':'{}'}";
  ex_ws "{'type':'response.output_item.done','item':{'type':'function_call','id':'i1','call_id':'c1','name':'bash','arguments':'{}'}}";
  ex_ws "{'type':'response.completed','response':{'status':'completed','usage':{'input_tokens':9},'output':[{'type':'function_call','call_id':'c1','name':'bash','arguments':'{}'}]}}" ].

Definition ex_rp : responsesProvider := mkRP #"gpt" 0 None None [] ∅.
Definition ex_run :=
  SendResponses (C := MemLog (list gostr)) (fun _ => #"401 Unauthorized") ex_rp ex_figlog None
    (mkSendInput ∅ None [] 0) (fun _ => true) true
    (fun n => match n with O => fun _ => mkExchange false false [] | _ => fun _ => mkExchange true true ex_socket end)
    (fun _ _ => #"u") 42.

(** The first attempt is refused, the second lands. *)
Lemma responses_send_lands_witness :
  let '(p', figLog', cache', bus, out) := ex_run in
  out = Done /\ length (Read figLog') = 2%nat /\
  match out with
  | Done => exists n, (n <= 1)%nat /\
              landed ex_figlog figLog' p' bus 42
                (match n with O => fun _ => mkExchange false false [] | _ => fun _ => mkExchange true true ex_socket end)
                (fun _ => #"u")
  | _ => Read figLog' = Read ex_figlog
  end.
Proof.
  assert (Hwf : log_wf ex_figlog).
  { eapply (law_Append_ok NewMemLog); [apply NewMemLog_wf|reflexivity]. }
  pose proof (responses_send_lands (C := MemLog (list gostr)) (fun _ => #"401 Unauthorized") ex_rp ex_figlog None
    (mkSendInput ∅ None [] 0) (fun _ => true) true
    (fun n => match n with O => fun _ => mkExchange false false [] | _ => fun _ => mkExchange true true ex_socket end)
    (fun _ _ => #"u") 42 Hwf) as H.
  unfold ex_run.
  destruct (SendResponses _ _ _ _ _ _ _ _ _ _) as [[[[p' l'] c'] calls] out] eqn:E.
  vm_compute in E. injection E as <- <- <- <- <-.
  split; [reflexivity|]. split; [reflexivity|exact H].
Defined.
