(* ===== verification/Copilot.v ===== *)
(** * provider/copilot: catalog, routing and the session token
    (src/internal/provider/copilot/copilot.go)

    The catalog the endpoint answers with and the exchange of a GitHub token
    for a session token are arguments of the operations that use them. *)

From S2P Require Import Prelude Utf8 GoStrings Json GoJson RawJson Message Chalkboard Reminder Store.
From S2P Require Import Projection Native NativeStream Responses.

(** type catalogModel: the fields read. *)
Record catalogModel := mkCatalog {
  cmID : gostr; cmName : gostr; cmPicker : bool; cmEndpoints : list gostr;
  cmDefaultPrompt : Z; cmLongPrompt : Z; cmWindow : Z; cmOutput : Z }.
Definition zero_catalog : catalogModel := mkCatalog [] [] false [] 0 0 0 0.

(** An object with one field. *)
Definition dec_one {T} (key : gostr) (d : decoder T) : decoder T :=
  dec_struct [fld key id (fun v _ => v) d].

Definition catalog_fields : fields catalogModel := [
  fld #"id" cmID (fun v m => mkCatalog v (cmName m) (cmPicker m) (cmEndpoints m) (cmDefaultPrompt m)
    (cmLongPrompt m) (cmWindow m) (cmOutput m)) dec_string;
  fld #"name" cmName (fun v m => mkCatalog (cmID m) v (cmPicker m) (cmEndpoints m) (cmDefaultPrompt m)
    (cmLongPrompt m) (cmWindow m) (cmOutput m)) dec_string;
  fld #"model_picker_enabled" cmPicker (fun v m => mkCatalog (cmID m) (cmName m) v (cmEndpoints m)
    (cmDefaultPrompt m) (cmLongPrompt m) (cmWindow m) (cmOutput m)) dec_bool;
  fld #"supported_endpoints" cmEndpoints (fun v m => mkCatalog (cmID m) (cmName m) (cmPicker m) v
    (cmDefaultPrompt m) (cmLongPrompt m) (cmWindow m) (cmOutput m)) (dec_slice [] dec_string);
  fld #"billing" (fun m => (cmDefaultPrompt m, cmLongPrompt m))
    (fun v m => mkCatalog (cmID m) (cmName m) (cmPicker m) (cmEndpoints m) v.1 v.2 (cmWindow m) (cmOutput m))
    (dec_one #"token_prices" (dec_struct [
      fld #"default" fst (fun v p => (v, p.2)) (dec_one #"max_prompt_tokens" dec_int);
      fld #"long_context" snd (fun v p => (p.1, v)) (dec_one #"max_prompt_tokens" dec_int) ]));
  fld #"capabilities" (fun m => (cmWindow m, cmOutput m))
    (fun v m => mkCatalog (cmID m) (cmName m) (cmPicker m) (cmEndpoints m) (cmDefaultPrompt m) (cmLongPrompt m) v.1 v.2)
    (dec_one #"limits" (dec_struct [
      fld #"max_context_window_tokens" fst (fun v p => (v, p.2)) dec_int;
      fld #"max_output_tokens" snd (fun v p => (p.1, v)) dec_int ])) ].

(** func catalogContextLimits *)
Definition catalogContextLimits (m : catalogModel) : responseContextLimits :=
  mkLimits (if cmDefaultPrompt m =? 0 then cmWindow m else cmDefaultPrompt m)
           (if cmLongPrompt m =? 0 then cmWindow m else cmLongPrompt m).

(** type modelRoute *)
Inductive modelRoute := modelRouteUnknown | modelRouteMessages | modelRouteResponses.

#[export] Instance modelRoute_eq_dec : EqDecision modelRoute.
Proof. solve_decision. Defined.

(** func isAnthropicModel *)
Definition isAnthropicModel (model : gostr) : bool := Contains (to_lower model) #"claude".

(** func routeForCatalogModel *)
Definition routeForCatalogModel (m : catalogModel) : modelRoute :=
  if existsb (fun e => Contains (to_lower e) #"responses") (cmEndpoints m) then modelRouteResponses
  else if existsb (fun e => Contains (to_lower e) #"messages") (cmEndpoints m) then modelRouteMessages
  else if isAnthropicModel (cmID m) then modelRouteMessages
  else modelRouteUnknown.

(** type Copilot: the model and the catalog (the transports are Sdk and Responses). *)
Record Copilot := mkCopilot { coModel : gostr; coCatalog : gmap gostr catalogModel }.

(** func (c *Copilot) fetchCatalog: the answer is the status and the body, or no
    answer; the state and the models listed. *)
Definition fetchCatalog (c : Copilot) (answer : option (Z * gostr)) : Copilot * option (list catalogModel) :=
  match answer with
  | None => (c, None)
  | Some (status, body) =>
      if negb (status =? 200) then (c, None) else
      let '(data, ok) := DecodeFirst (dec_one #"data" (dec_slice zero_catalog (dec_struct catalog_fields))) body [] in
      if negb ok then (c, None)
      else (mkCopilot (coModel c) (foldl (fun t m => <[cmID m := m]> t) ∅ data), Some data)
  end.

(** What both exits of routeForModel do with what the catalog knows. *)
Definition route_known (model : gostr) (entry : option catalogModel) : option modelRoute :=
  let fallback := if isAnthropicModel model then Some modelRouteMessages else None in
  match entry with
  | Some e => match routeForCatalogModel e with modelRouteUnknown => fallback | r => Some r end
  | None => fallback
  end.

(** func (c *Copilot) routeForModel; [None] is its error. *)
Definition routeForModel (c : Copilot) (model : gostr) (answer : option (Z * gostr))
  : Copilot * option modelRoute :=
  match coCatalog c !! model with
  | Some e => (c, route_known model (Some e))
  | None =>
      match fetchCatalog c answer with
      | (c, None) => (c, if isAnthropicModel model then Some modelRouteMessages else None)
      | (c, Some _) => (c, route_known model (coCatalog c !! model))
      end
  end.

(** func (c *Copilot) SetModel *)
Definition SetModel_copilot (c : Copilot) (model : gostr) : Copilot := mkCopilot model (coCatalog c).

(** The entry of a model, the zero one if it is unknown. *)
Definition catalog_entry (c : Copilot) (model : gostr) : catalogModel :=
  default zero_catalog (coCatalog c !! model).

(** func (c *Copilot) Fingerprint, given those of the transports. *)
Definition Fingerprint_copilot (c : Copilot) (responses messages : gostr) : gostr :=
  match routeForCatalogModel (catalog_entry c (coModel c)) with
  | modelRouteResponses => responses
  | _ => messages
  end.

(** The routing part of func (c *Copilot) Send: the model, the route and the
    Responses provider as prepared for it; [None] is an error. *)
Definition prepareSend (c : Copilot) (p : responsesProvider) (snap : snapshot) (answer : option (Z * gostr))
  : Copilot * option (modelRoute * responsesProvider) :=
  let model := or_default (responseString snap #"system.model") (coModel c) in
  let '(c, route) := routeForModel c model answer in
  (c, match route with
      | None => None
      | Some modelRouteResponses =>
          Some (modelRouteResponses,
                SetContextLimits (SetModel p model) model (catalogContextLimits (catalog_entry c model)))
      | Some r => Some (r, p)
      end).

(** type provider.ModelInfo, with the limits this provider fills. *)
Record ModelLimits := mkModelLimits { mlID : gostr; mlName : gostr; mlWindow : Z; mlMaxTokens : Z }.

(** func (c *Copilot) Models *)
Definition Models_copilot (c : Copilot) (answer : option (Z * gostr)) : Copilot * option (list ModelLimits) :=
  let '(c, catalog) := fetchCatalog c answer in
  (c, match catalog with
      | None => None
      | Some models => Some (omap (fun m =>
          if negb (cmPicker m) || bool_decide (routeForCatalogModel m = modelRouteUnknown) then None
          else Some (mkModelLimits (cmID m) (or_default (cmName m) (cmID m)) (cmWindow m) (cmOutput m))) models)
      end).

(** func contextLimitOverride *)
Definition contextLimitOverride (snap : snapshot) : option Z :=
  match snap !! #"system.max_context_tokens" with
  | None => None
  | Some raw => let '(limit, ok) := Unmarshal dec_int raw 0 in
                if negb ok || (limit <=? 0) then None else Some limit
  end.

(** func (c *Copilot) ContextLimit *)
Definition ContextLimit (c : Copilot) (model : gostr) (snap : snapshot) : Z :=
  let limit := match coCatalog c !! model with
    | Some entry =>
        let limits := catalogContextLimits entry in
        if bool_decide (responseString snap #"system.context_tier" = #"long_context") && (0 <? lmLong limits)
        then lmLong limits else lmDefault limits
    | None => 0
    end in
  match contextLimitOverride snap with
  | Some override => if (limit =? 0) || (override <? limit) then override else limit
  | None => limit
  end.

(** func baseURLFromToken *)
Definition baseURLFromToken (token enterpriseDomain : gostr) : gostr :=
  match Index token #"proxy-ep=" with
  | Some i =>
      let rest := drop (i + 9) token in
      let host := match Index rest [x3b] with Some e => take e rest | None => rest end in
      let host := if (6 <? length host)%nat && has_prefix host #"proxy."
                  then #"api." ++ drop 6 host else host in
      #"https://" ++ host
  | None =>
      if nonempty enterpriseDomain then #"https://copilot-api." ++ enterpriseDomain
      else #"https://api.individual.githubcopilot.com"
  end.

(** ** The session token *)

(** type CopilotTokenSource; times in nanoseconds. *)
Record tokenSource := mkTokens { tsToken : gostr; tsExpiresAt : Z }.

(** The parsed answer of exchangeCopilotToken: five minutes are kept back. *)
Definition exchanged (status : Z) (body : gostr) : option (gostr * Z) :=
  if negb (status =? 200) then None else
  let '(parsed, ok) := DecodeFirst (dec_struct [
      fld #"token" fst (fun v e => (v, e.2)) dec_string;
      fld #"expires_at" snd (fun v e => (e.1, v)) dec_int ]) body ([], 0) in
  if negb ok || bool_decide (parsed.1 = []) then None
  else Some (parsed.1, (parsed.2 - 5 * 60) * second).

(** func (s *CopilotTokenSource) Resolve: whether the GitHub token resolves, and
    the answer of the exchange. *)
Definition ResolveToken (s : tokenSource) (now : Z) (github : bool) (answer : option (Z * gostr))
  : tokenSource * option gostr :=
  if nonempty (tsToken s) && (now <? tsExpiresAt s) then (s, Some (tsToken s)) else
  if negb github then (s, None) else
  match answer with
  | None => (s, None)
  | Some (status, body) =>
      match exchanged status body with
      | None => (s, None)
      | Some (tok, exp) => (mkTokens tok exp, Some tok)
      end
  end.

(** The zero time.Time, before every other. *)
Definition zero_time : Z := - 62135596800 * second.

(** func (s *CopilotTokenSource) Invalidate *)
Definition InvalidateToken (s : tokenSource) (token : gostr) : tokenSource :=
  if bool_decide (tsToken s = token) then mkTokens [] zero_time else s.

(** ** The limit shown is the limit enforced *)

Lemma optional_null snap key raw : snap !! key = Some raw -> raw <> #"null" ->
  optional dec_int 0 snap key = let '(v, ok) := Unmarshal dec_int raw 0 in if ok then Some (Some v) else None.
Proof. intros H Hn. unfold optional. by rewrite H, bool_decide_eq_false_2. Qed.

(** The override ContextLimit reads is the limit validateContext reads. *)
Lemma override_requested snap requested :
  responseOptionalInt snap #"system.max_context_tokens" = Some requested ->
  contextLimitOverride snap = match requested with Some z => if z <=? 0 then None else Some z | None => None end.
Proof.
  unfold responseOptionalInt, contextLimitOverride, optional.
  destruct (snap !! _) as [raw|]; [|by intros [= <-]].
  case_bool_decide as E; [subst raw; by intros [= <-]|].
  destruct (Unmarshal dec_int raw 0) as [v [|]]; [|done]. by intros [= <-].
Qed.

Lemma tier_read snap opts : responseOptionsFor snap = inl opts ->
  opContextTier opts = responseString snap #"system.context_tier".
Proof.
  unfold responseOptionsFor. intros H.
  destruct (ok_or _ (responseOptionalBool _ _)) as [par|]; [|done]. cbn [bind] in H.
  destruct (word_option snap #"system.context_tier" _) as [tier|] eqn:Et; [|done]. cbn [bind] in H.
  assert (Htier : tier = responseString snap #"system.context_tier").
  { unfold word_option, responseOptionalString, optional, responseString in *.
    destruct (snap !! #"system.context_tier") as [raw|]; [|vm_compute in Et; by injection Et as <-].
    case_bool_decide as E.
    - subst raw. vm_compute in Et. injection Et as <-. vm_compute. reflexivity.
    - destruct (Unmarshal dec_string raw []) as [v [|]]; cbn in Et; [|done].
      destruct (_ || _); [|done]. by injection Et as <-. }
  rewrite <- Htier. repeat match goal with
  | H : bind ?r _ = inl _ |- _ => destruct r; [|done]; cbn [bind] in H
  end.
  repeat case_match; simplify_eq; done.
Qed.

(** Once a prompt has been routed to the Responses transport, a prompt that
    validateContext lets through never exceeds the limit ContextLimit reports
    for the model and the same settings (when it reports one), whatever the
    context tier, the override and the catalog's numbers. *)
Theorem copilot_context_limit (c c' : Copilot) (p p' : responsesProvider) (snap : snapshot)
    (answer : option (Z * gostr)) (opts : responseRequestOptions) (entries : list (Entry Message))
    (Hmodel : rpModel p' <> [])
    (Hroute : prepareSend c p snap answer = (c', Some (modelRouteResponses, p')))
    (Hopts : responseOptionsFor snap = inl opts)
    (Hvalid : validateContext p' entries snap (rpModel p') (opContextTier opts) = None)
    (Hlimit : 0 < ContextLimit c' (rpModel p') snap) :
  fst (contextSizeForLog entries) <= ContextLimit c' (rpModel p') snap.
Proof.
  unfold prepareSend in Hroute. set (model := or_default _ (coModel c)) in Hroute.
  destruct (routeForModel c model answer) as [c1 route]. injection Hroute as <- Hr.
  destruct route as [[| |]|]; try done. injection Hr as <-.
  set (limits := catalogContextLimits (catalog_entry c1 model)) in *.
  set (p1 := SetContextLimits (SetModel p model) model limits) in *.
  assert (Hm : rpModel p1 = model) by (subst p1; unfold SetContextLimits; by case_bool_decide).
  rewrite Hm in *.
  assert (Hl : default (mkLimits 0 0) (rpLimits p1 !! model) = limits).
  { subst p1. unfold SetContextLimits. case_bool_decide; [done|]. cbn. by rewrite lookup_insert_eq. }
  rewrite (tier_read _ _ Hopts) in Hvalid.
  unfold validateContext in Hvalid. rewrite Hl in Hvalid.
  destruct (responseOptionalInt _ _) as [requested|] eqn:Er; [|done].
  unfold ContextLimit in *. rewrite (override_requested _ _ Er) in *.
  assert (Hc : forall (f : responseContextLimits -> Z), f (mkLimits 0 0) = 0 ->
    match coCatalog c1 !! model with Some e => f (catalogContextLimits e) | None => 0 end = f limits).
  { intros f Hf. subst limits. unfold catalog_entry. by destruct (coCatalog c1 !! model). }
  set (tier := bool_decide (responseString snap #"system.context_tier" = #"long_context")) in *.
  rewrite (Hc (fun l => if tier && (0 <? lmLong l) then lmLong l else lmDefault l)) in *
    by (cbn; by rewrite andb_false_r).
  cbv beta in *. set (limit := if tier && (0 <? lmLong limits) then lmLong limits else lmDefault limits) in *.
  clearbody limit. clear Hc Hl.
  set (used := fst (contextSizeForLog entries)) in *. clearbody used.
  destruct requested as [z|]; cbn [default Datatypes.id andb negb] in Hvalid.
  - destruct (z <=? 0) eqn:Ez; [done|]. bool_hyps. rewrite (proj2 (Z.ltb_lt 0 z)) in Hvalid by lia.
    cbn [andb] in Hvalid.
    destruct (0 <? limit) eqn:E1, (limit <? z) eqn:E2; cbn [andb] in Hvalid; try done;
      destruct (z <? used) eqn:E3; try done; bool_hyps;
      destruct (limit =? 0) eqn:E4, (z <? limit) eqn:E5; cbn [orb] in *; bool_hyps; lia.
  - change (0 <? 0) with false in Hvalid. cbn [andb] in Hvalid.
    destruct (limit =? 0) eqn:E1; bool_hyps; [lia|]. destruct (limit <? used) eqn:E2; [done|]. bool_hyps. lia.
Qed.

(** ** Witness *)

Definition ex_catalog : gostr :=
  js "{'data':[{'id':'gpt-x','supported_endpoints':['/responses'],'billing':{'token_prices':{'default':{'max_prompt_tokens':100},'long_context':{'max_prompt_tokens':900}}}}]}".
Definition ex_settings : snapshot :=
  {[ #"system.model" := js "'gpt-x'"; #"system.context_tier" := js "'long_context'";
     #"system.max_context_tokens" := js "500" ]}.
Definition ex_entries : list (Entry Message) :=
  [mkEntry 1 1 (mkMessage RoleAssistant [] [] (Some (mkUsage 400 50 0 0)) [] [] [] 1 0) []].
Definition ex_routed :=
  prepareSend (mkCopilot [] ∅) (mkRP [] 0 None None [] ∅) ex_settings (Some (200, ex_catalog)).
Definition ex_copilot : Copilot := fst ex_routed.
Definition ex_prepared : responsesProvider :=
  match snd ex_routed with Some (_, p) => p | None => mkRP [] 0 None None [] ∅ end.
Definition ex_options : responseRequestOptions :=
  mkOptions #"long_context" true None None None None.

Lemma copilot_context_limit_witness :
  ContextLimit ex_copilot (rpModel ex_prepared) ex_settings = 500 /\
  fst (contextSizeForLog ex_entries) <= ContextLimit ex_copilot (rpModel ex_prepared) ex_settings.
Proof.
  split; [vm_compute; reflexivity|].
  apply (copilot_context_limit (mkCopilot [] ∅) ex_copilot (mkRP [] 0 None None [] ∅) ex_prepared ex_settings
    (Some (200, ex_catalog)) ex_options ex_entries); [vm_compute; discriminate|vm_compute; reflexivity..].
Defined.
