(* ===== verification/Compose.v ===== *)
(** * compose: from the messages of a turn to the nodes a client shows
    (src/internal/compose/compose.go). *)

From S2P Require Import Prelude Json Utf8 GoStrings Livedoc Message PartialJson.

(** ** Definitions *)

(** func nodeID *)
Definition nodeID (lt : Z) (blockIdx : nat) : gostr :=
  itoa lt ++ #"." ++ itoa (Z.of_nat blockIdx).

Definition composeBashCap : nat := 200.

Record ToolTiming := mkTiming { tStartedAt : Z; tFinishedAt : Z }.

(** func messageText *)
Definition messageText (m : Message) : gostr :=
  Join [LF] (map cText (List.filter (fun c =>
    bool_decide (cType c = ContentProse) && negb (bool_decide (TrimSpace (cText c) = [])))
    (mContent m))).

(** func hasToolResult *)
Definition hasToolResult (m : Message) : bool :=
  existsb (fun c => bool_decide (cType c = ContentToolResult)) (mContent m).

(** func indexResults *)
Definition index_content (out : gmap gostr Content) (c : Content) : gmap gostr Content :=
  if bool_decide (cType c = ContentToolResult) && negb (bool_decide (cToolCallID c = []))
  then <[cToolCallID c := c]> out else out.
Definition indexResults (msgs : list Message) : gmap gostr Content :=
  foldl (fun out m => foldl index_content out (mContent m)) ∅ msgs.

(** func tailBound *)
Definition tailBound (text : gostr) : gostr :=
  if bool_decide (text = []) then [] else
  let lines := SplitByte LF (TrimRightByte text LF) in
  let lines := if (composeBashCap <? length lines)%nat
               then drop (length lines - composeBashCap) lines else lines in
  Join [LF] lines.

(** Distinct literals. *)
Ltac lit_neq' := let H := fresh in intros H; vm_compute in H; discriminate H.

Section compose.
  (** The tools' hooks (None: nil), and how fmt prints an argument (its verb v). *)
  Context (summarize : option (gostr -> option object -> gostr)).
  Context (previewArg : option (gostr -> gostr)).
  Context (show_value : option json -> gostr).

(** func summaryFor *)
Definition summaryFor (name : gostr) (args : option object) : gostr :=
  let s := match summarize with Some f => f name args | None => [] end in
  if negb (bool_decide (s = [])) then s else
  let m := default [] args in
  Join #" " (map (fun k => k ++ #"=" ++ show_value (snd <$> List.find (fun kv => bool_decide (fst kv = k)) m))
    (sort_strings (map fst m))).

(** The output a tool node shows while it runs. *)
Definition runningOutput (name id : gostr) (partials argPartials : gmap gostr gostr) : gostr :=
  let out := tailBound (default [] (partials !! id)) in
  if negb (bool_decide (out = [])) then out else
  match previewArg with
  | None => out
  | Some pf =>
      let pa := pf name in
      let raw := default [] (argPartials !! id) in
      if bool_decide (pa = []) || bool_decide (raw = []) then out
      else tailBound (fst (StringField raw pa))
  end.

(** func toolNode *)
Definition toolNode (inv : Content) (results : gmap gostr Content)
    (partials argPartials : gmap gostr gostr) (timings : gmap gostr ToolTiming) : Node :=
  let name := if bool_decide (cToolName inv = []) then #"tool" else cToolName inv in
  let id := cToolCallID inv in
  let t := default (mkTiming 0 0) (timings !! id) in
  let '(status, output) :=
    match results !! id with
    | Some res => (if cIsError res then StatusError else StatusOK, tailBound (cText res))
    | None => (StatusRunning, runningOutput name id partials argPartials)
    end in
  mkNode NodeTool 0 [] id name (cArguments inv) status output
    (summaryFor name (cArguments inv)) (tStartedAt t) (tFinishedAt t).

(** A text block as a node; blank text makes none. *)
Definition textNode (lt : Z) (ci : nat) (typ : gostr) (c : Content) : list Node :=
  if bool_decide (TrimSpace (cText c) = []) then []
  else [mkNode typ 0 (TrimRightByte (cText c) LF) (nodeID lt ci) [] None [] [] [] 0 0].

(** The nodes of one content block of a message. *)
Definition blockNodes (results : gmap gostr Content) (partials argPartials : gmap gostr gostr)
    (timings : gmap gostr ToolTiming) (m : Message) (ci : nat) (c : Content) : list Node :=
  if bool_decide (mRole m = RoleUser) then
    if hasToolResult m && bool_decide (cType c = ContentProse)
    then textNode (mLogicalTime m) ci NodeSteering c else []
  else if bool_decide (mRole m = RoleAssistant) then
    if bool_decide (cType c = ContentProse) then textNode (mLogicalTime m) ci NodeProse c
    else if bool_decide (cType c = ContentThinking) then textNode (mLogicalTime m) ci NodeThinking c
    else if bool_decide (cType c = ContentToolInvoke) then
      [toolNode c results partials argPartials timings]
    else []
  else [].

Definition messageNodes (results : gmap gostr Content) (partials argPartials : gmap gostr gostr)
    (timings : gmap gostr ToolTiming) (m : Message) : list Node :=
  concat (imap (blockNodes results partials argPartials timings m) (mContent m)).

(** func Nodes *)
Definition Nodes (msgs : list Message) (partials argPartials : gmap gostr gostr)
    (timings : gmap gostr ToolTiming) : list Node :=
  concat (map (messageNodes (indexResults msgs) partials argPartials timings) msgs).

Record Unit := mkUnit { uRole : gostr; uNodes : list Node; uLT : Z }.

(** The closure flush of func Units. *)
Definition flush (units : list Unit) (group : list Message) : list Unit :=
  match Nodes group ∅ ∅ ∅, last group with
  | [], _ | _, None => units
  | nodes, Some m => units ++ [mkUnit #"assistant" nodes (mLogicalTime m)]
  end.

Definition prose_node (md : gostr) : Node := mkNode NodeProse 0 md [] [] None [] [] [] 0 0.

(** One iteration of func Units. *)
Definition units_step (st : list Unit * list Message) (m : Message) : list Unit * list Message :=
  let '(units, group) := st in
  if bool_decide (mRole m = RoleUser) && negb (hasToolResult m) &&
     negb (bool_decide (messageText m = []))
  then (flush units group ++ [mkUnit #"user" [prose_node (messageText m)] (mLogicalTime m)], [m])
  else (units, group ++ [m]).

(** func Units *)
Definition Units (msgs : list Message) : list Unit :=
  let '(units, group) := foldl units_step ([], []) msgs in flush units group.

(** ** Lemmas *)

(** What of a node does not change while its tool runs. *)
Definition frame (n : Node) : Node :=
  mkNode (nType n) (nVersion n) (nMarkdown n) (nID n) (nName n) (nArgs n) [] [] (nSummary n) 0 0.

Lemma frame_tool inv r p a t r' p' a' t' :
  frame (toolNode inv r p a t) = frame (toolNode inv r' p' a' t').
Proof using. unfold toolNode. destruct (r !! _), (r' !! _); done. Qed.

Lemma concat_imap_ext {A B D} (h : B -> D) (f g : nat -> A -> list B) l :
  (forall i x, map h (f i x) = map h (g i x)) ->
  map h (concat (imap f l)) = map h (concat (imap g l)).
Proof using.
  revert f g. induction l as [|x l IH]; intros f g H; [done|].
  rewrite !imap_cons. cbn [concat]. rewrite !map_app, H. f_equal. apply IH. intros i y. apply H.
Qed.

Lemma frame_message m r p a t r' p' a' t' :
  map frame (messageNodes r p a t m) = map frame (messageNodes r' p' a' t' m).
Proof using.
  apply concat_imap_ext. intros i c. unfold blockNodes.
  repeat case_bool_decide; try done. cbn [map]. by rewrite (frame_tool _ r p a t r' p' a' t').
Qed.

Lemma frame_nodes msgs r p a t r' p' a' t' :
  map frame (concat (map (messageNodes r p a t) msgs)) =
  map frame (concat (map (messageNodes r' p' a' t') msgs)).
Proof using.
  induction msgs as [|m msgs IH]; [done|]. cbn [map concat].
  by rewrite !map_app, IH, (frame_message m r p a t r' p' a' t').
Qed.

(** ** Properties *)

(** The node list of a turn is append-only: whatever messages are added to
    the turn (a tool result, another assistant message, a steering text), and
    whatever has streamed meanwhile, the nodes already shown keep their place,
    id, type, text, name, arguments and summary; only a tool's status, output
    and times change. *)
Theorem compose_append_only (msgs more : list Message)
    (p a p' a' : gmap gostr gostr) (t t' : gmap gostr ToolTiming) :
  map frame (Nodes msgs p a t) `prefix_of` map frame (Nodes (msgs ++ more) p' a' t').
Proof using.
  unfold Nodes. rewrite map_app, concat_app, map_app.
  rewrite (frame_nodes msgs (indexResults msgs) p a t (indexResults (msgs ++ more)) p' a' t').
  by eexists.
Qed.

(** The results of a turn, in order. *)
Definition all_results (msgs : list Message) : list Content :=
  List.filter (fun c => bool_decide (cType c = ContentToolResult)) (concat (map mContent msgs)).

(** The last result for a call id. *)
Definition last_result (msgs : list Message) (id : gostr) : option Content :=
  List.find (fun c => bool_decide (cToolCallID c = id)) (rev (all_results msgs)).

Lemma index_fold (l : list Content) (out : gmap gostr Content) id :
  id <> [] ->
  foldl index_content out l !! id =
  match List.find (fun c => bool_decide (cToolCallID c = id))
    (rev (List.filter (fun c => bool_decide (cType c = ContentToolResult)) l)) with
  | Some c => Some c
  | None => out !! id
  end.
Proof using.
  intros Hid. revert out. induction l as [|c l IH] using rev_ind; intros out; [done|].
  rewrite foldl_app, List.filter_app, rev_app_distr. cbn [foldl List.filter].
  unfold index_content at 1. destruct (bool_decide (cType c = ContentToolResult)); cbn [andb]; [|apply IH].
  cbn. case_bool_decide as He.
  - cbn. rewrite bool_decide_eq_false_2 by congruence. apply IH.
  - cbn. case_bool_decide as Hc.
    + by rewrite Hc, lookup_insert_eq.
    + rewrite lookup_insert_ne by done. apply IH.
Qed.

Lemma indexResults_spec msgs id : id <> [] -> indexResults msgs !! id = last_result msgs id.
Proof using.
  intros Hid. unfold indexResults, last_result, all_results.
  assert (foldl (fun out m => foldl index_content out (mContent m)) ∅ msgs =
          foldl index_content ∅ (concat (map mContent msgs))) as ->.
  { generalize (∅ : gmap gostr Content). induction msgs as [|m msgs IH]; intros out; [done|].
    cbn. by rewrite foldl_app, IH. }
  rewrite index_fold by done. by destruct (List.find _ _).
Qed.

(** The tool calls of the assistant messages, in order. *)
Definition turn_invokes (msgs : list Message) : list Content :=
  List.filter (fun c => bool_decide (cType c = ContentToolInvoke))
    (concat (map mContent (List.filter (fun m => bool_decide (mRole m = RoleAssistant)) msgs))).

Definition is_tool (n : Node) : bool := bool_decide (nType n = NodeTool).

Definition status_of (res : option Content) : gostr :=
  match res with
  | Some c => if cIsError c then StatusError else StatusOK
  | None => StatusRunning
  end.

Lemma message_tools r p a t m :
  List.filter is_tool (messageNodes r p a t m) =
  if bool_decide (mRole m = RoleAssistant)
  then map (fun c => toolNode c r p a t)
         (List.filter (fun c => bool_decide (cType c = ContentToolInvoke)) (mContent m))
  else [].
Proof using.
  unfold messageNodes.
  assert (forall typ lt ci c, typ <> NodeTool -> List.filter is_tool (textNode lt ci typ c) = []) as Htext.
  { intros typ lt ci c Hne. unfold textNode. case_bool_decide; [done|]. cbn. unfold is_tool. cbn.
    by rewrite bool_decide_eq_false_2. }
  assert (forall i l, List.filter is_tool (concat (imap (fun j => blockNodes r p a t m (i + j)) l)) =
    if bool_decide (mRole m = RoleAssistant)
    then map (fun c => toolNode c r p a t)
           (List.filter (fun c => bool_decide (cType c = ContentToolInvoke)) l)
    else []) as H; [|apply (H 0%nat)].
  intros i l. revert i. induction l as [|c l IH]; intros i.
  { by destruct (bool_decide _). }
  rewrite imap_cons. cbn [concat List.filter]. rewrite List.filter_app.
  pose proof (IH (S i)) as Hl.
  assert (imap ((fun j => blockNodes r p a t m (i + j)) ∘ S) l =
          imap (fun j => blockNodes r p a t m (S i + j)) l) as ->.
  { apply imap_ext. intros j x _. cbn. f_equal. lia. }
  rewrite Hl. clear Hl IH. unfold blockNodes at 1.
  case_bool_decide as Hu.
  { rewrite (bool_decide_eq_false_2 (mRole m = RoleAssistant)) by (rewrite Hu; lit_neq').
    case_match; [|done]. rewrite Htext; [done|lit_neq']. }
  case_bool_decide as Ha; [|done].
  case_bool_decide as H1.
  { rewrite Htext by lit_neq'. rewrite bool_decide_eq_false_2 by (rewrite H1; lit_neq'). done. }
  case_bool_decide as H2.
  { rewrite Htext by lit_neq'. rewrite bool_decide_eq_false_2 by (rewrite H2; lit_neq'). done. }
  case_bool_decide as H3; [|done]. cbn [List.filter map].
  assert (is_tool (toolNode c r p a t) = true) as ->.
  { unfold is_tool, toolNode. by destruct (r !! _). }
  done.
Qed.

(** Tool results fold under their calls: the tool nodes of a turn are its
    assistant messages' tool calls, in order, each with the call's id and the
    status of the last result for that id (running while there is none); a
    result never makes a node of its own. *)
Theorem compose_tool_nodes (msgs : list Message) (p a : gmap gostr gostr) (t : gmap gostr ToolTiming)
    (Hids : Forall (fun c => cToolCallID c <> []) (turn_invokes msgs)) :
  map (fun n => (nID n, nStatus n)) (List.filter is_tool (Nodes msgs p a t)) =
  map (fun c => (cToolCallID c, status_of (last_result msgs (cToolCallID c)))) (turn_invokes msgs).
Proof using.
  unfold Nodes. set (r := indexResults msgs).
  assert (forall l, List.filter is_tool (concat (map (messageNodes r p a t) l)) =
    map (fun c => toolNode c r p a t) (turn_invokes l)) as ->.
  { intros l. induction l as [|m l IH]; [done|]. cbn [map concat]. rewrite List.filter_app, IH, message_tools.
    unfold turn_invokes. cbn [List.filter]. destruct (bool_decide (mRole m = RoleAssistant)); [|done].
    cbn [map concat]. by rewrite List.filter_app, map_app. }
  rewrite map_map. apply map_ext_in. intros c Hc%list_elem_of_In.
  rewrite Forall_forall in Hids. apply Hids in Hc.
  unfold toolNode, r. rewrite indexResults_spec by done.
  destruct (last_result msgs (cToolCallID c)); done.
Qed.

(** The lines of a text. *)
Definition line_count (s : gostr) : nat := length (SplitByte LF s).

(** The output a tool node carries is bounded: a suffix of the text (without
    its trailing newlines) of at most [composeBashCap] lines, all of it when it
    has no more. *)
Theorem compose_tail_bound (text : gostr) :
  (line_count (tailBound text) <= composeBashCap)%nat /\
  (exists cut, TrimRightByte text LF = cut ++ tailBound text) /\
  ((line_count (TrimRightByte text LF) <= composeBashCap)%nat -> tailBound text = TrimRightByte text LF).
Proof using.
  unfold tailBound. case_bool_decide as He.
  { subst. split; [unfold line_count, composeBashCap; cbn; lia|]. split; [by exists []|done]. }
  set (s := TrimRightByte text LF). set (ls := SplitByte LF s).
  pose proof (Split_pieces LF s) as Hp. pose proof (Join_Split LF s) as Hj. fold ls in Hp, Hj.
  destruct (Nat.ltb_spec composeBashCap (length ls)) as [Hlt|Hge].
  - set (k := (length ls - composeBashCap)%nat).
    assert (drop k ls <> []) as Hne.
    { intros E. apply (f_equal length) in E. rewrite length_drop in E. subst k. unfold composeBashCap in *.
      cbn in E. lia. }
    split; [|split].
    + unfold line_count. rewrite Split_Join by (done || by apply Forall_drop).
      rewrite length_drop. subst k. lia.
    + exists (Join [LF] (take k ls) ++ [LF]). rewrite <- Hj, <- app_assoc.
      rewrite <- (take_drop k ls) at 1.
      assert (take k ls <> []) as Hne'.
      { intros E. apply (f_equal length) in E. rewrite length_take in E. cbn in E.
        subst k. unfold composeBashCap in *. lia. }
      revert Hne'. generalize (take k ls). intros pre Hpre.
      induction pre as [|l pre IH]; [done|]. destruct pre as [|l2 pre].
      * cbn [app]. rewrite Join_cons by done. reflexivity.
      * change ((l :: l2 :: pre) ++ drop k ls) with (l :: (l2 :: pre) ++ drop k ls).
        rewrite Join_cons, IH by done. rewrite (Join_cons _ l) by done. by rewrite <- !app_assoc.
    + intros Hle. unfold line_count in Hle. fold ls in Hle. lia.
  - rewrite Hj. split; [unfold line_count; fold ls; lia|]. split; [by exists []|done].
Qed.

Lemma units_fold l units group :
  foldl units_step (units, group) l =
  let '(us, g) := foldl units_step ([], group) l in (units ++ us, g).
Proof using.
  revert units group. induction l as [|m l IH]; intros units group; cbn [foldl].
  { by rewrite app_nil_r. }
  unfold units_step at 2 4. destruct (_ && _ && _).
  - rewrite IH, (IH (flush [] group ++ _)). destruct (foldl units_step ([], [m]) l) as [us g].
    assert (flush units group = units ++ flush [] group) as ->.
    { unfold flush. destruct (Nodes _ _ _ _), (last group); by rewrite ?app_nil_r. }
    by rewrite <- !app_assoc.
  - rewrite IH. by destruct (foldl units_step ([], group ++ [m]) l).
Qed.

Lemma flush_app units group : flush units group = units ++ flush [] group.
Proof using. unfold flush. destruct (Nodes _ _ _ _), (last group); by rewrite ?app_nil_r. Qed.

(** A prompt: a user message with text and no tool result. *)
Definition is_prompt (m : Message) : bool :=
  bool_decide (mRole m = RoleUser) && negb (hasToolResult m) && negb (bool_decide (messageText m = [])).

(** History is stable: a prompt starts a unit of its own and never changes
    the units before it, so the units of a log that goes on with a prompt are
    the units so far followed by those of the rest (their numbering, which the
    clients use as LTs, does not move). *)
Theorem compose_units_split (l1 l2 : list Message) (m : Message) (Hm : is_prompt m = true) :
  Units (l1 ++ m :: l2) = Units l1 ++ Units (m :: l2) /\
  exists rest, Units (m :: l2) = mkUnit #"user" [prose_node (messageText m)] (mLogicalTime m) :: rest.
Proof using.
  assert (forall units group, units_step (units, group) m =
    (flush units group ++ [mkUnit #"user" [prose_node (messageText m)] (mLogicalTime m)], [m])) as Hstep.
  { intros units group. unfold units_step. unfold is_prompt in Hm. by rewrite Hm. }
  unfold Units. rewrite foldl_app. destruct (foldl units_step ([], []) l1) as [u1 g1].
  cbn [foldl]. rewrite !Hstep. change (flush [] []) with (@nil Unit). cbn [app].
  rewrite (units_fold l2 (flush u1 g1 ++ _)), (units_fold l2 [_]).
  destruct (foldl units_step ([], [m]) l2) as [us g]. split.
  - rewrite (flush_app _ g), (flush_app (_ ++ us) g). by rewrite !app_assoc.
  - rewrite flush_app. cbn [app]. by eexists.
Qed.

End compose.

(** ** Witnesses: a prompt, a call with its result, a call still running *)

Definition ex_invoke (id : gostr) : Content :=
  mkContent ContentToolInvoke [] [] [] id #"bash" (Some [(#"command", JStr #"ls")]) false [].
Definition ex_msg (role : gostr) (cs : list Content) (lt : Z) : Message :=
  mkMessage role cs [] None [] [] [] lt 0.
Definition ex_turn : list Message :=
  [ex_msg RoleUser [TextContent #"hi"] 1;
   ex_msg RoleAssistant [TextContent #"ok"; ex_invoke #"t1"; ex_invoke #"t2"] 2;
   ex_msg RoleUser [ToolResultContent #"t1" #"bash" #"out" true] 3].
Definition ex_show (_ : option json) : gostr := #"?".

Lemma compose_tool_nodes_witness :
  map (fun n => (nID n, nStatus n)) (List.filter is_tool (Nodes None None ex_show ex_turn ∅ ∅ ∅)) =
  [(#"t1", StatusError); (#"t2", StatusRunning)].
Proof.
  transitivity (map (fun c => (cToolCallID c, status_of (last_result ex_turn (cToolCallID c))))
    (turn_invokes ex_turn)); [|by vm_compute].
  apply (compose_tool_nodes None None ex_show ex_turn ∅ ∅ ∅).
  repeat constructor; cbn; intros H; vm_compute in H; discriminate H.
Defined.

Lemma compose_units_split_witness :
  Units None None ex_show (ex_turn ++ ex_msg RoleUser [TextContent #"next"] 4 :: []) =
  Units None None ex_show ex_turn ++
  Units None None ex_show [ex_msg RoleUser [TextContent #"next"] 4].
Proof.
  exact (proj1 (compose_units_split None None ex_show ex_turn [] (ex_msg RoleUser [TextContent #"next"] 4) eq_refl)).
Defined.
