(* ===== verification/Toolout.v ===== *)
(** * toolout: the bounded tail of streamed tool output
    (src/internal/toolout/governor.go). *)

From S2P Require Import Prelude GoStrings.

(** ** Definitions *)

Definition defaultMaxLines : Z := 10.

Record Governor := mkGovernor { maxLines : Z; tails : gmap gostr gostr; dirty : bool }.

(** func New *)
Definition New (maxLines : Z) : Governor :=
  mkGovernor (if maxLines <=? 0 then defaultMaxLines else maxLines) ∅ false.

(** The loop of func clampTail: skip that many newlines; None is the early
    return of the empty string. *)
Fixpoint skip_lines (skip : nat) (s : gostr) : option gostr :=
  match skip with
  | O => Some s
  | S skip' => match IndexByte s LF with None => None | Some j => skip_lines skip' (drop (S j) s) end
  end.

(** func clampTail *)
Definition clampTail (s : gostr) (n : Z) : gostr :=
  if bool_decide (s = []) then s else
  let newlines := CountByte s LF in
  let lineCount := if HasSuffixByte s LF then newlines else S newlines in
  if Z.of_nat lineCount <=? n then s
  else default [] (skip_lines (lineCount - Z.to_nat n) s).

(** func (g *Governor) Feed *)
Definition Feed (g : Governor) (key chunk : gostr) : Governor :=
  if bool_decide (chunk = []) then g else
  mkGovernor (maxLines g)
    (<[key := clampTail (default [] (tails g !! key) ++ chunk) (maxLines g)]> (tails g)) true.

(** func (g *Governor) Tail, Tails, Dirty, ClearDirty, Drop *)
Definition Tail (g : Governor) (key : gostr) : gostr := default [] (tails g !! key).
Definition Tails (g : Governor) : gmap gostr gostr := tails g.
Definition Dirty (g : Governor) : bool := dirty g.
Definition ClearDirty (g : Governor) : Governor := mkGovernor (maxLines g) (tails g) false.
Definition Drop (g : Governor) (key : gostr) : Governor :=
  mkGovernor (maxLines g) (delete key (tails g)) (dirty g).

(** ** Lemmas *)

(** The last [n] lines. *)
Definition last_lines (s : gostr) (n : nat) : gostr :=
  concat (drop (length (lines LF s) - n) (lines LF s)).

Lemma IndexByte_lines s :
  match lines LF s with
  | [] => IndexByte s LF = None
  | l :: ls =>
      match IndexByte s LF with
      | Some j => length l = S j /\ s = l ++ drop (S j) s /\ lines LF (drop (S j) s) = ls
      | None => ls = []
      end
  end.
Proof.
  induction s as [|x s IH]; [done|]. cbn [lines IndexByte]. destruct (Byte.eqb LF x) eqn:E.
  - split_and!; rewrite ?drop_0; done.
  - destruct (lines LF s) as [|l ls] eqn:El.
    + apply lines_nil in El. by subst.
    + destruct (IndexByte s LF) as [j|]; cbn [fmap option_fmap option_map]; [|by subst ls].
      destruct IH as (H1 & H2 & H3). cbn [length drop app].
      split; [lia|]. split; [|done]. by rewrite <- H2.
Qed.

Lemma skip_lines_spec k s :
  (k < length (lines LF s))%nat -> skip_lines k s = Some (concat (drop k (lines LF s))).
Proof.
  revert s. induction k as [|k IH]; intros s Hk; cbn.
  { by rewrite drop_0, lines_concat. }
  pose proof (IndexByte_lines s) as H. destruct (lines LF s) as [|l ls]; [cbn in Hk; lia|].
  cbn in Hk. destruct (IndexByte s LF) as [j|].
  - destruct H as (_ & _ & Hls). rewrite IH by (rewrite Hls; lia). by rewrite Hls.
  - subst ls. cbn in Hk. lia.
Qed.

Lemma clampTail_spec s n : 0 < n -> clampTail s n = last_lines s (Z.to_nat n).
Proof.
  intros Hn. unfold clampTail, last_lines. case_bool_decide as He; [by subst|].
  pose proof (lines_count LF s) as Hc. rewrite (bool_decide_eq_false_2 _ He), orb_false_r in Hc.
  assert ((if HasSuffixByte s LF then CountByte s LF else S (CountByte s LF)) = length (lines LF s)) as ->
    by (destruct (HasSuffixByte s LF); lia).
  destruct (Z.leb_spec (Z.of_nat (length (lines LF s))) n).
  - replace (_ - _)%nat with 0%nat by lia. by rewrite drop_0, lines_concat.
  - rewrite skip_lines_spec by lia. done.
Qed.

Lemma lines_drop k s : lines LF (concat (drop k (lines LF s))) = drop k (lines LF s).
Proof.
  revert s. induction k as [|k IH]; intros s.
  { by rewrite drop_0, lines_concat. }
  pose proof (IndexByte_lines s) as H. destruct (lines LF s) as [|l ls] eqn:El; [done|].
  cbn [drop]. destruct (IndexByte s LF) as [j|].
  - destruct H as (_ & _ & <-). apply IH.
  - subst ls. by destruct k.
Qed.

(** Dropping early lines first does not change the last ones. *)
Lemma last_lines_app s t n :
  (0 < n)%nat -> last_lines (last_lines s n ++ t) n = last_lines (s ++ t) n.
Proof.
  intros Hn. unfold last_lines at 2. set (k := (length (lines LF s) - n)%nat).
  destruct (decide (k = 0%nat)) as [E|Hk].
  { rewrite E, drop_0, lines_concat. done. }
  set (a := concat (take k (lines LF s))). set (b := concat (drop k (lines LF s))).
  assert (s = a ++ b) as Hs.
  { unfold a, b. by rewrite <- concat_app, take_drop, lines_concat. }
  assert (a = [] \/ last a = Some LF) as Ha by (apply lines_take_last; lia).
  assert (length (lines LF b) = n) as Hb by (unfold b; rewrite lines_drop, length_drop; lia).
  rewrite Hs, <- app_assoc. unfold last_lines. rewrite (lines_app _ a) by done.
  pose proof (lines_len_app LF b t). rewrite length_app, drop_app_ge by lia.
  do 2 f_equal. lia.
Qed.

Fixpoint feed_all (g : Governor) (key : gostr) (chunks : list gostr) : Governor :=
  match chunks with [] => g | c :: chunks' => feed_all (Feed g key c) key chunks' end.

Lemma feed_limit g key chunk : maxLines (Feed g key chunk) = maxLines g.
Proof. unfold Feed. by case_bool_decide. Qed.

Lemma feed_all_tail n key acc chunks g :
  maxLines g = n -> 0 < n -> Tail g key = clampTail acc n ->
  Tail (feed_all g key chunks) key = clampTail (acc ++ concat chunks) n.
Proof.
  intros Hg Hn. revert g acc Hg. induction chunks as [|c chunks IH]; intros g acc Hg Ht.
  { cbn. by rewrite app_nil_r. }
  cbn [feed_all concat]. rewrite app_assoc. apply IH; [by rewrite feed_limit|].
  unfold Feed. case_bool_decide as Hc; [subst c; by rewrite app_nil_r|].
  unfold Tail. cbn. rewrite lookup_insert_eq. cbn [default from_option id]. subst n.
  unfold Tail in Ht. rewrite Ht, !clampTail_spec by done. apply last_lines_app. lia.
Qed.

Lemma last_lines_bound s n : (0 < n)%nat ->
  (length (lines LF (last_lines s n)) <= n)%nat /\ exists cut, s = cut ++ last_lines s n.
Proof.
  intros Hn. unfold last_lines. rewrite lines_drop, length_drop. split; [lia|].
  eexists. by rewrite <- concat_app, take_drop, lines_concat.
Qed.

(** ** Properties *)

(** Bounded streaming: however the output is cut into chunks, the tail of a
    key is the last [maxLines] lines of everything fed to it, a suffix of it, and
    it never holds more than [maxLines] lines. *)
Theorem toolout_feed (limit : Z) (key : gostr) (chunks : list gostr) :
  let g := feed_all (New limit) key chunks in
  Tail g key = clampTail (concat chunks) (maxLines g) /\
  (exists cut, concat chunks = cut ++ Tail g key) /\
  Z.of_nat (length (lines LF (Tail g key))) <= maxLines g.
Proof.
  cbn zeta.
  assert (forall g, maxLines (feed_all g key chunks) = maxLines g) as Hm.
  { induction chunks as [|c chunks IH]; intros g; cbn; [done|]. by rewrite IH, feed_limit. }
  rewrite Hm.
  assert (0 < maxLines (New limit)) as Hpos.
  { unfold New. cbn. destruct (Z.leb_spec limit 0); [done|lia]. }
  rewrite (feed_all_tail (maxLines (New limit)) key []); [|done|done|done]. cbn [app].
  rewrite clampTail_spec by done.
  destruct (last_lines_bound (concat chunks) (Z.to_nat (maxLines (New limit)))) as [H1 H2]; [lia|].
  split; [done|]. split; [exact H2|lia].
Qed.
