(* ===== verification/Turn.v ===== *)
(** * figaro's turn: the in-flight message, the checkpoint of an interrupted
    turn, tool results and the repair of the log's tail
    (src/internal/figaro/turn.go, turn_seal.go, repair.go).

    The log is any Log[Message] ([LogOps]/[LogLaws]); time.Now().UnixMilli() is
    an argument [now].  Errors of Append are the log's [None]. *)

From S2P Require Import Prelude Json GoStrings Message Store Toolout.

(** ** asm: the in-flight assistant message *)

Record asm := mkAsm { aMsg : Message; aToolIdx : gmap gostr nat }.

Definition set_content (m : Message) (cs : list Content) : Message :=
  mkMessage (mRole m) cs (mPatches m) (mUsage m) (mStopReason m) (mToolCallID m) (mToolName m)
    (mLogicalTime m) (mTimestamp m).
Definition asm_content (s : asm) : list Content := mContent (aMsg s).
Definition set_asm (s : asm) (cs : list Content) : asm := mkAsm (set_content (aMsg s) cs) (aToolIdx s).

(** func newAsm *)
Definition newAsm (role : gostr) : asm := mkAsm (mkMessage role [] [] None [] [] [] 0 0) ∅.

Definition text_content (kind text : gostr) : Content :=
  mkContent kind text [] [] [] [] None false [].
Definition set_text (c : Content) (text : gostr) : Content :=
  mkContent (cType c) text (cMimeType c) (cData c) (cToolCallID c) (cToolName c) (cArguments c)
    (cIsError c) (cReason c).

(** func (s *asm) addText *)
Definition addText (s : asm) (kind text : gostr) : asm :=
  if bool_decide (text = []) then s else
  match last (asm_content s) with
  | Some c =>
      if bool_decide (cType c = kind)
      then set_asm s (take (length (asm_content s) - 1) (asm_content s) ++ [set_text c (cText c ++ text)])
      else set_asm s (asm_content s ++ [text_content kind text])
  | None => set_asm s (asm_content s ++ [text_content kind text])
  end.

(** func (s *asm) toolOpen *)
Definition toolOpen (s : asm) (id name : gostr) : asm :=
  mkAsm (set_content (aMsg s) (asm_content s ++
      [mkContent ContentToolInvoke [] [] [] id name None false []]))
    (<[id := length (asm_content s)]> (aToolIdx s)).

Definition set_invoke (c : Content) (name : gostr) (args : object) : Content :=
  mkContent (cType c) (cText c) (cMimeType c) (cData c) (cToolCallID c)
    (if bool_decide (name = []) then cToolName c else name) (Some args) (cIsError c) (cReason c).

(** func (s *asm) toolReady; an index out of range is [None]. *)
Definition toolReady (s : asm) (id name : gostr) (args : option object) : option asm :=
  let s := match aToolIdx s !! id with Some _ => s | None => toolOpen s id name end in
  i ← aToolIdx s !! id;
  c ← asm_content s !! i;
  Some (set_asm s (<[i := set_invoke c name (default [] args)]> (asm_content s))).

(** func (s *asm) message *)
Definition asm_message (s : asm) : option Message :=
  match asm_content s with [] => None | _ => Some (aMsg s) end.

(** ** The turn's checkpoint *)

Record turnTool := mkTool {
  ttID : gostr; ttName : gostr; ttStatus : gostr; ttTail : gostr; ttResult : gostr; ttIsError : bool }.

Definition zero_tool : turnTool := mkTool [] [] [] [] [] false.

Record turnState := mkTurn {
  tAssistant : Message; tTools : list turnTool; tStates : gmap gostr turnTool; tCommitted : bool }.

Definition empty_assistant : Message := mkMessage RoleAssistant [] [] None [] [] [] 0 0.

(** func newTurnState *)
Definition newTurnState : turnState := mkTurn empty_assistant [] ∅ false.

Definition is_invoke (c : Content) : bool := bool_decide (cType c = ContentToolInvoke).
Definition is_result (c : Content) : bool := bool_decide (cType c = ContentToolResult).

(** A call that has its id, its name and its arguments. *)
Definition complete (c : Content) : bool :=
  negb (is_invoke c) ||
  negb (bool_decide (cToolCallID c = []) || bool_decide (cToolName c = []) ||
        bool_decide (cArguments c = None)).

(** func partialAssistant *)
Definition partialAssistant (m : option Message) : Message :=
  match m with
  | None => empty_assistant
  | Some m =>
      mkMessage RoleAssistant (List.filter complete (mContent m)) [] (mUsage m) (mStopReason m) [] [] 0
        (mTimestamp m)
  end.

(** func toolsFromAssistant *)
Definition toolsFromAssistant (m : Message) : list turnTool :=
  map (fun c => mkTool (cToolCallID c) (cToolName c) #"pending" [] [] false)
    (List.filter (fun c => is_invoke c && negb (bool_decide (cToolCallID c = []))) (mContent m)).

(** func mergeTurnTools *)
Definition mergeTurnTools (current previous : list turnTool) (states : gmap gostr turnTool) : list turnTool :=
  let byID : gmap gostr turnTool := foldl (fun m t => <[ttID t := t]> m) ∅ previous in
  map (fun t =>
    let t := default t (byID !! ttID t) in
    default t (states !! ttID t)) current.

(** func (a *Agent) noteAssistant; [t] is a.turn (with a nil turn the call does
    nothing). *)
Definition noteAssistant (t : turnState) (m : option Message) : turnState :=
  let assistant := partialAssistant m in
  mkTurn assistant (mergeTurnTools (toolsFromAssistant assistant) (tTools t) (tStates t))
    (tStates t) (tCommitted t).

Definition liveOutputTail : nat := 200.
Definition maxTailBytes : Z := 65536.

(** func boundedToolTail *)
Definition boundedToolTail (text : gostr) : gostr :=
  let ls := SplitByte LF text in
  let ls := if (liveOutputTail <? length ls)%nat then drop (length ls - liveOutputTail) ls else ls in
  let text := Join [LF] ls in
  if maxTailBytes <? glen text then drop (length text - Z.to_nat maxTailBytes) text else text.

(** The terminal output and the streamed one, combined. *)
Definition combine_output (terminal streamed : gostr) : gostr :=
  if bool_decide (terminal = []) then streamed
  else if bool_decide (streamed = []) || Contains terminal streamed then terminal
  else if Contains streamed terminal then streamed
  else streamed ++ [LF] ++ terminal.

(** Replace the first tool with this id. *)
Fixpoint replace_tool (id : gostr) (t : turnTool) (l : list turnTool) : list turnTool :=
  match l with
  | [] => []
  | x :: l' => if bool_decide (ttID x = id) then t :: l' else x :: replace_tool id t l'
  end.

(** func (a *Agent) noteTool; [t] is a.turn (with a nil turn the call does
    nothing), [gov] is None when a.gov is nil. *)
Definition noteTool (t : turnState) (gov : option Governor) (id name status : gostr) (isErr : bool)
    (terminalText : option gostr) : turnState :=
  let s := default zero_tool (tStates t !! id) in
  let name' := if bool_decide (name = []) then ttName s else name in
  let status' := if bool_decide (status = []) then ttStatus s else status in
  let tail := match gov with Some g => default [] (Tails g !! id) | None => [] end in
  let '(otail, result) :=
    match terminalText with
    | Some text =>
        let combined := combine_output (TrimSpace text) (TrimSpace tail) in
        (boundedToolTail combined, combined)
    | None => (match gov with Some _ => tail | None => ttTail s end, ttResult s)
    end in
  let s := mkTool id name' status' otail result isErr in
  mkTurn (tAssistant t) (replace_tool id s (tTools t)) (<[id := s]> (tStates t)) (tCommitted t).

Definition interruptedToolNotice : gostr := #"interrupted: tool execution did not complete".
Definition truncatedNotice : gostr :=
  #"[output truncated: process interrupted before the full result was recorded]".

(** One tool of func interruptedToolResults. *)
Definition interrupted_result (t : turnTool) : Content :=
  let text := TrimSpace (ttTail t) in
  if bool_decide (ttStatus t = #"ok") || bool_decide (ttStatus t = #"error") then
    let full := TrimSpace (ttResult t) in
    let text := if negb (bool_decide (full = [])) then full
                else if negb (bool_decide (text = [])) then text ++ [LF; LF] ++ truncatedNotice
                else text in
    ToolResultContent (ttID t) (ttName t) text (bool_decide (ttStatus t = #"error") || ttIsError t)
  else
    let text := (if bool_decide (text = []) then text else text ++ [LF; LF]) ++ interruptedToolNotice in
    ToolResultContent (ttID t) (ttName t) text true.

(** func interruptedToolResults *)
Definition interruptedToolResults (tools : list turnTool) : list Content :=
  map interrupted_result (List.filter (fun t => negb (bool_decide (ttID t = []))) tools).

Definition user_message (cs : list Content) (now : Z) : Message :=
  mkMessage RoleUser cs [] None [] [] [] 0 now.
Definition entry_of (m : Message) : Entry Message := mkEntry 0 0 m [].

Section turn.
  Context {L : Type} `{LogLaws L Message}.

(** The tool-result append of func sealTurn. *)
Definition seal_tools (log : L) (tools : list turnTool) (appended : list Message) (now : Z)
  : L * list Message * bool :=
  match interruptedToolResults tools with
  | [] => (log, appended, true)
  | cs =>
      match Append log (entry_of (user_message cs now)) with
      | (log, None) => (log, appended, false)
      | (log, Some e) => (log, appended ++ [Payload e], true)
      end
  end.

(** func (a *Agent) sealTurn: the log, the messages appended, false for an error
    (the turn is nil afterwards). *)
Definition sealTurn (log : L) (turn : option turnState) (now : Z) : L * list Message * bool :=
  match turn with
  | None => (log, [], true)
  | Some t =>
      if tCommitted t then seal_tools log (tTools t) [] now else
      let a := tAssistant t in
      let a := mkMessage RoleAssistant (mContent a) (mPatches a) (mUsage a) StopAborted (mToolCallID a)
                 (mToolName a) (mLogicalTime a) (if mTimestamp a =? 0 then now else mTimestamp a) in
      match mContent a with
      | [] => (log, [], true)
      | _ =>
          match Append log (entry_of a) with
          | (log, None) => (log, [], false)
          | (log, Some e) => seal_tools log (tTools t) [Payload e] now
          end
      end
  end.

(** func assistantToolInvokes *)
Definition assistantToolInvokes (m : Message) : list Content :=
  if bool_decide (mRole m = RoleAssistant) then List.filter is_invoke (mContent m) else [].

Definition tailRepairNotice : gostr := #"process died mid-turn; output not captured".

(** func repairInterruptedTail: the log and whether it appended. *)
Definition repairInterruptedTail (log : L) (now : Z) : L * bool :=
  match PeekTail log with
  | None => (log, false)
  | Some tail =>
      if negb (bool_decide (mRole (Payload tail) = RoleAssistant)) then (log, false) else
      match assistantToolInvokes (Payload tail) with
      | [] => (log, false)
      | calls =>
          let results := map (fun call =>
            ToolResultContent (cToolCallID call) (cToolName call) tailRepairNotice true) calls in
          match Append log (entry_of (user_message results now)) with
          | (log, None) => (log, false)
          | (log, Some _) => (log, true)
          end
      end
  end.

(** func (a *Agent) nextIndex *)
Definition nextIndex (log : L) : Z :=
  match PeekTail log with Some e => wrapu64 (LT e + 1) | None => 1 end.

(** func (a *Agent) sealedTail *)
Definition sealedTail (log : L) (expectIdx : Z) (role : gostr) : option (Entry Message) :=
  e ← PeekTail log;
  if negb (LT e =? expectIdx) || negb (bool_decide (mRole (Payload e) = role)) then None else Some e.

End turn.

(** ** Tool outcomes *)

Record toolOutcome := mkOutcome { ocContent : list Content; ocIsErr : bool }.

(** func toolOutcomeText *)
Definition toolOutcomeText (o : toolOutcome) : gostr :=
  concat (map cText (List.filter (fun c => bool_decide (cType c = ContentProse)) (ocContent o))).

(** func (a *Agent) assembleToolResults.  The loop that replaces empty results
    of an interrupted turn finds none: every result already has its type. *)
Definition assemble_one (expect : gset gostr) (outcomes : gmap gostr toolOutcome) (tc : Content) : Content :=
  if negb (bool_decide (cToolCallID tc ∈ expect)) then
    ToolResultContent (cToolCallID tc) (cToolName tc) #"Error: missing tool_call_id" true
  else
    let oc := default (mkOutcome [] false) (outcomes !! cToolCallID tc) in
    ToolResultContent (cToolCallID tc) (cToolName tc) (toolOutcomeText oc) (ocIsErr oc).

Definition cancel_empty (tc r : Content) : Content :=
  if bool_decide (cType r = []) then
    ToolResultContent (cToolCallID tc) (cToolName tc) #"interrupted: tool execution was cancelled" true
  else r.

Definition assembleToolResults (interrupted : bool) (calls : list Content) (expect : gset gostr)
    (outcomes : gmap gostr toolOutcome) (now : Z) : Message :=
  let results := map (assemble_one expect outcomes) calls in
  let results := if interrupted then zip_with cancel_empty calls results else results in
  user_message results now.

(** The dispatch of func collectToolResults: the ids that are expected. *)
Definition expected (calls : list Content) : gset gostr :=
  list_to_set (map cToolCallID
    (List.filter (fun c => is_invoke c && negb (bool_decide (cToolCallID c = []))) calls)).

(** ** Every tool call has its result *)

Definition tool_ids (m : Message) : list gostr := map cToolCallID (assistantToolInvokes m).
Definition result_ids (m : Message) : list gostr := map cToolCallID (List.filter is_result (mContent m)).

(** The message [m] answers the calls of [a]: a user message whose results carry
    the calls' ids, in order. *)
Definition answers (a m : Message) : Prop := mRole m = RoleUser /\ result_ids m = tool_ids a.

(** Every assistant message with calls is followed by its answer; [paired_upto]
    allows the last message to be still unanswered. *)
Fixpoint paired (ms : list Message) : Prop :=
  match ms with
  | [] => True
  | m :: ms' => (tool_ids m = [] \/ match ms' with m' :: _ => answers m m' | [] => False end) /\ paired ms'
  end.
Fixpoint paired_upto (ms : list Message) : Prop :=
  match ms with
  | [] => True
  | m :: ms' =>
      match ms' with [] => True | m' :: _ => tool_ids m = [] \/ answers m m' end /\ paired_upto ms'
  end.

Lemma paired_weaken ms : paired ms -> paired_upto ms.
Proof.
  induction ms as [|m ms IH]; cbn; [done|]. intros [H Hp]. split; [|by apply IH].
  by destruct ms.
Qed.

Lemma user_no_ids cs now : tool_ids (user_message cs now) = [].
Proof. done. Qed.

Lemma upto_snoc ms m : paired ms -> paired_upto (ms ++ [m]).
Proof.
  induction ms as [|x ms IH]; cbn; [done|]. intros [H Hp]. split; [|by apply IH].
  destruct ms as [|y ms]; cbn; [|done]. by destruct H; [left|].
Qed.

Lemma paired_snoc ms m : paired ms -> tool_ids m = [] -> paired (ms ++ [m]).
Proof.
  induction ms as [|x ms IH]; cbn; [intros _ H; split; [by left|done]|]. intros [H Hp] Hm.
  split; [|by apply IH]. destruct H as [H|H]; [by left|]. right. by destruct ms.
Qed.

(** Answering the tail closes the log. *)
Lemma upto_answer ms a m :
  paired_upto (ms ++ [a]) -> answers a m -> tool_ids m = [] -> paired (ms ++ [a; m]).
Proof.
  induction ms as [|x ms IH]; cbn.
  { intros _ Ha Hm. split; [by right|]. split; [by left|done]. }
  intros [H Hp] Ha Hm. split; [|by apply IH]. destruct ms; cbn in *; tauto.
Qed.

Lemma upto_quiet ms a : paired_upto (ms ++ [a]) -> tool_ids a = [] -> paired (ms ++ [a]).
Proof.
  induction ms as [|x ms IH]; cbn.
  { intros _ Ha. split; [by left|done]. }
  intros [H Hp] Ha. split; [|by apply IH]. destruct ms; cbn in *; tauto.
Qed.

Lemma result_ids_results (f : Content -> Content) cs now :
  (forall c, cType (f c) = ContentToolResult /\ cToolCallID (f c) = cToolCallID c) ->
  result_ids (user_message (map f cs) now) = map cToolCallID cs.
Proof.
  intros Hf. unfold result_ids, user_message. cbn [mContent].
  induction cs as [|c cs IH]; [done|]. cbn [map List.filter].
  unfold is_result at 1. destruct (Hf c) as [-> H2]. rewrite bool_decide_eq_true_2 by done.
  cbn [map]. by rewrite H2, IH.
Qed.

(** *** The checkpoint tracks the assistant's calls *)

Record turn_ok (t : turnState) : Prop := {
  tk_role : mRole (tAssistant t) = RoleAssistant;
  tk_ids : map ttID (tTools t) = tool_ids (tAssistant t);
  tk_nonempty : Forall (fun x => ttID x <> []) (tTools t);
  tk_states : map_Forall (fun id s => ttID s = id) (tStates t) }.

Lemma by_id (l : list turnTool) (m : gmap gostr turnTool) :
  map_Forall (fun id s => ttID s = id) m ->
  map_Forall (fun id s => ttID s = id) (foldl (fun m t => <[ttID t := t]> m) m l).
Proof.
  revert m. induction l as [|t l IH]; intros m Hm; cbn; [done|]. apply IH.
  by apply map_Forall_insert_2.
Qed.

Lemma merge_ids cur prev states :
  map_Forall (fun id s => ttID s = id) states ->
  map ttID (mergeTurnTools cur prev states) = map ttID cur.
Proof.
  intros Hs. unfold mergeTurnTools. set (m := foldl _ ∅ prev).
  assert (map_Forall (fun id s => ttID s = id) m) as Hm by (apply by_id, map_Forall_empty).
  rewrite map_map. apply map_ext. intros t.
  assert (ttID (default t (m !! ttID t)) = ttID t) as E.
  { destruct (m !! ttID t) as [p|] eqn:Ep; [|done]. by apply Hm in Ep. }
  rewrite E. destruct (states !! ttID t) as [s|] eqn:Es; [by apply Hs in Es|].
  exact E.
Qed.

Lemma partial_ids m :
  map ttID (toolsFromAssistant (partialAssistant m)) = tool_ids (partialAssistant m) /\
  Forall (fun x => ttID x <> []) (toolsFromAssistant (partialAssistant m)).
Proof.
  destruct m as [m|]; [|by split; [|constructor]].
  unfold toolsFromAssistant, tool_ids, assistantToolInvokes, partialAssistant. cbn [mContent mRole].
  rewrite bool_decide_eq_true_2 by done. rewrite map_map. cbn [ttID].
  induction (mContent m) as [|c cs [IH1 IH2]]; [by split; [|constructor]|].
  cbn [List.filter]. destruct (complete c) eqn:Ec; [|by split]. cbn [List.filter].
  unfold complete in Ec. destruct (is_invoke c); cbn [andb negb orb] in *; [|by split].
  apply negb_true_iff in Ec. apply orb_false_iff in Ec as [Ec _]. apply orb_false_iff in Ec as [Ec _].
  rewrite Ec. cbn [negb map]. split; [by rewrite IH1|]. constructor; [|done].
  cbn. by apply bool_decide_eq_false in Ec.
Qed.

Lemma new_ok : turn_ok newTurnState.
Proof. split; [done|done|constructor|apply map_Forall_empty]. Qed.

Lemma partial_role m : mRole (partialAssistant m) = RoleAssistant.
Proof. by destruct m. Qed.

Lemma Forall_ids l l' : map ttID l = map ttID l' -> Forall (fun x => ttID x <> []) l' ->
  Forall (fun x => ttID x <> []) l.
Proof.
  intros E. rewrite <- (Forall_map ttID (fun i => i <> []) l'), <- E.
  by rewrite Forall_map.
Qed.

Lemma note_assistant_ok t m : turn_ok t -> turn_ok (noteAssistant t m).
Proof.
  intros [_ _ _ H4]. destruct (partial_ids m) as [H5 H6].
  split; cbn [noteAssistant tAssistant tTools tStates]; try done.
  - apply partial_role.
  - by rewrite merge_ids.
  - eapply Forall_ids; [|exact H6]. by apply merge_ids.
Qed.

Lemma replace_ids id t l : ttID t = id -> map ttID (replace_tool id t l) = map ttID l.
Proof.
  intros Ht. induction l as [|x l IH]; cbn; [done|]. case_bool_decide; cbn; congruence.
Qed.

Lemma note_tool_ok t gov id name status isErr text :
  turn_ok t -> turn_ok (noteTool t gov id name status isErr text).
Proof.
  intros [H1 H2 H3 H4]. unfold noteTool. destruct text as [text|]; cbn zeta iota.
  all: split; cbn [tAssistant tTools tStates]; try done.
  1,4: by rewrite replace_ids.
  1,3: by eapply Forall_ids; [|exact H3]; apply replace_ids.
  all: by apply map_Forall_insert_2.
Qed.

Lemma interrupted_ids t :
  turn_ok t -> forall now,
  result_ids (user_message (interruptedToolResults (tTools t)) now) = tool_ids (tAssistant t).
Proof.
  intros [_ H2 H3 _] now. rewrite <- H2. unfold interruptedToolResults, result_ids, user_message.
  cbn [mContent]. clear H2. induction H3 as [|x l Hx _ IH]; [done|]. cbn [List.filter].
  rewrite (bool_decide_eq_false_2 _ Hx). cbn [negb map List.filter].
  assert (cType (interrupted_result x) = ContentToolResult /\ cToolCallID (interrupted_result x) = ttID x)
    as [Ht Hi] by (unfold interrupted_result; by case_match).
  unfold is_result at 1. rewrite Ht, bool_decide_eq_true_2 by done. cbn [map]. by rewrite Hi, IH.
Qed.

(** ** The drain loop's effect on the log and the checkpoint *)

Section turn_steps.
  Context {L : Type} `{LogLaws L Message}.

Definition messages (l : L) : list Message := map Payload (Read l).

Definition commit_turn (t : turnState) : turnState :=
  mkTurn (tAssistant t) (tTools t) (tStates t) true.

(** What driveOneRound does between the start of a round and its seal: it notes
    the streamed assistant message and the tools' progress, and commits the
    provider's message, whose calls are complete; afterwards the assistant
    message keeps its calls. *)
Inductive turn_step : L * turnState -> L * turnState -> Prop :=
| ts_assistant l t m :
    (tCommitted t = true -> tool_ids (partialAssistant m) = tool_ids (tAssistant t)) ->
    turn_step (l, t) (l, noteAssistant t m)
| ts_tool l t gov id name status isErr text :
    turn_step (l, t) (l, noteTool t gov id name status isErr text)
| ts_commit l t m l' e :
    tCommitted t = false -> mRole m = RoleAssistant -> forallb complete (mContent m) = true ->
    Append l (entry_of m) = (l', Some e) ->
    turn_step (l, t) (l', commit_turn (noteAssistant t (Some m))).

Definition turn_inv (st : L * turnState) : Prop :=
  let '(l, t) := st in
  log_wf l /\ turn_ok t /\
  if tCommitted t
  then exists ms a, messages l = ms ++ [a] /\ paired_upto (ms ++ [a]) /\
         tool_ids a = tool_ids (tAssistant t)
  else paired (messages l).

Lemma append_messages l e l' e' :
  log_wf l -> Append l e = (l', Some e') ->
  log_wf l' /\ messages l' = messages l ++ [Payload e] /\ Payload e' = Payload e.
Proof using.
  intros Hl Ha. destruct (law_Append_ok _ _ _ _ Hl Ha) as (Hl' & Hr & Hp & _).
  split; [done|]. unfold messages. rewrite Hr, map_app. cbn. by rewrite Hp.
Qed.

Lemma append_fails l e l' :
  log_wf l -> Append l e = (l', None) -> log_wf l' /\ messages l' = messages l.
Proof using.
  intros Hl Ha. destruct (law_Append_err _ _ _ Hl Ha) as (Hl' & Hr).
  split; [done|]. unfold messages. by rewrite Hr.
Qed.

Lemma committed_ids m :
  mRole m = RoleAssistant -> forallb complete (mContent m) = true ->
  tool_ids m = tool_ids (partialAssistant (Some m)).
Proof using.
  intros Hr Hc. unfold tool_ids, assistantToolInvokes, partialAssistant. cbn [mRole mContent].
  rewrite Hr, (filter_all complete); [done|]. apply Forall_forall. intros c Hin.
  rewrite forallb_forall in Hc. apply Hc. by apply list_elem_of_In.
Qed.

Lemma turn_step_inv st st' : turn_inv st -> turn_step st st' -> turn_inv st'.
Proof using.
  intros Hi Hs. destruct Hs as [l t m Hm|l t gov id name status isErr text|l t m l' e Hc Hr Hm Ha];
    destruct Hi as (Hl & Ht & Hp).
  - split; [done|]. split; [by apply note_assistant_ok|]. cbn [noteAssistant tCommitted tAssistant].
    destruct (tCommitted t); [|done]. destruct Hp as (ms & a & E & Hup & Hids).
    exists ms, a. split; [done|]. split; [done|]. by rewrite Hids, Hm.
  - split; [done|]. split; [by apply note_tool_ok|]. unfold noteTool. by destruct text.
  - destruct (append_messages _ _ _ _ Hl Ha) as (Hl' & E & _). split; [done|].
    pose proof (note_assistant_ok t (Some m) Ht) as [K1 K2 K3 K4]. split; [by split|].
    cbn [commit_turn tCommitted]. rewrite Hc in Hp. exists (messages l), m.
    split; [done|]. split; [by apply upto_snoc|]. by apply committed_ids.
Qed.

(** A log that never refuses an append. *)
Definition reliable : Prop := forall (l : L) e, log_wf l -> snd (Append l e) <> None.

(** Appending the answers of a log whose tail is [a]. *)
Lemma seal_tools_spec l ms a t appended now l' out ok :
  log_wf l -> messages l = ms ++ [a] -> paired_upto (ms ++ [a]) ->
  turn_ok t -> tool_ids a = tool_ids (tAssistant t) ->
  seal_tools l (tTools t) appended now = (l', out, ok) ->
  log_wf l' /\ (ok = true -> paired (messages l')) /\ paired_upto (messages l') /\ (reliable -> ok = true).
Proof using.
  intros Hl Hm Hup Ht Hids. unfold seal_tools. pose proof (interrupted_ids t Ht now) as Hres.
  destruct (interruptedToolResults (tTools t)) as [|c cs] eqn:E.
  - intros [= <- _ <-]. rewrite Hm. split; [done|]. split; [|done]. intros _.
    apply upto_quiet; [done|]. by rewrite Hids, <- Hres.
  - destruct (Append l _) as [l1 [e|]] eqn:Ea; intros [= <- _ <-].
    + destruct (append_messages _ _ _ _ Hl Ea) as (Hl1 & Hm1 & _).
      rewrite Hm1, Hm, <- app_assoc. cbn [app entry_of Payload].
      assert (paired (ms ++ [a; user_message (c :: cs) now])) as Hp.
      { apply upto_answer; [done| |done]. split; [done|]. by rewrite Hids. }
      split_and!; try done. by apply paired_weaken.
    + destruct (append_fails _ _ _ Hl Ea) as (Hl1 & Hm1). rewrite Hm1, Hm. split_and!; try done.
      intros Hr. exfalso. apply (Hr l (entry_of (user_message (c :: cs) now)) Hl). by rewrite Ea.
Qed.

(** Sealing a turn that satisfies its invariant. *)
Lemma sealTurn_spec l t now l' out ok :
  turn_inv (l, t) -> sealTurn l (Some t) now = (l', out, ok) ->
  log_wf l' /\ (ok = true -> paired (messages l')) /\ paired_upto (messages l') /\ (reliable -> ok = true).
Proof using.
  intros (Hl & Ht & Hp) Hseal. unfold sealTurn in Hseal. destruct (tCommitted t).
  - destruct Hp as (ms & a & Hm & Hup & Hids). by eapply (seal_tools_spec l) in Hseal.
  - cbn [mContent] in Hseal. destruct (mContent (tAssistant t)) as [|c cs] eqn:Ec.
    { injection Hseal as <- _ <-. split_and!; try done. by apply paired_weaken. }
    set (a := mkMessage RoleAssistant (c :: cs) _ _ _ _ _ _ _) in Hseal.
    destruct (Append l (entry_of a)) as [l1 [e|]] eqn:Ea.
    + destruct (append_messages _ _ _ _ Hl Ea) as (Hl1 & Hm1 & _).
      eapply (seal_tools_spec l1 (messages l) a) in Hseal; [done|done|done|by apply upto_snoc|done|].
      unfold tool_ids, assistantToolInvokes. cbn [a mRole mContent].
      by rewrite (tk_role _ Ht), Ec.
    + injection Hseal as <- _ <-. destruct (append_fails _ _ _ Hl Ea) as (Hl1 & ->).
      split_and!; try done; [by apply paired_weaken|].
      intros Hr. exfalso. apply (Hr l (entry_of a) Hl). by rewrite Ea.
Qed.


(** C3: an interrupted turn leaves no call without its result.  The points a
    turn can reach ([turn_step]): any partial answers and tool reports, and one
    append of the finished assistant message, all of whose calls carry an id, a
    name and arguments.  Sealing the turn there, when the log accepts the
    seal's own appends, makes every assistant message's calls answered by the
    following user message, call by call; when it refuses one, at most the last
    message stays unanswered. *)
Theorem turn_seal_paired (l0 l l' : L) (t : turnState) (now : Z) (out : list Message) (ok : bool)
    (Hl0 : log_wf l0) (Hp0 : paired (messages l0))
    (Hreach : rtc turn_step (l0, newTurnState) (l, t))
    (Hseal : sealTurn l (Some t) now = (l', out, ok)) :
  (ok = true -> paired (messages l')) /\ paired_upto (messages l').
Proof using.
  assert (turn_inv (l, t)) as Hinv.
  { assert (turn_inv (l0, newTurnState)) as Hinv0 by (split; [done|]; split; [apply new_ok|done]).
    revert Hinv0. induction Hreach as [|x y z Hs _ IH]; [done|]. intros Hinv0.
    by apply IH, (turn_step_inv x). }
  destruct (sealTurn_spec _ _ _ _ _ _ Hinv Hseal) as (_ & H1 & H2 & _). by split.
Qed.

(** What repairing the tail does. *)
Lemma repair_spec (l l' : L) now repaired :
  log_wf l -> paired_upto (messages l) -> repairInterruptedTail l now = (l', repaired) ->
  log_wf l' /\
  (paired (messages l) -> l' = l /\ repaired = false) /\
  (repaired = true -> paired (messages l')) /\
  (repaired = false -> messages l' = messages l /\
     (paired (messages l') \/ exists e l'', Append l e = (l'', None))).
Proof using.
  intros Hl Hup Hrep.
  unfold repairInterruptedTail in Hrep. rewrite law_PeekTail in Hrep by done.
  destruct (Read l) as [|e0 rows _] eqn:Er using rev_ind.
  { injection Hrep as <- <-. split; [done|]. assert (messages l = []) as Hm by (unfold messages; by rewrite Er).
    split; [done|]. split; [done|]. split; [done|]. left. by rewrite Hm. }
  rewrite last_snoc in Hrep.
  assert (messages l = map Payload rows ++ [Payload e0]) as Hm.
  { unfold messages. rewrite Er. apply map_app. }
  assert (tool_ids (Payload e0) = [] -> paired (messages l)) as Hquiet.
  { intros Hq. rewrite Hm in *. by apply upto_quiet. }
  assert (tool_ids (Payload e0) <> [] -> ~ paired (messages l)) as Hopen.
  { rewrite Hm. clear. intros Hne. induction (map Payload rows) as [|x ms IH]; cbn; [tauto|].
    intros [_ Hp]. by apply IH. }
  unfold tool_ids in Hquiet, Hopen.
  destruct (negb _) eqn:Erole.
  { injection Hrep as <- <-. split; [done|]. split; [done|]. split; [done|]. split; [done|]. left. apply Hquiet.
    unfold assistantToolInvokes. by apply negb_true_iff in Erole as ->. }
  destruct (assistantToolInvokes (Payload e0)) as [|c cs] eqn:Ec.
  { injection Hrep as <- <-. split; [done|]. split; [done|]. split; [done|]. split; [done|]. left. by apply Hquiet. }
  cbn [map] in Hquiet, Hopen.
  assert (~ paired (messages l)) as Hno by (by apply Hopen).
  destruct (Append l _) as [l1 [e|]] eqn:Ea; injection Hrep as <- <-.
  - destruct (append_messages _ _ _ _ Hl Ea) as (_ & Hm1 & _).
    split; [apply (append_messages _ _ _ _ Hl Ea)|]. split; [done|]. split; [intros _|done]. rewrite Hm1, Hm, <- app_assoc. cbn [app entry_of Payload].
    rewrite Hm in Hup. apply upto_answer; [done| |done]. split; [done|].
    unfold tool_ids. rewrite Ec. by apply (result_ids_results _ (c :: cs)).
  - destruct (append_fails _ _ _ Hl Ea) as (Hl1 & Hm1). split_and!; try done. intros _.
    split; [done|]. right. by eexists _, _.
Qed.

(** Repairing the tail: of a log where only the last message may be
    unanswered it makes one where every call is answered, unless its append is
    refused, which changes nothing; and it leaves a paired log alone. *)
Theorem turn_repair_tail (l l' : L) (now : Z) (repaired : bool)
    (Hl : log_wf l) (Hup : paired_upto (messages l))
    (Hrep : repairInterruptedTail l now = (l', repaired)) :
  (paired (messages l) -> l' = l /\ repaired = false) /\
  (repaired = true -> paired (messages l')) /\
  (repaired = false -> messages l' = messages l /\
     (paired (messages l') \/ exists e l'', Append l e = (l'', None))).
Proof using. by eapply repair_spec. Qed.

End turn_steps.

(** The message of the results answers any calls, whatever was expected and
    came. *)
Lemma assemble_results (interrupted : bool) (calls : list Content) expect outcomes now :
  assembleToolResults interrupted calls expect outcomes now =
    user_message (map (assemble_one expect outcomes) calls) now /\
  result_ids (user_message (map (assemble_one expect outcomes) calls) now) = map cToolCallID calls.
Proof.
  assert (forall tc, cType (assemble_one expect outcomes tc) = ContentToolResult /\
    cToolCallID (assemble_one expect outcomes tc) = cToolCallID tc) as Hone.
  { intros tc. unfold assemble_one. by case_match. }
  split; [|by apply result_ids_results].
  unfold assembleToolResults. destruct interrupted; [|done]. f_equal.
  induction calls as [|c cs IH]; cbn; [done|]. rewrite IH. f_equal. unfold cancel_empty.
  destruct (Hone c) as [-> _]. done.
Qed.

(** The results of a round answer its calls one by one, in order, whether or
    not their tools finished; the text of a result is the prose its tool
    returned. *)
Theorem turn_results_answer (a : Message) (interrupted : bool) (outcomes : gmap gostr toolOutcome) (now : Z) :
  let calls := assistantToolInvokes a in
  let m := assembleToolResults interrupted calls (expected calls) outcomes now in
  answers a m /\
  map (fun c => (cText c, cIsError c)) (mContent m) =
  map (fun tc =>
    if bool_decide (cToolCallID tc = []) then (#"Error: missing tool_call_id", true)
    else match outcomes !! cToolCallID tc with
         | Some oc => (toolOutcomeText oc, ocIsErr oc)
         | None => ([], false)
         end) calls.
Proof.
  cbn zeta. set (calls := assistantToolInvokes a).
  destruct (assemble_results interrupted calls (expected calls) outcomes now) as [-> Hids]. split; [by split|].
  cbn [user_message mContent]. rewrite map_map. apply map_ext_in. intros tc Hin.
  assert (is_invoke tc = true) as Hinv.
  { unfold calls, assistantToolInvokes in Hin. case_match; [|done].
    by apply List.filter_In in Hin as [_ ?]. }
  unfold assemble_one. destruct (decide (cToolCallID tc = [])) as [Hid|Hid].
  + rewrite (bool_decide_eq_true_2 _ Hid), bool_decide_eq_false_2; [done|]. unfold expected. rewrite elem_of_list_to_set.
    intros (c & Hc & Hin')%list_elem_of_fmap. apply list_elem_of_In, List.filter_In in Hin' as [_ Hf].
    apply andb_true_iff in Hf as [_ Hf]. rewrite <- Hc, Hid in Hf. done.
  + rewrite (bool_decide_eq_false_2 _ Hid), bool_decide_eq_true_2.
    * cbn. by destruct (outcomes !! cToolCallID tc).
    * unfold expected. apply elem_of_list_to_set, list_elem_of_fmap. exists tc. split; [done|].
      apply list_elem_of_In, List.filter_In. split; [done|]. rewrite Hinv. cbn.
      by rewrite bool_decide_eq_false_2.
Qed.

(** ** Witnesses: a turn interrupted while its tool runs *)

Definition ex_call : Content :=
  mkContent ContentToolInvoke [] [] [] #"t1" #"bash" (Some []) false [].
Definition ex_assistant : Message := mkMessage RoleAssistant [ex_call] [] None [] [] [] 0 5.
Definition ex_log0 : MemLog Message := fst (Append NewMemLog (entry_of (user_message [TextContent #"hi"] 1))).
Definition ex_log1 : MemLog Message := fst (Append ex_log0 (entry_of ex_assistant)).
Definition ex_turn : turnState :=
  noteTool (commit_turn (noteAssistant newTurnState (Some ex_assistant))) None #"t1" #"bash" #"running" false None.

Lemma ex_log0_wf : log_wf ex_log0.
Proof. exact (proj1 (append_messages _ (entry_of (user_message [TextContent #"hi"] 1)) _ _ NewMemLog_wf eq_refl)). Qed.
Lemma ex_log1_wf : log_wf ex_log1.
Proof. exact (proj1 (append_messages _ (entry_of ex_assistant) _ _ ex_log0_wf eq_refl)). Qed.

Lemma turn_seal_paired_witness :
  let '(l', out, ok) := sealTurn ex_log1 (Some ex_turn) 9 in
  map mContent out = [[ToolResultContent #"t1" #"bash" interruptedToolNotice true]] /\ paired (messages l').
Proof.
  destruct (sealTurn ex_log1 (Some ex_turn) 9) as [[l' out] ok] eqn:E.
  pose proof (turn_seal_paired ex_log0 ex_log1 l' ex_turn 9 out ok ex_log0_wf) as H.
  assert (ok = true /\ map mContent out = [[ToolResultContent #"t1" #"bash" interruptedToolNotice true]])
    as [Hok Hout].
  { vm_compute in E. injection E as _ <- <-. split; vm_compute; reflexivity. }
  split; [exact Hout|]. apply H; [|clear H|exact E|exact Hok].
  - cbn. split; [left; reflexivity|exact I].
  - eapply rtc_l; [by eapply (ts_commit ex_log0 newTurnState ex_assistant)|].
    eapply rtc_l; [apply (ts_tool _ _ None #"t1" #"bash" #"running" false None)|]. apply rtc_refl.
Defined.

Lemma turn_repair_tail_witness :
  let '(l', repaired) := repairInterruptedTail ex_log1 9 in repaired = true /\ paired (messages l').
Proof.
  destruct (repairInterruptedTail ex_log1 9) as [l' repaired] eqn:E.
  pose proof (turn_repair_tail ex_log1 l' 9 repaired ex_log1_wf) as H.
  assert (repaired = true) as Hr.
  { vm_compute in E. by injection E as _ <-. }
  split; [exact Hr|]. apply H; [|exact E|exact Hr].
  cbn. split; [left; reflexivity|]. split; exact I.
Defined.
