(* ===== verification/Round.v ===== *)
(** * figaro's provider round: the log the provider sees and the seal of its
    message (src/internal/figaro/turn_seal.go and the evFigaro case of
    driveOneRound in turn.go).

    During a round the provider appends to a facade of the log that predicts the
    LT of the message; the drain loop then makes the real append.  The log is
    any Log[Message], the translation cache any Log of raw JSON. *)

From S2P Require Import Prelude Json GoStrings Message Store Toolout Turn.

(** ** Definitions: deferredAppendLog *)

Section deferred.
Context {L : Type} `{LogOps L Message}.

Record deferredAppendLog := mkDeferred { base : L; next : Z; item : option (Entry Message) }.

(** func newDeferredAppendLog *)
Definition newDeferredAppendLog (base : L) : deferredAppendLog :=
  mkDeferred base (match PeekTail base with Some tail => wrapu64 (LT tail + 1) | None => 1 end) None.

(** func (l *deferredAppendLog) Append; None is the error. *)
Definition deferred_Append (l : deferredAppendLog) (e : Entry Message)
    : deferredAppendLog * option (Entry Message) :=
  match item l with
  | Some _ => (l, None)
  | None =>
      let e := mkEntry (next l) (next l) (Payload e) (Fingerprint e) in
      (mkDeferred (base l) (next l) (Some e), Some e)
  end.

(** func (l *deferredAppendLog) Clear *)
Definition deferred_Clear (l : deferredAppendLog) : deferredAppendLog * bool :=
  let '(b, ok) := Clear (base l) in (mkDeferred b (next l) (item l), ok).

(** func (l *deferredAppendLog) take *)
Definition take_item (l : deferredAppendLog) (fallback : Message) : Entry Message :=
  match item l with Some e => e | None => mkEntry 0 0 fallback [] end.

(** The methods that forward to the base. *)
#[export] Instance deferred_ops : LogOps deferredAppendLog Message := {
  Read l := Read (base l);
  Len l := Len (base l);
  ReadFrom l lt n := ReadFrom (base l) lt n;
  ReadPage l from before n := ReadPage (base l) from before n;
  Lookup l lt := Lookup (base l) lt;
  PeekTail l := PeekTail (base l);
  Append := deferred_Append;
  Clear := deferred_Clear }.

End deferred.
Arguments deferredAppendLog : clear implicits.

(** ** Definitions: the assistant cache and the seal *)

Record AssistantCache := mkCache {
  Namespace : gostr; acFingerprint : gostr; acPayload : list gostr }.

Section seal.
Context {L C : Type} `{LogOps L Message} `{LogOps C (list gostr)}.

(** func (a *Agent) commitAssistantCache: [backend] is false when a.backend is
    nil, [native] is what OpenTranslation returns (None: error); the result is
    the native log and whether it succeeded. *)
Definition commitAssistantCache (backend : bool) (native : option C) (lt : Z)
    (cache : option AssistantCache) : option C * bool :=
  match cache with
  | None => (native, true)
  | Some cache =>
      if negb backend then (native, true)
      else if bool_decide (Namespace cache = []) then (native, false)
      else match native with
      | None => (native, false)
      | Some n =>
          match Append n (mkEntry 0 lt (acPayload cache) (acFingerprint cache)) with
          | (n, None) => (Some n, false)
          | (n, Some _) => (Some n, true)
          end
      end
  end.

(** ev.msg once it is sealed: the entry's payload stamped with its LT. *)
Definition stamped (e : Entry Message) : Message :=
  let m := Payload e in
  mkMessage (mRole m) (mContent m) (mPatches m) (mUsage m) (mStopReason m) (mToolCallID m)
    (mToolName m) (LT e) (mTimestamp m).

(** Why a seal fails. *)
Inductive seal_error := AppendFailed | LTMismatch (lt main_lt : Z) | CacheFailed.

(** The evFigaro case of driveOneRound, when no error came before and the turn
    is not interrupted: the log, the cache, the turn and the sealed message or
    the error.  [staged] is deferredLog.take(ev.msg), [assistantIdx] the LT
    predicted at the start of the round. *)
Definition sealInline (log : L) (backend : bool) (native : option C) (t : option turnState)
    (staged : Entry Message) (assistantIdx : Z) (cache : option AssistantCache)
    : L * option C * option turnState * (Message + seal_error) :=
  let t := (fun t => noteAssistant t (Some (Payload staged))) <$> t in
  let calls := assistantToolInvokes (Payload staged) in
  match Append log (entry_of (Payload staged)) with
  | (log, None) => (log, native, t, inr AppendFailed)
  | (log, Some sealEntry) =>
      let t := commit_turn <$> t in
      if negb (LT sealEntry =? assistantIdx) || negb (FigaroLT sealEntry =? assistantIdx)
      then (log, native, t, inr (LTMismatch (LT sealEntry) (FigaroLT sealEntry)))
      else match commitAssistantCache backend native assistantIdx cache with
      | (native, false) => (log, native, t, inr CacheFailed)
      | (native, true) =>
          (log, native, match calls with [] => None | _ => t end, inl (stamped sealEntry))
      end
  end.

End seal.

(** ** Lemmas *)

Section facts.
Context {L C : Type} `{LogStamps L Message} `{LogOps C (list gostr)}.

Lemma nextIndex_next (l : L) : log_wf l -> nextIndex l = next_lt (Read l).
Proof. intros Hl. unfold nextIndex, next_lt. by rewrite law_PeekTail. Qed.

Lemma predicted (l : L) : next (newDeferredAppendLog l) = nextIndex l.
Proof. done. Qed.

(** The entry of a message appended to a stamped log. *)
Lemma append_stamped (l l' : L) (m : Message) e :
  log_wf l -> Append l (entry_of m) = (l', Some e) ->
  LT e = nextIndex l /\ FigaroLT e = nextIndex l /\ Payload e = m /\
  messages l' = messages l ++ [m] /\ PeekTail l' = Some e.
Proof.
  intros Hl Ha. destruct (law_Append_LT _ _ _ _ Hl Ha eq_refl) as [E1 E2].
  destruct (law_Append_ok _ _ _ _ Hl Ha) as (Hl' & Hr & Hp & _).
  rewrite nextIndex_next, E2, <- E1 by done. unfold messages.
  rewrite law_PeekTail, Hr, last_snoc, map_app by done. cbn [map]. by rewrite Hp.
Qed.

(** ** Properties *)

(** C36: the LT the provider is promised is the LT its message gets: the facade
    reads as the log, takes one message, stamped with the next LT, and refuses a
    second; sealing that message appends it at the predicted LT, where sealedTail
    finds it, and never reports a mismatch; a refused append leaves the messages
    alone, and the turn stays open exactly while calls wait for their results. *)
Theorem round_seal_predicted (l : L) (t : turnState) (m fallback : Message)
    (backend : bool) (native : option C) (cache : option AssistantCache) (Hl : log_wf l) :
  let '(d, e) := deferred_Append (newDeferredAppendLog l) (entry_of m) in
  (exists e1, e = Some e1 /\ LT e1 = nextIndex l /\ FigaroLT e1 = nextIndex l /\ Payload e1 = m) /\
  Read d = Read l /\ (forall e2, snd (deferred_Append d e2) = None) /\
  let t1 := noteAssistant t (Some m) in
  let '(l', _, t', r) :=
    sealInline l backend native (Some t) (take_item d fallback) (nextIndex l) cache in
  match r with
  | inl sealed =>
      messages l' = messages l ++ [m] /\ mLogicalTime sealed = nextIndex l /\
      Payload <$> sealedTail l' (nextIndex l) (mRole m) = Some m /\
      t' = (if bool_decide (assistantToolInvokes m = []) then None else Some (commit_turn t1))
  | inr AppendFailed => messages l' = messages l /\ t' = Some t1
  | inr (LTMismatch _ _) => False
  | inr CacheFailed =>
      messages l' = messages l ++ [m] /\ t' = Some (commit_turn t1) /\
      snd (commitAssistantCache backend native (nextIndex l) cache) = false
  end.
Proof.
  cbn [deferred_Append newDeferredAppendLog item next base entry_of Payload Fingerprint].
  split; [by eexists|]. split; [done|]. split; [done|].
  unfold sealInline. cbn [take_item item Payload].
  destruct (Append l (entry_of m)) as [l' [e|]] eqn:Ea.
  2: { by destruct (append_fails _ _ _ Hl Ea) as [_ ->]. }
  destruct (append_stamped _ _ _ _ Hl Ea) as (E1 & E2 & E3 & E4 & E5).
  rewrite E1, E2, Z.eqb_refl. cbn [negb orb].
  destruct (commitAssistantCache backend native (nextIndex l) cache) as [native' [|]]; [|done].
  split; [done|]. split; [exact E1|]. split.
  - unfold sealedTail. rewrite E5. cbn [mbind option_bind]. rewrite E1, E3, Z.eqb_refl.
    by rewrite bool_decide_eq_true_2, <- E3.
  - by destruct (assistantToolInvokes m).
Qed.

End facts.

Lemma round_seal_predicted_witness :
  let m := ex_assistant in
  let d := fst (deferred_Append (newDeferredAppendLog ex_log0) (entry_of m)) in
  LT (take_item d m) = 2 /\ Read d = Read ex_log0 /\ (forall e2, snd (deferred_Append d e2) = None).
Proof.
  split; [vm_compute; reflexivity|].
  pose proof (round_seal_predicted (C := MemLog (list gostr)) ex_log0 newTurnState ex_assistant ex_assistant
    false None None ex_log0_wf) as H.
  destruct H as (_ & H1 & H2 & _). split; [exact H1|exact H2].
Defined.
