(* ===== verification/Agent.v ===== *)
(** * figaro's agent: its state, its effects, the metrics and the prompts
    (src/internal/figaro/agent.go, turn.go)

    The agent is one goroutine, the actor, that owns the log, the chalkboard,
    the live unit and the turn.  Other goroutines only send events to its inbox,
    interrupt the turn or stop the agent.  A method of the actor is a
    computation [M]: it threads the state, may panic, and may block for ever.
    Each time the actor reads something another goroutine can write (the
    interrupted flag, the inbox, the clock) it takes a tick, at which the others
    act first: [others] says what they do and [clock] what time.Now returns, so
    that every interleaving of those accesses is an instance. *)

From S2P Require Import Prelude Utf8 GoStrings Json GoJson Livedoc Aria Compose Toolout.
From S2P Require Import Chalkboard Inbox Message Store Responses Turn Round.

(** ** Computations *)

(** A computation on a state: it ends, panics or blocks for ever; the state it
    leaves is kept in every case. *)
Inductive outcome (A : Type) := Ret (x : A) | Panic | Blocked.
Arguments Ret {A}.
Arguments Panic {A}.
Arguments Blocked {A}.

Definition M (S A : Type) : Type := S -> S * outcome A.

Definition mret {S A} (x : A) : M S A := fun s => (s, Ret x).
Definition bind {S A B} (m : M S A) (f : A -> M S B) : M S B := fun s =>
  match m s with
  | (s, Ret x) => f x s
  | (s, Panic) => (s, Panic)
  | (s, Blocked) => (s, Blocked)
  end.
Declare Scope agent_scope.
Delimit Scope agent_scope with agent.
Notation "x <- m ; k" := (bind m (fun x => k))
  (at level 100, m at next level, right associativity) : agent_scope.
Notation "m ;; k" := (bind m (fun _ => k)) (at level 100, right associativity) : agent_scope.
#[local] Open Scope agent_scope.

Definition skip {S} : M S unit := mret tt.
Definition panic {S A} : M S A := fun s => (s, Panic).
Definition block {S A} : M S A := fun s => (s, Blocked).
Definition get {S A} (f : S -> A) : M S A := fun s => (s, Ret (f s)).
Definition modify {S} (f : S -> S) : M S unit := fun s => (f s, Ret tt).
Definition ok_or_panic {S A} (o : option A) : M S A := match o with Some x => mret x | None => panic end.
Definition when {S} (b : bool) (m : M S unit) : M S unit := if b then m else skip.

(** ** State *)

(** The fields of Agent that refreshMetrics writes. *)
Record counters := mkCounters {
  tokensIn : Z; tokensOut : Z; cacheRead : Z; cacheWrite : Z; messageCount : Z; turnCount : Z;
  metricsLT : Z; contextTokens : Z; contextExact : bool; contextLimit : Z;
  amodel : gostr; mantra : gostr; cwd : gostr; loadoutName : gostr; loadoutVer : gostr }.

(** Why a turn failed, and what turn.done reports (strings in the code). *)
Inductive turn_error :=
| ErrSealed (e : seal_error) | ErrCanceled | ErrSend (text : gostr) | ErrPrompt | ErrPromptClosed
| ErrNoAssistant | ErrNoResults | ErrRecovery | ErrCrashed (backed : bool)
| ErrAndSeal (e : turn_error).
Inductive reason := Stopped (stop : gostr) | Interrupted | Failed (e : turn_error).

(** store.AriaMeta *)
Record AriaMeta := mkMeta { meCounters : counters; meLastActive : Z }.

(** What the actor tells the world: the frames and the turn.done every
    subscriber gets, the metadata and the flushes of the backend, the forks it
    ran, the tools it started, the answers to the provider's PushFigaro. *)
Inductive output :=
| OFrame (r : AriaRead)
| ODone (r : reason) (idle : bool)
| OMeta (m : AriaMeta)
| OKick
| OFork (fork : nat)
| OLaunch (call : Content)
| OAck (e : option turn_error).

(** What another goroutine does to the agent. *)
Inductive other := XInterrupt | XSend (e : event) | XStop.

(** What the agent is given: the other goroutines, the clock (in nanoseconds) and
    how often a waiting loop is woken; whether cfg.Backend is set, its
    ApplyChalkboard and Open, which act on the store behind the log, and
    NewMemLog; the provider's ContextLimit, when it has one; the hooks of
    compose. *)
Class Env (L : Type) := {
  others : nat -> list other;
  clock : nat -> Z;
  wakes : nat -> nat;
  backed : bool;
  ApplyChalkboard : L -> Patch -> L * bool;
  OpenLog : L -> option L;
  EmptyLog : L;
  ContextLimitOf : option (gostr -> snapshot -> Z);
  summarize : option (gostr -> option object -> gostr);
  previewArg : option (gostr -> gostr);
  show_value : option json -> gostr }.

Section agent.
Context {L C : Type} `{LogOps L Message} `{LogOps C (list gostr)} `{Env L}.

(** type Agent; [agTurning]: turnCtx and turnCancel are set; [agCancelled]: the
    turn's context is done; a nil map or governor is None. *)
Record Agent := mkAgent {
  agLog : L;
  agCaches : gmap gostr C;
  agBoard : State;
  agInbox : Inbox;
  agInlineBoot : option Patch;
  agTurning : bool;
  agCancelled : bool;
  agInterrupted : bool;
  agStartLT : Z;
  agGov : option Governor;
  agLastEmit : Z;
  agPartials : option (gmap gostr gostr);
  agTimings : gmap gostr ToolTiming;
  agTurn : option turnState;
  agSrv : Server;
  agUnit : Z;
  agCounters : counters;
  agLastActive : Z;
  agOut : list output;
  agTick : nat }.

Definition set_Log v (a : Agent) : Agent := mkAgent v (agCaches a) (agBoard a) (agInbox a) (agInlineBoot a)
  (agTurning a) (agCancelled a) (agInterrupted a) (agStartLT a) (agGov a) (agLastEmit a) (agPartials a)
  (agTimings a) (agTurn a) (agSrv a) (agUnit a) (agCounters a) (agLastActive a) (agOut a) (agTick a).
Definition set_Caches v (a : Agent) : Agent := mkAgent (agLog a) v (agBoard a) (agInbox a) (agInlineBoot a)
  (agTurning a) (agCancelled a) (agInterrupted a) (agStartLT a) (agGov a) (agLastEmit a) (agPartials a)
  (agTimings a) (agTurn a) (agSrv a) (agUnit a) (agCounters a) (agLastActive a) (agOut a) (agTick a).
Definition set_Board v (a : Agent) : Agent := mkAgent (agLog a) (agCaches a) v (agInbox a) (agInlineBoot a)
  (agTurning a) (agCancelled a) (agInterrupted a) (agStartLT a) (agGov a) (agLastEmit a) (agPartials a)
  (agTimings a) (agTurn a) (agSrv a) (agUnit a) (agCounters a) (agLastActive a) (agOut a) (agTick a).
Definition set_Inbox v (a : Agent) : Agent := mkAgent (agLog a) (agCaches a) (agBoard a) v (agInlineBoot a)
  (agTurning a) (agCancelled a) (agInterrupted a) (agStartLT a) (agGov a) (agLastEmit a) (agPartials a)
  (agTimings a) (agTurn a) (agSrv a) (agUnit a) (agCounters a) (agLastActive a) (agOut a) (agTick a).
Definition set_InlineBoot v (a : Agent) : Agent := mkAgent (agLog a) (agCaches a) (agBoard a) (agInbox a) v
  (agTurning a) (agCancelled a) (agInterrupted a) (agStartLT a) (agGov a) (agLastEmit a) (agPartials a)
  (agTimings a) (agTurn a) (agSrv a) (agUnit a) (agCounters a) (agLastActive a) (agOut a) (agTick a).
Definition set_Turning v (a : Agent) : Agent := mkAgent (agLog a) (agCaches a) (agBoard a) (agInbox a)
  (agInlineBoot a) v (agCancelled a) (agInterrupted a) (agStartLT a) (agGov a) (agLastEmit a) (agPartials a)
  (agTimings a) (agTurn a) (agSrv a) (agUnit a) (agCounters a) (agLastActive a) (agOut a) (agTick a).
Definition set_Cancelled v (a : Agent) : Agent := mkAgent (agLog a) (agCaches a) (agBoard a) (agInbox a)
  (agInlineBoot a) (agTurning a) v (agInterrupted a) (agStartLT a) (agGov a) (agLastEmit a) (agPartials a)
  (agTimings a) (agTurn a) (agSrv a) (agUnit a) (agCounters a) (agLastActive a) (agOut a) (agTick a).
Definition set_Interrupted v (a : Agent) : Agent := mkAgent (agLog a) (agCaches a) (agBoard a) (agInbox a)
  (agInlineBoot a) (agTurning a) (agCancelled a) v (agStartLT a) (agGov a) (agLastEmit a) (agPartials a)
  (agTimings a) (agTurn a) (agSrv a) (agUnit a) (agCounters a) (agLastActive a) (agOut a) (agTick a).
Definition set_StartLT v (a : Agent) : Agent := mkAgent (agLog a) (agCaches a) (agBoard a) (agInbox a)
  (agInlineBoot a) (agTurning a) (agCancelled a) (agInterrupted a) v (agGov a) (agLastEmit a) (agPartials a)
  (agTimings a) (agTurn a) (agSrv a) (agUnit a) (agCounters a) (agLastActive a) (agOut a) (agTick a).
Definition set_Gov v (a : Agent) : Agent := mkAgent (agLog a) (agCaches a) (agBoard a) (agInbox a)
  (agInlineBoot a) (agTurning a) (agCancelled a) (agInterrupted a) (agStartLT a) v (agLastEmit a)
  (agPartials a) (agTimings a) (agTurn a) (agSrv a) (agUnit a) (agCounters a) (agLastActive a) (agOut a)
  (agTick a).
Definition set_LastEmit v (a : Agent) : Agent := mkAgent (agLog a) (agCaches a) (agBoard a) (agInbox a)
  (agInlineBoot a) (agTurning a) (agCancelled a) (agInterrupted a) (agStartLT a) (agGov a) v (agPartials a)
  (agTimings a) (agTurn a) (agSrv a) (agUnit a) (agCounters a) (agLastActive a) (agOut a) (agTick a).
Definition set_Partials v (a : Agent) : Agent := mkAgent (agLog a) (agCaches a) (agBoard a) (agInbox a)
  (agInlineBoot a) (agTurning a) (agCancelled a) (agInterrupted a) (agStartLT a) (agGov a) (agLastEmit a) v
  (agTimings a) (agTurn a) (agSrv a) (agUnit a) (agCounters a) (agLastActive a) (agOut a) (agTick a).
Definition set_Timings v (a : Agent) : Agent := mkAgent (agLog a) (agCaches a) (agBoard a) (agInbox a)
  (agInlineBoot a) (agTurning a) (agCancelled a) (agInterrupted a) (agStartLT a) (agGov a) (agLastEmit a)
  (agPartials a) v (agTurn a) (agSrv a) (agUnit a) (agCounters a) (agLastActive a) (agOut a) (agTick a).
Definition set_Turn v (a : Agent) : Agent := mkAgent (agLog a) (agCaches a) (agBoard a) (agInbox a)
  (agInlineBoot a) (agTurning a) (agCancelled a) (agInterrupted a) (agStartLT a) (agGov a) (agLastEmit a)
  (agPartials a) (agTimings a) v (agSrv a) (agUnit a) (agCounters a) (agLastActive a) (agOut a) (agTick a).
Definition set_Srv v (a : Agent) : Agent := mkAgent (agLog a) (agCaches a) (agBoard a) (agInbox a)
  (agInlineBoot a) (agTurning a) (agCancelled a) (agInterrupted a) (agStartLT a) (agGov a) (agLastEmit a)
  (agPartials a) (agTimings a) (agTurn a) v (agUnit a) (agCounters a) (agLastActive a) (agOut a) (agTick a).
Definition set_Unit v (a : Agent) : Agent := mkAgent (agLog a) (agCaches a) (agBoard a) (agInbox a)
  (agInlineBoot a) (agTurning a) (agCancelled a) (agInterrupted a) (agStartLT a) (agGov a) (agLastEmit a)
  (agPartials a) (agTimings a) (agTurn a) (agSrv a) v (agCounters a) (agLastActive a) (agOut a) (agTick a).
Definition set_Counters v (a : Agent) : Agent := mkAgent (agLog a) (agCaches a) (agBoard a) (agInbox a)
  (agInlineBoot a) (agTurning a) (agCancelled a) (agInterrupted a) (agStartLT a) (agGov a) (agLastEmit a)
  (agPartials a) (agTimings a) (agTurn a) (agSrv a) (agUnit a) v (agLastActive a) (agOut a) (agTick a).
Definition set_LastActive v (a : Agent) : Agent := mkAgent (agLog a) (agCaches a) (agBoard a) (agInbox a)
  (agInlineBoot a) (agTurning a) (agCancelled a) (agInterrupted a) (agStartLT a) (agGov a) (agLastEmit a)
  (agPartials a) (agTimings a) (agTurn a) (agSrv a) (agUnit a) (agCounters a) v (agOut a) (agTick a).
Definition set_Out v (a : Agent) : Agent := mkAgent (agLog a) (agCaches a) (agBoard a) (agInbox a)
  (agInlineBoot a) (agTurning a) (agCancelled a) (agInterrupted a) (agStartLT a) (agGov a) (agLastEmit a)
  (agPartials a) (agTimings a) (agTurn a) (agSrv a) (agUnit a) (agCounters a) (agLastActive a) v (agTick a).
Definition set_Tick v (a : Agent) : Agent := mkAgent (agLog a) (agCaches a) (agBoard a) (agInbox a)
  (agInlineBoot a) (agTurning a) (agCancelled a) (agInterrupted a) (agStartLT a) (agGov a) (agLastEmit a)
  (agPartials a) (agTimings a) (agTurn a) (agSrv a) (agUnit a) (agCounters a) (agLastActive a) (agOut a) v.

#[local] Abbreviation Act := (M Agent).

Definition emit (o : output) : Act unit := modify (fun a => set_Out (agOut a ++ [o]) a).

(** func (a *Agent) Interrupt *)
Definition Interrupt (a : Agent) : Agent :=
  if agTurning a then set_Cancelled true (set_Interrupted true a) else a.

(** The other goroutines; Kill cancels the agent's context, which closes the
    inbox and cancels the turn. *)
Definition act_other (a : Agent) (x : other) : Agent :=
  match x with
  | XInterrupt => Interrupt a
  | XSend e => set_Inbox (fst (Inbox.Send (agInbox a) e)) a
  | XStop => set_Cancelled true (set_Inbox (Inbox.Close (agInbox a)) a)
  end.

Definition tick : Act nat := fun a =>
  let n := agTick a in (foldl act_other (set_Tick (S n) a) (others n), Ret n).

(** time.Now and time.Now().UnixMilli *)
Definition Now : Act Z := n <- tick; mret (clock n).
Definition UnixMilli : Act Z := t <- Now; mret (t / 1000000).

(** func (a *Agent) isInterrupted *)
Definition isInterrupted : Act bool := _ <- tick; get agInterrupted.

(** func (a *Agent) cancelCurrentTurn *)
Definition cancelCurrentTurn : Act unit :=
  modify (fun a => if agTurning a then set_Cancelled true a else a).

(** ** Metrics *)

(** func snapshotString *)
Definition snapshotString (snap : snapshot) (key : gostr) : gostr :=
  match snap !! key with Some raw => fst (Unmarshal dec_string raw []) | None => [] end.

(** func snapshotContextLimit *)
Definition snapshotContextLimit (snap : snapshot) : Z :=
  match snap !! #"system.max_context_tokens" with
  | None => 0
  | Some raw =>
      let '(limit, ok) := Unmarshal dec_int raw 0 in
      if negb ok || (limit <=? 0) then 0 else limit
  end.

(** The limit of the model, as both refreshes compute it. *)
Definition context_limit (snap : snapshot) : Z :=
  let limit := match ContextLimitOf with Some f => f (snapshotString snap #"system.model") snap | None => 0 end in
  if limit =? 0 then snapshotContextLimit snap else limit.

(** The fields both refreshes read from the chalkboard. *)
Definition with_board (c : counters) (snap : snapshot) : counters :=
  mkCounters (tokensIn c) (tokensOut c) (cacheRead c) (cacheWrite c) (messageCount c) (turnCount c)
    (metricsLT c) (contextTokens c) (contextExact c) (context_limit snap)
    (snapshotString snap #"system.model") (snapshotString snap #"mantra")
    (snapshotString snap #"system.cwd") (snapshotString snap #"system.loadout_name")
    (snapshotString snap #"system.loadout_version").

(** func sumUsage *)
Definition sum_step (s : Z * Z * Z * Z) (m : Message) : Z * Z * Z * Z :=
  match mUsage m with
  | Some u => let '(i, o, r, w) := s in
              (i + InputTokens u, o + OutputTokens u, r + Message.CacheReadTokens u, w + Message.CacheWriteTokens u)
  | None => s
  end.
Definition sumUsage (msgs : list Message) : Z * Z * Z * Z := foldl sum_step (0, 0, 0, 0) msgs.

Definition is_assistant (m : Message) : bool := bool_decide (mRole m = RoleAssistant).

(** func (a *Agent) refreshMetricsFrom *)
Definition refreshMetricsFrom (msgs : list Message) (snap : snapshot) : counters :=
  let '(i, o, r, w) := sumUsage msgs in
  let '(contextTokens, contextExact) := ContextSize msgs in
  let turnCount := Z.of_nat (length (List.filter is_assistant msgs)) in
  let metricsLT := foldl (fun lt m => if lt <? mLogicalTime m then mLogicalTime m else lt) 0 msgs in
  with_board (mkCounters i o r w (Z.of_nat (CountMessages msgs)) turnCount metricsLT contextTokens contextExact
                0 [] [] [] [] []) snap.

(** One entry of func refreshMetrics. *)
Definition refresh_step (c : counters) (e : Entry Message) : counters :=
  let m := Payload e in
  let '(i, o, r, w) := sum_step (tokensIn c, tokensOut c, cacheRead c, cacheWrite c) m in
  let '(ctx, exact) := match mUsage m with
    | Some u => (InputTokens u + OutputTokens u, true)
    | None => (contextTokens c + EstimateMessage m, false)
    end in
  mkCounters i o r w (messageCount c + (if IsCeremonial m then 0 else 1))
    (turnCount c + (if is_assistant m then 1 else 0)) (LT e) ctx exact
    (contextLimit c) (amodel c) (mantra c) (cwd c) (loadoutName c) (loadoutVer c).

(** func unwrapMessages *)
Definition unwrapMessages (entries : list (Entry Message)) : list Message := map stamped entries.

(** func (a *Agent) refreshMetrics, over the log; None is a panic. *)
Definition refresh (log : L) (snap : snapshot) (c : counters) : option counters :=
  let behind := match PeekTail log with Some tail => LT tail <? metricsLT c | None => true end in
  if (0 <? metricsLT c) && behind then Some (refreshMetricsFrom (unwrapMessages (Store.Read log)) snap)
  else
    entries ← ReadFrom log (wrapu64 (metricsLT c + 1)) 0;
    Some (with_board (foldl refresh_step c entries) snap).

Definition refreshMetrics : Act unit :=
  log <- get agLog; board <- get agBoard; c <- get agCounters;
  c <- ok_or_panic (refresh log (sSnapshot board) c);
  modify (set_Counters c).

(** ** What subscribers and the backend are told *)

(** func (a *Agent) sessionMetrics *)
Definition sessionMetrics (c : counters) : Metrics :=
  mkMetrics (contextTokens c) (contextLimit c) (contextExact c) (tokensIn c) (tokensOut c)
    (cacheRead c) (cacheWrite c) (mantra c).

(** The broadcast NewAgent subscribes to the server: the frame with the metrics. *)
Definition broadcast (f : option AriaRead) : Act unit :=
  match f with
  | None => skip
  | Some r => c <- get agCounters;
              emit (OFrame (mkAriaRead (arCommitted r) (arLive r) (Some (sessionMetrics c))))
  end.

(** func (a *Agent) publishMetadata *)
Definition publishMetadata : Act unit :=
  when backed (c <- get agCounters; t <- get agLastActive; emit (OMeta (mkMeta c t))).

(** func (a *Agent) emitDelta, emitCommit, abandonLive *)
Definition emitDelta (nodes : list Node) : Act unit :=
  s <- get agSrv; let '(s, f) := Aria.Update s nodes in modify (set_Srv s);; broadcast f.
Definition emitCommit : Act unit :=
  s <- get agSrv; let '(s, f) := Aria.Close s in modify (set_Srv s);; broadcast f.
Definition abandonLive : Act unit :=
  s <- get agSrv; modify (set_Srv (Aria.Abandon s)).

(** func (a *Agent) emitSnapshot *)
Definition emitSnapshot (role : gostr) (nodes : list Node) : Act unit :=
  u <- get agUnit; s <- get agSrv;
  modify (fun a => set_Srv (Aria.Open s (u + 1) role) (set_Unit (u + 1) a));;
  when (negb (length nodes =? 0)%nat) (emitDelta nodes).

(** func (a *Agent) finishTurn *)
Definition finishTurn (r : reason) : Act unit :=
  _ <- tick; b <- get agInbox;
  now <- Now; modify (set_LastActive now);;
  emit (ODone r (IsIdle b));;
  publishMetadata.

(** func (a *Agent) endTurn *)
Definition endTurn (r : reason) : Act unit := refreshMetrics;; emitCommit;; finishTurn r.

(** func (a *Agent) endTurnDiscarding *)
Definition endTurnDiscarding (r : reason) : Act unit := refreshMetrics;; abandonLive;; finishTurn r.

(** ** Forks *)

(** func (a *Agent) executeFork: the closure runs; its panic becomes its error. *)
Definition executeFork (e : event) : Act unit :=
  match e with eventFork fork => emit (OFork fork) | _ => skip end.

Fixpoint execute_forks (es : list event) : Act unit :=
  match es with [] => skip | e :: es => executeFork e;; execute_forks es end.

(** func (a *Agent) serviceForks *)
Definition serviceForks : Act unit :=
  _ <- tick; b <- get agInbox;
  let '(b, es) := TakeReadyForks b in modify (set_Inbox b);; execute_forks es.

(** A select that takes the inbox's wake token. *)
Definition on_wake : Act unit :=
  _ <- tick; b <- get agInbox;
  match recvWake b with Some b => modify (set_Inbox b);; serviceForks | None => skip end.

(** func (a *Agent) waitWithForks: woken some times before [done] closes. *)
Fixpoint wait_rounds (n : nat) : Act unit :=
  match n with O => skip | S n => on_wake;; wait_rounds n end.
Definition waitWithForks : Act unit := n <- tick; wait_rounds (wakes n).

(** ** The live unit *)

(** func (a *Agent) composeTurn *)
Definition composeTurn (inflight : option Message) : Act (list Node) :=
  log <- get agLog; startLT <- get agStartLT;
  entries <- ok_or_panic (ReadFrom log (wrapu64 (startLT + 1)) 0);
  let sealed := match last entries with Some e => is_assistant (Payload e) | None => false end in
  let provisional := match last entries with Some e => LT e | None => startLT end in
  let inflight := match inflight with
    | Some m => if sealed then []
                else [mkMessage (mRole m) (mContent m) (mPatches m) (mUsage m) (mStopReason m)
                        (mToolCallID m) (mToolName m) (wrapu64 (provisional + 1)) (mTimestamp m)]
    | None => []
    end in
  gov <- get agGov; gov <- ok_or_panic gov;
  partials <- get agPartials; timings <- get agTimings;
  mret (Nodes summarize previewArg show_value (unwrapMessages entries ++ inflight)
          (Tails gov) (default ∅ partials) timings).

Definition liveEmitInterval : Z := 90 * 1000000.

(** func (a *Agent) emitLive (its error is always nil) *)
Definition emitLive (inflight : option Message) (force : bool) : Act unit :=
  i <- isInterrupted;
  if i then skip else
  lastEmit <- get agLastEmit;
  throttled <- ((if force then mret false else now <- Now; mret (now - lastEmit <? liveEmitInterval)) : Act bool);
  if throttled then skip else
  now <- Now; modify (set_LastEmit now);;
  nodes <- composeTurn inflight; emitDelta nodes.

(** composeTurn(nil) broadcast, without the throttle. *)
Definition emit_sealed : Act unit := nodes <- composeTurn None; emitDelta nodes.

(** func (a *Agent) startToolTiming *)
Definition start_timing (id : gostr) (at_ : Z) (timings : gmap gostr ToolTiming) : gmap gostr ToolTiming :=
  let t := default (mkTiming 0 0) (timings !! id) in
  if tStartedAt t =? 0 then <[id := mkTiming at_ (tFinishedAt t)]> timings else timings.
Definition finish_timing (id : gostr) (at_ : Z) (timings : gmap gostr ToolTiming) : gmap gostr ToolTiming :=
  let timings := start_timing id at_ timings in
  let t := default (mkTiming 0 0) (timings !! id) in
  if tFinishedAt t =? 0 then <[id := mkTiming (tStartedAt t) at_]> timings else timings.
Definition time_tool (f : gostr -> Z -> gmap gostr ToolTiming -> gmap gostr ToolTiming)
    (id : gostr) (at_ : Z) : Act unit :=
  if bool_decide (id = []) then skip else
  at_ <- ((if at_ =? 0 then UnixMilli else mret at_) : Act Z);
  modify (fun a => set_Timings (f id at_ (agTimings a)) a).
Definition startToolTiming : gostr -> Z -> Act unit := time_tool start_timing.

(** func (a *Agent) finishToolTiming *)
Definition finishToolTiming : gostr -> Z -> Act unit := time_tool finish_timing.

Definition zero_lastEmit : Z := - 62135596800 * 1000000000.

(** func (a *Agent) startAssistantUnit *)
Definition startAssistantUnit : Act unit :=
  log <- get agLog;
  modify (fun a => set_Turn (Some newTurnState) (set_Timings ∅ (set_Partials (Some ∅)
    (set_LastEmit zero_lastEmit (set_Gov (Some (New (Z.of_nat liveOutputTail)))
      (set_StartLT (match PeekTail log with Some tail => FigaroLT tail | None => 0 end) a))))));;
  emitSnapshot #"assistant" [].

(** ** Prompts *)

(** func firstChars *)
Definition firstChars (s : gostr) (n : nat) : gostr :=
  let s := TrimSpace (ReplaceAll s [LF] #" ") in
  let r := runes s in
  if (length r <=? n)%nat then s else TrimSpace (string_of_runes (take n r)) ++ encode_rune 0x2026.

(** The patch of func appendUserPrompt: the client's input and, the first time,
    the conversation's title. *)
Definition prompt_patch (snap : snapshot) (text : gostr) (input : option ChalkboardInput) : Patch :=
  let combined := combineChalkboardInput snap input in
  if negb (bool_decide (text = [])) && bool_decide (snapshotString snap #"mantra" = [])
  then mkPatch (<[#"mantra" := Print (JStr (firstChars text 60))]> (pSet combined)) (pRemove combined)
  else combined.

(** func (a *Agent) appendUserPrompt; false is an error. *)
Definition appendUserPrompt (text : gostr) (input : option ChalkboardInput) (allowInlineBoot : bool)
  : Act bool :=
  now <- UnixMilli;
  board <- get agBoard;
  let combined := prompt_patch (sSnapshot board) text input in
  patches <- ((if IsEmpty combined then mret [] else
    (if backed
     then modify (fun a => set_Log (fst (ApplyChalkboard (agLog a) combined)) a)
     else skip);;
    modify (fun a => set_Board (fst (State_Apply (agBoard a) combined)) a);;
    mret (if backed then [] else [combined])) : Act (list Patch));
  boot <- get agInlineBoot; log <- get agLog;
  patches <- (match boot with
    | Some boot =>
        if allowInlineBoot && negb backed && (Len log =? 0)%nat then
          modify (set_InlineBoot None);;
          mret (if IsEmpty boot then patches else patches ++ [boot])
        else mret patches
    | None => mret patches
    end : Act (list Patch));
  let content := if bool_decide (text = []) then [] else [TextContent text] in
  log <- get agLog;
  let '(log, e) := Append log (entry_of (mkMessage RoleUser content patches None [] [] [] 0 now)) in
  modify (set_Log log);;
  match e with
  | None => mret false
  | Some _ =>
      when backed (emit OKick);;
      refreshMetrics;;
      when (negb (bool_decide (text = []))) (emitSnapshot #"user" [prose_node text];; emitCommit);;
      mret true
  end.

(** func (a *Agent) applyControlPatch *)
Definition applyControlPatch (patch : Patch) : Act unit :=
  ok <- ((if backed then
      log <- get agLog; let '(log, ok) := ApplyChalkboard log patch in modify (set_Log log);; mret ok
    else
      now <- UnixMilli; log <- get agLog;
      let '(log, e) := Append log (entry_of (mkMessage RoleUser [] [patch] None [] [] [] 0 now)) in
      modify (set_Log log);; mret (match e with Some _ => true | None => false end)) : Act bool);
  if negb ok then skip else
  modify (fun a => set_Board (fst (State_Apply (agBoard a) patch)) a);;
  refreshMetrics;; publishMetadata.

(** func hasRenderablePrompt *)
Definition hasRenderablePrompt (prompts : list event) : bool :=
  existsb (fun e => match e with eventUserPrompt text _ => negb (bool_decide (text = [])) | _ => false end) prompts.

(** func (a *Agent) appendPromptEvents *)
Fixpoint appendPromptEvents (prompts : list event) : Act (option turn_error) :=
  match prompts with
  | [] => mret None
  | eventUserPrompt text input :: rest =>
      ok <- appendUserPrompt text input false;
      if ok then appendPromptEvents rest else
      _ <- tick; b <- get agInbox;
      let '(b, restored) := Prepend b (eventUserPrompt text None :: rest) in
      modify (set_Inbox b);;
      mret (Some (if restored then ErrPrompt else ErrPromptClosed))
  | _ :: rest => appendPromptEvents rest
  end.

Definition take_prompts : Act (list event) :=
  _ <- tick; b <- get agInbox; let '(b, es) := TakeReadyUserPrompts b in modify (set_Inbox b);; mret es.

(** func (a *Agent) appendSteeringPrompts *)
Definition appendSteeringPrompts : Act (option turn_error) :=
  prompts <- take_prompts;
  match prompts with
  | [] => mret None
  | _ =>
      let split := hasRenderablePrompt prompts in
      when split emitCommit;;
      err <- appendPromptEvents prompts;
      match err with
      | Some e => mret (Some e)
      | None => when split startAssistantUnit;; mret None
      end
  end.

(** func (a *Agent) prepareProviderRound; the loop ends when no prompt is
    ready, after at most [fuel] rounds of prompts. *)
Fixpoint prepareProviderRound (fuel : nat) : Act (option turn_error) :=
  match fuel with
  | O => block
  | S fuel =>
      serviceForks;;
      prompts <- take_prompts;
      match prompts with
      | [] => mret None
      | _ =>
          let split := hasRenderablePrompt prompts in
          when split (nodes <- composeTurn None;
                      if (length nodes =? 0)%nat then abandonLive else emitCommit);;
          err <- appendPromptEvents prompts;
          match err with
          | Some e => mret (Some e)
          | None => when split startAssistantUnit;; prepareProviderRound fuel
          end
      end
  end.

(** The state func (a *Agent) Info reports: idle or active. *)
Definition info_state (a : Agent) : gostr :=
  if agTurning a || negb (IsIdle (agInbox a)) then #"active" else #"idle".

End agent.
Arguments Agent : clear implicits.
