(* ===== verification/AgentRound.v ===== *)
(** * figaro's agent: a round, a turn and the actor's loop
    (src/internal/figaro/turn.go, agent.go)

    What happens to a round from outside is its input: the order in which the
    drain loop receives the events of the provider's bus and of the tools, the
    messages the provider appends to the log it sees, the calls it hands to the
    speculative dispatcher, and the wake-ups of the inbox.  A round whose input
    ends before the code has what it waits for is [Blocked]. *)

From S2P Require Import Prelude Utf8 GoStrings Json Livedoc Aria Compose Toolout.
From S2P Require Import Chalkboard Inbox Message Store Turn Round Agent.

#[local] Open Scope agent_scope.

(** ** Events *)

(** type busEvent, by its kind. *)
Inductive busEvent :=
| evDelta (content : Content)
| evToolStart (id name : gostr)
| evToolArgs (id partial : gostr)
| evToolReady (id name : gostr) (args : option object)
| evFigaro (msg : Message) (cache : option AssistantCache).

(** type toolEvent, by its kind. *)
Inductive toolEventKind := toolBegin | toolChunk (chunk : gostr) | toolEnd (outcome : toolOutcome).
Record toolEvent := mkToolEvent { teID : gostr; teName : gostr; teAt : Z; teKind : toolEventKind }.

(** What the select of driveOneRound can take, and what the provider does
    beside it. *)
Inductive round_event :=
| RAppend (e : Entry Message)
| RReady (call : Content)
| RBus (ev : busEvent)
| RTool (te : toolEvent)
| RWake.

(** What the select of collectToolResults can take. *)
Inductive collect_event := CWake | CDone | CTool (te : toolEvent).

(** The input of a round; the bus closes after [riEvents], and Send returns
    [riSendErr]. *)
Record round_input := mkInput {
  riEvents : list round_event; riSendErr : option gostr; riTools : list collect_event }.

(** ** The tools' goroutines *)

(** The run of a tool found in the registry: its chunks, then its content or its
    error's text. *)
Record execution := mkExec { exChunks : list gostr; exResult : list Content + gostr }.

Definition error_outcome (text : gostr) : toolOutcome := mkOutcome [TextContent text] true.

(** The goroutine of func dispatch: what it sends when the turn is interrupted
    after [quiet] of its chunks ([None]: not during its run). *)
Definition tool_run (tc : Content) (found : option execution) (quiet : option nat) (started ended : Z)
  : list toolEvent :=
  let ev k at_ := mkToolEvent (cToolCallID tc) (cToolName tc) at_ k in
  let chunks := match found with Some x => exChunks x | None => [] end in
  let heard := match quiet with Some n => take n chunks | None => chunks end in
  let oc := match found with
    | None => error_outcome (#"Unknown tool: " ++ cToolName tc)
    | Some x => match exResult x with
                | inl content => mkOutcome content false
                | inr err => error_outcome (#"Error: " ++ err)
                end
    end in
  ev toolBegin started :: map (fun c => ev (toolChunk c) 0) heard ++
  match quiet with Some _ => [] | None => [ev (toolEnd oc) ended] end.

Section round.
Context {L C : Type} `{LogOps L Message} `{LogOps C (list gostr)} `{Env L}.

#[local] Abbreviation Act := (M (Agent L C)).

(** The local variables of driveOneRound. *)
Record round := mkRound {
  rdDeferred : deferredAppendLog L;
  rdPending : gset gostr;
  rdAsm : asm;
  rdSealed : bool;
  rdReady : bool;
  rdErr : option turn_error;
  rdBuf : list toolEvent;
  rdAwaiting : bool }.

Definition set_Deferred v (r : round) : round :=
  mkRound v (rdPending r) (rdAsm r) (rdSealed r) (rdReady r) (rdErr r) (rdBuf r) (rdAwaiting r).
Definition set_Pending v (r : round) : round :=
  mkRound (rdDeferred r) v (rdAsm r) (rdSealed r) (rdReady r) (rdErr r) (rdBuf r) (rdAwaiting r).
Definition set_Asm v (r : round) : round :=
  mkRound (rdDeferred r) (rdPending r) v (rdSealed r) (rdReady r) (rdErr r) (rdBuf r) (rdAwaiting r).
Definition set_Sealed v (r : round) : round :=
  mkRound (rdDeferred r) (rdPending r) (rdAsm r) v (rdReady r) (rdErr r) (rdBuf r) (rdAwaiting r).
Definition set_Ready v (r : round) : round :=
  mkRound (rdDeferred r) (rdPending r) (rdAsm r) (rdSealed r) v (rdErr r) (rdBuf r) (rdAwaiting r).
Definition set_Err v (r : round) : round :=
  mkRound (rdDeferred r) (rdPending r) (rdAsm r) (rdSealed r) (rdReady r) v (rdBuf r) (rdAwaiting r).
Definition set_Buf v (r : round) : round :=
  mkRound (rdDeferred r) (rdPending r) (rdAsm r) (rdSealed r) (rdReady r) (rdErr r) v (rdAwaiting r).
Definition set_Awaiting v (r : round) : round :=
  mkRound (rdDeferred r) (rdPending r) (rdAsm r) (rdSealed r) (rdReady r) (rdErr r) (rdBuf r) v.

(** func (s *specDispatcher) dispatch: whether the call is pending; its goroutine
    starts the first time. *)
Definition dispatch (pending : gset gostr) (tc : Content) : Act (gset gostr * bool) :=
  if negb (is_invoke tc) || bool_decide (cToolCallID tc = []) then mret (pending, false)
  else if bool_decide (cToolCallID tc ∈ pending) then mret (pending, true)
  else emit (OLaunch tc);; mret ({[cToolCallID tc]} ∪ pending, true).

(** ** The drain loop *)

Definition note_assistant (m : option Message) : Act unit :=
  modify (fun a => set_Turn ((fun t => noteAssistant t m) <$> agTurn a) a).
Definition note_tool (id name status : gostr) (isErr : bool) (text : option gostr) : Act unit :=
  modify (fun a => set_Turn ((fun t => noteTool t (agGov a) id name status isErr text) <$> agTurn a) a).

(** a.argPartials[id] += partial *)
Definition add_partial (id partial : gostr) : Act unit :=
  ps <- get agPartials; ps <- ok_or_panic ps;
  modify (set_Partials (Some (<[id := default [] (ps !! id) ++ partial]> ps))).

(** a.gov.Feed *)
Definition feed (id chunk : gostr) : Act unit :=
  g <- get agGov; g <- ok_or_panic g; modify (set_Gov (Some (Feed g id chunk))).

(** The in-flight message that is composed, nil once it is sealed. *)
Definition inflight (r : round) : option Message := if rdSealed r then None else asm_message (rdAsm r).

(** What an event of the bus does to the assembly, and whether it is a
    structural change. *)
Definition fold_bus (s : asm) (ev : busEvent) : Act (asm * bool) :=
  match ev with
  | evDelta c => mret (addText s (cType c) (cText c), false)
  | evToolStart id name => mret (toolOpen s id name, true)
  | evToolArgs id partial => add_partial id partial;; mret (s, false)
  | evToolReady id name args => s <- ok_or_panic (toolReady s id name args); mret (s, true)
  | evFigaro _ _ => mret (s, true)
  end.

(** The evFigaro case, when no error came before and the turn is not
    interrupted. *)
Definition seal_figaro (idx : Z) (r : round) (m : Message) (cache : option AssistantCache) : Act round :=
  let staged := take_item (rdDeferred r) m in
  a <- get (fun a => a);
  let ns := match cache with Some c => Namespace c | None => [] end in
  let '(log, native, turn, res) :=
    sealInline (agLog a) backed (agCaches a !! ns) (agTurn a) staged idx cache in
  modify (fun a => set_Turn turn (set_Caches (partial_alter (fun _ => native) ns (agCaches a)) (set_Log log a)));;
  match res with
  | inr e => cancelCurrentTurn;; mret (set_Err (Some (ErrSealed e)) r)
  | inl _ =>
      when (backed && match cache with Some _ => true | None => false end) (emit OKick);;
      refreshMetrics;; mret (set_Sealed true r)
  end.

(** The evFigaro case: the round and the answer to the provider. *)
Definition on_figaro (idx : Z) (r : round) (m : Message) (cache : option AssistantCache)
  : Act (round * option turn_error) :=
  match rdErr r with
  | Some e => mret (r, Some e)
  | None =>
      i <- isInterrupted;
      if i then mret (r, Some ErrCanceled)
      else r <- seal_figaro idx r m cache; mret (r, rdErr r)
  end.

(** One event of the bus. *)
Definition on_bus (idx : Z) (r : round) (ev : busEvent) : Act round :=
  when (negb (rdReady r)) refreshMetrics;;
  x <- fold_bus (rdAsm r) ev;
  let r := set_Asm (fst x) (set_Ready true r) in
  note_assistant (asm_message (rdAsm r));;
  y <- match ev with
       | evFigaro m cache => on_figaro idx r m cache
       | _ => mret (r, None)
       end;
  let '(r, ack) := y in
  when (match rdErr r with None => true | Some _ => false end) (emitLive (inflight r) (snd x));;
  match ev with
  | evFigaro _ _ => emit (OAck (match ack with Some e => Some e | None => rdErr r end));;
                    mret (set_Awaiting true r)
  | _ => mret r
  end.

(** The bookkeeping of one tool event, and whether it forces a frame. *)
Definition on_tool_event (te : toolEvent) : Act bool :=
  match teKind te with
  | toolBegin =>
      startToolTiming (teID te) (teAt te);;
      note_tool (teID te) (teName te) #"running" false None;; mret true
  | toolChunk chunk =>
      feed (teID te) chunk;;
      note_tool (teID te) (teName te) #"running" false None;; mret false
  | toolEnd oc =>
      finishToolTiming (teID te) (teAt te);;
      note_tool (teID te) (teName te) (if ocIsErr oc then #"error" else #"ok") (ocIsErr oc)
        (Some (toolOutcomeText oc));; mret true
  end.

(** One tool event of the drain loop. *)
Definition on_tool (r : round) (te : toolEvent) : Act round :=
  let r := set_Buf (rdBuf r ++ [te]) r in
  force <- on_tool_event te;
  when (match rdErr r with None => true | Some _ => false end) (emitLive (inflight r) force);;
  mret r.

(** One iteration of the select; the dispatcher's goroutine skips a call once
    the turn is interrupted; the wake channel is nil after evFigaro. *)
Definition on_event (idx : Z) (r : round) (e : round_event) : Act round :=
  match e with
  | RAppend e => mret (set_Deferred (fst (deferred_Append (rdDeferred r) e)) r)
  | RReady tc =>
      i <- isInterrupted;
      if i then mret r else x <- dispatch (rdPending r) tc; mret (set_Pending (fst x) r)
  | RBus ev => on_bus idx r ev
  | RTool te => on_tool r te
  | RWake => when (negb (rdAwaiting r)) on_wake;; mret r
  end.

Fixpoint drain (idx : Z) (r : round) (es : list round_event) : Act round :=
  match es with
  | [] => mret r
  | e :: es => r <- on_event idx r e; drain idx r es
  end.

(** ** Tool results *)

(** The dispatch loop of func collectToolResults: the calls it will wait for. *)
Fixpoint dispatch_all (pending : gset gostr) (expect : gset gostr) (calls : list Content)
  : Act (gset gostr) :=
  match calls with
  | [] => mret expect
  | tc :: calls =>
      x <- dispatch pending tc;
      dispatch_all (fst x) (if snd x : bool then {[cToolCallID tc]} ∪ expect else expect) calls
  end.

Definition record_outcome (outcomes : gmap gostr toolOutcome) (te : toolEvent) : gmap gostr toolOutcome :=
  match teKind te with toolEnd oc => <[teID te := oc]> outcomes | _ => outcomes end.

(** The loop toolLoop: it ends when as many outcomes as calls are in, or when
    the turn's context is done. *)
Fixpoint toolLoop (expect : gset gostr) (outcomes : gmap gostr toolOutcome) (es : list collect_event)
  : Act (gmap gostr toolOutcome) :=
  if (size expect <=? size outcomes)%nat then mret outcomes else
  match es with
  | [] => block
  | CWake :: es => on_wake;; toolLoop expect outcomes es
  | CDone :: es =>
      _ <- tick; done <- get agCancelled;
      if done : bool then mret outcomes else toolLoop expect outcomes es
  | CTool te :: es =>
      force <- on_tool_event te;
      emitLive None force;;
      toolLoop expect (record_outcome outcomes te) es
  end.

(** func (a *Agent) collectToolResults *)
Definition collectToolResults (calls : list Content) (r : round) (es : list collect_event) : Act Message :=
  expect <- dispatch_all (rdPending r) ∅ calls;
  outcomes <- toolLoop expect (foldl record_outcome ∅ (rdBuf r)) es;
  emitLive None true;;
  i <- isInterrupted;
  now <- UnixMilli;
  mret (assembleToolResults i calls expect outcomes now).

(** ** A round *)

(** sealTurn on the agent: what it appended, and whether it succeeded. *)
Definition seal_turn : Act (bool * bool) :=
  now <- UnixMilli;
  a <- get (fun a => a);
  let '(log, appended, ok) := sealTurn (agLog a) (agTurn a) now in
  modify (fun a => set_Turn None (set_Log log a));;
  mret (negb (length appended =? 0)%nat, ok).

(** func (a *Agent) reconcileAriaServer *)
Definition history_of (msgs : list Message) : list Aria.Message :=
  imap (fun i u => Aria.mkMessage (Z.of_nat i + 1) (uRole u) (Some (uNodes u)))
    (Units summarize previewArg show_value msgs).

Fixpoint announce (old : Z) (history : list Aria.Message) : Act unit :=
  match history with
  | [] => skip
  | m :: history =>
      when (old <? Aria.mLT m)
        (broadcast (Some (mkAriaRead [mkCommitted (Aria.mLT m) 0 (Aria.mRole m) (mNodes m)] None None)));;
      announce old history
  end.

Definition reconcileAriaServer : Act unit :=
  s <- get agSrv; log <- get agLog;
  let old := LastCommittedLT s in
  let history := history_of (unwrapMessages (Store.Read log)) in
  modify (fun a => set_Unit (glen history) (set_Srv (Restore s history) a));;
  announce old history;;
  when (HasOpen s && (glen history <=? old))
    (u <- get agUnit;
     modify (set_Unit (u + 1));;
     broadcast (Some (mkAriaRead [] (Some (mkLive (u + 1) 0 #"assistant" [])) None))).

(** The interrupted turn is sealed and shown, or, when nothing could be
    appended, the server is rebuilt from the log. *)
Definition end_interrupted (service : bool) : Act unit :=
  x <- seal_turn;
  if negb (snd x) then reconcileAriaServer;; finishTurn (Failed ErrRecovery) else
  when (fst x) emit_sealed;;
  when service serviceForks;;
  endTurn Interrupted.

(** The seal after an error of collecting or appending the results. *)
Definition end_failed (e : turn_error) : Act unit :=
  x <- seal_turn;
  let e := if snd x : bool then e else ErrAndSeal e in
  if fst x : bool then emit_sealed;; endTurn (Failed e)
  else reconcileAriaServer;; finishTurn (Failed e).

(** The end of a round that met an error before its seal. *)
Definition end_round_error (e : turn_error) : Act unit :=
  waitWithForks;;
  x <- seal_turn;
  let e := if snd x : bool then e else ErrAndSeal e in
  if fst x : bool then emit_sealed;; serviceForks;; endTurn (Failed e)
  else reconcileAriaServer;; serviceForks;; finishTurn (Failed e).

(** The end of a round whose Send returned an error. *)
Definition end_send_error (err : gostr) (sealed : bool) : Act unit :=
  t <- get agTurn;
  match t with
  | None =>
      serviceForks;;
      if sealed then endTurn (Failed (ErrSend err)) else endTurnDiscarding (Failed (ErrSend err))
  | Some _ =>
      x <- seal_turn;
      let e := if snd x : bool then ErrSend err else ErrAndSeal (ErrSend err) in
      (if fst x : bool then emit_sealed else when (negb (snd x)) reconcileAriaServer);;
      serviceForks;;
      if snd x : bool then endTurn (Failed e) else finishTurn (Failed e)
  end.

(** The end of a round in which the provider sealed nothing. *)
Definition end_unsealed : Act unit :=
  waitWithForks;;
  t <- get agTurn;
  match t with
  | None => serviceForks;; endTurn (Stopped StopEnd)
  | Some _ =>
      now <- UnixMilli; log <- get agLog;
      let '(log, e) := Append log (entry_of (mkMessage RoleAssistant [] [] None StopEnd [] [] 0 now)) in
      modify (fun a => set_Turn None (set_Log log a));;
      match e with
      | None => reconcileAriaServer;; finishTurn (Failed ErrNoAssistant)
      | Some _ => serviceForks;; endTurn (Stopped StopEnd)
      end
  end.

(** Phase 2: the tools' results are collected and appended; true when the turn
    is over. *)
Definition run_tools (calls : list Content) (r : round) (es : list collect_event) : Act bool :=
  results <- collectToolResults calls r es;
  i <- isInterrupted;
  if i then end_interrupted false;; mret true else
  log <- get agLog;
  let '(log, e) := Append log (entry_of results) in
  modify (set_Log log);;
  match e with
  | None => end_failed ErrNoResults;; mret true
  | Some _ =>
      modify (set_Turn None);;
      refreshMetrics;;
      i <- isInterrupted;
      when (negb i) emit_sealed;;
      i <- isInterrupted;
      if i then endTurn Interrupted;; mret true else
      err <- appendSteeringPrompts;
      match err with
      | Some e => endTurn (Failed e);; mret true
      | None => mret false
      end
  end.

(** The body of driveOneRound after its preparation. *)
Definition run_round (input : round_input) : Act bool :=
  modify (fun a => match agTurn a with None => set_Turn (Some newTurnState) a | Some _ => a end);;
  log <- get agLog;
  let idx := nextIndex log in
  r <- drain idx (mkRound (newDeferredAppendLog log) ∅ (newAsm RoleAssistant) false false None [] false)
         (riEvents input);
  match rdErr r with
  | Some e => end_round_error e;; mret true
  | None =>
      log <- get agLog;
      let sealed := sealedTail log idx RoleAssistant in
      match sealed with
      | Some _ => i <- isInterrupted; when (negb i) emit_sealed
      | None => skip
      end;;
      i <- isInterrupted;
      if i then end_interrupted true;; mret true else
      match riSendErr input, sealed with
      | Some err, _ => end_send_error err (match sealed with Some _ => true | None => false end);; mret true
      | None, None => end_unsealed;; mret true
      | None, Some entry =>
          match assistantToolInvokes (Payload entry) with
          | [] =>
              modify (set_Turn None);;
              waitWithForks;; serviceForks;;
              endTurn (Stopped (if bool_decide (mStopReason (Payload entry) = []) then StopEnd
                                else mStopReason (Payload entry)));;
              mret true
          | calls =>
              when (rdAwaiting r) serviceForks;;
              waitWithForks;;
              run_tools calls r (riTools input)
          end
      end
  end.

(** func (a *Agent) driveOneRound: true when the turn is over. *)
Definition driveOneRound (fuel : nat) (allowSteering : bool) (input : round_input) : Act bool :=
  if allowSteering then
    err <- prepareProviderRound fuel;
    match err with
    | Some e => endTurn (Failed e);; mret true
    | None => run_round input
    end
  else serviceForks;; run_round input.

(** ** A turn, and the actor *)

(** The loop of func runTurn, one input per round. *)
Fixpoint drive (fuel : nat) (allowSteering : bool) (inputs : list round_input) : Act unit :=
  match inputs with
  | [] => block
  | input :: inputs =>
      stop <- driveOneRound fuel allowSteering input;
      if stop : bool then skip else drive fuel true inputs
  end.

(** func (a *Agent) runTurn, without its deferred functions. *)
Definition turn_body (fuel : nat) (text : gostr) (input : option ChalkboardInput) (inputs : list round_input)
  : Act unit :=
  now <- Now;
  modify (fun a => set_Interrupted false (set_Cancelled false (set_Turning true (set_LastActive now a))));;
  now <- UnixMilli;
  modify (fun a => set_Log (fst (repairInterruptedTail (agLog a) now)) a);;
  ok <- appendUserPrompt text input true;
  if negb ok then endTurn (Failed ErrPrompt) else
  startAssistantUnit;;
  drive fuel false inputs.

(** A deferred function runs when the computation returns or panics. *)
Definition deferring {A} (m : Act A) (f : Agent L C -> Agent L C) : Act A := fun a =>
  match m a with
  | (a, Blocked) => (a, Blocked)
  | (a, r) => (f a, r)
  end.

(** func (a *Agent) runTurn *)
Definition runTurn (fuel : nat) (text : gostr) (input : option ChalkboardInput) (inputs : list round_input)
  : Act unit :=
  deferring (turn_body fuel text input inputs) (fun a => set_Cancelled true (set_Turning false a)).

(** One iteration of func act; false when the inbox is closed and drained. *)
Definition act_one (fuel : nat) (inputs : list round_input) : Act bool :=
  _ <- tick; b <- get agInbox;
  let '(b, r) := Inbox.Recv b in
  modify (set_Inbox b);;
  match r with
  | RBlocked => block
  | RClosed => mret false
  | REvent (eventUserPrompt text input) => runTurn fuel text input inputs;; mret true
  | REvent (eventSet patch) => applyControlPatch patch;; mret true
  | REvent (eventFork n) => executeFork (eventFork n);; mret true
  end.

(** func (a *Agent) newLog *)
Definition newLog (log : L) : L :=
  if backed then default EmptyLog (OpenLog log) else EmptyLog.

(** What runWithRecovery does after a panic. *)
Definition recover_turn : Act unit :=
  modify (fun a => set_Interrupted false (set_Turning false (set_Log (newLog (agLog a)) a)));;
  _ <- seal_turn;
  now <- UnixMilli;
  modify (fun a => set_Log (fst (repairInterruptedTail (agLog a) now)) a);;
  refreshMetrics;;
  reconcileAriaServer;;
  finishTurn (Failed (ErrCrashed backed)).

(** After a panic: the actor goes on unless its context is done.  Killing the
    agent cancels the context, and a done context closes the inbox (NewInbox),
    so the closed inbox tells it. *)
Definition after_panic : Act bool :=
  _ <- tick; b <- get agInbox;
  if closed b then mret false else recover_turn;; mret true.

(** func (a *Agent) runWithRecovery: the events the actor takes, a panic of
    which it survives. *)
Fixpoint runWithRecovery (fuel : nat) (events : list (list round_input)) : Act unit :=
  match events with
  | [] => skip
  | inputs :: events => fun a =>
      match act_one fuel inputs a with
      | (a, Ret true) => runWithRecovery fuel events a
      | (a, Ret false) => (a, Ret tt)
      | (a, Blocked) => (a, Blocked)
      | (a, Panic) => (again <- after_panic; if again : bool then runWithRecovery fuel events else skip) a
      end
  end.

(** func NewAgent: [log] is what newLog opened, [board] the seeded chalkboard. *)
Definition NewAgent (log : L) (caches : gmap gostr C) (board : State) (boot : option Patch)
    (now lastActive : Z) : Agent L C * outcome unit :=
  let log := fst (repairInterruptedTail log now) in
  let msgs := unwrapMessages (Store.Read log) in
  let history := history_of msgs in
  let srv := foldl (fun s m => fst (Commit s m)) NewServer history in
  publishMetadata (mkAgent log caches board NewInbox boot false false false 0 None zero_lastEmit None ∅ None
    srv (glen history) (refreshMetricsFrom msgs (sSnapshot board)) lastActive [] 0).

End round.

(** ** An example agent: nobody interferes, the clock advances 100 ms a read *)

Definition ex_env (b : bool) : Env (MemLog Message) := {|
  others _ := [];
  clock n := Z.of_nat n * 100000000 + 1700000000000000000;
  wakes _ := 0%nat;
  backed := b;
  ApplyChalkboard l _ := (l, true);
  OpenLog l := Some l;
  EmptyLog := NewMemLog;
  ContextLimitOf := None;
  summarize := None;
  previewArg := None;
  show_value _ := [] |}.

Definition ex_agent (b : bool) (log : MemLog Message) : Agent (MemLog Message) (MemLog (list gostr)) :=
  fst (NewAgent (H1 := ex_env b) log ∅ (mkState ∅ [] false) None 5 5).

(** A round that calls a tool, and one that answers. *)
Definition ex_tool_event (k : toolEventKind) : toolEvent := mkToolEvent #"t1" #"bash" 7 k.
Definition ex_outcome : toolOutcome := mkOutcome [TextContent #"done"] false.
Definition ex_rounds : list round_input := [
  mkInput [RBus (evDelta (TextContent #"hello")); RBus (evToolStart #"t1" #"bash");
           RBus (evToolReady #"t1" #"bash" (Some [])); RReady ex_call; RTool (ex_tool_event toolBegin);
           RAppend (entry_of ex_assistant); RBus (evFigaro ex_assistant None)] None
          [CTool (ex_tool_event (toolChunk #"out")); CTool (ex_tool_event (toolEnd ex_outcome))];
  mkInput [RBus (evFigaro (mkMessage RoleAssistant [TextContent #"bye"] [] None [] [] [] 0 5) None)] None []].
