(* ===== verification/AgentLogic.v ===== *)
(** * A program logic for the agent's computations

    Triples over the part of the agent's state that the pairing of calls and
    results depends on, and the computations that leave that part alone. *)

From S2P Require Import Prelude Utf8 GoStrings Json Livedoc Aria Compose Toolout.
From S2P Require Import Chalkboard Inbox Message Store Responses Turn Round Agent AgentRound.

#[local] Open Scope agent_scope.

(** ** Laws of the store behind the log *)

(** ApplyChalkboard writes another channel than the messages; Open returns the
    log of the same aria; NewMemLog is empty. *)
Class EnvLaws (L : Type) `{LogLaws L Message} `{!Env L} := {
  law_chalkboard : forall l p, log_wf l ->
    log_wf (fst (ApplyChalkboard l p)) /\ Store.Read (fst (ApplyChalkboard l p)) = Store.Read l;
  law_open : forall l l', log_wf l -> OpenLog l = Some l' -> log_wf l' /\ Store.Read l' = Store.Read l;
  law_empty : log_wf EmptyLog /\ Store.Read EmptyLog = [] }.

Section logic.
Context {L C : Type} `{!LogOps L Message} `{!LogLaws L Message} `{!LogOps C (list gostr)} `{!Env L} `{!EnvLaws L}.

#[local] Abbreviation Act := (M (Agent L C)).

(** ** The part of the state the proofs follow *)

Definition is_done (o : output) : bool := match o with ODone _ _ => true | _ => false end.

(** The log, the turn's checkpoint, whether the live unit's governor and
    argument buffers are there, and how many turns were reported done. *)
Record core := mkCore { cLog : L; cTurn : option turnState; cLive : bool; cDone : nat }.
Definition core_of (a : Agent L C) : core :=
  mkCore (agLog a) (agTurn a) (bool_decide (is_Some (agGov a) /\ is_Some (agPartials a)))
    (length (List.filter is_done (agOut a))).

(** [m] started where [P] holds does not panic, ends where [Q] holds, and
    [B] holds if it waits for ever. *)
Definition triple {A} (B P : core -> Prop) (m : Act A) (Q : A -> core -> Prop) : Prop :=
  forall a, P (core_of a) ->
  match m a with
  | (a, Ret x) => Q x (core_of a)
  | (a, Blocked) => B (core_of a)
  | (_, Panic) => False
  end.

(** [m] ends and leaves the core as it was. *)
Definition quiet {A} (P : core -> Prop) (m : Act A) : Prop :=
  forall a, P (core_of a) -> exists a' x, m a = (a', Ret x) /\ core_of a' = core_of a.

Lemma triple_ret {A} B (P : core -> Prop) (x : A) (Q : A -> core -> Prop) :
  (forall c, P c -> Q x c) -> triple B P (mret x) Q.
Proof. intros H a Ha. by apply H. Qed.

Lemma triple_bind {A D} B P (m : Act A) (f : A -> Act D) R Q :
  triple B P m R -> (forall x, triple B (R x) (f x) Q) -> triple B P (bind m f) Q.
Proof.
  intros Hm Hf a Ha. specialize (Hm a Ha). unfold bind.
  destruct (m a) as [a1 [x| |]]; [by apply Hf|done..].
Qed.

Lemma triple_weaken {A} B (P P' : core -> Prop) (m : Act A) (Q Q' : A -> core -> Prop) :
  triple B P' m Q' -> (forall c, P c -> P' c) -> (forall x c, Q' x c -> Q x c) -> triple B P m Q.
Proof.
  intros Hm HP HQ a Ha. specialize (Hm a (HP _ Ha)). destruct (m a) as [a1 [x| |]]; [by apply HQ|done..].
Qed.

Lemma triple_quiet {A} B P (m : Act A) : quiet P m -> triple B P m (fun _ => P).
Proof. intros Hm a Ha. destruct (Hm a Ha) as (a' & x & -> & ->). done. Qed.

(** A quiet step first. *)
Lemma triple_then {A D} B P (m : Act A) (f : A -> Act D) Q :
  quiet P m -> (forall x, triple B P (f x) Q) -> triple B P (bind m f) Q.
Proof. intros Hm. apply triple_bind. by apply triple_quiet. Qed.

Lemma triple_get {A D} B P (g : Agent L C -> A) (f : A -> Act D) Q :
  (forall x, triple B P (f x) Q) -> triple B P (bind (get g) f) Q.
Proof. intros Hf a Ha. by apply (Hf (g a)). Qed.

Lemma triple_value {A D} B P (x : A) (f : A -> Act D) Q : triple B P (f x) Q -> triple B P (bind (mret x) f) Q.
Proof. intros Hf a Ha. by apply Hf. Qed.

(** Reading a field the core has. *)
Lemma triple_read {A D} B P (g : Agent L C -> A) (h : core -> A) (f : A -> Act D) Q :
  (forall a, g a = h (core_of a)) ->
  (forall x, triple B (fun c => P c /\ h c = x) (f x) Q) -> triple B P (bind (get g) f) Q.
Proof. intros Hg Hf a Ha. unfold bind, get. apply (Hf (g a) a). by rewrite <- Hg. Qed.

Lemma triple_pure {A} B P (X : Prop) (m : Act A) Q :
  (X -> triple B P m Q) -> triple B (fun c => P c /\ X) m Q.
Proof. intros Hm a [Ha HX]. by apply Hm. Qed.

Lemma triple_or {A} B P1 P2 (m : Act A) Q :
  triple B P1 m Q -> triple B P2 m Q -> triple B (fun c => P1 c \/ P2 c) m Q.
Proof. intros H1 H2 a [Ha|Ha]; [by apply H1|by apply H2]. Qed.

(** Reading the whole state. *)
Lemma triple_state {D} B P (f : Agent L C -> Act D) Q :
  (forall a, P (core_of a) -> triple B (fun c => c = core_of a) (f a) Q) ->
  triple B P (bind (get (fun a => a)) f) Q.
Proof. intros Hf a Ha. by apply (Hf a Ha a). Qed.

Lemma triple_modify B P (f : Agent L C -> Agent L C) (g : core -> core) (Q : unit -> core -> Prop) :
  (forall a, core_of (f a) = g (core_of a)) -> (forall c, P c -> Q tt (g c)) -> triple B P (modify f) Q.
Proof. intros Hf HQ a Ha. cbn. rewrite Hf. by apply HQ. Qed.

Lemma triple_if {A} B P (b : bool) (m1 m2 : Act A) Q :
  (b = true -> triple B P m1 Q) -> (b = false -> triple B P m2 Q) -> triple B P (if b then m1 else m2) Q.
Proof. destruct b; auto. Qed.

(** ** Quiet steps *)

Lemma quiet_ret {A} P (x : A) : quiet P (mret x).
Proof. intros a _. by exists a, x. Qed.

Lemma quiet_bind {A D} P (m : Act A) (f : A -> Act D) :
  quiet P m -> (forall x, quiet P (f x)) -> quiet P (bind m f).
Proof.
  intros Hm Hf a Ha. destruct (Hm a Ha) as (a1 & x & E & Ec). unfold bind. rewrite E.
  destruct (Hf x a1) as (a2 & y & E2 & Ec2); [by rewrite Ec|]. exists a2, y. by rewrite Ec2, Ec.
Qed.

Lemma quiet_get {A} P (g : Agent L C -> A) : quiet P (get g).
Proof. intros a _. by exists a, (g a). Qed.

Lemma quiet_modify P (f : Agent L C -> Agent L C) : (forall a, core_of (f a) = core_of a) -> quiet P (modify f).
Proof. intros Hf a _. by exists (f a), tt. Qed.

Lemma quiet_when P b (m : Act unit) : (b = true -> quiet P m) -> quiet P (when b m).
Proof. destruct b; cbn; [auto|]. intros _. apply quiet_ret. Qed.

Lemma quiet_weaken {A} (P P' : core -> Prop) (m : Act A) : quiet P' m -> (forall c, P c -> P' c) -> quiet P m.
Proof. intros Hm HP a Ha. by apply Hm, HP. Qed.

Lemma quiet_emit P o : is_done o = false -> quiet P (emit o).
Proof.
  intros Ho a _. exists (set_Out (agOut a ++ [o]) a), tt. split; [done|].
  unfold core_of. cbn. rewrite List.filter_app, length_app. cbn. rewrite Ho. cbn. by rewrite Nat.add_0_r.
Qed.

Lemma act_other_core (a : Agent L C) x : core_of (act_other a x) = core_of a.
Proof. destruct x; cbn; [|done..]. unfold Interrupt. by destruct (agTurning a). Qed.

Lemma quiet_tick P : quiet P tick.
Proof.
  intros a _. eexists _, _. split; [reflexivity|].
  assert (core_of (set_Tick (S (agTick a)) a) = core_of a) as E by done. revert E.
  generalize (set_Tick (S (agTick a)) a). induction (others (agTick a)) as [|x xs IH]; intros b E; cbn; [done|].
  apply IH. by rewrite act_other_core.
Qed.

End logic.

Create HintDb quiet.
#[export] Hint Resolve quiet_ret quiet_get quiet_tick : quiet.

(** Solve a goal about a quiet computation, step by step. *)
Ltac quiet_step :=
  match goal with
  | |- quiet _ (bind _ _) => apply quiet_bind; [|intros ?]
  | |- quiet _ (when _ _) => apply quiet_when; intros ?
  | |- quiet _ (if ?b then _ else _) => destruct b eqn:?
  | |- quiet _ (modify _) => apply quiet_modify; done
  | |- quiet _ (emit _) => apply quiet_emit; done
  | |- quiet _ (match ?x with _ => _ end) => destruct x eqn:?
  | |- _ => solve [eauto with quiet]
  end.
Ltac quiet_tac := repeat quiet_step.

Section steps.
Context {L C : Type} `{!LogOps L Message} `{!LogLaws L Message} `{!LogOps C (list gostr)} `{!Env L} `{!EnvLaws L}.

#[local] Abbreviation Act := (M (Agent L C)).
#[local] Abbreviation cond := (core (L := L) -> Prop).
#[local] Abbreviation Quiet := (quiet (L := L) (C := C)).

(** What a condition says of the log and of the live unit. *)
Definition has_log (P : cond) : Prop := forall c, P c -> log_wf (cLog c).
Definition has_live (P : cond) : Prop := forall c, P c -> cLive c = true.

Lemma has_log_and P (Q : cond) : has_log P -> has_log (fun c => P c /\ Q c).
Proof. intros H c [Hc _]. by apply H. Qed.
Lemma has_live_and P (Q : cond) : has_live P -> has_live (fun c => P c /\ Q c).
Proof. intros H c [Hc _]. by apply H. Qed.
#[local] Hint Resolve has_log_and has_live_and : quiet.

Lemma log_ReadFrom (l : L) k : log_wf l -> is_Some (ReadFrom l k 0).
Proof. intros Hl. rewrite law_ReadFrom, readFrom_all by done. by eexists. Qed.

Lemma quiet_Now (P : cond) : Quiet P Now.
Proof. unfold Now. quiet_tac. Qed.
Lemma quiet_UnixMilli (P : cond) : Quiet P UnixMilli.
Proof. unfold UnixMilli, Now. quiet_tac. Qed.
Lemma quiet_isInterrupted (P : cond) : Quiet P isInterrupted.
Proof. unfold isInterrupted. quiet_tac. Qed.
Lemma quiet_cancel (P : cond) : Quiet P cancelCurrentTurn.
Proof. apply quiet_modify. intros a. by destruct (agTurning a). Qed.
#[local] Hint Resolve quiet_Now quiet_UnixMilli quiet_isInterrupted quiet_cancel : quiet.

Lemma quiet_refresh P : has_log P -> Quiet P refreshMetrics.
Proof.
  intros HP a Ha. apply HP in Ha. cbn in Ha. unfold refreshMetrics, bind, get.
  assert (is_Some (refresh (agLog a) (sSnapshot (agBoard a)) (agCounters a))) as [c Hc].
  { unfold refresh. case_match; [done|]. destruct (log_ReadFrom (agLog a) (wrapu64 (metricsLT (agCounters a) + 1)))
      as [es ->]; [done|]. by eexists. }
  rewrite Hc. by eexists _, _.
Qed.

Lemma quiet_broadcast (P : cond) f : Quiet P (broadcast f).
Proof. unfold broadcast. quiet_tac. Qed.
#[local] Hint Resolve quiet_refresh quiet_broadcast : quiet.

Lemma quiet_publish (P : cond) : Quiet P publishMetadata.
Proof. unfold publishMetadata. quiet_tac. Qed.
Lemma quiet_emitDelta (P : cond) nodes : Quiet P (emitDelta nodes).
Proof. unfold emitDelta. quiet_tac. Qed.
Lemma quiet_emitCommit (P : cond) : Quiet P emitCommit.
Proof. unfold emitCommit. quiet_tac. Qed.
Lemma quiet_abandon (P : cond) : Quiet P abandonLive.
Proof. unfold abandonLive. quiet_tac. Qed.
#[local] Hint Resolve quiet_publish quiet_emitDelta quiet_emitCommit quiet_abandon : quiet.

Lemma quiet_emitSnapshot (P : cond) role nodes : Quiet P (emitSnapshot role nodes).
Proof. unfold emitSnapshot. quiet_tac. Qed.

Lemma quiet_executeFork (P : cond) e : Quiet P (executeFork e).
Proof. unfold executeFork, skip. quiet_tac. Qed.
Lemma quiet_forks (P : cond) es : Quiet P (execute_forks es).
Proof. induction es; cbn; unfold skip; quiet_tac. apply quiet_executeFork. Qed.
#[local] Hint Resolve quiet_emitSnapshot quiet_forks quiet_executeFork : quiet.

Lemma quiet_serviceForks (P : cond) : Quiet P serviceForks.
Proof. unfold serviceForks. quiet_tac. Qed.
#[local] Hint Resolve quiet_serviceForks : quiet.

Lemma quiet_on_wake (P : cond) : Quiet P on_wake.
Proof. unfold on_wake, skip. quiet_tac. Qed.
#[local] Hint Resolve quiet_on_wake : quiet.

Lemma quiet_waitWithForks (P : cond) : Quiet P waitWithForks.
Proof.
  unfold waitWithForks. quiet_tac. generalize (wakes x). intros n.
  induction n; cbn; unfold skip; quiet_tac.
Qed.

Lemma quiet_take_prompts (P : cond) : Quiet P take_prompts.
Proof. unfold take_prompts. quiet_tac. Qed.

Lemma quiet_compose P m : has_log P -> has_live P -> Quiet P (composeTurn m).
Proof.
  intros HP HP2 a Ha. pose proof (HP _ Ha) as Hl. apply HP2 in Ha. cbn in Hl, Ha.
  apply bool_decide_eq_true in Ha as [[g Hg] _]. unfold composeTurn, bind, get.
  destruct (log_ReadFrom (agLog a) (wrapu64 (agStartLT a + 1)) Hl) as [es ->]. cbn. rewrite Hg. cbn.
  by eexists _, _.
Qed.
#[local] Hint Resolve quiet_waitWithForks quiet_take_prompts quiet_compose : quiet.

Lemma quiet_emitLive P m force : has_log P -> has_live P -> Quiet P (emitLive m force).
Proof. intros. unfold emitLive, skip. quiet_tac. Qed.
Lemma quiet_emit_sealed P : has_log P -> has_live P -> Quiet P emit_sealed.
Proof. intros. unfold emit_sealed. quiet_tac. Qed.

Lemma quiet_timing (P : cond) f id at_ : Quiet P (time_tool f id at_).
Proof. unfold time_tool, skip. quiet_tac. Qed.
Lemma quiet_dispatch (P : cond) pending tc : Quiet P (dispatch pending tc).
Proof. unfold dispatch. quiet_tac. Qed.
#[local] Hint Resolve quiet_emitLive quiet_emit_sealed quiet_timing quiet_dispatch : quiet.

Lemma quiet_dispatch_all (P : cond) calls : forall pending expect, Quiet P (dispatch_all pending expect calls).
Proof. induction calls as [|tc calls IH]; intros pending expect; cbn; quiet_tac. Qed.

Lemma quiet_feed P id chunk : has_live P -> Quiet P (feed id chunk).
Proof.
  intros HP a Ha. apply HP in Ha. cbn in Ha. apply bool_decide_eq_true in Ha as [[g Hg] Hp].
  unfold feed, bind, get. rewrite Hg. eexists _, _. split; [reflexivity|].
  unfold core_of. cbn. f_equal. rewrite Hg. apply bool_decide_ext. naive_solver.
Qed.
Lemma quiet_add_partial P id partial : has_live P -> Quiet P (add_partial id partial).
Proof.
  intros HP a Ha. apply HP in Ha. cbn in Ha. apply bool_decide_eq_true in Ha as [Hg [ps Hp]].
  unfold add_partial, bind, get. rewrite Hp. eexists _, _. split; [reflexivity|].
  unfold core_of. cbn. f_equal. rewrite Hp. apply bool_decide_ext. naive_solver.
Qed.
#[local] Hint Resolve quiet_dispatch_all quiet_feed quiet_add_partial : quiet.

Lemma quiet_announce (P : cond) old history : Quiet P (announce old history).
Proof. induction history; cbn; unfold skip; quiet_tac. Qed.
#[local] Hint Resolve quiet_announce : quiet.
Lemma quiet_reconcile (P : cond) : Quiet P reconcileAriaServer.
Proof. unfold reconcileAriaServer. quiet_tac. Qed.
End steps.
