(* ===== verification/AgentSpec.v ===== *)
(** * What each step of a round does to the log and the turn

    Specifications, in the logic of AgentLogic, of the agent's methods: prompts,
    the drain loop, the results of the tools, every end of a round, a turn. *)

From S2P Require Import Prelude Utf8 GoStrings Json Livedoc Aria Compose Toolout.
From S2P Require Import Chalkboard Inbox Message Store Responses Turn Round Agent AgentRound AgentLogic.

#[local] Open Scope agent_scope.

#[export] Hint Resolve has_log_and has_live_and quiet_Now quiet_UnixMilli quiet_isInterrupted quiet_cancel
  quiet_refresh quiet_broadcast quiet_publish quiet_emitDelta quiet_emitCommit quiet_abandon
  quiet_emitSnapshot quiet_executeFork quiet_forks quiet_serviceForks quiet_on_wake quiet_waitWithForks
  quiet_take_prompts quiet_compose quiet_emitLive quiet_emit_sealed quiet_timing quiet_dispatch
  quiet_dispatch_all quiet_feed quiet_add_partial quiet_announce quiet_reconcile : quiet.

Section specs.
Context {L C : Type} `{!LogOps L Message} `{!LogLaws L Message} `{!LogOps C (list gostr)} `{!Env L} `{!EnvLaws L}.

#[local] Abbreviation Act := (M (Agent L C)).
#[local] Abbreviation cond := (core (L := L) -> Prop).
#[local] Abbreviation Quiet := (quiet (L := L) (C := C)).
#[local] Abbreviation Triple := (triple (L := L) (C := C)).

(** ** Conditions *)

(** Between rounds: every call is answered; [K] is what is known of the turn and
    the live unit. *)
Record rest (K : option turnState -> bool -> Prop) (n : nat) (c : core) : Prop := {
  rs_log : log_wf (cLog c);
  rs_paired : paired (messages (cLog c));
  rs_known : K (cTurn c) (cLive c);
  rs_done : cDone c = n }.

Definition anything (_ : option turnState) (_ : bool) : Prop := True.
Definition fresh (t : option turnState) (live : bool) : Prop :=
  live = true /\ match t with None => True | Some t => turn_ok t /\ tCommitted t = false end.

(** Within a round: the checkpoint tells what sealing would have to add. *)
Record within (n : nat) (c : core) : Prop := {
  wi_log : log_wf (cLog c);
  wi_live : cLive c = true;
  wi_turn : match cTurn c with Some t => turn_inv (cLog c, t) | None => paired (messages (cLog c)) end;
  wi_done : cDone c = n }.

(** After a turn: only a refused append leaves a call unanswered, at the tail. *)
Record closed_core (n : nat) (c : core) : Prop := {
  cl_log : log_wf (cLog c);
  cl_upto : paired_upto (messages (cLog c));
  cl_paired : reliable (L := L) -> paired (messages (cLog c));
  cl_done : cDone c = n }.

Lemma rest_log K n : has_log (rest K n). Proof. by intros c []. Qed.
Lemma within_log n : has_log (within n). Proof. by intros c []. Qed.
Lemma within_live n : has_live (within n). Proof. by intros c []. Qed.
Lemma fresh_live n : has_live (rest fresh n). Proof. by intros c [_ _ [? _] _]. Qed.
Lemma closed_log n : has_log (closed_core n). Proof. by intros c []. Qed.
#[local] Hint Resolve rest_log within_log within_live fresh_live closed_log : quiet.

Lemma fresh_within n c : rest fresh n c -> within n c.
Proof.
  intros [Hl Hp [Hlive Ht] Hd]. split; [done..| |done]. destruct (cTurn c) as [t|]; [|done].
  destruct Ht as [Ht Hc]. split; [done|]. split; [done|]. by rewrite Hc.
Qed.

Lemma within_closed n c : rest anything n c -> closed_core n c.
Proof. intros [Hl Hp _ Hd]. split; try done. by apply paired_weaken. Qed.

Lemma rest_anything K n c : rest K n c -> rest anything n c.
Proof. by intros []. Qed.

(** ** Ending a turn *)

Definition bump (c : core) : core (L := L) := mkCore (cLog c) (cTurn c) (cLive c) (S (cDone c)).

(** [m] reports the end of the turn once and changes nothing else. *)
Definition reports {A} (P : cond) (m : Act A) : Prop :=
  forall a, P (core_of a) -> exists a' x, m a = (a', Ret x) /\ core_of a' = bump (core_of a).

Lemma reports_after {A D} P (m : Act A) (f : A -> Act D) :
  Quiet P m -> (forall x, reports P (f x)) -> reports P (bind m f).
Proof.
  intros Hm Hf a Ha. destruct (Hm a Ha) as (a1 & x & E & Ec). unfold bind. rewrite E.
  destruct (Hf x a1) as (a2 & y & E2 & Ec2); [by rewrite Ec|]. exists a2, y. by rewrite Ec2, Ec.
Qed.

Lemma reports_then {A D} P (m : Act A) (x : D) : reports P m -> reports P (m ;; mret x).
Proof.
  intros Hm a Ha. destruct (Hm a Ha) as (a1 & y & E & Ec). unfold bind. rewrite E. by eexists _, _.
Qed.

Lemma reports_finish (P : cond) r : reports P (finishTurn r).
Proof.
  unfold finishTurn. repeat (apply reports_after; [solve [quiet_tac]|intros ?]).
  intros a _. unfold bind, emit, modify. set (a1 := set_Out _ a).
  destruct (quiet_publish (C := C) (fun _ => True) a1 I) as (a2 & x3 & E & Ec).
  rewrite E. eexists _, _. split; [reflexivity|]. rewrite Ec. unfold core_of, bump. cbn.
  rewrite List.filter_app, length_app. cbn. f_equal. lia.
Qed.

Lemma reports_end P r : has_log P -> reports P (endTurn r).
Proof. intros HP. unfold endTurn. do 2 (apply reports_after; [solve [quiet_tac]|intros ?]). apply reports_finish. Qed.

Lemma reports_discard P r : has_log P -> reports P (endTurnDiscarding r).
Proof.
  intros HP. unfold endTurnDiscarding. do 2 (apply reports_after; [solve [quiet_tac]|intros ?]). apply reports_finish.
Qed.

Lemma triple_reports {A} B P (m : Act A) n Q :
  reports P m -> (forall c, P c -> closed_core n c) -> (forall x c, closed_core (S n) c -> Q x c) ->
  Triple B P m Q.
Proof.
  intros Hm HP HQ a Ha. destruct (Hm a Ha) as (a' & x & -> & ->). apply HQ.
  destruct (HP _ Ha). split; cbn; try done. by f_equal.
Qed.

(** ** Prompts *)

Lemma append_prompt_ok B K n text input boot :
  Triple B (rest K n) (appendUserPrompt text input boot) (fun _ => rest K n).
Proof.
  unfold appendUserPrompt. apply triple_then; [solve [quiet_tac]|intros now]. apply triple_get. intros board.
  set (combined := prompt_patch _ _ _). apply triple_bind with (R := fun _ => rest K n).
  { apply triple_if; intros _; [by apply triple_ret|].
    apply triple_bind with (R := fun _ => rest K n).
    - apply triple_if; intros _; [|by apply triple_ret].
      eapply (triple_modify B _ _ (fun c => mkCore (fst (ApplyChalkboard (cLog c) combined)) (cTurn c) (cLive c) (cDone c))); [done|].
      intros c [Hl Hp Hk Hd]. destruct (law_chalkboard (cLog c) combined Hl) as [Hl' Hr].
      split; cbn; [done| |done|done]. unfold messages. by rewrite Hr.
    - intros _. apply triple_then; [solve [quiet_tac]|]. intros _. by apply triple_ret. }
  intros patches. apply triple_get. intros bt. apply triple_get. intros log0.
  apply triple_bind with (R := fun _ => rest K n).
  { destruct bt as [bt|]; [|by apply triple_ret].
    apply triple_if; intros _; [|by apply triple_ret].
    apply triple_then; [solve [quiet_tac]|]. intros _. by apply triple_ret. }
  intros patches'. apply (triple_read B _ _ cLog); [done|]. intros log.
  destruct (Append log _) as [log' e] eqn:Ea.
  apply triple_bind with (R := fun _ => rest K n).
  - eapply (triple_modify B _ _ (fun c => mkCore log' (cTurn c) (cLive c) (cDone c))); [done|].
    intros c [[Hl Hp Hk Hd] <-]. destruct e as [e|].
    + destruct (append_messages _ _ _ _ Hl Ea) as (Hl' & Hm & _). split; cbn; [done| |done|done].
      rewrite Hm. by apply paired_snoc.
    + destruct (append_fails _ _ _ Hl Ea) as [Hl' Hm]. split; cbn; [done|by rewrite Hm|done|done].
  - intros _. destruct e as [e|]; [|by apply triple_ret].
    repeat (apply triple_then; [solve [quiet_tac]|intros ?]). by apply triple_ret.
Qed.

Lemma append_prompts_ok B K n prompts :
  Triple B (rest K n) (appendPromptEvents prompts) (fun _ => rest K n).
Proof.
  induction prompts as [|e prompts IH]; cbn; [by apply triple_ret|].
  destruct e; [|exact IH..]. eapply triple_bind; [apply append_prompt_ok|]. intros ok.
  apply triple_if; intros _; [exact IH|].
  apply triple_then; [solve [quiet_tac]|intros ?]. apply triple_get. intros b.
  match goal with |- triple _ _ (match ?x with _ => _ end) _ => destruct x as [b' restored] end. apply triple_then; [solve [quiet_tac]|]. intros _. by apply triple_ret.
Qed.

Lemma start_unit_ok B K n :
  Triple B (rest K n) startAssistantUnit (fun _ => rest fresh n).
Proof.
  unfold startAssistantUnit. apply triple_get. intros log.
  eapply triple_bind with (R := fun _ => rest fresh n); [|intros _; apply triple_quiet; quiet_tac].
  apply (triple_modify B _ _ (fun c => mkCore (cLog c) (Some newTurnState) true (cDone c))).
  - done.
  - intros c [Hl Hp Hk Hd]. split; cbn; [done..| |done]. split; [done|]. split; [apply new_ok|done].
Qed.

Lemma steering_ok B n :
  Triple B (rest fresh n) appendSteeringPrompts (fun _ => rest fresh n).
Proof.
  unfold appendSteeringPrompts. apply triple_then; [solve [quiet_tac]|]. intros prompts.
  destruct prompts as [|e prompts]; [by apply triple_ret|].
  apply triple_then; [solve [quiet_tac]|]. intros _.
  eapply triple_bind; [apply append_prompts_ok|]. intros err. destruct err; [by apply triple_ret|].
  apply triple_bind with (R := fun _ => rest fresh n); [|intros _; by apply triple_ret].
  unfold when. apply triple_if; intros _; [apply start_unit_ok|by apply triple_ret].
Qed.

Lemma prepare_ok n fuel :
  Triple (within n) (rest fresh n) (prepareProviderRound fuel) (fun _ => rest fresh n).
Proof.
  induction fuel as [|fuel IH]; cbn.
  { intros a Ha. by apply fresh_within. }
  apply triple_then; [solve [quiet_tac]|intros ?]. apply triple_then; [solve [quiet_tac]|]. intros prompts.
  destruct prompts as [|e prompts]; [by apply triple_ret|].
  apply triple_then; [solve [quiet_tac]|intros ?].
  eapply triple_bind; [apply append_prompts_ok|]. intros err. destruct err; [by apply triple_ret|].
  apply triple_bind with (R := fun _ => rest fresh n); [|intros _; exact IH].
  unfold when. apply triple_if; intros _; [apply start_unit_ok|by apply triple_ret].
Qed.

(** ** What the provider promises *)

(** A finished message: the assistant's, its calls with id, name and arguments. *)
Definition finished (m : Message) : bool := is_assistant m && forallb complete (mContent m).

Definition off_bus (e : round_event) : bool :=
  match e with RBus _ => false | RAppend e => finished (Payload e) | _ => true end.

(** What it appends or hands over is finished; PushFigaro is its last call. *)
Fixpoint bus_ok (es : list round_event) : bool :=
  match es with
  | [] => true
  | RBus (evFigaro m _) :: es => finished m && forallb off_bus es
  | RAppend e :: es => finished (Payload e) && bus_ok es
  | _ :: es => bus_ok es
  end.

(** ** The assembly never goes out of range *)

Definition asm_ok (s : asm) : Prop := map_Forall (fun _ i => (i < length (asm_content s))%nat) (aToolIdx s).

Lemma asm_ok_grow s cs :
  asm_ok s -> (length (asm_content s) <= length cs)%nat -> asm_ok (set_asm s cs).
Proof. intros Hs Hle id i Hi. apply Hs in Hi. cbn. lia. Qed.

Lemma addText_ok s kind text : asm_ok s -> asm_ok (addText s kind text).
Proof.
  intros Hs. unfold addText. case_bool_decide; [done|].
  destruct (last (asm_content s)) as [c|] eqn:E; [case_bool_decide|]; apply asm_ok_grow; try done;
    rewrite length_app; cbn; [|lia..].
  rewrite length_take. lia.
Qed.

Lemma toolOpen_ok s id name : asm_ok s -> asm_ok (toolOpen s id name).
Proof.
  intros Hs id' i. unfold toolOpen, asm_content. cbn. rewrite length_app. cbn.
  destruct (decide (id = id')) as [->|Hne].
  - rewrite lookup_insert_eq. intros [= <-]. unfold asm_content. lia.
  - rewrite lookup_insert_ne by done. intros Hi. apply Hs in Hi. unfold asm_content in Hi. lia.
Qed.

Lemma toolReady_ok s id name args : asm_ok s -> exists s', toolReady s id name args = Some s' /\ asm_ok s'.
Proof.
  intros Hs. unfold toolReady.
  set (s1 := match aToolIdx s !! id with Some _ => s | None => toolOpen s id name end).
  assert (asm_ok s1 /\ is_Some (aToolIdx s1 !! id)) as [H1 [i Hi]].
  { unfold s1. destruct (aToolIdx s !! id) eqn:E; [done|].
    split; [by apply toolOpen_ok|]. cbn. by rewrite lookup_insert_eq. }
  rewrite Hi. cbn [mbind option_bind]. destruct (lookup_lt_is_Some_2 (asm_content s1) i) as [c Hc]; [by eapply H1|].
  rewrite Hc. eexists. split; [done|]. apply asm_ok_grow; [done|]. by rewrite length_insert.
Qed.

(** ** The drain loop *)

Definition uncommitted (t : option turnState) : Prop := exists t', t = Some t' /\ tCommitted t' = false.

(** Within a round, with what is known of the log; [b] says that the assistant
    message has not been sealed. *)
Record during (b : bool) (R : L -> Prop) (n : nat) (c : core) : Prop := {
  du_within : within n c;
  du_log : R (cLog c);
  du_open : b = true -> uncommitted (cTurn c) }.

Definition any_log (_ : L) : Prop := True.

Lemma during_log b R n : has_log (during b R n). Proof. by intros c [[] _ _]. Qed.
Lemma during_live b R n : has_live (during b R n). Proof. by intros c [[] _ _]. Qed.
#[local] Hint Resolve during_log during_live : quiet.

Lemma during_within b R n c : during b R n c -> within n c.
Proof. by intros []. Qed.
Lemma within_during n c : within n c -> during false any_log n c.
Proof. intros. by split. Qed.

(** A change of the checkpoint that is a step of [turn_step]. *)
Lemma note_step b R n B (g : Agent L C -> turnState -> turnState) :
  (forall l t a, turn_inv (l, t) -> (b = true -> tCommitted t = false) ->
     turn_inv (l, g a t) /\ tCommitted (g a t) = tCommitted t) ->
  Triple B (during b R n) (modify (fun a => set_Turn (g a <$> agTurn a) a)) (fun _ => during b R n).
Proof.
  intros Hg a [[Hl Hlive Ht Hd] Hr Ho]. cbn in *. destruct (agTurn a) as [t|]; cbn; [|by split].
  destruct (Hg (agLog a) t a Ht) as [Hi Hc].
  { intros ->. by destruct (Ho eq_refl) as (? & [= <-] & ?). }
  split; cbn; [by split|done|]. intros Hb. exists (g a t). split; [done|]. rewrite Hc.
  by destruct (Ho Hb) as (? & [= <-] & ?).
Qed.

Lemma checkpoint_tool_ok b R n B id name status isErr text :
  Triple B (during b R n) (note_tool id name status isErr text) (fun _ => during b R n).
Proof.
  apply (note_step b R n B (fun a t => noteTool t (agGov a) id name status isErr text)).
  intros l t a Ht _. split; [|by unfold noteTool; destruct text].
  eapply (turn_step_inv (l, t)); [done|]. apply ts_tool.
Qed.

Lemma checkpoint_assistant_ok R n B m :
  Triple B (during true R n) (note_assistant m) (fun _ => during true R n).
Proof.
  apply (note_step true R n B (fun _ t => noteAssistant t m)).
  intros l t a Ht Hc. split; [|done]. eapply (turn_step_inv (l, t)); [done|]. apply ts_assistant.
  rewrite Hc by done. done.
Qed.

Lemma on_tool_event_ok b R n B te :
  Triple B (during b R n) (on_tool_event te) (fun _ => during b R n).
Proof.
  unfold on_tool_event, startToolTiming, finishToolTiming. destruct (teKind te);
    (apply triple_then; [solve [quiet_tac]|intros ?]);
    (eapply triple_bind; [apply checkpoint_tool_ok|intros ?]); by apply triple_ret.
Qed.

Lemma fold_bus_ok b R n B s ev :
  asm_ok s ->
  Triple B (during b R n) (fold_bus s ev) (fun x c => during b R n c /\ asm_ok (fst x)).
Proof.
  intros Hs. destruct ev; cbn.
  - apply triple_ret. intros c Hc. split; [done|]. by apply addText_ok.
  - apply triple_ret. intros c Hc. split; [done|]. by apply toolOpen_ok.
  - apply triple_then; [solve [quiet_tac]|intros ?]. by apply triple_ret.
  - destruct (toolReady_ok s id name args Hs) as (s' & -> & Hs').
    cbn. apply triple_value. by apply triple_ret.
  - by apply triple_ret.
Qed.


(** *** The seal of the provider's message *)

Definition staged_ok (r : round (L := L)) : Prop :=
  match item (rdDeferred r) with Some e => finished (Payload e) = true | None => True end.

Lemma finished_spec m : finished m = true -> mRole m = RoleAssistant /\ forallb complete (mContent m) = true.
Proof. unfold finished, is_assistant. intros [? ?]%andb_true_iff. split; [by eapply bool_decide_eq_true|done]. Qed.

(** Committing a finished message. *)
Lemma commit_ok l l' t m e :
  turn_inv (l, t) -> tCommitted t = false -> finished m = true -> Append l (entry_of m) = (l', Some e) ->
  turn_inv (l', commit_turn (noteAssistant t (Some m))) /\
  (assistantToolInvokes m = [] -> paired (messages l')).
Proof.
  intros Ht Hc [Hr Hm]%finished_spec Ha. split.
  - eapply (turn_step_inv (l, t)); [done|]. by eapply ts_commit.
  - intros Hno. destruct Ht as (Hl & _ & Hp). rewrite Hc in Hp.
    destruct (append_messages _ _ _ _ Hl Ha) as (_ & Hm' & _). rewrite Hm'. apply paired_snoc; [done|].
    unfold tool_ids. cbn [entry_of Payload]. by rewrite Hno.
Qed.

(** The provider's message is the last of the log, at the LT it was promised. *)
Definition is_sealed (idx : Z) (l : L) : Prop := is_Some (sealedTail l idx RoleAssistant).

(** After the seal: an error, a sealed message, or nothing appended. *)
Definition outcome_of (idx : Z) (n : nat) (r : round (L := L)) (c : core) : Prop :=
  (during false any_log n c /\ rdErr r <> None) \/
  during false (is_sealed idx) n c \/ during true any_log n c.

Lemma sealInline_ok l t native staged idx cache :
  turn_inv (l, t) -> tCommitted t = false -> finished (Payload staged) = true ->
  let '(l', _, t', res) := sealInline (C := C) l backed native (Some t) staged idx cache in
  log_wf l' /\ match t' with Some t' => turn_inv (l', t') | None => paired (messages l') end /\
  match res with inl _ => is_sealed idx l' | inr _ => True end.
Proof.
  intros Ht Hc Hs. unfold sealInline. cbn [fmap option_fmap option_map].
  destruct (Append l (entry_of (Payload staged))) as [l' [e|]] eqn:Ea.
  - destruct (commit_ok _ _ _ _ _ Ht Hc Hs Ea) as [Hi Hp].
    assert (log_wf l') as Hl' by apply Hi.
    destruct (negb _ || negb _) eqn:Elt; [done|].
    destruct (commitAssistantCache _ _ _ _) as [native' [|]]; [|done].
    assert (is_sealed idx l').
    { apply orb_false_iff in Elt as [Elt _]. apply negb_false_iff in Elt.
      destruct (law_Append_ok _ _ _ _ (proj1 Ht) Ea) as (_ & Hr & Hp' & _).
      unfold is_sealed, sealedTail. rewrite law_PeekTail, Hr, last_snoc by done. cbn [mbind option_bind].
      rewrite Elt, Hp'. cbn [entry_of Payload]. apply finished_spec in Hs as [Hs _].
      by rewrite bool_decide_eq_true_2. }
    destruct (assistantToolInvokes (Payload staged)); split_and!; auto.
  - destruct (append_fails _ _ _ (proj1 Ht) Ea) as [Hl' Hm']. split; [done|]. split; [|done].
    destruct (turn_step_inv (l, t) _ Ht (ts_assistant _ _ (Some (Payload staged)) ltac:(by rewrite Hc))) as (H1 & H2 & H3).
    split; [done|]. split; [done|]. cbn [noteAssistant tCommitted] in *. rewrite Hc in *. by rewrite Hm'.
Qed.

Lemma seal_figaro_ok n B idx r m cache :
  finished m = true -> staged_ok r ->
  Triple B (during true any_log n) (seal_figaro idx r m cache) (outcome_of idx n).
Proof.
  intros Hm Hst. unfold seal_figaro. set (staged := take_item (rdDeferred r) m).
  assert (finished (Payload staged) = true) as Hs.
  { unfold staged, take_item, staged_ok in *. by destruct (item (rdDeferred r)). }
  set (ns := match cache with Some c => Namespace c | None => [] end).
  apply triple_state. intros a [[Hl Hlive Ht Hd] _ Ho]. destruct (Ho eq_refl) as (t & Et & Hc). cbn in Et, Ht, Hd.
  rewrite Et in *.
  pose proof (sealInline_ok _ t (agCaches a !! ns) staged idx cache Ht Hc Hs) as Hseal.
  destruct (sealInline _ _ _ _ _ _ _) as [[[log native] turn] res]. destruct Hseal as (Hl' & Ht' & Hres).
  apply triple_bind with
    (R := fun _ => during false (fun l => match res with inl _ => is_sealed idx l | inr _ => True end) n).
  - eapply (triple_modify B _ _ (fun c => mkCore log turn (cLive c) (cDone c))); [done|]. intros c ->. by split.
  - intros _. destruct res as [sealed|e].
    + repeat (apply triple_then; [solve [quiet_tac]|intros ?]). apply triple_ret. intros c Hc'. right. by left.
    + apply triple_then; [solve [quiet_tac]|intros ?]. apply triple_ret. intros c Hc'. left. by split.
Qed.

Lemma on_figaro_ok n B idx r m cache :
  finished m = true -> staged_ok r ->
  Triple B (during true any_log n) (on_figaro idx r m cache) (fun x => outcome_of idx n (fst x)).
Proof.
  intros Hm Hst. unfold on_figaro. destruct (rdErr r); [by apply triple_ret; intros c Hc; right; right|].
  apply triple_then; [solve [quiet_tac]|intros i].
  apply triple_if; intros _; [by apply triple_ret; intros c Hc; right; right|].
  eapply triple_bind; [by apply seal_figaro_ok|]. intros r'. by apply triple_ret.
Qed.

(** *** The loop *)

(** What the loop keeps: before the seal the assembly and the staged message. *)
Definition round_ok (r : round (L := L)) : Prop := asm_ok (rdAsm r) /\ staged_ok r.

Lemma on_tool_ok b R n B r te :
  Triple B (during b R n) (on_tool r te)
    (fun r' c => during b R n c /\ ((round_ok r -> round_ok r') /\ rdErr r' = rdErr r)).
Proof.
  unfold on_tool. eapply triple_bind; [apply on_tool_event_ok|]. intros force.
  apply triple_then; [solve [quiet_tac]|intros ?]. by apply triple_ret.
Qed.

(** An event beside the bus. *)
Lemma off_bus_ok b R n B idx r e :
  off_bus e = true ->
  Triple B (during b R n) (on_event idx r e)
    (fun r' c => during b R n c /\ ((round_ok r -> round_ok r') /\ rdErr r' = rdErr r)).
Proof.
  intros He. destruct e as [e|tc|ev|te|]; try done; unfold on_event.
  - apply triple_ret. intros c Hc. split; [done|]. split; [|done]. intros [Ha Hst]. split; [done|].
    unfold staged_ok, deferred_Append in *. cbn. destruct (item (rdDeferred r)) as [e0|] eqn:E; cbn; [by rewrite E|done].
  - apply triple_then; [solve [quiet_tac]|intros i]. apply triple_if; intros _; [by apply triple_ret|].
    apply triple_then; [solve [quiet_tac]|intros x]. by apply triple_ret.
  - apply on_tool_ok.
  - apply triple_then; [solve [quiet_tac]|intros ?]. by apply triple_ret.
Qed.

(** An event of the bus before the seal. *)
Lemma on_bus_ok n B idx r ev :
  round_ok r -> match ev with evFigaro m _ => finished m = true | _ => True end ->
  Triple B (during true any_log n) (on_bus idx r ev) (fun r' c =>
    match ev with
    | evFigaro _ _ => outcome_of idx n r' c
    | _ => during true any_log n c /\ round_ok r'
    end).
Proof.
  intros [Ha Hst] Hev. unfold on_bus.
  apply triple_then; [solve [quiet_tac]|intros ?].
  eapply triple_bind; [by apply fold_bus_ok|]. intros [s force]. cbn [fst snd].
  set (r1 := set_Asm s (set_Ready true r)). apply triple_pure. intros Hs.
  assert (round_ok r1) as Hr1 by by split.
  eapply triple_bind; [apply checkpoint_assistant_ok|]. intros ?.
  destruct ev as [c|id name|id partial|id name args|m cache].
  1-4: apply triple_value; apply triple_then; [solve [quiet_tac]|intros ?]; by apply triple_ret.
  eapply triple_bind; [by apply on_figaro_ok|]. intros [r' ack]. cbn [fst].
  repeat apply triple_or; [apply triple_pure; intros Herr|..];
    (apply triple_then; [solve [quiet_tac]|intros ?]); (apply triple_then; [solve [quiet_tac]|intros ?]);
    apply triple_ret; intros c Hc; unfold outcome_of; cbn; auto.
Qed.

(** The events after the seal. *)
Lemma drain_off_ok b R n B idx es : forall r,
  forallb off_bus es = true ->
  Triple B (during b R n) (drain idx r es) (fun r' c => during b R n c /\ rdErr r' = rdErr r).
Proof.
  induction es as [|e es IH]; intros r; cbn [forallb drain].
  { intros _. by apply triple_ret. }
  intros [He Hes]%andb_true_iff. eapply triple_bind; [by apply off_bus_ok|]. intros r'.
  apply triple_pure. intros [_ Herr]. rewrite <- Herr. by apply IH.
Qed.

Lemma drain_ok n B idx es : forall r,
  bus_ok es = true -> round_ok r ->
  Triple B (during true any_log n) (drain idx r es) (outcome_of idx n).
Proof.
  induction es as [|e es IH]; intros r; cbn [bus_ok drain].
  { intros _ _. apply triple_ret. intros c Hc. right. by right. }
  intros Hes Hr. destruct (off_bus e) eqn:He.
  - eapply triple_bind; [by apply off_bus_ok|]. intros r'. apply triple_pure. intros [Hr' _].
    apply IH; [|by apply Hr']. destruct e; try done. by apply andb_true_iff in Hes as [_ ?].
  - destruct e as [e|tc|ev|te|]; try done.
    + cbn in He. by rewrite He in Hes.
    + destruct ev as [c|id name|id partial|id name args|m cache].
      1-4: eapply triple_bind; [by apply on_bus_ok|]; intros r'; apply triple_pure; intros Hr'; by apply IH.
      apply andb_true_iff in Hes as [Hm Hes]. eapply triple_bind; [by apply on_bus_ok|]. intros r'.
      repeat apply triple_or; [apply triple_pure; intros Herr|..];
        (eapply triple_weaken; [by apply drain_off_ok|done|]); intros r2 c [Hc Herr2]; unfold outcome_of;
        rewrite Herr2; auto.
Qed.

(** ** Tool results *)

Lemma toolLoop_ok l n expect es : forall outcomes,
  Triple (within n) (during false (eq l) n) (toolLoop expect outcomes es) (fun _ => during false (eq l) n).
Proof.
  induction es as [|e es IH]; intros outcomes; cbn [toolLoop].
  - apply triple_if; intros _; [by apply triple_ret|]. intros a Ha. by apply during_within in Ha.
  - apply triple_if; intros _; [by apply triple_ret|]. destruct e as [| |te].
    + apply triple_then; [solve [quiet_tac]|intros ?]. apply IH.
    + apply triple_then; [solve [quiet_tac]|intros ?]. apply triple_get. intros done.
      apply triple_if; intros _; [by apply triple_ret|apply IH].
    + eapply triple_bind; [apply on_tool_event_ok|]. intros force.
      apply triple_then; [solve [quiet_tac]|intros ?]. apply IH.
Qed.

Lemma collect_ok l n calls r es :
  Triple (within n) (during false (eq l) n) (collectToolResults calls r es)
    (fun m c => during false (eq l) n c /\ (mRole m = RoleUser /\ result_ids m = map cToolCallID calls /\ tool_ids m = [])).
Proof.
  unfold collectToolResults. apply triple_then; [solve [quiet_tac]|intros expect].
  eapply triple_bind; [apply toolLoop_ok|]. intros outcomes.
  apply triple_then; [solve [quiet_tac]|intros ?]. apply triple_then; [solve [quiet_tac]|intros i].
  apply triple_then; [solve [quiet_tac]|intros now]. apply triple_ret. intros c Hc. split; [done|].
  destruct (assemble_results i calls expect outcomes now) as [-> Hids]. by split.
Qed.

(** ** The ends of a round *)

(** What sealing leaves: a closed log, and no turn. *)
Definition sealed_core (n : nat) (c : core) : Prop := closed_core n c /\ cLive c = true.

Lemma sealed_log n : has_log (sealed_core n). Proof. by intros c [[] _]. Qed.
Lemma sealed_live n : has_live (sealed_core n). Proof. by intros c [_ ?]. Qed.
#[local] Hint Resolve sealed_log sealed_live : quiet.

Lemma seal_turn_ok n B : Triple B (within n) seal_turn (fun _ => sealed_core n).
Proof.
  unfold seal_turn. apply triple_then; [solve [quiet_tac]|intros now]. apply triple_state. intros a [Hl Hlive Ht Hd].
  assert (let '(l', _, _) := sealTurn (agLog a) (agTurn a) now in
    log_wf l' /\ paired_upto (messages l') /\ (reliable (L := L) -> paired (messages l'))) as Hs.
  { cbn in Hl, Ht. destruct (agTurn a) as [t|].
    - destruct (sealTurn (agLog a) (Some t) now) as [[l' out] ok] eqn:E.
      destruct (sealTurn_spec _ _ _ _ _ _ Ht E) as (H1 & H2 & H3 & H4). auto.
    - cbn. split_and!; [done|by apply paired_weaken|done]. }
  destruct (sealTurn _ _ _) as [[l' out] ok]. destruct Hs as (H1 & H2 & H3).
  apply triple_bind with (R := fun _ => sealed_core n); [|intros _; by apply triple_ret].
  eapply (triple_modify B _ _ (fun c => mkCore l' None (cLive c) (cDone c))); [done|]. intros c ->. by split.
Qed.

(** [m] ends the turn. *)
Definition ends {A} (n : nat) (P : cond) (m : Act A) : Prop := forall B, Triple B P m (fun _ => closed_core (S n)).

Lemma ends_seal n (f : bool * bool -> Act unit) :
  (forall x, ends n (sealed_core n) (f x)) -> ends n (within n) (bind seal_turn f).
Proof. intros Hf B. eapply triple_bind; [apply seal_turn_ok|]. intros x. apply Hf. Qed.

Lemma ends_then {A} n P (m : Act A) (f : A -> Act unit) :
  Quiet P m -> (forall x, ends n P (f x)) -> ends n P (bind m f).
Proof. intros Hm Hf B. apply triple_then; [done|]. intros x. apply Hf. Qed.

Lemma ends_if n P (b : bool) (m1 m2 : Act unit) : ends n P m1 -> ends n P m2 -> ends n P (if b then m1 else m2).
Proof. by destruct b. Qed.

Lemma ends_end n P r : has_log P -> (forall c, P c -> closed_core n c) -> ends n P (endTurn r).
Proof. intros HP Hc B. eapply triple_reports; [by apply reports_end|done|done]. Qed.
Lemma ends_discard n P r : has_log P -> (forall c, P c -> closed_core n c) -> ends n P (endTurnDiscarding r).
Proof. intros HP Hc B. eapply triple_reports; [by apply reports_discard|done|done]. Qed.
Lemma ends_finish n (P : cond) r : (forall c, P c -> closed_core n c) -> ends n P (finishTurn r).
Proof. intros Hc B. eapply triple_reports; [apply reports_finish|done|done]. Qed.

Lemma sealed_closed n c : sealed_core n c -> closed_core n c. Proof. by intros [? _]. Qed.
Lemma fresh_closed n c : rest fresh n c -> closed_core n c.
Proof. intros Hc. by eapply within_closed, rest_anything. Qed.
Lemma anything_closed n c : rest anything n c -> closed_core n c.
Proof. apply within_closed. Qed.
#[local] Hint Resolve sealed_closed fresh_closed anything_closed : quiet.

Ltac ends_tac := repeat first
  [ apply ends_if
  | apply ends_end; solve [eauto with quiet]
  | apply ends_discard; solve [eauto with quiet]
  | apply ends_finish; solve [eauto with quiet]
  | apply ends_then; [solve [quiet_tac]|intros ?] ].

Lemma end_interrupted_ok n service : ends n (within n) (end_interrupted service).
Proof. unfold end_interrupted. apply ends_seal. intros x. ends_tac. Qed.

Lemma end_failed_ok n e : ends n (within n) (end_failed e).
Proof. unfold end_failed. apply ends_seal. intros x. ends_tac. Qed.

Lemma end_round_error_ok n e : ends n (within n) (end_round_error e).
Proof. unfold end_round_error. apply ends_then; [solve [quiet_tac]|intros ?]. apply ends_seal. intros y. ends_tac. Qed.

Lemma end_send_error_ok n err sealed : ends n (within n) (end_send_error err sealed).
Proof.
  unfold end_send_error. intros B. apply (triple_read B _ _ cTurn); [done|]. intros t.
  destruct t as [t|].
  - eapply triple_weaken with (P' := within n); [|by intros c []|intros ? c Hc; exact Hc].
    apply ends_seal. intros x. ends_tac.
  - eapply triple_weaken with (P' := rest anything n); [| |intros ? c Hc; exact Hc].
    + apply (fun H => H B : Triple B _ _ _). ends_tac.
    + intros c [[Hl Hlive Ht Hd] Et]. rewrite Et in Ht. by split.
Qed.

(** The log of an unsealed turn is closed, whatever message without calls is
    added. *)
Lemma open_closed n c : during true any_log n c -> rest anything n c.
Proof.
  intros [[Hl Hlive Ht Hd] _ Ho]. destruct (Ho eq_refl) as (t & Et & Hc). rewrite Et in Ht.
  destruct Ht as (_ & _ & Hp). rewrite Hc in Hp. by split.
Qed.

Lemma end_unsealed_ok n : ends n (during true any_log n) end_unsealed.
Proof.
  unfold end_unsealed. apply ends_then; [solve [quiet_tac]|intros ?]. intros B.
  apply triple_get. intros t.
  eapply triple_weaken with (P' := rest anything n); [|apply open_closed|intros ? c Hc; exact Hc].
  apply (fun H => H B : Triple B _ _ _). destruct t as [t|]; [|ends_tac].
  apply ends_then; [solve [quiet_tac]|intros now]. intros B'. apply (triple_read B' _ _ cLog); [done|]. intros log.
  destruct (Append log _) as [log' e] eqn:Ea.
  apply triple_bind with (R := fun _ => rest anything n).
  - eapply (triple_modify B' _ _ (fun c => mkCore log' None (cLive c) (cDone c))); [done|].
    intros c [[Hl Hp _ Hd] <-]. destruct e as [e|].
    + destruct (append_messages _ _ _ _ Hl Ea) as (Hl' & Hm & _). split; cbn; [done| |done|done].
      rewrite Hm. by apply paired_snoc.
    + destruct (append_fails _ _ _ Hl Ea) as [Hl' Hm]. split; cbn; [done|by rewrite Hm|done|done].
  - intros _. apply (fun H => H B' : Triple B' _ _ _). destruct e; ends_tac.
Qed.

(** ** A round *)

Lemma paired_tail ms m : paired (ms ++ [m]) -> tool_ids m = [].
Proof.
  induction ms as [|x ms IH]; cbn; [by intros [[?|?] _]|]. intros [_ Hp]. by apply IH.
Qed.

(** The tail of the log within a round: all that may be unanswered. *)
Lemma within_tail n c e :
  within n c -> PeekTail (cLog c) = Some e ->
  exists ms, messages (cLog c) = ms ++ [Payload e] /\ paired_upto (ms ++ [Payload e]) /\
    (tool_ids (Payload e) <> [] -> exists t, cTurn c = Some t /\ tool_ids (tAssistant t) = tool_ids (Payload e)).
Proof.
  intros [Hl _ Ht _] He. rewrite law_PeekTail in He by done.
  apply last_Some in He as [rows Hr].
  assert (messages (cLog c) = map Payload rows ++ [Payload e]) as Hm by (unfold messages; by rewrite Hr, map_app).
  exists (map Payload rows). split; [done|].
  assert (paired (messages (cLog c)) -> tool_ids (Payload e) = []) as Hq.
  { rewrite Hm. apply paired_tail. }
  destruct (cTurn c) as [t|].
  - destruct Ht as (_ & Hok & Hp). destruct (tCommitted t).
    + destruct Hp as (ms & a & Hm' & Hup & Hids). rewrite Hm in Hm'. apply app_inj_tail in Hm' as [-> ->].
      split; [done|]. intros _. by exists t.
    + split; [by rewrite <- Hm; apply paired_weaken|]. intros Hne. by rewrite Hq in Hne.
  - split; [by rewrite <- Hm; apply paired_weaken|]. intros Hne. by rewrite Hq in Hne.
Qed.

Lemma run_tools_ok l n r es e calls :
  PeekTail l = Some e -> assistantToolInvokes (Payload e) = calls ->
  Triple (within n) (during false (eq l) n) (run_tools calls r es)
    (fun stop c => if stop : bool then closed_core (S n) c else rest fresh n c).
Proof.
  intros He Hcalls. unfold run_tools. eapply triple_bind; [apply collect_ok|]. intros m.
  apply triple_pure. intros (Hrole & Hids & Hno).
  apply triple_then; [solve [quiet_tac]|intros i]. apply triple_if; intros _.
  { eapply triple_weaken with (P' := within n); [|by intros c []|intros ? c Hc; exact Hc].
    eapply triple_bind; [apply end_interrupted_ok|]. intros ?. by apply triple_ret. }
  apply (triple_read _ _ _ cLog); [done|]. intros log.
  destruct (Append log (entry_of m)) as [log' e1] eqn:Ea.
  apply triple_bind with (R := fun _ c => match e1 with
      Some _ => rest (fun _ live => live = true) n c | None => within n c end).
  { eapply (triple_modify _ _ _ (fun c => mkCore log' (cTurn c) (cLive c) (cDone c))); [done|].
    intros c [[Hw Hl _] <-]. subst l. pose proof (within_tail n c e Hw He) as (ms & Hm & Hup & _).
    destruct Hw as [Hl Hlive Ht Hd]. destruct e1 as [e1|].
    - destruct (append_messages _ _ _ _ Hl Ea) as (Hl' & Hm' & _). split; cbn; [done| |done|done].
      rewrite Hm', Hm, <- app_assoc. apply upto_answer; [done| |done]. split; [done|].
      cbn [entry_of Payload]. by rewrite Hids, <- Hcalls.
    - destruct (append_fails _ _ _ Hl Ea) as [Hl' Hm']. split; cbn; [done|done| |done].
      destruct (cTurn c) as [t|]; [|by rewrite Hm']. destruct Ht as (_ & Hok & Hp). split; [done|]. split; [done|].
      destruct (tCommitted t); [|by rewrite Hm']. destruct Hp as (ms' & a & E1 & E2 & E3).
      exists ms', a. by rewrite Hm'. }
  intros ?. destruct e1 as [e1|].
  2: { eapply triple_bind; [apply end_failed_ok|]. intros ?. by apply triple_ret. }
  apply triple_bind with (R := fun _ => rest fresh n).
  { eapply (triple_modify _ _ _ (fun c => mkCore (cLog c) None (cLive c) (cDone c))); [done|].
    intros c [Hl Hp Hlive Hd]. by split. }
  intros ?. do 4 (apply triple_then; [solve [quiet_tac]|intros ?]). apply triple_if; intros _.
  { eapply triple_bind; [apply ends_end; eauto with quiet|]. intros ?. by apply triple_ret. }
  eapply triple_bind; [apply steering_ok|]. intros err. destruct err as [err|]; [|by apply triple_ret].
  eapply triple_bind; [apply ends_end; eauto with quiet|]. intros ?. by apply triple_ret.
Qed.

(** What the input of a round promises. *)
Definition input_ok (input : round_input) : Prop := bus_ok (riEvents input) = true.

(** A round ends the turn, leaves the log closed for the next one, or waits. *)
Definition after_round (n : nat) (stop : bool) (c : core) : Prop :=
  if stop then closed_core (S n) c else rest fresh n c.

Lemma stop_here n P (m : Act unit) : ends n P m -> Triple (within n) P (m ;; mret true) (after_round n).
Proof. intros Hm. eapply triple_bind; [apply Hm|]. intros ?. by apply triple_ret. Qed.

(** The rest of a round whose message is sealed at the tail [entry]. *)
Lemma sealed_round_ok n r input entry l :
  PeekTail l = Some entry ->
  Triple (within n) (during false (eq l) n)
    (match assistantToolInvokes (Payload entry) with
     | [] =>
         modify (set_Turn None);;
         waitWithForks;; serviceForks;;
         endTurn (Stopped (if bool_decide (mStopReason (Payload entry) = []) then StopEnd
                           else mStopReason (Payload entry)));;
         mret true
     | calls => when (rdAwaiting r) serviceForks;; waitWithForks;; run_tools calls r (riTools input)
     end) (after_round n).
Proof.
  intros He. destruct (assistantToolInvokes (Payload entry)) as [|c0 cs] eqn:Ec.
  - apply triple_bind with (R := fun _ => rest fresh n).
    + eapply (triple_modify _ _ _ (fun c => mkCore (cLog c) None (cLive c) (cDone c))); [done|].
      intros c [Hw El _]. subst l. destruct (within_tail _ _ _ Hw He) as (ms & Hm & Hup & _).
      destruct Hw as [Hl Hlive Ht Hd]. split; cbn; try done. rewrite Hm. apply upto_quiet; [done|].
      unfold tool_ids. by rewrite Ec.
    + intros ?. do 2 (apply triple_then; [solve [quiet_tac]|intros ?]).
      apply stop_here, ends_end; eauto with quiet.
  - do 2 (apply triple_then; [solve [quiet_tac]|intros ?]). by apply (run_tools_ok l n r _ entry).
Qed.

Lemma run_round_ok n input :
  input_ok input -> Triple (within n) (rest fresh n) (run_round input) (after_round n).
Proof.
  intros Hin. unfold run_round. apply triple_bind with (R := fun _ => during true any_log n).
  { eapply (triple_modify _ _ _ (fun c => match cTurn c with
      None => mkCore (cLog c) (Some newTurnState) (cLive c) (cDone c) | Some _ => c end)).
    - intros a. unfold core_of. by destruct (agTurn a) eqn:E; cbn; rewrite ?E.
    - intros c Hc. pose proof (fresh_within _ _ Hc) as Hw. destruct Hc as [Hl Hp [Hlive Ht] Hd].
      destruct (cTurn c) as [t|] eqn:Et.
      + split; [done|done|]. intros _. exists t. by destruct Ht.
      + split; [|done|by intros _; exists newTurnState]. by split. }
  intros ?. apply triple_get. intros log. set (idx := nextIndex log).
  eapply triple_bind; [apply drain_ok; [done|]|].
  { split; [|done]. intros id i. cbn. by rewrite lookup_empty. }
  intros r. destruct (rdErr r) as [err|] eqn:Err.
  { eapply triple_weaken with (P' := within n); [apply stop_here, end_round_error_ok| |intros ? c Hc; exact Hc].
    intros c [[[] _]|[[]|[]]]; done. }
  apply triple_or; [apply triple_pure; intros Hne; by rewrite Err in Hne|].
  (* the message may be sealed, or the turn is uncommitted *)
  apply (triple_read _ _ _ cLog); [done|]. intros l.
  destruct (sealedTail l idx RoleAssistant) as [entry|] eqn:Es.
  - assert (PeekTail l = Some entry) as He.
    { unfold sealedTail in Es. destruct (PeekTail l) as [e|]; [|done]. cbn in Es. case_match; [done|]. congruence. }
    eapply triple_weaken with (P' := during false (eq l) n); [| |intros ? c Hc; exact Hc].
    2: { intros c [[[Hw _ _]|[Hw _ _]] <-]; by split. }
    apply triple_then; [solve [quiet_tac]|intros ?]. apply triple_then; [solve [quiet_tac]|intros i].
    apply triple_if; intros _; [|destruct (riSendErr input) as [text|]; [|by apply sealed_round_ok]];
      (eapply triple_weaken with (P' := within n); [|intros c []; done|intros ? c Hc; exact Hc]);
      apply stop_here; [apply end_interrupted_ok|apply end_send_error_ok].
  - eapply triple_weaken with (P' := during true any_log n); [| |intros ? c Hc; exact Hc].
    2: { intros c [[Hs|Hs] El]; [|done]. destruct Hs as [_ Hs _]. unfold is_sealed in Hs.
         rewrite El, Es in Hs. by destruct Hs. }
    apply triple_then; [apply quiet_ret|intros ?]. apply triple_then; [solve [quiet_tac]|intros i].
    apply triple_if; intros _; [|destruct (riSendErr input) as [text|]; [|apply stop_here, end_unsealed_ok]];
      (eapply triple_weaken with (P' := within n); [|intros c []; done|intros ? c Hc; exact Hc]);
      apply stop_here; [apply end_interrupted_ok|apply end_send_error_ok].
Qed.

Lemma driveOneRound_ok n fuel steering input :
  input_ok input -> Triple (within n) (rest fresh n) (driveOneRound fuel steering input) (after_round n).
Proof.
  intros Hin. unfold driveOneRound. apply triple_if; intros _.
  - eapply triple_bind; [apply prepare_ok|]. intros err. destruct err as [err|]; [|by apply run_round_ok].
    apply stop_here, ends_end; eauto with quiet.
  - apply triple_then; [solve [quiet_tac]|intros ?]. by apply run_round_ok.
Qed.

Lemma drive_ok n fuel inputs : forall steering,
  Forall input_ok inputs ->
  Triple (within n) (rest fresh n) (drive fuel steering inputs) (fun _ => closed_core (S n)).
Proof.
  induction inputs as [|input inputs IH]; intros steering Hin; cbn [drive].
  { intros a Ha. by apply fresh_within. }
  apply Forall_cons in Hin as [H1 Hin]. eapply triple_bind; [by apply driveOneRound_ok|]. intros stop.
  destruct stop; [by apply triple_ret|]. by apply IH.
Qed.
End specs.
