(* ===== verification/AgentTurn.v ===== *)
(** * The agent's turns: calls and results, recovery, metrics

    The theorems about figaro's actor (src/internal/figaro/agent.go, turn.go):
    a turn leaves every call answered whatever the provider, the tools and the
    other goroutines do; a panic loses no more than that; the metrics kept
    incrementally are those of the whole log; a tool is started once. *)

From S2P Require Import Prelude Utf8 GoStrings Json Livedoc Aria Compose Toolout.
From S2P Require Import Chalkboard Inbox Message Store Responses Turn Round Agent AgentRound.
From S2P Require Import AgentLogic AgentSpec.

#[local] Open Scope agent_scope.

Section turns.
Context {L C : Type} `{!LogOps L Message} `{!LogLaws L Message} `{!LogOps C (list gostr)} `{!Env L} `{!EnvLaws L}.

#[local] Abbreviation Triple := (triple (L := L) (C := C)).

(** The turns reported done. *)
Definition done_count (a : Agent L C) : nat := length (List.filter is_done (agOut a)).

(** The log a turn can start from: at most the tail is unanswered, and then an
    append is not refused. *)
Definition startable (n : nat) (c : core (L := L)) : Prop :=
  log_wf (cLog c) /\ paired_upto (messages (cLog c)) /\
  (reliable (L := L) \/ paired (messages (cLog c))) /\ cDone c = n.

Lemma repair_ok B n now :
  Triple B (startable n) (modify (fun a => set_Log (fst (repairInterruptedTail (agLog a) now)) a))
    (fun _ => rest anything n).
Proof.
  apply (triple_modify B _ _ (fun c => mkCore (fst (repairInterruptedTail (cLog c) now)) (cTurn c) (cLive c) (cDone c)));
    [done|].
  intros c (Hl & Hup & Hr & Hd). destruct (repairInterruptedTail (cLog c) now) as [l' repaired] eqn:E.
  destruct (repair_spec _ _ _ _ Hl Hup E) as (Hl' & H1 & H2 & H3). split; cbn; try done.
  destruct Hr as [Hr|Hp].
  - destruct repaired; [by apply H2|]. destruct (H3 eq_refl) as [_ [Hp|(e & l'' & Ea)]]; [done|].
    exfalso. apply (Hr _ e Hl). by rewrite Ea.
  - by destruct (H1 Hp) as [-> _].
Qed.

Lemma turn_body_ok n fuel text input inputs :
  Forall input_ok inputs ->
  Triple (within n) (startable n) (turn_body fuel text input inputs) (fun _ => closed_core (S n)).
Proof.
  intros Hin. unfold turn_body. do 3 (apply triple_then; [solve [quiet_tac]|intros ?]).
  eapply triple_bind; [apply repair_ok|]. intros ?.
  eapply triple_bind; [apply append_prompt_ok|]. intros ok. apply triple_if; intros _.
  - apply ends_end; [apply rest_log|apply anything_closed].
  - eapply triple_bind; [apply start_unit_ok|]. intros ?. by apply drive_ok.
Qed.

Lemma runTurn_ok n fuel text input inputs :
  Forall input_ok inputs ->
  Triple (within n) (startable n) (runTurn fuel text input inputs) (fun _ => closed_core (S n)).
Proof.
  intros Hin a Ha. unfold runTurn, deferring. pose proof (turn_body_ok n fuel text input inputs Hin a Ha) as H.
  by destruct (turn_body fuel text input inputs a) as [a' [x| |]].
Qed.

(** Sealing wherever a round waits. *)
Lemma within_seal n (a : Agent L C) now l out ok :
  within n (core_of a) -> sealTurn (agLog a) (agTurn a) now = (l, out, ok) ->
  paired_upto (messages l) /\ (ok = true -> paired (messages l)).
Proof.
  intros [Hl _ Ht _] E. cbn in Hl, Ht. destruct (agTurn a) as [t|].
  - destruct (sealTurn_spec _ _ _ _ _ _ Ht E) as (_ & H2 & H3 & _). by split.
  - injection E as <- _ <-. split; [by apply paired_weaken|done].
Qed.


(** ** The actor's loop *)

Lemma control_ok B n patch :
  Triple B (rest anything n) (applyControlPatch patch) (fun _ => rest anything n).
Proof.
  unfold applyControlPatch. apply triple_bind with (R := fun _ => rest anything n).
  - apply triple_if; intros _.
    + apply (triple_read B _ _ cLog); [done|]. intros log.
      destruct (ApplyChalkboard log patch) as [log' ok] eqn:E.
      apply triple_bind with (R := fun _ => rest anything n); [|intros ?; by apply triple_ret].
      apply (triple_modify B _ _ (fun c => mkCore log' (cTurn c) (cLive c) (cDone c))); [done|].
      intros c [[Hl Hp _ Hd] <-]. pose proof (law_chalkboard (cLog c) patch Hl) as Hlaw. rewrite E in Hlaw.
      destruct Hlaw as [Hl' Hr]. cbn in Hr.
      split; cbn; try done. unfold messages. by rewrite Hr.
    + apply triple_then; [solve [quiet_tac]|intros now]. apply (triple_read B _ _ cLog); [done|]. intros log.
      destruct (Append log _) as [log' e] eqn:Ea.
      apply triple_bind with (R := fun _ => rest anything n); [|intros ?; by apply triple_ret].
      apply (triple_modify B _ _ (fun c => mkCore log' (cTurn c) (cLive c) (cDone c))); [done|].
      intros c [[Hl Hp _ Hd] <-]. destruct e as [e|].
      * destruct (append_messages _ _ _ _ Hl Ea) as (Hl' & Hm & _). split; cbn; try done.
        rewrite Hm. by apply paired_snoc.
      * destruct (append_fails _ _ _ Hl Ea) as [Hl' Hm]. split; cbn; try done. by rewrite Hm.
  - intros ok. apply triple_if; intros _; [by apply triple_ret|].
    apply triple_quiet. pose proof (rest_log anything n). quiet_tac.
Qed.

(** Between two events every call is answered, however many turns are done. *)
Definition idle (c : core (L := L)) : Prop := exists n, rest anything n c.
Definition waiting (c : core (L := L)) : Prop := exists n, within n c \/ rest anything n c.

Lemma act_one_ok fuel inputs :
  reliable (L := L) -> Forall input_ok inputs ->
  Triple waiting idle (act_one fuel inputs) (fun _ => idle).
Proof.
  intros Hr Hin a [n Ha]. revert a Ha.
  change (Triple waiting (rest anything n) (act_one fuel inputs) (fun _ => idle)).
  unfold act_one. apply triple_then; [solve [quiet_tac]|intros ?]. apply triple_get. intros b.
  destruct (Inbox.Recv b) as [b' r]. apply triple_then; [solve [quiet_tac]|intros ?].
  destruct r as [| |[text input|patch|f]].
  - intros a Ha. exists n. by right.
  - apply triple_ret. intros c Hc. by exists n.
  - eapply triple_bind with (R := fun _ => idle); [|intros ?; by apply triple_ret].
    intros a [H1 H2 _ H4]. assert (startable n (core_of a)) as Hs.
    { split_and!; try done; [by apply paired_weaken|by left]. }
    pose proof (runTurn_ok n fuel text input inputs Hin a Hs) as H.
    destruct (runTurn fuel text input inputs a) as [a' [?| |]]; [|done|].
    + destruct H as [E1 E2 E3 E4]. exists (S n). split; try done. by apply E3.
    + exists n. by left.
  - eapply triple_bind with (R := fun _ => rest anything n); [apply control_ok|]. intros ?.
    apply triple_ret. intros c Hc. by exists n.
  - apply triple_then; [solve [quiet_tac]|intros ?]. apply triple_ret. intros c Hc. by exists n.
Qed.

(** The actor over a log that refuses nothing: whatever prompts, settings and
    forks it takes from its inbox, it does not panic, and every tool call is
    answered after each of them; while a turn waits, only the last message may
    be unanswered. *)
Lemma session_ok fuel events : forall a,
  reliable (L := L) -> Forall (Forall input_ok) events -> idle (core_of a) ->
  let '(a', r) := runWithRecovery fuel events a in
  match r with
  | Ret _ => paired (messages (agLog a'))
  | Blocked => paired_upto (messages (agLog a'))
  | Panic => False
  end.
Proof.
  induction events as [|inputs events IH]; intros a Hr Hin Ha; cbn [runWithRecovery].
  { by destruct Ha as [n []]. }
  apply Forall_cons in Hin as [H1 Hin]. pose proof (act_one_ok fuel inputs Hr H1 a Ha) as H.
  destruct (act_one fuel inputs a) as [a1 [[|]| |]]; [by apply IH| |done|].
  - by destruct H as [n []].
  - destruct H as [n [[Hl _ Ht _]|[_ Hp _ _]]]; [|by apply paired_weaken]. cbn in Ht.
    destruct (agTurn a1) as [t|]; [|by apply paired_weaken]. destruct Ht as (_ & _ & Hp).
    destruct (tCommitted t); [|by apply paired_weaken]. by destruct Hp as (ms & x & -> & ? & _).
Qed.

(** ** Recovery from a panic *)

(** Two agents with the same log, server and turn, which reported as many ends. *)
Definition alike (a' a : Agent L C) : Prop :=
  agLog a' = agLog a /\ agSrv a' = agSrv a /\ agTurn a' = agTurn a /\ done_count a' = done_count a.

(** [m] ends and leaves all that as it is. *)
Definition keeps {A} (m : M (Agent L C) A) : Prop := forall a, exists a' x, m a = (a', Ret x) /\ alike a' a.

Lemma alike_trans a b c : alike a b -> alike b c -> alike a c.
Proof. intros (E1 & E2 & E3 & E4) (F1 & F2 & F3 & F4). unfold alike. by rewrite E1, E2, E3, E4. Qed.

Lemma keeps_bind {A B} (m : M (Agent L C) A) (f : A -> M (Agent L C) B) :
  keeps m -> (forall x, keeps (f x)) -> keeps (bind m f).
Proof.
  intros Hm Hf a. destruct (Hm a) as (a1 & x & E & H1). unfold bind. rewrite E.
  destruct (Hf x a1) as (a2 & y & F & H2). exists a2, y. split; [done|]. by apply (alike_trans _ a1).
Qed.
Lemma keeps_ret {A} (x : A) : keeps (mret x). Proof. intros a. by eexists _, _. Qed.
Lemma keeps_get {A} (f : Agent L C -> A) : keeps (get f). Proof. intros a. by eexists _, _. Qed.
Lemma keeps_modify f : (forall a : Agent L C, alike (f a) a) -> keeps (modify f).
Proof. intros Hf a. by eexists _, _. Qed.

Lemma done_snoc (a : Agent L C) o :
  done_count (set_Out (agOut a ++ [o]) a) = (done_count a + if is_done o then 1 else 0)%nat.
Proof. unfold done_count. cbn. rewrite List.filter_app, length_app. cbn. by destruct (is_done o). Qed.

Lemma keeps_emit o : is_done o = false -> keeps (emit o).
Proof.
  intros Ho. apply keeps_modify. intros a. unfold alike. rewrite done_snoc, Ho. by rewrite Nat.add_0_r.
Qed.

Lemma keeps_tick : keeps tick.
Proof.
  intros a. eexists _, _. split; [reflexivity|].
  apply (alike_trans _ (set_Tick (S (agTick a)) a)); [|done].
  generalize (set_Tick (S (agTick a)) a). induction (others (agTick a)) as [|x xs IH]; intros b; cbn; [done|].
  apply (alike_trans _ _ _ (IH _)). destruct x; cbn; [|done..]. unfold Interrupt. by destruct (agTurning b).
Qed.

Ltac keeps_tac := repeat first
  [ apply keeps_ret | apply keeps_get | apply keeps_tick | apply keeps_emit; reflexivity
  | apply keeps_bind; [|intros ?]
  | apply keeps_modify; intros ?; by split_and!
  | match goal with |- keeps (if ?b then _ else _) => destruct b end ].

Lemma keeps_announce old history : keeps (announce old history).
Proof. induction history; cbn; unfold when, skip, broadcast; keeps_tac. exact IHhistory. Qed.

(** The end of a turn is reported once. *)
Lemma finish_ends r (a : Agent L C) :
  exists a', finishTurn r a = (a', Ret tt) /\ agLog a' = agLog a /\ agSrv a' = agSrv a /\
    agTurn a' = agTurn a /\ done_count a' = S (done_count a).
Proof.
  assert (keeps (_ <- tick; b <- get agInbox; now <- Now; modify (set_LastActive now);; mret b)) as H1
    by (unfold Now; keeps_tac).
  assert (keeps publishMetadata) as H2 by (unfold publishMetadata, when, skip; keeps_tac).
  destruct (H1 a) as (a1 & b & E1 & K1 & K2 & K3 & K4).
  set (a2 := set_Out (agOut a1 ++ [ODone r (IsIdle b)]) a1).
  destruct (H2 a2) as (a3 & [] & E2 & K5 & K6 & K7 & K8). exists a3.
  split.
  - revert E1. unfold finishTurn, Now, bind, get, modify, mret.
    destruct (tick a) as [b1 [?| |]]; [|done..]. destruct (tick b1) as [b2 [?| |]]; [|done..].
    intros E1. injection E1 as <- <-. exact E2.
  - rewrite K5, K6, K7, K8. unfold a2. rewrite done_snoc, <- K4. cbn [is_done]. split_and!; try done. lia.
Qed.

(** The server afterwards shows the log. *)
Lemma reconcile_shows (a : Agent L C) :
  exists a', reconcileAriaServer a = (a', Ret tt) /\ agLog a' = agLog a /\ agTurn a' = agTurn a /\
    done_count a' = done_count a /\
    svClosed (agSrv a') = history_of (unwrapMessages (Store.Read (agLog a))) /\ svOpen (agSrv a') = None.
Proof.
  unfold reconcileAriaServer. unfold bind at 1 2 3, get, modify. cbv beta iota.
  set (history := history_of _). set (a1 := set_Unit _ (set_Srv _ a)).
  assert (keeps (announce (LastCommittedLT (agSrv a)) history ;;
     when (HasOpen (agSrv a) && (glen history <=? LastCommittedLT (agSrv a)))
       (u <- get agUnit; modify (set_Unit (u + 1)) ;;
        broadcast (Some (mkAriaRead [] (Some (mkLive (u + 1) 0 #"assistant" [])) None))))) as Hk.
  { apply keeps_bind; [apply keeps_announce|]. intros ?. unfold when, skip, broadcast. keeps_tac. }
  destruct (Hk a1) as (a' & [] & E & H1 & H2 & H3 & H4). exists a'. split; [exact E|].
  by rewrite H1, H2, H3, H4.
Qed.

Lemma keeps_refresh_ok (a : Agent L C) :
  log_wf (agLog a) -> exists a', refreshMetrics a = (a', Ret tt) /\ alike a' a.
Proof.
  intros Hl. unfold refreshMetrics, bind, get.
  destruct (quiet_refresh (C := C) (fun c => log_wf (cLog c)) (fun c Hc => Hc) a Hl) as (a' & [] & E & _).
  unfold refreshMetrics, bind, get in E. destruct (refresh _ _ _) as [c|]; [|done]. eexists. split; [reflexivity|done].
Qed.

(** Reading the clock first. *)
Lemma with_clock {A} (f : Z -> M (Agent L C) A) (a : Agent L C) :
  exists now a1, (now <- UnixMilli; f now) a = f now a1 /\ alike a1 a.
Proof.
  assert (keeps UnixMilli) as Hk by (unfold UnixMilli, Now; keeps_tac).
  destruct (Hk a) as (a1 & now & E & H1). exists now, a1. unfold bind. by rewrite E.
Qed.

Lemma seal_turn_log (a : Agent L C) :
  exists a' x now, seal_turn a = (a', Ret x) /\ agTurn a' = None /\ done_count a' = done_count a /\
    agLog a' = fst (fst (sealTurn (agLog a) (agTurn a) now)).
Proof.
  destruct (with_clock (fun now => a <- get (fun a : Agent L C => a);
    let '(log, appended, ok) := sealTurn (agLog a) (agTurn a) now in
    modify (fun a => set_Turn None (set_Log log a)) ;;
    mret (negb (length appended =? 0)%nat, ok)) a) as (now & a1 & E & H1 & _ & H2 & H3).
  unfold seal_turn. rewrite E. unfold bind, get, modify, mret. rewrite H1, H2.
  destruct (sealTurn _ _ now) as [[l out] ok] eqn:Es. eexists _, _, now. split; [done|]. by rewrite Es.
Qed.

(** Sealing and repairing keep a log well formed. *)
Lemma append_wf (l : L) m : log_wf l -> log_wf (fst (Append l (entry_of m))).
Proof.
  intros Hl. destruct (Append l (entry_of m)) as [l1 [e|]] eqn:E.
  - apply (append_messages _ _ _ _ Hl E).
  - apply (append_fails _ _ _ Hl E).
Qed.

Lemma repair_wf (l : L) now : log_wf l -> log_wf (fst (repairInterruptedTail l now)).
Proof.
  intros Hl. unfold repairInterruptedTail. destruct (PeekTail l) as [tail|]; [|done].
  destruct (negb _); [done|]. destruct (assistantToolInvokes _); [done|].
  match goal with |- context [entry_of ?m] => pose proof (append_wf l m Hl); by destruct (Append l (entry_of m)) as [l1 [e|]] end.
Qed.

Lemma sealTurn_wf (l : L) turn now : log_wf l -> log_wf (fst (fst (sealTurn l turn now))).
Proof.
  intros Hl.
  assert (forall l tools out, log_wf l -> log_wf (fst (fst (seal_tools l tools out now)))) as Htools.
  { intros l0 tools out Hl0. unfold seal_tools. destruct (interruptedToolResults tools) as [|c cs]; [done|].
    pose proof (append_wf l0 (user_message (c :: cs) now) Hl0). by destruct (Append l0 _) as [l1 [e|]]. }
  destruct turn as [t|]; [|done]. unfold sealTurn. destruct (tCommitted t); [by apply Htools|].
  cbn [mContent]. destruct (mContent (tAssistant t)) as [|c cs]; [done|].
  match goal with |- context [entry_of ?m] => pose proof (append_wf l m Hl); destruct (Append l (entry_of m)) as [l1 [e|]] end;
    [by apply Htools|done].
Qed.

Lemma messages_nil (l : L) : Store.Read l = [] -> messages l = [].
Proof. unfold messages. by intros ->. Qed.

(** What recovery seals: on a backed agent the turn at the log it reopened, on an
    ephemeral one the turn at a log that lost its messages. *)
Definition orphaned (turn : option turnState) : option turnState :=
  match turn with
  | Some t => if tCommitted t && negb (length (tTools t) =? 0)%nat then Some t else None
  | None => None
  end.

Definition recovered (a : Agent L C) (ms : list Message) : Prop :=
  if backed then (forall l, log_wf l -> is_Some (OpenLog l)) -> paired ms
  else match orphaned (agTurn a) with
       | Some t => exists m, ms = [m] /\ mRole m = RoleUser /\ result_ids m = tool_ids (tAssistant t)
       | None => paired ms
       end.

(** Sealing and repairing a log. *)
Definition sealed_repaired (l : L) (turn : option turnState) now now2 : L :=
  fst (repairInterruptedTail (fst (fst (sealTurn l turn now))) now2).

Lemma repaired_same (l : L) now : log_wf l -> paired (messages l) -> fst (repairInterruptedTail l now) = l.
Proof.
  intros Hl Hp. destruct (repairInterruptedTail l now) as [l' rep] eqn:E.
  destruct (repair_spec _ _ _ _ Hl (paired_weaken _ Hp) E) as (_ & H & _). by destruct (H Hp) as [-> _].
Qed.

(** On the log of the turn every call is answered. *)
Lemma recovered_kept (l : L) turn now now2 :
  reliable (L := L) -> log_wf l ->
  match turn with Some t => turn_inv (l, t) | None => paired (messages l) end ->
  paired (messages (sealed_repaired l turn now now2)).
Proof.
  intros Hr Hl Ht. unfold sealed_repaired. destruct turn as [t|]; [|cbn; by rewrite repaired_same].
  destruct (sealTurn l (Some t) now) as [[l2 out] ok] eqn:Es. cbn.
  destruct (sealTurn_spec _ _ _ _ _ _ Ht Es) as (Hl2 & H1 & _ & H2). rewrite repaired_same; auto.
Qed.

(** On an empty log the results of the turn's calls stand alone. *)
Lemma recovered_lost (l : L) t now now2 :
  reliable (L := L) -> log_wf l -> Store.Read l = [] -> turn_ok t -> tCommitted t = true -> tTools t <> [] ->
  exists m, messages (sealed_repaired l (Some t) now now2) = [m] /\ mRole m = RoleUser /\
    result_ids m = tool_ids (tAssistant t).
Proof.
  intros Hr Hl Hrd Hok Hc Hne. pose proof (interrupted_ids t Hok now) as Hids.
  unfold sealed_repaired, sealTurn. rewrite Hc. unfold seal_tools.
  destruct (interruptedToolResults (tTools t)) as [|c cs] eqn:Ei.
  { exfalso. destruct Hok as [_ _ Hall _]. destruct (tTools t) as [|x xs]; [done|].
    apply Forall_cons in Hall as [Hx _]. unfold interruptedToolResults in Ei. cbn in Ei.
    by rewrite bool_decide_eq_false_2 in Ei. }
  destruct (Append l (entry_of (user_message (c :: cs) now))) as [l2 [e|]] eqn:Ea.
  2: { exfalso. apply (Hr l (entry_of (user_message (c :: cs) now)) Hl). by rewrite Ea. }
  destruct (append_messages _ _ _ _ Hl Ea) as (Hl2 & Hm & _). rewrite (messages_nil l Hrd) in Hm. cbn in Hm.
  exists (user_message (c :: cs) now). cbn [fst]. rewrite repaired_same, Hm; [by split_and!|done|].
  rewrite Hm. by split; [left|].
Qed.

Lemma recovered_log (a : Agent L C) now now2 :
  reliable (L := L) -> log_wf (agLog a) ->
  match agTurn a with Some t => turn_inv (agLog a, t) | None => paired (messages (agLog a)) end ->
  let l := sealed_repaired (newLog (agLog a)) (agTurn a) now now2 in
  log_wf l /\ recovered a (messages l).
Proof.
  intros Hr Hl Ht. pose proof law_empty as [He Her]. cbn zeta.
  assert (log_wf (newLog (agLog a))) as Hl0.
  { unfold newLog. destruct backed; [|done]. destruct (OpenLog (agLog a)) as [l|] eqn:E; [|done].
    by apply (law_open _ _ Hl E). }
  split; [by apply repair_wf, sealTurn_wf|]. unfold recovered, newLog in *. destruct (backed : bool).
  - intros Hopen. destruct (Hopen _ Hl) as [l' E]. rewrite E in *. change (default EmptyLog (Some l')) with l' in *.
    destruct (law_open _ _ Hl E) as [Hl' Hrd]. apply recovered_kept; [done..|].
    assert (messages l' = messages (agLog a)) as Hm by (unfold messages; by rewrite Hrd).
    destruct (agTurn a) as [t|]; [|by rewrite Hm]. destruct Ht as (_ & Hok & Hp). split; [done|]. split; [done|].
    by rewrite Hm.
  - destruct (agTurn a) as [t|]; cbn [orphaned]; cycle 1.
    { apply recovered_kept; [done..|]. by rewrite messages_nil. }
    destruct (tCommitted t) eqn:Ec; cbn [andb]; cycle 1.
    { apply recovered_kept; [done..|]. split; [done|]. split; [apply Ht|]. by rewrite Ec, messages_nil. }
    destruct (tTools t) as [|x xs] eqn:Et; cbn [length Nat.eqb negb].
    + unfold sealed_repaired, sealTurn. rewrite Ec, Et. cbn.
      rewrite repaired_same; [by rewrite messages_nil|done|by rewrite messages_nil].
    + apply recovered_lost; try done; [apply Ht|by rewrite Et].
Qed.

Lemma recover_turn_ok (a : Agent L C) :
  reliable (L := L) -> log_wf (agLog a) ->
  match agTurn a with Some t => turn_inv (agLog a, t) | None => paired (messages (agLog a)) end ->
  exists a', recover_turn a = (a', Ret tt) /\ agTurn a' = None /\ done_count a' = S (done_count a) /\
    recovered a (messages (agLog a')) /\
    svClosed (agSrv a') = history_of (unwrapMessages (Store.Read (agLog a'))) /\ svOpen (agSrv a') = None.
Proof.
  intros Hr Hl Ht. set (a0 := set_Interrupted false (set_Turning false (set_Log (newLog (agLog a)) a))).
  destruct (seal_turn_log a0) as (a1 & x & now & E1 & Ht1 & Hd1 & Hl1).
  destruct (with_clock (fun now => modify (fun a => set_Log (fst (repairInterruptedTail (agLog a) now)) a) ;;
    refreshMetrics ;; reconcileAriaServer ;; finishTurn (Failed (ErrCrashed backed))) a1)
    as (now2 & a2 & E2 & Hl2 & _ & Ht2 & Hd2).
  set (a3 := set_Log (fst (repairInterruptedTail (agLog a2) now2)) a2) in *.
  assert (log_wf (agLog a3) /\ recovered a (messages (agLog a3))) as [Hwf Hrec].
  { cbn [a3 agLog set_Log]. rewrite Hl2, Hl1. cbn [a0 agLog set_Log set_Turning set_Interrupted agTurn].
    by apply recovered_log. }
  destruct (keeps_refresh_ok a3 Hwf) as (a4 & E4 & Hl4 & _ & Ht4 & Hd4).
  destruct (reconcile_shows a4) as (a5 & E5 & Hl5 & Ht5 & Hd5 & Hc5 & Ho5).
  destruct (finish_ends (Failed (ErrCrashed backed)) a5) as (a6 & E6 & Hl6 & Hs6 & Ht6 & Hd6).
  exists a6. split.
  - transitivity ((now <- UnixMilli; modify (fun a => set_Log (fst (repairInterruptedTail (agLog a) now)) a) ;;
      refreshMetrics ;; reconcileAriaServer ;; finishTurn (Failed (ErrCrashed backed))) a1).
    + unfold recover_turn, bind at 1, modify at 1. fold a0. unfold bind at 1. by rewrite E1.
    + rewrite E2. unfold bind, modify. fold a3. by rewrite E4, E5, E6.
  - rewrite Ht6, Ht5, Ht4, Hd6, Hd5, Hd4, Hl6, Hl5, Hl4, Hs6, Hc5, Ho5, Hl4. split_and!; try done.
    + cbn. by rewrite Ht2, Ht1.
    + change (done_count a3) with (done_count a2). by rewrite Hd2, Hd1.
Qed.

End turns.

(** ** Witnesses *)

Lemma memlog_reliable : reliable (L := MemLog Message).
Proof. intros l e _. cbn. unfold MemLog_Append. done. Qed.

#[local] Instance ex_laws (b : bool) : EnvLaws (Env0 := ex_env b) (MemLog Message).
Proof.
  split.
  - by intros l p Hl.
  - by intros l l' Hl [= <-].
  - split; [apply NewMemLog_wf|done].
Qed.

Definition ex_ended := runTurn (H1 := ex_env false) 5 #"hi" None ex_rounds (ex_agent false NewMemLog).


(** An agent that panics while the tool of its logged call runs. *)
Definition ex_crashed (b : bool) : Agent (MemLog Message) (MemLog (list gostr)) :=
  set_Turn (Some ex_turn) (set_Log ex_log1 (ex_agent b NewMemLog)).
#[local] Abbreviation ex_after b := (after_panic (H1 := ex_env b) (ex_crashed b)).

Lemma ex_turn_inv : turn_inv (ex_log1, ex_turn).
Proof.
  eapply turn_step_inv; [|apply ts_tool]. eapply turn_step_inv; [|by eapply (ts_commit ex_log0 newTurnState ex_assistant)].
  split; [apply ex_log0_wf|]. split; [apply new_ok|]. cbn. split; [by left|done].
Qed.

Lemma ex_goes_on b : snd (ex_after b) = Ret true.
Proof. destruct b; vm_compute; reflexivity. Qed.

