(* ===== verification/AgentMetrics.v ===== *)
(** * The agent's metrics are those of its log

    refreshMetrics (src/internal/figaro/agent.go) adds the entries after a
    watermark to the counters it has; refreshMetricsFrom counts the whole log. *)

From S2P Require Import Prelude Utf8 GoStrings Json Message Chalkboard Store Round.
From S2P Require Import Responses ResponsesTurn Turn Agent AgentRound.

Section metrics.
Context {L : Type} `{!LogOps L Message} `{!LogLaws L Message} `{!Env L}.

(** ** One more message *)

Lemma size_snoc ms m :
  ContextSize (ms ++ [m]) =
  match mUsage m with
  | Some u => (InputTokens u + OutputTokens u, true)
  | None => (fst (ContextSize ms) + EstimateMessage m, false)
  end.
Proof.
  unfold ContextSize at 1. destruct (ms ++ [m]) as [|x xs] eqn:E; [by destruct ms|]. rewrite <- E. clear x xs E.
  rewrite watermark_app. cbn [watermark]. destruct (mUsage m) as [u|] eqn:Eu; cbn [fmap option_fmap option_map]; [done|].
  unfold ContextSize. destruct (watermark ms) as [[u rest]|] eqn:Ew; cbn [fmap option_fmap option_map fst snd].
  - destruct ms as [|x xs]; [by discriminate Ew|]. destruct rest as [|y rest]; cbn [app].
    + done.
    + rewrite app_comm_cons. unfold estimate_all at 1. rewrite foldl_snoc. cbn [fst]. f_equal.
      unfold estimate_all. lia.
  - unfold estimate_all. rewrite foldl_snoc. by destruct ms.
Qed.

Lemma sum_snoc ms m : sumUsage (ms ++ [m]) = sum_step (sumUsage ms) m.
Proof. unfold sumUsage. apply foldl_snoc. Qed.

Lemma count_snoc ms m : Z.of_nat (CountMessages (ms ++ [m])) = Z.of_nat (CountMessages ms) + (if IsCeremonial m then 0 else 1).
Proof. rewrite CountMessages_app. cbn. destruct (IsCeremonial m); lia. Qed.

(** The counters of a log with one more entry, after the watermark. *)
Lemma refresh_snoc rows e snap0 snap :
  metricsLT (refreshMetricsFrom (unwrapMessages rows) snap0) < LT e ->
  with_board (refresh_step (refreshMetricsFrom (unwrapMessages rows) snap0) e) snap =
  refreshMetricsFrom (unwrapMessages (rows ++ [e])) snap.
Proof.
  unfold refreshMetricsFrom, unwrapMessages. rewrite map_app. cbn [map]. set (ms := map stamped rows).
  assert (mUsage (stamped e) = mUsage (Payload e)) as Hu by done.
  assert (EstimateMessage (stamped e) = EstimateMessage (Payload e)) as He by done.
  assert (is_assistant (stamped e) = is_assistant (Payload e)) as Ha by done.
  assert (IsCeremonial (stamped e) = IsCeremonial (Payload e)) as Hc by done.
  rewrite sum_snoc, size_snoc, count_snoc, List.filter_app, length_app, foldl_snoc, Hu, He, Hc. cbn [List.filter].
  rewrite Ha. destruct (sumUsage ms) as [[[i o] r] w]. destruct (ContextSize ms) as [ctx exact].
  cbn [metricsLT with_board]. intros Hlt. cbn [mLogicalTime stamped]. rewrite (proj2 (Z.ltb_lt _ _) Hlt).
  unfold refresh_step, with_board. cbn [tokensIn tokensOut cacheRead cacheWrite messageCount turnCount contextTokens].
  unfold sum_step. rewrite Hu. cbn [fst]. destruct (mUsage (Payload e)) as [u|]; cbn; f_equal;
    destruct (is_assistant (Payload e)); cbn; lia.
Qed.

(** ** The watermark *)

Lemma last_metrics (rows : list (Entry Message)) : 
  main_rows rows -> forall snap,
  metricsLT (refreshMetricsFrom (unwrapMessages rows) snap) =
  match last rows with Some e => LT e | None => 0 end.
Proof.
  intros [Hasc Hpos] snap. unfold refreshMetricsFrom. destruct (sumUsage _) as [[[i o] r] w].
  destruct (ContextSize _) as [ctx exact]. cbn [metricsLT with_board].
  induction rows as [|e rows IH] using rev_ind; [done|]. rewrite last_snoc.
  unfold unwrapMessages in *. rewrite map_app, foldl_app. cbn [map foldl mLogicalTime stamped].
  apply Forall_app in Hpos as [Hpos [He _]%Forall_cons].
  rewrite IH; [|intros i' j' a b Hi Hj; eapply Hasc; by apply lookup_app_l_Some|done].
  destruct (last rows) as [e'|] eqn:El.
  - apply last_Some in El as [rows' ->].
    assert (FigaroLT e' < FigaroLT e).
    { apply (Hasc (length rows') (length (rows' ++ [e']))%nat); [| |rewrite length_app; cbn; lia].
      - rewrite lookup_app_l by (rewrite length_app; cbn; lia). by rewrite list_lookup_middle.
      - by rewrite list_lookup_middle. }
    apply Forall_app in Hpos as [_ [He' _]%Forall_cons]. by rewrite (proj2 (Z.ltb_lt (LT e') (LT e))) by lia.
  - by rewrite (proj2 (Z.ltb_lt 0 (LT e))) by lia.
Qed.

Lemma refresh_all rest : forall rows c snap,
  main_rows (rows ++ rest) ->
  with_board c snap = refreshMetricsFrom (unwrapMessages rows) snap ->
  with_board (foldl refresh_step c rest) snap = refreshMetricsFrom (unwrapMessages (rows ++ rest)) snap.
Proof.
  induction rest as [|e rest IH]; intros rows c snap Hmain Hc; cbn [foldl]; [by rewrite app_nil_r|].
  rewrite cons_middle, app_assoc in *. apply IH; [done|].
  assert (with_board (refresh_step c e) snap = with_board (refresh_step (with_board c snap) e) snap) as ->.
  { unfold refresh_step, with_board. cbn. unfold sum_step. by destruct (mUsage (Payload e)). }
  rewrite Hc. apply refresh_snoc. destruct Hmain as [Hasc Hpos].
  apply Forall_app in Hpos as [Hpos _]. rewrite last_metrics.
  2: { split; [|by apply Forall_app in Hpos as [? _]]. intros i j a b Hi Hj. eapply Hasc;
       by do 2 apply lookup_app_l_Some. }
  apply Forall_app in Hpos as [Hpos [He _]%Forall_cons].
  destruct (last rows) as [e'|] eqn:El; [|lia]. apply last_Some in El as [rows' ->].
  apply Forall_app in Hpos as [_ [He' _]%Forall_cons].
  assert (FigaroLT e' < FigaroLT e); [|lia].
  apply (Hasc (length rows') (S (length rows'))); [| |lia].
  - rewrite <- !app_assoc. by apply list_lookup_middle.
  - rewrite <- !app_assoc. rewrite (app_assoc rows' [e']). apply list_lookup_middle. rewrite length_app. cbn. lia.
Qed.

Lemma main_take rows k : main_rows (T := Message) rows -> main_rows (take k rows).
Proof.
  intros [Hasc Hpos]. split; [|by apply Forall_take].
  intros i j a b Hi Hj. apply lookup_take_Some in Hi as [Hi _]. apply lookup_take_Some in Hj as [Hj _]. by eapply Hasc.
Qed.

(** The watermark of a prefix separates it from the rest. *)
Definition mark (rows : list (Entry Message)) : Z := match last rows with Some e => LT e | None => 0 end.

Lemma mark_split rows k :
  main_rows rows ->
  Forall (fun e => FigaroLT e <= mark (take k rows)) (take k rows) /\
  Forall (fun e => mark (take k rows) < FigaroLT e) (drop k rows).
Proof.
  intros [Hasc Hpos]. unfold mark. destruct (last (take k rows)) as [e|] eqn:El.
  - pose proof El as Ht. rewrite last_lookup in Ht. pose proof (lookup_lt_Some _ _ _ Ht) as Hlt.
    set (p := pred (length (take k rows))) in *. apply lookup_take_Some in Ht as [Hp Hk].
    rewrite Forall_forall in Hpos. assert (LT e = FigaroLT e) as -> by (apply Hpos; by eapply list_elem_of_lookup_2).
    split; apply Forall_lookup; intros i x Hx.
    + pose proof (lookup_lt_Some _ _ _ Hx) as Hi. apply lookup_take_Some in Hx as [Hx _].
      destruct (decide (i = p)) as [->|]; [simplify_eq; lia|].
      assert (FigaroLT x < FigaroLT e); [|lia]. eapply Hasc; [done..|]. unfold p in *. lia.
    + rewrite lookup_drop in Hx. eapply Hasc; [done..|]. lia.
  - apply last_None in El. rewrite El. split; [constructor|].
    apply Forall_drop. eapply Forall_impl; [done|]. cbn. intros x [<- ?]. done.
Qed.

(** What ReadFrom gives after the watermark of a prefix. *)
Lemma read_after_mark (l : L) k :
  log_wf l -> main_rows (Read l) -> Forall (fun e => LT e + 1 < 2 ^ 64) (Read l) ->
  ReadFrom l (wrapu64 (mark (take k (Read l)) + 1)) 0 = Some (drop k (Read l)).
Proof.
  intros Hl Hrows Hmax. set (rows := Read l) in *. destruct (mark_split rows k Hrows) as [H1 H2].
  rewrite law_ReadFrom, readFrom_all by done. f_equal.
  assert (0 <= mark (take k rows) < 2 ^ 64 - 1) as Hm.
  { unfold mark. destruct (last (take k rows)) as [e|] eqn:El; [|lia].
    assert (e ∈ rows) as Hin.
    { rewrite last_lookup in El. apply lookup_take_Some in El as [El _]. by eapply list_elem_of_lookup_2. }
    rewrite Forall_forall in Hmax. destruct Hrows as [_ Hpos]. rewrite Forall_forall in Hpos.
    specialize (Hmax _ Hin). specialize (Hpos _ Hin). lia. }
  replace (wrapu64 (mark (take k rows) + 1)) with (mark (take k rows) + 1)
    by (unfold wrapu64; symmetry; apply Z.mod_small; lia).
  change (drop (search_from rows (mark (take k rows) + 1)) rows = drop k rows).
  destruct (search_from_filter rows (mark (take k rows) + 1) (strictly_ascending_weak _ (proj1 Hrows))) as [-> _].
  transitivity (List.filter (fun e => mark (take k rows) + 1 <=? FigaroLT e) (take k rows ++ drop k rows));
    [by rewrite take_drop|].
  rewrite List.filter_app, filter_none, filter_all; [done| |];
    (eapply Forall_impl; [done|]); cbn; intros e He; [apply Z.leb_le|apply Z.leb_gt]; lia.
Qed.

(** C4: the counters the agent keeps by adding the entries after its watermark
    (tokens, messages, turns, context size and its exactness, the watermark
    itself, and what it reads from the chalkboard) are those counted from
    scratch over the whole log, from whatever prefix they were current for; and
    a log that fell behind the watermark is counted from scratch. *)
Theorem agent_metrics (l : L) (snap0 snap : snapshot) (k : nat) (c : counters)
    (Hl : log_wf l) (Hrows : main_rows (Read l)) (Hmax : Forall (fun e => LT e + 1 < 2 ^ 64) (Read l))
    (Hc : c = refreshMetricsFrom (unwrapMessages (take k (Read l))) snap0 \/
          0 < metricsLT c /\ Forall (fun e => LT e < metricsLT c) (Read l)) :
  refresh l snap c = Some (refreshMetricsFrom (unwrapMessages (Read l)) snap).
Proof.
  unfold refresh. rewrite law_PeekTail by done. set (rows := Read l) in *.
  destruct Hc as [->|[H0 Hbehind]].
  - rewrite last_metrics by by apply main_take. change (match last (take k rows) with Some e => LT e | None => 0 end) with (mark (take k rows)).
    destruct ((0 <? mark (take k rows)) && _) eqn:Eb.
    { exfalso. apply andb_true_iff in Eb as [H0 Hb]. destruct (mark_split rows k Hrows) as [_ H2].
      unfold mark in *. destruct (last (take k rows)) as [e|] eqn:El; [|done].
      destruct (last rows) as [tail|] eqn:Et.
      - apply Z.ltb_lt in Hb. rewrite last_lookup in Et. destruct Hrows as [Hasc Hpos].
        rewrite Forall_forall in Hpos.
        pose proof El as Hp. rewrite last_lookup in Hp. apply lookup_take_Some in Hp as [Hp _].
        destruct (Hpos e (list_elem_of_lookup_2 _ _ _ Hp)) as [E1 _].
        destruct (Hpos tail (list_elem_of_lookup_2 _ _ _ Et)) as [E2 _].
        pose proof (strictly_ascending_weak _ Hasc _ _ _ _ Hp Et). rewrite length_take in *. lia.
      - apply last_None in Et. by rewrite Et, take_nil in El. }
    unfold rows. rewrite read_after_mark by done. cbn [mbind option_bind]. f_equal. fold rows.
    rewrite <- (take_drop k rows) at 3. apply refresh_all; [by rewrite take_drop|].
    unfold refreshMetricsFrom. destruct (sumUsage _) as [[[i o] r] w]. by destruct (ContextSize _).
  - rewrite (proj2 (Z.ltb_lt _ _) H0). cbn [andb].
    destruct (last rows) as [e|] eqn:El; [|done].
    rewrite Forall_forall in Hbehind. apply last_Some in El as [rows' El].
    rewrite (proj2 (Z.ltb_lt _ _)); [done|]. apply Hbehind. rewrite El. apply elem_of_app. right. by apply list_elem_of_singleton.
Qed.
End metrics.

(** ** Witness *)

Lemma ex_main_rows : main_rows (Read ex_log1).
Proof.
  split; [|repeat constructor]. unfold ex_log1. cbn [Read MemLog_ops].
  repeat (apply strictly_ascending_cons; [repeat constructor|]). intros i j a b Ha. by rewrite lookup_nil in Ha.
Qed.

Lemma agent_metrics_witness :
  let from rows := refreshMetricsFrom (H1 := ex_env false) (unwrapMessages rows) ∅ in
  metricsLT (from (take 1 (Read ex_log1))) = 1 /\
  refresh (H1 := ex_env false) ex_log1 ∅ (from (take 1 (Read ex_log1))) = Some (from (Read ex_log1)).
Proof.
  cbv zeta. split; [vm_compute; reflexivity|].
  apply (agent_metrics (Env0 := ex_env false) ex_log1 ∅ ∅ 1); [exact ex_log1_wf|exact ex_main_rows|repeat constructor|by left].
Defined.
