(* ===== verification/AgentLive.v ===== *)
(** * The agent's loops end, and lose nothing

    The loop of prepareProviderRound ends once nobody sends; the loop of
    collectToolResults ends with the outcome of every tool, unless the turn is
    cancelled (src/internal/figaro/turn.go). *)

From S2P Require Import Prelude Utf8 GoStrings Json Livedoc Aria Compose Toolout.
From S2P Require Import Chalkboard Inbox Message Store Responses Turn Round Agent AgentRound AgentLogic AgentSpec.

#[local] Open Scope agent_scope.

Section live.
Context {L C : Type} `{!LogOps L Message} `{!LogOps C (list gostr)} `{!Env L}.

#[local] Abbreviation Act := (M (Agent L C)).

(** ** Computations that preserve something *)

(** [m] does not block, and keeps [P] whether it returns or panics. *)
Definition stays {A} (P : Agent L C -> Prop) (m : Act A) : Prop :=
  forall a, P a -> P (fst (m a)) /\ snd (m a) <> Blocked.

Lemma stays_ret {A} P (x : A) : stays P (mret x). Proof. by intros a Ha. Qed.
Lemma stays_get {A} P (f : Agent L C -> A) : stays P (get f). Proof. by intros a Ha. Qed.
Lemma stays_panic {A} P : stays P (panic (A := A)). Proof. by intros a Ha. Qed.
Lemma stays_modify (P : Agent L C -> Prop) f : (forall a, P a -> P (f a)) -> stays P (modify f).
Proof. intros Hf a Ha. split; [by apply Hf|done]. Qed.
Lemma stays_bind {A B} P (m : Act A) (f : A -> Act B) : stays P m -> (forall x, stays P (f x)) -> stays P (bind m f).
Proof.
  intros Hm Hf a Ha. destruct (Hm a Ha) as [H1 H2]. unfold bind. destruct (m a) as [a1 [x| |]]; [|done..].
  by apply Hf.
Qed.
Lemma stays_tick (P : Agent L C -> Prop) :
  (forall a n, P a -> P (set_Tick n a)) -> (forall a n x, x ∈ others n -> P a -> P (act_other a x)) -> stays P tick.
Proof.
  intros Ht Ho a Ha. split; [|done]. cbn. specialize (Ht a (S (agTick a)) Ha). revert Ht.
  generalize (set_Tick (S (agTick a)) a). pose proof (fun b x => Ho b (agTick a) x) as Hx. clear Ho Ha.
  induction (others (agTick a)) as [|x xs IH]; intros b Hb; cbn; [done|].
  apply IH; [|apply Hx; [by left|done]]. intros b' x' Hx'. apply Hx. by right.
Qed.

Hypothesis silent : forall n, others n = [].

(** *** What leaves the inbox alone *)

Definition inbox_is (b : Inbox) (a : Agent L C) : Prop := agInbox a = b.

Lemma still_tick b : stays (inbox_is b) tick.
Proof. apply stays_tick; [done|]. intros a n x Hx. by rewrite silent in Hx; apply elem_of_nil in Hx. Qed.

End live.

(** Take a computation apart. *)
Ltac stays_step tac :=
  match goal with
  | |- stays _ (mret _) => apply stays_ret
  | |- stays _ (get _) => apply stays_get
  | |- stays _ panic => apply stays_panic
  | |- stays _ (bind _ _) => apply stays_bind; [|intros ?]
  | |- stays _ (when ?b _) => unfold when; destruct b
  | |- stays _ (if ?b then _ else _) => destruct b
  | |- stays _ (match ?x with _ => _ end) => destruct x
  | |- stays _ (ok_or_panic ?x) => unfold ok_or_panic
  | |- _ => solve [tac]
  end.
Ltac stays_tac tac := repeat stays_step tac.

Section prepare.
Context {L C : Type} `{!LogOps L Message} `{!LogOps C (list gostr)} `{!Env L}.
Hypothesis silent : forall n, others n = [].

#[local] Abbreviation Still := (fun b m => stays (L := L) (C := C) (inbox_is b) m).

Ltac still := stays_tac ltac:(first [by apply still_tick | by apply stays_modify; intros ?; unfold inbox_is; intros <- | eauto]).

Lemma still_forks b es : stays (L := L) (C := C) (inbox_is b) (execute_forks es).
Proof. induction es as [|e es IH]; cbn; unfold executeFork, emit, skip; still. Qed.

Lemma still_prompt b text input boot : stays (L := L) (C := C) (inbox_is b) (appendUserPrompt text input boot).
Proof.
  unfold appendUserPrompt, UnixMilli, Now, refreshMetrics, emitSnapshot, emitCommit, emitDelta, broadcast, emit, skip.
  still.
Qed.

Lemma prompts_still prompts : forall a : Agent L C,
  let '(a', r) := appendPromptEvents prompts a in r <> Blocked /\ (r = Ret None -> agInbox a' = agInbox a).
Proof.
  induction prompts as [|e prompts IH]; intros a; cbn; [done|]. destruct e as [text input|p|f]; [|apply IH..].
  unfold bind at 1. destruct (still_prompt (agInbox a) text input false a eq_refl) as [E1 E2].
  destruct (appendUserPrompt text input false a) as [a1 [[|]| |]]; cbn in E1, E2; [|clear IH|done..].
  - specialize (IH a1). destruct (appendPromptEvents prompts a1) as [a2 r]. by rewrite <- E1.
  - unfold bind at 1. destruct (still_tick silent (agInbox a1) a1 eq_refl) as [_ E3].
    destruct (tick a1) as [a2 [n| |]]; [|done..]. unfold bind, get.
    match goal with |- context [if closed ?x then _ else _] => destruct (closed x) end; done.
Qed.

Lemma compose_still b nodes : stays (L := L) (C := C) (inbox_is b) (composeTurn nodes).
Proof. unfold composeTurn. still. Qed.

Lemma tick_silent (a : Agent L C) : tick a = (set_Tick (S (agTick a)) a, Ret (agTick a)).
Proof. unfold tick. by rewrite silent. Qed.

Lemma forks_ret es : forall a : Agent L C, exists a', execute_forks es a = (a', Ret tt) /\ agInbox a' = agInbox a.
Proof.
  induction es as [|e es IH]; intros a; cbn; [by eexists|]. unfold bind.
  destruct e as [text input|p|f]; cbn; [apply IH..|].
  destruct (IH (set_Out (agOut a ++ [OFork f]) a)) as (a' & E & Hb). by exists a'.
Qed.

Lemma take_forks_length b : (length (queue (fst (TakeReadyForks b))) <= length (queue b))%nat.
Proof. cbn. rewrite length_drop. lia. Qed.
Lemma take_prompts_length b :
  (length (queue (fst (TakeReadyUserPrompts b))) + length (snd (TakeReadyUserPrompts b)) = length (queue b))%nat.
Proof.
  unfold TakeReadyUserPrompts. destruct (prefix_len_spec is_prompt (queue b)) as [Hn _].
  set (n := prefix_len is_prompt (queue b)) in *. cbn [fst snd].
  assert (length (queue (signalReadyForkLocked (mkInbox (drop n (queue b)) (wake b) (closed b)))) =
    length (drop n (queue b))) as ->.
  { unfold signalReadyForkLocked. cbn [queue]. destruct (drop n (queue b)) as [|e q]; [done|]. by destruct (is_fork e). }
  rewrite length_drop, length_take. lia.
Qed.

(** Nothing is ready at the head of the queue. *)
Definition settled (b : Inbox) : Prop :=
  match queue b with e :: _ => exists p, e = eventSet p | [] => True end.

Lemma takes_settle b :
  snd (TakeReadyUserPrompts (fst (TakeReadyForks b))) = [] ->
  settled (fst (TakeReadyUserPrompts (fst (TakeReadyForks b)))).
Proof.
  destruct (prefix_len_spec is_fork (queue b)) as (_ & _ & Hf).
  unfold TakeReadyForks, TakeReadyUserPrompts. cbn [fst snd queue wake closed].
  set (q := drop (prefix_len is_fork (queue b)) (queue b)) in *. clearbody q.
  destruct q as [|[text input|p|f] q]; cbn; [done| |by eexists|done]. done.
Qed.

(** The forks and prompts the loop takes leave fewer events. *)
Lemma takes_fewer (a : Agent L C) :
  exists a1 a2 es, serviceForks a = (a1, Ret tt) /\ take_prompts a1 = (a2, Ret es) /\
    (length (queue (agInbox a2)) + length es <= length (queue (agInbox a)))%nat /\
    (es = [] -> settled (agInbox a2)).
Proof.
  unfold serviceForks, take_prompts, bind at 1. rewrite tick_silent. unfold bind, get, modify. cbn [agInbox set_Tick].
  pose proof (take_forks_length (agInbox a)) as Hf. pose proof (takes_settle (agInbox a)) as Hset.
  destruct (TakeReadyForks (agInbox a)) as [b fs].
  destruct (forks_ret fs (set_Inbox b (set_Tick (S (agTick a)) a))) as (a1 & -> & Hb1).
  exists a1. setoid_rewrite tick_silent. cbn [agInbox set_Tick]. rewrite Hb1.
  eexists _, _. split; [done|]. split; [reflexivity|]. pose proof (take_prompts_length b). cbn in *. split; [lia|done].
Qed.

Lemma prepare_unblocked (fuel : nat) (a : Agent L C) :
  (length (queue (agInbox a)) < fuel)%nat -> snd (prepareProviderRound fuel a) <> Blocked.
Proof.
  intros Hfuel.
  revert a Hfuel. induction fuel as [|fuel IH]; intros a Hlen; [lia|]. cbn [prepareProviderRound].
  destruct (takes_fewer a) as (a1 & a2 & es & E1 & E2 & Hq & _). unfold bind at 1. rewrite E1. unfold bind at 1. rewrite E2.
  destruct es as [|e es]; [done|]. set (split := hasRenderablePrompt (e :: es)).
  assert (stays (L := L) (C := C) (inbox_is (agInbox a2)) (when split (nodes <- composeTurn None;
    if (length nodes =? 0)%nat then abandonLive else emitCommit))) as Hs.
  { unfold when, abandonLive, emitCommit, broadcast, emit, skip, composeTurn. still. }
  destruct (Hs a2 eq_refl) as [Hb Hr]. unfold bind at 1. destruct (when split _ a2) as [a3 [[]| |]]; [|done..].
  cbn in Hb. unfold inbox_is in Hb. pose proof (prompts_still (e :: es) a3) as Hp. unfold bind at 1.
  destruct (appendPromptEvents (e :: es) a3) as [a4 [[err|]| |]]; [done| |done|by destruct Hp].
  destruct Hp as [_ Hp]. specialize (Hp eq_refl). unfold bind at 1.
  assert (stays (L := L) (C := C) (inbox_is (agInbox a4)) (when split startAssistantUnit)) as Hs2.
  { unfold when, startAssistantUnit, emitSnapshot, emitDelta, broadcast, emit, skip. still. }
  destruct (Hs2 a4 eq_refl) as [Hb2 Hr2]. destruct (when split startAssistantUnit a4) as [a5 [[]| |]]; [|done..].
  apply IH. cbn in Hb2. unfold inbox_is in Hb2. rewrite Hb2, Hp, Hb. cbn in Hq. lia.
Qed.

(** The loop ends of itself only when the forks and prompts at the head of the
    queue are gone. *)
Lemma prepare_settled (fuel : nat) : forall a a' : Agent L C,
  prepareProviderRound fuel a = (a', Ret None) -> settled (agInbox a').
Proof.
  induction fuel as [|fuel IH]; intros a a'; cbn [prepareProviderRound]; [done|].
  destruct (takes_fewer a) as (a1 & a2 & es & E1 & E2 & _ & Hset). unfold bind at 1. rewrite E1. unfold bind at 1. rewrite E2.
  destruct es as [|e es]; [intros [= <-]; by apply Hset|]. unfold bind at 1.
  destruct (when _ _ a2) as [a3 [[]| |]]; [|done..]. unfold bind at 1.
  destruct (appendPromptEvents (e :: es) a3) as [a4 [[err|]| |]]; [done| |done..]. unfold bind at 1.
  destruct (when _ startAssistantUnit a4) as [a5 [[]| |]]; [|done..]. apply IH.
Qed.

Context `{!LogLaws L Message} `{!EnvLaws L}.

(** C13: preparing a provider round returns.  Between two rounds (the log well
    formed and paired, the live state of the turn present, its checkpoint not
    committed) and once the other goroutines are silent, with as many turns of
    the loop as there are queued events, and one more, it comes back without a
    panic: with no error exactly after the forks and prompts at the head of the
    queue were taken, and with the log paired either way. *)
Theorem agent_prepare_returns (fuel : nat) (a : Agent L C)
    (Hfuel : (length (queue (agInbox a)) < fuel)%nat)
    (Ha : rest fresh (cDone (core_of a)) (core_of a)) :
  exists a' err, prepareProviderRound fuel a = (a', Ret err) /\
    (err = None -> settled (agInbox a')) /\
    log_wf (agLog a') /\ paired (messages (agLog a')) /\
    cDone (core_of a') = cDone (core_of a).
Proof.
  pose proof (prepare_unblocked fuel a Hfuel) as Hb. pose proof (prepare_settled fuel a) as Hs.
  pose proof (prepare_ok (cDone (core_of a)) fuel a Ha) as Hp.
  destruct (prepareProviderRound fuel a) as [a' [err| |]]; [|done..]. exists a', err. split; [done|].
  split; [intros ->; by apply Hs|]. by destruct Hp.
Qed.
End prepare.


(** ** No outcome of a tool is lost *)

Section collect.
Context {L C : Type} `{!LogOps L Message} `{!LogOps C (list gostr)} `{!Env L}.

Definition cancelled (a : Agent L C) : Prop := agCancelled a = true.

Lemma cancelled_tick : stays cancelled tick.
Proof.
  apply stays_tick; [done|]. intros a n x _ Ha. destruct x; cbn; [|done..]. unfold Interrupt.
  by destruct (agTurning a).
Qed.

Ltac stays_cancelled := stays_tac ltac:(first [by apply cancelled_tick | by apply stays_modify; intros ?; unfold cancelled]).

Lemma cancelled_emitLive m force : stays cancelled (emitLive m force).
Proof.
  unfold emitLive, isInterrupted, Now, composeTurn, emitDelta, broadcast, emit, skip. stays_cancelled.
Qed.
Lemma cancelled_clock : stays cancelled UnixMilli.
Proof. unfold UnixMilli, Now. stays_cancelled. Qed.
Lemma cancelled_interrupted : stays cancelled isInterrupted.
Proof. unfold isInterrupted. stays_cancelled. Qed.

(** The outcomes that tools reported. *)
Definition reported (tes : list toolEvent) (outcomes : gmap gostr toolOutcome) : Prop :=
  map_Forall (fun id oc => exists te, te ∈ tes /\ teID te = id /\ teKind te = toolEnd oc) outcomes.
Definition tools_of (es : list collect_event) : list toolEvent :=
  flat_map (fun e => match e with CTool te => [te] | _ => [] end) es.
Definition ended_in (ids : gset gostr) (tes : list toolEvent) : Prop :=
  Forall (fun te => match teKind te with toolEnd _ => teID te ∈ ids | _ => True end) tes.

Lemma record_reported tes ids outcomes te :
  reported tes outcomes -> dom outcomes ⊆ ids -> ended_in ids [te] ->
  reported (tes ++ [te]) (record_outcome outcomes te) /\ dom (record_outcome outcomes te) ⊆ ids.
Proof.
  intros Hr Hd [He _]%Forall_cons.
  assert (reported (tes ++ [te]) outcomes) as Hr'.
  { intros id oc Hid. destruct (Hr id oc Hid) as (te' & Hin & H). exists te'. split; [|done].
    apply elem_of_app. by left. }
  unfold record_outcome. destruct (teKind te) as [| |oc] eqn:Ek; [done..|]. split; [|set_solver].
  apply map_Forall_insert_2; [|done]. exists te. split; [|done]. apply elem_of_app. right. by left.
Qed.

Lemma record_all tes ids more : forall outcomes,
  reported tes outcomes -> dom outcomes ⊆ ids -> ended_in ids more ->
  reported (tes ++ more) (foldl record_outcome outcomes more) /\ dom (foldl record_outcome outcomes more) ⊆ ids.
Proof.
  revert tes. induction more as [|te more IH]; intros tes outcomes Hr Hd He; cbn; [by rewrite app_nil_r|].
  apply Forall_cons in He as [H1 He]. rewrite cons_middle, app_assoc.
  destruct (record_reported tes ids outcomes te Hr Hd) as [H2 H3]; [by constructor|]. by apply IH.
Qed.

Lemma toolLoop_collects ids es : forall tes outcomes (a a' : Agent L C) out,
  reported tes outcomes -> dom outcomes ⊆ ids -> ended_in ids (tools_of es) ->
  toolLoop ids outcomes es a = (a', Ret out) ->
  reported (tes ++ tools_of es) out /\ (cancelled a' \/ dom out = ids).
Proof.
  induction es as [|e es IH]; intros tes outcomes a a' out Hr Hd He; cbn [toolLoop].
  all: destruct (size ids <=? size outcomes)%nat eqn:Es.
  1,3: intros [= <- <-]; split;
    [intros id oc Hid; destruct (Hr id oc Hid) as (te & Hin & H); exists te; split; [apply elem_of_app; by left|done]|];
    right; apply Nat.leb_le in Es; rewrite <- size_dom in Es; by apply set_subseteq_size_eq.
  { done. }
  destruct e as [| |te]; unfold bind.
  - destruct (on_wake a) as [a1 [[]| |]]; [|done..]. by apply IH.
  - destruct (tick a) as [a1 [n| |]]; [|done..]. unfold get. destruct (agCancelled a1) eqn:Ec; [|by apply IH].
    intros [= <- <-]. split; [|by left]. cbn [tools_of flat_map app].
    intros id oc Hid; destruct (Hr id oc Hid) as (te & Hin & H). exists te. split; [apply elem_of_app; by left|done].
  - apply Forall_cons in He as [H1 He].
    destruct (on_tool_event te a) as [a1 [force| |]]; [|done..]. destruct (emitLive None force a1) as [a2 [[]| |]]; [|done..].
    destruct (record_reported tes ids outcomes te Hr Hd) as [H2 H3]; [by constructor|].
    intros E. specialize (IH _ _ _ _ _ H2 H3 He E). by rewrite <- app_assoc in IH.
Qed.

Lemma dispatch_expects calls : forall pending expect (a a' : Agent L C) x,
  dispatch_all pending expect calls a = (a', Ret x) -> x = expected calls ∪ expect.
Proof.
  induction calls as [|tc calls IH]; intros pending expect a a' x; cbn [dispatch_all].
  { intros [= <- <-]. unfold expected. cbn. set_solver. }
  unfold bind at 1. unfold expected. cbn [List.filter].
  unfold dispatch at 1. destruct (is_invoke tc) eqn:Ei; cbn [negb orb andb].
  - destruct (decide (cToolCallID tc = [])) as [Hid|Hid];
      [rewrite (bool_decide_eq_true_2 _ Hid)|rewrite (bool_decide_eq_false_2 _ Hid)]; cbn [negb].
    + intros E. apply IH in E. done.
    + cbn [map list_to_set]. case_bool_decide; unfold bind, emit, modify; intros E; apply IH in E; cbn in E;
        rewrite E; unfold expected; set_solver.
  - intros E. by apply IH in E.
Qed.

(** C12: when the results are collected and the turn was not cancelled meanwhile,
    every call that has an id is answered with what its own tool reported, its
    text and whether it failed, in the order of the calls; no other outcome can
    stand in for it, whatever the order and the interleaving of the tools'
    events, interrupts, forks and sends. *)
Theorem agent_tools_collected (a a' : Agent L C) (calls : list Content) (r : round) (es : list collect_event)
    (m : Message)
    (Hcalls : Forall (fun tc => is_invoke tc = true) calls)
    (Hends : ended_in (expected calls) (rdBuf r ++ tools_of es))
    (Hrun : collectToolResults calls r es a = (a', Ret m))
    (Hgo : agCancelled a' = false) :
  Forall2 (fun tc c => cToolCallID c = cToolCallID tc /\
    (cToolCallID tc <> [] -> exists te oc, te ∈ rdBuf r ++ tools_of es /\ teID te = cToolCallID tc /\
       teKind te = toolEnd oc /\ cText c = toolOutcomeText oc /\ cIsError c = ocIsErr oc))
    calls (mContent m).
Proof.
  unfold collectToolResults in Hrun. unfold bind at 1 in Hrun.
  destruct (dispatch_all (rdPending r) ∅ calls a) as [a1 [expect| |]] eqn:Ed; [|done..].
  apply dispatch_expects in Ed. assert (expect = expected calls) as -> by set_solver. clear Ed.
  unfold bind at 1 in Hrun. destruct (toolLoop _ _ es a1) as [a2 [out| |]] eqn:El; [|done..].
  apply Forall_app in Hends as [Hb He].
  destruct (record_all [] (expected calls) (rdBuf r) ∅) as [H1 H2]; [done|set_solver|done|].
  destruct (toolLoop_collects _ _ _ _ _ _ _ H1 H2 He El) as [Hrep Hdom]. cbn [app] in Hrep.
  assert (stays cancelled (emitLive None true ;; i <- isInterrupted; now <- UnixMilli;
    mret (assembleToolResults i calls (expected calls) out now) : M (Agent L C) Message)) as Hs.
  { apply stays_bind; [apply cancelled_emitLive|intros ?].
    apply stays_bind; [apply cancelled_interrupted|intros ?].
    apply stays_bind; [apply cancelled_clock|intros ?]. apply stays_ret. }
  assert (exists i now, m = assembleToolResults i calls (expected calls) out now) as (i & now & ->).
  { unfold bind in Hrun. destruct (emitLive None true a2) as [b1 [?| |]]; [|done..].
    destruct (isInterrupted b1) as [b2 [i| |]]; [|done..]. destruct (UnixMilli b2) as [b3 [now| |]]; [|done..].
    injection Hrun as _ <-. by exists i, now. }
  destruct Hdom as [Hc|Hdom].
  { destruct (Hs a2 Hc) as [Hc' _]. rewrite Hrun in Hc'. cbn in Hc'. unfold cancelled in Hc'. congruence. }
  destruct (assemble_results i calls (expected calls) out now) as [-> _]. cbn [mContent user_message].
  apply Forall2_fmap_r, Forall_Forall2_diag, Forall_forall. intros tc Hin. unfold compose, assemble_one.
  cbv beta.
  rewrite Forall_forall in Hcalls. specialize (Hcalls tc Hin).
  destruct (decide (cToolCallID tc = [])) as [Hid|Hid].
  - split; [|done]. by case_match.
  - assert (cToolCallID tc ∈ expected calls) as Hexp.
    { unfold expected. apply elem_of_list_to_set, list_elem_of_fmap. exists tc. split; [done|].
      apply list_elem_of_In, List.filter_In. split; [by apply list_elem_of_In|]. rewrite Hcalls.
      by rewrite bool_decide_eq_false_2. }
    rewrite bool_decide_eq_true_2 by exact Hexp. cbn [negb]. split; [done|]. intros _.
    rewrite <- Hdom in Hexp. apply elem_of_dom in Hexp as [oc Hoc]. rewrite Hoc. cbn [default].
    destruct (Hrep _ _ Hoc) as (te & Hte & Hid' & Hk). by exists te, oc.
Qed.

End collect.

(** ** Witnesses *)

#[local] Instance ex_live_laws (b : bool) : EnvLaws (Env0 := ex_env b) (MemLog Message).
Proof.
  split.
  - by intros l p Hl.
  - by intros l l' Hl [= <-].
  - split; [apply NewMemLog_wf|done].
Qed.

Definition ex_steered : Agent (MemLog Message) (MemLog (list gostr)) :=
  set_Gov (Some (Toolout.New 200)) (set_Partials (Some ∅)
    (set_Inbox (mkInbox [eventFork 1; eventUserPrompt #"more" None; eventSet (mkPatch ∅ [])] true false)
      (ex_agent false NewMemLog))).

Lemma agent_prepare_returns_witness :
  exists a' err, prepareProviderRound (H1 := ex_env false) 4 ex_steered = (a', Ret err) /\
    (err = None -> settled (agInbox a')) /\
    log_wf (agLog a') /\ paired (messages (agLog a')) /\
    cDone (core_of a') = cDone (core_of ex_steered).
Proof.
  apply (agent_prepare_returns (Env0 := ex_env false) (fun _ => eq_refl) 4 ex_steered); [vm_compute; lia|].
  split; [apply NewMemLog_wf|exact I| |done]. split; [|exact I]. vm_compute. reflexivity.
Defined.

(** What it logged. *)
Example ex_steered_logs :
  let '(a', r) := prepareProviderRound (H1 := ex_env false) 4 ex_steered in
  r = Ret None /\ map (fun m => (mRole m, map cText (mContent m))) (messages (agLog a')) = [(RoleUser, [ #"more"])].
Proof. vm_compute. by split. Qed.

Definition ex_collecting : Agent (MemLog Message) (MemLog (list gostr)) :=
  set_Gov (Some (Toolout.New 200)) (set_Partials (Some ∅) (ex_agent false ex_log1)).
Definition ex_round : round (L := MemLog Message) :=
  mkRound (newDeferredAppendLog ex_log1) ∅ (newAsm RoleAssistant) true true None [] true.
Definition ex_tools : list collect_event :=
  [CTool (ex_tool_event (toolChunk #"out")); CWake; CTool (ex_tool_event (toolEnd ex_outcome))].
Definition ex_collected : Agent (MemLog Message) (MemLog (list gostr)) * outcome Message :=
  collectToolResults (H1 := ex_env false) [ex_call] ex_round ex_tools ex_collecting.
Definition ex_results : Message := match snd ex_collected with Ret m => m | _ => zero_Message end.

Lemma agent_tools_collected_witness :
  map (fun c => (cToolCallID c, cText c, cIsError c)) (mContent ex_results) = [(#"t1", #"done", false)] /\
  Forall2 (fun tc c => cToolCallID c = cToolCallID tc) [ex_call] (mContent ex_results).
Proof.
  split; [vm_compute; reflexivity|].
  assert (#"t1" ∈ expected [ex_call]) as Hin by (apply (bool_decide_unpack _); vm_compute; reflexivity).
  eapply Forall2_impl.
  - apply (agent_tools_collected (Env0 := ex_env false) ex_collecting (fst ex_collected) [ex_call] ex_round ex_tools
      ex_results); [by repeat constructor|by repeat constructor|vm_compute; reflexivity..].
  - cbv beta. intros tc c H. exact (proj1 H).
Defined.
