(* ===== verification/Truncate.v ===== *)
(** * tool: bounded tool output (src/internal/tool/truncate.go).

    int is Z: every sum is at most the length of the content or of a limit, so
    no addition leaves the machine range.  FormatSize (a float rendering) and
    the environment override of maxOutputChars are not modelled. *)

From S2P Require Import Prelude Utf8 GoStrings.

(** ** Definitions *)

Definition MaxOutputLines : Z := 2000.
Definition MaxOutputBytes : Z := 50 * 1024.
Definition MaxOutputChars : Z := 30000.

(** func truncateMiddle *)
Definition truncateMiddle (s : gostr) (max : Z) : gostr :=
  if max <=? 0 then s else
  let rs := runes s in
  if glen rs <=? max then s else
  let head := max / 2 in
  let tail := max - head in
  let dropped := glen rs - head - tail in
  string_of_runes (take (Z.to_nat head) rs) ++
  (x0a :: encode_rune 0x2026 ++ # " [" ++ itoa dropped ++ # " characters truncated] " ++
   encode_rune 0x2026 ++ [x0a]) ++
  string_of_runes (drop (Z.to_nat (glen rs - tail)) rs).

(** type TruncatedBy *)
Inductive TruncatedBy := TruncatedByNone | TruncatedByLines | TruncatedByBytes.

Record TruncationResult := mkResult {
  Content : gostr; Truncated : bool; truncatedBy : TruncatedBy;
  TotalLines : Z; TotalBytes : Z; OutputLines : Z; OutputBytes : Z;
  LastLinePartial : bool; FirstLineExceedsLimit : bool; rMaxLines : Z; rMaxBytes : Z }.

Record TruncationOptions := mkOptions { MaxLines : Z; MaxBytes : Z }.

(** func (o TruncationOptions) withDefaults *)
Definition withDefaults (o : TruncationOptions) : TruncationOptions :=
  mkOptions (if MaxLines o <=? 0 then MaxOutputLines else MaxLines o)
            (if MaxBytes o <=? 0 then MaxOutputBytes else MaxBytes o).

(** The result both functions return for a content within the limits. *)
Definition untouched (content : gostr) (opts : TruncationOptions) : TruncationResult :=
  let n := glen (SplitByte LF content) in
  mkResult content false TruncatedByNone n (glen content) n (glen content) false false
    (MaxLines opts) (MaxBytes opts).

(** The loop of func TruncateHead: [i] is the index of the next line. *)
Fixpoint head_loop (opts : TruncationOptions) (i byteCount : Z) (kept ls : list gostr)
    : list gostr * TruncatedBy :=
  match ls with
  | [] => (kept, TruncatedByLines)
  | line :: ls' =>
      if MaxLines opts <=? i then (kept, TruncatedByLines) else
      let cost := glen line + (if 0 <? i then 1 else 0) in
      if MaxBytes opts <? byteCount + cost then (kept, TruncatedByBytes)
      else head_loop opts (i + 1) (byteCount + cost) (kept ++ [line]) ls'
  end.

(** func TruncateHead *)
Definition TruncateHead (content : gostr) (o : TruncationOptions) : TruncationResult :=
  let opts := withDefaults o in
  let totalBytes := glen content in
  let ls := SplitByte LF content in
  let totalLines := glen ls in
  if (totalLines <=? MaxLines opts) && (totalBytes <=? MaxBytes opts) then untouched content opts
  else if MaxBytes opts <? glen (nth 0 ls []) then
    mkResult [] true TruncatedByBytes totalLines totalBytes 0 0 false true (MaxLines opts) (MaxBytes opts)
  else
    let '(kept, by_) := head_loop opts 0 0 [] ls in
    let out := Join [LF] kept in
    mkResult out true by_ totalLines totalBytes (glen kept) (glen out) false false
      (MaxLines opts) (MaxBytes opts).

(** The loop of func truncateBytesFromEnd. *)
Fixpoint skip_cont (s : gostr) : gostr :=
  match s with
  | b :: s' => if Z.land (bz b) 0xC0 =? 0x80 then skip_cont s' else s
  | [] => []
  end.

(** func truncateBytesFromEnd *)
Definition truncateBytesFromEnd (s : gostr) (maxBytes : Z) : gostr :=
  if glen s <=? maxBytes then s else skip_cont (drop (Z.to_nat (glen s - maxBytes)) s).

(** The loop of func TruncateTail, over the lines from the last one; the result
    is the kept lines, their bytes, the limit and lastLinePartial. *)
Fixpoint tail_loop (opts : TruncationOptions) (byteCount : Z) (kept rls : list gostr)
    : list gostr * Z * TruncatedBy * bool :=
  match rls with
  | [] => (kept, byteCount, TruncatedByLines, false)
  | line :: rls' =>
      if MaxLines opts <=? glen kept then (kept, byteCount, TruncatedByLines, false) else
      let cost := glen line + (if 0 <? glen kept then 1 else 0) in
      if MaxBytes opts <? byteCount + cost then
        if glen kept =? 0 then
          let tail := truncateBytesFromEnd line (MaxBytes opts) in
          ([tail], glen tail, TruncatedByBytes, true)
        else (kept, byteCount, TruncatedByBytes, false)
      else tail_loop opts (byteCount + cost) (line :: kept) rls'
  end.

(** func TruncateTail *)
Definition TruncateTail (content : gostr) (o : TruncationOptions) : TruncationResult :=
  let opts := withDefaults o in
  let totalBytes := glen content in
  let ls := SplitByte LF content in
  let totalLines := glen ls in
  if (totalLines <=? MaxLines opts) && (totalBytes <=? MaxBytes opts) then untouched content opts
  else
    let '(kept, byteCount, by0, partial) := tail_loop opts 0 [] (rev ls) in
    let by_ := if (MaxLines opts <=? glen kept) && (byteCount <=? MaxBytes opts)
               then TruncatedByLines else by0 in
    let out := Join [LF] kept in
    mkResult out true by_ totalLines totalBytes (glen kept) (glen out) partial false
      (MaxLines opts) (MaxBytes opts).

(** ** Lemmas: joined lines *)

(** The bytes a line adds to the kept ones, as both loops count them. *)
Lemma Join_snoc_len c kept line :
  glen (Join [c] (kept ++ [line])) = glen (Join [c] kept) + (glen line + (if 0 <? glen kept then 1 else 0)).
Proof.
  destruct kept as [|p kept].
  { change (glen line = 0 + (glen line + 0)). lia. }
  rewrite Join_app by done. rewrite glen_app, glen_cons. change (Join [c] [line]) with line.
  rewrite (proj2 (Z.ltb_lt 0 _)); [lia|]. rewrite glen_cons. pose proof (glen_nonneg kept). lia.
Qed.

Lemma Join_push_len c kept line :
  glen (Join [c] (line :: kept)) = glen (Join [c] kept) + (glen line + (if 0 <? glen kept then 1 else 0)).
Proof.
  destruct kept as [|p kept].
  { change (glen line = 0 + (glen line + 0)). lia. }
  rewrite Join_cons by done. rewrite !glen_app, glen_cons. change (glen (@nil byte)) with 0.
  rewrite (proj2 (Z.ltb_lt 0 _)); [lia|]. rewrite glen_cons. pose proof (glen_nonneg kept). lia.
Qed.

(** ** Lemmas: the two loops *)

(** What the loop of TruncateHead returns from [kept] on. *)
Lemma head_loop_spec opts i byteCount kept ls res by_ :
  i = glen kept -> byteCount = glen (Join [LF] kept) -> byteCount <= MaxBytes opts ->
  i <= MaxLines opts -> head_loop opts i byteCount kept ls = (res, by_) ->
  exists more rest, res = kept ++ more /\ ls = more ++ rest /\
    glen (Join [LF] res) <= MaxBytes opts /\ glen res <= MaxLines opts /\
    match rest with
    | [] => by_ = TruncatedByLines
    | line :: _ =>
        (by_ = TruncatedByLines /\ glen res = MaxLines opts) \/
        (by_ = TruncatedByBytes /\ MaxBytes opts < glen (Join [LF] (res ++ [line])))
    end.
Proof.
  revert i byteCount kept. induction ls as [|line ls IH]; intros i bc kept Hi Hbc Hb Hl; cbn.
  { intros [= <- <-]. exists [], []. rewrite app_nil_r. subst. done. }
  destruct (Z.leb_spec (MaxLines opts) i).
  { intros [= <- <-]. exists [], (line :: ls). rewrite app_nil_r. subst. split_and!; try done.
    left. split; [done|lia]. }
  destruct (Z.ltb_spec (MaxBytes opts) (bc + (glen line + (if 0 <? i then 1 else 0)))) as [Hlt|Hge].
  { intros [= <- <-]. exists [], (line :: ls). rewrite app_nil_r. subst. split_and!; try done.
    right. split; [done|]. rewrite Join_snoc_len. lia. }
  intros Hloop. apply IH in Hloop as (more & rest & -> & -> & H1 & H2 & H3).
  - exists (line :: more), rest. rewrite <- !app_assoc in *. done.
  - rewrite glen_app, Hi. unfold glen. cbn. lia.
  - rewrite Join_snoc_len, <- Hi. lia.
  - lia.
  - lia.
Qed.

Lemma skip_cont_drop s : exists k, skip_cont s = drop k s /\ (k <= length s)%nat /\
  (k = length s \/ (k < length s)%nat /\ rune_start (bget s k) = true).
Proof.
  induction s as [|b s (k & Hk & Hle & H)]; cbn.
  { exists 0%nat. split_and!; [done|lia|by left]. }
  destruct (Z.land (bz b) 192 =? 128) eqn:E.
  - exists (S k). split_and!; [done|lia|]. destruct H as [->|[? H]]; [by left|right].
    split; [lia|done].
  - exists 0%nat. split_and!; [done|lia|]. right. split; [lia|]. unfold rune_start, bget. cbn.
    by rewrite E.
Qed.

Lemma truncateBytesFromEnd_spec s maxBytes :
  0 <= maxBytes -> glen (truncateBytesFromEnd s maxBytes) <= maxBytes /\
  (exists cut, s = cut ++ truncateBytesFromEnd s maxBytes) /\
  (valid_utf8 s -> valid_utf8 (truncateBytesFromEnd s maxBytes)).
Proof.
  intros Hm. unfold truncateBytesFromEnd. destruct (Z.leb_spec (glen s) maxBytes).
  { split_and!; [done|by exists []|done]. }
  set (m := Z.to_nat (glen s - maxBytes)).
  assert (m <= length s)%nat as Hml by (unfold m, glen in *; lia).
  destruct (skip_cont_drop (drop m s)) as (k & -> & Hk & Hst). rewrite drop_drop.
  rewrite length_drop in Hk, Hst. split_and!.
  - unfold glen in *. rewrite length_drop. lia.
  - exists (take (m + k) s). by rewrite take_drop.
  - intros Hv. apply valid_utf8_split; [done|lia|].
    destruct Hst as [->|[Hlt Hst]]; [left; lia|right]. split; [lia|].
    revert Hst. unfold bget. by rewrite nth_skipn.
Qed.

(** What the loop of TruncateTail returns: whole lines, or the tail of the last
    one when it alone is over the limit. *)
Lemma tail_loop_spec opts byteCount kept rls res bc' by_ partial :
  byteCount = glen (Join [LF] kept) -> byteCount <= MaxBytes opts -> 0 < MaxBytes opts ->
  glen kept <= MaxLines opts ->
  tail_loop opts byteCount kept rls = (res, bc', by_, partial) ->
  bc' = glen (Join [LF] res) /\ bc' <= MaxBytes opts /\
  if partial then kept = [] /\ exists line rls', rls = line :: rls' /\
    res = [truncateBytesFromEnd line (MaxBytes opts)] /\ MaxBytes opts < glen line
  else exists more rest, res = rev more ++ kept /\ rls = more ++ rest /\
    glen res <= MaxLines opts /\
    match rest with
    | [] => by_ = TruncatedByLines
    | line :: _ =>
        (by_ = TruncatedByLines /\ glen res = MaxLines opts) \/
        (by_ = TruncatedByBytes /\ MaxBytes opts < glen (Join [LF] (line :: res)))
    end.
Proof.
  intros Hbc Hb Hmax. revert byteCount kept Hbc Hb.
  induction rls as [|line rls IH]; intros bc kept Hbc Hb Hl; cbn [tail_loop].
  { intros [= <- <- <- <-]. split_and!; [done|lia|]. by exists [], []. }
  destruct (Z.leb_spec (MaxLines opts) (glen kept)).
  { intros [= <- <- <- <-]. split_and!; [done|lia|]. exists [], (line :: rls).
    split_and!; try done. left. split; [done|lia]. }
  destruct (Z.ltb_spec (MaxBytes opts) (bc + (glen line + (if 0 <? glen kept then 1 else 0)))) as [Hlt|Hge].
  - destruct (Z.eqb_spec (glen kept) 0) as [E|E]; intros [= <- <- <- <-].
    + destruct (truncateBytesFromEnd_spec line (MaxBytes opts)) as (? & _ & _); [lia|].
      assert (kept = []) as -> by (by destruct kept).
      change (Join [LF] []) with (@nil byte) in Hbc. change (glen (@nil byte)) with 0 in Hbc, Hlt.
      change (0 <? 0) with false in Hlt. cbv iota in Hlt.
      split_and!; [done|done|done|]. exists line, rls. split_and!; [done|done|]. rewrite Hbc, Z.add_0_r in Hlt. exact Hlt.
    + split_and!; [done|lia|]. exists [], (line :: rls). split_and!; try done. right. split; [done|].
      rewrite Join_push_len. lia.
  - intros Hloop. apply IH in Hloop as (H1 & H2 & H3).
    + split_and!; [done|done|]. destruct partial; [by destruct H3|].
      destruct H3 as (more & rest & -> & -> & H3). exists (line :: more), rest. cbn [rev app].
      by rewrite <- app_assoc.
    + rewrite Join_push_len. lia.
    + lia.
    + rewrite glen_cons. lia.
Qed.

(** ** Lemmas: whole lines of a text *)

Lemma Join_prefix c a b : exists rest, Join [c] (a ++ b) = Join [c] a ++ rest.
Proof.
  destruct a as [|x a]; [by eexists|]. destruct b as [|y b]; [exists []; by rewrite !app_nil_r|].
  rewrite Join_app by done. by eexists.
Qed.

Lemma Join_suffix c a b : exists cut, Join [c] (a ++ b) = cut ++ Join [c] b.
Proof.
  destruct a as [|x a]; [by exists []|]. destruct b as [|y b]; [exists (Join [c] (x :: a)); by rewrite !app_nil_r|].
  rewrite Join_app by done. exists (Join [c] (x :: a) ++ [c]). by rewrite <- app_assoc.
Qed.

(** A newline is a rune of its own: it cuts valid text into valid text. *)
Lemma valid_utf8_LF p q : valid_utf8 (p ++ LF :: q) -> valid_utf8 p /\ valid_utf8 q.
Proof.
  intros Hv. destruct (valid_utf8_split _ (length p) Hv) as [H1 H2].
  - rewrite length_app. lia.
  - right. split; [rewrite length_app; cbn; lia|]. unfold bget.
    by rewrite app_nth2, Nat.sub_diag by lia.
  - rewrite take_app_length in H1. rewrite drop_app_length in H2. split; [done|].
    apply (valid_utf8_cancel_prefix [LF] q); [|done].
    rewrite <- (app_nil_r [LF]). constructor; [by exists 10|constructor].
Qed.

Lemma valid_Join a b :
  valid_utf8 (Join [LF] (a ++ b)) -> valid_utf8 (Join [LF] a) /\ valid_utf8 (Join [LF] b).
Proof.
  destruct a as [|x a]; [by split; [constructor|]|].
  destruct b as [|y b]; [rewrite app_nil_r; by split; [|constructor]|].
  rewrite Join_app by done. apply valid_utf8_LF.
Qed.

Lemma withDefaults_pos o : 0 < MaxLines (withDefaults o) /\ 0 < MaxBytes (withDefaults o).
Proof.
  unfold withDefaults. cbn. split; case_if; try lia; unfold MaxOutputLines, MaxOutputBytes; lia.
Qed.

(** A content over a limit does not fit with all its lines. *)
Lemma over_limit content opts :
  (glen (SplitByte LF content) <=? MaxLines opts) && (glen content <=? MaxBytes opts) = false ->
  glen (SplitByte LF content) <= MaxLines opts ->
  glen (Join [LF] (SplitByte LF content)) <= MaxBytes opts -> False.
Proof.
  rewrite Join_Split. intros H ??. rewrite !(proj2 (Z.leb_le _ _)) in H by done. done.
Qed.

Lemma first_line_le content : glen (nth 0 (SplitByte LF content) []) <= glen content.
Proof.
  rewrite <- (Join_Split LF content) at 2. destruct (SplitByte LF content) as [|l ls]; cbn [nth].
  - apply glen_nonneg.
  - destruct (Join_prefix LF [l] ls) as [rest H]. change ([l] ++ ls) with (l :: ls) in H.
    rewrite H, glen_app. change (Join [LF] [l]) with l. pose proof (glen_nonneg rest). lia.
Qed.

Lemma within_first content opts :
  (glen (SplitByte LF content) <=? MaxLines opts) && (glen content <=? MaxBytes opts) = true ->
  (MaxBytes opts <? glen (nth 0 (SplitByte LF content) [])) = false.
Proof. intros H. bool_hyps. apply Z.ltb_ge. pose proof (first_line_le content). lia. Qed.

(** The three results of TruncateHead as one: whole first lines, and why they
    are not all the lines. *)
Lemma head_cases content o :
  let r := TruncateHead content o in
  exists kept rest, SplitByte LF content = kept ++ rest /\
    Content r = Join [LF] kept /\ OutputLines r = glen kept /\
    OutputBytes r = glen (Join [LF] kept) /\ glen (Join [LF] kept) <= rMaxBytes r /\
    glen kept <= rMaxLines r /\
    FirstLineExceedsLimit r = (rMaxBytes r <? glen (nth 0 (SplitByte LF content) [])) /\
    match rest with
    | [] => Truncated r = false
    | line :: _ => Truncated r = true /\
        ((truncatedBy r = TruncatedByLines /\ glen kept = rMaxLines r) \/
         (truncatedBy r = TruncatedByBytes /\ rMaxBytes r < glen (Join [LF] (kept ++ [line]))))
    end.
Proof.
  cbn zeta. unfold TruncateHead. pose proof (withDefaults_pos o) as [HL HB].
  set (opts := withDefaults o) in *. pose proof (Join_Split LF content) as HJ.
  pose proof (over_limit content opts) as Hover. pose proof (within_first content opts) as Hfirst.
  pose proof (Split_nonempty LF content) as Hne.
  destruct (_ && _) eqn:E.
  - exists (SplitByte LF content), []. rewrite app_nil_r, HJ.
    cbn [untouched Content OutputLines OutputBytes Truncated FirstLineExceedsLimit rMaxLines rMaxBytes].
    rewrite Hfirst by done. bool_hyps. done.
  - specialize (Hover eq_refl).
    destruct (Z.ltb_spec (MaxBytes opts) (glen (nth 0 (SplitByte LF content) []))) as [Hf|Hf].
    + clear HJ Hover Hfirst. destruct (SplitByte LF content) as [|l ls]; [done|].
      exists [], (l :: ls). cbn in *. rewrite (proj2 (Z.ltb_lt _ _) Hf). split_and!; try done; try (unfold glen; cbn; lia). by right.
    + destruct (head_loop opts 0 0 [] (SplitByte LF content)) as [kept by_] eqn:Eh.
      apply head_loop_spec in Eh as (more & rest & -> & Hs & H1 & H2 & H3); try done; try lia.
      cbn [app] in *. exists more, rest.
      cbn [Content OutputLines OutputBytes Truncated FirstLineExceedsLimit rMaxLines rMaxBytes truncatedBy].
      rewrite (proj2 (Z.ltb_ge _ _) Hf). split_and!; try done. destruct rest as [|line rest]; [|done].
      rewrite app_nil_r in Hs. rewrite Hs in Hover. by destruct Hover.
Qed.

(** ** Properties *)

(** The head truncation of a content: the result is the longest run of whole
    first lines within both limits, reported with its exact line and byte counts
    and the limit that stopped it; a first line over the byte limit gives the
    empty text and its flag; valid UTF-8 stays valid. *)
Theorem truncate_head (content : gostr) (o : TruncationOptions) :
  let r := TruncateHead content o in
  let ls := SplitByte LF content in
  let k := Z.to_nat (OutputLines r) in
  Content r = Join [LF] (take k ls) /\
  (exists rest, content = Content r ++ rest) /\
  OutputBytes r = glen (Content r) /\ OutputBytes r <= rMaxBytes r /\
  0 <= OutputLines r <= rMaxLines r /\
  (if Truncated r then (k < length ls)%nat /\
     match truncatedBy r with
     | TruncatedByLines => OutputLines r = rMaxLines r
     | TruncatedByBytes => rMaxBytes r < glen (Join [LF] (take (S k) ls))
     | TruncatedByNone => False
     end
   else k = length ls) /\
  FirstLineExceedsLimit r = (rMaxBytes r <? glen (nth 0 ls [])) /\
  (valid_utf8 content -> valid_utf8 (Content r)).
Proof.
  cbn zeta. destruct (head_cases content o) as (kept & rest & Hs & -> & -> & -> & Hb & Hl & -> & Hr).
  pose proof (Join_Split LF content) as HJ. rewrite Hs in *.
  replace (Z.to_nat (glen kept)) with (length kept) by (unfold glen; lia).
  rewrite take_app_length. split_and!; try done.
  - destruct (Join_prefix LF kept rest) as [t Ht]. exists t. congruence.
  - apply glen_nonneg.
  - rewrite length_app. destruct rest as [|line rest]; [rewrite Hr; cbn; lia|].
    destruct Hr as [-> Hr]. split; [cbn; lia|].
    destruct Hr as [[-> Hr]|[-> Hr]]; [done|].
    by rewrite (take_S_r _ _ line), take_app_length by (by rewrite list_lookup_middle).
  - rewrite <- HJ. intros Hv. by apply valid_Join in Hv as [Hv _].
Qed.

Lemma truncate_head_witness :
  let r := TruncateHead (# "ab" ++ LF :: # "cd" ++ LF :: # "ef") (mkOptions 2 9) in
  Content r = # "ab" ++ LF :: # "cd" /\ valid_utf8 (Content r).
Proof.
  split; [vm_compute; reflexivity|].
  apply (truncate_head (# "ab" ++ LF :: # "cd" ++ LF :: # "ef") (mkOptions 2 9)).
  repeat (match goal with |- valid_utf8 ?s => let s' := eval vm_compute in s in change (valid_utf8 s') end;
    (apply valid_nil || (apply (valid_cons [_]); [by eexists|]))).
Defined.

(** The results of TruncateTail as one: whole last lines, or the end of the last. *)
Lemma tail_cases content o :
  let r := TruncateTail content o in
  let ls := SplitByte LF content in
  exists rest kept, ls = rest ++ kept /\ OutputBytes r = glen (Content r) /\
    OutputBytes r <= rMaxBytes r /\ OutputLines r <= rMaxLines r /\
    OutputLines r = glen kept /\
    if LastLinePartial r then
      Truncated r = true /\ exists line, kept = [line] /\ rMaxBytes r < glen line /\
      Content r = truncateBytesFromEnd line (rMaxBytes r) /\ 0 < rMaxBytes r
    else Content r = Join [LF] kept /\
      match rev rest with
      | [] => Truncated r = false
      | line :: _ => Truncated r = true /\
          ((truncatedBy r = TruncatedByLines /\ glen kept = rMaxLines r) \/
           (truncatedBy r = TruncatedByBytes /\ rMaxBytes r < glen (Join [LF] (line :: kept))))
      end.
Proof.
  cbn zeta. unfold TruncateTail. pose proof (withDefaults_pos o) as [HL HB].
  set (opts := withDefaults o) in *. pose proof (Join_Split LF content) as HJ.
  pose proof (over_limit content opts) as Hover.
  destruct (_ && _) eqn:E.
  - exists [], (SplitByte LF content). cbn [rev app].
    cbn [untouched Content OutputLines OutputBytes Truncated LastLinePartial rMaxLines rMaxBytes].
    rewrite HJ. bool_hyps. done.
  - specialize (Hover eq_refl). clear HJ.
    destruct (tail_loop opts 0 [] (rev (SplitByte LF content))) as [[[kept bc] by_] partial] eqn:Et.
    apply tail_loop_spec in Et as (-> & H2 & H3); [|done|lia|done|change (glen (@nil gostr)) with 0; lia].
    cbn [Content OutputLines OutputBytes Truncated LastLinePartial rMaxLines rMaxBytes truncatedBy].
    rewrite (proj2 (Z.leb_le _ _) H2), andb_true_r. destruct partial.
    + destruct H3 as (_ & line & rls & Hrev & -> & Hlt). exists (rev rls), [line].
      apply (f_equal (@rev gostr)) in Hrev. rewrite rev_involutive in Hrev. cbn [rev] in Hrev.
      split_and!; try done; [unfold glen; cbn [length]; lia|]. by exists line.
    + destruct H3 as (more & rest & -> & Hrev & H4 & H5). rewrite app_nil_r in *.
      apply (f_equal (@rev gostr)) in Hrev. rewrite rev_involutive, rev_app_distr in Hrev.
      exists (rev rest), (rev more). rewrite rev_involutive. split_and!; try done.
      destruct rest as [|line rest]; [exfalso; rewrite Hrev in Hover; cbn in *; by apply Hover|].
      split; [done|]. destruct H5 as [[-> H5]|[-> H5]].
      * left. by case_if.
      * destruct (Z.leb_spec (MaxLines opts) (glen (rev more))); [left|by right]. split; [done|lia].
Qed.

(** The tail truncation of a content: the result is a suffix of it within both
    limits: the longest run of whole last lines, or, when the last line alone is
    over the byte limit, the end of that line; valid UTF-8 stays valid even then. *)
Theorem truncate_tail (content : gostr) (o : TruncationOptions) :
  let r := TruncateTail content o in
  let ls := SplitByte LF content in
  let k := Z.to_nat (OutputLines r) in
  (exists cut, content = cut ++ Content r) /\
  OutputBytes r = glen (Content r) /\ OutputBytes r <= rMaxBytes r /\
  0 <= OutputLines r <= rMaxLines r /\
  (if LastLinePartial r then Truncated r = true /\ rMaxBytes r < glen (nth (length ls - 1) ls [])
   else
     Content r = Join [LF] (drop (length ls - k) ls) /\
     if Truncated r then (k < length ls)%nat /\
       match truncatedBy r with
       | TruncatedByLines => OutputLines r = rMaxLines r
       | TruncatedByBytes => rMaxBytes r < glen (Join [LF] (drop (length ls - S k) ls))
       | TruncatedByNone => False
       end
     else k = length ls) /\
  (valid_utf8 content -> valid_utf8 (Content r)).
Proof.
  cbn zeta. destruct (tail_cases content o) as (rest & kept & Hs & -> & Hb & Hl & Hk & Hr).
  pose proof (Join_Split LF content) as HJ. rewrite Hs, Hk in *.
  replace (Z.to_nat (glen kept)) with (length kept) by (unfold glen; lia).
  destruct (Join_suffix LF rest kept) as [cut Hcut].
  destruct (LastLinePartial (TruncateTail content o)).
  - destruct Hr as (-> & line & -> & Hlt & Hc & Hpos). rewrite Hc in *. cbn [Join] in Hcut.
    destruct (truncateBytesFromEnd_spec line (rMaxBytes (TruncateTail content o)))
      as (_ & [cut' Ht] & Hv); [lia|].
    split_and!; try done.
    + exists (cut ++ cut'). rewrite <- app_assoc, <- Ht. congruence.
    + rewrite app_nth2 by (rewrite length_app; cbn; lia).
      replace (_ - _ - _)%nat with 0%nat by (rewrite length_app; cbn; lia). exact Hlt.
    + intros Hc'. apply Hv. rewrite <- HJ in Hc'. by apply valid_Join in Hc' as [_ Hc'].
  - destruct Hr as [Hc Hr]. rewrite Hc in *. rewrite length_app, Nat.add_sub, drop_app_length. split_and!; try done.
    + exists cut. congruence.
    + apply glen_nonneg.
    + destruct (rev rest) as [|line rrest] eqn:Er;
        apply (f_equal (@rev gostr)) in Er; rewrite rev_involutive in Er; cbn [rev] in Er; subst rest.
      { by rewrite Hr. }
      destruct Hr as [-> Hr]. rewrite length_app. split; [cbn; lia|].
      destruct Hr as [[-> Hr]|[-> Hr]]; [done|]. rewrite <- app_assoc.
      replace (_ + _ - _)%nat with (length (rev rrest)) by (cbn; lia). by rewrite drop_app_length.
    + rewrite <- HJ. intros Hv. by apply valid_Join in Hv as [_ Hv].
Qed.

Lemma truncate_tail_witness :
  let r := TruncateTail (# "ab" ++ LF :: # "cd" ++ LF :: # "efgh") (mkOptions 2 3) in
  Content r = # "fgh" /\ LastLinePartial r = true /\ valid_utf8 (Content r).
Proof.
  split; [vm_compute; reflexivity|]. split; [vm_compute; reflexivity|].
  apply (truncate_tail (# "ab" ++ LF :: # "cd" ++ LF :: # "efgh") (mkOptions 2 3)).
  repeat (match goal with |- valid_utf8 ?s => let s' := eval vm_compute in s in change (valid_utf8 s') end;
    (apply valid_nil || (apply (valid_cons [_]); [by eexists|]))).
Defined.
