(* ===== verification/Edit.v ===== *)
(** * tool: the edit tool (src/internal/tool/linending.go, fuzzy.go,
    editdiff.go, edit.go).

    [nfkc] stands for norm.NFKC.String of golang.org/x/text.  Errors are their
    rendered texts.  A slice expression out of range, a panic in Go, is [None].
    GenerateDiff (the report shown with the result) is not modelled. *)

From S2P Require Import Prelude Utf8 GoStrings Json GoJson.

(** ** Definitions: line endings and byte order mark *)

Definition CR : byte := x0d.

Inductive LineEnding := LineEndingLF | LineEndingCRLF.

(** func DetectLineEnding *)
Definition DetectLineEnding (content : gostr) : LineEnding :=
  match Index content [LF] with
  | None => LineEndingLF
  | Some lf =>
      match Index content [CR; LF] with
      | None => LineEndingLF
      | Some crlf => if (crlf <? lf)%nat then LineEndingCRLF else LineEndingLF
      end
  end.

(** func NormalizeToLF *)
Definition NormalizeToLF (content : gostr) : gostr :=
  let content := ReplaceAll content [CR; LF] [LF] in
  ReplaceAll content [CR] [LF].

(** func RestoreLineEndings *)
Definition RestoreLineEndings (content : gostr) (ending : LineEnding) : gostr :=
  match ending with
  | LineEndingCRLF => ReplaceAll content [LF] [CR; LF]
  | LineEndingLF => content
  end.

Definition utf8BOM : gostr := [xef; xbb; xbf].

(** func StripBOM *)
Definition StripBOM (content : gostr) : gostr * gostr :=
  if has_prefix content utf8BOM then (utf8BOM, drop (length utf8BOM) content) else ([], content).

(** ** Definitions: fuzzy matching *)

(** The switch of func NormalizeForFuzzyMatch on one rune. *)
Definition fuzzy_rune (r : Z) : gostr :=
  if (0x2018 <=? r) && (r <=? 0x201B) then [x27]
  else if (0x201C <=? r) && (r <=? 0x201F) then [x22]
  else if ((0x2010 <=? r) && (r <=? 0x2015)) || (r =? 0x2212) then [x2d]
  else if (r =? 0x00A0) || ((0x2002 <=? r) && (r <=? 0x200A)) || (r =? 0x202F) ||
          (r =? 0x205F) || (r =? 0x3000) then [x20]
  else encode_rune r.

Section Fuzzy.
Context (nfkc : gostr -> gostr).

(** func NormalizeForFuzzyMatch *)
Definition NormalizeForFuzzyMatch (text : gostr) : gostr :=
  let text := nfkc text in
  let text := Join [LF] (map (fun line => TrimRightSet line [x20; x09; CR]) (SplitByte LF text)) in
  concat (map fuzzy_rune (runes text)).

Record FuzzyMatchResult := mkMatch {
  Found : bool; mIndex : nat; MatchLength : nat; UsedFuzzyMatch : bool;
  ContentForReplacement : gostr }.

(** func FuzzyFind *)
Definition FuzzyFind (haystack needle : gostr) : FuzzyMatchResult :=
  match Index haystack needle with
  | Some i => mkMatch true i (length needle) false haystack
  | None =>
      let normHay := NormalizeForFuzzyMatch haystack in
      let normNeedle := NormalizeForFuzzyMatch needle in
      match Index normHay normNeedle with
      | Some i => mkMatch true i (length normNeedle) true normHay
      | None => mkMatch false 0 0 false haystack
      end
  end.

(** func CountFuzzyOccurrences *)
Definition CountFuzzyOccurrences (haystack needle : gostr) : nat :=
  if bool_decide (needle = []) then 0
  else Count (NormalizeForFuzzyMatch haystack) (NormalizeForFuzzyMatch needle).

(** ** Definitions: applying edits *)

Record EditOp := mkEdit { OldText : gostr; NewText : gostr }.
Record appliedEdits := mkApplied { baseContent : gostr; newContent : gostr }.

(** func notFoundError, duplicateMatchError, emptyOldTextError, noChangeError *)
Definition notFoundError (path : gostr) (idx total : nat) : gostr :=
  if (total =? 1)%nat
  then # "could not find the exact text in " ++ path ++
       # ". The old text must match exactly including all whitespace and newlines."
  else # "could not find edits[" ++ itoa (Z.of_nat idx) ++ # "] in " ++ path ++
       # ". The oldText must match exactly including all whitespace and newlines.".
Definition duplicateMatchError (path : gostr) (idx total occurrences : nat) : gostr :=
  if (total =? 1)%nat
  then # "found " ++ itoa (Z.of_nat occurrences) ++ # " occurrences of the text in " ++ path ++
       # ". The text must be unique. Please provide more context to make it unique."
  else # "found " ++ itoa (Z.of_nat occurrences) ++ # " occurrences of edits[" ++ itoa (Z.of_nat idx) ++ # "] in " ++ path ++
       # ". Each oldText must be unique. Please provide more context to make it unique.".
Definition emptyOldTextError (path : gostr) (idx total : nat) : gostr :=
  if (total =? 1)%nat then # "oldText must not be empty in " ++ path
  else # "edits[" ++ itoa (Z.of_nat idx) ++ # "].oldText must not be empty in " ++ path.
Definition noChangeError (path : gostr) (total : nat) : gostr :=
  if (total =? 1)%nat
  then # "no changes made to " ++ path ++ # ". The replacement produced identical content. This might indicate an issue with special characters or the text not existing as expected."
  else # "no changes made to " ++ path ++ # ". The replacements produced identical content.".

Definition overlapError (path : gostr) (a b : nat) : gostr :=
  # "edits[" ++ itoa (Z.of_nat a) ++ # "] and edits[" ++ itoa (Z.of_nat b) ++ # "] overlap in " ++ path ++
  # ". merge them into one edit or target disjoint regions".

(** The first loop of func applyEditsToNormalized. *)
Fixpoint normalize_edits (path : gostr) (i total : nat) (edits : list EditOp) : list EditOp + gostr :=
  match edits with
  | [] => inl []
  | e :: es =>
      if bool_decide (OldText e = []) then inr (emptyOldTextError path i total) else
      match normalize_edits path (S i) total es with
      | inl ns => inl (mkEdit (NormalizeToLF (OldText e)) (NormalizeToLF (NewText e)) :: ns)
      | inr err => inr err
      end
  end.

(** The loop that computes initialNeedsFuzzy. *)
Definition initialNeedsFuzzy (normalized : gostr) (normEdits : list EditOp) : bool :=
  existsb (fun e => let m := FuzzyFind normalized (OldText e) in Found m && UsedFuzzyMatch m) normEdits.

Record matched := mkMatched { editIndex : nat; start : nat; mlength : nat; newText : gostr }.

(** The loop that resolves every edit to a range of [base]. *)
Fixpoint resolve (path base : gostr) (i total : nat) (edits : list EditOp) : list matched + gostr :=
  match edits with
  | [] => inl []
  | e :: es =>
      let m := FuzzyFind base (OldText e) in
      if negb (Found m) then inr (notFoundError path i total) else
      let occ := CountFuzzyOccurrences base (OldText e) in
      if (1 <? occ)%nat then inr (duplicateMatchError path i total occ) else
      match resolve path base (S i) total es with
      | inl rs => inl (mkMatched i (mIndex m) (MatchLength m) (NewText e) :: rs)
      | inr err => inr err
      end
  end.

(** sort.Slice by start: for the few edits of a request, the stable insertion
    sort; the order of equal starts shows only for empty matches. *)
Definition start_le (a b : matched) : Prop := (start a <= start b)%nat.
#[export] Instance start_le_dec : RelDecision start_le.
Proof. intros a b. unfold start_le. apply _. Defined.
#[export] Instance start_le_total : Total start_le.
Proof. intros a b. unfold start_le. lia. Qed.
#[export] Instance start_le_trans : Transitive start_le.
Proof. intros a b c. unfold start_le. lia. Qed.

(** The loop over adjacent ranges: the first overlap. *)
Fixpoint overlap (path : gostr) (rs : list matched) : option gostr :=
  match rs with
  | prev :: (cur :: _) as rs' =>
      if (start cur <? start prev + mlength prev)%nat
      then Some (overlapError path (editIndex prev) (editIndex cur))
      else overlap path rs'
  | _ => None
  end.

(** out[:r.start] + r.newText + out[r.start+r.length:] *)
Definition splice (out : gostr) (r : matched) : option gostr :=
  pre ← slice out 0 (Z.of_nat (start r));
  post ← slice out (Z.of_nat (start r + mlength r)) (glen out);
  Some (pre ++ newText r ++ post).

(** The last loop: from the last range to the first. *)
Definition replace_ranges (base : gostr) (rs : list matched) : option gostr :=
  foldr (fun r out => o ← out; splice o r) (Some base) rs.

(** func applyEditsToNormalized: None is a panic, inr an error. *)
Definition applyEditsToNormalized (normalized : gostr) (edits : list EditOp) (displayPath : gostr)
    : option (appliedEdits + gostr) :=
  if bool_decide (edits = []) then Some (inr (# "edits must contain at least one replacement")) else
  match normalize_edits displayPath 0 (length edits) edits with
  | inr err => Some (inr err)
  | inl normEdits =>
      let base := if initialNeedsFuzzy normalized normEdits
                  then NormalizeForFuzzyMatch normalized else normalized in
      match resolve displayPath base 0 (length normEdits) normEdits with
      | inr err => Some (inr err)
      | inl rs =>
          let resolved := merge_sort start_le rs in
          match overlap displayPath resolved with
          | Some err => Some (inr err)
          | None =>
              out ← replace_ranges base resolved;
              if bool_decide (out = base) then Some (inr (noChangeError displayPath (length normEdits)))
              else Some (inl (mkApplied base out))
          end
      end
  end.

(** The critical section of func (e *EditTool) Edit on the bytes of the file:
    the content it writes back, or the error with which nothing is written. *)
Definition editContent (rawContent : gostr) (edits : list EditOp) (path : gostr)
    : option (gostr + gostr) :=
  let '(bom, stripped) := StripBOM rawContent in
  let ending := DetectLineEnding stripped in
  let normalized := NormalizeToLF stripped in
  applied ← applyEditsToNormalized normalized edits path;
  match applied with
  | inr err => Some (inr err)
  | inl applied => Some (inl (bom ++ RestoreLineEndings (newContent applied) ending))
  end.

End Fuzzy.

(** ** Lemmas: ranges of the base text *)

(** Gaps and replaced texts, alternating, from a gap to a gap. *)
Fixpoint interleave (gaps texts : list gostr) : gostr :=
  match gaps, texts with
  | g :: gaps', t :: texts' => g ++ t ++ interleave gaps' texts'
  | g :: _, [] => g
  | [], _ => []
  end.

Definition matched_text (base : gostr) (r : matched) : gostr := take (mlength r) (drop (start r) base).

(** The text between the ranges, from [p] on. *)
Fixpoint gaps_from (base : gostr) (p : nat) (rs : list matched) : list gostr :=
  match rs with
  | [] => [drop p base]
  | r :: rs' => take (start r - p) (drop p base) :: gaps_from base (start r + mlength r) rs'
  end.

(** Disjoint ranges in order, from [p] to the end. *)
Fixpoint ranges_ok (base : gostr) (p : nat) (rs : list matched) : Prop :=
  match rs with
  | [] => (p <= length base)%nat
  | r :: rs' => (p <= start r)%nat /\ ranges_ok base (start r + mlength r) rs'
  end.

Lemma ranges_ok_le base p rs : ranges_ok base p rs -> (p <= length base)%nat.
Proof.
  revert p. induction rs as [|r rs IH]; intros p; cbn; [done|]. intros [? H]. apply IH in H. lia.
Qed.

Lemma gaps_from_length base p rs : length (gaps_from base p rs) = S (length rs).
Proof. revert p. induction rs as [|r rs IH]; intros p; cbn; [done|]. by rewrite IH. Qed.

Lemma replace_ranges_spec base p rs :
  ranges_ok base p rs ->
  replace_ranges base rs = Some (take p base ++ interleave (gaps_from base p rs) (map newText rs)).
Proof.
  revert p. induction rs as [|r rs IH]; intros p; cbn [ranges_ok]; intros H.
  { cbn. by rewrite take_drop. }
  destruct H as [Hp H]. pose proof (ranges_ok_le _ _ _ H) as Hle.
  change (replace_ranges base (r :: rs)) with (o ← replace_ranges base rs; splice o r).
  rewrite (IH _ H). cbn [mbind option_bind gaps_from map interleave]. unfold splice.
  set (x := interleave _ _). set (q := (start r + mlength r)%nat) in *.
  assert (length (take q base) = q) as Hq by (rewrite length_take; lia).
  rewrite slice_prefix by (rewrite length_app; lia).
  rewrite slice_suffix by (rewrite length_app; lia). cbn [mbind option_bind].
  rewrite drop_app_length' by done. rewrite take_app_le by lia.
  rewrite take_take, Nat.min_l by lia. rewrite (app_assoc (take p base)), take_take_drop.
  by replace (p + (start r - p))%nat with (start r) by lia.
Qed.

(** The base is its own gaps and matched texts. *)
Lemma interleave_base base p rs :
  ranges_ok base p rs ->
  base = take p base ++ interleave (gaps_from base p rs) (map (matched_text base) rs).
Proof.
  revert p. induction rs as [|r rs IH]; intros p; cbn [ranges_ok]; intros H.
  { cbn. by rewrite take_drop. }
  destruct H as [Hp H]. cbn [gaps_from map interleave].
  rewrite (app_assoc (take p base)), take_take_drop. replace (p + (start r - p))%nat with (start r) by lia.
  unfold matched_text at 1. rewrite (app_assoc (take (start r) base)), take_take_drop. by apply IH.
Qed.

Lemma overlap_ranges path base rs p :
  overlap path rs = None -> StronglySorted start_le rs ->
  Forall (fun r => (start r + mlength r <= length base)%nat) rs -> (p <= length base)%nat ->
  (match rs with r :: _ => (p <= start r)%nat | [] => True end) -> ranges_ok base p rs.
Proof.
  revert p. induction rs as [|r rs IH]; intros p Ho Hs Hin Hp H; cbn [ranges_ok]; [done|].
  split; [done|]. apply Forall_cons in Hin as [Hr Hin]. apply StronglySorted_inv in Hs as [Hs _].
  destruct rs as [|cur rs].
  { by apply IH. }
  cbn [overlap] in Ho. case_match; [done|]. bool_hyps. apply IH; [done|done|done|lia|done].
Qed.

(** ** Lemmas: resolved edits *)

Section Resolve.
Context (nfkc : gostr -> gostr).

Definition lf_edit (e : EditOp) : EditOp :=
  mkEdit (NormalizeToLF (OldText e)) (NormalizeToLF (NewText e)).

Lemma normalize_edits_spec path i total edits ns :
  normalize_edits path i total edits = inl ns ->
  ns = map lf_edit edits /\ Forall (fun e => OldText e <> []) edits.
Proof.
  revert i ns. induction edits as [|e es IH]; intros i ns; cbn; [by intros [= <-]|].
  case_bool_decide; [done|]. destruct (normalize_edits path (S i) total es) eqn:E; [|done].
  intros [= <-]. destruct (IH _ _ E) as [-> ?]. split; [done|by constructor].
Qed.

(** A range found in [base] is in range and reads the old text, or its
    normalized form where [base] is normalized. *)
Lemma FuzzyFind_range base needle :
  (NormalizeForFuzzyMatch nfkc base = base \/
   UsedFuzzyMatch (FuzzyFind nfkc base needle) = false) ->
  let m := FuzzyFind nfkc base needle in Found m = true ->
  (mIndex m + MatchLength m <= length base)%nat /\
  take (MatchLength m) (drop (mIndex m) base) =
    if UsedFuzzyMatch m then NormalizeForFuzzyMatch nfkc needle else needle.
Proof.
  cbn zeta. unfold FuzzyFind. intros H.
  destruct (Index base needle) as [i|] eqn:E1; cbn [Found mIndex MatchLength UsedFuzzyMatch] in *.
  { intros _. by apply Index_spec. }
  destruct (Index (NormalizeForFuzzyMatch nfkc base) _) as [i|] eqn:E2; [|done].
  cbn [Found mIndex MatchLength UsedFuzzyMatch] in *. destruct H as [H|H]; [|done].
  intros _. rewrite H in E2. by apply Index_spec.
Qed.

Definition resolved_as (base : gostr) (e : EditOp) (r : matched) : Prop :=
  newText r = NewText e /\ (start r + mlength r <= length base)%nat /\
  (matched_text base r = OldText e \/
   UsedFuzzyMatch (FuzzyFind nfkc base (OldText e)) = true /\
   matched_text base r = NormalizeForFuzzyMatch nfkc (OldText e)) /\
  (CountFuzzyOccurrences nfkc base (OldText e) <= 1)%nat.

Lemma resolve_spec path base i total es rs :
  (NormalizeForFuzzyMatch nfkc base = base \/ initialNeedsFuzzy nfkc base es = false) ->
  resolve nfkc path base i total es = inl rs -> Forall2 (resolved_as base) es rs.
Proof.
  intros Hfix. revert i rs. induction es as [|e es IH]; intros i rs; cbn [resolve].
  { by intros [= <-]. }
  destruct (Found (FuzzyFind nfkc base (OldText e))) eqn:Ef; [|done]. cbn [negb].
  case_if; [done|]. destruct (resolve nfkc path base (S i) total es) eqn:E; [|done].
  intros [= <-].
  assert (NormalizeForFuzzyMatch nfkc base = base \/
          UsedFuzzyMatch (FuzzyFind nfkc base (OldText e)) = false) as He.
  { destruct Hfix as [H|H]; [by left|right]. cbn in H. rewrite Ef in H. by bool_hyps. }
  destruct (FuzzyFind_range _ _ He Ef) as [Hr Ht]. constructor.
  - split_and!; cbn; [done|done| |lia]. unfold matched_text. cbn.
    destruct (UsedFuzzyMatch _); [by right|by left].
  - eapply IH; [|done]. destruct Hfix as [H|H]; [by left|right]. cbn in H. by bool_hyps.
Qed.

Lemma normalize_edits_error path i total edits err :
  normalize_edits path i total edits = inr err -> Exists (fun e => OldText e = []) edits.
Proof.
  revert i. induction edits as [|e es IH]; intros i; cbn; [done|].
  case_bool_decide; [by constructor|].
  destruct (normalize_edits path (S i) total es) eqn:E; [done|]. intros [= ->].
  by apply Exists_cons_tl, (IH (S i)).
Qed.

Lemma resolve_error path base i total es err :
  resolve nfkc path base i total es = inr err ->
  Exists (fun e => Found (FuzzyFind nfkc base (OldText e)) = false \/
                   (1 < CountFuzzyOccurrences nfkc base (OldText e))%nat) es.
Proof.
  revert i. induction es as [|e es IH]; intros i; cbn [resolve]; [done|].
  destruct (Found (FuzzyFind nfkc base (OldText e))) eqn:Ef; cbn [negb].
  2: { intros _. constructor. by left. }
  case_if; [intros _; constructor; by right|].
  destruct (resolve nfkc path base (S i) total es) eqn:E; [done|]. intros [= ->].
  by apply Exists_cons_tl, (IH (S i)).
Qed.

(** The text the edits are matched against. *)
Definition edit_base (normalized : gostr) (es : list EditOp) : gostr :=
  if initialNeedsFuzzy nfkc normalized es then NormalizeForFuzzyMatch nfkc normalized else normalized.

(** The ranges [rs] of the LF-normalized edits [es] of a request, in the order
    of the text, cut [base] in gaps. *)
Lemma resolved_interleave path base es rs :
  Forall2 (resolved_as base) es rs -> overlap path (merge_sort start_le rs) = None ->
  exists ops olds gaps,
    ops ≡ₚ es /\ length gaps = S (length ops) /\
    Forall2 (fun op old => old = OldText op \/
      UsedFuzzyMatch (FuzzyFind nfkc base (OldText op)) = true /\
      old = NormalizeForFuzzyMatch nfkc (OldText op)) ops olds /\
    base = interleave gaps olds /\
    replace_ranges base (merge_sort start_le rs) = Some (interleave gaps (map NewText ops)).
Proof.
  intros Hrs Ho. set (sorted := merge_sort start_le rs) in *.
  assert (rs ≡ₚ sorted) as Hperm by (symmetry; apply merge_sort_Permutation).
  destruct (Permutation_Forall2 Hperm (proj2 (Forall2_flip _ _ _) Hrs)) as (ops & Hops & Hf).
  apply Forall2_flip in Hf.
  assert (ranges_ok base 0 sorted) as Hok.
  { apply (overlap_ranges path); [done|apply StronglySorted_merge_sort; apply _| |lia|].
    - eapply Forall2_Forall_r; [exact Hf|]. apply Forall_true. intros ? ? (_ & ? & _). done.
    - destruct sorted; [done|lia]. }
  exists ops, (map (matched_text base) sorted), (gaps_from base 0 sorted).
  split; [by symmetry|]. split; [by rewrite gaps_from_length, (Forall2_length _ _ _ Hf)|].
  split.
  { apply Forall2_fmap_r. eapply Forall2_impl; [exact Hf|]. intros e r (_ & _ & H & _). exact H. }
  split; [exact (interleave_base base 0 sorted Hok)|].
  rewrite (replace_ranges_spec base 0 sorted Hok), take_0. cbn [app]. do 2 f_equal.
  clear -Hf. induction Hf as [|e r es' rs' (H & _) _ IH]; [done|]. cbn. by rewrite H, IH.
Qed.

(** Why a request is refused. *)
Definition refused (path base : gostr) (edits : list EditOp) : Prop :=
  edits = [] \/ Exists (fun e => OldText e = []) edits \/
  Exists (fun e => Found (FuzzyFind nfkc base (OldText e)) = false \/
                   (1 < CountFuzzyOccurrences nfkc base (OldText e))%nat) (map lf_edit edits) \/
  exists rs, Forall2 (resolved_as base) (map lf_edit edits) rs /\
    (overlap path (merge_sort start_le rs) <> None \/
     replace_ranges base (merge_sort start_le rs) = Some base).

(** What applying a request to a text with that base may give. *)
Definition applied_spec (path base : gostr) (edits : list EditOp)
    (r : option (appliedEdits + gostr)) : Prop :=
  match r with
  | None => False
  | Some (inr _) => refused path base edits
  | Some (inl a) =>
      baseContent a = base /\ newContent a <> base /\
      Forall (fun e => (CountFuzzyOccurrences nfkc base (OldText e) <= 1)%nat) (map lf_edit edits) /\
      exists ops olds gaps,
        ops ≡ₚ map lf_edit edits /\ length gaps = S (length ops) /\
        Forall2 (fun op old => old = OldText op \/
          UsedFuzzyMatch (FuzzyFind nfkc base (OldText op)) = true /\
          old = NormalizeForFuzzyMatch nfkc (OldText op)) ops olds /\
        base = interleave gaps olds /\ newContent a = interleave gaps (map NewText ops)
  end.

Lemma apply_spec normalized path edits :
  let base := edit_base normalized (map lf_edit edits) in
  NormalizeForFuzzyMatch nfkc base = base \/ initialNeedsFuzzy nfkc base (map lf_edit edits) = false ->
  applied_spec path base edits (applyEditsToNormalized nfkc normalized edits path).
Proof.
  cbn zeta. intros Hfix. unfold applyEditsToNormalized.
  case_bool_decide as He; [by left|].
  destruct (normalize_edits path 0 (length edits) edits) as [ns|err] eqn:En.
  2: { right. left. by eapply normalize_edits_error. }
  apply normalize_edits_spec in En as [-> _]. fold (edit_base normalized (map lf_edit edits)).
  set (base := edit_base normalized (map lf_edit edits)) in *.
  destruct (resolve nfkc path base 0 _ _) as [rs|err] eqn:Er.
  2: { right. right. left. by eapply resolve_error. }
  apply resolve_spec in Er; [|done].
  destruct (overlap path (merge_sort start_le rs)) eqn:Eo.
  { right. right. right. exists rs. split; [done|]. left. by rewrite Eo. }
  destruct (resolved_interleave path base _ _ Er Eo) as (ops & olds & gaps & H1 & H2 & H3 & H4 & H5).
  rewrite H5. cbn [mbind option_bind]. case_bool_decide as Hc.
  - right. right. right. exists rs. split; [done|]. right. by rewrite H5, Hc.
  - cbn. split_and!; [done|done| |by exists ops, olds, gaps].
    eapply Forall2_Forall_l; [exact Er|]. apply Forall_true. intros ? ? (_ & _ & _ & ?). done.
Qed.

(** Without a fuzzy match the texts replaced are the old texts themselves. *)
Lemma exact_olds base es ops olds :
  initialNeedsFuzzy nfkc base es = false -> ops ≡ₚ es ->
  Forall2 (fun op old => old = OldText op \/
    UsedFuzzyMatch (FuzzyFind nfkc base (OldText op)) = true /\
    old = NormalizeForFuzzyMatch nfkc (OldText op)) ops olds ->
  olds = map OldText ops.
Proof.
  intros Hf Hp. assert (forall op, op ∈ ops -> UsedFuzzyMatch (FuzzyFind nfkc base (OldText op)) = false) as Hn.
  { intros op Hop. rewrite Hp in Hop. apply not_true_iff_false. intros Hu.
    apply (not_true_iff_false (initialNeedsFuzzy nfkc base es)); [done|].
    apply existsb_exists. exists op. split; [by apply list_elem_of_In|].
    cbv beta zeta. rewrite Hu, andb_true_r.
    revert Hu. unfold FuzzyFind. repeat case_match; done. }
  clear Hp. induction 1 as [|op old ops olds H _ IH]; [done|]. cbn. rewrite IH.
  - f_equal. destruct H as [H|[H _]]; [done|]. by rewrite Hn in H by (by left).
  - intros. apply Hn. by right.
Qed.

End Resolve.

(** ** Lemmas: line endings *)

Lemma restore_app ending s t :
  RestoreLineEndings (s ++ t) ending = RestoreLineEndings s ending ++ RestoreLineEndings t ending.
Proof. destruct ending; [done|]. apply replace_byte_app. Qed.

Lemma restore_interleave ending gaps texts :
  RestoreLineEndings (interleave gaps texts) ending =
  interleave (map (fun s => RestoreLineEndings s ending) gaps)
             (map (fun s => RestoreLineEndings s ending) texts).
Proof.
  revert texts. induction gaps as [|g gaps IH]; intros texts; [by destruct ending|].
  destruct texts as [|t texts]; [done|]. cbn [interleave map]. by rewrite !restore_app, IH.
Qed.

Lemma collapse_crlf t : CR ∉ t -> ReplaceAll t [CR; LF] [LF] = t.
Proof.
  unfold ReplaceAll. induction t as [|x t IH]; [done|]. rewrite not_elem_of_cons. intros [Hx Ht].
  cbn. assert (Byte.eqb x CR = false) as ->.
  { apply not_true_iff_false. rewrite byte_eqb_eq. congruence. }
  cbn. by rewrite IH.
Qed.

Lemma collapse_expand t : CR ∉ t -> ReplaceAll (ReplaceAll t [LF] [CR; LF]) [CR; LF] [LF] = t.
Proof.
  unfold ReplaceAll. induction t as [|x t IH]; [done|]. rewrite not_elem_of_cons. intros [Hx Ht].
  cbn [replace_from has_prefix]. rewrite andb_true_r. destruct (Byte.eqb x LF) eqn:E.
  - apply byte_eqb_eq in E as ->. cbn. by rewrite IH.
  - cbn [replace_from has_prefix app]. assert (Byte.eqb x CR = false) as ->.
    { apply not_true_iff_false. rewrite byte_eqb_eq. congruence. }
    cbn. by rewrite IH.
Qed.

(** A text with one kind of line ending is normalized and restored exactly. *)
Lemma normalize_restore t ending :
  CR ∉ t -> NormalizeToLF (RestoreLineEndings t ending) = t.
Proof.
  intros H. unfold NormalizeToLF. destruct ending; cbn [RestoreLineEndings].
  - by rewrite collapse_crlf, replace_absent by done.
  - by rewrite collapse_expand, replace_absent by done.
Qed.

Lemma Index_absent t : CR ∉ t -> Index t [CR; LF] = None.
Proof.
  induction t as [|x t IH]; [done|]. rewrite not_elem_of_cons. intros [Hx Ht]. cbn.
  assert (Byte.eqb x CR = false) as ->.
  { apply not_true_iff_false. rewrite byte_eqb_eq. congruence. }
  cbn. by rewrite IH.
Qed.

Lemma Index_crlf t : CR ∉ t -> LF ∈ t -> exists k,
  Index (ReplaceAll t [LF] [CR; LF]) [CR; LF] = Some k /\
  Index (ReplaceAll t [LF] [CR; LF]) [LF] = Some (S k).
Proof.
  unfold ReplaceAll. induction t as [|x t IH]; [by intros _ H%elem_of_nil|].
  rewrite not_elem_of_cons, elem_of_cons. intros [Hx Ht] Hin.
  cbn [replace_from has_prefix]. rewrite andb_true_r. destruct (Byte.eqb x LF) eqn:E.
  - by exists 0%nat.
  - destruct Hin as [<-|Hin]; [by rewrite byte_eqb_refl in E|].
    destruct (IH Ht Hin) as (k & H1 & H2). exists (S k). cbn [Index has_prefix].
    rewrite E. assert (Byte.eqb x CR = false) as ->.
    { apply not_true_iff_false. rewrite byte_eqb_eq. congruence. }
    cbn. by rewrite H1, H2.
Qed.

Lemma detect_restore t ending :
  CR ∉ t -> (ending = LineEndingCRLF -> LF ∈ t) ->
  DetectLineEnding (RestoreLineEndings t ending) = ending.
Proof.
  intros Ht Hlf. unfold DetectLineEnding. destruct ending; cbn [RestoreLineEndings].
  - rewrite Index_absent by done. by destruct (Index t [LF]).
  - destruct (Index_crlf t Ht (Hlf eq_refl)) as (k & -> & ->).
    by rewrite (proj2 (Nat.ltb_lt _ _)) by lia.
Qed.

(** ** Lemmas: normalizing twice *)

(** What the code relies on of norm.NFKC: it is idempotent; it maps the blanks
    that have a compatibility form to the space; and a normal text stays normal
    when a blank at the end of a line is cut, and when a quote or a dash gives way
    to its ASCII form (a byte that is no rune to U+FFFD), none of which composes
    with what surrounds it. *)
Class NfkcLaws (nfkc : gostr -> gostr) : Prop := {
  law_nfkc_idem t : nfkc (nfkc t) = nfkc t;
  law_nfkc_blanks t r : nfkc t = t -> r ∈ runes t -> fuzzy_rune r = [x20] -> r = 0x20;
  law_nfkc_cut p c s : nfkc (p ++ c :: s) = p ++ c :: s -> c ∈ [x20; x09; CR] -> (s = [] \/ head s = Some LF) ->
    nfkc (p ++ s) = p ++ s;
  law_nfkc_ascii p s : valid_utf8 p -> nfkc (p ++ s) = p ++ s -> s <> [] ->
    let '(r, n) := decode_rune s in
    nfkc (p ++ fuzzy_rune r ++ drop n s) = p ++ fuzzy_rune r ++ drop n s }.

Section Twice.
Context (nfkc : gostr -> gostr) `{NfkcLaws nfkc}.

Definition line_blanks : gostr := [x20; x09; CR].
Definition trim_lines (t : gostr) : gostr :=
  Join [LF] (map (fun line => TrimRightSet line line_blanks) (SplitByte LF t)).
Definition plain_runes (t : gostr) : gostr := concat (map fuzzy_rune (runes t)).

Lemma trim_snoc x c : TrimRightSet (x ++ [c]) line_blanks =
  if bool_decide (c ∈ line_blanks) then TrimRightSet x line_blanks else x ++ [c].
Proof.
  unfold TrimRightSet. rewrite rev_app_distr. cbn [rev app drop_set]. case_bool_decide; [done|].
  cbn [rev]. by rewrite rev_involutive.
Qed.

Lemma cut_line p x s : nfkc (p ++ x ++ s) = p ++ x ++ s -> (s = [] \/ head s = Some LF) ->
  nfkc (p ++ TrimRightSet x line_blanks ++ s) = p ++ TrimRightSet x line_blanks ++ s.
Proof.
  intros Hn Hs. induction x as [|c x IH] using rev_ind; [done|]. rewrite trim_snoc.
  case_bool_decide as Eb; [|done]. apply IH. rewrite <-app_assoc in Hn. cbn [app] in Hn.
  rewrite app_assoc in Hn. rewrite app_assoc. eapply law_nfkc_cut; [exact Hn|done|done].
Qed.

Lemma trim_normal p t : nfkc (p ++ t) = p ++ t -> nfkc (p ++ trim_lines t) = p ++ trim_lines t.
Proof.
  unfold trim_lines. rewrite <-(Join_Split LF t) at 1 2. generalize (Split_nonempty LF t).
  generalize (SplitByte LF t) as ls. intros ls _. revert p. induction ls as [|x ls IH]; intros p Hn; [done|].
  destruct ls as [|y ls].
  - cbn [Join map] in *. pose proof (cut_line p x []) as Hc. rewrite !app_nil_r in Hc. apply Hc; [done|by left].
  - cbn [map]. rewrite Join_cons in Hn |- * by done. apply cut_line in Hn; [|by right].
    rewrite !app_assoc in Hn |- *. by apply IH.
Qed.

(** One rune at a time. *)
Lemma plain_step t : t <> [] ->
  plain_runes t = fuzzy_rune (decode_rune t).1 ++ plain_runes (drop (decode_rune t).2 t) /\
  (1 <= (decode_rune t).2)%nat.
Proof. intros Ht. split; [|by apply decode_rune_pos]. unfold plain_runes. by rewrite runes_step. Qed.

Lemma scalar_utf8 r : scalar_rune r -> valid_utf8 (encode_rune r).
Proof. intros Hr. destruct (runes_of [r]) as [Hv _]; [by constructor|]. cbn in Hv. by rewrite app_nil_r in Hv. Qed.

Lemma fuzzy_cases r : fuzzy_rune r = encode_rune r \/ fuzzy_rune r ∈ [[x27]; [x22]; [x2d]; [x20]].
Proof. unfold fuzzy_rune. repeat case_match; [set_solver..|by left]. Qed.

Lemma fuzzy_one r : scalar_rune r ->
  valid_utf8 (fuzzy_rune r) /\ exists r', runes (fuzzy_rune r) = [r'] /\ fuzzy_rune r' = fuzzy_rune r.
Proof.
  intros Hr. assert (runes (encode_rune r) = [r]) as Er.
  { destruct (runes_of [r]) as [_ E]; [by constructor|]. cbn in E. by rewrite app_nil_r in E. }
  destruct (fuzzy_cases r) as [E|E].
  - rewrite E. split; [by apply scalar_utf8|]. by exists r.
  - assert (Forall (fun b => bz b < 128) (fuzzy_rune r) /\ Forall (fun s => s = [] \/ exists r', runes s = [r'] /\ fuzzy_rune r' = s) [fuzzy_rune r]) as [H1 H2].
    { repeat (apply elem_of_cons in E as [->|E]; [split; [by repeat constructor|]; apply Forall_singleton; right; eexists; by split|]).
      by apply elem_of_nil in E. }
    split; [by apply ascii_utf8|]. apply Forall_singleton in H2 as [H2|H2]; [|done].
    repeat (apply elem_of_cons in E as [E|E]; [congruence|]). by apply elem_of_nil in E.
Qed.

Lemma plain_twice t : plain_runes (plain_runes t) = plain_runes t.
Proof.
  unfold plain_runes. pose proof (scalar_runes t) as Hs. induction Hs as [|r rs Hr Hrs IH]; [done|]. cbn [map concat].
  destruct (fuzzy_one r Hr) as (Hv & r' & E1 & E2). rewrite runes_app, E1 by done. cbn [app map concat]. by rewrite E2, IH.
Qed.

Lemma plain_normal p t : valid_utf8 p -> nfkc (p ++ t) = p ++ t -> nfkc (p ++ plain_runes t) = p ++ plain_runes t.
Proof.
  remember (length t) as n eqn:En. revert p t En. induction (lt_wf n) as [n _ IH]. intros p t -> Hp Hn.
  destruct (decide (t = [])) as [->|Ht]; [done|]. destruct (plain_step t Ht) as [-> Hpos].
  pose proof (law_nfkc_ascii p t Hp Hn Ht) as Ha. assert (scalar_rune (decode_rune t).1) as Hr.
  { pose proof (scalar_runes t) as Hs. rewrite runes_step in Hs by done. by apply Forall_cons in Hs as [? _]. }
  destruct (decode_rune t) as [r n]. cbn [fst snd] in *. destruct (fuzzy_one r Hr) as [Hv _].
  rewrite app_assoc in Ha |- *. eapply IH; [|done|by apply valid_utf8_app|done].
  rewrite length_drop. destruct t; [done|]. cbn [length]. lia.
Qed.

(** No line ends in a blank. *)
Fixpoint lines_ok (u : gostr) : Prop :=
  match u with
  | [] => True
  | c :: s => (c ∈ line_blanks -> s <> [] /\ head s <> Some LF) /\ lines_ok s
  end.

Lemma lines_ok_app a b : lines_ok (a ++ b) -> lines_ok b.
Proof. induction a as [|c a IH]; [done|]. intros [_ Ha]. by apply IH. Qed.

Lemma lines_ok_cut x s : lines_ok (x ++ s) -> (s = [] \/ head s = Some LF) -> TrimRightSet x line_blanks = x.
Proof.
  intros Hok Hs. induction x as [|c x _] using rev_ind; [done|]. rewrite trim_snoc. case_bool_decide as Hc; [|done].
  rewrite <-app_assoc in Hok. apply lines_ok_app in Hok as [Hx _]. destruct (Hx Hc) as [H1 H2]. by destruct Hs.
Qed.

Lemma lines_ok_trim u : lines_ok u -> trim_lines u = u.
Proof.
  unfold trim_lines. intros Hu. rewrite <-(Join_Split LF u) in Hu |- * at 2. f_equal.
  revert Hu. generalize (SplitByte LF u) as ls. clear u. induction ls as [|x ls IH]; [done|]. intros Hok. cbn [map]. destruct ls as [|y ls].
  - f_equal. apply (lines_ok_cut x []); [by rewrite app_nil_r|by left].
  - rewrite Join_cons in Hok by done. f_equal; [eapply lines_ok_cut; [exact Hok|by right]|].
    apply IH. apply lines_ok_app in Hok. by apply (lines_ok_app [LF]) in Hok.
Qed.

Lemma trimmed x : TrimRightSet x line_blanks `prefix_of` x /\
  forall c, last (TrimRightSet x line_blanks) = Some c -> c ∉ line_blanks.
Proof.
  induction x as [|c x [IH1 IH2]] using rev_ind; [done|]. rewrite trim_snoc. case_bool_decide as Hc.
  - split; [by apply prefix_app_r|done].
  - split; [done|]. rewrite last_snoc. by intros d [= <-].
Qed.

Lemma lines_ok_line x s : LF ∉ x -> (forall c, last x = Some c -> c ∉ line_blanks) -> lines_ok s -> lines_ok (x ++ s).
Proof.
  intros Hx Hl Hs. induction x as [|c x IH]; [done|]. apply not_elem_of_cons in Hx as [_ Hx]. cbn [app lines_ok]. split.
  - intros Hc. destruct x as [|d x]; [by destruct (Hl c)|]. apply not_elem_of_cons in Hx as [Hd _]. cbn. split; [done|congruence].
  - apply IH; [done|]. intros d Hd. apply Hl. by destruct x.
Qed.

Lemma trim_lines_ok t : lines_ok (trim_lines t).
Proof.
  unfold trim_lines. pose proof (Split_pieces LF t) as Hp. induction Hp as [|x ls Hx Hls IH]; [done|]. cbn [map].
  destruct (trimmed x) as [Hpre Hlast]. assert (LF ∉ TrimRightSet x line_blanks) as Hn.
  { intros Hin. apply Hx. destruct Hpre as [k ->]. apply elem_of_app. by left. }
  destruct ls as [|y ls].
  - cbn [map Join]. rewrite <-(app_nil_r (TrimRightSet _ _)). by apply lines_ok_line.
  - cbn [map] in *. rewrite Join_cons by done. apply lines_ok_line; [done|done|]. split; [|done]. intros Hl.
    repeat (apply elem_of_cons in Hl as [Hl|Hl]; [discriminate Hl|]). by apply elem_of_nil in Hl.
Qed.

Lemma encode_bytes r c : scalar_rune r -> c ∈ encode_rune r -> bz c < 128 -> r = bz c.
Proof.
  unfold scalar_rune. intros Hr Hc Hlt. destruct (decode_ok_shape _ _ _ Hr) as (_ & (b & u & E & _) & Ht).
  rewrite E in Hr, Hc, Ht. cbn [tail length] in Ht. rewrite Nat.sub_succ, Nat.sub_0_r, firstn_all in Ht.
  apply elem_of_cons in Hc as [->|Hc].
  - cbn in Hr. destruct (Z.ltb_spec (bz b) 128); [|lia]. by injection Hr as ->.
  - apply (proj1 (Forall_forall _ _) Ht) in Hc. apply is_cont_range in Hc. lia.
Qed.

Lemma fuzzy_bytes r c : scalar_rune r -> c ∈ fuzzy_rune r -> bz c < 128 ->
  c ∈ [x27; x22; x2d] \/ fuzzy_rune r = [x20] /\ c = x20 \/ r = bz c.
Proof.
  intros Hr Hc Hlt. destruct (fuzzy_cases r) as [E|E].
  - rewrite E in Hc. right. right. by eapply encode_bytes.
  - repeat (apply elem_of_cons in E as [E|E]; [rewrite E in Hc |- *; apply list_elem_of_singleton in Hc as ->; set_solver|]).
    by apply elem_of_nil in E.
Qed.

Lemma blank_no_quote c : c ∈ line_blanks -> c ∉ [x27; x22; x2d].
Proof.
  intros Hb. repeat (apply elem_of_cons in Hb as [->|Hb]; [by apply (bool_decide_unpack _)|]). by apply elem_of_nil in Hb.
Qed.

Lemma fuzzy_nonempty r : fuzzy_rune r <> [].
Proof. unfold fuzzy_rune, encode_rune. by repeat case_match. Qed.

Lemma ascii_first t c : t <> [] -> (decode_rune t).1 = bz c -> bz c < 128 -> t = c :: drop 1 t /\ (decode_rune t).2 = 1%nat.
Proof.
  intros Ht Hr Hlt. unfold decode_rune in *. destruct t as [|b t]; [done|]. destruct (decode_ok (b :: t)) as [[r n]|] eqn:E.
  - cbn [fst snd] in *. subst r. pose proof (encode_decode _ _ _ E) as Ee. rewrite encode_ascii in Ee by done.
    apply decode_ok_shape in E as ((H1 & H2) & _). pose proof (f_equal length Ee) as Hl. rewrite length_take in Hl. cbn [length] in *.
    assert (n = 1%nat) as -> by lia. injection Ee as ->. done.
  - exfalso. change (rune_error = bz c) in Hr. unfold rune_error in Hr. lia.
Qed.

Lemma plain_head t : t <> [] -> head t <> Some LF -> plain_runes t <> [] /\ head (plain_runes t) <> Some LF.
Proof.
  intros Ht Hh. destruct (plain_step t Ht) as [-> _]. assert (scalar_rune (decode_rune t).1) as Hr.
  { pose proof (scalar_runes t) as Hs. rewrite runes_step in Hs by done. by apply Forall_cons in Hs as [? _]. }
  pose proof (fuzzy_nonempty (decode_rune t).1) as Hf. pose proof (fun c => fuzzy_bytes (decode_rune t).1 c Hr) as Hb.
  destruct (fuzzy_rune _) as [|c f]; [done|]. split; [done|]. intros [= ->].
  destruct (Hb LF) as [H1|[[_ H1]|H1]]; [by left|done| |done|].
  - repeat (apply elem_of_cons in H1 as [H1|H1]; [discriminate H1|]). by apply elem_of_nil in H1.
  - destruct (ascii_first t LF Ht H1) as [E _]; [done|]. rewrite E in Hh. done.
Qed.

Lemma plain_ok t : lines_ok t -> Forall (fun r => fuzzy_rune r = [x20] -> r = 0x20) (runes t) -> lines_ok (plain_runes t).
Proof.
  remember (length t) as n eqn:En. revert t En. induction (lt_wf n) as [n _ IH]. intros t -> Hok Hb.
  destruct (decide (t = [])) as [->|Ht]; [done|]. destruct (plain_step t Ht) as [-> Hpos].
  assert (scalar_rune (decode_rune t).1) as Hr.
  { pose proof (scalar_runes t) as Hs. rewrite runes_step in Hs by done. by apply Forall_cons in Hs as [? _]. }
  rewrite runes_step in Hb by done. apply Forall_cons in Hb as [Hb1 Hb2].
  assert (lines_ok (plain_runes (drop (decode_rune t).2 t))) as Hrest.
  { eapply IH; [|done| |done].
    - rewrite length_drop. destruct t; [done|]. cbn [length]. lia.
    - apply (lines_ok_app (take (decode_rune t).2 t)). by rewrite take_drop. }
  destruct (decide (Exists (fun c => c ∈ line_blanks) (fuzzy_rune (decode_rune t).1))) as [He|He].
  - apply Exists_exists in He as (c & Hc & Hbl). assert (bz c < 128) as Hlt.
    { repeat (apply elem_of_cons in Hbl as [->|Hbl]; [done|]). by apply elem_of_nil in Hbl. }
    assert ((decode_rune t).1 = bz c) as Er.
    { destruct (fuzzy_bytes _ c Hr Hc Hlt) as [H1|[[H1 ->]|H1]]; [|by apply Hb1|done].
      by destruct (blank_no_quote c). }
    destruct (ascii_first t c Ht Er Hlt) as [E1 E2]. rewrite E2 in *. assert (fuzzy_rune (decode_rune t).1 = [c]) as ->.
    { rewrite Er. repeat (apply elem_of_cons in Hbl as [->|Hbl]; [reflexivity|]). by apply elem_of_nil in Hbl. }
    cbn [app lines_ok]. split; [|done]. intros _. rewrite E1 in Hok. destruct Hok as [Hh _]. destruct (Hh Hbl). by apply plain_head.
  - apply Forall_Exists_neg in He. revert He. generalize (fuzzy_rune (decode_rune t).1). intros f He.
    induction He as [|c f Hc Hf IHf]; [done|]. cbn [app lines_ok]. split; [by intros ?%Hc|done].
Qed.

Lemma normalize_unfold t : NormalizeForFuzzyMatch nfkc t = plain_runes (trim_lines (nfkc t)).
Proof. done. Qed.

Lemma normalize_twice t : NormalizeForFuzzyMatch nfkc (NormalizeForFuzzyMatch nfkc t) = NormalizeForFuzzyMatch nfkc t.
Proof.
  rewrite !normalize_unfold. assert (nfkc (trim_lines (nfkc t)) = trim_lines (nfkc t)) as Ht.
  { apply (trim_normal []). cbn [app]. apply law_nfkc_idem. }
  assert (nfkc (plain_runes (trim_lines (nfkc t))) = plain_runes (trim_lines (nfkc t))) as ->.
  { apply (plain_normal []); [constructor|done]. }
  rewrite lines_ok_trim; [by rewrite plain_twice|]. apply plain_ok; [apply trim_lines_ok|].
  apply Forall_forall. intros r Hr. by eapply law_nfkc_blanks.
Qed.

End Twice.

(** A stand-in for NFKC on which the laws hold: quotes, dashes and blanks in their
    ASCII form, other runes outside ASCII dropped. *)
Definition to_ascii (t : gostr) : gostr := List.filter (fun b => bz b <? 128) (plain_runes t).

Lemma to_ascii_out t : ascii (to_ascii t).
Proof. apply Forall_forall. intros b Hb. apply list_elem_of_In, filter_In in Hb as [_ Hb]. lia. Qed.

Lemma plain_ascii t : ascii t -> plain_runes t = t.
Proof.
  intros Ht. unfold plain_runes. destruct (ascii_runes t Ht) as [_ ->]. induction Ht as [|b t Hb Ht IH]; [done|]. cbn [map concat]. rewrite IH.
  assert (fuzzy_rune (bz b) = [b]) as ->; [|done]. pose proof (bz_range b). unfold fuzzy_rune.
  repeat (match goal with |- context [Z.leb ?x ?y] => destruct (Z.leb_spec x y); [lia|] | |- context [Z.eqb ?x ?y] => destruct (Z.eqb_spec x y); [lia|] end; cbn [andb orb]).
  by apply encode_ascii.
Qed.

Lemma to_ascii_fix t : to_ascii t = t <-> ascii t.
Proof.
  split; [intros <-; apply to_ascii_out|]. intros Ht. unfold to_ascii. rewrite plain_ascii by done.
  induction Ht as [|b t Hb Ht IH]; [done|]. cbn. by rewrite (proj2 (Z.ltb_lt _ _) Hb), IH.
Qed.

#[export] Instance to_ascii_laws : NfkcLaws to_ascii.
Proof.
  split.
  - intros t. apply to_ascii_fix, to_ascii_out.
  - intros t r Ht Hr E. apply to_ascii_fix in Ht. destruct (ascii_runes t Ht) as [_ Er]. rewrite Er in Hr.
    apply list_elem_of_fmap in Hr as (b & -> & Hb). apply (proj1 (Forall_forall _ _) Ht) in Hb.
    pose proof (plain_ascii [b] ltac:(by constructor)) as Hp. unfold plain_runes in Hp.
    destruct (ascii_runes [b] ltac:(by constructor)) as [_ E1]. rewrite E1 in Hp. cbn in Hp. rewrite E in Hp. by injection Hp as <-.
  - intros p c s Hf _ _. apply to_ascii_fix in Hf. apply to_ascii_fix. apply Forall_app in Hf as [H1 H2].
    apply Forall_cons in H2 as [_ H2]. by apply Forall_app.
  - intros p s _ Hf Hs. destruct (decode_rune s) as [r n] eqn:Ed. apply to_ascii_fix in Hf. apply to_ascii_fix.
    apply Forall_app in Hf as [H1 H2]. apply Forall_app. split; [done|].
    destruct s as [|b s]; [done|]. pose proof H2 as H2'. apply Forall_cons in H2' as [Hb H2'].
    unfold decode_rune, decode_ok in Ed. rewrite (proj2 (Z.ltb_lt _ _) Hb) in Ed. injection Ed as <- <-.
    apply Forall_app. split; [|done]. pose proof (plain_ascii [b] ltac:(by constructor)) as Hp. unfold plain_runes in Hp.
    destruct (ascii_runes [b] ltac:(by constructor)) as [_ E1]. rewrite E1 in Hp. cbn in Hp. rewrite app_nil_r in Hp. rewrite Hp. by constructor.
Qed.

(** ** Properties *)



(** C38: editing a file with one kind of line ending, when no old text needs the
    fuzzy match, changes only the old texts: the byte order mark, the gaps around
    the matched texts and the line endings are kept byte for byte, and the new texts
    get the file's line endings; or the request is refused for one of the listed
    reasons.  (One fuzzy match rewrites other bytes too: [edit_fuzzy_rewrites].) *)
Theorem edit_file_gaps (nfkc : gostr -> gostr) (bom t path : gostr) (ending : LineEnding) (edits : list EditOp) :
  let R s := RestoreLineEndings s ending in
  (bom = utf8BOM \/ bom = [] /\ has_prefix (R t) utf8BOM = false) ->
  CR ∉ t -> (ending = LineEndingCRLF -> LF ∈ t) ->
  initialNeedsFuzzy nfkc t (map lf_edit edits) = false ->
  match editContent nfkc (bom ++ R t) edits path with
  | None => False
  | Some (inr _) => refused nfkc path t edits
  | Some (inl final) => exists ops gaps,
      ops ≡ₚ map lf_edit edits /\ length gaps = S (length ops) /\
      bom ++ R t = bom ++ interleave (map R gaps) (map R (map OldText ops)) /\
      final = bom ++ interleave (map R gaps) (map R (map NewText ops))
  end.
Proof.
  cbn zeta. intros Hbom Hcr Hlf Hf. unfold editContent.
  assert (StripBOM (bom ++ RestoreLineEndings t ending) = (bom, RestoreLineEndings t ending)) as ->.
  { unfold StripBOM. destruct Hbom as [->|[-> Hb]]; [|by cbn [app]; rewrite Hb].
    rewrite (proj2 (has_prefix_spec _ _)) by eauto. by rewrite drop_app_length. }
  rewrite detect_restore, normalize_restore by done.
  pose proof (apply_spec nfkc t path edits) as H. unfold edit_base in H. rewrite Hf in H.
  specialize (H (or_intror Hf)).
  destruct (applyEditsToNormalized nfkc t edits path) as [[a|err]|]; [|done|done].
  destruct H as (_ & _ & _ & ops & olds & gaps & H1 & H2 & H3 & H4 & H5).
  rewrite (exact_olds _ _ _ _ _ Hf H1 H3) in H4. cbn. exists ops, gaps.
  split_and!; [done|done| |]; f_equal; rewrite <- restore_interleave; congruence.
Qed.

Lemma edit_file_gaps_witness :
  let raw := utf8BOM ++ # "a" ++ [CR; LF] ++ # "b" ++ [CR; LF] ++ # "c" in
  let edits := [mkEdit (# "b") (# "x" ++ LF :: # "y")] in
  editContent id raw edits [] =
    Some (inl (utf8BOM ++ # "a" ++ [CR; LF] ++ # "x" ++ [CR; LF] ++ # "y" ++ [CR; LF] ++ # "c")) /\
  exists ops (gaps : list gostr), ops ≡ₚ map lf_edit edits /\ length gaps = S (length ops).
Proof.
  split; [vm_compute; reflexivity|].
  assert (CR ∉ # "a" ++ LF :: # "b" ++ LF :: # "c") as Hcr by (apply (bool_decide_unpack _); by vm_compute).
  assert (LF ∈ # "a" ++ LF :: # "b" ++ LF :: # "c") as Hlf by (apply (bool_decide_unpack _); by vm_compute).
  pose proof (edit_file_gaps id utf8BOM (# "a" ++ LF :: # "b" ++ LF :: # "c") [] LineEndingCRLF
    [mkEdit (# "b") (# "x" ++ LF :: # "y")] (or_introl eq_refl)
    Hcr (fun _ => Hlf)
    ltac:(vm_compute; reflexivity)) as H.
  cbv beta zeta in H. destruct (editContent _ _ _ _) as [[f|err]|] eqn:E in H;
    [|vm_compute in E; discriminate E|done].
  destruct H as (ops & gaps & H1 & H2 & _). by exists ops, gaps.
Defined.

(** One fuzzy match rewrites the whole file: here the edit of the second line
    turns the curly quotes of the first into straight ones, and the base it
    reports (what the shown diff is computed from) has them straight already. *)
Lemma edit_fuzzy_rewrites :
  let curly := [xe2; x80; x98] ++ # "a" ++ [xe2; x80; x99; LF] in
  let dash := # "foo" ++ [xe2; x80; x93] ++ # "bar" in
  editContent id (curly ++ dash) [mkEdit (# "foo-bar") (# "z")] [] =
    Some (inl ([x27] ++ # "a" ++ [x27; LF] ++ # "z")).
Proof. vm_compute. reflexivity. Qed.

(** An old text of blanks alone that occurs once is refused as repeated: its
    normalized form is empty, and an empty text occurs between any two runes. *)
Lemma edit_blank_refused :
  editContent id (# "a  b") [mkEdit (# "  ") (# " ")] (# "f") =
    Some (inr (duplicateMatchError (# "f") 0 1 5)).
Proof. vm_compute. reflexivity. Qed.
