(* ===== verification/Cmdkit.v ===== *)
(** * cmdkit: the command line router
    (src/internal/cmdkit/command.go, router.go, complete.go).

    Commands run on a world of their own, a parameter; what the router prints
    on its error stream and on the standard output is kept apart.  A rune
    beyond ASCII is printed by %q according to [IsPrint], Go's Unicode table. *)

From S2P Require Import Prelude Utf8 GoStrings Json GoJson.

(** ** fmt and strconv *)

Definition SP : byte := x20.

(** The low [n] hexadecimal digits of [z]. *)
Fixpoint hexn (n : nat) (z : Z) : gostr :=
  match n with O => [] | S n => hexn n (Z.shiftr z 4) ++ [hexdigit (Z.land z 15)] end.

(** strconv.Quote *)
Section quote.
Context (IsPrint : Z -> bool).

Definition printable_rune (r : Z) : bool :=
  if r <? 0x80 then (0x20 <=? r) && (r <? 0x7f) else IsPrint r.

Definition quote_rune (r : Z) : gostr :=
  if (r =? 0x22) || (r =? 0x5c) then [x5c; zb r] else
  if printable_rune r then encode_rune r else
  if r =? 7 then #"\a" else if r =? 8 then #"\b" else if r =? 12 then #"\f" else
  if r =? 10 then #"\n" else if r =? 13 then #"\r" else if r =? 9 then #"\t" else
  if r =? 11 then #"\v" else
  if (r <? 0x20) || (r =? 0x7f) then #"\x" ++ hexn 2 r else
  if r <? 0x10000 then #"\u" ++ hexn 4 r else #"\U" ++ hexn 8 r.

Fixpoint quote_body (fuel : nat) (s : gostr) : gostr :=
  match fuel, s with
  | S fuel, c :: _ =>
      match decode_ok s with
      | Some (r, n) => quote_rune r ++ quote_body fuel (drop n s)
      | None => #"\x" ++ hexn 2 (bz c) ++ quote_body fuel (drop 1 s)
      end
  | _, _ => []
  end.
Definition Quote (s : gostr) : gostr := x22 :: quote_body (length s) s ++ [x22].
End quote.

(** %-ns *)
Definition pad_right (n : nat) (s : gostr) : gostr := s ++ repeat SP (n - length (runes s)).

(** ** Commands *)

(** type FlagDef *)
Record FlagDef := mkFlagDef { Long : gostr; Short : gostr; Description : gostr; IsBool : bool; Default : gostr }.

Definition completeVerb : gostr := #"__complete".
Definition barePromptSentinel : gostr := #"__bare_prompt".
Definition currentFlag : gostr := #"--current".

(** findFlag: the first flag with that long or that short name, the empty
    name never matching. *)
Fixpoint findFlag (flags : list FlagDef) (long short : gostr) : option FlagDef :=
  match flags with
  | [] => None
  | f :: flags =>
      if bool_decide (long <> [] /\ Long f = long) then Some f else
      if bool_decide (short <> [] /\ Short f = short) then Some f else
      findFlag flags long short
  end.

(** expandBundled: the runes of -avl, when each is a boolean short flag. *)
Definition short_bool (flags : list FlagDef) (r : Z) : bool :=
  match findFlag flags [] (encode_rune r) with Some fd => IsBool fd | None => false end.
Definition bundled (flags : list FlagDef) (a : gostr) : bool :=
  match a with
  | x2d :: c :: _ :: _ => negb (Byte.eqb c x2d) && forallb (short_bool flags) (runes (drop 1 a))
  | _ => false
  end.
Definition expand_one (flags : list FlagDef) (a : gostr) : list gostr :=
  if bundled flags a then map (fun r => #"-" ++ encode_rune r) (runes (drop 1 a)) else [a].
Definition expandBundled (args : list gostr) (flags : list FlagDef) : list gostr :=
  concat (map (expand_one flags) args).

Section Cmdkit.
Context {W E : Type} (IsPrint : Z -> bool).

(** type RunContext *)
Record RunContext := mkRunContext {
  Args : list gostr; Flags : gmap gostr gostr; RawArgs : list gostr; Extra : option E }.

(** func (c *RunContext) Flag, HasFlag, BoolFlag *)
Definition Flag (c : RunContext) (name : gostr) : gostr := default [] (Flags c !! name).
Definition HasFlag (c : RunContext) (name : gostr) : bool := bool_decide (is_Some (Flags c !! name)).
Definition BoolFlag (c : RunContext) (name : gostr) : bool :=
  match Flags c !! name with Some v => bool_decide (v <> #"false") | None => false end.

(** type CompleteContext *)
Record CompleteContext := mkCompleteContext {
  ccArgs : list gostr; Current : gostr; PastSeparator : bool; ccExtra : option E }.
Definition Completer : Type := CompleteContext -> W -> W * list gostr.

(** The Run function of a command: its own, or the router's dispatcher of
    completions; the error's text, or None. *)
Inductive handler :=
| RunFunc (f : RunContext -> W -> W * option gostr)
| RunComplete.

(** type Command *)
Record Command := mkCommand {
  Name : gostr; Aliases : list gostr; Group : gostr; cShort : gostr; cLong : gostr; Usage : gostr;
  Hidden : bool; ArgsMin : Z; ArgsMax : Z; cFlags : list FlagDef; cRun : handler; PassRaw : bool;
  CompleteArgs : option Completer }.

Definition names (cmd : Command) : list gostr := Name cmd :: Aliases cmd.

(** type Router *)
Record Router := mkRouter {
  commands : list Command; index : gmap gostr Command; rName : gostr; Version : gostr;
  rExtra : option E; Fallback : option (list gostr -> option E -> W -> W * option gostr);
  barePromptComplete : option Completer }.

(** func (r *Router) Register, HasCommand *)
Definition Register (r : Router) (cmd : Command) : Router :=
  let idx := <[Name cmd := cmd]> (index r) in
  let idx := foldl (fun idx a => <[a := cmd]> idx) idx (Aliases cmd) in
  mkRouter (commands r ++ [cmd]) idx (rName r) (Version r) (rExtra r) (Fallback r) (barePromptComplete r).
Definition HasCommand (r : Router) (name : gostr) : bool := bool_decide (is_Some (index r !! name)).

(** func NewRouter *)
Definition complete_command : Command :=
  mkCommand completeVerb [] [] [] [] [] true 0 0 [] RunComplete true None.
Definition NewRouter (name : gostr) : Router :=
  Register (mkRouter [] ∅ name [] None None None) complete_command.

(** func (r *Router) SetBarePromptComplete *)
Definition SetBarePromptComplete (r : Router) (fn : option Completer) : Router :=
  mkRouter (commands r) (index r) (rName r) (Version r) (rExtra r) (Fallback r) fn.

(** ** Parsing *)

Definition set_flag (fd : FlagDef) (v : gostr) (c : RunContext) : RunContext :=
  mkRunContext (Args c) (<[Long fd := v]> (Flags c)) (RawArgs c) (Extra c).
Definition add_args (l : list gostr) (c : RunContext) : RunContext :=
  mkRunContext (Args c ++ l) (Flags c) (RawArgs c) (Extra c).

(** The short form: a dash and one byte, which string() takes for a rune. *)
Definition short_of (arg : gostr) : option gostr :=
  match arg with
  | [x2d; c] => if Byte.eqb c x2d then None else Some (encode_rune (bz c))
  | _ => None
  end.

(** What the loop of func parse makes of one argument. *)
Inductive token := TEnd | TFlag (shown : gostr) (fd : option FlagDef) | TArg.
Definition classify (flags : list FlagDef) (arg : gostr) : token :=
  if bool_decide (arg = #"--") then TEnd else
  if has_prefix arg #"--" then TFlag arg (findFlag flags (drop 2 arg) []) else
  match short_of arg with
  | Some ch => TFlag (#"-" ++ ch) (findFlag flags [] ch)
  | None => TArg
  end.

Fixpoint parse_loop (flags : list FlagDef) (args : list gostr) (c : RunContext) : gostr + RunContext :=
  match args with
  | [] => inr c
  | arg :: rest =>
      match classify flags arg with
      | TEnd => inr (add_args rest c)
      | TFlag shown None => inl (#"unknown flag: " ++ shown)
      | TFlag shown (Some fd) =>
          if IsBool fd then parse_loop flags rest (set_flag fd #"true" c) else
          match rest with
          | [] => inl (#"flag " ++ shown ++ #" requires a value")
          | v :: rest => parse_loop flags rest (set_flag fd v c)
          end
      | TArg => parse_loop flags rest (add_args [arg] c)
      end
  end.

Definition defaults (flags : list FlagDef) : gmap gostr gostr :=
  foldl (fun m f => if bool_decide (Default f = []) then m else <[Long f := Default f]> m) ∅ flags.

Definition check_count (cmd : Command) (c : RunContext) : gostr + RunContext :=
  let n := glen (Args c) in
  if (0 <? ArgsMin cmd) && (n <? ArgsMin cmd)
  then inl (#"requires at least " ++ itoa (ArgsMin cmd) ++ #" argument(s)") else
  if (0 <? ArgsMax cmd) && (ArgsMax cmd <? n)
  then inl (#"accepts at most " ++ itoa (ArgsMax cmd) ++ #" argument(s), got " ++ itoa n) else
  inr c.

(** func (r *Router) parse *)
Definition parse (cmd : Command) (args : list gostr) : gostr + RunContext :=
  if PassRaw cmd then inr (mkRunContext [] ∅ args None) else
  match parse_loop (cFlags cmd) (expandBundled args (cFlags cmd))
          (mkRunContext [] (defaults (cFlags cmd)) [] None) with
  | inl e => inl e
  | inr c => check_count cmd c
  end.

(** ** The closest command *)

(** One cell of the row of [x], whose column [j] is the rune [y]. *)
Definition lev_cell (x : Z) (rb : list Z) (prev curr : list Z) (j : nat) : list Z :=
  let cost := if x =? nth (j - 1) rb 0 then 0 else 1 in
  <[j := Z.min (nth (j - 1) curr 0 + 1) (Z.min (nth j prev 0 + 1) (nth (j - 1) prev 0 + cost))]> curr.
Definition lev_row (ra rb : list Z) (rows : list Z * list Z) (i : nat) : list Z * list Z :=
  let '(prev, curr) := rows in
  let curr := <[0%nat := Z.of_nat i]> curr in
  let curr := foldl (lev_cell (nth (i - 1) ra 0) rb prev) curr (seq 1 (length rb)) in
  (curr, prev).

(** func levenshtein: its two rows, exchanged after each rune of [a]. *)
Definition levenshtein (a b : gostr) : Z :=
  let ra := runes a in let rb := runes b in
  if bool_decide (ra = []) then glen rb else
  if bool_decide (rb = []) then glen ra else
  let row0 := map Z.of_nat (seq 0 (S (length rb))) in
  let rows := foldl (lev_row ra rb) (row0, repeat 0 (S (length rb))) (seq 1 (length ra)) in
  nth (length rb) rows.1 0.

(** func (r *Router) suggest *)
Definition closer (input : gostr) (best : gostr * Z) (name : gostr) : gostr * Z :=
  let d := levenshtein input name in if d <? best.2 then (name, d) else best.
Definition suggest (r : Router) (input : gostr) : gostr :=
  (foldl (fun best cmd => if Hidden cmd then best else foldl (closer input) best (names cmd))
     ([], 4) (commands r)).1.

(** ** Help *)

Definition LFs : gostr := [LF].
Definition shown_usage (cmd : Command) : gostr := if bool_decide (Usage cmd = []) then Name cmd else Usage cmd.
Definition group_of (cmd : Command) : gostr := if bool_decide (Group cmd = []) then #"Commands" else Group cmd.

Definition name_le (c d : Command) : Prop := str_le (Name c) (Name d).
#[global] Instance name_le_dec : RelDecision name_le.
Proof. intros c d. unfold name_le. apply _. Defined.

(** func (r *Router) groupedCommands: the groups in the order they first
    appear, the visible commands of each by name (commands of one name, which
    sort.Slice may permute, stay in the order of registration). *)
Definition visible (r : Router) : list Command := filter (fun c => Hidden c = false) (commands r).
Fixpoint group_order (seen : list gostr) (cmds : list Command) : list gostr :=
  match cmds with
  | [] => []
  | cmd :: cmds =>
      let g := group_of cmd in
      if bool_decide (g ∈ seen) then group_order seen cmds else g :: group_order (g :: seen) cmds
  end.
Definition in_group (g : gostr) (cmds : list Command) : list Command :=
  filter (fun c => group_of c = g) cmds.
Definition groupedCommands (r : Router) : list (gostr * list Command) :=
  map (fun g => (g, merge_sort name_le (in_group g (visible r)))) (group_order [] (visible r)).

(** func (r *Router) printUsage *)
Definition usage_line (cmd : Command) : gostr :=
  #"  " ++ pad_right 24 (shown_usage cmd) ++ #" " ++ cShort cmd ++ LFs.
Definition usage_group (g : gostr * list Command) : gostr :=
  g.1 ++ #":" ++ LFs ++ concat (map usage_line g.2) ++ LFs.
Definition printUsage (r : Router) : gostr :=
  #"Usage: " ++ rName r ++ #" <command> [flags] [args]" ++ LFs ++ LFs ++
  concat (map usage_group (groupedCommands r)) ++
  #"Run '" ++ rName r ++ #" <command> --help' for details on a command." ++ LFs.

(** func (r *Router) printCommandHelp *)
Definition flag_line (f : FlagDef) : gostr :=
  #"  " ++ (if bool_decide (Short f = []) then [] else #"-" ++ Short f ++ #", ") ++
  #"--" ++ Long f ++ [x09] ++ Description f ++ LFs.
Definition printCommandHelp (r : Router) (cmd : Command) : gostr :=
  #"Usage: " ++ rName r ++ #" " ++ shown_usage cmd ++ LFs ++ LFs ++
  (if bool_decide (cLong cmd = []) then
     if bool_decide (cShort cmd = []) then [] else cShort cmd ++ LFs ++ LFs
   else cLong cmd ++ LFs ++ LFs) ++
  (match cFlags cmd with [] => [] | fs => #"Flags:" ++ LFs ++ concat (map flag_line fs) ++ LFs end) ++
  (match Aliases cmd with [] => [] | al => #"Aliases: " ++ Join #", " al ++ LFs end).

(** ** Completion *)

Definition strip_marker (l : list gostr) : list gostr :=
  match l with t :: l' => if bool_decide (t = #"--") then l' else l | [] => [] end.
Definition cursor_token (tail : list gostr) : gostr * list gostr :=
  match tail with
  | t :: cur :: tail' => if bool_decide (t = currentFlag) then (cur, tail') else ([], tail)
  | _ => ([], tail)
  end.

(** func (r *Router) runComplete: the callback it calls with what, None when
    it returns without calling one. *)
Definition completion (r : Router) (raw : list gostr) : option (Completer * CompleteContext) :=
  match strip_marker raw with
  | [] => None
  | verb :: tail =>
      let '(current, tail) := cursor_token tail in
      let tail := strip_marker tail in
      let pastSep := bool_decide (#"--" ∈ tail) in
      if bool_decide (verb = barePromptSentinel)
      then fn ← barePromptComplete r; Some (fn, mkCompleteContext tail current true (rExtra r))
      else cmd ← index r !! verb; fn ← CompleteArgs cmd;
           Some (fn, mkCompleteContext tail current pastSep (rExtra r))
  end.
Definition runComplete (r : Router) (ctx : RunContext) (w : W) : W * gostr :=
  match completion r (RawArgs ctx) with
  | Some (fn, cc) => let '(w, cands) := fn cc w in (w, concat (map (fun c => c ++ LFs) cands))
  | None => (w, [])
  end.

(** func (r *Router) visibleCommandNames; func quotePwshArray *)
Definition visibleCommandNames (r : Router) : list gostr := concat (map names (visible r)).
Definition quotePwshArray (items : list gostr) : gostr :=
  Join #", " (map (fun s => #"'" ++ s ++ #"'") items).

(** ** Dispatch *)

(** The world, the error stream, the standard output, the exit code. *)
Record result := mkResult { world : W; errOut : gostr; stdOut : gostr; code : Z }.

Fixpoint help_asked (tail : list gostr) : bool :=
  match tail with
  | [] => false
  | a :: tail =>
      if bool_decide (a = #"--help" \/ a = #"-h") then true else
      if bool_decide (a = #"--") then false else help_asked tail
  end.

Definition error_line (e : gostr) : gostr := #"error: " ++ e ++ LFs.
Definition of_error (w : W) (e : option gostr) : result :=
  match e with Some e => mkResult w (error_line e) [] 1 | None => mkResult w [] [] 0 end.

Definition unknown_command (r : Router) (first : gostr) : gostr :=
  #"error: unknown command " ++ Quote IsPrint first ++ LFs ++
  (match suggest r first with
   | [] => LFs
   | s => #"  did you mean: " ++ rName r ++ #" " ++ s ++ LFs ++ LFs
   end) ++ printUsage r.

(** cmd.Run(ctx) *)
Definition run_handler (r : Router) (cmd : Command) (ctx : RunContext) (w : W) : result :=
  match cRun cmd with
  | RunFunc f => let '(w, e) := f ctx w in of_error w e
  | RunComplete => let '(w, out) := runComplete r ctx w in mkResult w [] out 0
  end.

Definition run_command (r : Router) (cmd : Command) (tail : list gostr) (w : W) : result :=
  if help_asked tail then mkResult w (printCommandHelp r cmd) [] 0 else
  match parse cmd tail with
  | inl e => mkResult w (error_line (rName r ++ #" " ++ Name cmd ++ #": " ++ e)) [] 2
  | inr ctx => run_handler r cmd (mkRunContext (Args ctx) (Flags ctx) (RawArgs ctx) (rExtra r)) w
  end.

(** func (r *Router) Run *)
Definition Run (r : Router) (args : list gostr) (w : W) : result :=
  match args with
  | [] => mkResult w (printUsage r) [] 2
  | first :: tail =>
      if bool_decide (first = #"--help" \/ first = #"-h") then mkResult w (printUsage r) [] 0 else
      if bool_decide (Version r <> [] /\ (first = #"--version" \/ first = #"-V"))
      then mkResult w (rName r ++ #" " ++ Version r ++ LFs) [] 0 else
      match index r !! first with
      | Some cmd => run_command r cmd tail w
      | None =>
          match Fallback r with
          | Some f => let '(w, e) := f args (rExtra r) w in of_error w e
          | None => mkResult w (unknown_command r first) [] 2
          end
      end
  end.
End Cmdkit.
