(* ===== verification/CmdkitFacts.v ===== *)
(** * cmdkit: the theorems about the command line router.

    [edits] is the specification of the distance; the parser is shown to be
    typed and to read back what is spelled; completion, help and dispatch. *)

From S2P Require Import Prelude Utf8 GoStrings GoJson Cmdkit.

(** ** The edit distance *)

(** [edits a b n]: [n] insertions, deletions and substitutions make [b] of [a]. *)
Inductive edits : list Z -> list Z -> Z -> Prop :=
| ed_nil : edits [] [] 0
| ed_keep x a b n : edits a b n -> edits (x :: a) (x :: b) n
| ed_sub x y a b n : edits a b n -> edits (x :: a) (y :: b) (n + 1)
| ed_del x a b n : edits a b n -> edits (x :: a) b (n + 1)
| ed_ins y a b n : edits a b n -> edits a (y :: b) (n + 1).

Definition least (a b : list Z) (d : Z) : Prop := edits a b d /\ forall n, edits a b n -> d <= n.

Lemma edits_app a b n c d m : edits a b n -> edits c d m -> edits (a ++ c) (b ++ d) (n + m).
Proof.
  induction 1; intros H'; cbn; [done|by constructor; auto|..];
    replace (n + 1 + m) with (n + m + 1) by lia; constructor; auto.
Qed.

Lemma edits_one x y : edits [x] [y] (if x =? y then 0 else 1).
Proof.
  destruct (Z.eqb_spec x y) as [->|_]; [apply ed_keep; constructor|]. apply (ed_sub x y [] [] 0). constructor.
Qed.

Lemma edits_rev a b n : edits a b n -> edits (rev a) (rev b) n.
Proof.
  induction 1 as [|x a b n H IH|x y a b n H IH|x a b n H IH|y a b n H IH]; cbn; [constructor|..].
  - rewrite <-(Z.add_0_r n). apply edits_app; [done|]. constructor. constructor.
  - apply edits_app; [done|]. apply (ed_sub x y [] [] 0). constructor.
  - rewrite <-(app_nil_r (rev b)). apply edits_app; [done|]. apply (ed_del x [] [] 0). constructor.
  - rewrite <-(app_nil_r (rev a)). apply edits_app; [done|]. apply (ed_ins y [] [] 0). constructor.
Qed.

Lemma edits_snoc_inv a b x y n : edits (a ++ [x]) (b ++ [y]) n ->
  (exists m, edits a b m /\ m + (if x =? y then 0 else 1) <= n) \/
  (exists m, edits a (b ++ [y]) m /\ n = m + 1) \/ (exists m, edits (a ++ [x]) b m /\ n = m + 1).
Proof.
  intros H. apply edits_rev in H. rewrite !rev_app_distr in H. cbn in H.
  inversion H as [|? ? ? m Hm|? ? ? ? m Hm|? ? ? m Hm|? ? ? m Hm]; subst; apply edits_rev in Hm;
    cbn in Hm; rewrite ?rev_involutive in Hm.
  - left. eexists. split; [exact Hm|]. rewrite Z.eqb_refl. lia.
  - left. eexists. split; [exact Hm|]. destruct (_ =? _); lia.
  - right; left. by eexists.
  - right; right. by eexists.
Qed.

Lemma edits_lengths a b n : edits a b n -> glen b - glen a <= n /\ glen a - glen b <= n.
Proof. unfold glen. induction 1; cbn [length] in *; lia. Qed.

Lemma least_nil_l b : least [] b (glen b).
Proof.
  split; [|intros n H; apply edits_lengths in H; unfold glen in *; cbn [length] in *; lia].
  induction b as [|y b IH]; [constructor|]. replace (glen (y :: b)) with (glen b + 1) by (unfold glen; cbn; lia).
  by constructor.
Qed.

Lemma least_nil_r a : least a [] (glen a).
Proof.
  split; [|intros n H; apply edits_lengths in H; unfold glen in *; cbn [length] in *; lia].
  induction a as [|y b IH]; [constructor|]. replace (glen (y :: b)) with (glen b + 1) by (unfold glen; cbn; lia).
  by constructor.
Qed.

(** The recurrence of the table. *)
Lemma least_snoc a b x y dl du dd :
  least (a ++ [x]) b dl -> least a (b ++ [y]) du -> least a b dd ->
  least (a ++ [x]) (b ++ [y]) (Z.min (dl + 1) (Z.min (du + 1) (dd + (if x =? y then 0 else 1)))).
Proof.
  intros [Hl Hl'] [Hu Hu'] [Hd Hd']. split.
  - destruct (Z.min_spec (du + 1) (dd + (if x =? y then 0 else 1))) as [[_ ->]|[_ ->]];
      destruct (Z.min_spec (dl + 1) (du + 1)) as [[_ E]|[_ E]];
      destruct (Z.min_spec (dl + 1) (dd + (if x =? y then 0 else 1))) as [[_ E']|[_ E']];
      rewrite ?E, ?E'; first
      [ by apply edits_app, edits_one
      | rewrite <-(app_nil_r (a ++ [x])); apply edits_app; [done|]; apply (ed_ins y [] [] 0); constructor
      | rewrite <-(app_nil_r (b ++ [y])); apply edits_app; [done|]; apply (ed_del x [] [] 0); constructor ].
  - intros n H. apply edits_snoc_inv in H as [(m & Hm & ?)|[(m & Hm & ->)|(m & Hm & ->)]].
    + specialize (Hd' m Hm). lia.
    + specialize (Hu' m Hm). lia.
    + specialize (Hl' m Hm). lia.
Qed.

(** The first [k] cells of the row of the first [i] runes. *)
Definition row_upto (ra rb : list Z) (i k : nat) (row : list Z) : Prop :=
  length row = S (length rb) /\ forall j, (j <= k)%nat -> least (take i ra) (take j rb) (nth j row 0).

Lemma take_S_nth (l : list Z) i : (i < length l)%nat -> take (S i) l = take i l ++ [nth i l 0].
Proof. intros H. apply take_S_r. rewrite nth_lookup. by destruct (lookup_lt_is_Some_2 l i H) as [? ->]. Qed.

Lemma nth_insert (l : list Z) i j v : (i < length l)%nat ->
  nth j (<[i := v]> l) 0 = if decide (j = i) then v else nth j l 0.
Proof.
  intros H. rewrite !nth_lookup. case_decide as E.
  - subst. by rewrite list_lookup_insert_eq.
  - by rewrite list_lookup_insert_ne.
Qed.

Lemma lev_cells ra rb prev curr i k : (i < length ra)%nat -> (k <= length rb)%nat ->
  row_upto ra rb i (length rb) prev -> row_upto ra rb (S i) 0 curr ->
  row_upto ra rb (S i) k (foldl (lev_cell (nth i ra 0) rb prev) curr (seq 1 k)).
Proof.
  intros Hi Hk [Hp Hprev] Hc. induction k as [|k IH]; [done|].
  rewrite seq_S, foldl_app. cbn [foldl]. destruct IH as [Hlen IH]; [lia|].
  set (row := foldl _ curr (seq 1 k)) in *. unfold lev_cell. split; [by rewrite length_insert|].
  intros j Hj. rewrite nth_insert by (rewrite Hlen; lia). case_decide as E; [|apply IH; lia].
  subst j. replace (1 + k - 1)%nat with k by lia. cbn [Nat.add].
  rewrite !take_S_nth by lia. apply least_snoc.
  - rewrite <-take_S_nth by lia. apply IH. lia.
  - rewrite <-take_S_nth by lia. apply Hprev. lia.
  - apply Hprev. lia.
Qed.

Lemma lev_rows ra rb i : (i <= length ra)%nat ->
  let rows := foldl (lev_row ra rb) (map Z.of_nat (seq 0 (S (length rb))), repeat 0 (S (length rb))) (seq 1 i) in
  row_upto ra rb i (length rb) rows.1 /\ length rows.2 = S (length rb).
Proof.
  induction i as [|i IH]; intros Hi.
  - simpl (seq 1 0). cbn [foldl fst snd]. split; [|apply repeat_length]. split; [by rewrite length_map, length_seq|]. intros j Hj.
    rewrite nth_lookup. rewrite list_lookup_fmap, lookup_seq_lt by lia. cbn.
    replace (Z.of_nat j) with (glen (take j rb)) by (unfold glen; rewrite length_take; lia). apply least_nil_l.
  - cbv zeta. rewrite (seq_S i 1), foldl_app. cbn [foldl]. destruct IH as [Hprev Hlen]; [lia|].
    destruct (foldl _ _ (seq 1 i)) as [prev curr]. cbn in Hprev, Hlen. unfold lev_row. cbn [fst snd].
    replace (1 + i - 1)%nat with i by lia. split; [|by destruct Hprev].
    apply lev_cells; [lia|lia|done|]. split; [by rewrite length_insert|]. intros j Hj.
    rewrite nth_insert by lia. rewrite decide_True by lia. replace j with 0%nat by lia. rewrite take_0.
    replace (Z.of_nat (1 + i)) with (glen (take (S i) ra)) by (unfold glen; rewrite length_take; lia).
    apply least_nil_r.
Qed.

(** The distance computed is the least number of edits. *)
Lemma levenshtein_least (a b : gostr) : least (runes a) (runes b) (levenshtein a b).
Proof.
  unfold levenshtein. case_bool_decide as Ea; [rewrite Ea; apply least_nil_l|].
  case_bool_decide as Eb; [rewrite Eb; apply least_nil_r|].
  destruct (lev_rows (runes a) (runes b) (length (runes a))) as [[_ H] _]; [done|].
  specialize (H (length (runes b)) (le_n _)). by rewrite !firstn_all in H.
Qed.

Section facts.
Context {W E : Type}.
#[local] Abbreviation Command := (@Command W E).
#[local] Abbreviation Router := (@Router W E).
#[local] Abbreviation RunContext := (@RunContext E).

Lemma least_fun a b d d' : least a b d -> least a b d' -> d = d'.
Proof. intros [H1 H2] [H3 H4]. specialize (H2 _ H3). specialize (H4 _ H1). lia. Qed.

Lemma closer_fold input l b k :
  let res := foldl (closer input) (b, k) l in
  let d := levenshtein input in
  (Forall (fun n => k <= d n) l /\ res = (b, k)) \/
  (exists pre post, l = pre ++ res.1 :: post /\ res.2 = d res.1 /\ d res.1 < k /\
     Forall (fun n => d res.1 < d n) pre /\ Forall (fun n => d res.1 <= d n) post).
Proof.
  cbv zeta. revert b k. induction l as [|n l IH]; intros b k; [by left|]. cbn [foldl].
  assert (closer input (b, k) n = if levenshtein input n <? k then (n, levenshtein input n) else (b, k)) as -> by done.
  destruct (Z.ltb_spec (levenshtein input n) k) as [Hlt|Hge].
  - right. destruct (IH n (levenshtein input n)) as [[Hall ->]|(pre & post & Hl & Hd & Hk & Hpre & Hpost)].
    + exists [], l. by split_and!.
    + exists (n :: pre), post. split_and!; [by rewrite Hl at 1|done|lia| |done]. by constructor.
  - destruct (IH b k) as [[Hall ->]|(pre & post & Hl & Hd & Hk & Hpre & Hpost)].
    + left. split; [by constructor|done].
    + right. exists (n :: pre), post. split_and!; [by rewrite Hl at 1|done..| |done]. constructor; [lia|done].
Qed.

Lemma suggest_fold (r : Router) input :
  suggest r input = (foldl (closer input) ([], 4) (visibleCommandNames r)).1.
Proof.
  unfold suggest, visibleCommandNames, visible. f_equal. generalize (@nil byte, 4).
  induction (commands r) as [|cmd l IH]; intros st; [done|]. cbn [foldl]. rewrite filter_cons.
  rewrite IH. destruct (Hidden cmd); [done|]. rewrite decide_True by done. cbn [map concat]. by rewrite foldl_app.
Qed.

(** The command suggested for an unknown one is the first of the visible
    names that takes the fewest edits of runes, when fewer than four do; without
    such a name nothing is suggested. *)
Theorem cmdkit_suggest (r : Router) (input : gostr) :
  let away n d := least (runes input) (runes n) d in
  (suggest r input = [] /\ Forall (fun n => forall d, away n d -> 4 <= d) (visibleCommandNames r)) \/
  (exists pre post d, visibleCommandNames r = pre ++ suggest r input :: post /\
     away (suggest r input) d /\ d < 4 /\
     Forall (fun n => forall d', away n d' -> d < d') pre /\
     Forall (fun n => forall d', away n d' -> d <= d') post).
Proof.
  cbv zeta. rewrite suggest_fold.
  assert (forall n d, least (runes input) (runes n) d -> d = levenshtein input n) as Hd.
  { intros n d H. eapply least_fun; [done|]. apply levenshtein_least. }
  destruct (closer_fold input (visibleCommandNames r) [] 4) as [[Hall ->]|(pre & post & Hl & _ & Hk & Hpre & Hpost)].
  - left. split; [done|]. eapply Forall_impl; [done|]. cbn. by intros n H d ->%Hd.
  - right. eexists pre, post, _. split; [done|]. split; [apply levenshtein_least|]. split; [done|].
    split; (eapply Forall_impl; [done|]; cbn; by intros n H d ->%Hd).
Qed.
End facts.

(** ** Parsing *)

Section parsing.
Context {W E : Type}.
#[local] Abbreviation Command := (@Command W E).
#[local] Abbreviation Router := (@Router W E).
#[local] Abbreviation RunContext := (@RunContext E).

(** A value a flag can have: a boolean flag is "true" or its default. *)
Definition flag_value (flags : list FlagDef) (name v : gostr) : Prop :=
  exists fd, fd ∈ flags /\ Long fd = name /\ (IsBool fd = true -> v = #"true" \/ v = Default fd).
Definition flags_typed (flags : list FlagDef) (m : gmap gostr gostr) : Prop :=
  map_Forall (flag_value flags) m.

Lemma findFlag_elem flags long short fd : findFlag flags long short = Some fd -> fd ∈ flags.
Proof.
  induction flags as [|f flags IH]; [done|]. cbn. case_bool_decide; [intros [= ->]; left|].
  case_bool_decide; [intros [= ->]; left|right; auto].
Qed.

Lemma classify_elem flags arg shown fd : classify flags arg = TFlag shown (Some fd) -> fd ∈ flags.
Proof.
  unfold classify. case_bool_decide; [done|]. destruct (has_prefix _ _).
  - intros [= _ Hf]. by eapply findFlag_elem.
  - destruct (short_of arg); [|done]. intros [= _ Hf]. by eapply findFlag_elem.
Qed.

Lemma defaults_typed flags : flags_typed flags (defaults flags) /\
  forall fd, fd ∈ flags -> Default fd <> [] -> is_Some (defaults flags !! Long fd).
Proof.
  assert (flags_typed [] ∅) as H0 by apply map_Forall_empty.
  assert (forall pre m, flags_typed pre m -> (forall fd, fd ∈ pre -> Default fd <> [] -> is_Some (m !! Long fd)) ->
    let m' := foldl (fun m f => if bool_decide (Default f = []) then m else <[Long f := Default f]> m) m flags in
    flags_typed (pre ++ flags) m' /\
    forall fd, fd ∈ pre ++ flags -> Default fd <> [] -> is_Some (m' !! Long fd)) as Hgen.
  { induction flags as [|f flags IH]; intros pre m Ht Hd; cbn [foldl]; [by rewrite app_nil_r|].
    rewrite (cons_middle f pre flags), app_assoc. apply IH.
    - case_bool_decide.
      + intros n v Hv. destruct (Ht n v Hv) as (fd & Hin & H'). exists fd. split; [set_solver|done].
      + apply map_Forall_insert_2; [|intros n v Hv; destruct (Ht n v Hv) as (fd & Hin & H'); exists fd; split; [set_solver|done]].
        exists f. split; [set_solver|]. split; [done|]. by right.
    - intros fd [Hin|Hin%list_elem_of_singleton]%elem_of_app Hne.
      + specialize (Hd _ Hin Hne). case_bool_decide; [done|]. rewrite lookup_insert_is_Some'. by right.
      + subst. case_bool_decide; [done|]. rewrite lookup_insert_is_Some'. by left. }
  apply (Hgen [] ∅); [done|set_solver].
Qed.

Lemma set_flag_typed flags fd v (c : RunContext) : fd ∈ flags -> (IsBool fd = true -> v = #"true") ->
  flags_typed flags (Flags c) -> flags_typed flags (Flags (set_flag fd v c)).
Proof.
  intros Hin Hv Ht. apply map_Forall_insert_2; [|done]. exists fd. split; [done|]. split; [done|]. auto.
Qed.

Lemma parse_loop_ind flags (I : list gostr -> RunContext -> Prop)
  (Hflag : forall a rest fd c, fd ∈ flags -> IsBool fd = true -> I (a :: rest) c -> I rest (set_flag fd #"true" c))
  (Hval : forall a v rest fd c, fd ∈ flags -> IsBool fd = false -> I (a :: v :: rest) c -> I rest (set_flag fd v c))
  (Harg : forall a rest c, I (a :: rest) c -> I rest (add_args [a] c))
  (Hend : forall a rest c, I (a :: rest) c -> I [] (add_args rest c)) :
  forall args c c', I args c -> parse_loop flags args c = inr c' -> I [] c'.
Proof.
  intros args. induction args as [args IH] using (induction_ltof1 _ (@length gostr)). unfold ltof in IH.
  intros c c' HI. destruct args as [|arg rest]; [by intros [= <-]|]. cbn [parse_loop].
  destruct (classify flags arg) as [|shown [fd|]|] eqn:Ec; [intros [= <-]; by eapply Hend| |done|].
  - apply classify_elem in Ec. destruct (IsBool fd) eqn:Eb; [apply IH; [cbn; lia|by eapply Hflag]|].
    destruct rest as [|v rest]; [done|]. apply IH; [cbn; lia|by eapply Hval].
  - apply IH; [cbn; lia|by eapply Harg].
Qed.

Lemma check_count_spec (cmd : Command) (c0 c : RunContext) : check_count cmd c0 = inr c ->
  c = c0 /\ (0 < ArgsMin cmd -> ArgsMin cmd <= glen (Args c0)) /\
  (0 < ArgsMax cmd -> glen (Args c0) <= ArgsMax cmd).
Proof.
  unfold check_count. cbv zeta. destruct ((0 <? ArgsMin cmd) && _) eqn:E1; [done|].
  destruct ((0 <? ArgsMax cmd) && _) eqn:E2; [done|]. intros [= ->]. rewrite andb_false_iff, !Z.ltb_ge in E1, E2. split; [done|]. split; intros; lia.
Qed.

(** C35: what a command (one that does not take its words raw) is given after a
    successful parse is well typed: its flags are flags of the command, a boolean
    one being true or its default; HasFlag holds for every flag with a default,
    given or not; its arguments are, in order, among the words of the command line
    after the bundles of boolean short flags have come apart, those behind a bare
    "--" included; and they are as many as the command takes. *)
Theorem cmdkit_parse_typed (cmd : Command) (args : list gostr) (c : RunContext)
  (Hraw : PassRaw cmd = false) (Hp : parse cmd args = inr c) :
  flags_typed (cFlags cmd) (Flags c) /\
  (forall fd, fd ∈ cFlags cmd -> Default fd <> [] -> HasFlag c (Long fd) = true) /\
  Args c `sublist_of` expandBundled args (cFlags cmd) /\ RawArgs c = [] /\
  (0 < ArgsMin cmd -> ArgsMin cmd <= glen (Args c)) /\ (0 < ArgsMax cmd -> glen (Args c) <= ArgsMax cmd).
Proof.
  unfold parse in Hp. rewrite Hraw in Hp. set (words := expandBundled args (cFlags cmd)) in *.
  destruct (parse_loop _ _ _) as [e|c0] eqn:El; [done|].
  assert (c = c0 /\ (0 < ArgsMin cmd -> ArgsMin cmd <= glen (Args c0)) /\
    (0 < ArgsMax cmd -> glen (Args c0) <= ArgsMax cmd)) as (-> & Hmin & Hmax).
  { by apply check_count_spec. }
  destruct (defaults_typed (cFlags cmd)) as [Ht Hd].
  pose (I := fun (rest : list gostr) (c : RunContext) => flags_typed (cFlags cmd) (Flags c) /\
    (forall fd, fd ∈ cFlags cmd -> Default fd <> [] -> is_Some (Flags c !! Long fd)) /\
    Args c ++ rest `sublist_of` words /\ RawArgs c = []).
  assert (I [] c0) as (H1 & H2 & H3 & H4).
  { eapply (parse_loop_ind (cFlags cmd) I) in El; [done|..].
    - intros a rest fd c1 Hin Hb (H1 & H2 & H3 & H4). split_and!; [by apply set_flag_typed| |..|done].
      + intros fd' Hin' Hne. cbn. rewrite lookup_insert_is_Some'. right. auto.
      + etrans; [|done]. cbn. apply sublist_app; [done|]. by apply sublist_cons.
    - intros a v rest fd c1 Hin Hb (H1 & H2 & H3 & H4). split_and!; [apply set_flag_typed; [done|congruence|done]| |..|done].
      + intros fd' Hin' Hne. cbn. rewrite lookup_insert_is_Some'. right. auto.
      + etrans; [|done]. cbn. apply sublist_app; [done|]. by apply sublist_cons, sublist_cons.
    - intros a rest c1 (H1 & H2 & H3 & H4). split_and!; [done..| |done]. cbn. by rewrite <-app_assoc.
    - intros a rest c1 (H1 & H2 & H3 & H4). split_and!; [done..| |done]. cbn. rewrite app_nil_r.
      etrans; [|done]. apply sublist_app; [done|]. by apply sublist_cons.
    - by split_and!. }
  rewrite app_nil_r in H3. split_and!; try done. intros fd Hin Hne. apply bool_decide_eq_true. auto.
Qed.
End parsing.

(** *** Round trip *)

(** What the flags of a command must be for each to be reachable. *)
Record flags_wf (flags : list FlagDef) : Prop := {
  wf_long : Forall (fun f => Long f <> []) flags;
  wf_longs : NoDup (map Long flags);
  wf_short : Forall (fun f => Short f = [] \/ exists c, Short f = [c] /\ c <> x2d /\ bz c < 128) flags;
  wf_shorts : NoDup (filter (fun s => s <> []) (map Short flags)) }.

(** What a user writes before a bare "--": an option in its long or short form,
    with its value, boolean options bundled behind one dash, or an argument. *)
Inductive item := Opt (fd : FlagDef) (short : bool) (v : gostr) | Bundle (fds : list FlagDef) | Pos (p : gostr).

Definition spell (it : item) : list gostr :=
  match it with
  | Opt fd short v =>
      (if short then #"-" ++ Short fd else #"--" ++ Long fd) :: if IsBool fd then [] else [v]
  | Bundle fds => [ #"-" ++ concat (map Short fds)]
  | Pos p => [p]
  end.

Definition item_ok (flags : list FlagDef) (it : item) : Prop :=
  match it with
  | Opt fd short v =>
      fd ∈ flags /\ (short = true -> Short fd <> []) /\ (IsBool fd = false -> bundled flags v = false)
  | Bundle fds => (2 <= length fds)%nat /\ Forall (fun fd => fd ∈ flags /\ IsBool fd = true /\ Short fd <> []) fds
  | Pos p => has_prefix p #"-" = false
  end.

Section roundtrip.
Context {W E : Type}.
#[local] Abbreviation Command := (@Command W E).
#[local] Abbreviation RunContext := (@RunContext E).

Definition meant (c : RunContext) (it : item) : RunContext :=
  match it with
  | Opt fd _ v => set_flag fd (if IsBool fd then #"true" else v) c
  | Bundle fds => foldl (fun c fd => set_flag fd #"true" c) c fds
  | Pos p => add_args [p] c
  end.

Lemma find_long flags fd : Forall (fun f => Long f <> []) flags -> NoDup (map Long flags) -> fd ∈ flags ->
  findFlag flags (Long fd) [] = Some fd.
Proof.
  intros Hne Hnd Hin. induction flags as [|f flags IH]; [by apply not_elem_of_nil in Hin|].
  cbn [map] in Hnd. apply NoDup_cons in Hnd as [Hni Hnd]. apply Forall_cons in Hne as [Hf Hne]. cbn [findFlag].
  apply elem_of_cons in Hin as [->|Hin]; [by rewrite bool_decide_eq_true_2|].
  rewrite bool_decide_eq_false_2; [|intros [_ Heq]; apply Hni; rewrite Heq; by apply list_elem_of_fmap_2].
  rewrite bool_decide_eq_false_2 by (intros [Hx _]; done). by apply IH.
Qed.

Lemma find_short flags fd : NoDup (filter (fun s => s <> []) (map Short flags)) -> fd ∈ flags ->
  Short fd <> [] -> findFlag flags [] (Short fd) = Some fd.
Proof.
  intros Hnd Hin Hs. induction flags as [|f flags IH]; [by apply not_elem_of_nil in Hin|]. cbn [findFlag].
  rewrite bool_decide_eq_false_2 by (intros [Hx _]; done). cbn [map] in Hnd. rewrite filter_cons in Hnd.
  apply elem_of_cons in Hin as [->|Hin]; [by rewrite bool_decide_eq_true_2|].
  case_bool_decide as Hc; [|apply IH; [case_decide; [by apply NoDup_cons in Hnd as [_ ?]|done]|done]].
  destruct Hc as [_ Heq]. rewrite decide_True in Hnd by congruence. apply NoDup_cons in Hnd as [Hni _].
  exfalso. apply Hni. apply list_elem_of_filter. split; [congruence|]. rewrite Heq. by apply list_elem_of_fmap_2.
Qed.

Lemma classify_spelled flags fd short : flags_wf flags -> fd ∈ flags -> (short = true -> Short fd <> []) ->
  let w := if short then #"-" ++ Short fd else #"--" ++ Long fd in
  classify flags w = TFlag w (Some fd) /\ bundled flags w = false.
Proof.
  intros Hwf Hin Hs. destruct Hwf as [Hl Hls Hsh Hss]. cbv zeta. destruct short.
  - specialize (Hs eq_refl). pose proof (proj1 (Forall_forall _ _) Hsh _ Hin) as [?|(c & Hc & Hne & Hasc)]; [done|].
    split; [|by rewrite Hc]. unfold classify. rewrite Hc. change (#"-" ++ [c]) with [x2d; c].
    change #"--" with [x2d; x2d]. rewrite bool_decide_eq_false_2 by congruence.
    assert (Byte.eqb c x2d = false) as Hb by (apply not_true_iff_false; by rewrite byte_eqb_eq).
    cbn [has_prefix short_of]. rewrite Hb, andb_false_r. rewrite encode_ascii by done.
    by rewrite <-Hc, find_short.
  - pose proof (proj1 (Forall_forall _ _) Hl _ Hin) as Hne. cbn in Hne. unfold classify.
    change (#"--" ++ Long fd) with (x2d :: x2d :: Long fd). change #"--" with [x2d; x2d].
    rewrite bool_decide_eq_false_2 by congruence. split.
    + cbn [has_prefix]. change (Byte.eqb x2d x2d) with true. cbn [andb]. change (drop 2 (x2d :: x2d :: Long fd)) with (Long fd). by rewrite find_long.
    + by destruct (Long fd).
Qed.

Lemma pos_plain flags p : has_prefix p #"-" = false -> classify flags p = TArg /\ bundled flags p = false.
Proof.
  change #"-" with [x2d]. intros Hp. destruct p as [|c p]; [done|]. cbn in Hp. rewrite andb_true_r in Hp.
  split.
  - unfold classify. change #"--" with [x2d; x2d]. rewrite bool_decide_eq_false_2 by (intros [= -> _]; done).
    cbn [has_prefix]. rewrite Hp. cbn [andb]. unfold short_of. by destruct c.
  - by destruct c.
Qed.

(** A bundle comes apart into the short forms of its flags. *)
Lemma bundle_expands flags fds : flags_wf flags -> item_ok flags (Bundle fds) ->
  expand_one flags (#"-" ++ concat (map Short fds)) = map (fun fd => #"-" ++ Short fd) fds.
Proof.
  intros Hwf [Hlen Hfds]. assert (exists cs, concat (map Short fds) = cs /\ map Short fds = map (fun c => [c]) cs /\
    Forall (fun c => c <> x2d /\ bz c < 128 /\ short_bool flags (bz c) = true) cs) as (cs & -> & Es & Hcs).
  { clear Hlen. induction Hfds as [|fd fds (Hin & Hb & Hs) _ (cs & E1 & E2 & Hcs)]; [by exists []|].
    pose proof (proj1 (Forall_forall _ _) (wf_short _ Hwf) _ Hin) as [?|(c & Hc & Hne & Hasc)]; [done|].
    exists (c :: cs). cbn [map concat]. rewrite E1, E2, Hc. do 2 (split; [done|]). constructor; [|done].
    split; [done|]. split; [done|]. unfold short_bool. rewrite encode_ascii by done. rewrite <-Hc.
    by rewrite find_short by (done || apply Hwf). }
  assert (map (fun fd => #"-" ++ Short fd) fds = map (fun c => [x2d; c]) cs) as ->.
  { transitivity (map (fun s => #"-" ++ s) (map Short fds)); [by rewrite map_map|]. rewrite Es, map_map. done. }
  apply (f_equal length) in Es. rewrite !length_map in Es.
  assert (runes cs = map bz cs) as Er.
  { apply ascii_runes. eapply Forall_impl; [exact Hcs|]. cbn. tauto. }
  unfold expand_one. change (#"-" ++ cs) with (x2d :: cs). change (drop 1 (x2d :: cs)) with cs.
  assert (bundled flags (x2d :: cs) = true) as ->.
  { destruct cs as [|c [|c' cs]]; cbn in Es; try lia. unfold bundled. change (drop 1 (x2d :: c :: c' :: cs)) with (c :: c' :: cs).
    rewrite Er. apply andb_true_iff. split.
    - apply Forall_cons in Hcs as [(Hc & _) _]. by apply negb_true_iff, not_true_iff_false; rewrite byte_eqb_eq.
    - apply forallb_forall. intros r (d & <- & Hd)%in_map_iff. apply list_elem_of_In in Hd.
      by apply (proj1 (Forall_forall _ _) Hcs) in Hd as (_ & _ & ?). }
  rewrite Er, map_map. apply map_ext_Forall. eapply Forall_impl; [exact Hcs|]. intros c (_ & Hc & _). cbn.
  by rewrite encode_ascii.
Qed.

Lemma parse_bundle flags fds rest (c : RunContext) : flags_wf flags -> item_ok flags (Bundle fds) ->
  parse_loop flags (map (fun fd => #"-" ++ Short fd) fds ++ rest) c =
  parse_loop flags rest (foldl (fun c fd => set_flag fd #"true" c) c fds).
Proof.
  intros Hwf [_ Hfds]. revert c. induction Hfds as [|fd fds (Hin & Hb & Hs) _ IH]; intros c; [done|].
  destruct (classify_spelled flags fd true Hwf Hin (fun _ => Hs)) as [Hc _]. cbn [map app parse_loop foldl].
  rewrite Hc, Hb. apply IH.
Qed.

Lemma expand_plain flags w ws : bundled flags w = false ->
  expandBundled (w :: ws) flags = w :: expandBundled ws flags.
Proof. intros Hb. unfold expandBundled. cbn. unfold expand_one at 1. by rewrite Hb. Qed.

Lemma parse_items flags items rest (c : RunContext) : flags_wf flags -> Forall (item_ok flags) items ->
  parse_loop flags (expandBundled (concat (map spell items) ++ rest) flags) c =
  parse_loop flags (expandBundled rest flags) (foldl meant c items).
Proof.
  intros Hwf Hok. revert c. induction Hok as [|it items Hit Hok IH]; intros c; [done|]. cbn [map concat foldl].
  rewrite <-app_assoc. destruct it as [fd short v|fds|p]; cbn [spell] in *.
  - destruct Hit as (Hin & Hs & Hv). destruct (classify_spelled flags fd short Hwf Hin Hs) as [Hc Hb].
    set (w := if short then _ else _) in *. cbn [app]. rewrite expand_plain by done. cbn [parse_loop].
    rewrite Hc. unfold meant at 2. destruct (IsBool fd); [cbn [app]; by rewrite IH|].
    cbn [app]. rewrite expand_plain by auto. by rewrite IH.
  - cbn [app]. unfold expandBundled at 1. cbn [map concat]. rewrite bundle_expands by done.
    rewrite parse_bundle by done. apply IH.
  - destruct (pos_plain flags p Hit) as [Hc Hb]. cbn [app]. rewrite expand_plain by done. cbn [parse_loop].
    by rewrite Hc, IH.
Qed.

(** C34: For a command that does not take its words raw and whose flags have names
    ([flags_wf]: long names not empty, names distinct, a short one a single ASCII
    byte other than the dash): whatever options and arguments a user means, parsing
    the words that spell them (an option in its long form, its short form, or
    bundled with other boolean ones; a value that is no bundle; an argument that
    does not begin with a dash) gives exactly those on top of the defaults, and then
    the number of arguments decides.  The words after a bare "--" are arguments:
    as written when none reads as a bundle of boolean short flags, which otherwise
    comes apart there too. *)
Theorem cmdkit_parse_roundtrip (cmd : Command) (items : list item) (rest : list gostr)
  (Hraw : PassRaw cmd = false) (Hwf : flags_wf (cFlags cmd)) (Hok : Forall (item_ok (cFlags cmd)) items) :
  let c := foldl meant (mkRunContext [] (defaults (cFlags cmd)) [] None) items in
  parse cmd (concat (map spell items)) = check_count cmd c /\
  parse cmd (concat (map spell items) ++ #"--" :: rest) =
    check_count cmd (add_args (expandBundled rest (cFlags cmd)) c) /\
  (Forall (fun w => bundled (cFlags cmd) w = false) rest -> expandBundled rest (cFlags cmd) = rest).
Proof.
  cbv zeta. unfold parse. rewrite Hraw. split; [|split].
  - rewrite <-(app_nil_r (concat _)). by rewrite parse_items.
  - rewrite parse_items, expand_plain by done. done.
  - induction 1 as [|w ws Hw _ IH]; [done|]. by rewrite expand_plain, IH.
Qed.
End roundtrip.

(** ** Completion and dispatch *)

Section dispatch.
Context {W E : Type} (IsPrint : Z -> bool).
#[local] Abbreviation Command := (@Command W E).
#[local] Abbreviation Router := (@Router W E).
#[local] Abbreviation Completer := (@Completer W E).

(** The callback of a verb. *)
Definition completer_of (r : Router) (verb : gostr) : option Completer :=
  if bool_decide (verb = barePromptSentinel) then barePromptComplete r else index r !! verb ≫= CompleteArgs.

(** What the shell sees of a callback's answer. *)
Definition candidates (fn : option Completer) (cc : CompleteContext) (w : W) : result :=
  match fn with
  | None => mkResult w [] [] 0
  | Some fn => let '(w, cands) := fn cc w in mkResult w [] (concat (map (fun c => c ++ LFs) cands)) 0
  end.

Lemma run_completion (r : Router) raw w : index r !! completeVerb = Some complete_command ->
  help_asked raw = false ->
  Run IsPrint r (completeVerb :: raw) w =
  match completion r raw with Some (fn, cc) => candidates (Some fn) cc w | None => mkResult w [] [] 0 end.
Proof.
  intros Hr Hh. unfold Run. rewrite bool_decide_eq_false_2 by (intros [H|H]; vm_compute in H; done).
  rewrite bool_decide_eq_false_2 by (intros [_ [H|H]]; vm_compute in H; done). rewrite Hr.
  unfold run_command. rewrite Hh. cbn. unfold run_handler, runComplete. cbn.
  destruct (completion r raw) as [[fn cc]|]; [|done]. cbn. by destruct (fn cc w).
Qed.

Lemma completion_verb (r : Router) verb tail w current args :
  verb <> #"--" -> cursor_token tail = (current, args) ->
  match completion r (verb :: tail) with Some (fn, cc) => candidates (Some fn) cc w | None => mkResult w [] [] 0 end =
  candidates (completer_of r verb) (mkCompleteContext (strip_marker args) current
    (bool_decide (verb = barePromptSentinel \/ #"--" ∈ strip_marker args)) (rExtra r)) w.
Proof.
  intros Hv Hc. unfold completion. cbn [strip_marker]. rewrite bool_decide_eq_false_2 by done. rewrite Hc.
  unfold completer_of. case_bool_decide as Hs.
  - rewrite (bool_decide_eq_true_2 (_ \/ _)) by auto. by destruct (barePromptComplete r).
  - replace (bool_decide (verb = barePromptSentinel \/ #"--" ∈ strip_marker args))
      with (bool_decide (#"--" ∈ strip_marker args)) by (apply bool_decide_ext; naive_solver).
    destruct (index r !! verb) as [cmd|]; [|done]. cbn. by destruct (CompleteArgs cmd).
Qed.

(** The words the shell scripts pass, the verb, the word under the cursor
    and those before it, reach the callback of the verb exactly, unless a verb
    or cursor asks for help; then nothing else runs and the exit code is 0.  If
    the shell drops the empty word of a cursor on a blank, the separator is
    taken for the cursor, and a bare "--" the user typed first is lost. *)
Theorem cmdkit_complete_wire (r : Router) (verb cur : gostr) (toks : list gostr) (w : W)
  (Hr : index r !! completeVerb = Some complete_command)
  (Hverb : verb ∉ [ #"--"; #"--help"; #"-h"]) (Hcur : cur ∉ [ #"--help"; #"-h"]) :
  Run IsPrint r (completeVerb :: verb :: currentFlag :: cur :: #"--" :: toks) w =
    candidates (completer_of r verb) (mkCompleteContext toks cur
      (bool_decide (verb = barePromptSentinel \/ #"--" ∈ toks)) (rExtra r)) w /\
  Run IsPrint r (completeVerb :: verb :: currentFlag :: #"--" :: toks) w =
    candidates (completer_of r verb) (mkCompleteContext (strip_marker toks) #"--"
      (bool_decide (verb = barePromptSentinel \/ #"--" ∈ strip_marker toks)) (rExtra r)) w.
Proof.
  apply not_elem_of_cons in Hverb as [Hv Hverb]. apply not_elem_of_cons in Hverb as [Hv1 Hverb].
  apply not_elem_of_cons in Hverb as [Hv2 _]. apply not_elem_of_cons in Hcur as [Hc1 Hcur].
  apply not_elem_of_cons in Hcur as [Hc2 _].
  assert (help_asked (verb :: currentFlag :: cur :: #"--" :: toks) = false) as H1.
  { cbn [help_asked]. rewrite !(bool_decide_eq_false_2 (_ \/ _)) by naive_solver.
    rewrite (bool_decide_eq_false_2 (verb = _)) by done. by repeat case_bool_decide. }
  assert (help_asked (verb :: currentFlag :: #"--" :: toks) = false) as H2.
  { cbn [help_asked]. rewrite !(bool_decide_eq_false_2 (_ \/ _)) by naive_solver.
    rewrite (bool_decide_eq_false_2 (verb = _)) by done. by repeat case_bool_decide. }
  rewrite !run_completion by done. split.
  - by rewrite (completion_verb r verb _ w cur (#"--" :: toks)).
  - by rewrite (completion_verb r verb _ w #"--" toks).
Qed.

Lemma group_order_spec seen (cmds : list Command) :
  NoDup (group_order seen cmds) /\
  forall g, g ∈ group_order seen cmds <-> (g ∉ seen) /\ g ∈ map group_of cmds.
Proof.
  revert seen. induction cmds as [|cmd cmds IH]; intros seen; cbn; [split; [constructor|set_solver]|].
  case_bool_decide as Hg.
  - destruct (IH seen) as [Hnd He]. split; [done|]. intros g. rewrite He, elem_of_cons. split; [naive_solver|].
    intros [H1 [->|H2]]; done.
  - destruct (IH (group_of cmd :: seen)) as [Hnd He]. split.
    + constructor; [|done]. rewrite He. set_solver.
    + intros g. rewrite !elem_of_cons, He, elem_of_cons.
      destruct (decide (g = group_of cmd)) as [->|]; naive_solver.
Qed.

Lemma groups_perm (order : list gostr) (cmds : list Command) : NoDup order ->
  (forall c, c ∈ cmds -> group_of c ∈ order) ->
  (concat (map (fun g => in_group g cmds) order)) ≡ₚ cmds.
Proof.
  intros Hnd. revert cmds. induction Hnd as [|g order Hg Hnd IH]; intros cmds Hin.
  - destruct cmds as [|c cmds]; [done|]. specialize (Hin c). set_solver.
  - cbn [map concat]. rewrite <-(filter_app_complement (fun c => group_of c = g) cmds) at 2.
    apply Permutation_app_head. etrans; [|apply IH].
    + apply reflexive_eq. f_equal. apply map_ext_in. intros g' Hg'%list_elem_of_In. unfold in_group.
      rewrite list_filter_filter. apply list_filter_iff. assert (g' <> g) as Hne by (by intros ->). intros c. naive_solver.
    + intros c Hc. apply list_elem_of_filter in Hc as [Hne Hc]. specialize (Hin c Hc). set_solver.
Qed.

#[local] Instance name_le_trans : Transitive (@name_le W E).
Proof. intros a b c. unfold name_le. apply str_le_trans. Qed.
#[local] Instance name_le_total : Total (@name_le W E).
Proof. intros a b. apply str_le_total. Qed.

Lemma sorted_groups_perm (order : list gostr) (cmds : list Command) :
  concat (map (fun g => merge_sort name_le (in_group g cmds)) order) ≡ₚ
  concat (map (fun g => in_group g cmds) order).
Proof.
  induction order as [|g order IH]; [done|]. cbn [map concat].
  apply Permutation_app; [apply merge_sort_Permutation|done].
Qed.

(** The help lists every visible command exactly once, under its own group,
    each group once and sorted by name. *)
Theorem cmdkit_usage_lists (r : Router) :
  NoDup (map fst (groupedCommands r)) /\
  concat (map snd (groupedCommands r)) ≡ₚ visible r /\
  Forall (fun g => g.2 <> [] /\ Forall (fun c => group_of c = g.1) g.2 /\ StronglySorted name_le g.2)
    (groupedCommands r).
Proof.
  destruct (group_order_spec [] (visible r)) as [Hnd He]. unfold groupedCommands. rewrite !map_map. cbn [fst snd].
  rewrite map_id. split; [done|]. split.
  - rewrite sorted_groups_perm. apply groups_perm; [done|]. intros c Hc. rewrite He. split; [set_solver|].
    by apply list_elem_of_fmap_2.
  - apply Forall_map, Forall_forall. intros g [_ Hg]%He. cbn [fst snd].
    assert (merge_sort name_le (in_group g (visible r)) ≡ₚ in_group g (visible r)) as Hp by apply merge_sort_Permutation.
    split; [|split; [|apply (StronglySorted_merge_sort _)]].
    + intros Hnil. rewrite Hnil in Hp. apply Permutation_nil_l in Hp. apply list_elem_of_fmap_1 in Hg as (c & -> & Hc).
      assert (c ∈ in_group (group_of c) (visible r)) as Hin by (by apply list_elem_of_filter). rewrite <-Hp in Hin. set_solver.
    + rewrite Hp. apply Forall_forall. by intros c [Hc _]%list_elem_of_filter.
Qed.

Lemma index_Register (r : Router) (cmd : Command) n :
  index (Register r cmd) !! n = if decide (n ∈ names cmd) then Some cmd else index r !! n.
Proof.
  unfold Register, names. cbn [index]. generalize (Name cmd) as k, (index r) as m. induction (Aliases cmd) as [|a l IH]; intros k m; cbn [foldl].
  - destruct (decide (n = k)) as [->|Hn]; [rewrite lookup_insert_eq; rewrite decide_True by left; done|].
    rewrite lookup_insert_ne by done. rewrite decide_False by set_solver. done.
  - rewrite IH. destruct (decide (n ∈ a :: l)) as [H|H].
    + rewrite decide_True by set_solver. done.
    + destruct (decide (n = k)) as [->|Hn].
      * rewrite lookup_insert_eq. rewrite decide_True by left. done.
      * rewrite lookup_insert_ne by done. rewrite decide_False by set_solver. done.
Qed.

(** A word names the command registered last with it, as its name or as an
    alias, and nothing else does. *)
Theorem cmdkit_dispatch (name n : gostr) (cmds : list Command) :
  index (foldl Register (NewRouter name) cmds) !! n =
  last (filter (fun c => n ∈ names c) (complete_command :: cmds)).
Proof.
  induction cmds as [|cmd cmds IH] using rev_ind.
  - cbn [foldl]. unfold NewRouter. rewrite index_Register. cbn [index]. rewrite filter_cons. cbn.
    by case_decide.
  - rewrite foldl_app. cbn [foldl]. rewrite index_Register, IH, app_comm_cons, filter_app.
    replace (filter (fun c => n ∈ names c) [cmd]) with (if decide (n ∈ names cmd) then [cmd] else [])
      by (rewrite filter_cons; by case_decide).
    case_decide; [by rewrite last_snoc|by rewrite app_nil_r].
Qed.
End dispatch.

(** ** Witnesses *)

Definition ex_flags : list FlagDef :=
  [mkFlagDef #"json" #"j" [] true []; mkFlagDef #"all" #"a" [] true []; mkFlagDef #"limit" #"n" [] false #"10"].

Definition ex_list : @Command nat nat :=
  mkCommand #"list" [ #"ls"] [] [] [] [] false 0 0 ex_flags (RunFunc (fun c w => (length (Args c), None))) false
    (Some (fun cc w => (w, ccArgs cc))).

Definition ex_router : @Router nat nat := Register (NewRouter #"fig") ex_list.

Lemma ex_flags_wf : flags_wf ex_flags.
Proof.
  split.
  - repeat constructor; done.
  - by apply (bool_decide_unpack _).
  - do 3 (apply Forall_cons; split; [right; eexists; split; [reflexivity|split; [discriminate|reflexivity]]|]).
    constructor.
  - by apply (bool_decide_unpack _).
Qed.

Lemma cmdkit_parse_typed_witness : parse (E := nat) ex_list [ #"-ja"; #"x"] =
    inr (mkRunContext [ #"x"] (<[ #"all" := #"true"]> (<[ #"json" := #"true"]> {[ #"limit" := #"10"]})) [] None) /\
  flags_typed ex_flags (<[ #"all" := #"true"]> (<[ #"json" := #"true"]> {[ #"limit" := #"10"]})).
Proof.
  split; [reflexivity|].
  exact (proj1 (cmdkit_parse_typed (E := nat) ex_list [ #"-ja"; #"x"]
    (mkRunContext [ #"x"] (<[ #"all" := #"true"]> (<[ #"json" := #"true"]> {[ #"limit" := #"10"]})) [] None)
    eq_refl eq_refl)).
Defined.

(** The last words: an argument that reads as a bundle is split. *)
Lemma cmdkit_parse_roundtrip_witness :
  let json := mkFlagDef #"json" #"j" [] true [] in let all := mkFlagDef #"all" #"a" [] true [] in
  let os := [Opt (mkFlagDef #"limit" #"n" [] false #"10") true #"-3"; Bundle [json; all]; Pos #"x"] in
  concat (map spell os) = [ #"-n"; #"-3"; #"-ja"; #"x"] /\
  parse (E := nat) ex_list (concat (map spell os) ++ #"--" :: [ #"-ja"; #"y"]) =
    inr (mkRunContext [ #"x"; #"-j"; #"-a"; #"y"]
      (<[ #"all" := #"true"]> (<[ #"json" := #"true"]> {[ #"limit" := #"-3"]})) [] None).
Proof.
  cbv zeta. split; [reflexivity|].
  etrans; [eapply (cmdkit_parse_roundtrip ex_list)|]; [reflexivity|exact ex_flags_wf| |reflexivity].
  constructor; [|constructor; [|constructor; [reflexivity|constructor]]].
  - split; [do 2 right; left|]. split; [discriminate|reflexivity].
  - split; [reflexivity|]. constructor; [|constructor; [|constructor]].
    + split; [by left|]. split; [reflexivity|discriminate].
    + split; [by right; left|]. split; [reflexivity|discriminate].
Defined.

Lemma cmdkit_complete_wire_witness :
  Run (fun _ => true) ex_router [completeVerb; #"ls"; currentFlag; #"x"; #"--"; #"a"; #"--"] 0%nat =
    mkResult 0%nat [] (#"a" ++ LFs ++ #"--" ++ LFs) 0.
Proof.
  etrans; [apply (cmdkit_complete_wire (fun _ => true) ex_router #"ls" #"x" [ #"a"; #"--"] 0%nat)|];
    [reflexivity|by apply (bool_decide_unpack _)|by apply (bool_decide_unpack _)|reflexivity].
Defined.
