(* ===== verification/Angelus.v ===== *)
(** * angelus: the supervisor's requests
    (src/internal/angelus/protocol.go, bindings.go, backfill.go, angelus.go,
    src/internal/store/store.go, src/internal/rpc/methods.go and aria_id.go,
    src/internal/chalkboard/environment.go).

    Each handler is a function of the supervisor's state: the registry, the
    backend, the cache of loadout hashes.  The backend is an interface, the
    class [BackendOps]; what a handler finds on the machine when it is called
    (environment, clock, loadout files, processes) is the record [env].  A
    running agent is known here by the configuration it was created with. *)

From S2P Require Import Prelude Utf8 GoStrings Json GoJson Message Chalkboard Registry.

(** ** Data *)

(** What a listing shows of an agent, live (figaro.FigaroInfo), stored
    (store.AriaMeta) or on the wire (rpc.FigaroInfoResponse). *)
Record facts := mkFacts {
  fcProvider : gostr; fcModel : gostr; MessageCount : Z; TokensIn : Z; TokensOut : Z;
  CacheReadTokens : Z; CacheWriteTokens : Z; ContextTokens : Z; ContextLimit : Z; ContextExact : bool;
  Mantra : gostr; Cwd : gostr; LoadoutName : gostr; LoadoutVersion : gostr }.
Definition no_facts : facts := mkFacts [] [] 0 0 0 0 0 0 0 false [] [] [] [].

(** type AriaMeta (store.go) *)
Record AriaMeta := mkMeta {
  mFacts : facts; TurnCount : Z; LastActiveMS : Z; mLastFigaroLT : Z; CreatedAtMS : Z }.
Definition no_meta : AriaMeta := mkMeta no_facts 0 0 0 0.

(** type FigaroInfo (figaro.go); times in milliseconds. *)
Record FigaroInfo := mkInfo {
  inID : gostr; inState : gostr; inFacts : facts; inCreatedAt : Z; inLastActive : Z; inLastFigaroLT : Z }.

(** type OwnerInfo, NodeView *)
Record OwnerInfo := mkOwner { oTrunk : gostr; oLoadout : gostr; IsRoot : bool }.
Definition no_owner : OwnerInfo := mkOwner [] [] false.
Record NodeView := mkNode {
  nID : gostr; nParent : gostr; nKind : gostr; nLoadout : gostr; nVersion : gostr; nFrozen : bool;
  nTrunk : gostr; nVector : list Z; nBranchedLT : Z }.

Definition nullKind := #"null".
Definition loadoutKind := #"loadout".
Definition conversationKind := #"conversation".

(** type FigaroInfoResponse: the facts (its LoadoutVer for their version) and
    the place in the forest. *)
Record Position := mkPosition {
  Vector : list Z; Trunk : gostr; Parent : gostr; Frozen : bool; BranchedLT : Z; Kind : gostr }.
Definition no_position : Position := mkPosition [] [] [] false 0 [].
Record FigaroInfoResponse := mkResponse {
  rID : gostr; rState : gostr; rFacts : facts; CreatedAt : Z; LastActive : Z; rBoundPIDs : gset Z;
  rPosition : Position }.

(** type Knobs (provider.go) *)
Record Knobs := mkKnobs { kModel : gostr; MaxTokens : Z; ReminderRenderer : gostr; UseOfficialSDK : bool }.

(** figaro.Config *)
Record Config := mkConfig {
  cID : gostr; cSocketPath : gostr; cProvider : gostr * Knobs; cBackend : bool; cChalkboard : snapshot;
  cToolRoot : gostr; InlineBoot : option Patch; cCreatedAt : Z; cLastActive : Z }.

(** type Backend: the operations the supervisor uses.  [None] and [false] are
    errors; Promote's third outcome is ErrAtStump. *)
Inductive promoted := Climbed (n : Z) | AtStump | PromoteFailed.
Class BackendOps (B : Type) := {
  ChalkboardState : B -> gostr -> B * option snapshot;
  ApplyChalkboard : B -> gostr -> Patch -> B * bool;
  CreateLoadout : B -> gostr -> Patch -> B * option gostr;
  CreateConversation : B -> gostr -> B * option gostr;
  Fork : B -> gostr -> B * option (gostr * gostr);
  ForkAt : B -> gostr -> Z -> B * option (gostr * gostr);
  Promote : B -> gostr -> Z -> B * promoted;
  OwnerResolution : B -> gostr -> Z -> option OwnerInfo;
  Node : B -> gostr -> option NodeView;
  Nodes : B -> list NodeView;
  Conversations : B -> list NodeView;
  ConversationIDs : B -> list gostr;
  Meta : B -> gostr -> option (option AriaMeta);
  SetMeta : B -> gostr -> AriaMeta -> B * bool;
  Remove : B -> gostr -> bool -> B * bool }.

(** What a handler finds on the machine: config.toml's default loadout when the
    file is there and loads; the outfitter's Load; whether the provider factory
    accepts; the environment, working directory and files; a fresh short uuid;
    the clock in milliseconds; segment.ValueHash of a patch; whether templates
    were loaded; liveness and start time of a process; whether a live agent
    lets a fork run; the socket directory and the names of the providers;
    whether a request passed the draining check of its registration before a
    shutdown began; which agents a shutdown sees die within its grace. *)
Record env := mkEnv {
  eConfig : option gostr; eLoad : gostr -> option Patch; eFactory : gostr -> Knobs -> bool;
  eGetenv : gostr -> gostr; eGetwd : gostr; eStat : gostr -> bool; eUUID : gostr; eNow : Z;
  eValueHash : Patch -> gostr; eTemplates : bool; isAlive : Z -> bool; pidStartTime : Z -> Z;
  eCoordinate : gostr -> bool; FigaroSocketDir : gostr; availableProviders : list gostr;
  eEarly : bool; eDies : gostr -> bool }.

(** The supervisor: the handlers' state and what they did to agents. *)
Record server (B : Type) := mkServer {
  sReg : Registry (F := Config); sBackend : option B; DefaultLoadout : gostr;
  loadoutHashCache : gmap gostr (gostr * Z); StartedAt : Z; sKilled : list gostr; sSockets : list gostr }.
#[global] Arguments mkServer {B}. #[global] Arguments sReg {B}. #[global] Arguments sBackend {B}.
#[global] Arguments DefaultLoadout {B}. #[global] Arguments loadoutHashCache {B}.
#[global] Arguments StartedAt {B}. #[global] Arguments sKilled {B}. #[global] Arguments sSockets {B}.

Inductive failure :=
| NoDefaultLoadout (providers : list gostr)
| NoProvider (providers : list gostr) (loadout : gostr)
| LoadoutNotFound (name : gostr)
| ProviderFailed (name : gostr)
| NoBackend
| BackendFailed
| Refused
| BadAriaID
| Unavailable
| Panics.

(** ** JSON values of a chalkboard *)

Definition marshal_string (s : gostr) : gostr := Print (JStr s).

(** func patchString, patchInt, patchBool; restoreOne's cbStr, cbInt, cbBool *)
Definition patchString (m : snapshot) (key : gostr) : gostr :=
  match m !! key with Some raw => fst (Unmarshal dec_string raw []) | None => [] end.
Definition patchInt (m : snapshot) (key : gostr) : Z :=
  match m !! key with Some raw => fst (Unmarshal dec_int raw 0) | None => 0 end.
Definition patchBool (m : snapshot) (key : gostr) : bool :=
  match m !! key with Some raw => fst (Unmarshal dec_bool raw false) | None => false end.

(** func knobsFromPatch *)
Definition knobsFromPatch (m : snapshot) : Knobs :=
  mkKnobs (patchString m #"system.model") (patchInt m #"system.max_tokens")
    (patchString m #"system.reminder_renderer") (patchBool m #"system.use_official_sdk").

(** ** Boot patches *)

(** chalkboard.EnvironmentPatch: the allowlist has one name. *)
Definition EnvironmentAllowlist : list (gostr * gostr) := [ (#"FIGARO_WIRE_DIR", #"figaro_wire_dir")].
Definition EnvironmentPatch (e : env) : Patch :=
  mkPatch (foldl (fun set '(name, lower) =>
    let v := eGetenv e name in
    if bool_decide (v = []) then set else <[ #"system.environment." ++ lower := marshal_string v]> set)
    ∅ EnvironmentAllowlist) [].

(** Go's loop copying a map into another. *)
Definition copy_into (m p : snapshot) : snapshot := p ∪ m.

(** func runtimeFillins *)
Definition runtimeFillins (e : env) (ariaID cwd : gostr) : Patch :=
  let set := if bool_decide (ariaID = []) then ∅ else {[ #"aria_id" := marshal_string ariaID]} in
  let set := <[ #"system.root" := marshal_string cwd]> (<[ #"system.cwd" := marshal_string cwd]> set) in
  mkPatch (copy_into set (pSet (EnvironmentPatch e))) [].

(** func convBootPatch *)
Definition convBootPatch (e : env) (reqPatch : option Patch) (ariaID cwd : gostr) : Patch :=
  let p := runtimeFillins e ariaID cwd in
  match reqPatch with
  | Some rp => mkPatch (copy_into (pSet p) (pSet rp)) (pRemove p ++ pRemove rp)
  | None => p
  end.

(** func bootPatchEphemeral, withAriaID *)
Definition bootPatchEphemeral (e : env) (base : Patch) (ariaID cwd : gostr) : Patch :=
  let set := copy_into (pSet base) (pSet (runtimeFillins e ariaID cwd)) in
  mkPatch (match set !! #"system.max_tokens" with
           | Some _ => set | None => <[ #"system.max_tokens" := #"8192"]> set end) (pRemove base).
Definition withAriaID (p : Patch) (ariaID : gostr) : Patch :=
  mkPatch (<[ #"aria_id" := marshal_string ariaID]> (pSet p)) (pRemove p).

(** The patch create resolves the provider from. *)
Definition base_patch (loadout : Patch) (req : option Patch) : Patch :=
  match req with
  | Some rp => mkPatch (copy_into (pSet loadout) (pSet rp)) (pRemove loadout ++ pRemove rp)
  | None => loadout
  end.

(** func cwdFromChalkboard, called at once. *)
Definition cwdFromChalkboard (snap : snapshot) (fallback : gostr) : gostr :=
  match snap !! #"system.cwd" with
  | Some raw => let '(s, ok) := Unmarshal dec_string raw [] in
                if ok && negb (bool_decide (s = [])) then s else fallback
  | None => fallback
  end.

(** func loadoutVerLabel *)
Definition loadoutVerLabel (stamped current : gostr) : gostr :=
  if bool_decide (stamped = []) then [] else
  if bool_decide (current <> [] /\ stamped = current) then #"live" else take 8 stamped.

(** func ValidateAriaID *)
Definition aria_rune (r : Z) : bool :=
  (0x61 <=? r) && (r <=? 0x7a) || (0x41 <=? r) && (r <=? 0x5a) || (0x30 <=? r) && (r <=? 0x39) ||
  (r =? 0x2d) || (r =? 0x5f).
Definition ValidateAriaID (id : gostr) : bool :=
  negb (bool_decide (id = [])) && (glen id <=? 64) && forallb aria_rune (runes id).

(** filepath.Join(dir, id+".sock"), for a clean dir and an id without slashes *)
Definition sock_path (e : env) (id : gostr) : gostr := FigaroSocketDir e ++ #"/" ++ id ++ #".sock".

Section handlers.
Context {B : Type} `{BackendOps B}.

(** What Info() of a running agent returns at the time of the call. *)
Context (Info : Config -> FigaroInfo).

#[local] Abbreviation server := (server B).

Definition set_reg (r : Registry (F := Config)) (s : server) : server :=
  mkServer r (sBackend s) (DefaultLoadout s) (loadoutHashCache s) (StartedAt s) (sKilled s) (sSockets s).
Definition set_backend (b : B) (s : server) : server :=
  mkServer (sReg s) (Some b) (DefaultLoadout s) (loadoutHashCache s) (StartedAt s) (sKilled s) (sSockets s).
Definition set_default (d : gostr) (s : server) : server :=
  mkServer (sReg s) (sBackend s) d (loadoutHashCache s) (StartedAt s) (sKilled s) (sSockets s).
Definition set_hashes (c : gmap gostr (gostr * Z)) (s : server) : server :=
  mkServer (sReg s) (sBackend s) (DefaultLoadout s) c (StartedAt s) (sKilled s) (sSockets s).
Definition killed (id : gostr) (s : server) : server :=
  mkServer (sReg s) (sBackend s) (DefaultLoadout s) (loadoutHashCache s) (StartedAt s) (sKilled s ++ [id]) (sSockets s).
Definition listening (path : gostr) (s : server) : server :=
  mkServer (sReg s) (sBackend s) (DefaultLoadout s) (loadoutHashCache s) (StartedAt s) (sKilled s) (sSockets s ++ [path]).

(** func (h *handlers) reloadConfigIfChanged *)
Definition reloadConfigIfChanged (e : env) (s : server) : server :=
  if bool_decide (DefaultLoadout s <> []) then s else
  match eConfig e with Some d => set_default d s | None => s end.

(** func (h *handlers) currentLoadoutHash: a cached hash is good for three seconds. *)
Definition currentLoadoutHash (e : env) (name : gostr) (s : server) : server * gostr :=
  let fresh := match eLoad e name with Some p => eValueHash e p | None => [] end in
  let miss := (set_hashes (<[name := (fresh, eNow e)]> (loadoutHashCache s)) s, fresh) in
  match loadoutHashCache s !! name with
  | Some (hash, at_) => if eNow e - at_ <? 3000 then (s, hash) else miss
  | None => miss
  end.

(** The end of create and restoreOne: register the agent or kill it. *)
Definition register_agent (e : env) (cfg : Config) (s : server) : server * bool :=
  match Register (eEarly e) (sReg s) (cID cfg) cfg with
  | (r, true) => (listening (cSocketPath cfg) (set_reg r s), true)
  | (_, false) => (killed (cID cfg) s, false)
  end.

(** ** create *)

Record CreateRequest := mkCreate { crLoadout : gostr; crPatch : option Patch; Ephemeral : bool }.

(** The durable branch: the loadout's node, a conversation under it, its boot
    transition, and the board it then has. *)
Definition create_durable (e : env) (b : B) (name : gostr) (loadout : Patch) (req : option Patch)
  : B * option (gostr * snapshot) :=
  match CreateLoadout b name loadout with
  | (b, None) => (b, None)
  | (b, Some loadoutID) =>
      match CreateConversation b loadoutID with
      | (b, None) => (b, None)
      | (b, Some id) =>
          let boot := convBootPatch e req id (eGetwd e) in
          let '(b, ok) := if IsEmpty boot then (b, true) else ApplyChalkboard b id boot in
          if negb ok then (b, None) else
          match ChalkboardState b id with
          | (b, Some snap) => (b, Some (id, snap))
          | (b, None) => (b, None)
          end
      end
  end.

Definition create_agent (e : env) (prov : gostr * Knobs) (id : gostr) (durable : bool) (snap : snapshot)
  (boot : option Patch) (s : server) : server * (failure + (gostr * gostr)) :=
  let cfg := mkConfig id (sock_path e id) prov durable snap (cwdFromChalkboard snap (eGetwd e)) boot 0 0 in
  match register_agent e cfg s with
  | (s, true) => (s, inr (id, sock_path e id))
  | (s, false) => (s, inl Refused)
  end.

(** func (h *handlers) create: the id and the socket of the new agent. *)
Definition create (e : env) (req : CreateRequest) (s : server) : server * (failure + (gostr * gostr)) :=
  let s := reloadConfigIfChanged e s in
  let name := if bool_decide (crLoadout req = []) then DefaultLoadout s else crLoadout req in
  if bool_decide (name = []) then (s, inl (NoDefaultLoadout (availableProviders e))) else
  match eLoad e name with
  | None => (s, inl (LoadoutNotFound name))
  | Some loadout =>
      let base := base_patch loadout (crPatch req) in
      let provName := patchString (pSet base) #"system.provider" in
      if bool_decide (provName = []) then (s, inl (NoProvider (availableProviders e) name)) else
      let knobs := knobsFromPatch (pSet base) in
      if negb (eFactory e provName knobs) then (s, inl (ProviderFailed provName)) else
      match (if Ephemeral req then None else sBackend s) with
      | None =>
          let id := eUUID e in
          let boot := withAriaID (bootPatchEphemeral e base [] (eGetwd e)) id in
          create_agent e (provName, knobs) id false (Snapshot.Apply ∅ boot) (Some boot) s
      | Some b =>
          match create_durable e b name loadout (crPatch req) with
          | (b, None) => (set_backend b s, inl BackendFailed)
          | (b, Some (id, snap)) => create_agent e (provName, knobs) id true snap None (set_backend b s)
          end
      end
  end.

(** ** fork *)

(** func (h *handlers) forkMetaSnapshot *)
Definition forkMetaSnapshot (b : B) (parent : gostr) (s : server) : AriaMeta :=
  let meta := match Meta b parent with Some (Some m) => m | _ => no_meta end in
  match Get (sReg s) parent with
  | Some f => let i := Info f in
              mkMeta (inFacts i) (TurnCount meta) (inLastActive i) (inLastFigaroLT i) (inCreatedAt i)
  | None => meta
  end.

(** func (h *handlers) loadoutAncestor, messageCountAt: the climb to the
    parents, cut off by fuel. *)
Fixpoint loadoutAncestor (fuel : nat) (b : B) (id : gostr) : gostr :=
  match fuel with
  | O => []
  | S fuel =>
      if bool_decide (id = []) then [] else
      match Node b id with
      | None => []
      | Some node => if bool_decide (nKind node = loadoutKind) then nID node else loadoutAncestor fuel b (nParent node)
      end
  end.
Fixpoint under_loadout (fuel : nat) (b : B) (id : gostr) (count : Z) : Z :=
  match fuel with
  | O => count
  | S fuel =>
      if count <=? 0 then count else
      match Node b id with
      | None => count
      | Some node =>
          if bool_decide (nParent node = []) then count else
          match Node b (nParent node) with
          | Some parent => if bool_decide (nKind parent = loadoutKind) then count - 1
                           else under_loadout fuel b (nParent node) count
          | None => under_loadout fuel b (nParent node) count
          end
      end
  end.
Definition messageCountAt (b : B) (id : gostr) (atMainLT : Z) : Z :=
  let count := if 0 <? atMainLT then atMainLT - 1 else atMainLT in
  Z.max 0 (under_loadout (S (length (Nodes b))) b id count).

(** func (h *handlers) seedForkMeta *)
Definition seed_meta (e : env) (b : B) (meta : AriaMeta) (parent : gostr) (atMainLT : Z) (owner : OwnerInfo)
  : AriaMeta :=
  if atMainLT <=? 0 then mkMeta (mFacts meta) (TurnCount meta) (eNow e) (mLastFigaroLT meta) (eNow e) else
  let '(name, version) :=
    if IsRoot owner then ([], []) else
    let loadoutID := if bool_decide (oLoadout owner = []) then loadoutAncestor (S (length (Nodes b))) b parent
                     else oLoadout owner in
    match Node b loadoutID with
    | Some n => if bool_decide (nKind n = loadoutKind) then (nLoadout n, nVersion n) else ([], [])
    | None => ([], [])
    end in
  mkMeta (mkFacts [] [] (messageCountAt b parent atMainLT) 0 0 0 0 0 0 false [] [] name version)
    0 (eNow e) atMainLT (eNow e).
Definition seedForkMeta (e : env) (b : B) (meta : AriaMeta) (parent child : gostr) (atMainLT : Z)
  (owner : OwnerInfo) : B := fst (SetMeta b child (seed_meta e b meta parent atMainLT owner)).

(** The function runFork of fork; a failed restamp is only logged. *)
Definition runFork (e : env) (id : gostr) (atMainLT : Z) (owner : OwnerInfo) (b : B) (s : server)
  : B * option (gostr * gostr) :=
  let meta := forkMetaSnapshot b id s in
  match (if 0 <? atMainLT then ForkAt b id atMainLT else Fork b id) with
  | (b, None) => (b, None)
  | (b, Some (cont, alt)) =>
      let b := seedForkMeta e b meta id alt atMainLT owner in
      let b := if bool_decide (alt <> [] /\ alt <> id)
               then fst (ApplyChalkboard b alt (mkPatch {[ #"aria_id" := marshal_string alt]} [])) else b in
      (b, Some (cont, alt))
  end.

(** The announcement of who owns the fork point. *)
Inductive note := NoNote | AtRoot (lt : Z) | InLoadout (lt : Z) (loadout : gostr) | InTrunk (lt : Z) (trunk : gostr).
Definition owner_note (id : gostr) (lt : Z) (o : OwnerInfo) : note :=
  if IsRoot o then AtRoot lt else
  if bool_decide (oLoadout o <> []) then InLoadout lt (oLoadout o) else
  if bool_decide (oTrunk o <> [] /\ oTrunk o <> id) then InTrunk lt (oTrunk o) else NoNote.

(** func (h *handlers) fork: continuation, alternative, note.  A live agent
    that owns the fork point runs it between two of its rounds, or is gone. *)
Definition fork (e : env) (id : gostr) (atMainLT : Z) (s : server)
  : server * (failure + (gostr * gostr * note)) :=
  match sBackend s with
  | None => (s, inl NoBackend)
  | Some b =>
      let owner := if 0 <? atMainLT then default no_owner (OwnerResolution b id atMainLT) else no_owner in
      let n := match (if 0 <? atMainLT then OwnerResolution b id atMainLT else None) with
               | Some o => owner_note id atMainLT o | None => NoNote end in
      let coordinator :=
        if bool_decide (oTrunk owner <> [] /\ is_Some (Get (sReg s) (oTrunk owner))) then oTrunk owner else id in
      if bool_decide (is_Some (Get (sReg s) coordinator)) && negb (eCoordinate e coordinator)
      then (s, inl Refused) else
      match runFork e id atMainLT owner b s with
      | (b, Some (cont, alt)) => (set_backend b s, inr (cont, alt, n))
      | (b, None) => (set_backend b s, inl BackendFailed)
      end
  end.

(** func (h *handlers) promote: the levels climbed, and whether at the stump. *)
Definition promote (id : gostr) (levels : Z) (s : server) : server * (failure + (Z * bool)) :=
  match sBackend s with
  | None => (s, inl NoBackend)
  | Some b =>
      match Promote b id levels with
      | (b, Climbed n) => (set_backend b s, inr (n, false))
      | (b, AtStump) => (set_backend b s, inr (0, true))
      | (b, PromoteFailed) => (set_backend b s, inl BackendFailed)
      end
  end.

(** func (r *Registry) Kill, alone: its two sections around the agent's Kill. *)
Definition registry_Kill (id : gostr) (s : server) : server * bool :=
  match KillBegin (sReg s) id with
  | (r, true) => (set_reg (KillEnd r id) (killed id s), true)
  | (_, false) => (s, false)
  end.

(** func (h *handlers) kill *)
Definition kill (id : gostr) (recursive : bool) (s : server) : server * (failure + unit) :=
  let '(s, ok) := match Get (sReg s) id with Some _ => registry_Kill id s | None => (s, true) end in
  if negb ok then (s, inl Refused) else
  match sBackend s with
  | None => (s, inr tt)
  | Some b => match Remove b id recursive with
              | (b, true) => (set_backend b s, inr tt)
              | (b, false) => (set_backend b s, inl BackendFailed)
              end
  end.

(** ** restore, attach, bind *)

(** func (h *handlers) openAriaChalkboard *)
Definition openAriaChalkboard (e : env) (id : gostr) (s : server) : server * option snapshot :=
  match sBackend s with
  | Some b => if eTemplates e then let '(b, snap) := ChalkboardState b id in (set_backend b s, snap) else (s, None)
  | None => (s, None)
  end.

(** func (h *handlers) restoreOne *)
Definition restoreOne (e : env) (id : gostr) (s : server) : server * (failure + Config) :=
  match openAriaChalkboard e id s with
  | (s, None) => (s, inl Unavailable)
  | (s, Some snap) =>
      let provName := patchString snap #"system.provider" in
      let knobs := knobsFromPatch snap in
      let cwd := patchString snap #"system.cwd" in
      if negb (eFactory e provName knobs) then (s, inl (ProviderFailed provName)) else
      let toolRoot := if eStat e cwd then cwd else eGetwd e in
      let meta := match sBackend s with
                  | Some b => match Meta b id with Some (Some m) => m | _ => no_meta end
                  | None => no_meta
                  end in
      let cfg := mkConfig id (sock_path e id) (provName, knobs) true snap (cwdFromChalkboard snap toolRoot)
                   None (CreatedAtMS meta) (LastActiveMS meta) in
      match register_agent e cfg s with
      | (s, true) => (s, inr cfg)
      | (s, false) => (s, inl Refused)
      end
  end.

(** func (h *handlers) restoreByID; a second look follows the lock of the aria,
    under which nothing else restores it. *)
Definition restoreByID (e : env) (id : gostr) (s : server) : server * (failure + Config) :=
  match Get (sReg s) id with
  | Some f => (s, inr f)
  | None => match sBackend s with None => (s, inl NoBackend) | Some _ => restoreOne e id s end
  end.

(** func (h *handlers) bind *)
Definition bind (e : env) (pid : Z) (id : gostr) (lt : Z) (s : server) : server * (failure + unit) :=
  match restoreByID e id s with
  | (s, inl err) => (s, inl err)
  | (s, inr _) =>
      match Bind (sReg s) pid id lt with
      | Some (r, true) => (set_reg r s, inr tt)
      | Some (_, false) => (s, inl Refused)
      | None => (s, inl Panics)
      end
  end.

(** func (h *handlers) attach *)
Definition attach (e : env) (id : gostr) (s : server) : server * (failure + gostr) :=
  if negb (ValidateAriaID id) then (s, inl BadAriaID) else
  match restoreByID e id s with
  | (s, inl err) => (s, inl err)
  | (s, inr f) => (s, inr (cSocketPath f))
  end.

(** func (h *handlers) resolve, unbind, status *)
Definition resolve (pid : Z) (s : server) : option (gostr * gostr * Z) :=
  match Resolve (sReg s) pid with
  | (id, Some f, lt) => Some (id, cSocketPath f, lt)
  | (_, None, _) => None
  end.
Definition unbind (pid : Z) (s : server) : server := set_reg (Unbind (sReg s) pid) s.
Definition status (s : server) : Z * nat * nat :=
  (StartedAt s, FigaroCount (sReg s), BoundPIDCount (sReg s)).

(** ** list *)

(** The row of a live agent. *)
Definition with_version (f : facts) (v : gostr) : facts :=
  mkFacts (fcProvider f) (fcModel f) (MessageCount f) (TokensIn f) (TokensOut f) (CacheReadTokens f)
    (CacheWriteTokens f) (ContextTokens f) (ContextLimit f) (ContextExact f) (Mantra f) (Cwd f) (LoadoutName f) v.
Definition live_row (e : env) (idsOnly : bool) (st : server * list FigaroInfoResponse) (f : Config)
  : server * list FigaroInfoResponse :=
  let '(s, rows) := st in
  let i := Info f in
  let row v := mkResponse (inID i) (inState i) (with_version (inFacts i) v) (inCreatedAt i) (inLastActive i)
                 (Registry.BoundPIDs (sReg s) (inID i)) no_position in
  if negb idsOnly && negb (bool_decide (LoadoutName (inFacts i) = [])) then
    let '(s, hash) := currentLoadoutHash e (LoadoutName (inFacts i)) s in
    (s, rows ++ [row (loadoutVerLabel (LoadoutVersion (inFacts i)) hash)])
  else (s, rows ++ [row []]).

(** func (h *handlers) fillFromMeta *)
Definition fillFromMeta (e : env) (meta : AriaMeta) (r : FigaroInfoResponse) (s : server)
  : server * FigaroInfoResponse :=
  let f := mFacts meta in
  let row v := mkResponse (rID r) (rState r) (with_version f v)
                 (if CreatedAtMS meta =? 0 then CreatedAt r else CreatedAtMS meta)
                 (if LastActiveMS meta =? 0 then LastActive r else LastActiveMS meta) (rBoundPIDs r) (rPosition r) in
  if bool_decide (LoadoutName f = []) then (s, row (LoadoutVersion (rFacts r))) else
  let '(s, hash) := currentLoadoutHash e (LoadoutName f) s in
  (s, row (loadoutVerLabel (LoadoutVersion f) hash)).

(** The row of a dormant conversation: the counters alone for an id listing,
    else all of its metadata, which enrichList's workers fill in, each row on
    its own. *)
Definition counts_row (meta : AriaMeta) (id : gostr) : FigaroInfoResponse :=
  let f := mFacts meta in
  mkResponse id #"dormant"
    (mkFacts [] [] (MessageCount f) (TokensIn f) (TokensOut f) (CacheReadTokens f) (CacheWriteTokens f)
       0 0 false [] [] [] []) 0 (LastActiveMS meta) ∅ no_position.
Definition bare_row (id state : gostr) : FigaroInfoResponse := mkResponse id state no_facts 0 0 ∅ no_position.
Definition dormant_row (e : env) (b : B) (idsOnly : bool) (st : server * list FigaroInfoResponse) (id : gostr)
  : server * list FigaroInfoResponse :=
  let '(s, rows) := st in
  match Meta b id with
  | Some (Some meta) =>
      if idsOnly then (s, rows ++ [counts_row meta id]) else
      let '(s, row) := fillFromMeta e meta (bare_row id #"dormant") s in (s, rows ++ [row])
  | _ => (s, rows ++ [bare_row id #"dormant"])
  end.

(** func (h *handlers) fillFromNode *)
Definition fillFromNode (e : env) (nodes : gmap gostr NodeView) (st : server * list FigaroInfoResponse)
  (r : FigaroInfoResponse) : server * list FigaroInfoResponse :=
  let '(s, rows) := st in
  match nodes !! rID r with
  | None => (s, rows ++ [r])
  | Some n =>
      let pos := mkPosition (nVector n) (nTrunk n) (nParent n) (nFrozen n) (nBranchedLT n) (nKind n) in
      let state := if nFrozen n && negb (bool_decide (rState r = #"active")) then #"frozen" else rState r in
      if bool_decide (nKind n = loadoutKind) then
        let '(s, hash) := currentLoadoutHash e (nLoadout n) s in
        let f := rFacts r in
        let f := mkFacts (fcProvider f) (fcModel f) (MessageCount f) (TokensIn f) (TokensOut f)
                   (CacheReadTokens f) (CacheWriteTokens f) (ContextTokens f) (ContextLimit f) (ContextExact f)
                   (Mantra f) (Cwd f) (nLoadout n) (loadoutVerLabel (nVersion n) hash) in
        (s, rows ++ [mkResponse (rID r) state f (CreatedAt r) (LastActive r) (rBoundPIDs r) pos])
      else (s, rows ++ [mkResponse (rID r) state (rFacts r) (CreatedAt r) (LastActive r) (rBoundPIDs r) pos])
  end.

(** The ids not seen yet, each once, in order. *)
Fixpoint unseen (seen : gset gostr) (ids : list gostr) : list gostr :=
  match ids with
  | [] => []
  | id :: ids => if bool_decide (id ∈ seen) then unseen seen ids else id :: unseen ({[id]} ∪ seen) ids
  end.

(** func (h *handlers) list *)
Definition list_nodes (b : B) (idsOnly global : bool) : list NodeView :=
  if idsOnly && negb global then [] else if global then Nodes b else Conversations b.
Definition list_conversations (b : B) (idsOnly global : bool) : list gostr :=
  if idsOnly && negb global then ConversationIDs b
  else map nID (filter (fun n => nKind n = conversationKind) (list_nodes b idsOnly global)).
Definition list_anchors (b : B) (idsOnly global : bool) : list gostr :=
  if global then map nID (filter (fun n => nKind n <> conversationKind) (list_nodes b idsOnly global)) else [].
Definition handle_list (e : env) (idsOnly global : bool) (s : server) : server * list FigaroInfoResponse :=
  let live := All (sReg s) in
  let seen := list_to_set (map (fun f => inID (Info f)) live) : gset gostr in
  let '(s, rows) := foldl (live_row e idsOnly) (s, []) live in
  match sBackend s with
  | None => (s, rows)
  | Some b =>
      let dormant := unseen seen (list_conversations b idsOnly global) in
      let '(s, rows) := foldl (dormant_row e b idsOnly) (s, rows) dormant in
      let anchors := unseen (list_to_set dormant ∪ seen) (list_anchors b idsOnly global) in
      let rows := rows ++ map (fun id => bare_row id #"anchor") anchors in
      if idsOnly then (s, rows) else
      let byID := list_to_map (rev (map (fun n => (nID n, n)) (list_nodes b idsOnly global))) in
      foldl (fillFromNode e byID) (s, []) rows
  end.

(** ** Saved bindings *)

(** type bindingEntry *)
Record bindingEntry := mkBinding { bePID : Z; beFigaroID : gostr; beStartTime : Z }.

(** func SaveBindings: the entries it writes. *)
Definition saved_bindings (e : env) (r : Registry (F := Config)) : list bindingEntry :=
  concat (map (fun f => let id := inID (Info f) in
    map (fun pid => mkBinding pid id (pidStartTime e pid)) (base.elements (Registry.BoundPIDs r id))) (All r)).
Definition saveBindings (e : env) (s : server) : list bindingEntry * nat :=
  (saved_bindings e (sReg s), BoundPIDCount (sReg s)).

(** One iteration of func RestoreBindings, whose restore is restoreByID. *)
Definition restore_binding (e : env) (s : server) (b : bindingEntry) : server :=
  if negb (isAlive e (bePID b)) then s else
  if negb (beStartTime b =? 0) && negb (pidStartTime e (bePID b) =? beStartTime b) then s else
  match restoreByID e (beFigaroID b) s with
  | (s, inl _) => s
  | (s, inr _) =>
      match Bind (sReg s) (bePID b) (beFigaroID b) 0 with
      | Some (r, true) => set_reg r s
      | _ => s
      end
  end.
Definition RestoreBindings (e : env) (file : list bindingEntry) (s : server) : server :=
  foldl (restore_binding e) s file.

(** ** Background work *)

(** The metadata metaBackfill writes for a dormant aria, if any. *)
Definition backfilled (meta : AriaMeta) (snap : snapshot) : option AriaMeta :=
  let f := mFacts meta in
  if bool_decide (Mantra f <> [] \/ LoadoutName f <> [] \/ Cwd f <> []) then None else
  let mantra := patchString snap #"mantra" in
  let cwd := patchString snap #"system.cwd" in
  let loadout := patchString snap #"system.loadout_name" in
  if bool_decide (mantra = [] /\ cwd = [] /\ loadout = []) then None else
  Some (mkMeta (mkFacts
    (if bool_decide (fcProvider f = []) then patchString snap #"system.provider" else fcProvider f)
    (if bool_decide (fcModel f = []) then patchString snap #"system.model" else fcModel f)
    (MessageCount f) (TokensIn f) (TokensOut f) (CacheReadTokens f) (CacheWriteTokens f)
    (ContextTokens f) (ContextLimit f) (ContextExact f) mantra cwd loadout
    (patchString snap #"system.loadout_version"))
    (TurnCount meta) (LastActiveMS meta) (mLastFigaroLT meta) (CreatedAtMS meta)).
Definition backfill_one (r : Registry (F := Config)) (b : B) (id : gostr) : B :=
  match Get r id with
  | Some _ => b
  | None =>
      match Meta b id with
      | Some (Some meta) =>
          if bool_decide (Mantra (mFacts meta) <> [] \/ LoadoutName (mFacts meta) <> [] \/ Cwd (mFacts meta) <> [])
          then b else
          match ChalkboardState b id with
          | (b, None) => b
          | (b, Some snap) =>
              match backfilled meta snap with Some m => fst (SetMeta b id m) | None => b end
          end
      | _ => b
      end
  end.

(** func (a *Angelus) metaBackfill, not cancelled. *)
Definition metaBackfill (s : server) : server :=
  match sBackend s with
  | None => s
  | Some b => set_backend (foldl (backfill_one (sReg s)) b (ConversationIDs b)) s
  end.

(** func (a *Angelus) reapDeadPIDs *)
Definition reapDeadPIDs (e : env) (s : server) : server :=
  foldl (fun s pid => if isAlive e pid then s else unbind pid s) s (base.elements (AllPIDs (sReg s))).

(** One agent of func (a *Angelus) Shutdown: its Kill ends within the grace, or
    it is abandoned: still registered, its Kill begun. *)
Definition shutdown_one (e : env) (s : server) (f : Config) : server :=
  if eDies e (cID f) then fst (registry_Kill (cID f) s) else set_reg (fst (KillBegin (sReg s) (cID f))) s.

(** func (a *Angelus) Shutdown: the registry drains and every agent of a
    snapshot is killed. *)
Definition Shutdown (e : env) (s : server) : server :=
  if IsDraining (sReg s) then s else
  let s := set_reg (SetDraining (sReg s)) s in
  foldl (shutdown_one e) s (All (sReg s)).

(** The goroutine of an abandoned Kill, when the agent dies after all. *)
Definition late_kill (id : gostr) (s : server) : server :=
  if bool_decide (id ∈ killing (sReg s)) then set_reg (KillEnd (sReg s) id) (killed id s) else s.

(** ** The requests and the background steps, in any order. *)
Inductive request :=
| RCreate (req : CreateRequest)
| RFork (id : gostr) (atMainLT : Z)
| RPromote (id : gostr) (levels : Z)
| RKill (id : gostr) (recursive : bool)
| RList (idsOnly global : bool)
| RAttach (id : gostr)
| RBind (pid : Z) (id : gostr) (lt : Z)
| RResolve (pid : Z)
| RUnbind (pid : Z)
| RStatus
| RSaveBindings
| RRestoreBindings (file : list bindingEntry)
| RBackfill
| RReap
| RShutdown
| RLateKill (id : gostr).

Definition serve (s : server) (er : env * request) : server :=
  let '(e, r) := er in
  match r with
  | RCreate req => fst (create e req s)
  | RFork id lt => fst (fork e id lt s)
  | RPromote id n => fst (promote id n s)
  | RKill id rec => fst (kill id rec s)
  | RList ids global => fst (handle_list e ids global s)
  | RAttach id => fst (attach e id s)
  | RBind pid id lt => fst (bind e pid id lt s)
  | RUnbind pid => unbind pid s
  | RRestoreBindings file => RestoreBindings e file s
  | RBackfill => metaBackfill s
  | RReap => reapDeadPIDs e s
  | RShutdown => Shutdown e s
  | RLateKill id => late_kill id s
  | RResolve _ | RStatus | RSaveBindings => s
  end.
End handlers.
