(* ===== verification/AngelusFacts.v ===== *)
(** * angelus: lemmas about the supervisor's requests.

    The registry stays well formed under every handler ([reg_ok]); what the
    backend promises about chalkboards is the class [BackendLaws], under which
    every board names its own conversation ([identified]); the rows of a
    listing. *)

From S2P Require Import Prelude Utf8 Json GoJson Message Chalkboard Registry Angelus.

(** ** The registry under any sequence of requests *)

Section facts.
Context {B : Type} `{BackendOps B} (Info : Config -> FigaroInfo).
#[local] Abbreviation server := (server B).
#[local] Abbreviation registry := (Registry (F := Config)).

(** Every agent runs under its own id, on its own socket; when no registration
    races a shutdown and no agent outlives its grace ([strict]), no Kill is
    halfway and once the supervisor drains no agent runs. *)
Record reg_ok (strict : bool) (dir : gostr) (r : registry) : Prop := {
  ok_wf : wf r;
  ok_killing : strict = true -> killing r = ∅;
  ok_figaros : map_Forall (fun id cfg => cID cfg = id /\ cSocketPath cfg = dir ++ #"/" ++ id ++ #".sock") (figaros r);
  ok_drained : strict = true -> draining r = true -> figaros r = ∅ }.

Definition prompt (e : env) : Prop := eEarly e = false /\ forall id, eDies e id = true.

Section strict.
Context (strict : bool).

Lemma reg_ok_new dir : reg_ok strict dir NewRegistry.
Proof. split; [apply new_wf|done|apply map_Forall_empty|done]. Qed.

Lemma reg_ok_register dir r e cfg : reg_ok strict dir r -> FigaroSocketDir e = dir -> cSocketPath cfg = sock_path e (cID cfg) ->
  (strict = true -> prompt e) -> reg_ok strict dir (fst (Register (eEarly e) r (cID cfg) cfg)).
Proof.
  intros [Hw Hk Hf Hd] <- Hs Hp. split.
  - by apply register_wf.
  - unfold Register, Insert. destruct (_ && _); [done|]. by destruct (figaros r !! cID cfg).
  - unfold Register, Insert. destruct (_ && _); [done|]. destruct (figaros r !! cID cfg); [done|]. cbn.
    by apply map_Forall_insert_2.
  - intros Hs'. destruct (Hp Hs') as [He _]. unfold Register, Insert. rewrite He, andb_true_r.
    destruct (draining r) eqn:Ed; [by auto|]. destruct (figaros r !! cID cfg); cbn; congruence.
Qed.

Lemma reg_ok_bind dir r pid id lt r' ok : reg_ok strict dir r -> Bind r pid id lt = Some (r', ok) -> reg_ok strict dir r'.
Proof.
  intros [Hw Hk Hf Hd] Hb. assert (figaros r' = figaros r /\ killing r' = killing r /\ draining r' = draining r) as (E1 & E2 & E3).
  { unfold Bind in Hb. destruct (figaros r !! id); [|by simplify_eq]. case_bool_decide; [by simplify_eq|].
    assert (killing (unbindLocked r pid) = killing r) as Hu by (unfold unbindLocked; by destruct (pidToFigaro r !! pid)).
    assert (draining (unbindLocked r pid) = draining r) as Hv by (unfold unbindLocked; by destruct (pidToFigaro r !! pid)).
    destruct (figaroPIDs _ !! id); [|done]. cbn in Hb. simplify_eq. cbn. by rewrite unbind_figaros. }
  split; [by eapply step_wf, s_bind|by rewrite E2|by rewrite E1|by rewrite E1, E3].
Qed.

Lemma reg_ok_unbind dir r pid : reg_ok strict dir r -> reg_ok strict dir (Unbind r pid).
Proof.
  intros [Hw Hk Hf Hd]. split; [by apply unbind_wf|unfold Unbind, unbindLocked; by destruct (pidToFigaro r !! pid)|
    unfold Unbind; by rewrite unbind_figaros|].
  unfold Unbind. rewrite unbind_figaros. unfold unbindLocked. by destruct (pidToFigaro r !! pid).
Qed.

Lemma reg_ok_kill dir r id r' ok : reg_ok strict dir r -> KillBegin r id = (r', ok) -> reg_ok strict dir (if ok then KillEnd r' id else r).
Proof.
  intros [Hw Hk Hf Hd] Hb. destruct ok; [|done]. assert (wf r') as Hw'.
  { eapply step_wf; [done|]. replace r' with (fst (KillBegin r id)) by (by rewrite Hb). apply s_kill_begin. }
  unfold KillBegin in Hb. destruct (figaros r !! id); [|done]. case_bool_decide; [done|]. simplify_eq.
  split; [by apply killend_wf|cbn; intros Hs; rewrite (Hk Hs); set_solver|cbn; by apply map_Forall_delete|].
  cbn. intros Hs Hdr. by rewrite (Hd Hs Hdr), delete_empty.
Qed.

(** *** The handlers *)

Lemma register_reg dir e cfg (s : server) : reg_ok strict dir (sReg s) -> FigaroSocketDir e = dir ->
  cSocketPath cfg = sock_path e (cID cfg) -> (strict = true -> prompt e) ->
  reg_ok strict dir (sReg (fst (register_agent e cfg s))).
Proof.
  intros Hr He Hs Hp. pose proof (reg_ok_register _ _ _ _ Hr He Hs Hp) as Hr'. unfold register_agent.
  destruct (Register _ (sReg s) (cID cfg) cfg) as [r []]; [done|]. by destruct s.
Qed.

Lemma create_agent_reg dir e prov id d snap boot (s : server) : reg_ok strict dir (sReg s) -> FigaroSocketDir e = dir ->
  (strict = true -> prompt e) -> reg_ok strict dir (sReg (fst (create_agent e prov id d snap boot s))).
Proof.
  intros Hr He Hp. unfold create_agent. set (cfg := mkConfig _ _ _ _ _ _ _ _ _).
  pose proof (register_reg dir e cfg s Hr He eq_refl Hp) as Hr'. by destruct (register_agent e cfg s) as [s' []].
Qed.

Lemma reload_reg e (s : server) : sReg (reloadConfigIfChanged e s) = sReg s.
Proof. unfold reloadConfigIfChanged. case_bool_decide; [done|]. by destruct (eConfig e). Qed.

Lemma create_reg dir e req (s : server) : reg_ok strict dir (sReg s) -> FigaroSocketDir e = dir ->
  (strict = true -> prompt e) -> reg_ok strict dir (sReg (fst (create e req s))).
Proof.
  intros Hr He Hp. unfold create. rewrite <-(reload_reg e s) in Hr. set (s1 := reloadConfigIfChanged e s) in *.
  cbv zeta. set (name := if bool_decide (crLoadout req = []) then _ else _). case_bool_decide; [done|].
  destruct (eLoad e name) as [loadout|]; [|done]. case_bool_decide; [done|].
  destruct (negb _); [done|]. destruct (if Ephemeral req then None else sBackend s1) as [b|].
  - destruct (create_durable _ _ _ _ _) as [b' [[id snap]|]]; [by apply create_agent_reg|done].
  - by apply create_agent_reg.
Qed.

Lemma restore_reg dir e id (s : server) : reg_ok strict dir (sReg s) -> FigaroSocketDir e = dir ->
  (strict = true -> prompt e) -> reg_ok strict dir (sReg (fst (restoreByID e id s))).
Proof.
  intros Hr He Hp. unfold restoreByID. destruct (Get _ _); [done|]. destruct (sBackend s) as [b|] eqn:Eb; [|done].
  unfold restoreOne, openAriaChalkboard. rewrite Eb. destruct (eTemplates e); [|done].
  destruct (ChalkboardState b id) as [b' [snap|]]; [|done]. destruct (negb _); [done|].
  set (cfg := mkConfig _ _ _ _ _ _ _ _ _). pose proof (register_reg dir e cfg (set_backend b' s) Hr He eq_refl Hp) as Hr'.
  by destruct (register_agent e cfg (set_backend b' s)) as [s' []].
Qed.

Lemma rebind_reg dir e pid id lt (s : server) : reg_ok strict dir (sReg s) -> FigaroSocketDir e = dir ->
  (strict = true -> prompt e) ->
  reg_ok strict dir (sReg (fst (bind e pid id lt s))) /\ snd (bind e pid id lt s) <> inl Panics.
Proof.
  intros Hr He Hq. unfold bind. pose proof (restore_reg dir e id s Hr He Hq) as Hr'.
  assert (snd (restoreByID e id s) <> inl Panics) as Hp.
  { unfold restoreByID. destruct (Get _ _); [done|]. destruct (sBackend s); [|done]. unfold restoreOne.
    destruct (openAriaChalkboard e id s) as [s' [snap|]]; [|done]. destruct (negb _); [done|].
    by destruct (register_agent _ _ s') as [? []]. }
  destruct (restoreByID e id s) as [s' [err|cfg]]; [split; [done|intros [= ->]; done]|]. cbn in Hr'.
  destruct (Bind_total (sReg s') pid id lt (ok_wf _ _ _ Hr')) as (r' & ok & E & _). rewrite E.
  pose proof (reg_ok_bind dir _ _ _ _ _ _ Hr' E). by destruct ok.
Qed.

Lemma kill_reg dir id (s : server) : reg_ok strict dir (sReg s) -> reg_ok strict dir (sReg (fst (registry_Kill id s))).
Proof.
  intros Hr. unfold registry_Kill. destruct (KillBegin (sReg s) id) as [r ok] eqn:E.
  pose proof (reg_ok_kill dir _ _ _ _ Hr E). by destruct ok.
Qed.

Lemma list_fold_reg {A} (f : server * list FigaroInfoResponse -> A -> server * list FigaroInfoResponse) l st :
  (forall st a, sReg (f st a).1 = sReg st.1) -> sReg (foldl f st l).1 = sReg st.1.
Proof. intros Hf. revert st. induction l as [|a l IH]; intros st; [done|]. cbn [foldl]. by rewrite IH, Hf. Qed.

Lemma hash_reg e name (s : server) : sReg (currentLoadoutHash e name s).1 = sReg s.
Proof. unfold currentLoadoutHash. destruct (_ !! _) as [[? ?]|]; [|done]. by destruct (_ <? _). Qed.

Lemma list_reg e ids global (s : server) : sReg (fst (handle_list Info e ids global s)) = sReg s.
Proof.
  unfold handle_list. cbv zeta. destruct (foldl (live_row Info e ids) (s, []) (All (sReg s))) as [s1 rows] eqn:E1.
  assert (sReg s1 = sReg s) as H1.
  { change (sReg (s1, rows).1 = sReg (s, @nil FigaroInfoResponse).1). rewrite <-E1. apply list_fold_reg.
    intros [s' l] f. unfold live_row. destruct (negb ids && _); [|done].
    pose proof (hash_reg e (LoadoutName (inFacts (Info f))) s') as Hh. by destruct (currentLoadoutHash _ _ s'). }
  destruct (sBackend s1) as [b|]; [|done].
  destruct (foldl (dormant_row e b ids) (s1, rows) _) as [s2 rows2] eqn:E2.
  assert (sReg s2 = sReg s1) as H2.
  { change (sReg (s2, rows2).1 = sReg (s1, rows).1). rewrite <-E2. apply list_fold_reg.
    intros [s' l] id. unfold dormant_row. destruct (Meta b id) as [[meta|]|]; [|done..]. destruct ids; [done|].
    unfold fillFromMeta. case_bool_decide; [done|]. pose proof (hash_reg e (LoadoutName (mFacts meta)) s') as Hh.
    by destruct (currentLoadoutHash _ _ s'). }
  destruct ids; [by rewrite <-H1|]. rewrite <-H1, <-H2. apply (list_fold_reg _ _ (s2, [])).
  intros [s' l] row. unfold fillFromNode. destruct (_ !! _) as [n|]; [|done]. case_bool_decide; [|done].
  pose proof (hash_reg e (nLoadout n) s') as Hh. by destruct (currentLoadoutHash _ _ s').
Qed.

Lemma foldl_reg {A} dir (f : server -> A -> server) l s :
  (forall s a, reg_ok strict dir (sReg s) -> reg_ok strict dir (sReg (f s a))) -> reg_ok strict dir (sReg s) ->
  reg_ok strict dir (sReg (foldl f s l)).
Proof. intros Hf. revert s. induction l as [|a l IH]; intros s Hs; [done|]. cbn [foldl]. auto. Qed.

Lemma restore_binding_reg dir e (s : server) b : FigaroSocketDir e = dir -> reg_ok strict dir (sReg s) ->
  (strict = true -> prompt e) -> reg_ok strict dir (sReg (restore_binding e s b)).
Proof.
  intros He Hr Hp. unfold restore_binding. destruct (negb _); [done|]. destruct (_ && _); [done|].
  pose proof (restore_reg dir e (beFigaroID b) s Hr He Hp) as Hr'.
  destruct (restoreByID e _ s) as [s' [err|cfg]]; [done|]. cbn in Hr'.
  destruct (Bind _ _ _ _) as [[r []]|] eqn:E; [|done..]. by eapply reg_ok_bind.
Qed.

End strict.

Lemma reg_ok_drain strict dir r : reg_ok strict dir r -> reg_ok false dir (SetDraining r).
Proof. intros [Hw Hk Hf Hd]. split; [eapply step_wf; [done|apply s_drain]|done|done|done]. Qed.

Lemma reg_ok_kill_begin dir r id : reg_ok false dir r -> reg_ok false dir (fst (KillBegin r id)).
Proof.
  intros [Hw Hk Hf Hd]. split; [eapply step_wf; [done|apply s_kill_begin]|done| |done].
  unfold KillBegin. destruct (figaros r !! id); [|done]. by case_bool_decide.
Qed.

Lemma reg_ok_late dir r id : reg_ok false dir r -> reg_ok false dir (KillEnd r id).
Proof. intros [Hw Hk Hf Hd]. split; [by apply killend_wf|done|cbn; by apply map_Forall_delete|done]. Qed.

Lemma shutdown_one_reg dir e (s : server) f :
  reg_ok false dir (sReg s) -> reg_ok false dir (sReg (shutdown_one e s f)).
Proof.
  intros Hr. unfold shutdown_one. destruct (eDies e _); [by apply kill_reg|]. by apply reg_ok_kill_begin.
Qed.

(** Killing every agent leaves none. *)
Lemma kill_all dir e l (s : server) : (forall id, eDies e id = true) -> reg_ok false dir (sReg s) ->
  killing (sReg s) = ∅ -> (forall id cfg, figaros (sReg s) !! id = Some cfg -> cfg ∈ l) ->
  let r := sReg (foldl (shutdown_one e) s l) in figaros r = ∅ /\ killing r = ∅.
Proof.
  cbv zeta. intros He. revert s. induction l as [|f l IH]; intros s Hr Hk Hin.
  { split; [|done]. apply map_empty. intros id. apply eq_None_not_Some. intros [cfg Hc]. by apply Hin, not_elem_of_nil in Hc. }
  cbn [foldl]. apply IH; [by apply shutdown_one_reg|..]; unfold shutdown_one; rewrite He; unfold registry_Kill, KillBegin.
  - destruct (figaros (sReg s) !! cID f); [|done]. rewrite Hk, bool_decide_eq_false_2 by set_solver. cbn. set_solver.
  - intros id cfg Hc. destruct (figaros (sReg s) !! cID f) as [f'|] eqn:Ef.
    + rewrite Hk in Hc. rewrite bool_decide_eq_false_2 in Hc by set_solver. cbn in Hc.
      apply lookup_delete_Some in Hc as [Hne Hc]. pose proof (Hin _ _ Hc) as Hi.
      apply elem_of_cons in Hi as [->|]; [|done]. by destruct (ok_figaros _ _ _ Hr _ _ Hc).
    + cbn in Hc. pose proof (Hin _ _ Hc) as Hi. apply elem_of_cons in Hi as [->|]; [|done].
      destruct (ok_figaros _ _ _ Hr _ _ Hc) as [E _]. congruence.
Qed.

Lemma shutdown_reg strict dir e (s : server) : (strict = true -> prompt e) -> reg_ok strict dir (sReg s) ->
  reg_ok strict dir (sReg (Shutdown e s)).
Proof.
  intros Hp Hr. unfold Shutdown. destruct (IsDraining _); [done|]. set (s1 := set_reg _ s).
  assert (reg_ok false dir (sReg s1)) as H1 by (by eapply reg_ok_drain).
  assert (reg_ok false dir (sReg (foldl (shutdown_one e) s1 (All (sReg s))))) as [Hw _ Hf _].
  { apply (foldl_reg false); [|done]. intros s' f. apply shutdown_one_reg. }
  assert (strict = true -> figaros (sReg (foldl (shutdown_one e) s1 (All (sReg s)))) = ∅ /\
    killing (sReg (foldl (shutdown_one e) s1 (All (sReg s)))) = ∅) as Hall.
  { intros Hs. apply (kill_all dir); [by apply Hp|done|by apply (ok_killing _ _ _ Hr)|].
    intros id cfg Hc. unfold All. apply list_elem_of_fmap. exists (id, cfg). split; [done|]. by apply elem_of_map_to_list. }
  split; [done|intros Hs; by apply Hall|done|intros Hs _; by apply Hall].
Qed.

Lemma serve_reg strict dir er (s : server) : FigaroSocketDir er.1 = dir -> (strict = true -> prompt er.1) ->
  reg_ok strict dir (sReg s) -> reg_ok strict dir (sReg (serve Info s er)).
Proof.
  destruct er as [e r]. cbn [fst]. intros He Hp Hr. destruct r as [req|id lt|id n|id rec|ids global|id|pid id lt|pid|pid| | |file| | | |id]; cbn [serve]; try done.
  - by apply create_reg.
  - unfold fork. destruct (sBackend s); [|done]. cbv zeta. case_match; [done|].
    by destruct (runFork _ _ _ _ _ _ _) as [? [[? ?]|]].
  - unfold promote. destruct (sBackend s); [|done]. by destruct (Promote _ _ _) as [? []].
  - unfold kill. destruct (Get _ _) as [f|].
    + pose proof (kill_reg _ dir id s Hr) as Hk. destruct (registry_Kill id s) as [s' []]; cbn in Hk |- *; [|done].
      destruct (sBackend s'); [|done]. by destruct (Remove _ _ _) as [? []].
    + cbn. destruct (sBackend s); [|done]. by destruct (Remove _ _ _) as [? []].
  - by rewrite list_reg.
  - unfold attach. destruct (negb _); [done|]. pose proof (restore_reg _ dir e id s Hr He Hp) as Hr'.
    by destruct (restoreByID e id s) as [? []].
  - by apply rebind_reg.
  - by apply reg_ok_unbind.
  - unfold RestoreBindings. apply foldl_reg; [|done]. intros s' b Hs'. by apply restore_binding_reg.
  - unfold metaBackfill. by destruct (sBackend s).
  - unfold reapDeadPIDs. apply foldl_reg; [|done]. intros s' pid Hs'. destruct (isAlive e pid); [done|].
    by apply reg_ok_unbind.
  - by apply shutdown_reg.
  - unfold late_kill. case_bool_decide as Hk; [|done]. destruct strict.
    { rewrite (ok_killing _ _ _ Hr eq_refl) in Hk. set_solver. }
    by apply reg_ok_late.
Qed.
End facts.

(** ** What the backend promises about the boards *)

(** [board b id] is the chalkboard of a conversation, None when there is none.
    [sound] is the invariant of a backend, [writable] holds of the patches it
    reads back as they were written, [alive] of the conversations that can be
    written to. *)
Class BoardModel (B : Type) := {
  board : B -> gostr -> option snapshot; sound : B -> Prop; writable : Patch -> Prop; alive : B -> gostr -> Prop }.

(** The patch that tells an aria its own id. *)
Definition stamp (id : gostr) : Patch := mkPatch {[ #"aria_id" := marshal_string id]} [].

(** A new conversation. *)
Definition minted_board {B} `{!BoardModel B} (b b' : B) (id : gostr) : Prop :=
  id <> [] /\ writable (stamp id) /\ alive b' id /\ board b id = None /\ is_Some (board b' id) /\
  forall i, i <> id -> board b' i = board b i.

(** Every operation that succeeds changes at most the board it is about. *)
Class BackendLaws (B : Type) `{!BackendOps B} `{!BoardModel B} := {
  state_board b id : sound b ->
    let '(b', r) := ChalkboardState b id in sound b' /\ r = board b id /\ forall i, board b' i = board b i;
  apply_board b id p : sound b -> writable p ->
    match ApplyChalkboard b id p with
    | (b', true) => sound b' /\ exists snap, board b id = Some snap /\ board b' id = Some (Snapshot.Apply snap p) /\
                    forall i, i <> id -> board b' i = board b i
    | (b', false) => sound b' /\ forall i, board b' i = board b i
    end;
  loadout_board b name p : sound b -> writable p -> valid_utf8 name ->
    let b' := fst (CreateLoadout b name p) in sound b' /\ forall i, board b' i = board b i;
  conversation_board b l : sound b ->
    match CreateConversation b l with
    | (b', Some id) => sound b' /\ minted_board b b' id
    | (b', None) => sound b' /\ forall i, board b' i = board b i
    end;
  fork_board b id : sound b ->
    match Fork b id with
    | (b', Some (_, alt)) => sound b' /\ alt <> id /\ minted_board b b' alt
    | (b', None) => sound b' /\ forall i, board b' i = board b i
    end;
  forkat_board b id lt : sound b ->
    match ForkAt b id lt with
    | (b', Some (_, alt)) => sound b' /\ alt <> id /\ minted_board b b' alt
    | (b', None) => sound b' /\ forall i, board b' i = board b i
    end;
  promote_board b id n : sound b ->
    let b' := fst (Promote b id n) in sound b' /\ forall i, board b' i = board b i;
  meta_board b id m : sound b ->
    let b' := fst (SetMeta b id m) in sound b' /\ (forall i, board b' i = board b i) /\ forall i, alive b i -> alive b' i;
  remove_board b id rec : sound b ->
    let b' := fst (Remove b id rec) in sound b' /\ forall i, board b' i = None \/ board b' i = board b i }.

Section identity.
Context {B : Type} `{BackendLaws B} (Info : Config -> FigaroInfo).
#[local] Abbreviation server := (server B).

(** A board that names its conversation. *)
Definition names_it (id : gostr) (snap : snapshot) : Prop := snap !! #"aria_id" = Some (marshal_string id).
Definition knows (b : B) : Prop := sound b /\ forall id snap, board b id = Some snap -> names_it id snap.

(** Every conversation knows its own id, and every agent on the backend started
    from a board that did. *)
Record identified (s : server) : Prop := {
  id_boards : forall b, sBackend s = Some b -> knows b;
  id_agents : map_Forall (fun id cfg => cID cfg = id /\ (cBackend cfg = true -> names_it id (cChalkboard cfg)))
                (figaros (sReg s)) }.

(** The patch of a create request, when it does not speak of the aria's id. *)
Definition no_aria_id (p : option Patch) : Prop :=
  match p with Some p => pSet p !! #"aria_id" = None /\ #"aria_id" ∉ pRemove p | None => True end.

Lemma Apply_other (snap : snapshot) p k : pSet p !! k = None -> k ∉ pRemove p -> Snapshot.Apply snap p !! k = snap !! k.
Proof. intros H1 H2. rewrite Apply_lookup, decide_False, H1 by done. done. Qed.

Lemma Apply_set (snap : snapshot) p k v : pSet p !! k = Some v -> k ∉ pRemove p -> Snapshot.Apply snap p !! k = Some v.
Proof. intros H1 H2. rewrite Apply_lookup, decide_False, H1 by done. done. Qed.

Lemma knows_same (b b' : B) : sound b' /\ (forall i, board b' i = board b i) -> knows b -> knows b'.
Proof. intros [Hb Hs] [_ Hk]. split; [done|]. intros id snap. rewrite Hs. apply Hk. Qed.

(** The request does not speak of the aria's id, and what it writes can be read
    back; so can the loadout's patch. *)
Definition well_behaved (er : env * request) : Prop :=
  match er.2 with
  | RCreate req => no_aria_id (crPatch req) /\
      (forall id cwd, writable (stamp id) -> writable (convBootPatch er.1 (crPatch req) id cwd)) /\
      forall name p, eLoad er.1 name = Some p -> writable p /\ valid_utf8 name
  | _ => True
  end.

Lemma env_no_id e : pSet (EnvironmentPatch e) !! #"aria_id" = None.
Proof.
  unfold EnvironmentPatch, EnvironmentAllowlist. cbn [foldl pSet]. case_bool_decide; [done|].
  by rewrite lookup_insert_ne.
Qed.

Lemma fillins_id e id cwd : id <> [] -> pSet (runtimeFillins e id cwd) !! #"aria_id" = Some (marshal_string id).
Proof.
  intros Hid. unfold runtimeFillins. cbn [pSet]. unfold copy_into. rewrite lookup_union_r by apply env_no_id.
  rewrite !lookup_insert_ne by done. rewrite bool_decide_eq_false_2 by done. by rewrite lookup_singleton_eq.
Qed.

Lemma boot_id e req id cwd : id <> [] -> no_aria_id req ->
  pSet (convBootPatch e req id cwd) !! #"aria_id" = Some (marshal_string id) /\
  #"aria_id" ∉ pRemove (convBootPatch e req id cwd).
Proof.
  intros Hid Hreq. unfold convBootPatch. destruct req as [rp|].
  - cbn [pSet pRemove]. destruct Hreq as [H1 H2]. unfold copy_into. rewrite lookup_union_r by done.
    rewrite fillins_id by done. split; [done|]. cbn. set_solver.
  - split; [by apply fillins_id|]. cbn. set_solver.
Qed.

(** Writes to the boards of living conversations succeed. *)
Context (Happly : forall (b : B) id p, sound b -> writable p -> alive b id -> snd (ApplyChalkboard b id p) = true).

Lemma create_durable_knows e (b : B) name loadout req : no_aria_id req ->
  (forall id cwd, writable (stamp id) -> writable (convBootPatch e req id cwd)) -> writable loadout -> valid_utf8 name ->
  knows b ->
  match create_durable e b name loadout req with
  | (b', Some (id, snap)) => knows b' /\ names_it id snap
  | (b', None) => knows b'
  end.
Proof.
  intros Hreq Hw Hld Hn Hk. unfold create_durable. pose proof (loadout_board b name loadout (proj1 Hk) Hld Hn) as Hl.
  destruct (CreateLoadout b name loadout) as [b1 [lid|]]; [|by eapply knows_same]. cbn in Hl.
  pose proof (knows_same _ _ Hl Hk) as Hk1. pose proof (conversation_board b1 lid (proj1 Hk1)) as Hc.
  destruct (CreateConversation b1 lid) as [b2 [id|]]; [|by eapply knows_same].
  destruct Hc as (Hb2 & Hid & Hst & Hal & Hnone & [snap0 Hsnap] & Hother). cbv zeta.
  destruct (boot_id e req id (eGetwd e) Hid Hreq) as [Hset Hrem].
  assert (IsEmpty (convBootPatch e req id (eGetwd e)) = false) as ->.
  { unfold IsEmpty. apply andb_false_iff. left. apply bool_decide_eq_false. intros E%map_size_empty_inv.
    rewrite E in Hset. by rewrite lookup_empty in Hset. }
  pose proof (apply_board b2 id (convBootPatch e req id (eGetwd e)) Hb2 (Hw id _ Hst)) as Ha.
  pose proof (Happly b2 id (convBootPatch e req id (eGetwd e)) Hb2 (Hw id _ Hst) Hal) as Hok.
  destruct (ApplyChalkboard b2 id _) as [b3 []]; [|done]. cbn [negb].
  destruct Ha as (Hb3 & snap1 & Hs1 & Hs2 & Hs3).
  assert (knows b3) as Hk3.
  { split; [done|]. intros i snap Hi. destruct (decide (i = id)) as [->|Hne].
    - rewrite Hs2 in Hi. injection Hi as <-. by apply Apply_set.
    - rewrite Hs3, Hother in Hi by done. by apply (proj2 Hk1). }
  pose proof (state_board b3 id Hb3) as Hsb. destruct (ChalkboardState b3 id) as [b4 r].
  destruct Hsb as (Hb4 & -> & Hsb). pose proof (knows_same _ _ (conj Hb4 Hsb) Hk3) as Hk4. rewrite Hs2. split; [done|].
  by apply Apply_set.
Qed.

Lemma register_identified e cfg (s : server) : identified s -> (cBackend cfg = true -> names_it (cID cfg) (cChalkboard cfg)) ->
  identified (fst (register_agent e cfg s)).
Proof.
  intros [Hb Ha] Hc. unfold register_agent, Register, Insert. destruct (_ && _); [by destruct s|].
  destruct (figaros (sReg s) !! cID cfg) eqn:E; [by destruct s|]. split; [done|].
  cbn. by apply map_Forall_insert_2.
Qed.

Lemma create_agent_identified e prov id d snap boot (s : server) : identified s -> (d = true -> names_it id snap) ->
  identified (fst (create_agent e prov id d snap boot s)).
Proof.
  intros Hs Hd. unfold create_agent. set (cfg := mkConfig _ _ _ _ _ _ _ _ _).
  pose proof (register_identified e cfg s Hs Hd) as Hr. by destruct (register_agent e cfg s) as [? []].
Qed.

Lemma backend_identified (b : B) (s : server) : identified s -> knows b -> identified (set_backend b s).
Proof. intros [_ Ha] Hk. split; [by intros ? [= <-]|done]. Qed.

Lemma create_identified e req (s : server) : identified s -> well_behaved (e, RCreate req) ->
  identified (fst (create e req s)).
Proof.
  intros Hs (Hreq & Hw & Hld). cbn [fst] in *. unfold create. assert (identified (reloadConfigIfChanged e s)) as Hs1.
  { unfold reloadConfigIfChanged. case_bool_decide; [done|]. destruct (eConfig e); [|done]. by destruct Hs; split. }
  set (s1 := reloadConfigIfChanged e s) in *. cbv zeta. set (name := if bool_decide (crLoadout req = []) then _ else _).
  case_bool_decide; [done|]. destruct (eLoad e name) as [loadout|] eqn:El; [|done]. destruct (Hld _ _ El) as [Hld' Hn']. case_bool_decide; [done|].
  destruct (negb _); [done|]. destruct (if Ephemeral req then None else sBackend s1) as [b|] eqn:Eb.
  - assert (knows b) as Hk by (destruct (Ephemeral req); [done|]; by apply Hs1).
    pose proof (create_durable_knows e b name loadout _ Hreq Hw Hld' Hn' Hk) as Hd.
    destruct (create_durable e b name loadout (crPatch req)) as [b' [[id snap]|]].
    + destruct Hd as [Hk' Hnm]. apply create_agent_identified; [|done]. by apply backend_identified.
    + by apply backend_identified.
  - by apply create_agent_identified.
Qed.

Lemma fork_knows e id lt owner (b : B) (s : server) : knows b -> knows (fst (runFork Info e id lt owner b s)).
Proof.
  intros Hk. unfold runFork. set (meta := forkMetaSnapshot Info b id s).
  assert (match (if 0 <? lt then ForkAt b id lt else Fork b id) with
    | (b', Some (_, alt)) => sound b' /\ alt <> id /\ minted_board b b' alt
    | (b', None) => sound b' /\ forall i, board b' i = board b i end) as Hf.
  { destruct (0 <? lt); [apply forkat_board|apply fork_board]; apply Hk. }
  destruct (if 0 <? lt then ForkAt b id lt else Fork b id) as [b1 [[cont alt]|]]; [|by eapply knows_same].
  destruct Hf as (Hb1 & Hid & Hne & Hst & Hal & Hnone & [snap Hsnap] & Hother). cbv zeta. rewrite bool_decide_eq_true_2 by done.
  cbn [fst]. unfold seedForkMeta. set (m := seed_meta _ _ _ _ _ _).
  pose proof (meta_board b1 alt m Hb1) as Hm. destruct (SetMeta b1 alt m) as [b2 ok2]. cbn in Hm. cbn [fst].
  destruct Hm as (Hb2 & Hm & Hal2). change (mkPatch _ _) with (stamp alt). pose proof (apply_board b2 alt (stamp alt) Hb2 Hst) as Ha.
  pose proof (Happly b2 alt (stamp alt) Hb2 Hst (Hal2 _ Hal)) as Hok.
  destruct (ApplyChalkboard b2 alt (stamp alt)) as [b3 []]; [|done]. cbn [fst].
  destruct Ha as (Hb3 & snap1 & Hs1 & Hs2 & Hs3). split; [done|]. intros i sn Hi. destruct (decide (i = alt)) as [->|Hi'].
  - rewrite Hs2 in Hi. injection Hi as <-. apply Apply_set; [by apply lookup_singleton_eq|cbn; set_solver].
  - rewrite Hs3, Hm, Hother in Hi by done. by apply Hk.
Qed.

Lemma identified_reg (r : Registry (F := Config)) (s : server) : identified s ->
  (forall id cfg, figaros r !! id = Some cfg -> figaros (sReg s) !! id = Some cfg) -> identified (set_reg r s).
Proof. intros [Hb Ha] Hr. split; [done|]. intros id cfg Hc. by apply Ha, Hr. Qed.

Lemma kill_identified id (s : server) : identified s -> identified (fst (registry_Kill id s)).
Proof.
  intros Hs. unfold registry_Kill. destruct (KillBegin (sReg s) id) as [r []] eqn:E; [|done]. cbn [fst].
  unfold KillBegin in E. destruct (figaros (sReg s) !! id); [|done]. case_bool_decide; [done|]. simplify_eq.
  apply (identified_reg _ (killed id s)); [by destruct Hs; split|]. cbn. intros i cfg Hc.
  by apply lookup_delete_Some in Hc as [_ Hc].
Qed.

Lemma restore_identified e id (s : server) : identified s -> identified (fst (restoreByID e id s)).
Proof.
  intros Hs. unfold restoreByID. destruct (Get _ _); [done|]. destruct (sBackend s) as [b|] eqn:Eb; [|done].
  unfold restoreOne, openAriaChalkboard. rewrite Eb. destruct (eTemplates e); [|done].
  pose proof (id_boards _ Hs _ Eb) as Hk. pose proof (state_board b id (proj1 Hk)) as Hst.
  destruct (ChalkboardState b id) as [b' r]. destruct Hst as (Hb' & -> & Hst).
  pose proof (backend_identified _ s Hs (knows_same _ _ (conj Hb' Hst) Hk)) as Hs'.
  destruct (board b id) as [snap|] eqn:Esnap; [|done]. destruct (negb _); [done|]. set (cfg := mkConfig _ _ _ _ _ _ _ _ _).
  assert (cBackend cfg = true -> names_it (cID cfg) (cChalkboard cfg)) as Hc by (intros _; by apply (proj2 Hk)).
  pose proof (register_identified e cfg _ Hs' Hc) as Hr. by destruct (register_agent e cfg _) as [? []].
Qed.

Lemma bind_figaros (r : Registry (F := Config)) pid id lt r' ok : Bind r pid id lt = Some (r', ok) -> figaros r' = figaros r.
Proof.
  unfold Bind. destruct (figaros r !! id); [|by intros [= <- _]]. case_bool_decide; [by intros [= <- _]|].
  destruct (figaroPIDs _ !! id); [|done]. cbn. intros [= <- _]. cbn. by rewrite unbind_figaros.
Qed.

Lemma rebind_identified r pid id lt r' ok (s : server) : identified s -> r = sReg s -> Bind r pid id lt = Some (r', ok) ->
  identified (set_reg r' s).
Proof. intros Hs -> Hb. apply identified_reg; [done|]. intros i cfg. by rewrite (bind_figaros _ _ _ _ _ _ Hb). Qed.

Lemma unbind_identified pid (s : server) : identified s -> identified (unbind pid s).
Proof. intros Hs. apply identified_reg; [done|]. intros i cfg. unfold Unbind. by rewrite unbind_figaros. Qed.

Lemma foldl_identified {A} (f : server -> A -> server) l (s : server) :
  (forall s a, identified s -> identified (f s a)) -> identified s -> identified (foldl f s l).
Proof. intros Hf. revert s. induction l as [|a l IH]; intros s Hs; [done|]. cbn [foldl]. auto. Qed.

Lemma hash_identified e name (s : server) : identified s -> identified (currentLoadoutHash e name s).1.
Proof.
  intros Hs. unfold currentLoadoutHash. destruct (_ !! _) as [[? ?]|]; [destruct (_ <? _); [done|]|];
    by destruct Hs; split.
Qed.

Lemma rows_identified {A} (f : server * list FigaroInfoResponse -> A -> server * list FigaroInfoResponse) l st :
  (forall st a, identified st.1 -> identified (f st a).1) -> identified st.1 -> identified (foldl f st l).1.
Proof. intros Hf. revert st. induction l as [|a l IH]; intros st Hs; [done|]. cbn [foldl]. auto. Qed.

Lemma list_identified e ids global (s : server) : identified s -> identified (fst (handle_list Info e ids global s)).
Proof.
  intros Hs. unfold handle_list. cbv zeta. destruct (foldl (live_row Info e ids) (s, []) (All (sReg s))) as [s1 rows] eqn:E1.
  assert (identified s1) as H1.
  { change (identified (s1, rows).1). rewrite <-E1. apply rows_identified; [|done]. intros [s' l] f Hs'. cbn in Hs'.
    unfold live_row. destruct (negb ids && _); [|done]. pose proof (hash_identified e (LoadoutName (inFacts (Info f))) s' Hs').
    by destruct (currentLoadoutHash _ _ s'). }
  destruct (sBackend s1) as [b|]; [|done]. destruct (foldl (dormant_row e b ids) (s1, rows) _) as [s2 rows2] eqn:E2.
  assert (identified s2) as H2.
  { change (identified (s2, rows2).1). rewrite <-E2. apply rows_identified; [|done]. intros [s' l] id Hs'. cbn in Hs'.
    unfold dormant_row. destruct (Meta b id) as [[meta|]|]; [|done..]. destruct ids; [done|]. unfold fillFromMeta.
    case_bool_decide; [done|]. pose proof (hash_identified e (LoadoutName (mFacts meta)) s' Hs').
    by destruct (currentLoadoutHash _ _ s'). }
  destruct ids; [done|]. apply rows_identified; [|done]. intros [s' l] row Hs'. cbn in Hs'. unfold fillFromNode.
  destruct (_ !! _) as [n|]; [|done]. case_bool_decide; [|done].
  pose proof (hash_identified e (nLoadout n) s' Hs'). by destruct (currentLoadoutHash _ _ s').
Qed.

Lemma backfill_knows (r : Registry (F := Config)) (b : B) id : knows b -> knows (backfill_one r b id).
Proof.
  intros Hk. unfold backfill_one. destruct (Get r id); [done|]. destruct (Meta b id) as [[meta|]|]; [|done..].
  case_bool_decide; [done|]. pose proof (state_board b id (proj1 Hk)) as Hst. destruct (ChalkboardState b id) as [b' o].
  destruct Hst as (Hb' & _ & Hst). pose proof (knows_same _ _ (conj Hb' Hst) Hk) as Hk'. destruct o as [snap|]; [|done].
  destruct (backfilled meta snap) as [m|]; [|done]. pose proof (meta_board b' id m Hb') as (Hb2 & Hm & _).
  by eapply knows_same.
Qed.

Lemma serve_identified er (s : server) : well_behaved er -> identified s -> identified (serve Info s er).
Proof.
  destruct er as [e r]. intros Hr Hs. destruct r; cbn [serve]; try done.
  - by apply create_identified.
  - unfold fork. destruct (sBackend s) as [b|] eqn:Eb; [|done]. cbv zeta. case_match; [done|].
    match goal with |- context [runFork Info e id atMainLT ?o b s] => set (owner := o) end.
    pose proof (fork_knows e id atMainLT owner b s (id_boards _ Hs _ Eb)) as Hk.
    destruct (runFork Info e id atMainLT owner b s) as [b' [[cont alt]|]]; by apply backend_identified.
  - unfold promote. destruct (sBackend s) as [b|] eqn:Eb; [|done].
    pose proof (id_boards _ Hs _ Eb) as Hk. apply (knows_same _ _ (promote_board b id levels (proj1 Hk))) in Hk.
    destruct (Promote b id levels) as [b' []]; by apply backend_identified.
  - unfold kill. assert (forall s' : server, identified s' ->
      identified (fst (match sBackend s' with None => (s', inr tt) | Some b =>
        match Remove b id recursive with (b, true) => (set_backend b s', inr tt)
        | (b, false) => (set_backend b s', inl BackendFailed) end end : server * (failure + unit)))) as Hrm.
    { intros s' Hs'. destruct (sBackend s') as [b|] eqn:Eb; [|done]. assert (knows (fst (Remove b id recursive))) as Hk.
      { destruct (id_boards _ Hs' _ Eb) as [Hb Hk]. destruct (remove_board b id recursive Hb) as [Hb' Hr']. split; [done|].
        intros i snap Hi. destruct (Hr' i) as [E|E]; [congruence|]. rewrite E in Hi. by apply Hk. }
      destruct (Remove b id recursive) as [b' []]; by apply backend_identified. }
    destruct (Get _ _) as [f|]; [|by apply Hrm]. pose proof (kill_identified id s Hs) as Hk.
    destruct (registry_Kill id s) as [s' []]; [by apply Hrm|done].
  - by apply list_identified.
  - unfold attach. destruct (negb _); [done|]. pose proof (restore_identified e id s Hs).
    by destruct (restoreByID e id s) as [? []].
  - unfold bind. pose proof (restore_identified e id s Hs) as Hs'. destruct (restoreByID e id s) as [s' []]; [done|].
    destruct (Bind _ _ _ _) as [[r' []]|] eqn:E; [|done..]. by eapply rebind_identified.
  - by apply unbind_identified.
  - unfold RestoreBindings. apply foldl_identified; [|done]. intros s' be Hs'. unfold restore_binding.
    destruct (negb _); [done|]. destruct (_ && _); [done|]. pose proof (restore_identified e (beFigaroID be) s' Hs') as H2.
    destruct (restoreByID e _ s') as [s2 []]; [done|]. destruct (Bind _ _ _ _) as [[r' []]|] eqn:E; [|done..].
    by eapply rebind_identified.
  - unfold metaBackfill. destruct (sBackend s) as [b|] eqn:Eb; [|done]. apply backend_identified; [done|].
    pose proof (id_boards _ Hs _ Eb) as Hk. clear Eb. revert b Hk. intros b. generalize (ConversationIDs b) as l. intros l.
    revert b. induction l as [|i l IH]; intros b Hk; [done|]. cbn [foldl]. by apply IH, backfill_knows.
  - unfold reapDeadPIDs. apply foldl_identified; [|done]. intros s' pid Hs'. destruct (isAlive e pid); [done|].
    by apply unbind_identified.
  - unfold Shutdown. destruct (IsDraining _); [done|]. apply foldl_identified; [|by apply identified_reg].
    intros s' f Hs'. unfold shutdown_one. destruct (eDies e _); [by apply kill_identified|].
    apply identified_reg; [done|]. intros i cfg. unfold KillBegin. destruct (figaros (sReg s') !! _); [|done].
    by case_bool_decide.
  - unfold late_kill. case_bool_decide; [|done]. apply (identified_reg _ (killed _ s)); [by destruct Hs; split|].
    cbn. intros i cfg Hc. by apply lookup_delete_Some in Hc as [_ Hc].
Qed.
End identity.

(** ** The rows of a listing *)

Section listing.
Context {B : Type} `{BackendOps B} (Info : Config -> FigaroInfo).
#[local] Abbreviation server := (server B).
#[local] Abbreviation rows := (list FigaroInfoResponse).

Definition row_key (r : FigaroInfoResponse) : gostr * gset Z := (rID r, rBoundPIDs r).

(** A loop that appends one row per item, and keeps registry and backend. *)
Lemma fold_rows {A} (f : server * rows -> A -> server * rows) (key : A -> gostr * gset Z) r0 b0 l st :
  (forall st a, sReg st.1 = r0 -> sBackend st.1 = b0 -> sReg (f st a).1 = r0 /\ sBackend (f st a).1 = b0 /\
     exists row, (f st a).2 = st.2 ++ [row] /\ row_key row = key a) ->
  sReg st.1 = r0 -> sBackend st.1 = b0 ->
  sReg (foldl f st l).1 = r0 /\ sBackend (foldl f st l).1 = b0 /\
  map row_key (foldl f st l).2 = map row_key st.2 ++ map key l.
Proof.
  intros Hf. revert st. induction l as [|a l IH]; intros st H1 H2; [by rewrite app_nil_r|]. cbn [foldl map].
  destruct (Hf st a H1 H2) as (H1' & H2' & row & Hrow & Hkey). destruct (IH _ H1' H2') as (H3 & H4 & H5).
  split; [done|]. split; [done|]. rewrite H5, Hrow, map_app. cbn. by rewrite Hkey, <-app_assoc.
Qed.

Lemma hash_keeps e name (s : server) :
  sReg (currentLoadoutHash e name s).1 = sReg s /\ sBackend (currentLoadoutHash e name s).1 = sBackend s.
Proof. unfold currentLoadoutHash. destruct (_ !! _) as [[? ?]|]; [|done]. by destruct (_ <? _). Qed.

Ltac one_row := cbn [fst snd] in *; split; [congruence|split; [congruence|eexists; split; [reflexivity|]]].

Lemma live_row_key e ids (r0 : Registry (F := Config)) b0 st (f : Config) :
  sReg (B := B) st.1 = r0 -> sBackend st.1 = b0 ->
  sReg (live_row Info e ids st f).1 = r0 /\ sBackend (live_row Info e ids st f).1 = b0 /\
  exists row, (live_row Info e ids st f).2 = st.2 ++ [row] /\
    row_key row = (inID (Info f), Registry.BoundPIDs r0 (inID (Info f))).
Proof.
  destruct st as [s l]. cbn [fst snd]. intros H1 H2. unfold live_row. destruct (negb ids && _).
  - pose proof (hash_keeps e (LoadoutName (inFacts (Info f))) s) as [Ha Hb].
    destruct (currentLoadoutHash _ _ s) as [s' h]. cbn [fst snd] in *. one_row. unfold row_key. cbn. by rewrite H1.
  - one_row. unfold row_key. cbn. by rewrite H1.
Qed.

Lemma dormant_row_key e b ids r0 b0 st id : sReg (B := B) st.1 = r0 -> sBackend st.1 = b0 ->
  sReg (dormant_row e b ids st id).1 = r0 /\ sBackend (dormant_row e b ids st id).1 = b0 /\
  exists row, (dormant_row e b ids st id).2 = st.2 ++ [row] /\ row_key row = (id, ∅).
Proof.
  destruct st as [s l]. cbn [fst snd]. intros H1 H2. unfold dormant_row. destruct (Meta b id) as [[meta|]|];
    [|by one_row..]. destruct ids; [by one_row|]. unfold fillFromMeta. case_bool_decide; [by one_row|].
  pose proof (hash_keeps e (LoadoutName (mFacts meta)) s) as [Ha Hb].
  destruct (currentLoadoutHash _ _ s) as [s' h]. cbn [fst snd] in *. by one_row.
Qed.

Lemma fill_key e nodes r0 b0 st row : sReg (B := B) st.1 = r0 -> sBackend st.1 = b0 ->
  sReg (fillFromNode e nodes st row).1 = r0 /\ sBackend (fillFromNode e nodes st row).1 = b0 /\
  exists row', (fillFromNode e nodes st row).2 = st.2 ++ [row'] /\ row_key row' = row_key row.
Proof.
  destruct st as [s l]. cbn [fst snd]. intros H1 H2. unfold fillFromNode. destruct (nodes !! rID row) as [n|]; [|by one_row].
  case_bool_decide; [|by one_row]. pose proof (hash_keeps e (nLoadout n) s) as [Ha Hb].
  destruct (currentLoadoutHash _ _ s) as [s' h]. cbn [fst snd] in *. by one_row.
Qed.

Lemma unseen_spec seen ids : NoDup (unseen seen ids) /\ forall id, id ∈ unseen seen ids <-> ~ (id ∈ seen) /\ id ∈ ids.
Proof.
  revert seen. induction ids as [|i ids IH]; intros seen; cbn; [split; [constructor|set_solver]|].
  case_bool_decide as Hi.
  - destruct (IH seen) as [Hn He]. split; [done|]. intros id. rewrite He, elem_of_cons. split; [naive_solver|].
    intros [H1 [->|H2]]; done.
  - destruct (IH ({[i]} ∪ seen)) as [Hn He]. split.
    + constructor; [|done]. rewrite He. set_solver.
    + intros id. rewrite !elem_of_cons, He. destruct (decide (id = i)) as [->|]; set_solver.
Qed.

(** The ids a listing covers besides the live ones. *)
Definition listed (b : option B) (idsOnly global : bool) : list gostr :=
  match b with
  | Some b => list_conversations b idsOnly global ++ list_anchors b idsOnly global
  | None => []
  end.

Lemma list_keys e ids global (s : server) (r0 := sReg s) :
  let live := map (fun f => inID (Info f)) (All r0) in
  exists rest, NoDup rest /\ (forall id, id ∈ rest <-> ~ (id ∈ live) /\ id ∈ listed (sBackend s) ids global) /\
  map row_key (snd (handle_list Info e ids global s)) =
    map (fun id => (id, Registry.BoundPIDs r0 id)) live ++ map (fun id => (id, ∅)) rest.
Proof.
  cbv zeta. unfold handle_list. cbv zeta. fold r0.
  destruct (fold_rows (live_row Info e ids) (fun f => (inID (Info f), Registry.BoundPIDs r0 (inID (Info f)))) r0
    (sBackend s) (All r0) (s, [])) as (H1 & H2 & H3); [intros st f; apply live_row_key|done|done|].
  destruct (foldl (live_row Info e ids) (s, []) (All r0)) as [s1 rows1]. cbn [fst snd map app] in H1, H2, H3.
  rewrite H2. set (live := map (fun f => inID (Info f)) (All r0)).
  assert (map (fun f => (inID (Info f), Registry.BoundPIDs r0 (inID (Info f)))) (All r0) =
    map (fun id => (id, Registry.BoundPIDs r0 id)) live) as Hl by (unfold live; by rewrite map_map).
  destruct (sBackend s) as [b|] eqn:Eb; cycle 1.
  { exists []. split; [constructor|]. split; [cbn; set_solver|]. cbn [snd]. by rewrite H3, Hl, app_nil_r. }
  set (dormant := unseen _ (list_conversations b ids global)).
  destruct (unseen_spec (list_to_set live) (list_conversations b ids global)) as [Hnd He]. fold dormant in Hnd, He.
  destruct (fold_rows (dormant_row e b ids) (fun id => (id, ∅)) r0 (Some b) dormant (s1, rows1)) as (H4 & H5 & H6);
    [intros st id; apply dormant_row_key|done|done|].
  destruct (foldl (dormant_row e b ids) (s1, rows1) dormant) as [s2 rows2]. cbn [fst snd] in H4, H5, H6.
  set (anchors := unseen _ (list_anchors b ids global)).
  destruct (unseen_spec (list_to_set dormant ∪ list_to_set live) (list_anchors b ids global)) as [Hnd2 He2].
  fold anchors in Hnd2, He2. exists (dormant ++ anchors). split; [|split].
  - apply NoDup_app. split; [done|]. split; [|done]. intros id Hid Ha%He2. set_solver.
  - intros id. rewrite elem_of_app, He, He2. cbn [listed]. rewrite elem_of_app, elem_of_union, !elem_of_list_to_set, He.
    rewrite elem_of_list_to_set. destruct (decide (id ∈ list_conversations b ids global)); naive_solver.
  - assert (map row_key (rows2 ++ map (fun id => bare_row id #"anchor") anchors) =
      map (fun id => (id, Registry.BoundPIDs r0 id)) live ++ map (fun id => (id, ∅)) (dormant ++ anchors)) as Hk.
    { rewrite map_app, H6, H3, Hl, map_map, map_app, <-app_assoc. done. }
    destruct ids; [done|]. rewrite <-Hk.
    destruct (fold_rows (fillFromNode e (list_to_map (rev (map (fun n => (nID n, n)) (list_nodes b false global)))))
      row_key r0 (Some b) (rows2 ++ map (fun id => bare_row id #"anchor") anchors) (s2, [])) as (_ & _ & H7);
      [intros st row; apply fill_key|done|done|]. exact H7.
Qed.
End listing.
