(* ===== verification/AngelusSpec.v ===== *)
(** * angelus: the supervisor's properties, with a backend in memory as the
    witness that the laws asked of it can hold. *)

From S2P Require Import Prelude Json GoJson Message Chalkboard Registry Angelus AngelusFacts.

(** ** Properties *)

Section properties.
Context {B : Type} `{BackendOps B} (Info : Config -> FigaroInfo).
#[local] Abbreviation server := (server B).

(** A supervisor that has just started. *)
Definition started (b : option B) (dflt : gostr) (at_ : Z) : server := mkServer NewRegistry b dflt ∅ at_ [] [].
Definition after (s : server) (reqs : list (env * request)) : server := foldl (serve Info) s reqs.

Lemma after_reg strict dir b dflt t reqs :
  Forall (fun er => FigaroSocketDir er.1 = dir /\ (strict = true -> prompt er.1)) reqs ->
  reg_ok strict dir (sReg (after (started b dflt t) reqs)).
Proof.
  unfold after. assert (reg_ok strict dir (sReg (started b dflt t))) as H0 by apply reg_ok_new. revert H0.
  generalize (started b dflt t). intros s Hs Hd. revert s Hs. induction Hd as [|er reqs [He Hp] Hd IH]; intros s Hs; [done|].
  cbn [foldl]. apply IH. by apply serve_reg.
Qed.

(** C7: after any requests and background work, each in one step but for a
    registration that passed its draining check before a shutdown and the end of
    a Kill that a shutdown abandoned, the registry is consistent: every agent
    runs under its own id on its own socket, so no two share one; a process that
    is attached reaches a registered agent; bind cannot panic.  When no
    registration raced a shutdown and every agent died within the grace of its
    shutdown, no kill is left half done, and once the supervisor has shut down no
    agent runs, whatever is asked of it. *)
Theorem angelus_registry (dir : gostr) (b : option B) (dflt : gostr) (t : Z) (reqs : list (env * request))
  (Hdir : Forall (fun er => FigaroSocketDir er.1 = dir) reqs) :
  let s := after (started b dflt t) reqs in
  wf (sReg s) /\
  (forall id cfg, Get (sReg s) id = Some cfg -> cID cfg = id /\ cSocketPath cfg = dir ++ #"/" ++ id ++ #".sock") /\
  (forall id1 id2 c1 c2, Get (sReg s) id1 = Some c1 -> Get (sReg s) id2 = Some c2 ->
     cSocketPath c1 = cSocketPath c2 -> id1 = id2) /\
  (forall pid id lt, pidToFigaro (sReg s) !! pid = Some id -> pidToLT (sReg s) !! pid = Some lt ->
     resolve pid s = Some (id, dir ++ #"/" ++ id ++ #".sock", lt)) /\
  (forall e pid id lt, FigaroSocketDir e = dir -> snd (bind e pid id lt s) <> inl Panics) /\
  (Forall (fun er => prompt er.1) reqs ->
     killing (sReg s) = ∅ /\ (draining (sReg s) = true -> All (sReg s) = [])).
Proof.
  cbv zeta. set (s := after (started b dflt t) reqs) in *.
  assert (reg_ok false dir (sReg s)) as Hr.
  { apply after_reg. eapply Forall_impl; [exact Hdir|]. done. }
  destruct (Hr) as [Hw _ Hf _]. split; [done|]. split; [by intros id cfg Hc; apply Hf|].
  split; [|split; [|split]].
  - intros id1 id2 c1 c2 H1 H2 E. destruct (Hf _ _ H1) as [_ E1], (Hf _ _ H2) as [_ E2]. rewrite E1, E2 in E.
    apply app_inv_head, app_inv_head in E. by apply app_inv_tail in E.
  - intros pid id lt Hp Hlt. unfold resolve, Resolve. rewrite Hp, Hlt.
    destruct (proj1 (wf_index _ Hw pid id) Hp) as (qs & Hq & _). apply elem_of_dom_2 in Hq.
    rewrite (wf_dom _ Hw) in Hq. apply elem_of_dom in Hq as [cfg Hc]. rewrite Hc. cbn.
    destruct (Hf _ _ Hc) as [_ ->]. done.
  - intros e pid id lt He. by apply (rebind_reg false dir).
  - intros Hp. assert (reg_ok true dir (sReg s)) as [_ Hk _ Hd].
    { apply after_reg. eapply Forall_impl; [apply (proj2 (Forall_and _ _) (conj Hdir Hp))|]. by intros er [? ?]. }
    split; [by apply Hk|]. intros Hdr. unfold All. by rewrite (Hd eq_refl Hdr).
Qed.

(** A listing has every live agent and every stored conversation (and, when
    global, every anchor of the forest) exactly once, the live ones first, each
    with exactly the processes attached to it. *)
Theorem angelus_list (dir : gostr) (e : env) (idsOnly global : bool) (s : server)
  (Hr : reg_ok false dir (sReg s)) (Hinfo : forall f, inID (Info f) = cID f) :
  let rows := snd (handle_list Info e idsOnly global s) in
  NoDup (map rID rows) /\
  (forall id, id ∈ map rID rows <-> is_Some (Get (sReg s) id) \/ id ∈ listed (sBackend s) idsOnly global) /\
  (exists n, forall i row, rows !! i = Some row -> (i < n)%nat <-> is_Some (Get (sReg s) (rID row))) /\
  Forall (fun row => rBoundPIDs row = Registry.BoundPIDs (sReg s) (rID row)) rows.
Proof.
  cbv zeta. destruct (list_keys Info e idsOnly global s) as (rest & Hnd & He & Hk).
  set (rows := snd (handle_list Info e idsOnly global s)) in *. set (live := map (fun f => inID (Info f)) (All (sReg s))) in *.
  destruct Hr as [Hw _ Hf _].
  assert (live = map fst (map_to_list (figaros (sReg s)))) as Hlive.
  { unfold live, All. rewrite map_map. apply map_ext_in. intros [id cfg] Hin%list_elem_of_In%elem_of_map_to_list.
    rewrite Hinfo. by destruct (Hf _ _ Hin). }
  assert (forall id, id ∈ live <-> is_Some (Get (sReg s) id)) as Hin.
  { intros id. rewrite Hlive. split.
    - intros ([i cfg] & -> & Hi%elem_of_map_to_list)%list_elem_of_fmap. by exists cfg.
    - intros [cfg Hc]. apply list_elem_of_fmap. exists (id, cfg). split; [done|]. by apply elem_of_map_to_list. }
  assert (map rID rows = live ++ rest) as Hids.
  { change rID with (fun r => fst (row_key r)). rewrite <-map_map, Hk, map_app, !map_map. cbn [fst].
    by rewrite !map_id. }
  split; [|split; [|split]].
  - rewrite Hids. apply NoDup_app. split; [rewrite Hlive; apply NoDup_fst_map_to_list|]. split; [|done].
    intros id Hl Hr'. by apply He in Hr' as [? _].
  - intros id. rewrite Hids, elem_of_app, He, <-Hin. destruct (decide (id ∈ live)); tauto.
  - exists (length live). intros i row Hrow. rewrite <-Hin.
    assert ((live ++ rest) !! i = Some (rID row)) as Hi by (rewrite <-Hids; by rewrite list_lookup_fmap, Hrow).
    split; [intros Hlt; rewrite lookup_app_l in Hi by done; by eapply list_elem_of_lookup_2|].
    intros Hl. destruct (decide (i < length live)%nat) as [|Hge]; [done|]. rewrite lookup_app_r in Hi by lia.
    apply list_elem_of_lookup_2, He in Hi. tauto.
  - apply Forall_forall. intros row Hrow. assert (row_key row ∈ map row_key rows) as Hkey by (by apply list_elem_of_fmap_2).
    rewrite Hk in Hkey. apply elem_of_app in Hkey as [Hl|Hl]; apply list_elem_of_fmap in Hl as (id & E & Hid);
      injection E as E1 E2; rewrite E1, E2; [done|]. apply He in Hid as [Hnl _]. unfold Registry.BoundPIDs.
    destruct (figaroPIDs (sReg s) !! id) eqn:Ep; [|done]. exfalso. apply Hnl, Hin. apply elem_of_dom_2 in Ep.
    rewrite (wf_dom _ Hw) in Ep. by apply elem_of_dom in Ep.
Qed.
End properties.

(** C6: an aria knows its own id: whatever is created, forked, restored,
    promoted or removed, the chalkboard of every conversation names that
    conversation, and every agent on the backend started from such a board;
    provided create requests do not set or remove the id themselves, what they
    write can be read back and writes to a living board succeed. *)
Theorem angelus_identity {B : Type} `{BackendLaws B} (Info : Config -> FigaroInfo) (b : B) (dflt : gostr) (t : Z)
  (reqs : list (env * request))
  (Happly : forall (b : B) id p, sound b -> writable p -> alive b id -> snd (ApplyChalkboard b id p) = true)
  (Hb : knows b) (Hreqs : Forall well_behaved reqs) :
  let s := after Info (started (Some b) dflt t) reqs in
  (forall b id snap, sBackend s = Some b -> board b id = Some snap -> names_it id snap) /\
  (forall id cfg, Get (sReg s) id = Some cfg -> cBackend cfg = true -> names_it id (cChalkboard cfg)).
Proof.
  cbv zeta. assert (identified (after Info (started (Some b) dflt t) reqs)) as [Hbs Ha].
  { unfold after. assert (identified (started (Some b) dflt t)) as H2.
    { split; [by intros ? [= <-]|apply map_Forall_empty]. }
    revert H2. generalize (started (Some b) dflt t). induction Hreqs as [|er reqs He Hr IH]; intros s Hs; [done|].
    cbn [foldl]. by apply IH, serve_identified. }
  split; [intros b' id snap Hb' Hbd; by eapply Hbs|]. intros id cfg Hc. by apply (Ha _ _ Hc).
Qed.

(** ** Saved bindings *)

Section bindings.
Context {B : Type} `{BackendLaws B} (Info : Config -> FigaroInfo).
#[local] Abbreviation server := (server B).
#[local] Abbreviation registry := (Registry (F := Config)).

Lemma bind_maps (r r' : registry) pid id lt : Bind r pid id lt = Some (r', true) -> forall p,
  pidToFigaro r' !! p = (if decide (p = pid) then Some id else pidToFigaro r !! p) /\
  pidToLT r' !! p = (if decide (p = pid) then Some lt else pidToLT r !! p).
Proof.
  unfold Bind. intros Hb p. destruct (figaros r !! id); [|done]. case_bool_decide as Hc.
  - injection Hb as <-. cbn. case_decide as Hp; [by rewrite Hp, lookup_insert_eq|]. by rewrite lookup_insert_ne.
  - destruct (figaroPIDs _ !! id); [|done]. cbn in Hb. injection Hb as <-. cbn. case_decide as Hp.
    + by rewrite Hp, !lookup_insert_eq.
    + rewrite !lookup_insert_ne by done. by apply unbind_other.
Qed.

Lemma saved_in e (r : registry) be : wf r -> map_Forall (fun id cfg => cID cfg = id) (figaros r) ->
  (forall f, inID (Info f) = cID f) ->
  be ∈ saved_bindings Info e r <->
  pidToFigaro r !! bePID be = Some (beFigaroID be) /\ beStartTime be = pidStartTime e (bePID be).
Proof.
  intros Hw Hf Hi. unfold saved_bindings. rewrite list_elem_of_In, in_concat. split.
  - intros (l & Hl & Hbe). apply list_elem_of_In, list_elem_of_fmap in Hl as (f & -> & Hin).
    apply list_elem_of_In, list_elem_of_fmap in Hbe as (pid & -> & Hpid). cbn. split; [|done].
    apply elem_of_elements in Hpid. apply (wf_index _ Hw). unfold Registry.BoundPIDs in Hpid.
    destruct (figaroPIDs r !! _) as [qs|]; [by exists qs|set_solver].
  - intros [Hp Hs]. destruct (proj1 (wf_index _ Hw _ _) Hp) as (qs & Hq & Hin).
    pose proof (elem_of_dom_2 _ _ _ Hq) as Hd. rewrite (wf_dom _ Hw) in Hd. apply elem_of_dom in Hd as [cfg Hc].
    eexists. split; [apply list_elem_of_In, list_elem_of_fmap; exists cfg; split; [reflexivity|]|].
    + apply list_elem_of_fmap. exists (beFigaroID be, cfg). split; [done|]. by apply elem_of_map_to_list.
    + apply list_elem_of_In, list_elem_of_fmap. exists (bePID be). rewrite Hi, (Hf _ _ Hc). split.
      * destruct be; cbn in *. by rewrite Hs.
      * apply elem_of_elements. unfold Registry.BoundPIDs. by rewrite Hq.
Qed.

(** An entry whose process still runs, and is the one it was. *)
Definition survives (e : env) (be : bindingEntry) : Prop :=
  isAlive e (bePID be) = true /\ (beStartTime be = 0 \/ pidStartTime e (bePID be) = beStartTime be).

(** Restoring can revive an aria: it has a board, which the templates can read
    and whose provider can be built. *)
Definition restorable (e : env) (b : B) (id : gostr) : bool :=
  eTemplates e && match board b id with
  | Some snap => eFactory e (patchString snap #"system.provider") (knobsFromPatch snap)
  | None => false
  end.

(** The state of the loop: what has been bound so far. *)
Record restored (dir : gostr) (b0 : B) (done_ : list bindingEntry) (e : env) (s : server) : Prop := {
  rs_ok : reg_ok false dir (sReg s);
  rs_up : draining (sReg s) = false;
  rs_backend : exists b, sBackend s = Some b /\ sound b /\ forall i, board b i = board b0 i;
  rs_live : forall id, is_Some (figaros (sReg s) !! id) -> restorable e b0 id = true;
  rs_bound : forall pid id, pidToFigaro (sReg s) !! pid = Some id <->
    exists be, be ∈ done_ /\ bePID be = pid /\ beFigaroID be = id /\ survives e be /\ restorable e b0 id = true;
  rs_lt : forall pid id, pidToFigaro (sReg s) !! pid = Some id -> pidToLT (sReg s) !! pid = Some 0 }.

(** Restoring one aria: it ends running exactly when it can be revived. *)
Lemma restore_known dir (b0 : B) l e (s : server) id : FigaroSocketDir e = dir -> restored dir b0 l e s ->
  let '(s', r) := restoreByID e id s in
  restored dir b0 l e s' /\
  if restorable e b0 id then (exists cfg, r = inr cfg) /\ is_Some (figaros (sReg s') !! id) else exists err, r = inl err.
Proof.
  intros He Hs. pose proof (restore_reg false dir e id s (rs_ok _ _ _ _ _ Hs) He ltac:(done)) as Hreg.
  unfold restoreByID in *. destruct (Get (sReg s) id) as [f|] eqn:Eg.
  { split; [done|]. rewrite (rs_live _ _ _ _ _ Hs) by (by exists f). split; by exists f. }
  destruct (rs_backend _ _ _ _ _ Hs) as (b & Eb & Hb & Hbd). rewrite Eb in *.
  unfold restoreOne, openAriaChalkboard, restorable in *. rewrite Eb in *.
  destruct (eTemplates e) eqn:Et; cbn [andb]; [|split; [done|by eexists]].
  pose proof (state_board b id Hb) as Hst.
  destruct (ChalkboardState b id) as [b' r]. destruct Hst as (Hb' & -> & Hst). rewrite Hbd in *.
  assert (restored dir b0 l e (set_backend b' s)) as Hsb.
  { destruct Hs as [H1 H2 H3 H4 H5 H6]. split; try done. cbn. exists b'. split_and!; try done. intros i. by rewrite Hst. }
  destruct (board b0 id) as [snap|] eqn:Ebd; [|split; [done|by eexists]].
  destruct (eFactory e _ _) eqn:Ef; cbn [negb]; [|split; [done|by eexists]].
  set (cfg := mkConfig _ _ _ _ _ _ _ _ _) in *.
  unfold register_agent, Register, Insert in *. cbn [sReg set_backend] in *. rewrite (rs_up _ _ _ _ _ Hs) in *. cbn [andb] in *.
  change (cID cfg) with id in *. unfold Get in Eg. rewrite Eg in *.
  split; [|split; [by eexists|exists cfg; cbn; by rewrite lookup_insert_eq]].
  destruct Hsb as [_ H2 H3 H4 H5 H6]. split; [exact Hreg|cbn; first [done|apply Hs]|done| |..]; cbn.
  - intros i [c Hc]. apply lookup_insert_Some in Hc as [[<- _]|[_ Hc]]; [|apply H4; by exists c].
    unfold restorable. by rewrite Et, Ebd, Ef.
  - apply H5.
  - apply H6.
Qed.

Lemma restored_skip dir (b0 : B) l e (s : server) be :
  ~ (survives e be /\ restorable e b0 (beFigaroID be) = true) ->
  restored dir b0 l e s -> restored dir b0 (l ++ [be]) e s.
Proof.
  intros Hno [H1 H2 H3 H4 H5 H6]. split; [done..| |done]. intros pid id. rewrite H5. split.
  - intros (x & Hx & Hrest). exists x. split; [|done]. apply elem_of_app. by left.
  - intros (x & Hx & Hp & Hi & Hsv). exists x. split; [|done]. apply elem_of_app in Hx as [|Hx]; [done|].
    apply list_elem_of_singleton in Hx as ->. subst id. tauto.
Qed.

Lemma restore_one dir (b0 : B) l e (s : server) be (r : registry) :
  FigaroSocketDir e = dir ->
  (forall x, x ∈ l ++ [be] -> pidToFigaro r !! bePID x = Some (beFigaroID x)) ->
  restored dir b0 l e s -> restored dir b0 (l ++ [be]) e (restore_binding e s be).
Proof.
  intros He Hl Hs. unfold restore_binding.
  destruct (isAlive e (bePID be)) eqn:Ea; cbn [negb]; [|apply restored_skip; [intros [[? _] _]; congruence|done]].
  destruct (negb (beStartTime be =? 0) && negb (pidStartTime e (bePID be) =? beStartTime be)) eqn:Et.
  { apply restored_skip; [|done]. intros [[_ [E|E]] _]; apply andb_true_iff in Et as [E1 E2];
      apply negb_true_iff, Z.eqb_neq in E1; apply negb_true_iff, Z.eqb_neq in E2; congruence. }
  assert (survives e be) as Hsv.
  { split; [done|]. apply andb_false_iff in Et as [E|E]; apply negb_false_iff, Z.eqb_eq in E; auto. }
  assert (pidToFigaro r !! bePID be = Some (beFigaroID be)) as Hbe by (apply Hl, elem_of_app; right; by left).
  pose proof (restore_known dir b0 l e s (beFigaroID be) He Hs) as Hk.
  destruct (restoreByID e (beFigaroID be) s) as [s' res]. destruct Hk as [Hs' Hk].
  destruct (restorable e b0 (beFigaroID be)) eqn:Er; cycle 1.
  { destruct Hk as [err ->]. apply restored_skip; [intros [_ ?]; congruence|done]. }
  destruct Hk as [[cfg ->] Hin].
  destruct (Bind_total (sReg s') (bePID be) (beFigaroID be) 0 (ok_wf _ _ _ (rs_ok _ _ _ _ _ Hs'))) as (r' & ok & E & _ & Hok).
  rewrite E. destruct ok; [|by apply Hok in Hin]. pose proof (bind_maps _ _ _ _ _ E) as Hm.
  assert (draining r' = draining (sReg s') /\ figaros r' = figaros (sReg s')) as [Hd Hfg].
  { unfold Bind in E. destruct (figaros (sReg s') !! _); [|done]. case_bool_decide; [by injection E as <-|].
    destruct (figaroPIDs _ !! _); [|done]. injection E as <-. cbn. unfold unbindLocked. by destruct (pidToFigaro (sReg s') !! bePID be). }
  destruct Hs' as [H1 H2 H3 H4 H5 H6]. split; [by eapply reg_ok_bind|cbn; congruence|done|cbn; by rewrite Hfg|..]; cbn.
  - intros pid id. destruct (Hm pid) as [-> _]. case_decide as Hp.
    + split.
      * intros [= <-]. exists be. split; [apply elem_of_app; right; by left|]. done.
      * intros (x & Hx & Hxp & Hxi & _). apply Hl in Hx. rewrite Hxp, Hp, Hbe in Hx. congruence.
    + rewrite H5. split.
      * intros (x & Hx & Hrest). exists x. split; [apply elem_of_app; by left|done].
      * intros (x & Hx & Hxp & Hrest). exists x. split; [|done]. apply elem_of_app in Hx as [|Hx]; [done|].
        apply list_elem_of_singleton in Hx as ->. congruence.
  - intros pid id. destruct (Hm pid) as [-> ->]. case_decide; [done|]. apply H6.
Qed.

(** C33: what the supervisor saves of its attachments and restores after a
    restart: attached, each to the aria it was attached to and at its leaf, are
    exactly the processes that still run, whose start time is the saved one (or
    was saved as 0, unknown), and whose aria can be revived: it has a board in
    the backend, the templates are loaded and its provider can be built.  An
    ephemeral aria has no board, so its attachments are lost. *)
Theorem angelus_bindings (dir : gostr) (e e' : env) (s : server) (b : B) (dflt : gostr) (t : Z)
  (Hr : reg_ok false dir (sReg s)) (Hinfo : forall f, inID (Info f) = cID f) (Hdir : FigaroSocketDir e' = dir)
  (Hb : sound b) :
  let s' := RestoreBindings e' (saved_bindings Info e (sReg s)) (started (Some b) dflt t) in
  forall pid id,
    (pidToFigaro (sReg s') !! pid = Some id <->
       pidToFigaro (sReg s) !! pid = Some id /\ isAlive e' pid = true /\
       (pidStartTime e pid = 0 \/ pidStartTime e' pid = pidStartTime e pid) /\ restorable e' b id = true) /\
    (pidToFigaro (sReg s') !! pid = Some id -> pidToLT (sReg s') !! pid = Some 0).
Proof.
  cbv zeta. destruct Hr as [Hw _ Hf _].
  assert (map_Forall (fun id cfg => cID cfg = id) (figaros (sReg s))) as Hf' by (intros i c Hc; by apply Hf in Hc as [? _]).
  pose proof (fun be => saved_in e (sReg s) be Hw Hf' Hinfo) as Hsaved. set (file := saved_bindings Info e (sReg s)) in *.
  assert (forall l s0 d, restored dir b d e' s0 -> (forall x, x ∈ d ++ l -> x ∈ file) ->
    restored dir b (d ++ l) e' (RestoreBindings e' l s0)) as Hloop.
  { induction l as [|be l IH]; intros s0 d Hs0 Hd; [by rewrite app_nil_r|]. unfold RestoreBindings. cbn [foldl].
    rewrite (cons_middle be d l), app_assoc. apply IH; [|by rewrite <-app_assoc].
    eapply (restore_one dir b d e' s0 be (sReg s)); [done| |done].
    intros x Hx. apply Hsaved, Hd. rewrite (cons_middle be d l), app_assoc, elem_of_app. by left. }
  destruct (Hloop file (started (Some b) dflt t) []) as [_ _ _ _ H4 H5]; [|done|].
  { split; [apply reg_ok_new|done|by exists b|..]; cbn.
    - intros id. by rewrite lookup_empty; intros [? ?].
    - intros pid id. rewrite lookup_empty. split; [done|]. intros (x & Hx & _). by apply not_elem_of_nil in Hx.
    - intros pid id. by rewrite lookup_empty. }
  intros pid id. split; [|apply H5]. rewrite H4. cbn [app]. split.
  - intros (x & Hx & <- & <- & [Ha Ht] & Hv). apply Hsaved in Hx as [Hx Hs]. by rewrite Hs in Ht.
  - intros (Hp & Ha & Ht & Hv). exists (mkBinding pid id (pidStartTime e pid)). split; [by apply Hsaved|]. done.
Qed.
End bindings.

(** ** Witnesses: a backend that keeps boards and metadata in memory *)

Record toy := mkToy { tBoards : gmap gostr snapshot; tMetas : gmap gostr AriaMeta }.

(** Longer than every id in use. *)
Definition fresh_id (m : gmap gostr snapshot) : gostr := x78 :: concat (map fst (map_to_list m)).

Lemma fresh_id_new m : m !! fresh_id m = None.
Proof.
  apply eq_None_not_Some. intros [snap Hs]. apply elem_of_map_to_list in Hs.
  assert (forall l (k : gostr * snapshot), k ∈ l -> (length k.1 <= length (concat (map fst l)))%nat) as Hlen.
  { intros l k Hk. induction l as [|y l IH]; [by apply not_elem_of_nil in Hk|]. cbn. rewrite length_app.
    apply elem_of_cons in Hk as [->|Hk]; [lia|]. specialize (IH Hk). lia. }
  apply Hlen in Hs. unfold fresh_id in Hs. cbn in Hs. lia.
Qed.

Definition toy_add (b : toy) (snap : snapshot) : toy * gostr :=
  let id := fresh_id (tBoards b) in (mkToy (<[id := snap]> (tBoards b)) (tMetas b), id).
Definition toy_fork (b : toy) (id : gostr) : toy * option (gostr * gostr) :=
  match tBoards b !! id with
  | Some snap => let '(b, alt) := toy_add b snap in (b, Some (id, alt))
  | None => (b, None)
  end.

#[local] Instance toy_ops : BackendOps toy := {|
  ChalkboardState b id := (b, tBoards b !! id);
  ApplyChalkboard b id p :=
    match tBoards b !! id with
    | Some snap => (mkToy (<[id := Snapshot.Apply snap p]> (tBoards b)) (tMetas b), true)
    | None => (b, false)
    end;
  CreateLoadout b name _ := (b, Some name);
  CreateConversation b _ := let '(b, id) := toy_add b ∅ in (b, Some id);
  Fork b id := toy_fork b id;
  ForkAt b id _ := toy_fork b id;
  Promote b _ _ := (b, AtStump);
  OwnerResolution _ _ _ := None;
  Node _ _ := None;
  Nodes b := map (fun kv => mkNode kv.1 [] conversationKind [] [] false kv.1 [] 0) (map_to_list (tBoards b));
  Conversations b := map (fun kv => mkNode kv.1 [] conversationKind [] [] false kv.1 [] 0) (map_to_list (tBoards b));
  ConversationIDs b := map fst (map_to_list (tBoards b));
  Meta b id := Some (tMetas b !! id);
  SetMeta b id m := (mkToy (tBoards b) (<[id := m]> (tMetas b)), true);
  Remove b id _ := (mkToy (delete id (tBoards b)) (delete id (tMetas b)), true) |}.

Lemma toy_add_spec b snap : let '(b', id) := toy_add b snap in
  id <> [] /\ tBoards b !! id = None /\ tBoards b' !! id = Some snap /\ forall i, i <> id -> tBoards b' !! i = tBoards b !! i.
Proof.
  unfold toy_add. split; [done|]. split; [apply fresh_id_new|]. cbn. split; [by rewrite lookup_insert_eq|].
  intros i Hi. by rewrite lookup_insert_ne.
Qed.

Lemma toy_fork_spec b id : match toy_fork b id with
  | (b', Some (_, alt)) => alt <> [] /\ alt <> id /\ tBoards b !! alt = None /\ is_Some (tBoards b' !! alt) /\
                           forall i, i <> alt -> tBoards b' !! i = tBoards b !! i
  | (b', None) => forall i, tBoards b' !! i = tBoards b !! i
  end.
Proof.
  unfold toy_fork. destruct (tBoards b !! id) as [snap|] eqn:E; [|done]. pose proof (toy_add_spec b snap) as Hs.
  destruct (toy_add b snap) as [b' alt]. destruct Hs as (H1 & H2 & H3 & H4). split_and!; [done|congruence|done|by eexists|done].
Qed.

#[local] Instance toy_model : BoardModel toy := {|
  board b id := tBoards b !! id; sound _ := True; writable _ := True; alive b id := is_Some (tBoards b !! id) |}.

#[local] Instance toy_laws : BackendLaws toy.
Proof.
  split; cbn [board sound writable alive toy_model].
  - done.
  - intros b id p _ _. cbn. destruct (tBoards b !! id) as [snap|] eqn:E; [|done]. split; [done|]. exists snap. split; [done|]. cbn.
    split; [by rewrite lookup_insert_eq|]. intros i Hi. by rewrite lookup_insert_ne.
  - done.
  - intros b l _. pose proof (toy_add_spec b ∅) as Hs.
    change (CreateConversation b l) with (let '(b, id) := toy_add b ∅ in (b, Some id)).
    destruct (toy_add b ∅) as [b' id]. destruct Hs as (H1 & H2 & H3 & H4). split; [done|]. split_and!; try done; by eexists.
  - intros b id _. pose proof (toy_fork_spec b id) as Hs. change (Fork b id) with (toy_fork b id).
    destruct (toy_fork b id) as [b' [[cont alt]|]]; [|done]. destruct Hs as (H1 & H2 & H3 & H4 & H5). by split_and!.
  - intros b id lt _. pose proof (toy_fork_spec b id) as Hs. change (ForkAt b id lt) with (toy_fork b id).
    destruct (toy_fork b id) as [b' [[cont alt]|]]; [|done]. destruct Hs as (H1 & H2 & H3 & H4 & H5). by split_and!.
  - done.
  - done.
  - intros b id rec _. split; [done|]. intros i. cbn.
    destruct (decide (i = id)) as [->|]; [left; apply lookup_delete_eq|right; by apply lookup_delete_ne].
Qed.

Definition ex_info (c : Config) : FigaroInfo := mkInfo (cID c) #"idle" no_facts 1 2 0.
Definition ex_loadout : Patch := mkPatch {[ #"system.provider" := Print (JStr #"anthropic")]} [].
Definition ex_env : env :=
  mkEnv (Some #"home") (fun name => if bool_decide (name = #"home") then Some ex_loadout else None) (fun _ _ => true) (fun _ => []) #"/w" (fun _ => true) #"eph" 1000
    (fun _ => #"hash") true (fun pid => negb (pid =? 13)) (fun pid => pid) (fun _ => true) #"/run" [ #"anthropic"]
    false (fun _ => true).
Definition ex_create : CreateRequest := mkCreate [] None false.
Definition ex_id : gostr := #"x".
Definition ex_requests : list (env * request) :=
  [(ex_env, RCreate ex_create); (ex_env, RFork ex_id 0); (ex_env, RBind 7 ex_id 3); (ex_env, RBind 13 ex_id 0)].
Definition ex_server : server toy := after ex_info (started (Some (mkToy ∅ ∅)) [] 0) ex_requests.

Lemma angelus_registry_witness :
  resolve 7 ex_server = Some (ex_id, #"/run/x.sock", 3) /\ wf (sReg ex_server).
Proof.
  split; [vm_compute; reflexivity|].
  eapply (angelus_registry ex_info #"/run" (Some (mkToy ∅ ∅)) [] 0 ex_requests). repeat constructor.
Defined.

(** A shutdown: the agents that die within the grace are gone, one that does
    not stays registered, and so does one whose registration raced it. *)
Definition ex_slow (early : bool) (dies : gostr -> bool) : env :=
  mkEnv (eConfig ex_env) (eLoad ex_env) (eFactory ex_env) (eGetenv ex_env) (eGetwd ex_env) (eStat ex_env) (eUUID ex_env)
    (eNow ex_env) (eValueHash ex_env) (eTemplates ex_env) (isAlive ex_env) (pidStartTime ex_env) (eCoordinate ex_env)
    (FigaroSocketDir ex_env) (availableProviders ex_env) early dies.
Example ex_shutdown :
  let agents s := map fst (map_to_list (figaros (sReg s))) in
  let stop dies := serve ex_info ex_server (ex_slow false dies, RShutdown) in
  agents ex_server = [ex_id] /\ agents (stop (fun _ => true)) = [] /\
  agents (stop (fun _ => false)) = [ex_id] /\
  agents (serve ex_info (stop (fun _ => false)) (ex_env, RLateKill ex_id)) = [] /\
  agents (serve ex_info (stop (fun _ => true)) (ex_slow true (fun _ => true), RAttach ex_id)) = [ex_id].
Proof. vm_compute. by split_and!. Qed.

Lemma ex_reg_ok : reg_ok false #"/run" (sReg ex_server).
Proof. apply after_reg. by repeat constructor. Qed.

(** A live agent and the dormant fork of its conversation. *)
Lemma angelus_list_witness :
  map rID (snd (handle_list ex_info ex_env false false ex_server)) = [ex_id; #"xx"] /\
  NoDup (map rID (snd (handle_list ex_info ex_env false false ex_server))).
Proof.
  split; [vm_compute; reflexivity|]. eapply (angelus_list ex_info #"/run"); [exact ex_reg_ok|reflexivity].
Defined.

Definition ex_backend : toy := default (mkToy ∅ ∅) (sBackend ex_server).

Lemma some_default {A} (o : option A) d : (if o is Some _ then true else false) = true -> o = Some (default d o).
Proof. by destruct o. Qed.

Lemma ex_backend_of : sBackend ex_server = Some ex_backend.
Proof. apply some_default. vm_compute. reflexivity. Qed.

Lemma ex_board : tBoards ex_backend !! #"xx" = Some (default ∅ (tBoards ex_backend !! #"xx")).
Proof. apply some_default. vm_compute. reflexivity. Qed.

Lemma toy_applies (b : toy) id p : sound b -> writable p -> alive b id -> snd (ApplyChalkboard b id p) = true.
Proof. destruct b as [bs ms]. intros _ _ [snap Hs]. cbn in *. by rewrite Hs. Qed.

Lemma toy_empty_knows : knows (mkToy ∅ ∅).
Proof. split; [done|]. intros id snap Hs. cbn in Hs. by rewrite lookup_empty in Hs. Qed.

Lemma ex_speaks : Forall well_behaved ex_requests.
Proof.
  constructor; [|by repeat constructor]. split; [done|]. split; [done|]. intros name p. cbn [eLoad ex_env fst].
  case_bool_decide as E; [|done]. intros _. split; [done|]. rewrite E. lit_ok.
Qed.

Lemma angelus_identity_witness : names_it #"xx" (default ∅ (tBoards ex_backend !! #"xx")).
Proof.
  exact (proj1 (angelus_identity ex_info (mkToy ∅ ∅) [] 0 ex_requests toy_applies toy_empty_knows ex_speaks)
    ex_backend #"xx" _ ex_backend_of ex_board).
Defined.

(** The process 13 is dead by then. *)
Definition ex_restarted : toy := mkToy {[ex_id := ∅]} ∅.

Lemma angelus_bindings_witness :
  let s := RestoreBindings ex_env (saved_bindings ex_info ex_env (sReg ex_server)) (started (Some ex_restarted) [] 0) in
  pidToFigaro (sReg s) !! 7 = Some ex_id /\ pidToFigaro (sReg s) !! 13 = None.
Proof.
  cbv zeta. split; [|vm_compute; reflexivity].
  refine (proj2 (proj1 (angelus_bindings ex_info #"/run" ex_env ex_env ex_server ex_restarted [] 0 ex_reg_ok
    (fun _ => eq_refl) eq_refl I 7 ex_id)) _).
  split; [vm_compute; reflexivity|]. split; [reflexivity|]. split; [right; reflexivity|vm_compute; reflexivity].
Defined.
