(* ===== verification/XwalStore.v ===== *)
(** * store: the tree of conversations (src/internal/store/xwal_store.go)

    figaro keeps its conversations as trunks of a tree that a library (figwal)
    maintains on disk: the class [Figwal].  The store is policy over it: loadouts
    are stumps named after their contents, conversations are spawned under them,
    forks are trunks.  Its views of the forest are computed from the tree once
    per version ([snapshot_topology]); [vectorsLocked] gives every trunk its
    place.  [TreeLaws] and [StumpLaws] are what the store relies on; the mutex is
    not modelled, each operation is atomic under it. *)

From S2P Require Import Prelude Utf8 GoStrings Json GoJson RawJson Message PatchJson Chalkboard Angelus.

(** ** The tree of trunks, a library the store is written against *)

(** xwal.Record, TrunkInfo, Owner *)
Record xrecord := mkRecord { ChannelLT : Z; MainLT : Z; rPayload : gostr; rMeta : gostr }.
Record TrunkInfo := mkTrunk { tID : gostr; tParent : gostr; tStump : gostr; tBranchedLT : Z }.
Record xOwner := mkXOwner { xTrunk : gostr; xStump : gostr; xIsRoot : bool }.

(** xwal.Store [X] and the handle [N] of a trunk's head.  [None] and [false]
    are errors; Promote's third outcome is xwal.ErrAtStump. *)
Class Figwal (X N : Type) := {
  Head : X -> gostr -> option N;
  Channels : N -> list (gostr * Z * Z);               (* name, first and last LT *)
  ReadAt : N -> gostr -> Z -> option xrecord;
  ChannelLookup : N -> gostr -> Z -> option xrecord;
  Stumps : X -> list gostr;
  ListLight : X -> list TrunkInfo;
  TreeVersion : X -> Z;
  TreeOwner : X -> gostr -> Z -> option xOwner;
  CreateStump : X -> gostr -> X * bool;
  StumpHead : X -> gostr -> bool;
  StumpAppendMain : X -> gostr -> gostr -> X * option Z;
  StumpAppend : X -> gostr -> gostr -> Z -> gostr -> X * bool;
  StumpFlush : X -> gostr -> X * bool;
  SpawnUnderStump : X -> gostr -> X * option gostr;
  SpawnUnderRoot : X -> X * option gostr;
  ForkTail : X -> gostr -> X * option gostr;
  TreeForkAt : X -> gostr -> Z -> X * option gostr;
  TreePromote : X -> gostr -> Z -> X * promoted;
  TreeAppend : X -> gostr -> gostr -> Z -> gostr -> gostr -> X * option Z;
  TreeClear : X -> gostr -> gostr -> X * bool;
  TreeRemove : X -> gostr -> bool -> X * bool;
  ValueHash : gostr -> option gostr }.                 (* segment.ValueHash *)

Definition chanIR := #"ir".
Definition chanChalkboard := #"chalkboard".
Definition keyLoadoutName := #"system.loadout_name".
Definition keyLoadoutVer := #"system.loadout_version".
Definition rootID := #"null".

(** func transChannel *)
Definition transChannel (provider : gostr) : gostr := #"translations-v2/" ++ provider.

(** func chalkboardReduce: what the tree folds over the chalkboard channel. *)
Definition raw_snapshot (state : gostr) : option snapshot :=
  match state with
  | [] => Some ∅
  | _ => match UnmarshalRaw raw_map state ∅ with (m, true) => Some m | (_, false) => None end
  end.
Definition chalkboardReduce (state patch : gostr) : option gostr :=
  snap ← raw_snapshot state; p ← unmarshal_patch patch; marshal_set (Snapshot.Apply snap p).

(** ** Views of the tree *)

(** A NodeView whose fields the tree does not fill are zero. *)
Record topologySnapshot := mkTopology {
  tpVersion : Z; nodes : list NodeView; conversations : list NodeView; conversationIDs : list gostr;
  byID : gmap gostr NodeView }.

Record XwalStore (X : Type) := mkXwalStore { trunks : X; topology : option topologySnapshot }.
#[global] Arguments mkXwalStore {X}. #[global] Arguments trunks {X}. #[global] Arguments topology {X}.

(** func loadoutStump, splitLoadoutKey *)
Definition loadoutStump (name ver : gostr) : gostr := name ++ #"@" ++ ver.
Fixpoint split_at_last (rev_key after : gostr) : option (gostr * gostr) :=
  match rev_key with
  | [] => None
  | c :: r => if Byte.eqb c x40 then Some (rev r, after) else split_at_last r (c :: after)
  end.
Definition splitLoadoutKey (key : gostr) : gostr * gostr :=
  default (key, []) (split_at_last (rev key) []).

(** func (s *XwalStore) view *)
Definition view (t : TrunkInfo) (vec : gmap gostr (list Z)) : NodeView :=
  let parent := if bool_decide (tParent t = [])
                then (if bool_decide (tStump t = []) then rootID else tStump t) else tParent t in
  mkNode (tID t) parent conversationKind [] [] false (tID t) (default [] (vec !! tID t)) (tBranchedLT t).

(** The sorted children of each trunk and the sorted top-level trunks. *)
Definition forest_kids (infos : list TrunkInfo) : gmap gostr (list gostr) :=
  let live := list_to_set (map tID infos) : gset gostr in
  sort_strings <$> foldl (fun kids ti =>
    if bool_decide (tParent ti <> [] /\ tParent ti ∈ live)
    then <[tParent ti := default [] (kids !! tParent ti) ++ [tID ti]]> kids else kids) ∅ infos.
Definition forest_roots (infos : list TrunkInfo) : list gostr :=
  let live := list_to_set (map tID infos) : gset gostr in
  sort_strings (map tID (filter (fun ti => ~ (tParent ti <> [] /\ tParent ti ∈ live)) infos)).

(** The inner function assign, cut off by fuel. *)
Fixpoint assign (fuel : nat) (kids : gmap gostr (list gostr)) (prefix : list Z) (id : gostr)
  (vec : gmap gostr (list Z)) : gmap gostr (list Z) :=
  match fuel with
  | O => vec
  | S fuel =>
      fst (foldl (fun '(vec, i) c => (assign fuel kids (prefix ++ [i]) c vec, i + 1))
             (<[id := prefix]> vec, 0) (default [] (kids !! id)))
  end.

(** func (s *XwalStore) vectorsLocked *)
Definition vectorsLocked (infos : list TrunkInfo) : gmap gostr (list Z) :=
  fst (foldl (fun '(vec, i) r => (assign (length infos) (forest_kids infos) [i] r vec, i + 1)) (∅, 0)
         (forest_roots infos)).

Section store.
Context {X N : Type} `{!Figwal X N}.
#[local] Abbreviation XwalStore := (XwalStore X).

Definition with_trunks (x : X) (s : XwalStore) : XwalStore := mkXwalStore x (topology s).

(** func (s *XwalStore) topologySnapshot: what it builds when the tree's
    version is not that of the last snapshot. *)
Definition loadout_node (stump : gostr) : NodeView :=
  let '(name, ver) := splitLoadoutKey stump in mkNode stump rootID loadoutKind name ver false [] [] 0.
Definition root_node : NodeView := mkNode rootID [] nullKind [] [] false rootID [] 0.
Definition fresh_topology (x : X) : topologySnapshot :=
  let infos := ListLight x in
  let vec := vectorsLocked infos in
  let conversations := map (fun t => view t vec) infos in
  let nodes := conversations ++ root_node :: map loadout_node (Stumps x) in
  mkTopology (TreeVersion x) nodes conversations (map nID conversations)
    (foldl (fun m n => <[nID n := n]> m) ∅ nodes).
Definition snapshot_topology (s : XwalStore) : XwalStore * topologySnapshot :=
  match topology s with
  | Some t => if tpVersion t =? TreeVersion (trunks s) then (s, t) else
              let t := fresh_topology (trunks s) in (mkXwalStore (trunks s) (Some t), t)
  | None => let t := fresh_topology (trunks s) in (mkXwalStore (trunks s) (Some t), t)
  end.

(** func (s *XwalStore) Conversations, ConversationIDs, Nodes, Node *)
Definition store_Conversations (s : XwalStore) : XwalStore * list NodeView :=
  let '(s, t) := snapshot_topology s in (s, conversations t).
Definition store_ConversationIDs (s : XwalStore) : XwalStore * list gostr :=
  let '(s, t) := snapshot_topology s in (s, conversationIDs t).
Definition store_Nodes (s : XwalStore) : XwalStore * list NodeView :=
  let '(s, t) := snapshot_topology s in (s, nodes t).
Definition store_Node (id : gostr) (s : XwalStore) : XwalStore * option NodeView :=
  let '(s, t) := snapshot_topology s in (s, byID t !! id).

(** func (s *XwalStore) OpenNode *)
Definition OpenNode (s : XwalStore) (id : gostr) : option N := Head (trunks s) id.

(** func contentVersion, stampLoadout *)
Definition contentVersion (p : Patch) : option gostr := body ← marshal_patch p; ValueHash body.
Definition stampLoadout (p : Patch) (name ver : gostr) : Patch :=
  mkPatch (<[keyLoadoutVer := marshal_string ver]> (<[keyLoadoutName := marshal_string name]> (pSet p))) (pRemove p).

(** func (s *XwalStore) writeStumpBirth; [gen] is the JSON of the birth message. *)
Definition writeStumpBirth (gen stump : gostr) (p : Patch) (s : XwalStore) : XwalStore * bool :=
  if negb (StumpHead (trunks s) stump) then (s, false) else
  match StumpAppendMain (trunks s) stump gen with
  | (x, None) => (with_trunks x s, false)
  | (x, Some glt) =>
      match StumpAppend x stump chanChalkboard glt (default [] (marshal_patch p)) with
      | (x, false) => (with_trunks x s, false)
      | (x, true) => let '(x, ok) := StumpFlush x stump in (with_trunks x s, ok)
      end
  end.

(** func (s *XwalStore) CreateLoadout *)
Definition store_CreateLoadout (gen name : gostr) (p : Patch) (s : XwalStore) : XwalStore * option gostr :=
  match contentVersion p with
  | None => (s, None)
  | Some ver =>
      let stump := loadoutStump name ver in
      if bool_decide (stump ∈ Stumps (trunks s)) then (s, Some stump) else
      match CreateStump (trunks s) stump with
      | (x, false) => (with_trunks x s, None)
      | (x, true) =>
          match writeStumpBirth gen stump (stampLoadout p name ver) (with_trunks x s) with
          | (s, true) => (s, Some stump)
          | (s, false) => (s, None)
          end
      end
  end.

(** func (s *XwalStore) CreateConversation, Fork, ForkAt, Promote, RemoveLeaf *)
Definition store_CreateConversation (loadoutID : gostr) (s : XwalStore) : XwalStore * option gostr :=
  let '(x, id) := SpawnUnderStump (trunks s) loadoutID in (with_trunks x s, id).
Definition store_Fork (id : gostr) (s : XwalStore) : XwalStore * option (gostr * gostr) :=
  let '(x, alt) := ForkTail (trunks s) id in (with_trunks x s, (fun alt => (id, alt)) <$> alt).
Definition fork_owner (id : gostr) (lt : Z) (o : xOwner) (x : X) : X * option gostr :=
  if xIsRoot o then SpawnUnderRoot x else
  if bool_decide (xStump o <> []) then SpawnUnderStump x (xStump o) else TreeForkAt x id lt.
Definition store_ForkAt (id : gostr) (lt : Z) (s : XwalStore) : XwalStore * option (gostr * gostr) :=
  match TreeOwner (trunks s) id lt with
  | None => (s, None)
  | Some o => let '(x, alt) := fork_owner id lt o (trunks s) in (with_trunks x s, (fun alt => (id, alt)) <$> alt)
  end.
Definition store_Promote (id : gostr) (levels : Z) (s : XwalStore) : XwalStore * promoted :=
  let '(x, r) := TreePromote (trunks s) id levels in (with_trunks x s, r).
Definition OwnerOf (s : XwalStore) (id : gostr) (lt : Z) : option xOwner := TreeOwner (trunks s) id lt.
Definition RemoveLeaf (id : gostr) (recursive : bool) (s : XwalStore) : XwalStore * bool :=
  let '(x, ok) := TreeRemove (trunks s) id recursive in (with_trunks x s, ok).
End store.

(** ** Fork vectors *)

Section vectors.
Context (infos : list TrunkInfo) (Hids : NoDup (map tID infos)).
#[local] Abbreviation kids := (forest_kids infos).
#[local] Abbreviation roots := (forest_roots infos).
#[local] Abbreviation live := (list_to_set (map tID infos) : gset gostr).

(** A trunk that branches off another trunk of the list. *)
Definition branches (t : TrunkInfo) : Prop := tParent t <> [] /\ tParent t ∈ live.

(** The place of a trunk: its index among the sorted top-level trunks, then at
    every fork its index among the sorted branches. *)
Inductive placed : gostr -> list Z -> Prop :=
| placed_root i r : roots !! i = Some r -> placed r [Z.of_nat i]
| placed_child p v l k c : placed p v -> kids !! p = Some l -> l !! k = Some c ->
    placed c (v ++ [Z.of_nat k]).

Definition kids_of (l : list TrunkInfo) (p : gostr) : list gostr :=
  map tID (filter (fun t => branches t /\ tParent t = p) l).

Lemma kids_fold (l : list TrunkInfo) (m : gmap gostr (list gostr)) (p : gostr) :
  default [] (foldl (fun kids ti => if bool_decide (tParent ti <> [] /\ tParent ti ∈ live)
    then <[tParent ti := default [] (kids !! tParent ti) ++ [tID ti]]> kids else kids) m l !! p) =
  default [] (m !! p) ++ kids_of l p.
Proof.
  revert m. induction l as [|t l IH]; intros m; cbn [foldl]; [by rewrite app_nil_r|].
  rewrite IH. unfold kids_of. rewrite filter_cons. fold (branches t). case_bool_decide as Hb.
  - destruct (decide (tParent t = p)) as [<-|Hp].
    + rewrite lookup_insert_eq, decide_True by done. cbn [from_option id map]. by rewrite <-app_assoc.
    + rewrite lookup_insert_ne by done. rewrite decide_False by naive_solver. done.
  - rewrite decide_False by naive_solver. done.
Qed.

Lemma kids_lookup p : default [] (kids !! p) = sort_strings (kids_of infos p).
Proof.
  unfold forest_kids. rewrite lookup_fmap. pose proof (kids_fold infos ∅ p) as H.
  rewrite lookup_empty in H. cbn [from_option id app] in H. rewrite <-H. by destruct (_ !! p).
Qed.

Lemma kids_in p l : kids !! p = Some l -> l = sort_strings (kids_of infos p).
Proof. intros H. pose proof (kids_lookup p) as E. by rewrite H in E. Qed.

Lemma elem_of_kids p l c : kids !! p = Some l -> c ∈ l <-> exists t, t ∈ infos /\ tID t = c /\ branches t /\ tParent t = p.
Proof.
  intros ->%kids_in. rewrite elem_of_sort_strings. unfold kids_of. rewrite list_elem_of_fmap.
  setoid_rewrite list_elem_of_filter. naive_solver.
Qed.

Lemma elem_of_roots c : c ∈ roots <-> exists t, t ∈ infos /\ tID t = c /\ ~ branches t.
Proof.
  unfold forest_roots. rewrite elem_of_sort_strings, list_elem_of_fmap.
  setoid_rewrite list_elem_of_filter. unfold branches. naive_solver.
Qed.

Lemma sub_NoDup (P : TrunkInfo -> Prop) `{forall t, Decision (P t)} : NoDup (sort_strings (map tID (filter P infos))).
Proof.
  rewrite sort_strings_perm. revert Hids. generalize infos. clear. intros l.
  induction l as [|t l IH]; cbn [map]; intros Hn; [constructor|].
  apply NoDup_cons in Hn as [Ht Hn]. rewrite filter_cons. case_decide; [|by apply IH].
  cbn [map]. constructor; [|by apply IH]. intros (t' & E & [_ Ht']%list_elem_of_filter)%list_elem_of_fmap.
  apply Ht. rewrite E. by apply list_elem_of_fmap_2.
Qed.

Lemma same_trunk t t' : t ∈ infos -> t' ∈ infos -> tID t = tID t' -> t = t'.
Proof.
  clear -Hids. revert Hids. induction infos as [|u l IH]; cbn [map]; intros Hn; [by intros ?%not_elem_of_nil|].
  apply NoDup_cons in Hn as [Hu Hn]. rewrite !elem_of_cons. intros [->|Ht] [->|Ht'] E; [done| | |by apply IH].
  - destruct Hu. rewrite E. by apply list_elem_of_fmap_2.
  - destruct Hu. rewrite <-E. by apply list_elem_of_fmap_2.
Qed.

Lemma placed_len x v : placed x v -> v <> [].
Proof. destruct 1; [done|]. by destruct v. Qed.

Lemma placed_live x v : placed x v -> x ∈ map tID infos.
Proof.
  destruct 1 as [i r Hr|p v l k c _ Hl Hc].
  - apply list_elem_of_lookup_2, elem_of_roots in Hr as (t & Ht & <- & _). by apply list_elem_of_fmap_2.
  - apply list_elem_of_lookup_2 in Hc. apply (elem_of_kids p l c Hl) in Hc as (t & Ht & <- & _). by apply list_elem_of_fmap_2.
Qed.

(** How a trunk got the place it has. *)
Lemma placed_inv x v : placed x v -> exists w k, v = w ++ [Z.of_nat k] /\
  ((w = [] /\ roots !! k = Some x) \/ (exists p l, placed p w /\ kids !! p = Some l /\ l !! k = Some x)).
Proof.
  destruct 1 as [i r Hr|p v l k c Hp Hl Hc]; [exists [], i; auto|]. exists v, k. split; [done|]. right. eauto.
Qed.

Lemma snoc_inj (w w' : list Z) k k' : w ++ [Z.of_nat k] = w' ++ [Z.of_nat k'] -> w = w' /\ k = k'.
Proof. intros [-> E]%app_inj_tail. split; [done|lia]. Qed.

(** No top-level trunk branches off another. *)
Lemma root_not_kid r i p l k : roots !! i = Some r -> kids !! p = Some l -> l !! k = Some r -> False.
Proof.
  intros Hr%list_elem_of_lookup_2 Hl Hc%list_elem_of_lookup_2. apply elem_of_roots in Hr as (t & Ht & Et & Hb).
  apply (elem_of_kids p l r Hl) in Hc as (t' & Ht' & Et' & Hb' & _). by rewrite (same_trunk t t') in Hb by congruence.
Qed.

(** A branch is the child of one trunk, once. *)
Lemma one_parent p p' l l' k k' c : kids !! p = Some l -> kids !! p' = Some l' -> l !! k = Some c -> l' !! k' = Some c ->
  p = p' /\ k = k'.
Proof.
  intros Hl Hl' Hc Hc'. pose proof Hc as H1%list_elem_of_lookup_2. pose proof Hc' as H2%list_elem_of_lookup_2.
  apply (elem_of_kids p l c Hl) in H1 as (t & Ht & Et & _ & Ep).
  apply (elem_of_kids p' l' c Hl') in H2 as (t' & Ht' & Et' & _ & Ep').
  assert (t = t') as <- by (apply same_trunk; congruence). assert (p = p') as <- by congruence. split; [done|].
  rewrite Hl in Hl'. injection Hl' as <-. eapply (NoDup_lookup l); [|done|done]. rewrite (kids_in _ _ Hl). apply sub_NoDup.
Qed.

(** A trunk has one place. *)
Lemma placed_fun x v w : placed x v -> placed x w -> v = w.
Proof.
  intros Hv. revert w. induction Hv as [i r Hr|p v l k c Hp IH Hl Hc];
    intros w' (w & k' & -> & [(-> & Hr')|(p' & l' & Hp' & Hl' & Hc')])%placed_inv.
  - cbn [app]. do 2 f_equal. by eapply (NoDup_lookup roots); [apply sub_NoDup| |].
  - by destruct (root_not_kid r i p' l' k').
  - by destruct (root_not_kid c k' p l k).
  - destruct (one_parent p p' l l' k k' c) as [<- <-]; [done..|]. by rewrite (IH _ Hp').
Qed.

(** So a place is no deeper than there are trunks. *)
Lemma placed_chain x v : placed x v ->
  exists l, NoDup l /\ length l = length v /\ l ⊆ map tID infos /\
    Forall (fun y => exists w, placed y w /\ (length w <= length v)%nat) l.
Proof.
  induction 1 as [i r Hr|p v l k c Hp (ch & Hn & Hl & Hs & Hf) Hk Hc].
  - exists [r]. assert (placed r [Z.of_nat i]) as Hpl by by constructor. split_and!; [apply NoDup_singleton|done| |].
    + intros y ->%list_elem_of_singleton. by eapply placed_live.
    + constructor; [|done]. eauto.
  - assert (placed c (v ++ [Z.of_nat k])) as Hpl by by econstructor.
    exists (c :: ch). rewrite length_app. cbn [length]. split_and!; [|lia| |].
    + constructor; [|done]. intros Hin. rewrite Forall_forall in Hf. destruct (Hf _ Hin) as (w & Hw & Hlen).
      rewrite (placed_fun _ _ _ Hw Hpl), length_app in Hlen. cbn in Hlen. lia.
    + intros y [->|Hy]%elem_of_cons; [by eapply placed_live|by apply Hs].
    + constructor; [exists (v ++ [Z.of_nat k]); by rewrite length_app|].
      eapply Forall_impl; [done|]. cbn. intros y (w & Hw & ?). exists w. split; [done|lia].
Qed.

Lemma placed_depth x v : placed x v -> (length v <= length infos)%nat.
Proof.
  intros (l & Hn & <- & Hs & _)%placed_chain. rewrite <-(length_map tID infos).
  by apply submseteq_length, NoDup_submseteq.
Qed.

(** The way down from a trunk. *)
Inductive descends : gostr -> list Z -> gostr -> Prop :=
| desc_here x : descends x [] x
| desc_down x l k c path y : kids !! x = Some l -> l !! k = Some c -> descends c path y ->
    descends x (Z.of_nat k :: path) y.

Lemma descends_snoc x path y l k c : descends x path y -> kids !! y = Some l -> l !! k = Some c ->
  descends x (path ++ [Z.of_nat k]) c.
Proof. induction 1; intros; cbn; econstructor; eauto. constructor. Qed.

Lemma placed_descends x v : placed x v ->
  exists i r path, v = Z.of_nat i :: path /\ roots !! i = Some r /\ descends r path x.
Proof.
  induction 1 as [i r Hr|p v l k c Hp (i & r & path & -> & Hr & Hd) Hl Hc].
  - exists i, r, []. split_and!; [done|done|constructor].
  - exists i, r, (path ++ [Z.of_nat k]). split_and!; [done|done|]. by eapply descends_snoc.
Qed.

(** Running over the children, or the roots, with their index. *)
Section indexed.
Context (f : list Z -> gostr -> gmap gostr (list Z) -> gmap gostr (list Z)) (pre : list Z).
#[local] Abbreviation run := (foldl (fun '(vec, i) c => (f (pre ++ [i]) c vec, i + 1))).

Lemma run_keeps (P : gmap gostr (list Z) -> Prop) l i vec :
  (forall k c vec, l !! k = Some c -> P vec -> P (f (pre ++ [i + Z.of_nat k]) c vec)) -> P vec -> P (run (vec, i) l).1.
Proof.
  revert i vec. induction l as [|c l IH]; intros i vec Hf Hv; cbn [foldl]; [done|].
  apply IH.
  - intros k c' vec' Hk Hp. replace (i + 1 + Z.of_nat k) with (i + Z.of_nat (S k)) by lia. by apply Hf.
  - specialize (Hf 0%nat c vec eq_refl Hv). by rewrite Z.add_0_r in Hf.
Qed.

Lemma run_reaches (Q : gmap gostr (list Z) -> Prop) l i vec k c :
  l !! k = Some c -> (forall vec, Q (f (pre ++ [i + Z.of_nat k]) c vec)) ->
  (forall k c vec, Q vec -> Q (f (pre ++ [k]) c vec)) -> Q (run (vec, i) l).1.
Proof.
  revert i vec k. induction l as [|c' l IH]; intros i vec k Hk Hq Hf; [done|]. cbn [foldl].
  destruct k as [|k].
  - cbn in Hk. injection Hk as ->. specialize (Hq vec). rewrite Z.add_0_r in Hq.
    apply run_keeps; [|done]. intros k c' vec' _. apply Hf.
  - apply (IH _ _ k); [done| |done]. intros vec'. by replace (i + 1 + Z.of_nat k) with (i + Z.of_nat (S k)) by lia.
Qed.
End indexed.

Definition right_so_far (vec : gmap gostr (list Z)) : Prop := forall x v, vec !! x = Some v -> placed x v.

Lemma assign_right fuel pre id vec : placed id pre -> right_so_far vec -> right_so_far (assign fuel kids pre id vec).
Proof.
  revert pre id vec. induction fuel as [|fuel IH]; intros pre id vec Hp Hv; [done|]. cbn [assign].
  apply (run_keeps (assign fuel kids)).
  - intros k c vec' Hk Hv'. apply IH; [|done]. rewrite Z.add_0_l.
    destruct (kids !! id) as [l|] eqn:El; [|done]. by eapply placed_child.
  - intros x v [[<- <-]|[_ Hx]]%lookup_insert_Some; [done|by apply Hv].
Qed.

Lemma assign_grows fuel pre id x vec : is_Some (vec !! x) -> is_Some (assign fuel kids pre id vec !! x).
Proof.
  revert pre id vec. induction fuel as [|fuel IH]; intros pre id vec Hx; [done|]. cbn [assign].
  apply (run_keeps (assign fuel kids) _ (fun vec => is_Some (vec !! x))); [by intros; apply IH|].
  rewrite lookup_insert_is_Some'. by right.
Qed.

Lemma assign_reaches fuel pre id path x vec : descends id path x -> (length path < fuel)%nat ->
  is_Some (assign fuel kids pre id vec !! x).
Proof.
  revert pre id path vec. induction fuel as [|fuel IH]; intros pre id path vec Hd Hl; [lia|]. cbn [assign].
  destruct Hd as [x|x l k c path y Hk Hc Hd].
  - apply (run_keeps (assign fuel kids) _ (fun vec => is_Some (vec !! x))); [by intros; apply assign_grows|].
    rewrite lookup_insert_is_Some'. by left.
  - rewrite Hk. apply (run_reaches (assign fuel kids) _ (fun vec => is_Some (vec !! y)) _ _ _ k c); [done| |].
    + intros vec'. eapply IH; [done|]. cbn in Hl. lia.
    + intros. by apply assign_grows.
Qed.

(** The vectors are exactly the places. *)
Lemma vectors_placed x v : vectorsLocked infos !! x = Some v <-> placed x v.
Proof.
  assert (right_so_far (vectorsLocked infos)) as Hr.
  { unfold vectorsLocked. apply (run_keeps (assign (length infos) kids) []); [|by intros ? ? ?%lookup_empty_Some].
    intros k c vec Hk Hv. apply assign_right; [|done]. by apply placed_root. }
  split; [apply Hr|]. intros Hp.
  assert (is_Some (vectorsLocked infos !! x)) as [w Hw].
  { pose proof (placed_depth _ _ Hp) as Hd. destruct (placed_descends _ _ Hp) as (i & r & path & -> & Hi & Hs).
    unfold vectorsLocked. apply (run_reaches (assign (length infos) kids) [] (fun vec => is_Some (vec !! x)) _ _ _ i r); [done| |].
    - intros vec. eapply assign_reaches; [done|]. cbn in Hd. lia.
    - intros. by apply assign_grows. }
  rewrite Hw. f_equal. by eapply placed_fun; [apply Hr|].
Qed.

(** Two trunks never share a place. *)
Lemma placed_inj x y v : placed x v -> placed y v -> x = y.
Proof.
  intros Hx. revert y. induction Hx as [i r Hr|p v l k c Hp IH Hl Hc];
    intros y (w & k' & E & [(-> & Hr')|(p' & l' & Hp' & Hl' & Hc')])%placed_inv.
  - apply (snoc_inj []) in E as [_ <-]. congruence.
  - apply (snoc_inj []) in E as [<- _]. by apply placed_len in Hp'.
  - apply snoc_inj in E as [-> _]. by apply placed_len in Hp.
  - apply snoc_inj in E as [<- <-]. rewrite (IH _ Hp') in Hl. congruence.
Qed.

(** A trunk under others up to one that branches off none has a place. *)
Inductive rooted : gostr -> Prop :=
| rooted_top t : t ∈ infos -> ~ branches t -> rooted (tID t)
| rooted_under t : t ∈ infos -> branches t -> rooted (tParent t) -> rooted (tID t).

Lemma rooted_placed x : rooted x -> exists v, placed x v.
Proof.
  induction 1 as [t Ht Hb|t Ht Hb Hr (v & Hv)].
  - assert (tID t ∈ roots) as [i Hi]%list_elem_of_lookup by (apply elem_of_roots; eauto). eexists. by constructor.
  - assert (tID t ∈ kids_of infos (tParent t)) as Hin.
    { apply list_elem_of_fmap_2, list_elem_of_filter. done. }
    pose proof (kids_lookup (tParent t)) as Hk. rewrite <-elem_of_sort_strings, <-Hk in Hin.
    destruct (kids !! tParent t) as [l|] eqn:El; [|by apply not_elem_of_nil in Hin].
    apply list_elem_of_lookup in Hin as [k Hc]. eexists. by econstructor.
Qed.
End vectors.

Lemma sorted_nth (l : list gostr) i j x y : StronglySorted str_le l -> l !! i = Some x -> l !! j = Some y ->
  (i < j)%nat -> str_le x y.
Proof.
  intros Hs. revert i j. induction Hs as [|c l Hs IH Hf]; intros i j Hi Hj Hij; [done|].
  destruct i as [|i], j as [|j]; try lia; cbn in *.
  - injection Hi as <-. rewrite Forall_forall in Hf. by eapply Hf, list_elem_of_lookup_2.
  - by eapply (IH i j); [| |lia].
Qed.

(** Trunks at the same fork are listed together. *)
Lemma siblings infos x w k : NoDup (map tID infos) -> placed infos x (w ++ [k]) ->
  exists l n, StronglySorted str_le l /\ k = Z.of_nat n /\ l !! n = Some x /\
    forall y j, placed infos y (w ++ [j]) <-> exists m, j = Z.of_nat m /\ l !! m = Some y.
Proof.
  intros Hids (w' & n & E & [(-> & Hr)|(p & l & Hp & Hl & Hc)])%placed_inv; apply app_inj_tail in E as [E ->]; subst.
  - exists (forest_roots infos), n. split_and!; [apply sort_strings_sorted|done|done|]. intros y j. split.
    + intros (w & m & E & [(-> & Hr')|(p & l & Hp & Hl & Hc)])%placed_inv; apply app_inj_tail in E as [E ->]; [eauto|].
      subst. by apply placed_len in Hp.
    + intros (m & -> & Hm). by apply (placed_root infos).
  - exists l, n. split_and!; [rewrite (kids_in infos p l Hl); apply sort_strings_sorted|done|done|]. intros y j. split.
    + intros (w & m & E & [(-> & Hr)|(p' & l' & Hp' & Hl' & Hc')])%placed_inv; apply app_inj_tail in E as [E ->]; subst.
      * by apply placed_len in Hp.
      * exists m. rewrite (placed_inj infos _ _ _ Hp' Hp) in Hl'. split; [done|congruence].
    + intros (m & -> & Hm). by eapply placed_child.
Qed.

(** C9: in a forest of trunks every trunk gets a vector and no two share one: a
    top-level trunk one index, a branch the vector of the trunk it branches off
    followed by an index; and at every fork the indexes run from zero without
    gaps in the order of the ids. *)
Theorem xwal_vectors (infos : list TrunkInfo) (Hids : NoDup (map tID infos))
  (Hforest : Forall (fun t => rooted infos (tID t)) infos) :
  let vec := vectorsLocked infos in
  (forall x, is_Some (vec !! x) <-> x ∈ map tID infos) /\
  (forall x y v, vec !! x = Some v -> vec !! y = Some v -> x = y) /\
  (forall t, t ∈ infos -> ~ branches infos t -> exists k, vec !! tID t = Some [k]) /\
  (forall t, t ∈ infos -> branches infos t -> exists w k, vec !! tParent t = Some w /\ vec !! tID t = Some (w ++ [k])) /\
  (forall x w k, vec !! x = Some (w ++ [k]) -> 0 <= k /\ forall j, 0 <= j < k ->
     exists y, vec !! y = Some (w ++ [j]) /\ str_le y x).
Proof.
  cbv zeta. assert (forall x v, vectorsLocked infos !! x = Some v <-> placed infos x v) as Hv by (intros; by apply vectors_placed).
  split; [|split; [|split; [|split]]].
  - intros x. split; [intros [v Hx%Hv]; by eapply placed_live|]. intros (t & -> & Ht)%list_elem_of_fmap.
    rewrite Forall_forall in Hforest. destruct (rooted_placed infos (tID t)) as [v Hp]; [by apply Hforest|].
    exists v. by apply Hv.
  - intros x y v Hx%Hv Hy%Hv. by eapply placed_inj.
  - intros t Ht Hb. assert (tID t ∈ forest_roots infos) as [i Hi]%list_elem_of_lookup by (apply elem_of_roots; eauto).
    exists (Z.of_nat i). apply Hv. by constructor.
  - intros t Ht Hb. rewrite Forall_forall in Hforest. destruct (rooted_placed infos (tID t)) as [v Hp]; [by apply Hforest|].
    destruct (placed_inv _ _ _ Hp) as (w & k & -> & [(-> & Hr)|(p & l & Hw & Hl & Hc)]).
    + apply list_elem_of_lookup_2, elem_of_roots in Hr as (t' & Ht' & Et & Hn).
      by rewrite (same_trunk infos Hids t' t) in Hn.
    + exists w, (Z.of_nat k). rewrite !Hv. split; [|done].
      apply list_elem_of_lookup_2, (elem_of_kids infos p l _ Hl) in Hc as (t' & Ht' & Et & _ & <-).
      by rewrite (same_trunk infos Hids t' t) in Hw.
  - intros x w k Hx%Hv. destruct (siblings infos x w k Hids Hx) as (l & n & Hs & -> & Hn & Hsib). split; [lia|].
    intros j Hj. destruct (lookup_lt_is_Some_2 l (Z.to_nat j)) as [y Hy]; [apply lookup_lt_Some in Hn; lia|].
    exists y. rewrite Hv, Hsib. split; [exists (Z.to_nat j); split; [lia|done]|]. by eapply sorted_nth; [| | |]; [done..|lia].
Qed.

(** ** The cached topology *)

(** What a change of the tree does to its version. *)
Definition evolves {X N} `{!Figwal X N} (x x' : X) : Prop :=
  TreeVersion x < TreeVersion x' \/
  (TreeVersion x = TreeVersion x' /\ ListLight x = ListLight x' /\ Stumps x = Stumps x').

Definition hex_digit (c : byte) : Prop := 48 <= bz c <= 57 \/ 97 <= bz c <= 102.

(** The tree gets a new version whenever its trunks or stumps change; a content
    hash is hexadecimal. *)
Class TreeLaws (X N : Type) `{!Figwal X N} := {
  evolve_create x st : evolves x (CreateStump x st).1;
  evolve_stump_main x st g : evolves x (StumpAppendMain x st g).1;
  evolve_stump x st ch lt p : evolves x (StumpAppend x st ch lt p).1;
  evolve_flush x st : evolves x (StumpFlush x st).1;
  evolve_spawn x st : evolves x (SpawnUnderStump x st).1;
  evolve_root x : evolves x (SpawnUnderRoot x).1;
  evolve_fork x id : evolves x (ForkTail x id).1;
  evolve_fork_at x id lt : evolves x (TreeForkAt x id lt).1;
  evolve_promote x id n : evolves x (TreePromote x id n).1;
  evolve_append x id ch lt p m : evolves x (TreeAppend x id ch lt p m).1;
  evolve_clear x id ch : evolves x (TreeClear x id ch).1;
  evolve_remove x id r : evolves x (TreeRemove x id r).1;
  hash_hex v h : ValueHash v = Some h -> Forall hex_digit h }.

Section topology.
Context {X N : Type} `{!Figwal X N} `{!TreeLaws X N}.
#[local] Abbreviation XwalStore := (XwalStore X).

#[export] Instance evolves_preorder : PreOrder (@evolves X N _).
Proof.
  split; [by right|]. intros x y z [H1|(H1 & L1 & S1)] [H2|(H2 & L2 & S2)].
  1-3: left; lia.
  right. split_and!; congruence.
Qed.

(** A snapshot kept is no newer than the tree, and right if it is as new. *)
Definition topology_ok (s : XwalStore) : Prop :=
  match topology s with
  | None => True
  | Some t => tpVersion t <= TreeVersion (trunks s) /\
              (tpVersion t = TreeVersion (trunks s) -> t = fresh_topology (trunks s))
  end.

Lemma topology_evolves (s : XwalStore) x : topology_ok s -> evolves (trunks s) x -> topology_ok (with_trunks x s).
Proof.
  unfold topology_ok, with_trunks. cbn [topology trunks]. destruct (topology s) as [t|]; [|done].
  intros [Hle Heq] [Hlt|(Hv & Hl & Hs)]; [split; lia|]. split; [lia|]. intros E. rewrite Heq by lia.
  unfold fresh_topology. by rewrite Hv, Hl, Hs.
Qed.

(** A reader never sees another forest than the tree's. *)
Lemma snapshot_topology_ok (s : XwalStore) : topology_ok s ->
  let '(s', t) := snapshot_topology s in trunks s' = trunks s /\ topology_ok s' /\ t = fresh_topology (trunks s).
Proof.
  unfold snapshot_topology, topology_ok. destruct (topology s) as [t|] eqn:Et.
  - intros [Hle Heq]. destruct (Z.eqb_spec (tpVersion t) (TreeVersion (trunks s))); [rewrite Et; by split_and!; auto|by cbn].
  - by cbn.
Qed.

(** One call on the store. *)
Inductive store_op :=
| SCreateLoadout (gen name : gostr) (p : Patch) | SCreateConversation (loadout : gostr)
| SFork (id : gostr) | SForkAt (id : gostr) (lt : Z) | SPromote (id : gostr) (levels : Z)
| SRemove (id : gostr) (recursive : bool) | SAppend (id ch : gostr) (lt : Z) (payload meta : gostr)
| SClear (id ch : gostr) | SList.

Definition store_step (s : XwalStore) (o : store_op) : XwalStore :=
  match o with
  | SCreateLoadout gen name p => (store_CreateLoadout gen name p s).1
  | SCreateConversation l => (store_CreateConversation l s).1
  | SFork id => (store_Fork id s).1
  | SForkAt id lt => (store_ForkAt id lt s).1
  | SPromote id n => (store_Promote id n s).1
  | SRemove id rec => (RemoveLeaf id rec s).1
  | SAppend id ch lt p m => with_trunks (TreeAppend (trunks s) id ch lt p m).1 s
  | SClear id ch => with_trunks (TreeClear (trunks s) id ch).1 s
  | SList => (snapshot_topology s).1
  end.

Lemma birth_topology gen stump p (s : XwalStore) : topology_ok s -> topology_ok (writeStumpBirth gen stump p s).1.
Proof.
  intros Hs. unfold writeStumpBirth. destruct (StumpHead _ _); [|done]. cbn [negb].
  pose proof (evolve_stump_main (trunks s) stump gen) as H1. destruct (StumpAppendMain _ _ _) as [x1 [glt|]]; [|by apply topology_evolves].
  cbn [fst] in H1. pose proof (evolve_stump x1 stump chanChalkboard glt (default [] (marshal_patch p))) as H2.
  destruct (StumpAppend _ _ _ _ _) as [x2 [|]]; cbn [fst] in *; [|apply topology_evolves; [done|by etrans]].
  pose proof (evolve_flush x2 stump) as H3. destruct (StumpFlush x2 stump) as [x3 ok]. cbn [fst] in *.
  apply topology_evolves; [done|]. etrans; [done|]. by etrans.
Qed.

Lemma store_step_topology (s : XwalStore) o : topology_ok s -> topology_ok (store_step s o).
Proof.
  intros Hs. destruct o as [gen name p|l|id|id lt|id n|id rec|id ch lt p m|id ch|]; cbn [store_step].
  - unfold store_CreateLoadout. destruct (contentVersion p) as [ver|]; [|done]. cbv zeta.
    case_bool_decide; [done|]. pose proof (evolve_create (trunks s) (loadoutStump name ver)) as H1.
    destruct (CreateStump _ _) as [x [|]]; cbn [fst] in *; [|by apply topology_evolves].
    pose proof (birth_topology gen (loadoutStump name ver) (stampLoadout p name ver) (with_trunks x s)) as Hb.
    destruct (writeStumpBirth _ _ _ _) as [s' [|]]; cbn [fst] in *; by apply Hb, topology_evolves.
  - unfold store_CreateConversation. pose proof (evolve_spawn (trunks s) l) as H1. destruct (SpawnUnderStump _ _). by apply topology_evolves.
  - unfold store_Fork. pose proof (evolve_fork (trunks s) id) as H1. destruct (ForkTail _ _). by apply topology_evolves.
  - unfold store_ForkAt. destruct (TreeOwner _ _ _) as [o|]; [|done].
    assert (evolves (trunks s) (fork_owner id lt o (trunks s)).1) as H1.
    { unfold fork_owner. destruct (xIsRoot o); [apply evolve_root|]. case_bool_decide; [apply evolve_spawn|apply evolve_fork_at]. }
    destruct (fork_owner _ _ _ _). by apply topology_evolves.
  - unfold store_Promote. pose proof (evolve_promote (trunks s) id n) as H1. destruct (TreePromote _ _ _). by apply topology_evolves.
  - unfold RemoveLeaf. pose proof (evolve_remove (trunks s) id rec) as H1. destruct (TreeRemove _ _ _). by apply topology_evolves.
  - apply topology_evolves; [done|apply evolve_append].
  - apply topology_evolves; [done|apply evolve_clear].
  - pose proof (snapshot_topology_ok s Hs) as H1. destruct (snapshot_topology s). by destruct H1 as (_ & ? & _).
Qed.

Lemma store_steps_topology ops (s : XwalStore) : topology_ok s -> topology_ok (foldl store_step s ops).
Proof. revert s. induction ops as [|o ops IH]; intros s Hs; [done|]. cbn [foldl]. by apply IH, store_step_topology. Qed.
End topology.

Section topology_theorems.
Context {X N : Type} `{!Figwal X N} `{!TreeLaws X N}.
#[local] Abbreviation XwalStore := (XwalStore X).

Lemma split_at_last_app (r after p : gostr) : x40 ∉ r -> split_at_last (r ++ x40 :: p) after = Some (rev p, rev r ++ after).
Proof.
  revert after. induction r as [|c r IH]; intros after Hr; [done|]. apply not_elem_of_cons in Hr as [Hc Hr].
  cbn [app split_at_last rev]. destruct (Byte.eqb c x40) eqn:E; [by apply byte_eqb_eq in E|].
  rewrite IH by done. by rewrite <-app_assoc.
Qed.

(** A loadout's name and version are read back from its id. *)
Lemma split_loadout name ver : x40 ∉ ver -> splitLoadoutKey (loadoutStump name ver) = (name, ver).
Proof.
  intros Hv. unfold splitLoadoutKey, loadoutStump. rewrite !rev_app_distr. cbn [rev app].
  change (#"@") with [x40]. cbn [rev app]. rewrite <-app_assoc. cbn [app]. rewrite split_at_last_app.
  - cbn. by rewrite rev_involutive, app_nil_r, rev_involutive.
  - by rewrite list_elem_of_In, <-in_rev, <-list_elem_of_In.
Qed.

(** C10: whatever was done to the store, its cached views answer as the tree is
    now: the conversations with their current vectors, the root, the loadouts
    with the names and versions of their stumps; a node is found by its id. *)
Theorem xwal_topology (x : X) (ops : list store_op) :
  let s := foldl store_step (mkXwalStore x None) ops in
  let infos := ListLight (trunks s) in
  (store_Conversations s).2 = map (fun t => view t (vectorsLocked infos)) infos /\
  (store_ConversationIDs s).2 = map tID infos /\
  (store_Nodes s).2 = (store_Conversations s).2 ++ root_node :: map loadout_node (Stumps (trunks s)) /\
  (NoDup (map nID (store_Nodes s).2) -> forall n, (store_Node (nID n) s).2 = Some n <-> n ∈ (store_Nodes s).2).
Proof.
  cbv zeta. assert (topology_ok (foldl store_step (mkXwalStore x None) ops)) as Hs by by apply store_steps_topology.
  set (s := foldl store_step (mkXwalStore x None) ops) in *. pose proof (snapshot_topology_ok s Hs) as H.
  unfold store_Conversations, store_ConversationIDs, store_Nodes, store_Node. destruct (snapshot_topology s) as [s' t].
  destruct H as (_ & _ & ->). cbn [snd]. unfold fresh_topology. cbn [conversations conversationIDs nodes byID].
  split; [done|]. split; [by rewrite map_map|]. split; [done|]. set (ns := _ ++ _). intros Hn n.
  assert (foldl (fun (m : gmap gostr NodeView) n => <[nID n := n]> m) ∅ ns = list_to_map (rev (map (fun n => (nID n, n)) ns))) as ->.
  { clear. induction ns as [|n ns IH] using rev_ind; [done|]. rewrite foldl_app, map_app, rev_app_distr. cbn. by rewrite IH. }
  rewrite <-elem_of_list_to_map.
  - rewrite list_elem_of_In, <-in_rev, <-list_elem_of_In, list_elem_of_fmap. naive_solver.
  - change (NoDup (map fst (rev (map (fun n => (nID n, n)) ns)))). rewrite map_rev, <-Permutation_rev, map_map. exact Hn.
Qed.

(** Creating and appending keep the stumps there are. *)
Class StumpLaws (X N : Type) `{!Figwal X N} := {
  created_listed x st x' : CreateStump x st = (x', true) -> st ∈ Stumps x';
  main_keeps_stumps x st g : Stumps (StumpAppendMain x st g).1 = Stumps x;
  append_keeps_stumps x st ch lt p : Stumps (StumpAppend x st ch lt p).1 = Stumps x;
  flush_keeps_stumps x st : Stumps (StumpFlush x st).1 = Stumps x }.

Lemma birth_stumps `{!StumpLaws X N} gen stump p (s : XwalStore) :
  Stumps (trunks (writeStumpBirth gen stump p s).1) = Stumps (trunks s).
Proof.
  unfold writeStumpBirth. destruct (StumpHead _ _); [|done]. cbn [negb].
  pose proof (main_keeps_stumps (trunks s) stump gen) as H1. destruct (StumpAppendMain _ _ _) as [x1 [glt|]]; [|done].
  cbn [fst] in H1. pose proof (append_keeps_stumps x1 stump chanChalkboard glt (default [] (marshal_patch p))) as H2.
  destruct (StumpAppend _ _ _ _ _) as [x2 [|]]; cbn [fst] in *; [|cbn; congruence].
  pose proof (flush_keeps_stumps x2 stump) as H3. destruct (StumpFlush x2 stump) as [x3 ok]. cbn in *. congruence.
Qed.

End topology_theorems.

(** ** Witness *)

Definition ex_forest : list TrunkInfo :=
  [mkTrunk #"b" #"a" [] 3; mkTrunk #"a" [] #"home@1" 0; mkTrunk #"c" #"a" [] 5; mkTrunk #"d" #"gone" [] 0].

Lemma ex_forest_rooted : Forall (fun t => rooted ex_forest (tID t)) ex_forest.
Proof.
  assert (forall i t, ex_forest !! i = Some t -> t ∈ ex_forest) as Hin by (intros i t; apply list_elem_of_lookup_2).
  assert (#"a" ∈ (list_to_set (map tID ex_forest) : gset gostr)) as Ha.
  { apply elem_of_list_to_set, list_elem_of_In. cbn. auto. }
  assert (rooted ex_forest #"a") as Hr.
  { apply (rooted_top ex_forest (mkTrunk #"a" [] #"home@1" 0)); [by apply (Hin 1%nat)|by intros [? _]]. }
  repeat (apply Forall_cons; split); [| | | |constructor].
  - by apply (rooted_under ex_forest (mkTrunk #"b" #"a" [] 3)); [apply (Hin 0%nat)| |].
  - done.
  - by apply (rooted_under ex_forest (mkTrunk #"c" #"a" [] 5)); [apply (Hin 2%nat)| |].
  - apply (rooted_top ex_forest (mkTrunk #"d" #"gone" [] 0)); [by apply (Hin 3%nat)|].
    intros [_ H]. apply elem_of_list_to_set, list_elem_of_In in H. cbn in H. intuition discriminate.
Qed.

Lemma xwal_vectors_witness :
  vectorsLocked ex_forest !! #"c" = Some [0; 1] /\ vectorsLocked ex_forest !! #"d" = Some [1] /\
  is_Some (vectorsLocked ex_forest !! #"b").
Proof.
  split; [vm_compute; reflexivity|]. split; [vm_compute; reflexivity|].
  assert (NoDup (map tID ex_forest)) as Hn by (apply (bool_decide_unpack _); vm_compute; exact I).
  apply (xwal_vectors ex_forest Hn ex_forest_rooted), list_elem_of_In. cbn. auto.
Defined.
