(* ===== verification/XwalLog.v ===== *)
(** * store: logs on the tree (src/internal/store/xwal_log.go)

    [xwalLog] is Log[T] over one channel of a trunk: every call opens the head
    of the trunk and reads the channel record by record.  The JSON of a payload
    is the class [Codec]; [faithful] values are read back as written.
    [ContentLaws] is what the tree promises of the contents of channels. *)

From S2P Require Import Prelude Utf8 GoStrings Json GoJson RawJson Message PatchJson Chalkboard Store Angelus XwalStore.

(** ** JSON of a payload *)

(** encoding/json at the type of a log's payload; [json_zero] is its zero value. *)
Class Codec (T : Type) := {
  json_zero : T; json_Marshal : T -> option gostr; json_Unmarshal : gostr -> option T }.

(** A value that is read back as it was written. *)
Definition faithful {T} `{Codec T} (v : T) : Prop :=
  exists text, json_Marshal v = Some text /\ text <> [] /\ json_Unmarshal text = Some v.

(** func encodeMeta, decodeMeta *)
Definition encodeMeta (fp : gostr) : gostr := if bool_decide (fp = []) then [] else Print (JStr fp).
Definition decodeMeta (meta : gostr) : gostr :=
  if bool_decide (meta = []) then [] else fst (Unmarshal dec_string meta []).

(** func decodeRecord *)
Definition decodeRecord {T} `{Codec T} (r : xrecord) : option (Entry T) :=
  v ← (if bool_decide (rPayload r = []) then Some json_zero else json_Unmarshal (rPayload r));
  Some (mkEntry (ChannelLT r) (MainLT r) v (decodeMeta (rMeta r))).

(** ** Reading a channel *)

Section channels.
Context {X N : Type} `{!Figwal X N}.

(** The first and last LT of a channel; a channel that starts at LT 1 may
    report a first LT of 0. *)
Definition channel_window (n : N) (ch : gostr) : Z * Z :=
  match List.find (fun c => bool_decide (c.1.1 = ch)) (Channels n) with
  | Some (_, first, last) => (if (first =? 0) && (0 <? last) then 1 else first, last)
  | None => (0, 0)
  end.
Definition window_lts (w : Z * Z) : list Z :=
  let '(first, last) := w in
  if (first =? 0) || (last <? first) then [] else seqZ first (last - first + 1).
Definition records (n : N) (ch : gostr) : list xrecord := omap (ReadAt n ch) (window_lts (channel_window n ch)).

(** ** xwalLog *)

Record xwalLog := mkXwalLog { lStore : X; ariaID : gostr; channel : gostr; isMain : bool }.

(** func (l *xwalLog) Read, Len, ReadFrom, Lookup, PeekTail: each opens the
    head of the trunk, an error reading as an empty log. *)
Definition xwalLog_Read {T} `{Codec T} (l : xwalLog) : list (Entry T) :=
  match Head (lStore l) (ariaID l) with
  | Some n => omap decodeRecord (records n (channel l))
  | None => []
  end.
Definition xwalLog_Len (l : xwalLog) : nat :=
  match Head (lStore l) (ariaID l) with
  | Some n => length (window_lts (channel_window n (channel l)))
  | None => 0%nat
  end.
Definition xwalLog_ReadFrom {T} `{Codec T} (l : xwalLog) (figaroLT n : Z) : list (Entry T) :=
  match Head (lStore l) (ariaID l) with
  | Some h =>
      let found := omap decodeRecord (filter (fun r => figaroLT <= MainLT r) (records h (channel l))) in
      if 0 <? n then take (Z.to_nat n) found else found
  | None => []
  end.
Definition xwalLog_Lookup {T} `{Codec T} (l : xwalLog) (figaroLT : Z) : option (Entry T) :=
  h ← Head (lStore l) (ariaID l);
  r ← (match ChannelLookup h (channel l) figaroLT with
       | Some r => Some r
       | None => List.find (fun r => MainLT r =? figaroLT) (records h (channel l))
       end);
  decodeRecord r.
Definition xwalLog_PeekTail {T} `{Codec T} (l : xwalLog) : option (Entry T) :=
  h ← Head (lStore l) (ariaID l);
  let '(first, last) := channel_window h (channel l) in
  if (first =? 0) || (last <? first) then None else
  r ← ReadAt h (channel l) last; decodeRecord r.

(** func (l *xwalLog) Append: on the main channel the tree numbers the entry;
    on another the entry names the main LT it belongs to. *)
Definition xwalLog_Append {T} `{Codec T} (l : xwalLog) (e : Entry T) : xwalLog * option (Entry T) :=
  match json_Marshal (Payload e) with
  | None => (l, None)
  | Some payload =>
      let meta := encodeMeta (Fingerprint e) in
      let main := if isMain l then 0 else FigaroLT e in
      let '(x, r) := TreeAppend (lStore l) (ariaID l) (channel l) main payload meta in
      (mkXwalLog x (ariaID l) (channel l) (isMain l),
       (fun lt => mkEntry lt (if isMain l then lt else FigaroLT e) (Payload e) (Fingerprint e)) <$> r)
  end.
Definition xwalLog_Clear (l : xwalLog) : xwalLog * bool :=
  let '(x, ok) := TreeClear (lStore l) (ariaID l) (channel l) in
  (mkXwalLog x (ariaID l) (channel l) (isMain l), ok).

#[export] Instance xwalLog_ops {T} `{Codec T} : LogOps xwalLog T := {
  Read := xwalLog_Read;
  Len := xwalLog_Len;
  ReadFrom l k n := Some (xwalLog_ReadFrom l k n);
  ReadPage l from before n := readPage (xwalLog_Read l) from before n;
  Lookup := xwalLog_Lookup;
  PeekTail := xwalLog_PeekTail;
  Append := xwalLog_Append;
  Clear := xwalLog_Clear }.
End channels.
Arguments xwalLog : clear implicits.

(** ** What the tree promises of the contents of channels *)

(** The records of a channel as a trunk sees them, inherited ones included. *)
Definition chan {X N} `{!Figwal X N} (x : X) (id ch : gostr) : option (list xrecord) :=
  (fun n => records n ch) <$> Head x id.

(** The LT the next record of a channel gets. *)
Definition next_record (rs : list xrecord) : Z := match last rs with Some r => wrapu64 (ChannelLT r + 1) | None => 1 end.

(** The main LT of a record appended to another channel. *)
Definition main_lt {X N} `{!Figwal X N} (x : X) (id : gostr) (lt : Z) : Z :=
  if lt =? 0 then next_record (default [] (chan x id chanIR)) else lt.

(** [origin] is what a trunk spawned under the root ([None]) or a stump starts
    from; [used] holds every id ever minted. *)
Class ContentModel (X : Type) := {
  origin : X -> option gostr -> gostr -> list xrecord;
  used : X -> gset gostr }.

(** A change of neither trunks nor stumps; the minting of one trunk. *)
Definition same {X N} `{!Figwal X N} `{!ContentModel X} (x x' : X) : Prop :=
  (forall i c, chan x' i c = chan x i c) /\ (forall o c, origin x' o c = origin x o c) /\ used x' = used x.
Definition minted {X N} `{!Figwal X N} `{!ContentModel X} (x x' : X) (id : gostr) (start : gostr -> list xrecord) : Prop :=
  (id ∉ used x) /\ id <> [] /\ valid_utf8 id /\ used x' = {[id]} ∪ used x /\
  (forall c, chan x' id c = Some (start c)) /\ (forall i c, i <> id -> chan x' i c = chan x i c) /\
  (forall o c, origin x' o c = origin x o c).

Class ContentLaws (X N : Type) `{!Figwal X N} `{!ContentModel X} := {
  law_used x id n : Head x id = Some n -> id ∈ used x;
  law_owner x id lt o : TreeOwner x id lt = Some o -> id ∈ used x;
  law_window x id n ch lt : Head x id = Some n -> lt ∈ window_lts (channel_window n ch) ->
    exists r, ReadAt n ch lt = Some r /\ ChannelLT r = lt;
  law_append x id ch lt p m :
    match TreeAppend x id ch lt p m with
    | (x', Some l) => exists rs, chan x id ch = Some rs /\
        chan x' id ch = Some (rs ++ [mkRecord l (if bool_decide (ch = chanIR) then l else main_lt x id lt) p m]) /\
        (ch = chanIR -> l = next_record rs) /\
        (forall i c, i <> id \/ c <> ch -> chan x' i c = chan x i c) /\
        (forall o c, origin x' o c = origin x o c) /\ used x' = used x
    | (x', None) => same x x'
    end;
  law_clear x id ch :
    match TreeClear x id ch with
    | (x', true) => chan x' id ch = (fun _ => []) <$> Head x id /\
        (forall i c, i <> id \/ c <> ch -> chan x' i c = chan x i c) /\
        (forall o c, origin x' o c = origin x o c) /\ used x' = used x
    | (x', false) => same x x'
    end;
  law_spawn x st :
    match SpawnUnderStump x st with
    | (x', Some id) => minted x x' id (origin x (Some st))
    | (x', None) => same x x'
    end;
  law_root x :
    match SpawnUnderRoot x with
    | (x', Some id) => minted x x' id (origin x None)
    | (x', None) => same x x'
    end;
  law_fork x id :
    match ForkTail x id with
    | (x', Some alt) => exists start, (forall c, chan x id c = Some (start c)) /\ minted x x' alt start
    | (x', None) => same x x'
    end;
  law_fork_at x id lt :
    match TreeForkAt x id lt with
    | (x', Some alt) => exists start, (forall c, exists rs, chan x id c = Some rs /\ start c `prefix_of` rs) /\
                        minted x x' alt start
    | (x', None) => same x x'
    end;
  law_promote x id n : same x (TreePromote x id n).1;
  law_remove x id r : let x' := (TreeRemove x id r).1 in
    (forall i, Head x' i = None \/ forall c, chan x' i c = chan x i c) /\
    (forall o c, origin x' o c = origin x o c) /\ used x' = used x;
  law_create_stump x st :
    match CreateStump x st with
    | (x', true) => (forall i c, chan x' i c = chan x i c) /\ used x' = used x /\
        (forall c, origin x' (Some st) c = origin x None c) /\
        (forall o c, o <> Some st -> origin x' o c = origin x o c)
    | (x', false) => same x x'
    end;
  law_stump_main x st g :
    match StumpAppendMain x st g with
    | (x', Some lt) => (forall i c, chan x' i c = chan x i c) /\ used x' = used x /\
        origin x' (Some st) chanIR = origin x (Some st) chanIR ++ [mkRecord lt lt g []] /\
        (forall o c, o <> Some st \/ c <> chanIR -> origin x' o c = origin x o c)
    | (x', None) => same x x'
    end;
  law_stump_append x st ch lt p :
    match StumpAppend x st ch lt p with
    | (x', true) => (forall i c, chan x' i c = chan x i c) /\ used x' = used x /\
        (exists l, origin x' (Some st) ch = origin x (Some st) ch ++ [mkRecord l lt p []]) /\
        (forall o c, o <> Some st \/ c <> ch -> origin x' o c = origin x o c)
    | (x', false) => same x x'
    end;
  law_stump_flush x st : same x (StumpFlush x st).1 }.
