(* ===== verification/XwalBackend.v ===== *)
(** * store: the backend (src/internal/store/xwal_backend.go)

    The supervisor's and the agents' store.Backend over the tree: one cached log
    per open channel, the folded chalkboard of every aria, the metadata of its
    sidecar file.  The caches of a [XwalBackend] live beside the one tree all of
    them are views of; XwalFacts proves that they agree with it.  The mutexes
    are not modelled: each method is atomic under them. *)

From S2P Require Import Prelude Utf8 GoStrings Json GoJson RawJson Message PatchJson Chalkboard Store Angelus XwalStore XwalLog.

(** ** State *)

(** The sidecar files of metadata: readJSON, writeJSON and os.Remove at an
    aria's path. *)
Class Sidecar (D : Type) := {
  readJSON : D -> gostr -> option (option AriaMeta);
  writeJSON : D -> gostr -> AriaMeta -> D * bool;
  removeFile : D -> gostr -> D }.

#[local] Abbreviation raws := (list gostr).

(** type ariaHandle: the rows and indexes of its cached logs. *)
Record cached_rows (T : Type) := mkRows { crRows : list (Entry T); crIndex : gmap Z nat }.
#[global] Arguments mkRows {T}. #[global] Arguments crRows {T}. #[global] Arguments crIndex {T}.
Record ariaHandle := mkHandle { ir : cached_rows Message; trans : gmap gostr (cached_rows raws) }.

(** type chalkCache, metaCache *)
Record chalkCache := mkChalk { ready : bool; cState : snapshot; cPatches : gmap Z (list Patch) }.
Record metaCache := mkMetaCache { loaded : bool; mcValue : option AriaMeta }.

Record XwalBackend (X D : Type) := mkBackend {
  bStore : XwalStore X; bDisk : D; bOpen : gmap gostr ariaHandle; bChalk : gmap gostr chalkCache;
  bMetas : gmap gostr metaCache }.
#[global] Arguments mkBackend {X D}. #[global] Arguments bStore {X D}. #[global] Arguments bDisk {X D}.
#[global] Arguments bOpen {X D}. #[global] Arguments bChalk {X D}. #[global] Arguments bMetas {X D}.

Section backend.
Context {X N D : Type} `{!Figwal X N} `{!Sidecar D} `{!Codec Message} `{!Codec raws}.
#[local] Abbreviation XwalBackend := (XwalBackend X D).
#[local] Abbreviation tree b := (trunks (bStore b)).

Definition set_store (s : XwalStore X) (b : XwalBackend) : XwalBackend :=
  mkBackend s (bDisk b) (bOpen b) (bChalk b) (bMetas b).
Definition set_tree (x : X) (b : XwalBackend) : XwalBackend := set_store (with_trunks x (bStore b)) b.
Definition set_disk (d : D) (b : XwalBackend) : XwalBackend :=
  mkBackend (bStore b) d (bOpen b) (bChalk b) (bMetas b).
Definition set_open (o : gmap gostr ariaHandle) (b : XwalBackend) : XwalBackend :=
  mkBackend (bStore b) (bDisk b) o (bChalk b) (bMetas b).
Definition set_chalk (c : gmap gostr chalkCache) (b : XwalBackend) : XwalBackend :=
  mkBackend (bStore b) (bDisk b) (bOpen b) c (bMetas b).
Definition set_metas (m : gmap gostr metaCache) (b : XwalBackend) : XwalBackend :=
  mkBackend (bStore b) (bDisk b) (bOpen b) (bChalk b) m.

(** func NewXwalBackend, over the tree and the files found on disk. *)
Definition NewXwalBackend (x : X) (d : D) : XwalBackend := mkBackend (mkXwalStore x None) d ∅ ∅ ∅.

(** ** Logs *)

(** A cached log of a handle over the shared tree, and what is left of it. *)
Definition with_rows {T} (x : X) (id ch : gostr) (main : bool) (r : cached_rows T) : cachedLog (xwalLog X) T :=
  mkCached (mkXwalLog x id ch main) (crRows r) (crIndex r).
Definition rows_of {T} (c : cachedLog (xwalLog X) T) : cached_rows T := mkRows (rows c) (byFK c).
Definition open_rows {T} `{Codec T} (x : X) (id ch : gostr) (main : bool) : cached_rows T :=
  rows_of (newCachedLog (mkXwalLog x id ch main)).

(** func (b *XwalBackend) handleLocked *)
Definition handleLocked (id : gostr) (b : XwalBackend) : XwalBackend * option ariaHandle :=
  match bOpen b !! id with
  | Some h => (b, Some h)
  | None =>
      match OpenNode (bStore b) id with
      | None => (b, None)
      | Some _ => let h := mkHandle (open_rows (tree b) id chanIR true) ∅ in
                  (set_open (<[id := h]> (bOpen b)) b, Some h)
      end
  end.

(** func (b *XwalBackend) Open, OpenTranslation *)
Definition Open (id : gostr) (b : XwalBackend) : XwalBackend * option (cached_rows Message) :=
  let '(b, h) := handleLocked id b in (b, ir <$> h).
Definition OpenTranslation (id provider : gostr) (b : XwalBackend) : XwalBackend * option (cached_rows raws) :=
  match handleLocked id b with
  | (b, None) => (b, None)
  | (b, Some h) =>
      match trans h !! provider with
      | Some c => (b, Some c)
      | None =>
          let c := open_rows (tree b) id (transChannel provider) false in
          (set_open (<[id := mkHandle (ir h) (<[provider := c]> (trans h))]> (bOpen b)) b, Some c)
      end
  end.

(** Append and Clear on the logs that Open and OpenTranslation returned. *)
Definition ir_Append (id : gostr) (e : Entry Message) (b : XwalBackend) : XwalBackend * option (Entry Message) :=
  match bOpen b !! id with
  | None => (b, None)
  | Some h =>
      let '(c, r) := cachedLog_Append (with_rows (tree b) id chanIR true (ir h)) e in
      (set_open (<[id := mkHandle (rows_of c) (trans h)]> (bOpen b)) (set_tree (lStore (inner c)) b), r)
  end.
Definition trans_write {R} (id provider : gostr)
  (f : cachedLog (xwalLog X) raws -> cachedLog (xwalLog X) raws * R) (none : R) (b : XwalBackend) : XwalBackend * R :=
  match bOpen b !! id with
  | None => (b, none)
  | Some h =>
      match trans h !! provider with
      | None => (b, none)
      | Some t =>
          let '(c, r) := f (with_rows (tree b) id (transChannel provider) false t) in
          (set_open (<[id := mkHandle (ir h) (<[provider := rows_of c]> (trans h))]> (bOpen b))
             (set_tree (lStore (inner c)) b), r)
      end
  end.
Definition trans_Append (id provider : gostr) (e : Entry raws) : XwalBackend -> XwalBackend * option (Entry raws) :=
  trans_write id provider (fun c => cachedLog_Append c e) None.
Definition trans_Clear (id provider : gostr) : XwalBackend -> XwalBackend * bool :=
  trans_write id provider cachedLog_Clear false.

(** ** The chalkboard *)

(** One patch of the channel: the state it leaves and the patches by main LT. *)
Definition fold_patch (st : snapshot * gmap Z (list Patch)) (rp : xrecord * Patch) : snapshot * gmap Z (list Patch) :=
  let '(r, p) := rp in
  (Snapshot.Apply st.1 p,
   if IsEmpty p then st.2 else <[MainLT r := default [] (st.2 !! MainLT r) ++ [p]]> st.2).
Definition read_patch (n : N) (lt : Z) : option (xrecord * Patch) :=
  r ← ReadAt n chanChalkboard lt; p ← unmarshal_patch (rPayload r); Some (r, p).

(** func (b *XwalBackend) loadChalkboardLocked *)
Definition load_chalkboard (s : XwalStore X) (id : gostr) : option (snapshot * gmap Z (list Patch)) :=
  n ← OpenNode s id;
  l ← mapM (read_patch n) (window_lts (channel_window n chanChalkboard));
  Some (foldl fold_patch (∅, ∅) l).
Definition the_chalkCache (b : XwalBackend) (id : gostr) : chalkCache :=
  default (mkChalk false ∅ ∅) (bChalk b !! id).
Definition loadChalkboard (id : gostr) (b : XwalBackend) : XwalBackend * option chalkCache :=
  let c := the_chalkCache b id in
  let put c := set_chalk (<[id := c]> (bChalk b)) b in
  if ready c then (put c, Some c) else
  match load_chalkboard (bStore b) id with
  | None => (put c, None)
  | Some (state, patches) => let c := mkChalk true state patches in (put c, Some c)
  end.

(** func (b *XwalBackend) ChalkboardState, ChalkboardPatches *)
Definition backend_ChalkboardState (id : gostr) (b : XwalBackend) : XwalBackend * option snapshot :=
  let '(b, c) := loadChalkboard id b in (b, cState <$> c).
Definition ChalkboardPatches (id : gostr) (b : XwalBackend) : XwalBackend * option (gmap Z (list Patch)) :=
  let '(b, c) := loadChalkboard id b in (b, cPatches <$> c).

(** func (b *XwalBackend) ApplyChalkboard *)
Definition next_main (b : XwalBackend) (id : gostr) : Z :=
  match bOpen b !! id with
  | Some h => match peekTail (crRows (ir h)) with Some e => wrapu64 (LT e + 1) | None => 1 end
  | None => 0
  end.
Definition backend_ApplyChalkboard (id : gostr) (p : Patch) (b : XwalBackend) : XwalBackend * bool :=
  let c := the_chalkCache b id in
  let mainLT := if ready c then next_main b id else 0 in
  let put c b := set_chalk (<[id := c]> (bChalk b)) b in
  match TreeAppend (tree b) id chanChalkboard 0 (default [] (marshal_patch p)) [] with
  | (x, None) => (put c (set_tree x b), false)
  | (x, Some _) =>
      let c := if ready c && (0 <? mainLT)
               then mkChalk true (Snapshot.Apply (cState c) p)
                      (if IsEmpty p then cPatches c
                       else <[mainLT := default [] (cPatches c !! mainLT) ++ [p]]> (cPatches c))
               else mkChalk false (cState c) (cPatches c) in
      (put c (set_tree x b), true)
  end.

(** ** Tree operations *)

Definition lift_store {R} (f : XwalStore X -> XwalStore X * R) (b : XwalBackend) : XwalBackend * R :=
  let '(s, r) := f (bStore b) in (set_store s b, r).
Definition backend_CreateLoadout (gen name : gostr) (p : Patch) : XwalBackend -> XwalBackend * option gostr :=
  lift_store (store_CreateLoadout gen name p).
Definition backend_CreateConversation (l : gostr) : XwalBackend -> XwalBackend * option gostr :=
  lift_store (store_CreateConversation l).
Definition backend_Fork (id : gostr) : XwalBackend -> XwalBackend * option (gostr * gostr) := lift_store (store_Fork id).
Definition backend_ForkAt (id : gostr) (lt : Z) : XwalBackend -> XwalBackend * option (gostr * gostr) :=
  lift_store (store_ForkAt id lt).
Definition backend_Promote (id : gostr) (n : Z) : XwalBackend -> XwalBackend * promoted := lift_store (store_Promote id n).
Definition backend_OwnerResolution (b : XwalBackend) (id : gostr) (lt : Z) : option OwnerInfo :=
  (fun o => mkOwner (xTrunk o) (xStump o) (xIsRoot o)) <$> OwnerOf (bStore b) id lt.
Definition backend_Nodes : XwalBackend -> XwalBackend * list NodeView := lift_store store_Nodes.
Definition backend_Conversations : XwalBackend -> XwalBackend * list NodeView := lift_store store_Conversations.
Definition backend_ConversationIDs : XwalBackend -> XwalBackend * list gostr := lift_store store_ConversationIDs.
Definition backend_Node (id : gostr) : XwalBackend -> XwalBackend * option NodeView := lift_store (store_Node id).

(** ** Metadata *)

(** func (b *XwalBackend) Meta, SetMeta *)
Definition the_metaCache (b : XwalBackend) (id : gostr) : metaCache := default (mkMetaCache false None) (bMetas b !! id).
Definition backend_Meta (id : gostr) (b : XwalBackend) : XwalBackend * option (option AriaMeta) :=
  let c := the_metaCache b id in
  let put c := set_metas (<[id := c]> (bMetas b)) b in
  if loaded c then (put c, Some (mcValue c)) else
  match readJSON (bDisk b) id with
  | None => (put c, None)
  | Some v => (put (mkMetaCache true v), Some v)
  end.
Definition backend_SetMeta (id : gostr) (m : AriaMeta) (b : XwalBackend) : XwalBackend * bool :=
  let c := the_metaCache b id in
  let put c b := set_metas (<[id := c]> (bMetas b)) b in
  match writeJSON (bDisk b) id m with
  | (d, false) => (put c (set_disk d b), false)
  | (d, true) => (put (mkMetaCache true (Some m)) (set_disk d b), true)
  end.

(** func (b *XwalBackend) Remove *)
Definition backend_Remove (id : gostr) (recursive : bool) (b : XwalBackend) : XwalBackend * bool :=
  let b := set_open (delete id (bOpen b)) b in
  let b := set_metas (delete id (bMetas b)) (set_chalk (delete id (bChalk b)) b) in
  lift_store (RemoveLeaf id recursive) (set_disk (removeFile (bDisk b) id) b).

(** func (b *XwalBackend) Close *)
Definition Close (b : XwalBackend) : XwalBackend := mkBackend (bStore b) (bDisk b) ∅ ∅ ∅.
End backend.
