(* ===== verification/XwalFacts.v ===== *)
(** * store: the caches of the backend agree with the tree

    [backend_ok]: a forest view no newer than the tree, trees whose records can
    be read, cached rows and folded chalkboards that are those of the channels,
    metadata that are those of the files.  Every operation keeps it. *)

From S2P Require Import Prelude Utf8 GoStrings Json GoJson RawJson Message PatchJson Chalkboard Store Angelus XwalStore XwalLog XwalBackend.

Section contents.
Context {X N : Type} `{!Figwal X N} `{!ContentModel X} `{!ContentLaws X N}.

(** Every read within the window of a channel succeeds. *)
Lemma records_read (x : X) id n ch : Head x id = Some n ->
  map (ReadAt n ch) (window_lts (channel_window n ch)) = map Some (records n ch) /\
  map ChannelLT (records n ch) = window_lts (channel_window n ch).
Proof.
  intros Hn. unfold records. assert (forall l, (forall lt, lt ∈ l -> lt ∈ window_lts (channel_window n ch)) ->
    map (ReadAt n ch) l = map Some (omap (ReadAt n ch) l) /\ map ChannelLT (omap (ReadAt n ch) l) = l) as H; [|by apply H].
  induction l as [|lt l IH]; intros Hl; [done|]. destruct (law_window x id n ch lt Hn) as (r & Hr & E); [apply Hl; by left|].
  destruct IH as [H1 H2]; [intros; apply Hl; by right|]. cbn. rewrite Hr. cbn. by rewrite H1, H2, E.
Qed.

Lemma mapM_compose {A B C} (f : A -> option B) (g : B -> option C) l bs :
  map f l = map Some bs -> mapM (fun a => b ← f a; g b) l = mapM g bs.
Proof.
  revert bs. induction l as [|a l IH]; intros [|b bs] E; try done. injection E as Ea E. cbn. by rewrite Ea, (IH _ E).
Qed.

Lemma mapM_omap {A B} (f : A -> option B) l : Forall (fun a => is_Some (f a)) l -> mapM f l = Some (omap f l).
Proof. induction 1 as [|a l [b Hb] Hl IH]; [done|]. cbn. by rewrite Hb, IH. Qed.

(** ** What a chalkboard channel says *)

Definition patch_of_record (r : xrecord) : option (xrecord * Patch) := p ← unmarshal_patch (rPayload r); Some (r, p).
Definition board_of (rs : list xrecord) : snapshot * gmap Z (list Patch) := foldl fold_patch (∅, ∅) (omap patch_of_record rs).

Lemma board_of_snoc rs r p : unmarshal_patch (rPayload r) = Some p ->
  board_of (rs ++ [r]) = fold_patch (board_of rs) (r, p).
Proof. intros Hp. unfold board_of. rewrite omap_app. cbn. unfold patch_of_record. rewrite Hp. cbn. by rewrite foldl_app. Qed.

Lemma load_board (s : XwalStore X) id rs : chan (trunks s) id chanChalkboard = Some rs ->
  Forall (fun r => is_Some (unmarshal_patch (rPayload r))) rs -> load_chalkboard s id = Some (board_of rs).
Proof.
  unfold chan, load_chalkboard, OpenNode. destruct (Head (trunks s) id) as [n|] eqn:Hn; [|done]. intros [= <-] Hp. cbn.
  destruct (records_read _ id n chanChalkboard Hn) as [E _].
  replace (mapM (read_patch n) (window_lts (channel_window n chanChalkboard))) with
    (Some (omap patch_of_record (records n chanChalkboard))); [done|].
  symmetry. etrans; [exact (mapM_compose _ patch_of_record _ _ E)|]. apply mapM_omap.
  eapply Forall_impl; [done|]. intros r [p Hr]. unfold patch_of_record. rewrite Hr. by eexists.
Qed.

Lemma load_gone (s : XwalStore X) id ch : chan (trunks s) id ch = None -> load_chalkboard s id = None.
Proof. unfold chan, load_chalkboard, OpenNode. by destruct (Head _ _). Qed.

(** ** Trees whose records can be read *)

Context `{!Codec Message}.
Definition good (ch : gostr) (r : xrecord) : Prop :=
  (ch = chanChalkboard -> is_Some (unmarshal_patch (rPayload r))) /\
  (ch = chanIR -> is_Some (decodeRecord (T:=Message) r)).
Definition tree_ok (x : X) : Prop :=
  (forall id ch rs, chan x id ch = Some rs -> Forall (good ch) rs) /\ (forall o ch, Forall (good ch) (origin x o ch)).

(** A change that touches no channel of an id in use, but may remove trunks. *)
Definition grows (x x' : X) : Prop :=
  used x ⊆ used x' /\ (forall i, i ∈ used x -> Head x' i = None \/ forall c, chan x' i c = chan x i c).

Lemma same_grows x x' : same x x' -> grows x x'.
Proof. intros (H1 & _ & H2). split; [by rewrite H2|]. by right. Qed.

Lemma minted_grows x x' id start : minted x x' id start -> grows x x'.
Proof.
  intros (Hn & _ & _ & Hu & _ & H & _). split; [set_solver|]. intros i Hi. right. intros c. apply H. set_solver.
Qed.

Lemma same_tree x x' : same x x' -> tree_ok x -> tree_ok x'.
Proof. intros (H1 & H2 & _) [Hc Ho]. split; intros *; rewrite ?H1, ?H2; eauto. Qed.

Lemma minted_tree x x' id start : minted x x' id start -> (forall c, Forall (good c) (start c)) -> tree_ok x -> tree_ok x'.
Proof.
  intros (_ & _ & _ & _ & Hi & Hc & Ho) Hs [H1 H2]. split.
  - intros i c rs. destruct (decide (i = id)) as [->|Hne]; [rewrite Hi; intros [= <-]; apply Hs|rewrite Hc by done; apply H1].
  - intros o c. rewrite Ho. apply H2.
Qed.

Lemma spawn_ok x st : tree_ok x -> grows x (SpawnUnderStump x st).1 /\ tree_ok (SpawnUnderStump x st).1.
Proof.
  intros Hx. pose proof (law_spawn x st) as H. destruct (SpawnUnderStump x st) as [x' [id|]]; cbn [fst].
  - split; [by eapply minted_grows|]. eapply minted_tree; [done| |done]. intros c. apply Hx.
  - split; [by apply same_grows|by eapply same_tree].
Qed.

Lemma root_ok x : tree_ok x -> grows x (SpawnUnderRoot x).1 /\ tree_ok (SpawnUnderRoot x).1.
Proof.
  intros Hx. pose proof (law_root x) as H. destruct (SpawnUnderRoot x) as [x' [id|]]; cbn [fst].
  - split; [by eapply minted_grows|]. eapply minted_tree; [done| |done]. intros c. apply Hx.
  - split; [by apply same_grows|by eapply same_tree].
Qed.

Lemma fork_ok x id : tree_ok x -> grows x (ForkTail x id).1 /\ tree_ok (ForkTail x id).1.
Proof.
  intros Hx. pose proof (law_fork x id) as H. destruct (ForkTail x id) as [x' [alt|]]; cbn [fst].
  - destruct H as (start & Hs & Hm). split; [by eapply minted_grows|]. eapply minted_tree; [done| |done].
    intros c. eapply Hx, Hs.
  - split; [by apply same_grows|by eapply same_tree].
Qed.

Lemma fork_at_ok x id lt : tree_ok x -> grows x (TreeForkAt x id lt).1 /\ tree_ok (TreeForkAt x id lt).1.
Proof.
  intros Hx. pose proof (law_fork_at x id lt) as H. destruct (TreeForkAt x id lt) as [x' [alt|]]; cbn [fst].
  - destruct H as (start & Hs & Hm). split; [by eapply minted_grows|]. eapply minted_tree; [done| |done].
    intros c. destruct (Hs c) as (rs & Hr & [k ->]). pose proof (proj1 Hx _ _ _ Hr) as Hf. by apply Forall_app in Hf as [? _].
  - split; [by apply same_grows|by eapply same_tree].
Qed.

Lemma owner_ok x id lt o : tree_ok x -> grows x (fork_owner id lt o x).1 /\ tree_ok (fork_owner id lt o x).1.
Proof.
  intros Hx. unfold fork_owner. destruct (xIsRoot o); [by apply root_ok|].
  case_bool_decide; [by apply spawn_ok|by apply fork_at_ok].
Qed.

Lemma promote_ok x id n : tree_ok x -> grows x (TreePromote x id n).1 /\ tree_ok (TreePromote x id n).1.
Proof. intros Hx. pose proof (law_promote x id n) as H. split; [by apply same_grows|by eapply same_tree]. Qed.

Lemma remove_ok x id rec : tree_ok x -> grows x (TreeRemove x id rec).1 /\ tree_ok (TreeRemove x id rec).1.
Proof.
  intros [H1 H2]. pose proof (law_remove x id rec) as (Hh & Ho & Hu). set (x' := (TreeRemove x id rec).1) in *. split.
  - split; [by rewrite Hu|]. intros i _. apply Hh.
  - split; [|intros o c; rewrite Ho; apply H2]. intros i c rs Hc. destruct (Hh i) as [Hi|Hi].
    + unfold chan in Hc. by rewrite Hi in Hc.
    + rewrite Hi in Hc. by eapply H1.
Qed.

(** Creating a loadout: its stump gets the birth message and the stamped patch. *)
Lemma canonical_stamp p name ver : canonical p -> valid_utf8 name -> valid_utf8 ver -> canonical (stampLoadout p name ver).
Proof.
  intros [Hs Hr] Hn Hv. split; [|done]. unfold stampLoadout. cbn [pSet].
  apply map_Forall_insert_2; [split; [lit_ok|exists (JStr ver); split; [by constructor|done]]|].
  apply map_Forall_insert_2; [split; [lit_ok|exists (JStr name); split; [by constructor|done]]|]. exact Hs.
Qed.

(** A change of stumps alone. *)
Definition same_trunks (x x' : X) : Prop := (forall i c, chan x' i c = chan x i c) /\ used x' = used x.

Lemma same_trunks_trans x y z : same_trunks x y -> same_trunks y z -> same_trunks x z.
Proof. intros [H1 E1] [H2 E2]. split; [|congruence]. intros i c. by rewrite H2. Qed.

Lemma same_trunks_grows x x' : same_trunks x x' -> grows x x'.
Proof. intros [H Hu]. split; [by rewrite Hu|]. by right. Qed.

Lemma origin_tree x x' st ch r : same_trunks x x' -> origin x' (Some st) ch = origin x (Some st) ch ++ [r] ->
  (forall o c, o <> Some st \/ c <> ch -> origin x' o c = origin x o c) -> good ch r -> tree_ok x -> tree_ok x'.
Proof.
  intros [Hc _] H1 H2 Hr [Hx Ho]. split; intros *; [rewrite Hc; eauto|].
  destruct (decide (o = Some st /\ ch0 = ch)) as [[-> ->]|Hn]; [|rewrite H2; [done|tauto || (apply not_and_r in Hn; tauto)]].
  rewrite H1. apply Forall_app. split; [done|]. by constructor.
Qed.

Lemma birth_ok gen stump p (s : XwalStore X) : canonical p -> is_Some (json_Unmarshal gen) ->
  tree_ok (trunks s) ->
  same_trunks (trunks s) (trunks (writeStumpBirth gen stump p s).1) /\ tree_ok (trunks (writeStumpBirth gen stump p s).1).
Proof.
  intros Hp Hg Hx. unfold writeStumpBirth. destruct (StumpHead _ _); [|done]. cbn [negb].
  pose proof (law_stump_main (trunks s) stump gen) as H1.
  destruct (StumpAppendMain _ _ _) as [x1 [glt|]]; [|by destruct H1 as (H1 & H2 & H3); split; [|eapply same_tree]].
  destruct H1 as (H1 & H2 & H3 & H4). assert (same_trunks (trunks s) x1) as S1 by done.
  assert (tree_ok x1) as T1.
  { eapply origin_tree; [done|done|done| |done]. split; [done|]. intros _. unfold decodeRecord. cbn [rPayload].
    case_bool_decide; [by eexists|]. destruct Hg as [v ->]. by eexists. }
  pose proof (law_stump_append x1 stump chanChalkboard glt (default [] (marshal_patch p))) as H5.
  destruct (StumpAppend _ _ _ _ _) as [x2 [|]].
  2:{ cbn. split; [eapply same_trunks_trans; [done|]; by destruct H5 as (? & _ & ?)|by eapply same_tree]. }
  destruct H5 as (H5 & H6 & (l & H7) & H8). assert (same_trunks x1 x2) as S2 by done.
  assert (tree_ok x2) as T2.
  { eapply origin_tree; [done|done|done| |done]. split; [|done]. intros _. cbn [rPayload].
    destruct (unmarshal_marshal p Hp) as (text & -> & _ & Hu). by exists p. }
  pose proof (law_stump_flush x2 stump) as H9. destruct (StumpFlush x2 stump) as [x3 ok]. cbn in *.
  split; [|by eapply same_tree]. destruct H9 as (H9 & _ & H10). by do 2 (eapply same_trunks_trans; [done|]).
Qed.

Lemma hex_utf8 s : Forall hex_digit s -> valid_utf8 s.
Proof. intros H. apply ascii_utf8. eapply Forall_impl; [done|]. unfold hex_digit. cbn. lia. Qed.

Lemma create_loadout_ok `{!TreeLaws X N} gen name p (s : XwalStore X) :
  canonical p -> valid_utf8 name -> is_Some (json_Unmarshal gen) -> tree_ok (trunks s) ->
  same_trunks (trunks s) (trunks (store_CreateLoadout gen name p s).1) /\ tree_ok (trunks (store_CreateLoadout gen name p s).1).
Proof.
  intros Hp Hn Hg Hx. unfold store_CreateLoadout. destruct (contentVersion p) as [ver|] eqn:Ev; [|done]. cbv zeta.
  assert (valid_utf8 ver) as Hv.
  { unfold contentVersion in Ev. destruct (marshal_patch p) as [v|]; [|done]. by eapply hex_utf8, hash_hex. }
  case_bool_decide; [done|]. pose proof (law_create_stump (trunks s) (loadoutStump name ver)) as H1.
  destruct (CreateStump _ _) as [x [|]].
  2:{ cbn. destruct H1 as (H1 & H2 & H3). split; [done|by eapply same_tree]. }
  destruct H1 as (H1 & H2 & H3 & H4). assert (same_trunks (trunks s) x) as S1 by done.
  assert (tree_ok (trunks (with_trunks x s))) as T1.
  { split; intros *; [rewrite H1; apply Hx|]. destruct (decide (o = Some (loadoutStump name ver))) as [->|];
      [rewrite H3|rewrite H4 by done]; apply Hx. }
  destruct (birth_ok gen (loadoutStump name ver) (stampLoadout p name ver) (with_trunks x s)) as [S2 T2]; [by apply canonical_stamp|done|done|].
  destruct (writeStumpBirth _ _ _ _) as [s' [|]]; cbn [fst] in *; (split; [by eapply same_trunks_trans|done]).
Qed.
End contents.

(** ** Coherence of the caches *)

Class SidecarLaws (D : Type) `{!Sidecar D} := {
  law_write d id m :
    match writeJSON d id m with
    | (d', true) => readJSON d' id = Some (Some m) /\ forall i, i <> id -> readJSON d' i = readJSON d i
    | (d', false) => forall i, readJSON d' i = readJSON d i
    end;
  law_removed d id i : i <> id -> readJSON (removeFile d id) i = readJSON d i }.

Section coherence.
Context {X N D : Type} `{!Figwal X N} `{!TreeLaws X N} `{!ContentModel X} `{!ContentLaws X N}.
Context `{!Sidecar D} `{!SidecarLaws D} `{!Codec Message} `{!Codec (list gostr)}.
#[local] Abbreviation XwalBackend := (XwalBackend X D).
#[local] Abbreviation tree b := (trunks (bStore b)).

(** Cached rows are the entries read from the records. *)
Definition rows_ok {T} `{!Codec T} (c : cached_rows T) (rs : list xrecord) : Prop :=
  crRows c = omap decodeRecord rs /\ index_ok (crRows c) (crIndex c).

(** The caches of an id in use agree with the tree as long as the trunk is there. *)
Definition handle_ok (x : X) (id : gostr) (h : ariaHandle) : Prop :=
  id ∈ used x /\ (forall rs, chan x id chanIR = Some rs -> rows_ok (ir h) rs) /\
  (forall prov t rs, trans h !! prov = Some t -> chan x id (transChannel prov) = Some rs -> rows_ok t rs).
Definition chalk_ok (x : X) (id : gostr) (c : chalkCache) : Prop :=
  ready c = true -> id ∈ used x /\ forall rs, chan x id chanChalkboard = Some rs -> (cState c, cPatches c) = board_of rs.
Definition meta_ok (d : D) (id : gostr) (c : metaCache) : Prop := loaded c = true -> readJSON d id = Some (mcValue c).

Definition coherent_with (o : gmap gostr ariaHandle) (c : gmap gostr chalkCache) (x : X) : Prop :=
  map_Forall (handle_ok x) o /\ map_Forall (chalk_ok x) c.
Record backend_ok (b : XwalBackend) : Prop := {
  ok_topology : topology_ok (bStore b);
  ok_tree : tree_ok (tree b);
  ok_caches : coherent_with (bOpen b) (bChalk b) (tree b);
  ok_metas : map_Forall (meta_ok (bDisk b)) (bMetas b) }.

Lemma NewXwalBackend_ok (x : X) (d : D) : tree_ok x -> backend_ok (NewXwalBackend x d).
Proof. intros Hx. split; [done|done|split; apply map_Forall_empty|apply map_Forall_empty]. Qed.

(** The channels that a change leaves alone keep their caches right. *)
Lemma handle_grows x x' id h : grows x x' -> handle_ok x id h -> handle_ok x' id h.
Proof.
  intros [Hu Hg] (Hi & H1 & H2). split; [by apply Hu|]. destruct (Hg id Hi) as [Hn|Hc].
  - unfold chan. rewrite Hn. done.
  - setoid_rewrite Hc. done.
Qed.

Lemma chalk_grows x x' id c : grows x x' -> chalk_ok x id c -> chalk_ok x' id c.
Proof.
  intros [Hu Hg] H Hr. destruct (H Hr) as [Hi H1]. split; [by apply Hu|]. destruct (Hg id Hi) as [Hn|Hc].
  - unfold chan. rewrite Hn. done.
  - setoid_rewrite Hc. done.
Qed.

Lemma caches_grow o c x x' : grows x x' -> coherent_with o c x -> coherent_with o c x'.
Proof.
  intros Hg [H1 H2]. split; (eapply map_Forall_impl; [done|]); intros i v Hc;
    [by eapply handle_grows|by eapply chalk_grows].
Qed.

Lemma set_store_ok (b : XwalBackend) s : backend_ok b -> topology_ok s -> tree_ok (trunks s) ->
  grows (tree b) (trunks s) -> backend_ok (set_store s b).
Proof. intros [H1 H2 H3 H4] Ht Hx Hg. split; [done|done|by eapply caches_grow|done]. Qed.

(** ** Cached rows over the tree *)

Lemma open_rows_ok {T} `{!Codec T} (x : X) id ch main rs : chan x id ch = Some rs ->
  rows_ok (open_rows (T:=T) x id ch main) rs.
Proof.
  unfold chan. destruct (Head x id) as [n|] eqn:Hn; [|done]. intros [= <-].
  unfold open_rows, newCachedLog, rows_ok, rows_of. cbn [rows byFK crRows crIndex].
  assert (forall l : list (Entry T), (foldl cache_row ([], ∅) l).1 = l /\
    index_ok (foldl cache_row ([], ∅) l).1 (foldl cache_row ([], ∅) l).2) as H.
  { induction l as [|e l [IH1 IH2]] using rev_ind; [split; [done|apply index_ok_nil]|].
    rewrite foldl_app. cbn [foldl]. destruct (foldl cache_row ([], ∅) l) as [rs' ix]. cbn [fst snd cache_row] in *. subst.
    split; [done|]. by apply index_ok_app. }
  cbn [Read xwalLog_ops]. unfold xwalLog_Read. cbn [lStore ariaID channel]. rewrite Hn.
  destruct (H (omap decodeRecord (records n ch))) as [E1 E2]. by split.
Qed.

Lemma encode_decode_meta fp : valid_utf8 fp -> decodeMeta (encodeMeta fp) = fp.
Proof.
  intros Hf. unfold encodeMeta, decodeMeta. destruct (decide (fp = [])) as [->|Hn]; [done|].
  rewrite (bool_decide_eq_false_2 (fp = [])) by done. rewrite bool_decide_eq_false_2 by done.
  unfold Unmarshal. by rewrite Parse_Print by by constructor.
Qed.

(** An entry that is read back as it was appended. *)
Definition entry_ok {T} `{!Codec T} (e : Entry T) : Prop := faithful (Payload e) /\ valid_utf8 (Fingerprint e).

Lemma append_rows {T} `{!Codec T} (x : X) id ch main (c : cached_rows T) (e : Entry T) :
  (forall rs, chan x id ch = Some rs -> rows_ok c rs) -> entry_ok e ->
  (if main : bool then ch = chanIR else ch <> chanIR /\ FigaroLT e <> 0) ->
  let '(c', r) := cachedLog_Append (with_rows x id ch main c) e in
  let x' := lStore (inner c') in
  match r with
  | Some e' => exists rs l m text, let rec := mkRecord l m text (encodeMeta (Fingerprint e)) in
      chan x id ch = Some rs /\ chan x' id ch = Some (rs ++ [rec]) /\ decodeRecord rec = Some e' /\ rows_ok (rows_of c') (rs ++ [rec]) /\
      (forall i c, i <> id \/ c <> ch -> chan x' i c = chan x i c) /\
      (forall o c, origin x' o c = origin x o c) /\ used x' = used x
  | None => same x x' /\ rows_of c' = c
  end.
Proof.
  intros Hrows [(text & Hm & Hne & Hu) Hfp] Hmain.
  unfold cachedLog_Append. cbn [Append xwalLog_ops inner with_rows]. unfold xwalLog_Append. rewrite Hm.
  cbn [lStore ariaID channel isMain]. pose proof (law_append x id ch (if main then 0 else FigaroLT e) text (encodeMeta (Fingerprint e))) as H.
  destruct (TreeAppend _ _ _ _ _ _) as [x' [l|]].
  2:{ cbn. split; [done|]. by destruct c. }
  destruct H as (rs & H0 & H1 & H2 & H3). destruct (Hrows rs H0) as [Hr Hix]. cbn [fmap option_fmap option_map].
  exists rs, l, (if bool_decide (ch = chanIR) then l else main_lt x id (if main then 0 else FigaroLT e)), text.
  cbn [inner lStore rows_of rows byFK with_rows]. 
  set (rec := mkRecord l _ text _) in *. set (e' := mkEntry l _ _ _).
  assert (decodeRecord rec = Some e') as Hd.
  { unfold decodeRecord, rec, e'. cbn [rPayload ChannelLT MainLT rMeta]. rewrite (bool_decide_eq_false_2 (text = [])) by done. rewrite Hu.
    cbn [mbind option_bind]. rewrite encode_decode_meta by done. do 2 f_equal.
    destruct main; [by rewrite bool_decide_eq_true_2|]. destruct Hmain as [Hn Hz].
    rewrite bool_decide_eq_false_2 by done. unfold main_lt. by rewrite (proj2 (Z.eqb_neq _ _)). }
  split; [done|]. split; [done|]. split; [done|]. split; [|done]. unfold rows_ok. cbn [crRows crIndex cache_row fst snd].
  split; [|by apply index_ok_app]. rewrite omap_app, <-Hr. cbn [omap list_omap]. by rewrite Hd.
Qed.

(** ** Every operation keeps the caches coherent *)

Lemma trans_not_ir p : transChannel p <> chanIR.
Proof. done. Qed.
Lemma trans_not_chalk p : transChannel p <> chanChalkboard.
Proof. done. Qed.
Lemma trans_inj p q : transChannel p = transChannel q -> p = q.
Proof. apply app_inv_head. Qed.

(** What follows when one channel of one trunk changed. *)
Definition one_channel (x x' : X) (id ch : gostr) : Prop :=
  (forall i c, i <> id \/ c <> ch -> chan x' i c = chan x i c) /\ (forall o c, origin x' o c = origin x o c) /\
  used x' = used x.

Lemma other_handle x x' id ch i h : one_channel x x' id ch -> i <> id \/ ch = chanChalkboard ->
  handle_ok x i h -> handle_ok x' i h.
Proof.
  intros (Hc & _ & Hu) Hne (Hi & H1 & H2). split; [by rewrite Hu|].
  assert (forall c, c <> chanChalkboard -> chan x' i c = chan x i c) as E.
  { intros c Hcc. apply Hc. destruct Hne as [| ->]; auto. }
  split; [rewrite E by done; done|]. intros prov t rs Ht. rewrite E by done. by eapply H2.
Qed.

Lemma other_chalk x x' id ch i c : one_channel x x' id ch -> i <> id \/ ch <> chanChalkboard ->
  chalk_ok x i c -> chalk_ok x' i c.
Proof.
  intros (Hc & _ & Hu) Hne H Hr. destruct (H Hr) as [Hi H1]. split; [by rewrite Hu|].
  rewrite Hc by (destruct Hne; auto). done.
Qed.

Lemma one_tree x x' id ch rs : one_channel x x' id ch -> chan x' id ch = Some rs -> Forall (good ch) rs ->
  tree_ok x -> tree_ok x'.
Proof.
  intros (Hc & Ho & _) Hr Hg [H1 H2]. split; [|intros o c; rewrite Ho; apply H2]. intros i c rs' Hi.
  destruct (decide (i = id /\ c = ch)) as [[-> ->]|Hn]; [by simplify_eq|].
  rewrite Hc in Hi by (destruct (decide (i = id)); destruct (decide (c = ch)); tauto). by eapply H1.
Qed.

Lemma same_one x x' id ch : same x x' -> one_channel x x' id ch.
Proof. intros (H1 & H2 & H3). split; [auto|done]. Qed.

(** Setting the tree and the handle of one id. *)
Lemma set_handle_ok (b : XwalBackend) x id ch h' : backend_ok b ->
  evolves (tree b) x -> one_channel (tree b) x id ch -> ch <> chanChalkboard -> tree_ok x -> handle_ok x id h' ->
  backend_ok (set_open (<[id := h']> (bOpen b)) (set_tree x b)).
Proof.
  intros [H1 H2 [H3 H4] H5] He Ho Hch Hx Hh'. split; [by apply topology_evolves|done| |done]. split.
  - cbn [bOpen set_open]. intros i v [[<- <-]|[Hne Hv]]%lookup_insert_Some; [done|].
    eapply other_handle; [done|by left|by apply H3].
  - cbn [bChalk set_open set_tree set_store]. eapply map_Forall_impl; [done|]. intros i c Hc. eapply other_chalk; [done|by right|done].
Qed.

Lemma handleLocked_ok id (b : XwalBackend) : backend_ok b ->
  let '(b', h) := handleLocked id b in
  backend_ok b' /\ bStore b' = bStore b /\ h = bOpen b' !! id /\ (h = None -> Head (tree b) id = None).
Proof.
  intros Hb. unfold handleLocked. destruct (bOpen b !! id) as [h|] eqn:Eh; [by rewrite Eh|].
  unfold OpenNode. destruct (Head (tree b) id) as [n|] eqn:En; [|by rewrite Eh].
  cbn [bOpen set_open]. rewrite lookup_insert_eq. split; [|done].
  destruct Hb as [H1 H2 [H3 H4] H5]. split; [done|done| |done]. split; [|done].
  apply map_Forall_insert_2; [|done]. split; [by eapply law_used|]. split; [intros rs Hrs; by apply open_rows_ok|].
  intros p t rs Hp. cbn [trans] in Hp. by rewrite lookup_empty in Hp.
Qed.

Lemma OpenTranslation_ok id prov (b : XwalBackend) : backend_ok b -> backend_ok (OpenTranslation id prov b).1.
Proof.
  intros Hb. unfold OpenTranslation. pose proof (handleLocked_ok id b Hb) as H.
  destruct (handleLocked id b) as [b1 [h|]]; [|by destruct H]. destruct H as ([H1 H2 [H3 H4] H5] & _ & Hh & _).
  destruct (trans h !! prov) as [t|] eqn:Et; [done|]. cbn [fst]. split; [done|done| |done]. split; [|done].
  symmetry in Hh. destruct (H3 _ _ Hh) as (Hu & Hi & Ht).
  apply map_Forall_insert_2; [|done]. split; [done|]. split; [done|]. cbn [trans].
  intros p t rs [[<- <-]|[Hne Hp]]%lookup_insert_Some Hrs; [by apply open_rows_ok|by eapply Ht].
Qed.

Lemma append_evolves {T} `{!Codec T} (x : X) id ch main (c : cached_rows T) e :
  evolves x (lStore (inner (cachedLog_Append (with_rows x id ch main c) e).1)).
Proof.
  unfold cachedLog_Append. cbn [Append xwalLog_ops inner with_rows]. unfold xwalLog_Append.
  destruct (json_Marshal (Payload e)) as [text|]; [|reflexivity]. cbn [lStore ariaID channel isMain].
  pose proof (evolve_append x id ch (if main then 0 else FigaroLT e) text (encodeMeta (Fingerprint e))) as H.
  by destruct (TreeAppend _ _ _ _ _ _) as [x' [l|]].
Qed.

Lemma ir_Append_ok id e (b : XwalBackend) : backend_ok b -> entry_ok e -> backend_ok (ir_Append id e b).1.
Proof.
  intros Hb He. unfold ir_Append. destruct (bOpen b !! id) as [h|] eqn:Eh; [|done].
  destruct (Hb) as [H1 H2 [H3 H4] H5]. destruct (H3 _ _ Eh) as (Hu & Hi & Ht).
  pose proof (append_rows (tree b) id chanIR true (ir h) e Hi He eq_refl) as H.
  assert (evolves (tree b) (lStore (inner (cachedLog_Append (with_rows (tree b) id chanIR true (ir h)) e).1))) as Hev by apply append_evolves.
  destruct (cachedLog_Append _ _) as [c r]. cbn [fst] in *. destruct r as [e'|].
  - destruct H as (rs & l & m & text & Hrs & Hx & Hd & Hro & Ho).
    apply (set_handle_ok b _ id chanIR); [done|done|done|done| |].
    + eapply one_tree; [done|done| |done]. apply Forall_app. split; [by eapply H2|].
      constructor; [|done]. split; [done|]. intros _. by rewrite Hd.
    + split; [destruct Ho as (_ & _ & ->); done|]. split; [intros rs' Hrs'; rewrite Hx in Hrs'; injection Hrs' as <-; done|].
      cbn [trans]. intros p t rs' Hp Hrs'. destruct Ho as (Hc & _). rewrite Hc in Hrs' by (right; apply trans_not_ir). by eapply Ht.
  - destruct H as [Hs ->]. apply (set_handle_ok b _ id chanIR); [done|done|by apply same_one|done|by eapply same_tree|].
    replace (mkHandle (ir h) (trans h)) with h by by destruct h. by eapply handle_grows; [apply same_grows|].
Qed.

(** Replacing the cached rows of one translation. *)
Lemma set_trans_ok (b : XwalBackend) x id prov h t : backend_ok b -> bOpen b !! id = Some h ->
  evolves (tree b) x -> one_channel (tree b) x id (transChannel prov) -> tree_ok x ->
  (forall rs, chan x id (transChannel prov) = Some rs -> rows_ok t rs) ->
  backend_ok (set_open (<[id := mkHandle (ir h) (<[prov := t]> (trans h))]> (bOpen b)) (set_tree x b)).
Proof.
  intros Hb Eh He Ho Hx Ht. destruct (Hb) as [H1 H2 [H3 H4] H5]. destruct (H3 _ _ Eh) as (Hu & Hi & Hts).
  apply (set_handle_ok b x id (transChannel prov)); [done..|apply trans_not_chalk|done|].
  destruct Ho as (Hc & _ & Hu'). split; [by rewrite Hu'|]. cbn [ir trans].
  split; [rewrite Hc by (right; apply not_eq_sym, trans_not_ir); done|].
  intros p t' rs [[<- <-]|[Hne Hp]]%lookup_insert_Some Hrs; [by apply Ht|].
  rewrite Hc in Hrs by (right; by intros ?%trans_inj). by eapply Hts.
Qed.

Lemma good_trans prov r : good (transChannel prov) r.
Proof. by split. Qed.

Lemma trans_Append_ok id prov e (b : XwalBackend) : backend_ok b -> entry_ok e -> FigaroLT e <> 0 ->
  backend_ok (trans_Append id prov e b).1.
Proof.
  intros Hb He Hf. unfold trans_Append, trans_write. destruct (bOpen b !! id) as [h|] eqn:Eh; [|done].
  destruct (trans h !! prov) as [t|] eqn:Et; [|done].
  destruct (Hb) as [H1 H2 [H3 H4] H5]. destruct (H3 _ _ Eh) as (Hu & Hi & Ht).
  pose proof (append_rows (tree b) id (transChannel prov) false t e (fun rs => Ht prov t rs Et) He (conj (trans_not_ir prov) Hf)) as H.
  pose proof (append_evolves (tree b) id (transChannel prov) false t e) as Hev.
  destruct (cachedLog_Append _ _) as [c r]. cbn [fst] in *. destruct r as [e'|].
  - destruct H as (rs & l & m & text & Hrs & Hx & Hd & Hro & Ho).
    apply set_trans_ok; [done..| |].
    + eapply one_tree; [done|done| |done]. apply Forall_forall. intros r _. apply good_trans.
    + intros rs' Hrs'. rewrite Hx in Hrs'. by injection Hrs' as <-.
  - destruct H as [Hs ->]. apply set_trans_ok; [done|done|done|by apply same_one|by eapply same_tree|].
    intros rs. rewrite (proj1 Hs). by apply (Ht prov t).
Qed.

Lemma trans_Clear_ok id prov (b : XwalBackend) : backend_ok b -> backend_ok (trans_Clear id prov b).1.
Proof.
  intros Hb. unfold trans_Clear, trans_write. destruct (bOpen b !! id) as [h|] eqn:Eh; [|done].
  destruct (trans h !! prov) as [t|] eqn:Et; [|done].
  destruct (Hb) as [H1 H2 [H3 H4] H5]. destruct (H3 _ _ Eh) as (Hu & Hi & Ht).
  unfold cachedLog_Clear. cbn [Clear xwalLog_ops inner with_rows]. unfold xwalLog_Clear. cbn [lStore ariaID channel].
  pose proof (law_clear (tree b) id (transChannel prov)) as H. pose proof (evolve_clear (tree b) id (transChannel prov)) as Hev.
  destruct (TreeClear _ _ _) as [x [|]]; cbn [fst inner lStore] in *.
  - destruct H as (Hc & Ho). apply set_trans_ok; [done..| |].
    + destruct (Head (tree b) id) as [n|] eqn:En; cbn in Hc.
      * by eapply (one_tree _ _ id (transChannel prov) []).
      * destruct H2 as [H6 H7]. destruct Ho as (H8 & H9 & _). split; [|intros o ch; rewrite H9; done].
        intros i ch rs Hrs. destruct (decide (i = id /\ ch = transChannel prov)) as [[-> ->]|Hn]; [by rewrite Hc in Hrs|].
        rewrite H8 in Hrs by (destruct (decide (i = id)); destruct (decide (ch = transChannel prov)); tauto). by eapply H6.
    + intros rs Hrs. rewrite Hc in Hrs. destruct (Head _ _); [|done]. injection Hrs as <-. split; [done|apply index_ok_nil].
  - apply set_trans_ok; [done|done|done|by apply same_one|by eapply same_tree|].
    intros rs. rewrite (proj1 H). intros Hrs. destruct t. by apply (Ht prov _ _ Et).
Qed.
End coherence.

Section operations.
Context {X N D : Type} `{!Figwal X N} `{!TreeLaws X N} `{!ContentModel X} `{!ContentLaws X N}.
Context `{!Sidecar D} `{!SidecarLaws D} `{!Codec Message} `{!Codec (list gostr)}.
#[local] Abbreviation XwalBackend := (XwalBackend X D).
#[local] Abbreviation tree b := (trunks (bStore b)).

(** Caching one chalkboard. *)
Lemma set_chalk_ok (b : XwalBackend) id c : backend_ok b -> chalk_ok (tree b) id c ->
  backend_ok (set_chalk (<[id := c]> (bChalk b)) b).
Proof.
  intros [H1 H2 [H3 H4] H5] Hc. split; [done|done| |done]. split; [done|]. by apply map_Forall_insert_2.
Qed.

Lemma the_chalk_ok (b : XwalBackend) id : backend_ok b -> chalk_ok (tree b) id (the_chalkCache b id).
Proof.
  intros [_ _ [_ H4] _]. unfold the_chalkCache. destruct (bChalk b !! id) as [c|] eqn:Ec; [by apply H4|done].
Qed.

(** What the board of an aria is: the fold of its channel. *)
Definition board_at (x : X) (id : gostr) : option (snapshot * gmap Z (list Patch)) := board_of <$> chan x id chanChalkboard.

Lemma loadChalkboard_ok id (b : XwalBackend) : backend_ok b ->
  let '(b', r) := loadChalkboard id b in
  backend_ok b' /\ bStore b' = bStore b /\ bOpen b' = bOpen b /\
  (is_Some (Head (tree b) id) -> (fun c => (cState c, cPatches c)) <$> r = board_at (tree b) id) /\
  (r = None -> Head (tree b) id = None) /\ (forall c, r = Some c -> ready c = true /\ the_chalkCache b' id = c).
Proof.
  intros Hb. pose proof (the_chalk_ok b id Hb) as Hc. unfold loadChalkboard. destruct (ready (the_chalkCache b id)) eqn:Er.
  - split; [by apply set_chalk_ok|]. split; [done|]. split; [done|]. split; [|split; [done|]].
    + intros [n Hn]. destruct (Hc Er) as [_ Hc']. unfold board_at. unfold chan in *. rewrite Hn in *. cbn. f_equal. by apply Hc'.
    + intros c [= <-]. split; [done|]. unfold the_chalkCache at 1. cbn [bChalk set_chalk]. by rewrite lookup_insert_eq.
  - destruct (chan (tree b) id chanChalkboard) as [rs|] eqn:Ech.
    + rewrite (load_board _ _ rs); [|done|].
      2:{ eapply Forall_impl; [by eapply (proj1 (ok_tree b Hb))|]. intros r [Hg _]. by apply Hg. }
      destruct (board_of rs) as [state patches] eqn:Eb. split; [|split; [done|split; [done|split; [|split; [done|]]]]].
      * apply set_chalk_ok; [done|]. intros _. split.
        -- unfold chan in Ech. destruct (Head (tree b) id) eqn:En; [|done]. by eapply law_used.
        -- intros rs' Hrs'. rewrite Ech in Hrs'. injection Hrs' as <-. by rewrite Eb.
      * intros _. unfold board_at. rewrite Ech. cbn. by rewrite Eb.
      * intros c [= <-]. split; [done|]. unfold the_chalkCache. cbn [bChalk set_chalk]. by rewrite lookup_insert_eq.
    + rewrite (load_gone _ _ _ Ech). split; [|split; [done|split; [done|split; [|split; [|done]]]]].
      * apply set_chalk_ok; [done|]. intros E. by rewrite E in Er.
      * intros [n Hn]. unfold chan in Ech. by rewrite Hn in Ech.
      * intros _. unfold chan in Ech. by destruct (Head _ _).
Qed.

(** The main LT ApplyChalkboard files a patch under is the one the tree gives it. *)
Lemma next_main_ok (b : XwalBackend) id rs : backend_ok b -> chan (tree b) id chanIR = Some rs ->
  is_Some (bOpen b !! id) -> next_main b id = next_record rs.
Proof.
  intros [_ [H2 _] [H3 _] _] Hrs [h Hh]. unfold next_main. rewrite Hh. destruct (H3 _ _ Hh) as (_ & Hi & _).
  destruct (Hi rs Hrs) as [-> _]. rewrite peekTail_last. pose proof (H2 _ _ _ Hrs) as Hg.
  destruct rs as [|r rs _] using rev_ind; [done|]. apply Forall_app in Hg as [_ Hg].
  apply Forall_singleton in Hg as [_ Hg]. destruct Hg as [e He]; [done|]. rewrite omap_app. cbn [omap list_omap]. rewrite He.
  unfold next_record. rewrite !last_snoc. assert (LT e = ChannelLT r) as ->.
  { unfold decodeRecord in He. destruct (if bool_decide _ then _ else _); [|done]. by injection He as <-. }
  done.
Qed.

(** Appending a patch to the tree. *)
Lemma append_patch (x : X) id p : canonical p ->
  match TreeAppend x id chanChalkboard 0 (default [] (marshal_patch p)) [] with
  | (x', Some l) => exists rs ms r, chan x id chanChalkboard = Some rs /\ chan x id chanIR = Some ms /\
      chan x' id chanChalkboard = Some (rs ++ [r]) /\ unmarshal_patch (rPayload r) = Some p /\
      MainLT r = next_record ms /\ one_channel x x' id chanChalkboard
  | (x', None) => same x x'
  end.
Proof.
  intros Hp. destruct (unmarshal_marshal p Hp) as (text & -> & _ & Hu). change (default [] (Some text)) with text.
  pose proof (law_append x id chanChalkboard 0 text []) as H. destruct (TreeAppend _ _ _ _ _ _) as [x' [l|]]; [|done].
  destruct H as (rs & H1 & H2 & _ & H3 & H4). assert (exists ms, chan x id chanIR = Some ms) as [ms His].
  { unfold chan in *. destruct (Head x id); [|done]. by eexists. }
  exists rs, ms. eexists. split; [done|]. split; [done|]. split; [done|]. split; [done|]. split; [|split; [|done]].
  - cbn [MainLT]. rewrite bool_decide_eq_false_2 by done. unfold main_lt. by rewrite His.
  - intros i c Hne. apply H3. tauto.
Qed.

Lemma ApplyChalkboard_ok id p (b : XwalBackend) : backend_ok b -> canonical p ->
  let '(b', ok) := backend_ApplyChalkboard id p b in
  backend_ok b' /\
  if ok : bool then exists st, board_at (tree b) id = Some st /\
      (exists st', board_at (tree b') id = Some st' /\ st'.1 = Snapshot.Apply st.1 p) /\
      one_channel (tree b) (tree b') id chanChalkboard
  else same (tree b) (tree b').
Proof.
  intros Hb Hp. unfold backend_ApplyChalkboard. pose proof (append_patch (tree b) id p Hp) as H.
  pose proof (evolve_append (tree b) id chanChalkboard 0 (default [] (marshal_patch p)) []) as Hev.
  destruct (TreeAppend _ _ _ _ _ _) as [x [l|]]; cbn [fst] in Hev.
  2:{ split; [|done]. apply (set_chalk_ok (set_tree x b)).
      - destruct Hb as [H1 H2 H3 H4]. split; [by apply topology_evolves|by eapply same_tree| |done].
        eapply caches_grow; [by apply same_grows|done].
      - eapply chalk_grows; [by apply same_grows|]. by apply the_chalk_ok. }
  destruct H as (rs & ms & r & Hrs & His & Hx & Hu & Hm & Ho).
  assert (tree_ok x) as Hxt.
  { destruct Hb as [_ H2 _ _]. eapply one_tree; [done|done| |done]. apply Forall_app. split; [by eapply H2|].
    constructor; [|done]. split; [|done]. intros _. by exists p. }
  assert (id ∈ used (tree b)) as Hid.
  { unfold chan in Hrs. destruct (Head (tree b) id) eqn:En; [|done]. by eapply law_used. }
  pose proof (the_chalk_ok b id Hb) as Hc. set (c := the_chalkCache b id) in *.
  set (c' := if _ && _ then _ else _).
  assert (chalk_ok x id c') as Hc'.
  { intros Er. split; [by rewrite (proj2 (proj2 Ho))|]. intros rs' Hrs'. rewrite Hx in Hrs'. injection Hrs' as <-.
    rewrite (board_of_snoc _ _ p Hu). unfold c' in *. destruct (ready c) eqn:Erc; [|done]. cbn [andb] in *.
    destruct (0 <? next_main b id) eqn:Epos; [|done]. cbn [cState cPatches]. destruct (Hc Erc) as [_ Hc2].
    rewrite <-(Hc2 _ Hrs). unfold fold_patch. cbn [fst snd]. rewrite Hm.
    assert (is_Some (bOpen b !! id)) as Hop.
    { unfold next_main in Epos. destruct (bOpen b !! id); [by eexists|done]. }
    by rewrite (next_main_ok b id ms Hb His Hop). }
  split.
  - destruct Hb as [H1 H2 [H3 H4] H5]. split; [by apply topology_evolves|done| |done]. split.
    + cbn [bOpen set_chalk set_tree set_store]. intros i h Hh. eapply other_handle; [done|by right|by apply H3].
    + cbn [bChalk set_chalk set_tree set_store bStore trunks with_trunks].
      intros i v [[<- <-]|[Hne Hv]]%lookup_insert_Some; [done|]. eapply other_chalk; [done|by left|by apply H4].
  - exists (board_of rs). unfold board_at. cbn [bStore set_chalk set_tree set_store trunks with_trunks]. rewrite Hrs, Hx.
    split; [done|]. split; [|done]. eexists. split; [done|]. by rewrite (board_of_snoc _ _ p Hu).
Qed.

(** ** Metadata and removal *)

Lemma Meta_ok id (b : XwalBackend) : backend_ok b ->
  let '(b', r) := backend_Meta id b in backend_ok b' /\ bStore b' = bStore b /\ r = readJSON (bDisk b) id.
Proof.
  intros [H1 H2 H3 H5]. unfold backend_Meta.
  assert (meta_ok (bDisk b) id (the_metaCache b id)) as Hc.
  { unfold the_metaCache. destruct (bMetas b !! id) as [c|] eqn:Ec; [by apply H5|done]. }
  assert (forall c, meta_ok (bDisk b) id c -> backend_ok (set_metas (<[id := c]> (bMetas b)) b)) as Hput.
  { intros c Hm. split; [done|done|done|]. by apply map_Forall_insert_2. }
  destruct (loaded (the_metaCache b id)) eqn:El; [by rewrite (Hc El); auto|].
  destruct (readJSON (bDisk b) id) as [v|] eqn:Ev; [|by auto].
  split; [|done]. apply (Hput (mkMetaCache true v)). by intros _.
Qed.

Lemma SetMeta_ok id m (b : XwalBackend) : backend_ok b ->
  let '(b', ok) := backend_SetMeta id m b in backend_ok b' /\ bStore b' = bStore b.
Proof.
  intros [H1 H2 H3 H5]. unfold backend_SetMeta. pose proof (law_write (bDisk b) id m) as H.
  assert (meta_ok (bDisk b) id (the_metaCache b id)) as Hc.
  { unfold the_metaCache. destruct (bMetas b !! id) as [c|] eqn:Ec; [by apply H5|done]. }
  destruct (writeJSON (bDisk b) id m) as [d [|]]; (split; [|done]; split; [done|done|done|]);
    cbn [bMetas bDisk set_metas set_disk]; intros i v [[<- <-]|[Hne Hv]]%lookup_insert_Some Hl.
  - by rewrite (proj1 H).
  - rewrite (proj2 H) by done. by apply (H5 _ _ Hv).
  - rewrite H. by apply Hc.
  - rewrite H. by apply (H5 _ _ Hv).
Qed.

Lemma Remove_ok id rec (b : XwalBackend) : backend_ok b -> backend_ok (backend_Remove id rec b).1.
Proof.
  intros [H1 H2 [H3 H4] H5]. unfold backend_Remove, lift_store, RemoveLeaf.
  pose proof (remove_ok (tree b) id rec H2) as [Hg Ht]. pose proof (evolve_remove (tree b) id rec) as Hev. cbn.
  destruct (TreeRemove (tree b) id rec) as [x ok]. cbn in *. split; cbn.
  - by apply topology_evolves.
  - done.
  - eapply caches_grow; [done|]. split; by apply map_Forall_delete.
  - intros i v [Hne Hv]%lookup_delete_Some Hl. rewrite law_removed by done. by apply (H5 _ _ Hv).
Qed.

Lemma lift_store_ok {R} (f : XwalStore X -> XwalStore X * R) o (b : XwalBackend) :
  (f (bStore b)).1 = store_step (bStore b) o -> backend_ok b ->
  tree_ok (trunks (f (bStore b)).1) /\ grows (tree b) (trunks (f (bStore b)).1) -> backend_ok (lift_store f b).1.
Proof.
  intros Hf Hb [Ht Hg]. unfold lift_store. destruct (f (bStore b)) as [s r]. cbn [fst] in *.
  apply set_store_ok; [done| |done|done]. rewrite Hf. by apply store_step_topology, Hb.
Qed.

Lemma snapshot_same (s : XwalStore X) : trunks (snapshot_topology s).1 = trunks s.
Proof. unfold snapshot_topology. destruct (topology s) as [t|]; [|done]. by destruct (_ =? _). Qed.

Lemma grows_refl (x : X) : grows x x.
Proof. split; [done|]. by right. Qed.
End operations.

(** ** The log on the tree under a cache *)

(** What the lookup of the tree promises: a record of the channel with the main
    LT it was asked for. *)
Class LookupLaws (X N : Type) `{!Figwal X N} :=
  law_lookup (x : X) id (n : N) ch k r :
    Head x id = Some n -> ChannelLookup n ch k = Some r -> r ∈ records n ch /\ MainLT r = k.

Section cached.
Context {X N T : Type} `{!Figwal X N} `{!ContentModel X} `{!ContentLaws X N} `{!LookupLaws X N} `{!Codec T}.

Definition decodes (r : xrecord) : Prop := is_Some (decodeRecord (T:=T) r).

(** The main flag tells the channel, and every record decodes. *)
Definition tree_log_ok (l : xwalLog X) : Prop :=
  (isMain l = true <-> channel l = chanIR) /\
  forall rs, chan (lStore l) (ariaID l) (channel l) = Some rs -> Forall decodes rs.

Definition tree_log_fits (l : xwalLog X) (e : Entry T) : Prop :=
  entry_ok e /\ (isMain l = false -> FigaroLT e <> 0).

Lemma Read_chan (l : xwalLog X) :
  xwalLog_Read (T:=T) l = omap decodeRecord (default [] (chan (lStore l) (ariaID l) (channel l))).
Proof. unfold xwalLog_Read, chan. by destruct (Head _ _). Qed.

Lemma decode_fk (r : xrecord) (e : Entry T) : decodeRecord r = Some e -> FigaroLT e = MainLT r.
Proof. unfold decodeRecord. destruct (if bool_decide _ then _ else _); [|done]. cbn. by intros [= <-]. Qed.

Lemma decode_length (rs : list xrecord) : Forall decodes rs -> length (omap (decodeRecord (T:=T)) rs) = length rs.
Proof. induction 1 as [|r rs [e He] _ IH]; [done|]. cbn. rewrite He. cbn. by rewrite IH. Qed.

Lemma decode_filter (k : Z) (rs : list xrecord) :
  omap (decodeRecord (T:=T)) (filter (fun r => k <= MainLT r) rs) =
  List.filter (fun e => k <=? FigaroLT e) (omap decodeRecord rs).
Proof.
  induction rs as [|r rs IH]; [done|]. rewrite filter_cons. cbn [omap list_omap].
  destruct (decodeRecord (T:=T) r) as [e|] eqn:E.
  - cbn [List.filter]. rewrite (decode_fk _ _ E). case_decide as Hd.
    + rewrite (proj2 (Z.leb_le _ _) Hd). cbn [omap list_omap]. rewrite E. f_equal. exact IH.
    + rewrite (proj2 (Z.leb_gt _ _)) by lia. exact IH.
  - case_decide; [|exact IH]. cbn [omap list_omap]. rewrite E. exact IH.
Qed.

(** Every LT of the window has its record. *)
Lemma window_records (x : X) id n ch : Head x id = Some n ->
  Forall2 (fun lt r => ReadAt n ch lt = Some r) (window_lts (channel_window n ch)) (records n ch).
Proof.
  intros Hn. pose proof (fun lt => law_window x id n ch lt Hn) as Hw. unfold records.
  induction (window_lts (channel_window n ch)) as [|lt lts IH]; [constructor|]. cbn [omap list_omap].
  destruct (Hw lt) as (r & Hr & _); [by left|]. rewrite Hr. constructor; [done|]. apply IH.
  intros lt' Hin. apply Hw. by right.
Qed.

Lemma tree_log_Len l : tree_log_ok l -> xwalLog_Len l = length (xwalLog_Read (T:=T) l).
Proof.
  intros [_ Hd]. unfold xwalLog_Len, xwalLog_Read, chan in *. destruct (Head (lStore l) (ariaID l)) as [n|] eqn:Hn; [|done].
  rewrite decode_length by by apply Hd. by eapply Forall2_length, window_records.
Qed.

Lemma window_last first last_ : ((first =? 0) || (last_ <? first)) = false ->
  exists lts, window_lts (first, last_) = lts ++ [last_].
Proof.
  unfold window_lts. intros E. rewrite E. apply orb_false_iff in E as [_ E]. apply Z.ltb_ge in E.
  exists (seqZ first (last_ - first)). rewrite (seqZ_app first (last_ - first) 1) by lia. f_equal.
  replace (first + (last_ - first)) with last_ by lia. rewrite seqZ_cons by lia. done.
Qed.

Lemma tree_log_PeekTail l : tree_log_ok l -> xwalLog_PeekTail l = last (xwalLog_Read (T:=T) l).
Proof.
  intros [_ Hd]. unfold xwalLog_PeekTail, xwalLog_Read, chan in *. destruct (Head (lStore l) (ariaID l)) as [n|] eqn:Hn; [|done].
  cbn [mbind option_bind]. specialize (Hd _ eq_refl). pose proof (window_records _ _ _ (channel l) Hn) as Hw.
  destruct (channel_window n (channel l)) as [first last_] eqn:Ew.
  destruct ((first =? 0) || (last_ <? first)) eqn:E.
  - unfold window_lts in Hw. rewrite E in Hw. apply Forall2_nil_inv_l in Hw. by rewrite Hw.
  - destruct (window_last _ _ E) as [lts Hl]. rewrite Hl in Hw.
    apply Forall2_app_inv_l in Hw as (rs & rs' & _ & Hw & Er). apply Forall2_cons_inv_l in Hw as (r & rs'' & Hr & Hw & ->).
    apply Forall2_nil_inv_l in Hw as ->. rewrite Hr, Er in *. cbn [mbind option_bind].
    apply Forall_app in Hd as [_ Hd]. apply Forall_cons in Hd as [[e He] _].
    rewrite omap_app. cbn [omap list_omap]. rewrite He. by rewrite last_snoc.
Qed.

Lemma newest_unique (rows : list (Entry T)) e : NoDup (map FigaroLT rows) -> e ∈ rows -> newest rows (FigaroLT e) = Some e.
Proof.
  intros Hnd He. unfold newest. destruct (List.find _ (rev rows)) as [e'|] eqn:E.
  - apply find_some in E as [Hin Ek]. apply Z.eqb_eq in Ek. apply in_rev, list_elem_of_In in Hin. f_equal.
    revert Hnd He Hin Ek. clear. induction rows as [|r rows IH]; intros Hnd He Hin Ek; [by apply not_elem_of_nil in He|].
    cbn in Hnd. apply NoDup_cons in Hnd as [Hr Hnd].
    apply elem_of_cons in He as [->|He]; apply elem_of_cons in Hin as [->|Hin]; [done| | |by apply IH];
      exfalso; apply Hr, list_elem_of_fmap; [exists e'|exists e]; done.
  - apply find_none with (x := e) in E; [|by apply in_rev; rewrite rev_involutive; apply list_elem_of_In].
    by rewrite Z.eqb_refl in E.
Qed.

Lemma newest_none (rows : list (Entry T)) k : (forall e, e ∈ rows -> FigaroLT e <> k) -> newest rows k = None.
Proof.
  intros H. unfold newest. destruct (List.find _ (rev rows)) as [e|] eqn:E; [|done].
  apply find_some in E as [Hin Ek]. apply Z.eqb_eq in Ek. exfalso. apply (H e); [|done].
  by apply list_elem_of_In, in_rev.
Qed.

Lemma tree_log_Lookup l k : tree_log_ok l -> NoDup (map FigaroLT (xwalLog_Read (T:=T) l)) ->
  xwalLog_Lookup l k = newest (xwalLog_Read (T:=T) l) k.
Proof.
  intros [_ Hd] Hnd. unfold xwalLog_Lookup. rewrite Read_chan in *. unfold chan in *.
  destruct (Head (lStore l) (ariaID l)) as [n|] eqn:Hn; [|done]. cbn [mbind option_bind fmap option_fmap option_map default] in *.
  specialize (Hd _ eq_refl). rewrite Forall_forall in Hd. set (rs := records n (channel l)) in *.
  assert (forall r, r ∈ rs -> MainLT r = k -> decodeRecord r = newest (omap decodeRecord rs) k) as Hfound.
  { intros r Hr <-. destruct (Hd r Hr) as [e He]. rewrite He, <- (decode_fk _ _ He). symmetry.
    apply newest_unique; [done|]. apply list_elem_of_omap. by exists r. }
  destruct (ChannelLookup n (channel l) k) as [r|] eqn:El.
  { destruct (law_lookup _ _ _ _ _ _ Hn El) as [Hr Hk]. by apply Hfound. }
  destruct (List.find _ rs) as [r|] eqn:Ef; cbn [mbind option_bind].
  - apply find_some in Ef as [Hr Hk]. apply Hfound; [by apply list_elem_of_In|by apply Z.eqb_eq].
  - symmetry. apply newest_none. intros e (r & Hr & He)%list_elem_of_omap. rewrite (decode_fk _ _ He). intros Hk.
    apply find_none with (x := r) in Ef; [|by apply list_elem_of_In]. by rewrite Hk, Z.eqb_refl in Ef.
Qed.

Lemma tree_log_ReadFrom l k n : ascending (xwalLog_Read (T:=T) l) ->
  glen (xwalLog_Read (T:=T) l) + Z.max 0 n < 2 ^ 63 ->
  Some (xwalLog_ReadFrom l k n) = readFrom (xwalLog_Read (T:=T) l) k n.
Proof.
  intros Ha Hn. unfold readFrom. fold (search_from (xwalLog_Read (T:=T) l) k).
  rewrite copy_window_spec; [|by apply search_from_spec|done].
  rewrite (proj1 (search_from_filter _ k Ha)). unfold xwalLog_ReadFrom, xwalLog_Read.
  destruct (Head (lStore l) (ariaID l)) as [h|]; cbn [List.filter].
  - rewrite decode_filter. destruct (Z.leb_spec n 0), (Z.ltb_spec 0 n); done || lia.
  - rewrite take_nil. by destruct (n <=? 0).
Qed.

Lemma tree_log_write (l l' : xwalLog X) e r : tree_log_ok l -> tree_log_fits l e ->
  xwalLog_Append l e = (l', r) ->
  tree_log_ok l' /\ xwalLog_Read (T:=T) l' = xwalLog_Read l ++ option_list r.
Proof.
  intros [Hm Hd] [[(text & Hj & Hne & Hu) Hfp] Hz]. unfold xwalLog_Append. rewrite Hj.
  pose proof (law_append (lStore l) (ariaID l) (channel l) (if isMain l then 0 else FigaroLT e) text
    (encodeMeta (Fingerprint e))) as H.
  destruct (TreeAppend _ _ _ _ _ _) as [x' [lt|]]; intros [= <- <-]; rewrite !Read_chan; unfold tree_log_ok;
    cbn [lStore ariaID channel isMain fmap option_fmap option_map option_list].
  - destruct H as (rs & H0 & H1 & _). rewrite H0, H1 in *. cbn [default].
    set (rec := mkRecord lt _ text _) in *.
    assert (decodeRecord rec = Some (mkEntry lt (if isMain l then lt else FigaroLT e) (Payload e) (Fingerprint e))) as Hr.
    { unfold decodeRecord, rec. cbn [rPayload ChannelLT MainLT rMeta]. rewrite (bool_decide_eq_false_2 (text = [])) by done.
      rewrite Hu. cbn [mbind option_bind]. rewrite encode_decode_meta by done. do 2 f_equal.
      destruct (isMain l); [by rewrite bool_decide_eq_true_2 by tauto|].
      rewrite bool_decide_eq_false_2 by (intros E; by apply Hm in E). unfold main_lt.
      by rewrite (proj2 (Z.eqb_neq _ _)) by by apply Hz. }
    split.
    + split; [done|]. intros rs' [= <-]. apply Forall_app. split; [by apply Hd|]. apply Forall_singleton. by eexists.
    + unfold id. rewrite omap_app. cbn [omap list_omap]. by rewrite Hr.
  - destruct H as [H _]. rewrite H, app_nil_r. done.
Qed.

Lemma tree_log_refused (l l' : xwalLog X) (e : Entry T) : tree_log_ok l -> xwalLog_Append l e = (l', None) ->
  tree_log_ok l' /\ xwalLog_Read (T:=T) l' = xwalLog_Read l.
Proof.
  intros [Hm Hd]. unfold xwalLog_Append. destruct (json_Marshal (Payload e)) as [text|]; [|by intros [= <-]].
  pose proof (law_append (lStore l) (ariaID l) (channel l) (if isMain l then 0 else FigaroLT e) text
    (encodeMeta (Fingerprint e))) as H.
  destruct (TreeAppend _ _ _ _ _ _) as [x' [lt|]]; intros [= <-]. destruct H as [H _].
  rewrite !Read_chan. unfold tree_log_ok. cbn [lStore ariaID channel isMain]. by rewrite H.
Qed.

Lemma tree_log_clear (l l' : xwalLog X) ok : tree_log_ok l -> xwalLog_Clear l = (l', ok) ->
  tree_log_ok l' /\ xwalLog_Read (T:=T) l' = if ok : bool then [] else xwalLog_Read l.
Proof.
  intros [Hm Hd]. unfold xwalLog_Clear. pose proof (law_clear (lStore l) (ariaID l) (channel l)) as H.
  destruct (TreeClear _ _ _) as [x' []]; intros [= <- <-]; rewrite !Read_chan; unfold tree_log_ok;
    cbn [lStore ariaID channel isMain].
  - destruct H as [H _]. rewrite H. destruct (Head _ _); cbn; (split; [|done]); (split; [done|]); [intros rs [= <-]; constructor|done].
  - destruct H as [H _]. by rewrite H.
Qed.

#[export] Instance xwalLog_wrapped : WrappedLaws (xwalLog X) T.
Proof.
  refine {| wl_wf := tree_log_ok; wl_fits := tree_log_fits |}.
  - intros l Hl. by apply tree_log_Len.
  - intros l Hl. by apply tree_log_PeekTail.
  - intros l k Hl Hnd. by apply tree_log_Lookup.
  - intros l k n _ Ha Hn. by apply tree_log_ReadFrom.
  - done.
  - intros l e l' e' Hl Hf Ha. by apply (tree_log_write l l' e (Some e')).
  - intros l e l' Hl Ha. by apply (tree_log_refused l l' e).
  - intros l l' Hl Hc. by apply (tree_log_clear l l' true).
  - intros l l' Hl Hc. by apply (tree_log_clear l l' false).
Defined.
End cached.
