(* ===== verification/XwalSpec.v ===== *)
(** What the store promises to the supervisor and across a restart.

    The operations of the backend are one inductive type [backend_op], so a
    run is a list of them.  [xwal_restart] compares two backends over one
    disk, one of them opened afresh at every step: the cached boards, handles and
    metadata never change an answer.  [xwal_laws] discharges the interface
    [AngelusFacts.BackendLaws] for the real backend, so the theorems on the
    supervisor hold of it.  [xwal_loadout_once] states the content addressing
    of loadouts.  The file ends with a small fork tree in memory that meets
    the laws asked of the third-party one. *)
From S2P Require Import Prelude Utf8 GoStrings Json GoJson RawJson Message PatchJson Chalkboard Store Registry Angelus AngelusFacts XwalStore XwalLog XwalBackend XwalFacts.
Section restart.
Context {X N D : Type} `{!Figwal X N} `{!TreeLaws X N} `{!ContentModel X} `{!ContentLaws X N}.
Context `{!Sidecar D} `{!SidecarLaws D} `{!Codec Message} `{!Codec (list gostr)}.
#[local] Abbreviation XwalBackend := (XwalBackend X D).
#[local] Abbreviation tree b := (trunks (bStore b)).

(** The calls on a backend and on the logs it opened. *)
Inductive backend_op :=
| BOpen (id : gostr) | BOpenTranslation (id provider : gostr)
| BAppend (id : gostr) (e : Entry Message)
| BAppendTranslation (id provider : gostr) (e : Entry (list gostr)) | BClear (id provider : gostr)
| BState (id : gostr) | BPatches (id : gostr) | BApply (id : gostr) (p : Patch)
| BLoadout (gen name : gostr) (p : Patch) | BConversation (loadout : gostr)
| BFork (id : gostr) | BForkAt (id : gostr) (lt : Z) | BPromote (id : gostr) (levels : Z) | BList
| BMeta (id : gostr) | BSetMeta (id : gostr) (m : AriaMeta) | BRemove (id : gostr) (recursive : bool)
| BClose.

Definition backend_step (b : XwalBackend) (o : backend_op) : XwalBackend :=
  match o with
  | BOpen id => (Open id b).1
  | BOpenTranslation id prov => (OpenTranslation id prov b).1
  | BAppend id e => (ir_Append id e b).1
  | BAppendTranslation id prov e => (trans_Append id prov e b).1
  | BClear id prov => (trans_Clear id prov b).1
  | BState id => (backend_ChalkboardState id b).1
  | BPatches id => (ChalkboardPatches id b).1
  | BApply id p => (backend_ApplyChalkboard id p b).1
  | BLoadout gen name p => (backend_CreateLoadout gen name p b).1
  | BConversation l => (backend_CreateConversation l b).1
  | BFork id => (backend_Fork id b).1
  | BForkAt id lt => (backend_ForkAt id lt b).1
  | BPromote id n => (backend_Promote id n b).1
  | BList => (backend_Nodes b).1
  | BMeta id => (backend_Meta id b).1
  | BSetMeta id m => (backend_SetMeta id m b).1
  | BRemove id rec => (backend_Remove id rec b).1
  | BClose => Close b
  end.

(** What is written can be read back. *)
Definition op_ok (o : backend_op) : Prop :=
  match o with
  | BAppend _ e => entry_ok e
  | BAppendTranslation _ _ e => entry_ok e /\ FigaroLT e <> 0
  | BApply _ p => canonical p
  | BLoadout gen name p => canonical p /\ valid_utf8 name /\ is_Some (json_Unmarshal (T:=Message) gen)
  | _ => True
  end.

Lemma create_loadout_backend gen name p (b : XwalBackend) : backend_ok b -> op_ok (BLoadout gen name p) ->
  backend_ok (backend_CreateLoadout gen name p b).1.
Proof.
  intros Hb (Hp & Hn & Hg). apply (lift_store_ok _ (SCreateLoadout gen name p)); [done|done|].
  destruct (create_loadout_ok gen name p (bStore b)) as [Hs Ht]; [done..|apply Hb|].
  split; [done|by apply same_trunks_grows].
Qed.

Lemma conversation_backend l (b : XwalBackend) : backend_ok b -> backend_ok (backend_CreateConversation l b).1.
Proof.
  intros Hb. apply (lift_store_ok _ (SCreateConversation l)); [done|done|].
  destruct (spawn_ok (tree b) l (ok_tree b Hb)) as [Hg Ht]. unfold store_CreateConversation. by destruct (SpawnUnderStump _ _).
Qed.

Lemma fork_backend id (b : XwalBackend) : backend_ok b -> backend_ok (backend_Fork id b).1.
Proof.
  intros Hb. apply (lift_store_ok _ (SFork id)); [done|done|].
  destruct (fork_ok (tree b) id (ok_tree b Hb)) as [Hg Ht]. unfold store_Fork. by destruct (ForkTail _ _).
Qed.

Lemma fork_at_backend id lt (b : XwalBackend) : backend_ok b -> backend_ok (backend_ForkAt id lt b).1.
Proof.
  intros Hb. apply (lift_store_ok _ (SForkAt id lt)); [done|done|]. unfold store_ForkAt.
  destruct (TreeOwner _ _ _) as [o|]; [|split; [apply Hb|apply grows_refl]].
  destruct (owner_ok (tree b) id lt o (ok_tree b Hb)) as [Hg Ht]. by destruct (fork_owner _ _ _ _).
Qed.

Lemma promote_backend id n (b : XwalBackend) : backend_ok b -> backend_ok (backend_Promote id n b).1.
Proof.
  intros Hb. apply (lift_store_ok _ (SPromote id n)); [done|done|].
  destruct (promote_ok (tree b) id n (ok_tree b Hb)) as [Hg Ht]. unfold store_Promote. by destruct (TreePromote _ _ _).
Qed.

Lemma list_backend (b : XwalBackend) : backend_ok b -> backend_ok (backend_Nodes b).1.
Proof.
  intros Hb. apply (lift_store_ok _ SList).
  - unfold store_Nodes. cbn. by destruct (snapshot_topology _).
  - done.
  - unfold store_Nodes. pose proof (snapshot_same (bStore b)) as E. destruct (snapshot_topology _) as [s t]. cbn in *.
    rewrite E. split; [apply Hb|apply grows_refl].
Qed.

Lemma backend_step_ok (b : XwalBackend) o : backend_ok b -> op_ok o -> backend_ok (backend_step b o).
Proof.
  intros Hb Ho. destruct o; cbn [backend_step op_ok] in *; auto using ir_Append_ok, trans_Clear_ok, OpenTranslation_ok,
    create_loadout_backend, conversation_backend, fork_backend, fork_at_backend, promote_backend, list_backend, Remove_ok.
  - unfold Open. pose proof (handleLocked_ok id b Hb) as H. destruct (handleLocked id b). by destruct H.
  - destruct Ho. by apply trans_Append_ok.
  - unfold backend_ChalkboardState. pose proof (loadChalkboard_ok id b Hb) as H. destruct (loadChalkboard id b). by destruct H.
  - unfold ChalkboardPatches. pose proof (loadChalkboard_ok id b Hb) as H. destruct (loadChalkboard id b). by destruct H.
  - pose proof (ApplyChalkboard_ok id p b Hb Ho) as H. destruct (backend_ApplyChalkboard id p b). by destruct H.
  - pose proof (Meta_ok id b Hb) as H. destruct (backend_Meta id b). by destruct H.
  - pose proof (SetMeta_ok id m b Hb) as H. destruct (backend_SetMeta id m b). by destruct H.
  - destruct Hb as [H1 H2 H3 H4]. split; [done|done|split; apply map_Forall_empty|apply map_Forall_empty].
Qed.

Lemma backend_steps_ok ops (b : XwalBackend) : backend_ok b -> Forall op_ok ops -> backend_ok (foldl backend_step b ops).
Proof. intros Hb Ho. revert b Hb. induction Ho as [|o ops Ho Hs IH]; intros b Hb; [done|]. cbn [foldl]. by apply IH, backend_step_ok. Qed.

(** What a backend shows of an aria. *)
Definition shows (b : XwalBackend) (id : gostr) (board : snapshot) (patches : gmap Z (list Patch))
  (msgs : list (Entry Message)) (translated : gostr -> list (Entry (list gostr))) : Prop :=
  (backend_ChalkboardState id b).2 = Some board /\ (ChalkboardPatches id b).2 = Some patches /\
  crRows <$> (Open id b).2 = Some msgs /\ forall prov, crRows <$> (OpenTranslation id prov b).2 = Some (translated prov).

Lemma open_shows (b : XwalBackend) id n : backend_ok b -> Head (tree b) id = Some n ->
  shows b id (board_of (records n chanChalkboard)).1 (board_of (records n chanChalkboard)).2
    (omap decodeRecord (records n chanIR)) (fun prov => omap decodeRecord (records n (transChannel prov))).
Proof.
  intros Hb Hn. assert (forall ch, chan (tree b) id ch = Some (records n ch)) as Hch by (intros ch; unfold chan; by rewrite Hn).
  pose proof (loadChalkboard_ok id b Hb) as H. unfold shows, backend_ChalkboardState, ChalkboardPatches.
  destruct (loadChalkboard id b) as [b1 r]. destruct H as (_ & _ & _ & H & _). unfold board_at in H. rewrite Hch in H. cbn in H.
  specialize (H (ex_intro _ n Hn)). destruct r as [c|]; [|done]. cbn in H. rewrite (surjective_pairing (board_of _)) in H.
  injection H as <- <-. cbn.
  split; [done|]. split; [done|]. pose proof (handleLocked_ok id b Hb) as Hh. unfold Open, OpenTranslation.
  destruct (handleLocked id b) as [b2 [h|]]; [|destruct Hh as (_ & _ & _ & Hh); by rewrite Hh in Hn].
  destruct Hh as ([_ _ [H3 _] _] & Es & Eh & _). symmetry in Eh. destruct (H3 _ _ Eh) as (_ & Hi & Ht). rewrite Es in *.
  split; [cbn; f_equal; by destruct (Hi _ (Hch _))|]. intros prov. destruct (trans h !! prov) as [t|] eqn:Et; cbn; f_equal.
  - by destruct (Ht _ _ _ Et (Hch _)).
  - by destruct (open_rows_ok (T:=list gostr) (tree b) id (transChannel prov) false _ (Hch _)).
Qed.

(** C8: a restart loses nothing.  The operations write what reads back as it was
    written ([op_ok]): a payload that decodes to itself (a message whose tool
    call has an empty argument map does not, it comes back with nil; nor does
    invalid UTF-8), a patch in the form it has on disk, a translation that names
    its main entry, a loadout whose genesis decodes.  Then whatever was done
    through a backend, failing operations included, every aria that still exists
    shows the same chalkboard, the same patches by turn, the same messages and
    the same translations as through a new backend on the same tree and files,
    and every listing and all metadata are the same too. *)
Theorem xwal_restart (x : X) (d : D) (ops : list backend_op) (Hx : tree_ok x) (Hops : Forall op_ok ops) :
  let b := foldl backend_step (NewXwalBackend x d) ops in
  let r := NewXwalBackend (tree b) (bDisk b) in
  (forall id, is_Some (Head (tree b) id) -> exists board patches msgs translated,
     shows b id board patches msgs translated /\ shows r id board patches msgs translated) /\
  (backend_Nodes b).2 = (backend_Nodes r).2 /\ (backend_Conversations b).2 = (backend_Conversations r).2 /\
  (backend_ConversationIDs b).2 = (backend_ConversationIDs r).2 /\
  (forall id, (backend_Node id b).2 = (backend_Node id r).2) /\
  (forall id, (backend_Meta id b).2 = (backend_Meta id r).2).
Proof.
  cbv zeta. pose proof (backend_steps_ok ops (NewXwalBackend x d) (NewXwalBackend_ok x d Hx) Hops) as Hb.
  set (b := foldl backend_step (NewXwalBackend x d) ops) in *.
  pose proof (NewXwalBackend_ok (tree b) (bDisk b) (ok_tree b Hb)) as Hr.
  assert ((snapshot_topology (bStore b)).2 = (snapshot_topology (mkXwalStore (tree b) None)).2) as Et.
  { pose proof (snapshot_topology_ok (bStore b) (ok_topology b Hb)) as H. destruct (snapshot_topology (bStore b)).
    destruct H as (_ & _ & ->). done. }
  split; [|split; [|split; [|split; [|split]]]].
  - intros id [n Hn]. do 4 eexists. split; by apply open_shows.
  - unfold backend_Nodes, lift_store, store_Nodes. by do 2 destruct (snapshot_topology _); cbn in *; subst.
  - unfold backend_Conversations, lift_store, store_Conversations. by do 2 destruct (snapshot_topology _); cbn in *; subst.
  - unfold backend_ConversationIDs, lift_store, store_ConversationIDs. by do 2 destruct (snapshot_topology _); cbn in *; subst.
  - intros id. unfold backend_Node, lift_store, store_Node. by do 2 destruct (snapshot_topology _); cbn in *; subst.
  - intros id. pose proof (Meta_ok id b Hb) as H1. pose proof (Meta_ok id _ Hr) as H2.
    destruct (backend_Meta id b), (backend_Meta id (NewXwalBackend _ _)). destruct H1 as (_ & _ & ->), H2 as (_ & _ & ->). done.
Qed.
End restart.

(** ** The backend of the supervisor *)

Section supervisor.
Context {X N D : Type} `{!Figwal X N} `{!TreeLaws X N} `{!ContentModel X} `{!ContentLaws X N}.
Context `{!Sidecar D} `{!SidecarLaws D} `{!Codec Message} `{!Codec (list gostr)}.
#[local] Abbreviation XwalBackend := (XwalBackend X D).
#[local] Abbreviation tree b := (trunks (bStore b)).

(** The JSON of a loadout's birth message, at the time it is written. *)
Context (birth : gostr) (Hbirth : is_Some (json_Unmarshal (T:=Message) birth)).

(** What the supervisor calls.  Its reads answer from caches; that a read fills
    a cache changes no later answer, so only the answer is kept. *)
#[export] Instance xwal_ops : BackendOps XwalBackend := {|
  ChalkboardState b id := backend_ChalkboardState id b;
  ApplyChalkboard b id p := backend_ApplyChalkboard id p b;
  CreateLoadout b name p := backend_CreateLoadout birth name p b;
  CreateConversation b l := backend_CreateConversation l b;
  Fork b id := backend_Fork id b;
  ForkAt b id lt := backend_ForkAt id lt b;
  Promote b id n := backend_Promote id n b;
  OwnerResolution := backend_OwnerResolution;
  Node b id := (backend_Node id b).2;
  Nodes b := (backend_Nodes b).2;
  Conversations b := (backend_Conversations b).2;
  ConversationIDs b := (backend_ConversationIDs b).2;
  Meta b id := (backend_Meta id b).2;
  SetMeta b id m := backend_SetMeta id m b;
  Remove b id rec := backend_Remove id rec b |}.

(** The board a reader gets: the cached one, else the channel's. *)
Definition read_board (b : XwalBackend) (id : gostr) : option snapshot :=
  let c := the_chalkCache b id in if ready c then Some (cState c) else fst <$> board_at (tree b) id.

#[export] Instance xwal_model : BoardModel XwalBackend := {|
  board := read_board; sound := backend_ok; writable := canonical; alive b id := is_Some (Head (tree b) id) |}.

Lemma read_board_live (b : XwalBackend) id : backend_ok b -> is_Some (Head (tree b) id) ->
  read_board b id = fst <$> board_at (tree b) id.
Proof.
  intros Hb [n Hn]. unfold read_board. pose proof (the_chalk_ok b id Hb) as Hc.
  destruct (ready (the_chalkCache b id)) eqn:Er; [|done]. destruct (Hc Er) as [_ H]. unfold board_at, chan in *.
  rewrite Hn in *. cbn [fmap option_fmap option_map] in *. by rewrite <-(H _ eq_refl).
Qed.

Lemma read_board_tree (b b' : XwalBackend) id : bChalk b' = bChalk b ->
  chan (tree b') id chanChalkboard = chan (tree b) id chanChalkboard -> read_board b' id = read_board b id.
Proof. intros E1 E2. unfold read_board, the_chalkCache, board_at. by rewrite E1, E2. Qed.

(** No board has an id that was never minted. *)
Lemma read_board_unused (b : XwalBackend) id : backend_ok b -> id ∉ used (tree b) -> read_board b id = None.
Proof.
  intros Hb Hu. unfold read_board. pose proof (the_chalk_ok b id Hb) as Hc.
  destruct (ready (the_chalkCache b id)) eqn:Er; [by destruct (Hc Er)|]. unfold board_at, chan.
  destruct (Head (tree b) id) as [n|] eqn:Hn; [|done]. by apply law_used in Hn.
Qed.

Lemma minted_is_new (b : XwalBackend) s id start : backend_ok b -> backend_ok (set_store s b) ->
  minted (tree b) (trunks s) id start -> minted_board b (set_store s b) id.
Proof.
  intros Hb Hb' (Hn & Hne & Hu & _ & Hi & Ho & _). assert (is_Some (Head (trunks s) id)) as Hl.
  { specialize (Hi chanIR). unfold chan in Hi. by destruct (Head (trunks s) id). }
  split; [done|]. split; [|split; [done|split; [by apply read_board_unused|split]]].
  - split; [|done]. cbn [pSet stamp]. apply map_Forall_singleton. split; [lit_ok|]. exists (JStr id). split; [by constructor|done].
  - cbn [board xwal_model]. rewrite read_board_live by done. unfold board_at. cbn [bStore set_store]. rewrite Hi. by eexists.
  - intros i Hd. apply read_board_tree; [done|]. by apply Ho.
Qed.

Lemma same_boards (b : XwalBackend) s : same (tree b) (trunks s) -> forall i, read_board (set_store s b) i = read_board b i.
Proof. intros [H _] i. apply read_board_tree; [done|]. apply H. Qed.

Lemma chalk_put (b : XwalBackend) id c : the_chalkCache (set_chalk (<[id := c]> (bChalk b)) b) id = c.
Proof. unfold the_chalkCache. cbn. by rewrite lookup_insert_eq. Qed.

Lemma state_law (b : XwalBackend) id : backend_ok b ->
  let '(b', r) := backend_ChalkboardState id b in
  backend_ok b' /\ r = read_board b id /\ forall i, read_board b' i = read_board b i.
Proof.
  intros Hb. unfold backend_ChalkboardState. pose proof (loadChalkboard_ok id b Hb) as H.
  assert (forall i, i <> id -> read_board (loadChalkboard id b).1 i = read_board b i) as Hother.
  { intros i Hi. unfold loadChalkboard. cbv zeta. destruct (ready _); [|destruct (load_chalkboard _ _) as [[? ?]|]];
      unfold read_board, the_chalkCache; cbn; by rewrite lookup_insert_ne. }
  assert (is_Some (Head (tree b) id) \/ read_board (loadChalkboard id b).1 id = read_board b id /\
    (cState <$> (loadChalkboard id b).2) = read_board b id) as Hid.
  { destruct (Head (tree b) id) as [n|] eqn:Hn; [left; by eexists|right]. unfold loadChalkboard. cbv zeta.
    unfold read_board. destruct (ready (the_chalkCache b id)) eqn:Er; cbn [fst snd].
    - by rewrite chalk_put, Er.
    - assert (chan (tree b) id chanChalkboard = None) as Hc by (unfold chan; by rewrite Hn). rewrite (load_gone _ _ _ Hc).
      cbn [fst snd]. rewrite chalk_put, Er. unfold board_at. cbn. by rewrite Hc. }
  destruct (loadChalkboard id b) as [b' r]. destruct H as (Hb' & Es & _ & Hr & Hnone & Hsome). cbn [fst snd] in *. split; [done|].
  destruct Hid as [Hl|[H1 H2]].
  - split.
    + rewrite read_board_live by done. rewrite <-(Hr Hl). by destruct r.
    + intros i. destruct (decide (i = id)) as [->|Hi]; [|by apply Hother]. rewrite !read_board_live by (rewrite ?Es; done). by rewrite Es.
  - split; [done|]. intros i. destruct (decide (i = id)) as [->|Hi]; [done|by apply Hother].
Qed.

Lemma apply_law (b : XwalBackend) id p : backend_ok b -> canonical p ->
  match backend_ApplyChalkboard id p b with
  | (b', true) => backend_ok b' /\ exists snap, read_board b id = Some snap /\
      read_board b' id = Some (Snapshot.Apply snap p) /\ forall i, i <> id -> read_board b' i = read_board b i
  | (b', false) => backend_ok b' /\ forall i, read_board b' i = read_board b i
  end.
Proof.
  intros Hb Hp. pose proof (ApplyChalkboard_ok id p b Hb Hp) as H.
  assert (forall i, i <> id -> bChalk (backend_ApplyChalkboard id p b).1 !! i = bChalk b !! i) as Hc.
  { intros i Hi. unfold backend_ApplyChalkboard. cbv zeta. destruct (TreeAppend _ _ _ _ _ _) as [x [l|]]; cbn; by rewrite lookup_insert_ne. }
  assert ((backend_ApplyChalkboard id p b).2 = false -> the_chalkCache (backend_ApplyChalkboard id p b).1 id = the_chalkCache b id) as Hf.
  { unfold backend_ApplyChalkboard. cbv zeta. destruct (TreeAppend _ _ _ _ _ _) as [x [l|]]; [done|]. intros _. 
    unfold the_chalkCache at 1. cbn. by rewrite lookup_insert_eq. }
  destruct (backend_ApplyChalkboard id p b) as [b' ok]. cbn [fst snd] in *. destruct H as [Hb' H]. destruct ok.
  - split; [done|]. destruct H as (st & H1 & (st' & H2 & H3) & (Ho & _)).
    assert (forall (b : XwalBackend) st, board_at (tree b) id = Some st -> is_Some (Head (tree b) id)) as Hl.
    { intros b0 st0. unfold board_at, chan. by destruct (Head (tree b0) id). }
    exists st.1. rewrite !read_board_live by eauto. rewrite H1, H2. cbn. rewrite H3. split; [done|]. split; [done|].
    intros i Hi. unfold read_board, the_chalkCache, board_at. rewrite Hc, Ho by auto. done.
  - split; [done|]. intros i. unfold read_board, board_at. rewrite (proj1 H).
    destruct (decide (i = id)) as [->|Hi]; [by rewrite Hf|]. unfold the_chalkCache. by rewrite Hc.
Qed.

Lemma conversation_law (b : XwalBackend) l : backend_ok b ->
  match backend_CreateConversation l b with
  | (b', Some id) => backend_ok b' /\ minted_board b b' id
  | (b', None) => backend_ok b' /\ forall i, read_board b' i = read_board b i
  end.
Proof.
  intros Hb. pose proof (conversation_backend l b Hb) as Hb'. unfold backend_CreateConversation, lift_store, store_CreateConversation in *.
  pose proof (law_spawn (tree b) l) as H. destruct (SpawnUnderStump _ _) as [x [id|]]; cbn [fst] in *; (split; [done|]).
  - by eapply minted_is_new.
  - by apply same_boards.
Qed.

Lemma fork_law (b : XwalBackend) id : backend_ok b ->
  match backend_Fork id b with
  | (b', Some (_, alt)) => backend_ok b' /\ alt <> id /\ minted_board b b' alt
  | (b', None) => backend_ok b' /\ forall i, read_board b' i = read_board b i
  end.
Proof.
  intros Hb. pose proof (fork_backend id b Hb) as Hb'. unfold backend_Fork, lift_store, store_Fork in *.
  pose proof (law_fork (tree b) id) as H. destruct (ForkTail _ _) as [x [alt|]]; cbn [fst fmap option_fmap option_map] in *; (split; [done|]).
  - destruct H as (start & Hs & Hm). split; [|by eapply minted_is_new]. intros ->. apply (proj1 Hm).
    specialize (Hs chanIR). unfold chan in Hs. destruct (Head (tree b) id) eqn:En; [by eapply law_used|done].
  - by apply same_boards.
Qed.

Lemma fork_at_law (b : XwalBackend) id lt : backend_ok b ->
  match backend_ForkAt id lt b with
  | (b', Some (_, alt)) => backend_ok b' /\ alt <> id /\ minted_board b b' alt
  | (b', None) => backend_ok b' /\ forall i, read_board b' i = read_board b i
  end.
Proof.
  intros Hb. pose proof (fork_at_backend id lt b Hb) as Hb'. unfold backend_ForkAt, lift_store, store_ForkAt in *.
  destruct (TreeOwner _ _ _) as [o|] eqn:Eo; [|by destruct b]. apply law_owner in Eo.
  assert (match fork_owner id lt o (tree b) with
    | (x', Some alt) => exists start, minted (tree b) x' alt start
    | (x', None) => same (tree b) x' end) as H.
  { unfold fork_owner. destruct (xIsRoot o); [|case_bool_decide].
    - pose proof (law_root (tree b)) as Hl. destruct (SpawnUnderRoot _) as [x [alt|]]; eauto.
    - pose proof (law_spawn (tree b) (xStump o)) as Hl. destruct (SpawnUnderStump _ _) as [x [alt|]]; eauto.
    - pose proof (law_fork_at (tree b) id lt) as Hl. destruct (TreeForkAt _ _ _) as [x [alt|]]; [|done]. destruct Hl as (st & _ & Hl). eauto. }
  destruct (fork_owner _ _ _ _) as [x [alt|]]; cbn [fst fmap option_fmap option_map] in *; (split; [done|]).
  - destruct H as (start & Hm). split; [|by eapply minted_is_new]. intros ->. by apply (proj1 Hm).
  - by apply same_boards.
Qed.

Lemma remove_law (b : XwalBackend) id rec : backend_ok b ->
  let b' := (backend_Remove id rec b).1 in
  backend_ok b' /\ forall i, read_board b' i = None \/ read_board b' i = read_board b i.
Proof.
  intros Hb b'. pose proof (Remove_ok id rec b Hb) as Hb'. split; [done|]. intros i. subst b'.
  unfold backend_Remove, lift_store, RemoveLeaf in *. pose proof (law_remove (tree b) id rec) as (Hh & _). cbn in *.
  destruct (TreeRemove (tree b) id rec) as [x ok]. cbn in *. unfold read_board at 1 2. unfold the_chalkCache. cbn.
  destruct (decide (i = id)) as [->|Hi].
  - rewrite lookup_delete_eq. cbn. destruct (Hh id) as [Hn|Hc]; [left|].
    + unfold board_at, chan. cbn. by rewrite Hn.
    + unfold board_at. cbn. rewrite Hc. destruct (Head (tree b) id) as [n|] eqn:Hn.
      * right. rewrite (read_board_live b id Hb) by by eexists. done.
      * left. unfold chan. by rewrite Hn.
  - rewrite lookup_delete_ne by done. fold (the_chalkCache b i). unfold read_board.
    destruct (ready (the_chalkCache b i)); [by right|]. unfold board_at. cbn. destruct (Hh i) as [Hn|Hc]; [left|right].
    + unfold chan. by rewrite Hn.
    + by rewrite Hc.
Qed.

#[export] Instance xwal_laws : BackendLaws XwalBackend.
Proof.
  split; cbn [board sound writable alive xwal_model].
  - intros b id Hb. by apply state_law.
  - intros b id p Hb Hp. by apply apply_law.
  - intros b name p Hb Hp Hn. cbv zeta. split; [by apply create_loadout_backend|]. intros i.
    change (fst (CreateLoadout b name p)) with (backend_CreateLoadout birth name p b).1.
    destruct (create_loadout_ok birth name p (bStore b)) as [[Hs _] _]; [done|done|done|apply Hb|].
    unfold backend_CreateLoadout, lift_store. destruct (store_CreateLoadout _ _ _ _) as [s r]. cbn [fst] in *.
    apply read_board_tree; [done|apply Hs].
  - intros b l Hb. by apply conversation_law.
  - intros b id Hb. by apply fork_law.
  - intros b id lt Hb. by apply fork_at_law.
  - intros b id n Hb. cbv zeta. split; [by apply promote_backend|]. intros i.
    change (fst (Promote b id n)) with (backend_Promote id n b).1. unfold backend_Promote, lift_store, store_Promote.
    pose proof (law_promote (tree b) id n) as H. destruct (TreePromote _ _ _) as [x r]. by apply same_boards.
  - intros b id m Hb. cbv zeta. pose proof (SetMeta_ok id m b Hb) as H.
    change (fst (SetMeta b id m)) with (backend_SetMeta id m b).1.
    assert (bChalk (backend_SetMeta id m b).1 = bChalk b) as Ec by (unfold backend_SetMeta; by destruct (writeJSON _ _ _) as [? []]).
    destruct (backend_SetMeta id m b) as [b' ok]. destruct H as [Hb' Es]. cbn [fst] in *. rewrite Es. split; [done|]. split; [|done].
    intros i. apply read_board_tree; [done|by rewrite Es].
  - intros b id rec Hb. by apply remove_law.
Qed.
End supervisor.

(** ** Loadouts *)

Section loadouts.
Context {X N : Type} `{!Figwal X N} `{!TreeLaws X N}.
#[local] Abbreviation XwalStore := (XwalStore X).

(** C11: creating a loadout gives the id made of its name and the hash of its
    contents, by which it is listed; asking again for the same contents gives
    the same id and changes nothing. *)
Theorem xwal_loadout_once `{!StumpLaws X N} (gen gen' name : gostr) (p : Patch) (s s' : XwalStore) (id : gostr)
  (Hs : topology_ok s) (Hc : store_CreateLoadout gen name p s = (s', Some id)) :
  (exists ver, contentVersion p = Some ver /\ splitLoadoutKey id = (name, ver) /\
     mkNode id rootID loadoutKind name ver false [] [] 0 ∈ (store_Nodes s').2) /\
  store_CreateLoadout gen' name p s' = (s', Some id).
Proof.
  assert (topology_ok s') as Hs' by (pose proof (store_step_topology s (SCreateLoadout gen name p) Hs) as H; cbn in H; by rewrite Hc in H).
  unfold store_CreateLoadout in Hc |- *. destruct (contentVersion p) as [ver|] eqn:Ev; [|done].
  assert (id = loadoutStump name ver /\ loadoutStump name ver ∈ Stumps (trunks s')) as [-> Hin].
  { case_bool_decide as Hd; [by injection Hc as <- <-|].
    destruct (CreateStump _ _) as [x [|]] eqn:Ec; [|done]. apply created_listed in Ec.
    pose proof (birth_stumps gen (loadoutStump name ver) (stampLoadout p name ver) (with_trunks x s)) as Hb.
    destruct (writeStumpBirth _ _ _ _) as [s2 [|]]; [|done]. injection Hc as <- <-. cbn [fst] in Hb. by rewrite Hb. }
  split; [|by rewrite bool_decide_eq_true_2 by done]. exists ver. split; [done|].
  assert (x40 ∉ ver) as Hv.
  { unfold contentVersion in Ev. destruct (marshal_patch p) as [v|]; [|done]. cbn in Ev.
    apply hash_hex in Ev. rewrite Forall_forall in Ev. intros H%Ev. unfold hex_digit in H. change (bz x40) with 64 in H. lia. }
  split; [by apply split_loadout|]. pose proof (snapshot_topology_ok s' Hs') as H. unfold store_Nodes.
  destruct (snapshot_topology s') as [s2 t]. destruct H as (_ & _ & ->). cbn. rewrite elem_of_app, elem_of_cons. right. right.
  apply list_elem_of_fmap. exists (loadoutStump name ver). split; [|done]. unfold loadout_node. by rewrite split_loadout.
Qed.

(** When the birth of a new loadout cannot be written the stump stays: asking
    again gives an id whose stump has no chalkboard. *)
Lemma loadout_half_born `{!StumpLaws X N} gen name p (s : XwalStore) ver x :
  contentVersion p = Some ver -> loadoutStump name ver ∉ Stumps (trunks s) ->
  CreateStump (trunks s) (loadoutStump name ver) = (x, true) -> StumpHead x (loadoutStump name ver) = false ->
  let s' := (store_CreateLoadout gen name p s).1 in
  (store_CreateLoadout gen name p s).2 = None /\
  store_CreateLoadout gen name p s' = (s', Some (loadoutStump name ver)).
Proof.
  intros Hv Hn Hc Hh. unfold store_CreateLoadout. rewrite Hv, bool_decide_eq_false_2, Hc by done. cbv zeta.
  unfold writeStumpBirth. cbn [trunks with_trunks]. rewrite Hh. cbn. split; [done|].
  apply created_listed in Hc. by rewrite bool_decide_eq_true_2.
Qed.
End loadouts.

(** ** Witnesses: a tree in memory *)

#[local] Abbreviation toy_chans := (gmap gostr (list (Z * gostr * gostr))).
Record toy_tree := mkTree {
  ttTrunks : gmap gostr (gostr * gostr * toy_chans);      (* parent, stump, channels *)
  ttStumps : gmap gostr toy_chans; ttVersion : Z; ttGone : gset gostr }.

Definition toy_used (x : toy_tree) : gset gostr := ttGone x ∪ dom (ttTrunks x).
Definition toy_mint (x : toy_tree) : gostr := repeat x78 (S (length (concat (base.elements (toy_used x))))).
Definition toy_records (n : toy_chans) (ch : gostr) : list xrecord :=
  imap (fun i '(m, p, me) => mkRecord (Z.of_nat i + 1) m p me) (default [] (n !! ch)).
Definition toy_spawn (x : toy_tree) (parent st : gostr) (n : toy_chans) : toy_tree * option gostr :=
  let id := toy_mint x in
  (mkTree (<[id := (parent, st, n)]> (ttTrunks x)) (ttStumps x) (ttVersion x + 1) (ttGone x), Some id).
Definition toy_put (n : toy_chans) (ch : gostr) (r : Z * gostr * gostr) : toy_chans :=
  <[ch := default [] (n !! ch) ++ [r]]> n.
Definition toy_stump_put (x : toy_tree) (st ch : gostr) (f : Z -> Z * gostr * gostr) : toy_tree * option Z :=
  match ttStumps x !! st with
  | None => (x, None)
  | Some n => let l := Z.of_nat (length (default [] (n !! ch))) + 1 in
      (mkTree (ttTrunks x) (<[st := toy_put n ch (f l)]> (ttStumps x)) (ttVersion x + 1) (ttGone x), Some l)
  end.

#[local] Instance toy_figwal : Figwal toy_tree toy_chans := {|
  Head x id := snd <$> ttTrunks x !! id;
  Channels n := map (fun kv => (kv.1, 1, Z.of_nat (length kv.2))) (map_to_list n);
  ReadAt n ch lt := match (default [] (n !! ch)) !! Z.to_nat (lt - 1) with
                    | Some (m, p, me) => Some (mkRecord lt m p me) | None => None end;
  ChannelLookup _ _ _ := None;
  Stumps x := base.elements (dom (ttStumps x));
  ListLight x := map (fun kv => mkTrunk kv.1 kv.2.1.1 kv.2.1.2 0) (map_to_list (ttTrunks x));
  TreeVersion := ttVersion;
  TreeOwner x id lt := (fun _ => mkXOwner id [] false) <$> ttTrunks x !! id;
  CreateStump x st := match ttStumps x !! st with
    | Some _ => (x, false)
    | None => (mkTree (ttTrunks x) (<[st := ∅]> (ttStumps x)) (ttVersion x + 1) (ttGone x), true)
    end;
  StumpHead x st := bool_decide (is_Some (ttStumps x !! st));
  StumpAppendMain x st g := toy_stump_put x st chanIR (fun l => (l, g, []));
  StumpAppend x st ch lt p := let '(x, r) := toy_stump_put x st ch (fun _ => (lt, p, [])) in
                              (x, bool_decide (is_Some r));
  StumpFlush x _ := (x, true);
  SpawnUnderStump x st := match ttStumps x !! st with Some n => toy_spawn x [] st n | None => (x, None) end;
  SpawnUnderRoot x := toy_spawn x [] [] ∅;
  ForkTail x id := match ttTrunks x !! id with Some (_, st, n) => toy_spawn x id st n | None => (x, None) end;
  TreeForkAt x id _ := match ttTrunks x !! id with Some (_, st, n) => toy_spawn x id st n | None => (x, None) end;
  TreePromote x _ _ := (x, AtStump);
  TreeAppend x id ch lt p me := match ttTrunks x !! id with
    | None => (x, None)
    | Some (pa, st, n) =>
        let l := wrapu64 (Z.of_nat (length (default [] (n !! ch))) + 1) in
        if negb (l =? Z.of_nat (length (default [] (n !! ch))) + 1) then (x, None) else
        let next := match last (toy_records n chanIR) with Some r => wrapu64 (ChannelLT r + 1) | None => 1 end in
        let main := if bool_decide (ch = chanIR) then l else if lt =? 0 then next else lt in
        (mkTree (<[id := (pa, st, toy_put n ch (main, p, me))]> (ttTrunks x)) (ttStumps x) (ttVersion x + 1) (ttGone x), Some l)
    end;
  TreeClear x id ch := match ttTrunks x !! id with
    | None => (x, false)
    | Some (pa, st, n) => (mkTree (<[id := (pa, st, <[ch := []]> n)]> (ttTrunks x)) (ttStumps x) (ttVersion x + 1) (ttGone x), true)
    end;
  TreeRemove x id _ := (mkTree (delete id (ttTrunks x)) (ttStumps x) (ttVersion x + 1) (dom (ttTrunks x) ∪ ttGone x), true);
  ValueHash _ := Some #"ab" |}.

Lemma toy_window n ch : channel_window n ch =
  match n !! ch with Some l => (1, Z.of_nat (length l)) | None => (0, 0) end.
Proof.
  unfold channel_window. cbn [Channels toy_figwal].
  assert (List.find (fun c : gostr * Z * Z => bool_decide (c.1.1 = ch))
      (map (fun kv : gostr * list (Z * gostr * gostr) => (kv.1, 1, Z.of_nat (length kv.2))) (map_to_list n)) =
    (fun l => (ch, 1, Z.of_nat (length l))) <$> (n !! ch)) as ->; [|by destruct (n !! ch)].
  induction n as [|k v n Hk Hf IH] using map_first_key_ind.
  - rewrite map_to_list_empty. by rewrite lookup_empty.
  - rewrite map_to_list_insert_first_key by done. cbn [map List.find fst]. case_bool_decide as E.
    + subst. by rewrite lookup_insert_eq.
    + by rewrite lookup_insert_ne, IH.
Qed.

Lemma omap_seq {A B} (h : nat -> A -> B) (l0 l : list A) k : (forall i, l0 !! (k + i)%nat = l !! i) ->
  omap (fun i => h i <$> l0 !! i) (seq k (length l)) = imap (fun i => h (k + i)%nat) l.
Proof.
  revert k. induction l as [|a l IH]; intros k Hk; [done|]. cbn [length seq omap list_omap imap].
  specialize (Hk 0%nat) as H0. rewrite Nat.add_0_r in H0. rewrite H0. cbn. rewrite Nat.add_0_r. f_equal.
  rewrite IH.
  - apply imap_ext. intros i x _. cbn. f_equal. lia.
  - intros i. etrans; [|exact (Hk (S i))]. f_equal. lia.
Qed.

Lemma toy_records_of n ch : records n ch = toy_records n ch.
Proof.
  unfold records, toy_records. rewrite toy_window. destruct (n !! ch) as [l|] eqn:E; [|done]. change (default [] (Some l)) with l.
  unfold window_lts. change (1 =? 0) with false. cbn [orb]. destruct (Z.ltb_spec (Z.of_nat (length l)) 1) as [Hl|Hl].
  { destruct l; [done|cbn [length] in Hl; lia]. }
  replace (Z.of_nat (length l) - 1 + 1) with (Z.of_nat (length l)) by lia. unfold seqZ. rewrite Nat2Z.id.
  etrans; [|exact (omap_seq (fun i '(m, p, me) => mkRecord (Z.of_nat i + 1) m p me) l l 0 (fun _ => eq_refl))].
  induction (seq 0 (length l)) as [|i q IH]; [done|]. cbn [fmap list_fmap omap list_omap]. rewrite IH.
  cbn [ReadAt toy_figwal]. rewrite E. change (default [] (Some l)) with l.
  replace (Z.to_nat (Z.of_nat i + 1 - 1)) with i by lia. by destruct (l !! i) as [[[m p] me]|].
Qed.

Lemma toy_records_put n ch m p me : toy_records (toy_put n ch (m, p, me)) ch =
  toy_records n ch ++ [mkRecord (Z.of_nat (length (default [] (n !! ch))) + 1) m p me].
Proof. unfold toy_records, toy_put. rewrite lookup_insert_eq. change (default [] (Some ?x)) with x. rewrite imap_app. cbn. do 4 f_equal. lia. Qed.

Lemma toy_records_other n ch ch' r : ch' <> ch -> toy_records (toy_put n ch r) ch' = toy_records n ch'.
Proof. intros H. unfold toy_records, toy_put. by rewrite lookup_insert_ne. Qed.

Lemma toy_next n ch : match last (toy_records n ch) with Some r => wrapu64 (ChannelLT r + 1) | None => 1 end =
  wrapu64 (Z.of_nat (length (default [] (n !! ch))) + 1).
Proof.
  unfold toy_records. generalize (default [] (n !! ch)). intros l.
  destruct l as [|[[m p] me] l _] using rev_ind; [done|]. rewrite imap_app. cbn [imap]. rewrite last_snoc, length_app. cbn. f_equal. lia.
Qed.

#[local] Instance toy_content : ContentModel toy_tree := {|
  origin x o ch := match o with
    | Some st => toy_records (default ∅ (ttStumps x !! st)) ch
    | None => [] end;
  used := toy_used |}.

Lemma toy_chan x id ch : chan x id ch = (fun t => toy_records t.2 ch) <$> ttTrunks x !! id.
Proof. unfold chan. cbn [Head toy_figwal]. destruct (ttTrunks x !! id) as [t|]; [|done]. cbn. by rewrite toy_records_of. Qed.

Lemma toy_mint_new x : toy_mint x ∉ toy_used x.
Proof.
  intros Hin. apply elem_of_elements in Hin. unfold toy_mint in *. revert Hin. generalize (base.elements (toy_used x)). intros l Hin.
  assert (forall l (k : gostr), k ∈ l -> (length k <= length (concat l))%nat) as Hlen.
  { clear. intros l k Hk. induction l as [|y l IH]; [by apply not_elem_of_nil in Hk|]. cbn. rewrite length_app.
    apply elem_of_cons in Hk as [->|Hk]; [lia|]. specialize (IH Hk). lia. }
  apply Hlen in Hin. rewrite repeat_length in Hin. lia.
Qed.

Lemma toy_spawn_minted x pa st n : let '(x', r) := toy_spawn x pa st n in
  exists id, r = Some id /\ minted x x' id (toy_records n).
Proof.
  unfold toy_spawn. exists (toy_mint x). split; [done|]. split; [apply toy_mint_new|]. split; [done|].
  split; [apply ascii_utf8; unfold toy_mint; apply Forall_forall; intros c Hc; apply list_elem_of_In, repeat_spec in Hc as ->; done|].
  split; [|split; [|split]].
  - unfold used, toy_content, toy_used. cbn. rewrite dom_insert_L. set_solver.
  - intros c. rewrite toy_chan. cbn. by rewrite lookup_insert_eq.
  - intros i c Hi. rewrite !toy_chan. cbn. by rewrite lookup_insert_ne.
  - done.
Qed.

Lemma toy_same x : same (X:=toy_tree) x x.
Proof. done. Qed.

#[local] Instance toy_contents : ContentLaws toy_tree toy_chans.
Proof.
  split.
  - intros x id n Hn. cbn in *. unfold toy_used. destruct (ttTrunks x !! id) eqn:E; [|done]. apply elem_of_union_r, elem_of_dom. eauto.
  - intros x id lt o Ho. cbn in *. unfold toy_used. destruct (ttTrunks x !! id) eqn:E; [|done]. apply elem_of_union_r, elem_of_dom. eauto.
  - intros x id n ch lt _. rewrite toy_window. destruct (n !! ch) as [l|] eqn:E; cbn; [|by intros ?%not_elem_of_nil].
    destruct (Z.ltb_spec (Z.of_nat (length l)) 1); [by intros ?%not_elem_of_nil|]. intros Hlt%elem_of_seqZ. rewrite E.
    change (default [] (Some l)) with l. destruct (lookup_lt_is_Some_2 l (Z.to_nat (lt - 1))) as [[[m p] me] Hm]; [lia|].
    rewrite Hm. by eexists.
  - intros x id ch lt p m. cbn [TreeAppend toy_figwal]. destruct (ttTrunks x !! id) as [[[pa st] n]|] eqn:E; [|done].
    cbv zeta. destruct (negb _) eqn:El; [done|]. apply negb_false_iff, Z.eqb_eq in El.
    exists (toy_records n ch). rewrite !toy_chan, E. cbn [fmap option_fmap option_map snd ttTrunks]. rewrite lookup_insert_eq.
    split; [done|]. split; [|split; [|split; [|split]]].
    + cbn [fmap option_fmap option_map snd]. rewrite toy_records_put, El. do 4 f_equal. unfold main_lt, next_record. rewrite toy_chan, E. done.
    + intros ->. unfold next_record. by rewrite toy_next, El.
    + intros i c Hne. rewrite !toy_chan. cbn [ttTrunks]. destruct (decide (i = id)) as [->|Hi]; [|by rewrite lookup_insert_ne].
      rewrite lookup_insert_eq, E. cbn. rewrite toy_records_other; [done|]. by destruct Hne.
    + done.
    + unfold used, toy_content, toy_used. cbn. rewrite dom_insert_lookup_L by by eexists. done.
  - intros x id ch. cbn [TreeClear toy_figwal]. destruct (ttTrunks x !! id) as [[[pa st] n]|] eqn:E; [|done].
    rewrite toy_chan. cbn [ttTrunks Head toy_figwal]. rewrite lookup_insert_eq, E. cbn [fmap option_fmap option_map snd].
    split; [unfold toy_records; by rewrite lookup_insert_eq|]. split; [|split].
    + intros i c Hne. rewrite !toy_chan. cbn [ttTrunks]. destruct (decide (i = id)) as [->|Hi]; [|by rewrite lookup_insert_ne].
      rewrite lookup_insert_eq, E. cbn. unfold toy_records. rewrite lookup_insert_ne; [done|]. by destruct Hne.
    + done.
    + unfold used, toy_content, toy_used. cbn. rewrite dom_insert_lookup_L by by eexists. done.
  - intros x st. cbn [SpawnUnderStump toy_figwal]. destruct (ttStumps x !! st) as [n|] eqn:E; [|done].
    pose proof (toy_spawn_minted x [] st n) as H. destruct (toy_spawn x [] st n) as [x' r]. destruct H as (id & -> & H).
    cbn. rewrite E. exact H.
  - intros x. cbn [SpawnUnderRoot toy_figwal].
    pose proof (toy_spawn_minted x [] [] ∅) as H. destruct (toy_spawn x [] [] ∅) as [x' r]. destruct H as (id & -> & H). exact H.
  - intros x id. cbn [ForkTail toy_figwal]. destruct (ttTrunks x !! id) as [[[pa st] n]|] eqn:E; [|done].
    pose proof (toy_spawn_minted x id st n) as H. destruct (toy_spawn x id st n) as [x' r]. destruct H as (alt & -> & H).
    exists (toy_records n). split; [|done]. intros c. by rewrite toy_chan, E.
  - intros x id lt. cbn [TreeForkAt toy_figwal]. destruct (ttTrunks x !! id) as [[[pa st] n]|] eqn:E; [|done].
    pose proof (toy_spawn_minted x id st n) as H. destruct (toy_spawn x id st n) as [x' r]. destruct H as (alt & -> & H).
    exists (toy_records n). split; [|done]. intros c. exists (toy_records n c). split; [by rewrite toy_chan, E|done].
  - done.
  - intros x id r. cbn [TreeRemove toy_figwal fst]. split; [|split].
    + intros i. destruct (decide (i = id)) as [->|Hi]; [left; cbn; by rewrite lookup_delete_eq|right]. intros c. rewrite !toy_chan. cbn.
      by rewrite lookup_delete_ne.
    + done.
    + unfold used, toy_content, toy_used. cbn. rewrite dom_delete_L. set_solver.
  - intros x st. cbn [CreateStump toy_figwal]. destruct (ttStumps x !! st) as [n|] eqn:E; [done|]. split_and!; [|done| |].
    + intros i c. by rewrite !toy_chan.
    + intros c. cbn. by rewrite lookup_insert_eq.
    + intros [st'|] c Hne; cbn; [|done]. rewrite lookup_insert_ne by congruence. done.
  - intros x st g. cbn [StumpAppendMain toy_figwal]. unfold toy_stump_put. destruct (ttStumps x !! st) as [n|] eqn:E; [|done]. split_and!; [|done| |].
    + intros i c. by rewrite !toy_chan.
    + cbn. rewrite lookup_insert_eq, E. change (default ∅ (Some ?x)) with x. apply toy_records_put.
    + intros [st'|] c Hne; cbn; [|done]. destruct (decide (st' = st)) as [->|Hst]; [|by rewrite lookup_insert_ne by congruence].
      rewrite lookup_insert_eq, E. change (default ∅ (Some ?x)) with x. apply toy_records_other. destruct Hne; congruence.
  - intros x st ch lt p. cbn [StumpAppend toy_figwal]. unfold toy_stump_put. destruct (ttStumps x !! st) as [n|] eqn:E; [|done].
    cbn [fst]. rewrite bool_decide_eq_true_2 by by eexists. split_and!; [|done| |].
    + intros i c. by rewrite !toy_chan.
    + cbn. rewrite lookup_insert_eq, E. change (default ∅ (Some ?x)) with x. rewrite toy_records_put. by eexists.
    + intros [st'|] c Hne; cbn; [|done]. destruct (decide (st' = st)) as [->|Hst]; [|by rewrite lookup_insert_ne by congruence].
      rewrite lookup_insert_eq, E. change (default ∅ (Some ?x)) with x. apply toy_records_other. destruct Hne; congruence.
  - done.
Qed.

Lemma toy_evolves x x' : ttVersion x < ttVersion x' \/ x = x' -> evolves (N:=toy_chans) x x'.
Proof. intros [H| ->]; [by left|reflexivity]. Qed.

#[local] Instance toy_tree_laws : TreeLaws toy_tree toy_chans.
Proof.
  split; intros; try apply toy_evolves; cbn; unfold toy_spawn, toy_stump_put; cbn; repeat case_match; simplify_eq; cbn;
    try (right; reflexivity); try (left; lia).
  match goal with H : ValueHash _ = Some _ |- _ => injection H as <- end.
  repeat (apply Forall_cons; split; [right; vm_compute; split; discriminate|]). apply Forall_nil_2.
Qed.

#[local] Instance toy_stump_laws : StumpLaws toy_tree toy_chans.
Proof.
  split.
  - intros x st x' E. cbn in *. destruct (ttStumps x !! st) eqn:Es; [done|]. injection E as <-. cbn.
    apply elem_of_elements. rewrite dom_insert_L. set_solver.
  - intros x st g. cbn. unfold toy_stump_put. destruct (ttStumps x !! st) eqn:E; [|done]. cbn.
    by rewrite dom_insert_lookup_L by by eexists.
  - intros x st ch lt p. cbn. unfold toy_stump_put. destruct (ttStumps x !! st) eqn:E; [|done]. cbn.
    by rewrite dom_insert_lookup_L by by eexists.
  - done.
Qed.

#[local] Instance toy_sidecar : Sidecar (gmap gostr AriaMeta) := {|
  readJSON d id := Some (d !! id); writeJSON d id m := (<[id := m]> d, true); removeFile d id := delete id d |}.
#[local] Instance toy_sidecar_laws : SidecarLaws (gmap gostr AriaMeta).
Proof.
  split; intros; cbn.
  - split; [by rewrite lookup_insert_eq|]. intros i Hi. by rewrite lookup_insert_ne.
  - by rewrite lookup_delete_ne.
Qed.

(** A codec for two values. *)
#[local] Instance ex_message_codec : Codec Message := {|
  json_zero := zero_Message; json_Marshal m := if bool_decide (m = zero_Message) then Some #"{}" else None;
  json_Unmarshal text := if bool_decide (text = #"{}") then Some zero_Message else None |}.
#[local] Instance ex_raws_codec : Codec (list gostr) := {|
  json_zero := []; json_Marshal l := match l with [] => Some #"[]" | _ => None end;
  json_Unmarshal text := if bool_decide (text = #"[]") then Some [] else None |}.

Definition ex_tree : toy_tree := mkTree ∅ ∅ 0 ∅.
Definition ex_patch : Patch := mkPatch {[ #"mood" := Print (JStr #"calm")]} [].

(** A loadout, a conversation under it, messages and a patch, a fork, and the
    removal of the fork. *)
Definition ex_ops : list backend_op :=
  [BLoadout #"{}" #"home" ex_patch; BConversation #"home@ab"; BOpen #"x"; BState #"x";
   BAppend #"x" (mkEntry 0 0 zero_Message #"f"); BApply #"x" ex_patch; BOpenTranslation #"x" #"p";
   BAppendTranslation #"x" #"p" (mkEntry 0 1 [] []); BFork #"x"; BSetMeta #"x" no_meta; BRemove #"xx" false].
Definition ex_after : XwalBackend toy_tree (gmap gostr AriaMeta) := foldl backend_step (NewXwalBackend ex_tree ∅) ex_ops.

Lemma ex_tree_ok : tree_ok ex_tree.
Proof.
  split.
  - intros id ch rs. rewrite toy_chan. cbn. by rewrite lookup_empty.
  - intros [st|] ch; cbn; [rewrite lookup_empty|]; constructor.
Qed.

Lemma ex_patch_canonical : canonical ex_patch.
Proof.
  split; [|constructor]. apply map_Forall_singleton. split; [lit_ok|]. exists (JStr #"calm"). split; [constructor; lit_ok|done].
Qed.

Lemma ex_ops_ok : Forall op_ok ex_ops.
Proof.
  assert (forall e : Entry Message, Payload e = zero_Message -> valid_utf8 (Fingerprint e) -> entry_ok e) as He.
  { intros e E Hf. split; [|done]. rewrite E. by exists #"{}". }
  repeat (apply Forall_cons; split); try exact I; try exact ex_patch_canonical; [| | |apply Forall_nil_2].
  - split; [exact ex_patch_canonical|]. split; [lit_ok|by eexists].
  - apply He; [done|lit_ok].
  - split; [|done]. split; [by exists #"[]"|constructor].
Qed.

Lemma xwal_restart_witness :
  length <$> (crRows <$> (Open #"x" ex_after).2) = Some 2%nat /\
  exists board patches msgs translated, shows ex_after #"x" board patches msgs translated /\
    shows (NewXwalBackend (trunks (bStore ex_after)) (bDisk ex_after)) #"x" board patches msgs translated.
Proof.
  split; [vm_compute; reflexivity|]. pose proof (xwal_restart ex_tree ∅ ex_ops ex_tree_ok ex_ops_ok) as H.
  cbv zeta in H. fold ex_after in H. destruct H as [H _]. apply H. clear H.
  assert ((if Head (trunks (bStore ex_after)) #"x" is Some _ then true else false) = true) as H by (vm_compute; reflexivity).
  unfold ex_after in H. destruct (Head _ _); [by eexists|done].
Defined.

Definition ex_store : XwalStore toy_tree := mkXwalStore ex_tree None.

Lemma snd_pair {A B} (p : A * B) b : p.2 = b -> p = (p.1, b).
Proof. by destruct p; cbn; intros ->. Qed.

Lemma xwal_loadout_once_witness :
  let s := (store_CreateLoadout #"{}" #"home" ex_patch ex_store).1 in
  mkNode #"home@ab" rootID loadoutKind #"home" #"ab" false [] [] 0 ∈ (store_Nodes s).2 /\
  store_CreateLoadout #"later" #"home" ex_patch s = (s, Some #"home@ab").
Proof.
  cbv zeta. destruct (xwal_loadout_once #"{}" #"later" #"home" ex_patch ex_store
    (store_CreateLoadout #"{}" #"home" ex_patch ex_store).1 #"home@ab") as [(ver & Hv & Hs & Hn) Hagain].
  - exact I.
  - apply snd_pair. vm_compute. reflexivity.
  - split; [|exact Hagain]. assert (ver = #"ab") as -> by (vm_compute in Hv; injection Hv as <-; reflexivity). exact Hn.
Defined.

Lemma xwal_topology_witness :
  let s := foldl store_step ex_store [SCreateLoadout #"{}" #"home" ex_patch; SCreateConversation #"home@ab"; SList; SFork #"x"] in
  map nID (store_Conversations s).2 = [ #"xx"; #"x"] /\
  (store_Conversations s).2 = map (fun t => view t (vectorsLocked (ListLight (trunks s)))) (ListLight (trunks s)).
Proof.
  cbv zeta. split; [vm_compute; reflexivity|].
  exact (proj1 (xwal_topology ex_tree [SCreateLoadout #"{}" #"home" ex_patch; SCreateConversation #"home@ab"; SList; SFork #"x"])).
Defined.

(** A cache over a translation of the conversation: two blobs, a clear, two more. *)
#[local] Instance toy_lookup : LookupLaws toy_tree toy_chans.
Proof. by intros x id n ch k r _ [=]. Qed.

Definition ex_log : xwalLog toy_tree := mkXwalLog (trunks (bStore ex_after)) #"x" (transChannel #"q") false.
Definition ex_blob (lt : Z) : Entry (list gostr) := mkEntry 0 lt [] #"f".
Definition ex_writes : list (log_write (list gostr)) :=
  [WAppend (ex_blob 1); WAppend (ex_blob 2); WClear; WAppend (ex_blob 1); WAppend (ex_blob 3)].

Lemma ex_log_ok : wl_wf (T:=list gostr) ex_log.
Proof.
  split; [split; [done|intros H; by apply trans_not_ir in H]|].
  assert (chan (lStore ex_log) (ariaID ex_log) (channel ex_log) = Some []) as -> by (vm_compute; reflexivity).
  intros rs [= <-]. constructor.
Qed.

Lemma ex_writes_fit : writes_fit ex_log ex_writes.
Proof.
  assert (forall lt, entry_ok (ex_blob lt)) as He by (intros lt; split; [by exists #"[]"|lit_ok]).
  repeat split; try apply He; done.
Qed.

Lemma store_cached_refines_witness :
  let c := foldl do_write (newCachedLog ex_log) ex_writes in
  map FigaroLT (Read c) = [1; 3] /\ Read c = Read (inner c) /\ Lookup c 3 = Lookup (inner c) 3.
Proof.
  cbv zeta. destruct (store_cached_refines ex_log ex_writes ex_log_ok ex_writes_fit) as (_ & H1 & _ & _ & _ & _ & _ & H2).
  assert (map FigaroLT (Read (foldl do_write (newCachedLog ex_log) ex_writes)) = [1; 3]) as E by (vm_compute; reflexivity).
  split; [exact E|]. split; [exact H1|]. apply H2. rewrite E. apply (bool_decide_unpack _). vm_compute. exact I.
Defined.
