(* ===== verification/RecordSet.v ===== *)
(** * Functional update of record fields

    [r <| f := v |>] is [r] with field [f] set to [v], as the assignment
    r.f = v of the source; [f ::= g] maps the field by [g].  A record declares
    how it is rebuilt from its fields with an instance of [Rebuild]; the
    setters are derived from it. *)

From S2P Require Import Prelude.

Class Rebuild (R : Type) := rebuild : R -> R.

Class FieldSet {R E : Type} (get : R -> E) := put_field : (E -> E) -> R -> R.
#[global] Arguments put_field {R E} get {FieldSet} f r.

(** The setter of [get]: the rebuilding function with the value of that field,
    and of no other, passed through the change. *)
Ltac field_setter get :=
  lazymatch type of get with
  | ?R -> ?E =>
      let whole := eval cbv delta [rebuild] in (rebuild : R -> R) in
      let whole := lazymatch whole with ?f => eval red in f end in
      lazymatch eval pattern get in whole with
      | ?abs _ => let s := eval cbv beta in (fun (change : E -> E) => abs (fun r : R => change (get r))) in exact s
      end
  end.

#[export] Hint Extern 0 (@FieldSet _ _ ?get) => field_setter get : typeclass_instances.

Declare Custom Entry change.
Notation "f := v" := (put_field f (fun _ => v)) (in custom change at level 1, f constr at level 1, v constr at level 99).
Notation "f ::= g" := (put_field f g) (in custom change at level 1, f constr at level 1, g constr at level 99).
Notation "r <| c |>" := (c r) (at level 1, left associativity, c custom change at level 1).
Notation "r <| c ; d ; .. ; e |>" := (e .. (d (c r)) ..)
  (at level 1, left associativity, c custom change at level 1, d custom change at level 1, e custom change at level 1).
