(* ===== verification/KeyInput.v ===== *)
(** * cli: the decoder of terminal input (src/internal/cli/key_input.go,
    src/internal/livelog/render/mouse/mouse.go, and the loop of
    interactiveInput.run in src/internal/cli/stream.go).

    A parser looks at the front of the buffered bytes and says that they are
    not its sequence, that it needs more of them, or what it read and how many
    bytes that took.  An int is 64 bits and its overflow is written out. *)

From S2P Require Import Prelude Utf8 GoStrings GoJson.

(** ** Parsers of a prefix *)

(** ok and need of the Go functions: neither, need, ok. *)
Inductive parsed (A : Type) := PNo | PNeed | POk (v : A) (consumed : nat).
#[global] Arguments PNo {A}. #[global] Arguments PNeed {A}. #[global] Arguments POk {A}.

Definition pbind {A B} (p : parsed A) (f : A -> nat -> parsed B) : parsed B :=
  match p with PNo => PNo | PNeed => PNeed | POk v n => f v n end.

Definition ESC : byte := x1b.

(** The digits at the front: their value, their number, whether they run to the
    end of the buffer. *)
Fixpoint read_digits (v : Z) (buf : gostr) : Z * nat * bool :=
  match buf with
  | [] => (v, O, true)
  | c :: r =>
      if digit c
      then let '(v, n, atEnd) := read_digits (wrap64 (v * 10 + (bz c - 48))) r in (v, S n, atEnd)
      else (v, O, false)
  end.

(** ** key_input.go *)

Record modifiedKey := mkKey { code : byte; ctrl : bool; shift : bool; alt : bool }.

Definition byte_in (lo hi c : byte) : bool := (bz lo <=? bz c) && (bz c <=? bz hi).

(** func (k modifiedKey) asByte *)
Definition asByte (k : modifiedKey) : option byte :=
  if ctrl k && (byte_in x61 x7a (code k) || byte_in x41 x5a (code k))
  then Some (zb (Z.land (bz (code k)) 31))
  else if negb (alt k) && negb (ctrl k) then Some (code k) else None.

(** func parseKeyNumber *)
Definition parseKeyNumber (buf : gostr) : Z * nat * bool :=
  let '(v, n, atEnd) := read_digits 0 buf in (v, n, negb atEnd).

(** A number of a report: more bytes are needed when it runs to the end, and an
    empty one is malformed. *)
Definition key_number (buf : gostr) : parsed Z :=
  let '(v, n, complete) := parseKeyNumber buf in
  if negb complete then PNeed else if (n =? 0)%nat then PNo else POk v n.

(** The optional second number, after [n] bytes of [buf]. *)
Definition key_modifiers (buf : gostr) (n : nat) : parsed Z :=
  match drop n buf with
  | c :: r => if Byte.eqb c x3b then pbind (key_number r) (fun m k => POk m (n + 1 + k)%nat) else POk 1 n
  | [] => POk 1 n
  end.

(** The key of a report [code; modifiers u]. *)
Definition report_key (code modifiers : Z) : option modifiedKey :=
  let mask := wrap64 (modifiers - 1) in
  let bit b := negb (Z.land mask b =? 0) in
  if code =? 14 then Some (mkKey x6e true (bit 1) (bit 2))
  else if code =? 16 then Some (mkKey x70 true (bit 1) (bit 2))
  else if (code <? 0) || (255 <? code) then None
  else Some (mkKey (zb code) (bit 4) (bit 1) (bit 2)).

(** The part of a report after ESC [. *)
Definition csi_report (buf : gostr) : parsed modifiedKey :=
  pbind (key_number buf) (fun code n =>
  pbind (key_modifiers buf n) (fun modifiers n =>
  match drop n buf with
  | [] => PNeed
  | c :: _ =>
      if Byte.eqb c x75
      then match report_key code modifiers with Some k => POk k (n + 1) | None => PNo end
      else PNo
  end)).

(** func parseModifiedKey *)
Definition parseModifiedKey (buf : gostr) : parsed modifiedKey :=
  match buf with
  | c0 :: c1 :: r =>
      if negb (Byte.eqb c0 ESC) then PNo else
      if negb (Byte.eqb c1 x5b) then
        if Byte.eqb c1 x0e then POk (mkKey x6e true false true) 2
        else if Byte.eqb c1 x10 then POk (mkKey x70 true false true) 2 else PNo
      else match r with
           | [] => PNeed
           | _ => pbind (csi_report r) (fun k n => POk k (n + 2))
           end
  | _ => PNo
  end.

(** ** mouse.go *)

Inductive Button := WheelUp | WheelDown | WheelLeft | WheelRight | Other.
Record Event := mkEvent { evButton : Button; Base : Z; Mod : Z; evX : Z; evY : Z; Pressed : bool }.

Definition prefix : gostr := [ESC; x5b; x3c].

(** func classify, hasPrefixUpTo, readInt *)
Definition classify (base : Z) : Button :=
  if base =? 64 then WheelUp else if base =? 65 then WheelDown
  else if base =? 66 then WheelLeft else if base =? 67 then WheelRight else Other.
Definition hasPrefixUpTo (buf p : gostr) : bool := bool_decide (take (length p) buf = take (length buf) p).
Definition readInt (b : gostr) : Z * nat * bool :=
  let '(v, n, atEnd) := read_digits 0 b in if (n =? 0)%nat then (0, O, true) else (v, n, negb atEnd).

(** A number of Parse at offset [i] and the byte that follows it; the last
    number, the second, the first; func Parse. *)
Definition mouse_int (buf : gostr) (i : nat) : parsed (Z * byte) :=
  let '(v, n, finished) := readInt (drop i buf) in
  if negb finished then PNeed else
  match drop (i + n) buf with
  | [] => PNeed
  | c :: _ => POk (v, c) (i + n)
  end.

(** func Parse *)
Definition mouse_y (cb cx : Z) (i : nat) (buf : gostr) : parsed Event :=
  pbind (mouse_int buf i) (fun '(cy, c) i =>
  if negb (Byte.eqb c x4d) && negb (Byte.eqb c x6d) then PNo else
  let mod_ := Z.land cb 28 in
  let base := Z.ldiff cb 28 in
  POk (mkEvent (classify base) base mod_ cx cy (Byte.eqb c x4d)) (i + 1)).
Definition mouse_x (cb : Z) (i : nat) (buf : gostr) : parsed Event :=
  pbind (mouse_int buf i) (fun '(cx, c) i => if negb (Byte.eqb c x3b) then PNo else mouse_y cb cx (i + 1) buf).
Definition mouse_button (i : nat) (buf : gostr) : parsed Event :=
  pbind (mouse_int buf i) (fun '(cb, c) i => if negb (Byte.eqb c x3b) then PNo else mouse_x cb (i + 1) buf).
Definition Parse (buf : gostr) : parsed Event :=
  if negb (hasPrefixUpTo buf prefix) then PNo else
  if (length buf <? length prefix)%nat then PNeed else mouse_button (length prefix) buf.

(** ** The loop of run *)

(** What one round of the loop takes off the buffer. *)
Inductive token := TMouse (ev : Event) | TKey (k : modifiedKey) | TByte (b : byte).

Definition next_token (active : bool) (data : gostr) : parsed token :=
  match (if active then Parse data else PNo) with
  | PNeed => PNeed
  | POk ev n => POk (TMouse ev) n
  | PNo =>
      match parseModifiedKey data with
      | PNeed => PNeed
      | POk k n => POk (TKey k) n
      | PNo => match data with b :: _ => POk (TByte b) 1 | [] => PNo end
      end
  end.

(** func opensTranscriptFor *)
Definition opensTranscriptFor (b : byte) : bool :=
  existsb (Byte.eqb b) [x6a; x6b; x75; x64; x67; x47; x2f; x3f; x0f; x0e; x10; x0d; x0a].

(** Whether the round opens the pager: a selection key, a byte that opens it,
    Ctrl-L or Ctrl-T. *)
Definition byte_opens (b : byte) : bool := opensTranscriptFor b || Byte.eqb b x0c || Byte.eqb b x14.
Definition selects (k : modifiedKey) : bool := ctrl k && existsb (Byte.eqb (code k)) [x6e; x4e; x70; x50].
Definition opens (t : token) : bool :=
  match t with
  | TMouse _ => false
  | TKey k => selects k || (if asByte k is Some b then byte_opens b else false)
  | TByte b => byte_opens b
  end.

(** The rounds on one buffer: what they took, whether the pager is up, the bytes
    kept for the next read.  Every round takes a byte. *)
Fixpoint decode (fuel : nat) (active : bool) (data : gostr) : list token * bool * gostr :=
  match fuel with
  | O => ([], active, data)
  | S fuel =>
      match next_token active data with
      | POk t n =>
          let '(ts, active, pending) := decode fuel (active || opens t) (drop n data) in (t :: ts, active, pending)
      | _ => ([], active, data)
      end
  end.

(** The reads of run, one after the other. *)
Definition read_chunk (st : list token * bool * gostr) (chunk : gostr) : list token * bool * gostr :=
  let '(ts, active, pending) := st in
  let data := pending ++ chunk in
  let '(ts', active, pending) := decode (length data) active data in (ts ++ ts', active, pending).
Definition run (active : bool) (chunks : list gostr) : list token * bool * gostr :=
  foldl read_chunk ([], active, []) chunks.

(** ** Decimals *)

Fixpoint dvalue (v : Z) (u : Decimal.uint) : Z :=
  match u with
  | Decimal.Nil => v
  | Decimal.D0 u => dvalue (v * 10) u | Decimal.D1 u => dvalue (v * 10 + 1) u
  | Decimal.D2 u => dvalue (v * 10 + 2) u | Decimal.D3 u => dvalue (v * 10 + 3) u
  | Decimal.D4 u => dvalue (v * 10 + 4) u | Decimal.D5 u => dvalue (v * 10 + 5) u
  | Decimal.D6 u => dvalue (v * 10 + 6) u | Decimal.D7 u => dvalue (v * 10 + 7) u
  | Decimal.D8 u => dvalue (v * 10 + 8) u | Decimal.D9 u => dvalue (v * 10 + 9) u
  end.

Lemma dvalue_ge u : forall v, 0 <= v -> v <= dvalue v u.
Proof. induction u as [|u IH|u IH|u IH|u IH|u IH|u IH|u IH|u IH|u IH|u IH]; intros v Hv; cbn [dvalue]; [lia|..];
  match goal with |- _ <= dvalue ?w _ => specialize (IH w) end; lia. Qed.

Lemma dvalue_acc u : forall p, Z.pos (Pos.of_uint_acc u p) = dvalue (Z.pos p) u.
Proof.
  induction u; intros p; [done|..]; cbn [Pos.of_uint_acc dvalue];
    rewrite IHu; f_equal; rewrite ?Pos2Z.inj_add, Pos2Z.inj_mul; lia.
Qed.

Lemma dvalue_uint u : Z.of_N (Pos.of_uint u) = dvalue 0 u.
Proof. induction u; [done|..]; cbn [Pos.of_uint dvalue Z.of_N]; rewrite ?dvalue_acc; done. Qed.

Lemma read_digits_text u c r : digit c = false -> forall v, 0 <= v -> dvalue v u < 2 ^ 63 ->
  read_digits v (lit (DecimalString.NilEmpty.string_of_uint u) ++ c :: r) =
    (dvalue v u, length (lit (DecimalString.NilEmpty.string_of_uint u)), false).
Proof.
  intros Hc. assert (forall v d, 0 <= v <= d -> d < 2 ^ 63 -> wrap64 v = v) as Hw.
  { intros v d H1 H2. unfold wrap64. rewrite Z.mod_small; lia. }
  induction u as [|u IH|u IH|u IH|u IH|u IH|u IH|u IH|u IH|u IH|u IH]; intros v Hv Hd; cbn [dvalue] in *; cbn [DecimalString.NilEmpty.string_of_uint].
  { cbn [lit String.list_byte_of_string length app read_digits]. change (lit EmptyString) with (@nil byte). cbn [app read_digits length]. by rewrite Hc. }
  all: lazymatch goal with Hd : dvalue ?w ?x < _, IH : forall v, _ -> _ -> _ |- read_digits ?v (lit (String ?a ?s) ++ ?c :: ?r) = _ =>
        assert (0 <= w) as Hn by lia; pose proof (dvalue_ge x w Hn) as Hge; specialize (IH w Hn Hd);
        let b := eval vm_compute in (Ascii.byte_of_ascii a) in change (lit (String a s)) with (b :: lit s);
        cbn [app read_digits length]; change (digit b) with true; cbv iota;
        let z := eval vm_compute in (bz b - 48) in change (bz b - 48) with z;
        rewrite (Hw _ (dvalue w x)) by lia; rewrite ?Z.add_0_r, IH; reflexivity end.
Qed.

(** A decimal followed by a byte that is no digit reads back. *)
Lemma read_digits_itoa z c r : 0 <= z < 2 ^ 63 -> digit c = false ->
  read_digits 0 (itoa z ++ c :: r) = (z, length (itoa z), false).
Proof.
  intros Hz Hc. unfold itoa. destruct z as [|p|p]; [|cbn [Z.to_int]|lia].
  - change (lit _) with [x30]. cbn [app read_digits length]. change (digit x30) with true. cbv iota. by rewrite Hc.
  - assert (dvalue 0 (Pos.to_uint p) = Z.pos p) as Hp by (rewrite <-dvalue_uint, DecimalPos.Unsigned.of_to; done).
    cbn [DecimalString.NilZero.string_of_int]. unfold DecimalString.NilZero.string_of_uint.
    destruct (Pos.to_uint p) eqn:E; [cbn in Hp; lia|..]; rewrite <-E in *;
      (rewrite read_digits_text by (done || lia)); by rewrite Hp.
Qed.

Lemma itoa_digits z : itoa z <> [].
Proof.
  unfold itoa. destruct (Z.to_int z) as [u|u]; cbn; [|discriminate].
  destruct u; unfold DecimalString.NilZero.string_of_uint; cbn; discriminate.
Qed.

(** ** Parsers see a prefix *)

(** Once a parser has decided, more bytes do not change its mind. *)
Definition settled {A} (p : gostr -> parsed A) (d : gostr) : Prop := p d <> PNeed -> forall x, p (d ++ x) = p d.

Lemma pbind_settled {A B} (p : gostr -> parsed A) (f : A -> nat -> gostr -> parsed B) d :
  settled p d -> (forall v n, p d = POk v n -> settled (f v n) d) ->
  settled (fun b => pbind (p b) (fun v n => f v n b)) d.
Proof.
  intros Hp Hf Hn x. cbn beta in *. unfold settled in Hp. destruct (p d) as [| |v n] eqn:E; cbn [pbind] in *.
  - by rewrite Hp.
  - done.
  - rewrite Hp by done. cbn. by apply Hf.
Qed.

Lemma read_digits_app v d n w x : read_digits v d = (w, n, false) -> read_digits v (d ++ x) = (w, n, false).
Proof.
  revert v n. induction d as [|c d IH]; intros v n; cbn; [done|]. destruct (digit c); [|done].
  destruct (read_digits _ d) as [[w' n'] e] eqn:E. intros [= -> <- ->]. by rewrite (IH _ _ E).
Qed.

Lemma read_digits_length v d w n e : read_digits v d = (w, n, e) -> if e then n = length d else (n < length d)%nat.
Proof.
  revert v w n e. induction d as [|c d IH]; intros v w n e; cbn; [by intros [= <- <- <-]|].
  destruct (digit c); [|intros [= <- <- <-]; cbn; lia].
  destruct (read_digits _ d) as [[w' n'] e'] eqn:E. intros [= -> <- ->]. apply IH in E. destruct e; lia.
Qed.

Lemma drop_app_short {A} n (d x : list A) : (n < length d)%nat ->
  exists c r, drop n d = c :: r /\ drop n (d ++ x) = c :: (r ++ x).
Proof.
  intros H. rewrite drop_app_le by lia. destruct (drop n d) as [|c r] eqn:E; [|by eexists _, _].
  apply (f_equal length) in E. rewrite length_drop in E. cbn in E. lia.
Qed.

Lemma key_number_settled d : settled key_number d.
Proof.
  intros H x. unfold key_number, parseKeyNumber in *. destruct (read_digits 0 d) as [[v n] e] eqn:E.
  destruct e; cbn in *; [done|]. by rewrite (read_digits_app _ _ _ _ x E).
Qed.

Lemma key_number_length d v n : key_number d = POk v n -> (0 < n < length d)%nat.
Proof.
  unfold key_number, parseKeyNumber. destruct (read_digits 0 d) as [[w k] e] eqn:E. apply read_digits_length in E.
  destruct e; cbn; [done|]. destruct (Nat.eqb_spec k 0); [done|]. intros [= <- <-]. lia.
Qed.

Lemma key_modifiers_settled d n : (n < length d)%nat -> settled (fun b => key_modifiers b n) d.
Proof.
  intros Hn H x. unfold key_modifiers in *. destruct (drop_app_short n d x Hn) as (c & r & E1 & E2). rewrite E1, E2 in *.
  destruct (Byte.eqb c x3b); [|done]. destruct (key_number r) eqn:E; cbn in H; try done;
    rewrite (key_number_settled r) by (rewrite E; done); by rewrite E.
Qed.

Lemma key_modifiers_length d n m k : (0 < n < length d)%nat -> key_modifiers d n = POk m k -> (0 < k < length d)%nat.
Proof.
  intros Hn. unfold key_modifiers. destruct (drop_app_short n d [] (proj2 Hn)) as (c & r & E1 & _).
  pose proof (f_equal length E1) as Hl. rewrite length_drop in Hl. cbn in Hl. rewrite E1.
  destruct (Byte.eqb c x3b); [|intros [= <- <-]; lia]. destruct (key_number r) as [| |v j] eqn:E; try done.
  apply key_number_length in E. cbn. intros [= <- <-]. lia.
Qed.

Lemma csi_report_settled d : settled csi_report d.
Proof.
  apply pbind_settled; [apply key_number_settled|]. intros code n Hn%key_number_length.
  apply (pbind_settled (fun b => key_modifiers b n)
    (fun modifiers k b => match drop k b with [] => PNeed | c :: _ =>
       if Byte.eqb c x75 then match report_key code modifiers with Some q => POk q (k + 1)%nat | None => PNo end else PNo end));
    [apply key_modifiers_settled; lia|].
  intros m k Hk%key_modifiers_length; [|lia]. intros H x.
  destruct (drop_app_short k d x) as (c & r & E1 & E2); [lia|]. by rewrite E1, E2.
Qed.

Lemma csi_report_length d k n : csi_report d = POk k n -> (0 < n <= length d)%nat.
Proof.
  unfold csi_report. destruct (key_number d) as [| |code j] eqn:E1; [done..|]. apply key_number_length in E1. cbn.
  destruct (key_modifiers d j) as [| |m i] eqn:E2; [done..|]. apply key_modifiers_length in E2; [|done]. cbn.
  destruct (drop i d); [done|]. destruct (Byte.eqb _ _); [|done]. destruct (report_key _ _); [|done]. intros [= <- <-]. lia.
Qed.

Lemma parseModifiedKey_settled d : d <> [] -> d <> [ESC] -> settled parseModifiedKey d.
Proof.
  intros H0 H1 H x. destruct d as [|c0 [|c1 r]]; [done| |].
  - cbn. destruct x as [|c1 x]; [done|]. cbn. destruct (Byte.eqb c0 ESC) eqn:E; [|done]. apply byte_eqb_eq in E. by subst.
  - cbn in *. destruct (negb (Byte.eqb c0 ESC)); [done|]. destruct (negb (Byte.eqb c1 x5b)); [done|].
    destruct r as [|c r]; [done|]. change ((c :: r) ++ x) with ((c :: r) ++ x). destruct (csi_report (c :: r)) eqn:E; cbn in H; try done;
      cbn [app]; change (c :: (r ++ x)) with ((c :: r) ++ x); rewrite csi_report_settled by (rewrite E; done); by rewrite E.
Qed.

Lemma parseModifiedKey_length d k n : parseModifiedKey d = POk k n -> (0 < n <= length d)%nat.
Proof.
  destruct d as [|c0 [|c1 r]]; cbn; [done..|]. destruct (negb (Byte.eqb c0 ESC)); [done|].
  destruct (negb (Byte.eqb c1 x5b)).
  - repeat case_match; try done; intros [= <- <-]; lia.
  - destruct r as [|c r]; [done|]. destruct (csi_report (c :: r)) eqn:E; try done. apply csi_report_length in E.
    cbn [pbind]. intros [= <- <-]. cbn in *. lia.
Qed.

Lemma readInt_app d v n x : readInt d = (v, n, true) -> (n < length d)%nat -> readInt (d ++ x) = (v, n, true).
Proof.
  unfold readInt. destruct (read_digits 0 d) as [[w k] e] eqn:E. pose proof (read_digits_length _ _ _ _ _ E) as Hl.
  destruct e; cbn.
  - destruct (Nat.eqb_spec k 0); [|done]. intros [= <- <-] ?. lia.
  - rewrite (read_digits_app _ _ _ _ x E). done.
Qed.

Lemma mouse_int_settled i d : settled (fun b => mouse_int b i) d.
Proof.
  intros H x. unfold mouse_int in *. destruct (readInt (drop i d)) as [[v n] e] eqn:E.
  destruct e; cbn in *; [|done]. destruct (drop (i + n) d) as [|c r] eqn:Er; [done|].
  assert (i + n < length d)%nat as Hl by (apply (f_equal length) in Er; rewrite length_drop in Er; cbn in Er; lia).
  rewrite drop_app_le by lia. rewrite (readInt_app _ _ _ x E) by (rewrite length_drop; lia). cbn.
  by rewrite drop_app_le, Er by lia.
Qed.

Lemma mouse_int_length i d v n : mouse_int d i = POk v n -> (n < length d)%nat.
Proof.
  unfold mouse_int. destruct (readInt _) as [[w k] []]; cbn; [|done]. destruct (drop (i + k) d) as [|c r] eqn:E; [done|].
  intros [= <- <-]. apply (f_equal length) in E. rewrite length_drop in E. cbn in E. lia.
Qed.

Lemma hasPrefixUpTo_app d p x : (length p <= length d)%nat -> hasPrefixUpTo (d ++ x) p = hasPrefixUpTo d p.
Proof.
  intros H. unfold hasPrefixUpTo. rewrite take_app_le by done. rewrite (take_ge p) by (rewrite length_app; lia).
  by rewrite (take_ge p (length d)) by done.
Qed.

Lemma hasPrefixUpTo_no d p x : hasPrefixUpTo d p = false -> hasPrefixUpTo (d ++ x) p = false.
Proof.
  unfold hasPrefixUpTo. rewrite !bool_decide_eq_false. intros H E. apply H. clear H.
  apply (f_equal (take (length d))) in E. rewrite !take_take in E.
  rewrite length_app in E. replace (length d `min` (length d + length x))%nat with (length d) in E by lia. rewrite <-E.
  rewrite Nat.min_comm, <-take_take. by rewrite take_app_length.
Qed.

(** A number that is not at the end of the buffer stays as it is. *)
Ltac mouse_number E :=
  intros H x; cbn beta in *; match goal with |- context [mouse_int (?d ++ _) ?k] =>
    pose proof (mouse_int_settled k d) as E; unfold settled in E; destruct (mouse_int d k) as [| |[? ?] ?];
    [by rewrite E|done|rewrite E by done; cbn [pbind] in *] end.

Lemma mouse_button_settled i d : settled (mouse_button i) d.
Proof.
  assert (forall cb cx i, settled (mouse_y cb cx i) d) as Hy by (unfold mouse_y; intros cb cx k; by mouse_number E).
  assert (forall cb i, settled (mouse_x cb i) d) as Hx.
  { unfold mouse_x; intros cb k; mouse_number E. destruct (negb _); [done|by apply Hy]. }
  unfold mouse_button; mouse_number E. destruct (negb _); [done|by apply Hx].
Qed.

Lemma Parse_settled d : settled Parse d.
Proof.
  intros H x. unfold Parse in *. destruct (hasPrefixUpTo d prefix) eqn:Ep; cbn [negb] in *.
  2: { by rewrite hasPrefixUpTo_no. }
  destruct (Nat.ltb_spec (length d) (length prefix)) as [|Hl]; [done|]. rewrite hasPrefixUpTo_app, Ep by done. cbn [negb].
  rewrite length_app. destruct (Nat.ltb_spec (length d + length x) (length prefix)); [lia|]. by apply mouse_button_settled.
Qed.

Lemma Parse_length d ev n : Parse d = POk ev n -> (0 < n <= length d)%nat.
Proof.
  unfold Parse. destruct (negb (hasPrefixUpTo d prefix)); [done|]. destruct (length d <? length prefix)%nat; [done|].
  unfold mouse_button. destruct (mouse_int d _) as [| |[cb c] i] eqn:E1; [done..|]. cbn. destruct (negb (Byte.eqb c x3b)); [done|].
  unfold mouse_x. destruct (mouse_int d (i + 1)) as [| |[cx c'] j] eqn:E2; [done..|]. cbn. destruct (negb (Byte.eqb c' x3b)); [done|].
  unfold mouse_y. destruct (mouse_int d (j + 1)) as [| |[cy c''] k] eqn:E3; [done..|]. cbn. destruct (_ && _); [done|].
  intros [= <- <-]. apply mouse_int_length in E3. lia.
Qed.

(** ** Rounds *)

Lemma next_token_length a d t n : next_token a d = POk t n -> (0 < n <= length d)%nat.
Proof.
  unfold next_token. destruct a.
  - destruct (Parse d) as [| |ev k] eqn:E; [|done|intros [= <- <-]; by apply Parse_length in E].
    destruct (parseModifiedKey d) as [| |key k] eqn:Ek; [|done|intros [= <- <-]; by apply parseModifiedKey_length in Ek].
    destruct d; [done|]. intros [= <- <-]. cbn. lia.
  - destruct (parseModifiedKey d) as [| |key k] eqn:Ek; [|done|intros [= <- <-]; by apply parseModifiedKey_length in Ek].
    destruct d; [done|]. intros [= <- <-]. cbn. lia.
Qed.

(** In the pager the mouse parser keeps a lone ESC back, so every decision stays. *)
Lemma next_token_settled d : settled (next_token true) d.
Proof.
  intros H x. unfold next_token in *. destruct (Parse d) as [| |ev k] eqn:E; [|done|].
  2: { rewrite Parse_settled by (rewrite E; done). by rewrite E. }
  assert (d <> []) as H0 by by intros ->. assert (d <> [ESC]) as H1 by by intros ->.
  rewrite Parse_settled, E by (rewrite E; done).
  assert (parseModifiedKey d <> PNeed) as Hk by by intros Hk; rewrite Hk in H.
  rewrite parseModifiedKey_settled by done. destruct (parseModifiedKey d); [|done..]. by destruct d.
Qed.

Lemma next_token_total a d : d <> [] -> next_token a d <> PNo.
Proof. intros Hd. unfold next_token. destruct d; [done|]. by repeat case_match. Qed.

Lemma decode_fuel f g a d : (length d <= f)%nat -> (length d <= g)%nat -> decode f a d = decode g a d.
Proof.
  revert g a d. induction f as [|f IH]; intros [|g] a d Hf Hg; cbn; try done.
  - destruct d; cbn in Hf; [|lia]. by destruct a.
  - destruct d; cbn in Hg; [|lia]. by destruct a.
  - destruct (next_token a d) as [| |t n] eqn:E; try done. apply next_token_length in E.
    rewrite (IH g) by (rewrite length_drop; lia). done.
Qed.

(** Bytes that arrive later continue where the earlier ones stopped. *)
Lemma decode_app f d x : (length d <= f)%nat ->
  decode (length (d ++ x)) true (d ++ x) =
    let '(ts, a, p) := decode f true d in
    let '(ts', a', p') := decode (length (p ++ x)) true (p ++ x) in (ts ++ ts', a', p').
Proof.
  revert d. induction f as [|f IH]; intros d Hf.
  - destruct d; cbn in Hf; [|lia]. cbn. by destruct (decode (length x) true x) as [[??]?].
  - cbn [decode]. destruct (next_token true d) as [| |t n] eqn:E.
    1,2: by destruct (decode (length (d ++ x)) true (d ++ x)) as [[??]?].
    pose proof (next_token_length _ _ _ _ E) as Hn. cbn [orb].
    rewrite (decode_fuel _ (S (length (d ++ x))) true (d ++ x)) by lia. cbn [decode].
    rewrite next_token_settled, E by (rewrite E; done). cbn [orb].
    rewrite drop_app_le by lia. rewrite (decode_fuel _ (length (drop n d ++ x)) true (drop n d ++ x)) by (rewrite !length_app, length_drop; lia).
    rewrite IH by (rewrite length_drop; lia). destruct (decode f true (drop n d)) as [[ts a] p].
    by destruct (decode (length (p ++ x)) true (p ++ x)) as [[??]?].
Qed.

Lemma decode_active f d : (decode f true d).1.2 = true.
Proof.
  revert d. induction f as [|f IH]; intros d; [done|]. cbn [decode]. destruct (next_token true d); try done.
  cbn [orb]. specialize (IH (drop consumed d)). by destruct (decode f true _) as [[??]?].
Qed.

Lemma run_concat (chunks : list gostr) : run true chunks = decode (length (concat chunks)) true (concat chunks).
Proof.
  unfold run. induction chunks as [|c cs IH] using rev_ind; [done|].
  rewrite foldl_app, concat_app, IH. cbn [foldl read_chunk concat]. rewrite app_nil_r.
  rewrite (decode_app (length (concat cs))) by done.
  pose proof (decode_active (length (concat cs)) (concat cs)) as Ha.
  destruct (decode _ true (concat cs)) as [[ts a] p]. cbn in Ha. by subst a.
Qed.

(** ** What a terminal sends *)

Definition encode (t : token) : gostr :=
  match t with
  | TByte b => [b]
  | TKey k =>
      let mods := (if shift k then 1 else 0) + (if alt k then 2 else 0) + (if ctrl k then 4 else 0) in
      [ESC; x5b] ++ itoa (bz (code k)) ++ x3b :: itoa (1 + mods) ++ [x75]
  | TMouse ev =>
      prefix ++ itoa (Base ev + Mod ev) ++ x3b :: itoa (evX ev) ++ x3b :: itoa (evY ev) ++
        [if Pressed ev then x4d else x6d]
  end.

(** A byte other than ESC; a key whose code is not that of Ctrl-N or Ctrl-P, which
    stand for letters; a mouse report of numbers that fit an int. *)
Definition sendable (t : token) : Prop :=
  match t with
  | TByte b => b <> ESC
  | TKey k => bz (code k) <> 14 /\ bz (code k) <> 16
  | TMouse ev => exists cb, 0 <= cb < 2 ^ 63 /\ Base ev = Z.ldiff cb 28 /\ Mod ev = Z.land cb 28 /\
      evButton ev = classify (Base ev) /\ 0 <= evX ev < 2 ^ 63 /\ 0 <= evY ev < 2 ^ 63
  end.

Lemma no_mouse d c : d !! 2%nat = Some c -> c <> x3c -> hasPrefixUpTo d prefix = false.
Proof.
  intros Hc Hne. destruct d as [|d0 [|d1 [|d2 d]]]; try done. cbn in Hc. injection Hc as ->.
  unfold hasPrefixUpTo. rewrite bool_decide_eq_false. cbn. congruence.
Qed.

Lemma plain_no_mouse b d : b <> ESC -> hasPrefixUpTo (b :: d) prefix = false.
Proof. intros H. unfold hasPrefixUpTo, prefix. rewrite bool_decide_eq_false. cbn. congruence. Qed.

Lemma key_number_itoa z c r : 0 <= z < 2 ^ 63 -> digit c = false ->
  key_number (itoa z ++ c :: r) = POk z (length (itoa z)).
Proof.
  intros Hz Hc. unfold key_number, parseKeyNumber. rewrite read_digits_itoa by done. cbn.
  pose proof (itoa_digits z). by destruct (itoa z).
Qed.

Lemma mouse_int_itoa z c r p : 0 <= z < 2 ^ 63 -> digit c = false ->
  mouse_int (p ++ itoa z ++ c :: r) (length p) = POk (z, c) (length p + length (itoa z))%nat.
Proof.
  intros Hz Hc. unfold mouse_int, readInt. rewrite drop_app_length, read_digits_itoa by done.
  pose proof (itoa_digits z) as H. destruct (Nat.eqb_spec (length (itoa z)) 0) as [E|]; [by apply nil_length_inv in E|].
  cbn [negb]. rewrite app_assoc, drop_app_length' by (by rewrite length_app). done.
Qed.

Lemma digit_range c : digit c = true -> 48 <= bz c <= 57.
Proof. unfold digit. rewrite andb_true_iff, !Z.leb_le. lia. Qed.

Lemma itoa_head z : 0 <= z < 2 ^ 63 -> exists c r, itoa z = c :: r /\ digit c = true.
Proof.
  intros Hz. pose proof (read_digits_itoa z x75 [] Hz eq_refl) as H. pose proof (itoa_digits z).
  destruct (itoa z) as [|c r]; [done|]. exists c, r. split; [done|]. cbn in H. by destruct (digit c).
Qed.

Lemma report_key_bits k : bz (code k) <> 14 -> bz (code k) <> 16 ->
  report_key (bz (code k)) (1 + ((if shift k then 1 else 0) + (if alt k then 2 else 0) + (if ctrl k then 4 else 0))) = Some k.
Proof.
  intros H1 H2. unfold report_key. destruct (Z.eqb_spec (bz (code k)) 14), (Z.eqb_spec (bz (code k)) 16); try done.
  pose proof (bz_range (code k)). destruct (Z.ltb_spec (bz (code k)) 0), (Z.ltb_spec 255 (bz (code k))); try lia. cbn [orb].
  rewrite zb_bz. destruct k as [c [] [] []]; reflexivity.
Qed.

Lemma csi_report_encode k rest : bz (code k) <> 14 -> bz (code k) <> 16 ->
  let body := itoa (bz (code k)) ++ x3b ::
    itoa (1 + ((if shift k then 1 else 0) + (if alt k then 2 else 0) + (if ctrl k then 4 else 0))) ++ [x75] in
  csi_report (body ++ rest) = POk k (length body).
Proof.
  intros H1 H2. cbv zeta. pose proof (report_key_bits k H1 H2) as Hk. pose proof (bz_range (code k)).
  set (mods := 1 + _) in *. assert (0 <= mods < 2 ^ 63) as Hm by (subst mods; destruct (shift k), (alt k), (ctrl k); lia).
  rewrite <-!app_assoc, <-app_comm_cons, <-app_assoc. cbn [app].
  unfold csi_report. rewrite key_number_itoa by (done || lia). cbn [pbind].
  unfold key_modifiers. rewrite drop_app_length. change (Byte.eqb x3b x3b) with true. cbv iota.
  rewrite key_number_itoa by done. cbn [pbind].
  rewrite (app_comm_cons (itoa mods)), !app_assoc, drop_app_length' by (rewrite length_app; cbn; lia).
  cbn. rewrite Hk. f_equal. rewrite !length_app; cbn; rewrite ?length_app; cbn; lia.
Qed.

Lemma key_encode active k rest : bz (code k) <> 14 -> bz (code k) <> 16 ->
  next_token active (encode (TKey k) ++ rest) = POk (TKey k) (length (encode (TKey k))).
Proof.
  intros H1 H2. pose proof (bz_range (code k)). destruct (itoa_head (bz (code k))) as (c & r & Ec & Hc); [lia|].
  assert (forall d, next_token active (ESC :: x5b :: c :: d) = match parseModifiedKey (ESC :: x5b :: c :: d) with
    POk k n => POk (TKey k) n | PNeed => PNeed | PNo => POk (TByte ESC) 1 end) as Hn.
  { intros d. unfold next_token. destruct active; [|done]. unfold Parse. rewrite (no_mouse _ c) by (done || (by intros ->)). done. }
  cbn [encode]. rewrite Ec. cbn [app]. rewrite Hn. cbn [parseModifiedKey]. change (Byte.eqb ESC ESC) with true.
  change (Byte.eqb x5b x5b) with true. cbn [negb].
  pose proof (csi_report_encode k rest H1 H2) as Hk. cbv zeta in Hk. rewrite Ec in Hk. cbn [app] in Hk.
  rewrite Hk. cbn [pbind]. f_equal. cbn [length]. lia.
Qed.

Lemma mouse_encode ev rest : sendable (TMouse ev) ->
  next_token true (encode (TMouse ev) ++ rest) = POk (TMouse ev) (length (encode (TMouse ev))).
Proof.
  intros (cb & Hcb & Hb & Hm & Hbt & Hx & Hy). assert (Base ev + Mod ev = cb) as Ecb.
  { assert (Z.land (Z.ldiff cb 28) (Z.land cb 28) = 0) as H0.
    { rewrite (Z.land_comm cb), Z.land_assoc, Z.land_ldiff. apply Z.land_0_l. }
    by rewrite Hb, Hm, Z.add_nocarry_lxor, Z.lxor_lor, Z.lor_ldiff_and by done. }
  assert (0 <= cb) as H0 by lia.
  set (tl := if Pressed ev then x4d else x6d).
  assert (encode (TMouse ev) = prefix ++ itoa cb ++ x3b :: itoa (evX ev) ++ x3b :: itoa (evY ev) ++ [tl]) as Ee by (cbn [encode]; by rewrite Ecb).
  rewrite Ee. unfold next_token, Parse. rewrite <-!app_assoc, <-app_comm_cons, <-app_assoc, <-app_comm_cons, <-app_assoc. cbn [app].
  change (ESC :: x5b :: x3c :: ?d) with (prefix ++ d).
  rewrite hasPrefixUpTo_app by done. change (hasPrefixUpTo prefix prefix) with true. cbn [negb].
  rewrite length_app. destruct (Nat.ltb_spec (length prefix + length (itoa cb ++ x3b :: itoa (evX ev) ++ x3b :: itoa (evY ev) ++ tl :: rest)) (length prefix)); [lia|].
  unfold mouse_button. rewrite mouse_int_itoa by done. cbn [pbind]. change (Byte.eqb x3b x3b) with true. cbn [negb].
  unfold mouse_x.
  replace (prefix ++ itoa cb ++ x3b :: itoa (evX ev) ++ x3b :: itoa (evY ev) ++ tl :: rest) with
    ((prefix ++ itoa cb ++ [x3b]) ++ itoa (evX ev) ++ x3b :: itoa (evY ev) ++ tl :: rest) by (by rewrite <-!app_assoc).
  replace (length prefix + length (itoa cb) + 1)%nat with (length (prefix ++ itoa cb ++ [x3b])) by (rewrite !length_app; cbn; lia).
  rewrite mouse_int_itoa by done. cbn [pbind]. change (Byte.eqb x3b x3b) with true. cbn [negb]. unfold mouse_y.
  replace ((prefix ++ itoa cb ++ [x3b]) ++ itoa (evX ev) ++ x3b :: itoa (evY ev) ++ tl :: rest) with
    ((prefix ++ itoa cb ++ x3b :: itoa (evX ev) ++ [x3b]) ++ itoa (evY ev) ++ tl :: rest) by (by rewrite <-!app_assoc, <-!app_comm_cons, <-!app_assoc).
  replace (length (prefix ++ itoa cb ++ [x3b]) + length (itoa (evX ev)) + 1)%nat with
    (length (prefix ++ itoa cb ++ x3b :: itoa (evX ev) ++ [x3b])) by (rewrite !length_app; cbn; rewrite ?length_app; cbn; lia).
  rewrite mouse_int_itoa by (done || (subst tl; by destruct (Pressed ev))). cbn [pbind].
  replace (negb (Byte.eqb tl x4d) && negb (Byte.eqb tl x6d)) with false by (subst tl; by destruct (Pressed ev)).
  f_equal.
  - f_equal. destruct ev as [bt ba mo ex ey pr]. cbn in *. subst tl. f_equal; [congruence..|by destruct pr].
  - rewrite !length_app; cbn; rewrite ?length_app; cbn; rewrite ?length_app; cbn; lia.
Qed.

Lemma byte_encode b rest : b <> ESC -> next_token true (encode (TByte b) ++ rest) = POk (TByte b) 1.
Proof.
  intros H. unfold next_token, Parse. cbn [encode app]. rewrite plain_no_mouse by done. cbn [negb].
  assert (parseModifiedKey (b :: rest) = PNo) as ->; [|done].
  destruct rest; [done|]. cbn. destruct (Byte.eqb b ESC) eqn:E; [|done]. by apply byte_eqb_eq in E.
Qed.

Lemma token_encode t rest : sendable t -> next_token true (encode t ++ rest) = POk t (length (encode t)).
Proof.
  destruct t as [ev|k|b]; [apply mouse_encode|intros [H1 H2]; by apply key_encode|apply byte_encode].
Qed.

Lemma decode_encode ts f : Forall sendable ts -> (length (concat (map encode ts)) <= f)%nat ->
  decode f true (concat (map encode ts)) = (ts, true, []).
Proof.
  intros Hs. revert f. induction Hs as [|t ts Ht Hs IH]; intros f Hf; cbn [map concat] in *.
  - destruct f; [done|]. done.
  - pose proof (token_encode t (concat (map encode ts)) Ht) as Hn. pose proof (next_token_length _ _ _ _ Hn).
    rewrite length_app in *. destruct f as [|f]; [lia|]. cbn [decode]. rewrite Hn. cbn [orb].
    rewrite drop_app_length, IH by lia. done.
Qed.

(** C30: While the pager is up, what the input loop takes from the terminal does not
    depend on how the reads cut it up, sequences of any kind included; and what a
    terminal sends for a series of [sendable] inputs (bytes other than ESC, reported
    keys other than Ctrl-N's and Ctrl-P's codes 14 and 16, mouse reports of numbers
    that fit an int) is read as exactly that series, with nothing held back.
    Outside the pager, and for a lone ESC, it is not so: [keys_split_inline],
    [keys_esc_held]. *)
Theorem keys_decoded (chunks : list gostr) :
  run true chunks = decode (length (concat chunks)) true (concat chunks) /\
  forall ts, Forall sendable ts -> concat chunks = concat (map encode ts) -> run true chunks = (ts, true, []).
Proof.
  rewrite run_concat. split; [done|]. intros ts Hs ->. by apply decode_encode.
Qed.

Lemma keys_decoded_witness :
  run true [ #"j" ++ [ESC]; [x5b; x3c] ++ #"65;3"; #";7Mk"] =
    ([TByte x6a; TMouse (mkEvent WheelDown 65 0 3 7 true); TByte x6b], true, []).
Proof.
  apply keys_decoded; [|vm_compute; reflexivity].
  repeat apply Forall_cons_2; [discriminate| |discriminate|apply Forall_nil_2].
  exists 65. split; [lia|]. cbn. split; [reflexivity|]. split; [reflexivity|]. split; [reflexivity|lia].
Defined.

(** Outside the pager an ESC at the end of a read is taken as a key of its own,
    and the rest of its sequence as plain bytes. *)
Example keys_split_inline :
  run false [[ESC]; [x5b] ++ #"110;6u"] =
    ([TByte ESC; TByte x5b; TByte x31; TByte x31; TByte x30; TByte x3b; TByte x36; TByte x75], true, []) /\
  run false [[ESC; x5b] ++ #"110;6u"] = ([TKey (mkKey x6e true true false)], true, []).
Proof. split; vm_compute; reflexivity. Qed.

(** In the pager a lone Esc stays in the buffer until another byte arrives. *)
Example keys_esc_held : run true [[ESC]] = ([], true, [ESC]).
Proof. vm_compute. reflexivity. Qed.
