(* ===== verification/Sanitize.v ===== *)
(** * render: the terminal sanitizer (src/internal/render/sanitize.go)

    The text of a tool's output is stripped of the escape sequences that change
    the state of the terminal before it is drawn.  [safe] says which sequences a
    text may hold; the sanitizer gives a safe text, leaves a safe text alone and
    keeps every byte outside the sequences it drops. *)

From S2P Require Import Prelude.

Definition ESC : byte := x1b.

Definition byte_of (c : byte) (l : gostr) : bool := existsb (Byte.eqb c) l.

(** func isCSIParamByte, isCursorOrEraseFinal *)
Definition isCSIParamByte (b : byte) : bool := ((48 <=? bz b) && (bz b <=? 57)) || byte_of b #";:<=> !".
Definition isCursorOrEraseFinal (b : byte) : bool := byte_of b #"ABCDEFGHJK".

(** The parameter bytes at the front, and what follows them. *)
Fixpoint params (s : gostr) : gostr * gostr :=
  match s with
  | c :: r => if isCSIParamByte c then let '(p, q) := params r in (c :: p, q) else ([], s)
  | [] => ([], [])
  end.

(** What is left after an OSC: past BEL or ST, or nothing. *)
Fixpoint after_osc (s : gostr) : gostr :=
  match s with
  | [] => []
  | c :: r =>
      if Byte.eqb c x07 then r else
      match r with
      | d :: r' => if Byte.eqb c ESC && Byte.eqb d x5c then r' else after_osc r
      | [] => []
      end
  end.

(** A CSI, [s] being what follows ESC [: what is written and what is left; None
    when it is incomplete. *)
Definition csi (s : gostr) : option (gostr * gostr) :=
  let '(private, s) := match s with
    | c :: r => if Byte.eqb c x3f then (true, r) else (false, s)
    | [] => (false, [])
    end in
  let '(p, r) := params s in
  match r with
  | [] => None
  | final :: r =>
      let full := [ESC; x5b] ++ p ++ [final] in
      if negb private && (Byte.eqb final x6d || isCursorOrEraseFinal final) then Some (full, r) else Some ([], r)
  end.

(** One round of the loop on [s], not empty: what is written, and what is left
    or None when the function returns. *)
Definition round (s : gostr) : gostr * option gostr :=
  match s with
  | [] => ([], None)
  | c :: r =>
      if negb (Byte.eqb c ESC) then ([c], Some r) else
      match r with
      | [] => ([], None)
      | next :: r =>
          if Byte.eqb next x5b then
            match csi r with None => ([], None) | Some (w, r) => (w, Some r) end
          else if Byte.eqb next x5d then ([], Some (after_osc r))
          else if byte_of next #"c78=>" then ([], Some r)
          else if byte_of next #"()" then match r with [] => ([], None) | _ :: r => ([], Some r) end
          else ([], Some r)
      end
  end.

Fixpoint sanitize (fuel : nat) (s : gostr) : gostr :=
  match fuel, s with
  | S fuel, _ :: _ =>
      match round s with
      | (w, Some r) => w ++ sanitize fuel r
      | (w, None) => w
      end
  | _, _ => []
  end.

(** func SanitizeForTerminal; every round takes a byte. *)
Definition SanitizeForTerminal (s : gostr) : gostr :=
  if bool_decide (s = []) || negb (byte_of ESC s) then s else sanitize (length s) s.

(** func SanitizeRows *)
Definition SanitizeRows (rows : list gostr) : list gostr := map SanitizeForTerminal rows.

(** ** Rounds *)

Lemma params_split s p r : params s = (p, r) ->
  s = p ++ r /\ Forall (fun c => isCSIParamByte c = true) p /\ match r with c :: _ => isCSIParamByte c = false | [] => True end.
Proof.
  revert p r. induction s as [|c s IH]; intros p r; cbn; [by intros [= <- <-]|].
  destruct (isCSIParamByte c) eqn:E; [|intros [= <- <-]; done].
  destruct (params s) as [q t]. intros [= <- <-]. destruct (IH q t eq_refl) as (-> & Hq & Ht). auto.
Qed.

Lemma params_app p r : Forall (fun c => isCSIParamByte c = true) p ->
  match r with c :: _ => isCSIParamByte c = false | [] => True end -> params (p ++ r) = (p, r).
Proof.
  intros Hp Hr. induction Hp as [|c p Hc Hp IH]; cbn.
  - destruct r as [|c r]; [done|]. cbn. by rewrite Hr.
  - by rewrite Hc, IH.
Qed.

Lemma after_osc_length s : (length (after_osc s) <= length s)%nat.
Proof.
  induction s as [|c r IH]; cbn; [lia|]. destruct (Byte.eqb c x07); [lia|]. destruct r as [|d r']; [cbn; lia|].
  destruct (Byte.eqb c ESC && Byte.eqb d x5c); cbn in *; lia.
Qed.

Lemma csi_length s w r : csi s = Some (w, r) -> (length r < length s)%nat.
Proof.
  unfold csi. destruct s as [|c s]; [done|].
  destruct (Byte.eqb c x3f).
  - destruct (params s) as [p [|f r']] eqn:E; [done|]. apply params_split in E as (-> & _).
    destruct (_ && _); intros [= <- <-]; cbn; rewrite length_app; cbn; lia.
  - destruct (params (c :: s)) as [p [|f r']] eqn:E; [done|]. apply params_split in E as (-> & _).
    destruct (_ && _); intros [= <- <-]; rewrite length_app; cbn; lia.
Qed.

Lemma round_length s w r : round s = (w, Some r) -> (length r < length s)%nat.
Proof.
  destruct s as [|c s]; [done|]. cbn. destruct (negb (Byte.eqb c ESC)); [intros [= <- <-]; lia|].
  destruct s as [|n s]; [done|]. destruct (Byte.eqb n x5b).
  { destruct (csi s) as [[w' r']|] eqn:E; [|done]. intros [= <- <-]. apply csi_length in E. cbn. lia. }
  destruct (Byte.eqb n x5d); [intros [= <- <-]; pose proof (after_osc_length s); cbn; lia|].
  destruct (byte_of n _); [intros [= <- <-]; cbn; lia|].
  destruct (byte_of n _); [destruct s; [done|]|]; intros [= <- <-]; cbn; lia.
Qed.

Lemma sanitize_fuel f g s : (length s <= f)%nat -> (length s <= g)%nat -> sanitize f s = sanitize g s.
Proof.
  revert g s. induction f as [|f IH]; intros [|g] s Hf Hg; try (destruct s; cbn in *; [done|lia]).
  destruct s as [|c s]; [done|]. cbn [sanitize]. destruct (round (c :: s)) as [w [r|]] eqn:E; [|done].
  apply round_length in E. cbn [length] in *. by rewrite (IH g) by lia.
Qed.

(** ** Safe texts *)

(** Bytes other than ESC, and CSIs that end in m (colours and styles, but with
    parameter bytes of any kind, a private marker > included) or in the final of a
    cursor move or an erasure. *)
Inductive safe : gostr -> Prop :=
| safe_nil : safe []
| safe_byte c s : c <> ESC -> safe s -> safe (c :: s)
| safe_csi p f s : Forall (fun c => isCSIParamByte c = true) p -> (f = x6d \/ isCursorOrEraseFinal f = true) ->
    safe s -> safe ([ESC; x5b] ++ p ++ f :: s).

(** [csi_body p]: the parameter bytes and the final byte of a CSI. *)
Definition csi_body (p : gostr) : Prop := exists private q f,
  p = private ++ q ++ [f] /\ (private = [] \/ private = [x3f]) /\ Forall (fun c => isCSIParamByte c = true) q.

(** [sequence p s]: before the text [s], ESC followed by [p] is one sequence: a CSI,
    an OSC with its terminator or up to the end, a charset selection, a pair. *)
Inductive sequence : gostr -> gostr -> Prop :=
| seq_csi p s : csi_body p -> sequence (x5b :: p) s
| seq_osc p s : after_osc (p ++ s) = s -> sequence (x5d :: p) s
| seq_charset c d s : byte_of c #"()" = true -> sequence [c; d] s
| seq_pair c s : byte_of c #"[]()" = false -> sequence [c] s.

(** What is left of a sequence that the text breaks off. *)
Inductive cut : gostr -> Prop :=
| cut_nil : cut []
| cut_esc : cut [ESC]
| cut_csi p : Forall (fun c => isCSIParamByte c = true \/ c = x3f) p -> cut (ESC :: x5b :: p)
| cut_charset c : byte_of c #"()" = true -> cut [ESC; c].

(** What follows the ESC of a CSI that a safe text may hold. *)
Definition harmless (p : gostr) : Prop := exists q f,
  p = x5b :: q ++ [f] /\ Forall (fun c => isCSIParamByte c = true) q /\ (f = x6d \/ isCursorOrEraseFinal f = true).

(** [kept s t]: [t] is [s] without its escape sequences that are not harmless and
    without what breaks off at its end. *)
Inductive kept : gostr -> gostr -> Prop :=
| kept_end s : cut s -> kept s []
| kept_byte c s t : c <> ESC -> kept s t -> kept (c :: s) (c :: t)
| kept_seq p s t : harmless p -> kept s t -> kept (ESC :: p ++ s) (ESC :: p ++ t)
| dropped p s t : sequence p s -> ~ harmless p -> kept s t -> kept (ESC :: p ++ s) t.

Lemma final_no_param f : (f = x6d \/ isCursorOrEraseFinal f = true) -> isCSIParamByte f = false /\ f <> x3f.
Proof.
  intros [->|H]; [by split|]. unfold isCursorOrEraseFinal, byte_of in H. apply existsb_exists in H as (c & Hc & E).
  apply byte_eqb_eq in E as <-. repeat (destruct Hc as [<-|Hc]; [by split|]). by destruct Hc.
Qed.

Lemma csi_safe p f s : Forall (fun c => isCSIParamByte c = true) p -> (f = x6d \/ isCursorOrEraseFinal f = true) ->
  csi (p ++ f :: s) = Some ([ESC; x5b] ++ p ++ [f], s).
Proof.
  intros Hp Hf. destruct (final_no_param f Hf) as [H1 H2]. unfold csi.
  assert (params (p ++ f :: s) = (p, f :: s)) as E by by apply params_app.
  assert (match p ++ f :: s with c :: r => if Byte.eqb c x3f then (true, r) else (false, p ++ f :: s) | [] => (false, []) end
          = (false, p ++ f :: s)) as ->.
  { destruct p as [|c p]; cbn.
    - destruct (Byte.eqb f x3f) eqn:E'; [by apply byte_eqb_eq in E'|done].
    - apply Forall_cons in Hp as [Hc _]. destruct (Byte.eqb c x3f) eqn:E'; [|done]. apply byte_eqb_eq in E' as ->. done. }
  rewrite E. cbn [negb andb]. destruct Hf as [->|Hf]; [done|]. by rewrite Hf, orb_true_r.
Qed.

Lemma round_safe s w o : round s = (w, o) -> safe w.
Proof.
  destruct s as [|c s]; [intros [= <- <-]; constructor|]. cbn. destruct (Byte.eqb c ESC) eqn:Ec; cbn [negb].
  2: { intros [= <- <-]. constructor; [|constructor]. intros ->. done. }
  destruct s as [|n s]; [intros [= <- <-]; constructor|]. destruct (Byte.eqb n x5b).
  - destruct (csi s) as [[w' r']|] eqn:E; intros [= <- <-]; [|constructor].
    unfold csi in E. destruct (match s with [] => _ | _ => _ end) as [priv s'].
    destruct (params s') as [p [|f r]] eqn:Ep; [done|]. apply params_split in Ep as (_ & Hp & _).
    destruct (negb priv && _) eqn:Eb; injection E as <- <-; [|constructor].
    apply andb_true_iff in Eb as [_ Eb]. apply safe_csi; [done| |constructor].
    apply orb_true_iff in Eb as [Eb|Eb]; [left; by apply byte_eqb_eq|by right].
  - repeat case_match; intros; simplify_eq; constructor.
Qed.

Lemma safe_app s t : safe s -> safe t -> safe (s ++ t).
Proof.
  intros Hs Ht. induction Hs as [|c s Hc Hs IH|p f s Hp Hf Hs IH]; [done|by constructor|].
  rewrite <-!app_assoc, <-app_comm_cons. by apply safe_csi.
Qed.

Lemma sanitize_safe f s : safe (sanitize f s).
Proof.
  revert s. induction f as [|f IH]; intros [|c s]; try constructor. cbn [sanitize].
  destruct (round (c :: s)) as [w [r|]] eqn:E; [apply safe_app; [by eapply round_safe|apply IH]|by eapply round_safe].
Qed.

Lemma no_esc_safe s : byte_of ESC s = false -> safe s.
Proof.
  induction s as [|c s IH]; [constructor|]. cbn. rewrite orb_false_iff. intros [Hc Hs]. constructor; [|auto].
  intros ->. done.
Qed.

Lemma sanitize_fix f s : safe s -> (length s <= f)%nat -> sanitize f s = s.
Proof.
  intros Hs. revert f. induction Hs as [|c s Hc Hs IH|p fin s Hp Hf Hs IH]; intros f Hl; destruct f as [|f]; try (cbn in Hl; lia).
  - done.
  - done.
  - cbn [sanitize round]. destruct (Byte.eqb c ESC) eqn:E; [by apply byte_eqb_eq in E|]. cbn [negb app]. f_equal. apply IH. cbn in Hl. lia.
  - cbn [app sanitize round]. change (Byte.eqb ESC ESC) with true. change (Byte.eqb x5b x5b) with true. cbn [negb]. cbv iota.
    rewrite csi_safe by done. rewrite IH by (cbn in Hl; rewrite length_app in Hl; cbn in Hl; lia). by rewrite <-!app_assoc.
Qed.

Lemma kept_self s : safe s -> kept s s.
Proof.
  induction 1 as [|c s Hc Hs IH|p f s Hp Hf Hs IH]; [by constructor; constructor|by constructor|].
  change (kept (ESC :: (x5b :: p ++ f :: s)) (ESC :: (x5b :: p ++ f :: s))).
  replace (x5b :: p ++ f :: s) with ((x5b :: p ++ [f]) ++ s) by (cbn; by rewrite <-app_assoc). apply kept_seq; [|done].
  exists p, f. auto.
Qed.

Lemma not_harmless q f : ~ (Forall (fun c => isCSIParamByte c = true) q /\ (f = x6d \/ isCursorOrEraseFinal f = true)) ->
  ~ harmless (x5b :: q ++ [f]).
Proof. intros Hn (q' & f' & E & Hq & Hf). injection E as E. apply app_inj_tail in E as [-> ->]. auto. Qed.

Lemma not_harmless_head c p : c <> x5b -> ~ harmless (c :: p).
Proof. intros Hc (q & f & E & _). congruence. Qed.

Lemma after_osc_suffix s : exists p, s = p ++ after_osc s.
Proof.
  induction s as [|c r IH]; [by exists []|]. cbn [after_osc]. destruct (Byte.eqb c x07); [by exists [c]|].
  destruct r as [|d r']; [by exists [c]|]. destruct (Byte.eqb c ESC && Byte.eqb d x5c); [by exists [c; d]|].
  destruct IH as [p Hp]. exists (c :: p). cbn [app]. by f_equal.
Qed.

(** The parts of what follows ESC [. *)
Lemma csi_parts s : exists private p r,
  s = private ++ p ++ r /\ (private = [] \/ private = [x3f]) /\ Forall (fun c => isCSIParamByte c = true) p /\
  match r with
  | [] => csi s = None
  | f :: r => csi s = Some ([ESC; x5b] ++ p ++ [f], r) /\ private = [] /\ harmless (x5b :: p ++ [f]) \/
              csi s = Some ([], r) /\ ~ harmless (x5b :: private ++ p ++ [f])
  end.
Proof.
  unfold csi. destruct s as [|c s]; [by exists [], [], []; auto|]. destruct (Byte.eqb c x3f) eqn:Ec.
  - apply byte_eqb_eq in Ec as ->. destruct (params s) as [p r] eqn:E. apply params_split in E as (-> & Hp & _).
    exists [x3f], p, r. split; [done|]. split; [auto|]. split; [done|]. destruct r as [|f r]; [done|]. right. split; [done|].
    rewrite app_assoc. apply not_harmless. intros [Hq _]. by apply Forall_cons in Hq as [Hq _].
  - destruct (params (c :: s)) as [p r] eqn:E. apply params_split in E as (-> & Hp & _).
    exists [], p, r. split; [done|]. split; [auto|]. split; [done|]. destruct r as [|f r]; [done|].
    cbn [negb andb app]. destruct (_ || _) eqn:Ef; [left|right]; (split; [done|]).
    + split; [done|]. exists p, f. split; [done|]. split; [done|].
      apply orb_true_iff in Ef as [Ef|Ef]; [left; by apply byte_eqb_eq|by right].
    + apply not_harmless. apply orb_false_iff in Ef as [E1 E2]. intros [_ [->|Hf]]; [discriminate E1|congruence].
Qed.

Lemma round_kept s w o t : round s = (w, o) -> match o with Some r => kept r t | None => t = [] end -> kept s (w ++ t).
Proof.
  intros E Ht. destruct s as [|c s]; [injection E as <- <-; subst; constructor; constructor|]. cbn in E.
  destruct (Byte.eqb c ESC) eqn:Ec; cbn [negb] in E.
  2: { injection E as <- <-. constructor; [by intros ->|done]. }
  apply byte_eqb_eq in Ec as ->. destruct s as [|n s]; [injection E as <- <-; subst; constructor; constructor|].
  destruct (Byte.eqb n x5b) eqn:En.
  - apply byte_eqb_eq in En as ->. destruct (csi_parts s) as (q & p & r & -> & Hq & Hp & H). destruct r as [|f r].
    { rewrite H in E. injection E as <- <-. subst t. apply kept_end, cut_csi. rewrite app_nil_r. apply Forall_app. split.
      - destruct Hq as [-> | ->]; [constructor|]. constructor; [by right|constructor].
      - eapply Forall_impl; [exact Hp|]. auto. }
    assert (csi_body (q ++ p ++ [f])) as Hb by (exists q, p, f; auto).
    replace (x5b :: q ++ p ++ f :: r) with ((x5b :: q ++ p ++ [f]) ++ r) by (cbn; by rewrite <-!app_assoc).
    destruct H as [(H & -> & Hh)|[H Hh]]; rewrite H in E; injection E as <- <-; [|by apply dropped; [constructor| |]].
    change (kept (ESC :: (x5b :: p ++ [f]) ++ r) (ESC :: (x5b :: p ++ [f]) ++ t)). by apply kept_seq.
  - destruct (Byte.eqb n x5d) eqn:En'.
    { apply byte_eqb_eq in En' as ->. injection E as <- <-. destruct (after_osc_suffix s) as [p Hp]. rewrite Hp.
      change (kept (ESC :: (x5d :: p) ++ after_osc s) t). apply dropped; [|by apply not_harmless_head|done]. constructor. by rewrite <-Hp. }
    assert (byte_of n #"()" = false -> sequence [n] s) as Hpair.
    { intros H. constructor. change (#"[]()") with ([x5b; x5d] ++ #"()"). unfold byte_of in *. rewrite existsb_app, H. cbn [existsb].
      by rewrite En, En'. }
    assert (n <> x5b) as Hn by (intros ->; done).
    destruct (byte_of n #"c78=>") eqn:E1.
    { injection E as <- <-. apply (dropped [n]); [|by apply not_harmless_head|done]. apply Hpair.
      unfold byte_of in E1. apply existsb_exists in E1 as (d & Hd & Ed). apply byte_eqb_eq in Ed as <-.
      repeat (destruct Hd as [<-|Hd]; [done|]). by destruct Hd. }
    destruct (byte_of n #"()") eqn:E2; [destruct s as [|d s]|]; injection E as <- <-.
    + subst t. by apply kept_end, cut_charset.
    + apply (dropped [n; d]); [by constructor|by apply not_harmless_head|done].
    + apply (dropped [n]); [by apply Hpair|by apply not_harmless_head|done].
Qed.

Lemma sanitize_kept f s : (length s <= f)%nat -> kept s (sanitize f s).
Proof.
  revert s. induction f as [|f IH]; intros [|c s] Hf; cbn in Hf; try lia; try (by constructor; constructor).
  cbn [sanitize]. destruct (round (c :: s)) as [w [r|]] eqn:E.
  - eapply round_kept; [done|]. apply IH. apply round_length in E. cbn in E. lia.
  - rewrite <-(app_nil_r w). by eapply round_kept.
Qed.



(** The parameter bytes include the prefix of xterm's private sequences, so a key
    modifier option, which ends in m as a colour does, is kept. *)
Example sanitize_key_option :
  SanitizeForTerminal ([ESC] ++ #"[>4;2m") = [ESC] ++ #"[>4;2m".
Proof. vm_compute. reflexivity. Qed.
