(* ===== verification/Rows.v ===== *)
(** * cli: the rows a node is drawn as (src/internal/cli/nodes.go, msghead.go,
    and term.go's styles)

    Clipping and wrapping to the width of the terminal, the tool widget, the
    freezing of a row that leaves the live region.  Column widths of runes,
    markdown rendering and the formatting of values and times belong to other
    libraries and are parameters. *)

From S2P Require Import Prelude Utf8 GoStrings Json Livedoc Sanitize.

Class Screen := {
  RuneWidth : Z -> Z;                       (* runewidth.RuneWidth *)
  Truncate : gostr -> Z -> gostr;           (* runewidth.Truncate, no tail *)
  Enabled : bool;                           (* term.Enabled *)
  Prose : gostr -> Z -> list gostr;         (* render.Prose *)
  Sprint_value : json -> gostr;             (* fmt, verb %v *)
  Seconds_text : Z -> gostr;                (* %.1f of a duration in seconds, from nanoseconds *)
  Time_text : Z -> gostr }.                 (* time.UnixMilli(ms).Format, the layout of formatToolTime *)

Section rows.
Context {scr : Screen}.

(** ** Styles *)

Definition reset : gostr := ESC :: #"[0m".
Definition styled (code s : gostr) : gostr := if Enabled then ESC :: code ++ s ++ reset else s.
Definition Dim : gostr -> gostr := styled #"[2m".
Definition Red : gostr -> gostr := styled #"[31m".
Definition Green : gostr -> gostr := styled #"[32m".
Definition Cyan : gostr -> gostr := styled #"[36m".

(** func messageHeader *)
Definition messageHeader (role : gostr) : gostr :=
  if bool_decide (role = #"user") then Cyan #"❯ you"
  else if bool_decide (role = #"assistant") then Dim #"‹ figaro" else [].

(** ** Clipping *)

Definition ESC_rune : Z := 0x1b.
Definition ascii_letter (r : Z) : bool := ((0x41 <=? r) && (r <=? 0x5a)) || ((0x61 <=? r) && (r <=? 0x7a)).

(** The rest of an escape sequence after ESC: through its first letter. *)
Fixpoint escape_rest (rs : list Z) : list Z * list Z :=
  match rs with
  | [] => ([], [])
  | r :: rs => if ascii_letter r then ([r], rs) else let '(a, b) := escape_rest rs in (r :: a, b)
  end.

Definition flatten_rune (r : Z) : Z := if (r <? 0x20) || (r =? 0x7f) then 0x20 else r.

(** The loop of clipToWidth at column [col]: the runes written and whether it
    stopped short. *)
Fixpoint clip_runes (fuel : nat) (width col : Z) (rs : list Z) : list Z * bool :=
  match fuel, rs with
  | S fuel, r :: rs =>
      if r =? ESC_rune then
        let '(seq, rs) := escape_rest rs in
        let '(out, clipped) := clip_runes fuel width col rs in (r :: seq ++ out, clipped)
      else
        let r := flatten_rune r in
        let w := RuneWidth r in
        if width <? col + w then ([], true)
        else let '(out, clipped) := clip_runes fuel width (col + w) rs in (r :: out, clipped)
  | _, _ => ([], false)
  end.

(** func clipToWidth *)
Definition clipToWidth (s : gostr) (width : Z) : gostr :=
  let rs := runes s in
  let '(out, clipped) := clip_runes (length rs) width 0 rs in
  string_of_runes out ++ if clipped then reset else [].

(** ** Freezing a row *)

Definition SpinnerFrames : list Z := runes #"⠋⠙⠹⠸⠼⠴⠦⠧⠇⠏".
Definition scrolledGlyph : Z := 0x25E6.

(** func isSpinnerFrame, stabilizeForScrollback *)
Definition isSpinnerFrame (r : Z) : bool := existsb (Z.eqb r) SpinnerFrames.
Fixpoint freeze (fuel : nat) (rs : list Z) : list Z :=
  match fuel, rs with
  | S fuel, r :: rest =>
      if r =? ESC_rune then let '(seq, rest) := escape_rest rest in r :: seq ++ freeze fuel rest
      else if isSpinnerFrame r then scrolledGlyph :: rest else rs
  | _, _ => rs
  end.
Definition stabilizeForScrollback (row : gostr) : gostr :=
  string_of_runes (freeze (length (runes row)) (runes row)).

(** func nodesRunning *)
Definition nodesRunning (nodes : list Node) : bool :=
  existsb (fun n => bool_decide (nType n = NodeTool) && bool_decide (nStatus n = StatusRunning)) nodes.

(** ** Wrapping *)

(** The runes of one paragraph: the row begun, its width and the rows after it. *)
Fixpoint wrap_runes (w col : Z) (row : list Z) (rs : list Z) : list (list Z) :=
  match rs with
  | [] => [row]
  | r :: rs =>
      let rw := RuneWidth r in
      if w <? col + rw then row :: wrap_runes w rw [r] rs
      else wrap_runes w (col + rw) (row ++ [r]) rs
  end.

(** func hardWrap *)
Definition hardWrap (s : gostr) (w : Z) : list gostr :=
  let w := if w <? 1 then 1 else w in
  concat (map (fun para => match para with
    | [] => [[]]
    | _ => map string_of_runes (wrap_runes w 0 [] (runes para))
    end) (SplitByte LF s)).

(** func truncCols, blockquote *)
Definition truncCols (s : gostr) (w : Z) : gostr := if w <=? 0 then [] else Truncate s w.
Definition blockquote (s : gostr) : gostr :=
  Join [LF] (map (app #"> ") (SplitByte LF (TrimRightByte s LF))).

(** strings.LastIndexByte *)
Fixpoint last_index (c : byte) (s : gostr) : option nat :=
  match s with
  | [] => None
  | x :: s =>
      match last_index c s with
      | Some i => Some (S i)
      | None => if Byte.eqb x c then Some 0%nat else None
      end
  end.

(** The loop of tailOutput: the last [limit] newlines before [at]. *)
Fixpoint tail_start (limit : nat) (output : gostr) (at_ : nat) : option nat :=
  match limit with
  | O => Some at_
  | S limit =>
      match last_index LF (take at_ output) with
      | Some i => tail_start limit output i
      | None => None
      end
  end.

(** func tailOutput *)
Definition tailOutput (output : gostr) (limit : Z) : gostr * Z :=
  let total := 1 + Z.of_nat (CountByte output LF) in
  if (limit <? 0) || (total <=? limit) then (output, total)
  else if limit =? 0 then ([], total)
  else match tail_start (Z.to_nat limit) output (length output) with
       | Some i => (drop (i + 1) output, total)
       | None => (output, total)
       end.

(** ** Nodes *)

Definition nodeBashCapDefault : Z := 10.
Definition nodeOutputUnlimited : Z := -1.
Definition toolSummaryCap : Z := 80.

(** func toolDuration; a Duration is nanoseconds in 64 bits, its methods divide
    toward zero. *)
Definition toolDuration (n : Node) (now : Z) : gostr :=
  let stop := if nFinishedAt n =? 0 then now else nFinishedAt n in
  let d := wrap64 (wrap64 (stop - nStartedAt n) * 1000000) in
  let d := if d <? 0 then 0 else d in
  if d <? 1000000000 then itoa (Z.quot d 1000000) ++ #"ms"
  else if d <? 60000000000 then Seconds_text d ++ #"s"
  else let secs := Z.rem (Z.quot d 1000000000) 60 in
       itoa (Z.quot d 60000000000) ++ #"m" ++ (if secs <? 10 then #"0" else []) ++ itoa secs ++ #"s".

(** The frame of the spinner: the uint64 tick is converted to int, which makes
    it negative from 2^63 on; an index below zero panics. *)
Definition spinner (tick : Z) : option gostr :=
  let i := Z.rem (wrap64 tick) 10 in
  r ← (if i <? 0 then None else SpinnerFrames !! Z.to_nat i); Some (encode_rune r).

Definition tool_glyph (n : Node) (tick : Z) : option gostr :=
  if bool_decide (nStatus n = StatusOK) then Some (Green #"✓")
  else if bool_decide (nStatus n = StatusError) then Some (Red #"✗")
  else f ← spinner tick; Some (Cyan f).

Definition tool_header (n : Node) (glyph : gostr) (now : Z) : gostr :=
  let name := if bool_decide (nName n = []) then #"tool" else nName n in
  let header := glyph ++ #" " ++ Cyan name in
  let header := if bool_decide (nSummary n = []) then header else header ++ #" " ++ Dim (truncCols (nSummary n) toolSummaryCap) in
  if nStartedAt n =? 0 then header else header ++ #" " ++ Dim (#"[" ++ toolDuration n now ++ #"]").

(** The arguments, in key order, and the times of the verbose widget. *)
Definition tool_details (n : Node) (width : Z) : list gostr :=
  concat (map (fun kv : gostr * json =>
    map (fun l => Dim (#"  " ++ l)) (hardWrap (fst kv ++ #"=" ++ Sprint_value (snd kv)) (width - 2))) (default [] (nArgs n))) ++
  (if nStartedAt n =? 0 then [] else
   Dim (#"  started " ++ Time_text (nStartedAt n)) ::
   (if nFinishedAt n =? 0 then [] else [Dim (#"  finished " ++ Time_text (nFinishedAt n))])).

Definition gutter : gostr := #"  │ ".
Definition tool_output (n : Node) (width bashCap : Z) : list gostr :=
  if bool_decide (TrimSpace (nOutput n) = []) then [] else
  let safe := SanitizeForTerminal (TrimRightByte (nOutput n) LF) in
  let '(shown, total) := tailOutput safe bashCap in
  (if (0 <=? bashCap) && (bashCap <? total)
   then [Dim (#"  │ … last " ++ itoa bashCap ++ #" of " ++ itoa total ++ #" lines")] else []) ++
  map (fun l => Dim gutter ++ truncCols l (width - glen gutter)) (SplitByte LF shown).

(** func renderToolNode; None is the panic of the spinner's index. *)
Definition renderToolNode (n : Node) (width bashCap tick now : Z) (expand : bool) : option (list gostr) :=
  glyph ← tool_glyph n tick;
  Some (tool_header n glyph now :: (if expand then tool_details n width else []) ++ tool_output n width bashCap).

Definition renderProseNode (n : Node) (width : Z) : list gostr := Prose (nMarkdown n) width.
Definition renderThinkingNode (n : Node) (width : Z) : list gostr := Prose (blockquote (nMarkdown n)) width.
Definition renderSteeringNode (n : Node) (width : Z) : list gostr := Dim #"↳ you" :: Prose (nMarkdown n) width.

(** func (v *ariaView) RenderExpanded *)
Definition RenderExpanded (n : Node) (width tick now : Z) (verbose fullOutput : bool) : option (list gostr) :=
  if bool_decide (nType n = NodeTool) then
    renderToolNode n width (if fullOutput then nodeOutputUnlimited else nodeBashCapDefault) (wrapu64 tick) now verbose
  else Some (if bool_decide (nType n = NodeThinking) then renderThinkingNode n width
             else if bool_decide (nType n = NodeSteering) then renderSteeringNode n width
             else renderProseNode n width).

(** func renderNodeList *)
Definition render_one (n : Node) (width bashCap tick now : Z) (verbose : bool) : option (list gostr) :=
  if bool_decide (nType n = NodeTool) then renderToolNode n width bashCap tick now verbose
  else RenderExpanded n width tick now verbose false.
Definition renderNodeList (nodes : list Node) (width bashCap tick now : Z) (verbose : bool) : option (list gostr) :=
  let width := if width <=? 0 then 80 else width in
  let bashCap := if bashCap <=? 0 then nodeBashCapDefault else bashCap in
  l ← mapM (fun n => render_one n width bashCap tick now verbose) nodes;
  let rows := concat (imap (fun i nr => if (0 <? i)%nat then [] :: nr else nr) l) in
  Some (map (fun row => clipToWidth row width) rows).
End rows.

(** ** Clipping: the longest part that fits *)

Section row_theorems.
Context {scr : Screen}.

(** The runes outside escape sequences. *)
Fixpoint visible_from (fuel : nat) (rs : list Z) : list Z :=
  match fuel, rs with
  | S fuel, r :: rs =>
      if r =? ESC_rune then visible_from fuel (escape_rest rs).2 else r :: visible_from fuel rs
  | _, _ => []
  end.
Definition visible (rs : list Z) : list Z := visible_from (length rs) rs.
Definition columns (rs : list Z) : Z := foldr (fun r n => RuneWidth r + n) 0 rs.

Lemma escape_split rs : rs = (escape_rest rs).1 ++ (escape_rest rs).2.
Proof. induction rs as [|r rs IH]; [done|]. cbn. destruct (ascii_letter r); [done|]. destruct (escape_rest rs). cbn in *. by f_equal. Qed.

Lemma escape_length rs : (length (escape_rest rs).2 <= length rs)%nat.
Proof. rewrite (escape_split rs) at 2. rewrite length_app. lia. Qed.

(** A sequence that is written out whole reads back as one, unless the text ends in it. *)
Lemma escape_rest_app rs t : (escape_rest rs).2 <> [] \/ t = [] ->
  escape_rest ((escape_rest rs).1 ++ t) = ((escape_rest rs).1, t).
Proof.
  induction rs as [|r rs IH]; cbn.
  - intros [?| ->]; done.
  - destruct (ascii_letter r) eqn:E; cbn; [by rewrite E|]. destruct (escape_rest rs) as [a b]. cbn in *. rewrite E.
    intros H. by rewrite IH.
Qed.

Lemma visible_fuel f g rs : (length rs <= f)%nat -> (length rs <= g)%nat -> visible_from f rs = visible_from g rs.
Proof.
  revert g rs. induction f as [|f IH]; intros [|g] [|r rs] Hf Hg; cbn in *; try lia; try done.
  destruct (r =? ESC_rune); [|f_equal]; apply IH; pose proof (escape_length rs); lia.
Qed.

Lemma visible_esc rs t : (escape_rest rs).2 <> [] \/ t = [] ->
  visible (ESC_rune :: (escape_rest rs).1 ++ t) = visible t.
Proof.
  intros H. unfold visible. cbn [length visible_from]. rewrite Z.eqb_refl, escape_rest_app by done. cbn.
  apply visible_fuel; rewrite ?length_app; lia.
Qed.

Lemma visible_cons r rs : r <> ESC_rune -> visible (r :: rs) = r :: visible rs.
Proof. intros H. unfold visible. cbn. destruct (Z.eqb_spec r ESC_rune); [done|]. done. Qed.

Lemma flatten_not_esc r : flatten_rune r <> ESC_rune.
Proof. unfold flatten_rune, ESC_rune. destruct (Z.ltb_spec r 0x20), (Z.eqb_spec r 0x7f); cbn; lia. Qed.

Lemma clip_spec f width col rs out clipped :
  (length rs <= f)%nat -> clip_runes f width col rs = (out, clipped) ->
  exists n, visible out = take n (map flatten_rune (visible_from f rs)) /\
    (col <= width -> col + columns (visible out) <= width) /\
    if clipped then exists r, map flatten_rune (visible_from f rs) !! n = Some r /\ width < col + columns (visible out) + RuneWidth r
    else visible out = map flatten_rune (visible_from f rs).
Proof.
  revert col rs out clipped. induction f as [|f IH]; intros col rs out clipped Hf E.
  { injection E as <- <-. exists 0%nat. cbn. split; [done|]. split; [lia|done]. }
  destruct rs as [|r rs]; [injection E as <- <-; exists 0%nat; cbn; split; [done|]; split; [lia|done]|].
  cbn [clip_runes visible_from] in *. cbn in Hf. destruct (Z.eqb_spec r ESC_rune) as [->|Hr].
  - pose proof (escape_length rs) as Hl. pose proof (escape_split rs) as Hsp. destruct (escape_rest rs) as [sq rest] eqn:Er.
    destruct (clip_runes f width col rest) as [o c] eqn:Eo. injection E as <- <-. cbn in Hl.
    destruct (IH col rest o c ltac:(lia) Eo) as (n & H).
    assert (visible (ESC_rune :: sq ++ o) = visible o) as ->; [|by exists n].
    pose proof (visible_esc rs o) as Hv. rewrite Er in Hv. cbn in Hv. apply Hv.
    destruct rest; [right|by left]. destruct f; cbn in Eo; by injection Eo.
  - destruct (Z.ltb_spec width (col + RuneWidth (flatten_rune r))) as [Hw|Hw].
    + injection E as <- <-. exists 0%nat. cbn. split; [done|]. split; [lia|]. eexists. split; [done|]. lia.
    + destruct (clip_runes f width _ rs) as [o c] eqn:Eo. injection E as <- <-.
      destruct (IH _ rs o c ltac:(lia) Eo) as (n & H1 & H2 & H3). exists (S n).
      rewrite visible_cons by apply flatten_not_esc. cbn [map take columns foldr]. fold (columns (visible o)).
      split; [by rewrite H1|]. split; [lia|]. destruct c.
      * destruct H3 as (q & Hq & Hlt). exists q. split; [done|]. lia.
      * by rewrite H3.
Qed.

(** A clipped row is one physical line that fits: outside escape sequences it
    has the runes of the text with control characters as blanks, as many of them
    as the width holds, and a reset after them when some are left out. *)
Theorem rows_clip (s : gostr) (width : Z) (Hw : 0 <= width) :
  exists out n, let text := map flatten_rune (visible (runes s)) in
    visible out = take n text /\ columns (visible out) <= width /\
    Forall (fun r => 0x20 <= r /\ r <> 0x7f) (visible out) /\
    match text !! n with
    | None => clipToWidth s width = string_of_runes out
    | Some r => clipToWidth s width = string_of_runes out ++ reset /\ width < columns (visible out) + RuneWidth r
    end.
Proof.
  unfold clipToWidth. destruct (clip_runes _ _ _ _) as [out c] eqn:E.
  pose proof (clip_spec _ _ _ _ _ _ (le_n _) E) as (n & H1 & H2 & H3). fold (visible (runes s)) in *.
  assert (forall l, Forall (fun r => 0x20 <= r /\ r <> 0x7f) (map flatten_rune l)) as Hl.
  { intros l. apply Forall_forall. intros r (q & <- & _)%list_elem_of_In%in_map_iff. unfold flatten_rune.
    destruct (Z.ltb_spec q 0x20), (Z.eqb_spec q 0x7f); cbn; lia. }
  destruct c.
  - destruct H3 as (r & Hr & Hlt). exists out, n. cbv zeta. split; [done|]. split; [lia|]. split; [rewrite H1; by apply Forall_take|].
    rewrite Hr. split; [done|lia].
  - exists out, (length (map flatten_rune (visible (runes s)))). cbv zeta. rewrite firstn_all, lookup_ge_None_2 by done.
    split; [done|]. split; [lia|]. split; [by rewrite H3|]. by rewrite app_nil_r.
Qed.

(** ** Wrapping *)

Lemma wrap_spec w rs : forall col row, columns row = col ->
  concat (wrap_runes w col row rs) = row ++ rs /\
  (col <= w \/ (exists r, row = [r]) -> Forall (fun row => columns row <= w \/ exists r, row = [r]) (wrap_runes w col row rs)) /\
  (exists tl, wrap_runes w col row rs = (row ++ take (length (nth 0 (wrap_runes w col row rs) []) - length row) rs) :: tl) /\
  forall i a b, wrap_runes w col row rs !! i = Some a -> wrap_runes w col row rs !! S i = Some b ->
    exists r b', b = r :: b' /\ w < columns a + RuneWidth r.
Proof.
  induction rs as [|r rs IH]; intros col row Hc; cbn [wrap_runes].
  { cbn. split; [done|]. split; [|split].
    - intros Hr. apply Forall_singleton. destruct Hr; [left; lia|by right].
    - exists []. by rewrite Nat.sub_diag, app_nil_r.
    - by intros [|i]. }
  destruct (Z.ltb_spec w (col + RuneWidth r)) as [Hlt|Hge].
  - destruct (IH (RuneWidth r) [r] (Z.add_0_r _)) as (H1 & H2 & (tl & H3) & H4). cbn [concat]. rewrite H1. split; [done|]. split; [|split].
    + intros Hr. constructor; [destruct Hr; [left; lia|by right]|]. apply H2. right. by eexists.
    + eexists. cbn [nth]. by rewrite Nat.sub_diag, app_nil_r.
    + intros [|i] a b; cbn [lookup list_lookup]; [|apply H4]. intros [= <-]. rewrite H3. cbn. intros [= <-].
      eexists _, _. split; [done|]. lia.
  - destruct (IH (col + RuneWidth r) (row ++ [r])) as (H1 & H2 & (tl & H3) & H4).
    { unfold columns in *. rewrite foldr_app. cbn. rewrite <-Hc. clear. induction row; cbn; lia. }
    rewrite <-app_assoc in H1. split; [done|]. split; [|split; [|done]].
    + intros _. apply H2. left. lia.
    + exists tl. rewrite H3 at 1. f_equal. rewrite <-app_assoc. f_equal. rewrite H3. cbn [nth].
      rewrite !length_app. cbn [length app]. destruct (_ - length row)%nat eqn:E; [exfalso; lia|]. cbn [take]. do 2 f_equal. lia.
Qed.

(** Wrapping breaks a text at its newlines and each line into rows whose runes
    are the line's; a row is broken only before a rune that does not fit, and fits
    unless it is a single rune. *)
Lemma hardWrap_spec (s : gostr) (w : Z) : exists paras : list (list (list Z)),
  hardWrap s w = concat (map (map string_of_runes) paras) /\
  map (@concat Z) paras = map runes (SplitByte LF s) /\
  Forall (fun rows =>
    Forall (fun row => columns row <= Z.max 1 w \/ exists r, row = [r]) rows /\
    forall i a b, rows !! i = Some a -> rows !! S i = Some b -> exists r b', b = r :: b' /\ Z.max 1 w < columns a + RuneWidth r) paras.
Proof.
  exists (map (fun para => wrap_runes (Z.max 1 w) 0 [] (runes para)) (SplitByte LF s)). unfold hardWrap.
  assert ((if w <? 1 then 1 else w) = Z.max 1 w) as -> by (destruct (Z.ltb_spec w 1); lia). split; [|split].
  - rewrite map_map. f_equal. apply map_ext. by intros [|c para].
  - rewrite map_map. apply map_ext. intros para. by destruct (wrap_spec (Z.max 1 w) (runes para) 0 [] eq_refl) as (-> & _).
  - apply Forall_forall. intros rows (para & <- & _)%list_elem_of_In%in_map_iff.
    destruct (wrap_spec (Z.max 1 w) (runes para) 0 [] eq_refl) as (_ & H2 & _ & H4). split; [|done]. apply H2. left. lia.
Qed.

(** ** The tail of an output *)

Lemma last_index_last c a b : c ∉ b -> last_index c (a ++ c :: b) = Some (length a).
Proof.
  intros Hb. assert (last_index c b = None) as Hn.
  { induction b as [|x b IH]; [done|]. apply not_elem_of_cons in Hb as [Hx Hb]. cbn. rewrite IH by done.
    destruct (Byte.eqb x c) eqn:E; [by apply byte_eqb_eq in E|done]. }
  induction a as [|x a IH]; cbn; [by rewrite Hn, byte_eqb_refl|]. by rewrite IH.
Qed.

Lemma tail_start_spec ls k m : Forall (fun l => LF ∉ l) ls -> (m <= length ls)%nat -> (k < m)%nat ->
  tail_start k (Join [LF] ls) (length (Join [LF] (take m ls))) = Some (length (Join [LF] (take (m - k) ls))).
Proof.
  intros Hls. revert m. induction k as [|k IH]; intros m Hm Hk; [by rewrite Nat.sub_0_r|]. cbn [tail_start].
  assert (take (length (Join [LF] (take m ls))) (Join [LF] ls) = Join [LF] (take m ls)) as ->.
  { rewrite <-(take_drop m ls) at 2. destruct (decide (drop m ls = [])) as [E|E]; [by rewrite E, app_nil_r, firstn_all|].
    rewrite Join_app by (done || (destruct ls, m; cbn in *; (lia || done))). by rewrite take_app_length. }
  destruct (lookup_lt_is_Some_2 ls (m - 1)%nat) as [l Hl]; [lia|].
  assert (take m ls = take (m - 1) ls ++ [l]) as Et.
  { replace m with (S (m - 1)) at 1 by lia. by apply take_S_r. }
  rewrite Et at 1. rewrite Join_app by (done || (destruct ls, m as [|[|]]; cbn in *; (lia || done))).
  rewrite Forall_lookup in Hls. rewrite last_index_last by (cbn; by eapply Hls).
  rewrite IH by lia. do 4 f_equal. lia.
Qed.

(** The tail of a tool's output is its last lines, as many as the limit lets. *)
Lemma tailOutput_spec (output : gostr) (limit : Z) :
  let ls := SplitByte LF output in
  tailOutput output limit =
    (if limit <? 0 then output else if Z.of_nat (length ls) <=? limit then output
     else Join [LF] (drop (length ls - Z.to_nat limit) ls), Z.of_nat (length ls)).
Proof.
  cbv zeta. unfold tailOutput. set (ls := SplitByte LF output).
  assert (1 + Z.of_nat (CountByte output LF) = Z.of_nat (length ls)) as ->.
  { subst ls. rewrite Split_count. unfold CountByte. lia. }
  destruct (Z.ltb_spec limit 0); cbn [orb]; [done|]. destruct (Z.leb_spec (Z.of_nat (length ls)) limit); [done|].
  destruct (Z.eqb_spec limit 0) as [->|].
  { cbn. by rewrite Nat.sub_0_r, drop_all. }
  assert (output = Join [LF] ls) as Eo by (symmetry; apply Join_Split).
  assert (Forall (fun l => LF ∉ l) ls) as Hls by apply Split_pieces.
  pose proof (tail_start_spec ls (Z.to_nat limit) (length ls) Hls) as H'. rewrite firstn_all, <-Eo in H'. rewrite H' by lia.
  f_equal. set (m := (length ls - Z.to_nat limit)%nat) in *. assert (0 < m < length ls)%nat as Hm by (subst m; lia).
  assert (output = Join [LF] (take m ls ++ drop m ls)) as Em by by rewrite take_drop.
  rewrite Em, Join_app; [|intros E; apply (f_equal length) in E; rewrite length_take in E; cbn in E; lia|].
  - rewrite (app_assoc _ [LF] (Join [LF] (drop m ls))), drop_app_length' by (rewrite length_app; cbn; lia). done.
  - intros E. apply (f_equal length) in E. rewrite length_drop in E. cbn in E. lia.
Qed.

Lemma spinner_some tick : 0 <= tick < 2 ^ 63 -> is_Some (spinner tick).
Proof.
  intros Ht. unfold spinner. rewrite wrap64_id by (unfold int64_ok; lia). pose proof (Z.rem_bound_pos tick 10 ltac:(lia) ltac:(lia)) as Hr.
  destruct (Z.ltb_spec (Z.rem tick 10) 0); [lia|]. destruct (lookup_lt_is_Some_2 SpinnerFrames (Z.to_nat (Z.rem tick 10))) as [f ->].
  - change (length SpinnerFrames) with 10%nat. lia.
  - by eexists.
Qed.

(** C32: Drawing a tool with a tick below 2^63 never panics (the index of the
    spinner is negative from there on: [rows_late_tick]).  The first row is the
    header, then come the details of the verbose view.  A tool whose output is
    blank has no more rows.  Otherwise, with no cap (a negative one) or as many
    lines of sanitized output as the cap or fewer, every line follows, in order
    and under the gutter; with more lines a note counts them, and exactly the
    last lines follow, as many as the cap (a cap of zero leaves one empty row). *)
Theorem rows_tool (n : Node) (width bashCap tick now : Z) (expand : bool) (Ht : 0 <= tick < 2 ^ 63) :
  let ls := SplitByte LF (SanitizeForTerminal (TrimRightByte (nOutput n) LF)) in
  let total := Z.of_nat (length ls) in
  let row l := Dim gutter ++ truncCols l (width - glen gutter) in
  exists glyph, tool_glyph n tick = Some glyph /\
    renderToolNode n width bashCap tick now expand =
      Some (tool_header n glyph now :: (if expand then tool_details n width else []) ++
        if bool_decide (TrimSpace (nOutput n) = []) then []
        else if (bashCap <? 0) || (total <=? bashCap) then map row ls
        else Dim (#"  │ … last " ++ itoa bashCap ++ #" of " ++ itoa total ++ #" lines") ::
             if bashCap =? 0 then [row []] else map row (drop (length ls - Z.to_nat bashCap) ls)).
Proof.
  cbv zeta. unfold renderToolNode. assert (is_Some (tool_glyph n tick)) as [glyph Eg].
  { unfold tool_glyph. repeat case_bool_decide; try by eexists. destruct (spinner_some tick Ht) as [f ->]. by eexists. }
  exists glyph. split; [exact Eg|]. rewrite Eg. cbn [mbind option_bind]. do 3 f_equal. unfold tool_output.
  case_bool_decide; [done|]. set (safe := SanitizeForTerminal _). rewrite tailOutput_spec.
  set (ls := SplitByte LF safe). assert (Join [LF] ls = safe) as Es by apply Join_Split.
  destruct (Z.ltb_spec bashCap 0) as [Hneg|Hpos]; cbn [orb].
  { by destruct (Z.leb_spec 0 bashCap); [lia|]. }
  destruct (Z.leb_spec 0 bashCap); [cbn [andb]|lia].
  destruct (Z.leb_spec (Z.of_nat (length ls)) bashCap), (Z.ltb_spec bashCap (Z.of_nat (length ls))); try lia; [done|].
  cbn [app]. f_equal. destruct (Z.eqb_spec bashCap 0) as [->|Hb].
  { rewrite Nat.sub_0_r, drop_all. reflexivity. }
  rewrite Split_Join; [done| |].
  - intros E. apply (f_equal length) in E. rewrite length_drop in E. cbn in E. lia.
  - apply Forall_drop. apply Split_pieces.
Qed.
End row_theorems.

(** ** Witnesses: one column a rune *)

#[local] Instance ex_screen : Screen := {|
  RuneWidth r := 1; Truncate s w := take (Z.to_nat w) s; Enabled := true; Prose s w := [s];
  Sprint_value v := []; Seconds_text d := []; Time_text ms := [] |}.

Lemma rows_clip_witness :
  clipToWidth (Red #"ab" ++ #"cd") 3 = Red #"ab" ++ #"c" ++ reset /\
  exists out n, let text := map flatten_rune (visible (runes (Red #"ab" ++ #"cd"))) in
    visible out = take n text /\ columns (visible out) <= 3.
Proof.
  split; [vm_compute; reflexivity|]. destruct (rows_clip (Red #"ab" ++ #"cd") 3 ltac:(lia)) as (out & n & H1 & H2 & _).
  by exists out, n.
Defined.

Definition ex_tool : Node := mkNode NodeTool 0 [] [] #"bash" None StatusRunning (#"a" ++ [LF] ++ #"b" ++ [LF] ++ #"c") [] 0 0.

Lemma rows_tool_witness :
  let row l := Dim gutter ++ truncCols l (20 - glen gutter) in
  exists glyph, tool_glyph ex_tool 3 = Some glyph /\
    renderToolNode ex_tool 20 2 3 0 false =
      Some [tool_header ex_tool glyph 0; Dim #"  │ … last 2 of 3 lines"; row #"b"; row #"c"].
Proof.
  destruct (rows_tool ex_tool 20 2 3 0 false ltac:(lia)) as (glyph & H1 & H2).
  exists glyph. split; [exact H1|]. rewrite H2. reflexivity.
Defined.

(** From 2^63 on the tick is a negative int. *)
Example rows_late_tick : renderToolNode ex_tool 20 2 (2 ^ 63) 0 false = None.
Proof. vm_compute. reflexivity. Qed.
