(* ===== verification/Pager.v ===== *)
(** * cli: the full-screen pager (src/internal/cli/transcript.go,
    transcript_selection.go)

    The pager shows a bounded window of pages of the conversation and the open
    message, scrolls, selects nodes and searches, and asks for pages as it needs
    them.  [None] is a Go panic.  The time is a field, read where the code calls
    time.Now; the view is the ariaView of [Rows], whose verbosity is a field; what
    is painted is kept in order in [painted]. *)

From S2P Require Import Prelude Utf8 GoStrings Json GoJson Livedoc Aria Sanitize Rows RecordSet.

(** The status line of sessionStatus and what other libraries give. *)
Class PagerEnv (S : Type) := {
  ruleLine : S -> Z -> gostr -> gostr;
  statusLine : S -> Z -> bool -> gostr;
  panelLines : S -> list gostr;
  helpVersionLine : gostr;
  UnescapeString : gostr -> gostr }.       (* html.UnescapeString *)

(** ** Data *)

Record nodeRef := mkRef { rfLT : Z; rfIndex : Z }.
#[export] Instance nodeRef_eq_dec : EqDecision nodeRef. Proof. solve_decision. Defined.
#[export] Instance nodeRef_countable : Countable nodeRef.
Proof. by apply (inj_countable' (fun r => (rfLT r, rfIndex r)) (fun p => mkRef p.1 p.2)); intros []. Defined.

(** func (r nodeRef) valid *)
Definition valid (r : nodeRef) : bool := negb (rfLT r =? 0).
Definition no_ref : nodeRef := mkRef 0 0.

Record selectionPoint := mkPoint { spRef : nodeRef; spHash : Z }.
Record nodeSelection := mkSelection { selActive : bool; anchor : selectionPoint; focus : selectionPoint }.
Definition no_selection : nodeSelection := mkSelection false (mkPoint no_ref 0) (mkPoint no_ref 0).
Record selectionCopyPlan := mkPlan { lo : selectionPoint; hi : selectionPoint; planOpen : option Message }.

Record transcriptRow := mkRow { text : gostr; ref : nodeRef }.
Record nodeSpan := mkSpan { first : Z; last_row : Z }.
Record selectionMark := mkMark { selected : bool; mActive : bool }.

Record pageDesc := mkDesc { FirstLT : Z; LastLT : Z; Count : Z; ReplayBefore : Z; LTHash : Z }.
#[export] Instance pageDesc_eq_dec : EqDecision pageDesc. Proof. solve_decision. Defined.
Definition no_desc : pageDesc := mkDesc 0 0 0 0 0.
Record transcriptPage := mkPage { desc : pageDesc; messages_of : list Message }.

Inductive direction := pageOlder | pageNewer.
Record transcriptSearch := mkSearch {
  sQuery : gostr; sPages : list transcriptPage; sNewer : list pageDesc; sOffset : Z; sFollow : bool;
  sNoMoreOlder : bool; sDirection : direction }.

Record transcriptPageRequest := mkRequest {
  before : Z; rDirection : direction; expected : pageDesc; after : Z; watermark : Z; cached : list Message }.

(** One paint: the rows that differ from the last one. *)
Inductive painting := PEnter | PLeave | PRows (rows : list (nat * gostr)).

Definition transcriptPageSize : Z := 30.
Definition transcriptPageLimit : nat := 3.
Definition transcriptTailLimit : Z := 2 * transcriptPageSize.
Definition transcriptDescLimit : nat := 64.
Definition transcriptPayloadLRULimit : nat := 3.

(** hash/fnv New64a *)
Definition fnv_offset : Z := 14695981039346656037.
Definition fnv_byte (h : Z) (b : byte) : Z := wrapu64 (Z.lxor h (bz b) * 1099511628211).
Definition fnv_write (h : Z) (s : gostr) : Z := foldl fnv_byte h s.
(** The eight bytes of uint64(v), least first. *)
Definition le64 (v : Z) : gostr := map (fun i => zb (Z.land (Z.shiftr (wrapu64 v) (8 * Z.of_nat i)) 255)) (seq 0 8).

(** func describePage; equal is [decide]. *)
Definition describePage (messages : list Message) : pageDesc :=
  match messages, last messages with
  | m :: _, Some l =>
      mkDesc (mLT m) (mLT l) (glen messages) (wrap64 (mLT l + 1))
        (foldl (fun h m => fnv_write h (le64 (mLT m))) fnv_offset messages)
  | _, _ => no_desc
  end.

(** func committedMessages *)
Definition committedMessages (l : list Committed) : list Message :=
  map (fun c => mkMessage (cmLT c) (cmRole c) (cmNodes c)) (List.filter Full l).

Definition nodes_of (m : Message) : list Node := default [] (mNodes m).
Definition refs_of (m : Message) : list nodeRef := imap (fun i _ => mkRef (mLT m) (Z.of_nat i)) (nodes_of m).

Section pager.
Context {scr : Screen} {St : Type} {env : PagerEnv St}.

Record transcript := mkTranscript {
  active : bool; showHelp : bool; showStatus : bool; inSearch : bool; pendG : bool; query : gostr;
  tw : Z; th : Z; tick : Z; now : Z; verbose : bool;
  prev : list gostr; lineLT : list Z; offset : Z; follow : bool;
  checkOlder : bool; checkNewer : bool; noMoreOlder : bool;
  pages : list transcriptPage; newer : list pageDesc; payloadLRU : list transcriptPage;
  search : option transcriptSearch; heldOpen : option Message; committedW : Z;
  rowCache : gmap Z (list transcriptRow); cacheW : Z; nodeRows : gmap nodeRef nodeSpan;
  selection : nodeSelection; expanded : gset nodeRef;
  client : Client; status : St; painted : list painting }.

#[export] Instance transcript_rebuild : Rebuild transcript := fun t =>
  mkTranscript (active t) (showHelp t) (showStatus t) (inSearch t) (pendG t) (query t) (tw t) (th t) (tick t) (now t)
    (verbose t) (prev t) (lineLT t) (offset t) (follow t) (checkOlder t) (checkNewer t) (noMoreOlder t) (pages t)
    (newer t) (payloadLRU t) (search t) (heldOpen t) (committedW t) (rowCache t) (cacheW t) (nodeRows t)
    (selection t) (expanded t) (client t) (status t) (painted t).

(** func newTranscript *)
Definition newTranscript (w h : Z) (c : Client) (st : St) (time : Z) (verb : bool) : transcript :=
  mkTranscript false false false false false [] w h 0 time verb [] [] 0 false false false false [] [] [] None None 0
    ∅ 0 ∅ no_selection ∅ c st [].

(** ** The window of pages *)

(** func (t *transcript) messages, oldestLT, newestLT, hasNewerHistory *)
Definition messages (t : transcript) : list Message := concat (map messages_of (pages t)).
Definition oldestLT (t : transcript) : option Z := mLT <$> head (messages t).
Definition newestLT (t : transcript) : option Z := mLT <$> last (messages t).
Definition hasNewerHistory (t : transcript) : bool :=
  (0 <? length (newer t))%nat || match newestLT t with Some n => n <? committedW t | None => false end.

(** func openMessage, stopFollowing *)
Definition openMessage (t : transcript) : option Message := if follow t then (View (client t)).2 else heldOpen t.
Definition stopFollowing (t : transcript) : transcript :=
  (if follow t then t <| heldOpen := (View (client t)).2 |> else t) <| follow := false |>.

(** func dropPage, pruneCaches *)
Definition forget (keep : Z -> bool) (t : transcript) : transcript :=
  t <| rowCache ::= filter (fun kv => keep kv.1 = true); expanded ::= filter (fun r => keep (rfLT r) = true) |>.
Definition has_lt (lt : Z) (ms : list Message) : bool := existsb (fun m => mLT m =? lt) ms.
Definition dropPage (p : transcriptPage) (t : transcript) : transcript :=
  forget (fun lt => negb (has_lt lt (messages_of p))) t.
Definition pruneCaches (t : transcript) : transcript := forget (fun lt => has_lt lt (messages t)) t.

(** The last [n] of a list. *)
Definition keep_last {A} (n : nat) (l : list A) : list A := drop (length l - n) l.

(** func rememberPayload, takePayload *)
Fixpoint remove_first (d : pageDesc) (l : list transcriptPage) : list transcriptPage :=
  match l with
  | [] => []
  | p :: l => if decide (desc p = d) then l else p :: remove_first d l
  end.
Definition rememberPayload (p : transcriptPage) (t : transcript) : transcript :=
  if Count (desc p) =? 0 then t else
  t <| payloadLRU := keep_last transcriptPayloadLRULimit (remove_first (desc p) (payloadLRU t) ++ [p]) |>.
Fixpoint take_last (d : pageDesc) (l : list transcriptPage) : option (transcriptPage * list transcriptPage) :=
  match l with
  | [] => None
  | p :: l =>
      match take_last d l with
      | Some (q, l) => Some (q, p :: l)
      | None => if decide (desc p = d) then Some (p, l) else None
      end
  end.
Definition takePayload (d : pageDesc) (t : transcript) : transcript * list Message :=
  match take_last d (payloadLRU t) with
  | Some (p, l) => (t <| payloadLRU := l |>, messages_of p)
  | None => (t, [])
  end.

(** func trimPages: one round, and the loop, which drops a page each time. *)
Definition trim_one (dir : direction) (t : transcript) : transcript :=
  match dir with
  | pageOlder =>
      match last (pages t) with
      | None => t
      | Some p =>
          let t := t <| newer := keep_last transcriptDescLimit (newer t ++ [desc p]) |> in
          (dropPage p (rememberPayload p t)) <| pages ::= fun l => removelast l |>
      end
  | pageNewer =>
      match pages t with
      | [] => t
      | p :: ps => (dropPage p (rememberPayload p t)) <| pages := ps; noMoreOlder := false |>
      end
  end.
Fixpoint trim_loop (fuel : nat) (dir : direction) (t : transcript) : transcript :=
  match fuel with
  | O => t
  | S fuel => if (transcriptPageLimit <? length (pages t))%nat then trim_loop fuel dir (trim_one dir t) else t
  end.
Definition trimPages (dir : direction) (t : transcript) : transcript := trim_loop (length (pages t)) dir t.

(** func resetToTail *)
Definition resetToTail (t : transcript) : transcript :=
  let closed := keep_last (Z.to_nat transcriptPageSize) (View (client t)).1 in
  let t := match last closed with
    | None => t <| pages := [] |>
    | Some m => t <| pages := [mkPage (describePage closed) closed];
                     committedW := if committedW t <? mLT m then mLT m else committedW t |>
    end in
  pruneCaches (t <| newer := []; payloadLRU := []; checkNewer := false; heldOpen := None;
    noMoreOlder := match closed with m :: _ => mLT m <=? 1 | [] => false end |>).

(** func observeCommitted *)
Definition observeCommitted (m : Message) (t : transcript) : transcript :=
  let t := if committedW t <? mLT m then t <| committedW := mLT m |> else t in
  match heldOpen t with
  | Some h => if mLT h =? mLT m then t <| heldOpen := Some m |> else t
  | None => t
  end.

(** func searchingHistory, finishSearch(false), wrapSearchOlder *)
Definition searchingHistory (t : transcript) : bool := match search t with Some _ => true | None => false end.
Definition finishSearch (t : transcript) : transcript :=
  match search t with
  | None => t
  | Some o =>
      pruneCaches (t <| pages := sPages o; newer := sNewer o; offset := sOffset o; follow := sFollow o;
        noMoreOlder := sNoMoreOlder o; search := None; checkOlder := false; checkNewer := false |>)
  end.
Definition wrapSearchOlder (t : transcript) : transcript :=
  match search t with
  | None => t
  | Some o =>
      let t := t <| pages := sPages o; newer := sNewer o; offset := sOffset o; follow := false;
        noMoreOlder := sNoMoreOlder o; checkNewer := false |> in
      if noMoreOlder t then finishSearch t else
      pruneCaches (t <| checkOlder := true;
        search := Some (mkSearch (sQuery o) (sPages o) (sNewer o) (sOffset o) (sFollow o) (sNoMoreOlder o) pageOlder) |>)
  end.

(** ** Rows *)

Definition pointLess (a b : nodeRef) : bool :=
  (rfLT a <? rfLT b) || (rfLT a =? rfLT b) && (rfIndex a <? rfIndex b).

(** The messages a frame shows: the pages' and the open one. *)
Definition shown (t : transcript) : list Message :=
  messages t ++ match openMessage t with Some m => [m] | None => [] end.

(** The ends of the selection in order. *)
Definition selection_ends (t : transcript) : selectionPoint * selectionPoint :=
  let '(a, f) := (anchor (selection t), focus (selection t)) in
  if pointLess (spRef f) (spRef a) then (f, a) else (a, f).

(** func selectionMarks *)
Definition selectionMarks (t : transcript) : gmap nodeRef selectionMark :=
  if negb (selActive (selection t)) then ∅ else
  let '(l, h) := selection_ends t in
  foldl (fun marks r =>
    if negb (pointLess r (spRef l)) && negb (pointLess (spRef h) r)
    then <[r := mkMark true (bool_decide (r = spRef (focus (selection t))))]> marks else marks)
    ∅ (concat (map refs_of (shown t))).

(** func decorateNodeRow, dimTransRule *)
Definition decorateNodeRow (row : gostr) (mark : selectionMark) (width : Z) : gostr :=
  (if mActive mark then Cyan #"▸ " else if selected mark then Cyan #"│ " else #"  ") ++ clipToWidth row (width - 2).
Definition dimmed (s : gostr) : gostr := ESC :: #"[2m" ++ s ++ reset.
Definition dimTransRule (w : Z) : gostr := dimmed (concat (repeat #"─" (Z.to_nat (if w <? 3 then 3 else w)))).

(** func renderNode, renderMsgBase *)
Definition renderNode (t : transcript) (n : Node) (r : nodeRef) : option (list gostr) :=
  let width := tw t - 2 in
  RenderExpanded n (if width <? 1 then 1 else width) (tick t) (now t) (verbose t) (bool_decide (r ∈ expanded t)).
Definition node_rows (t : transcript) (lt : Z) (k : nat) (n : Node) : option (list transcriptRow) :=
  let r := mkRef lt (Z.of_nat k) in
  ls ← renderNode t n r;
  Some ((if (0 <? k)%nat then [mkRow [] no_ref] else []) ++ map (fun l => mkRow l r) ls).
Definition renderMsgBase (t : transcript) (m : Message) : option (list transcriptRow) :=
  let h := messageHeader (mRole m) in
  rs ← mapM (fun kn : nat * Node => node_rows t (mLT m) kn.1 kn.2) (imap pair (nodes_of m));
  Some ((if bool_decide (h = []) then [] else [mkRow h no_ref; mkRow [] no_ref]) ++ concat rs).

(** The rows of a message, from the cache or into it. *)
Definition cached_rows (m : Message) (t : transcript) : option (transcript * list transcriptRow) :=
  match rowCache t !! mLT m with
  | Some rows => Some (t, rows)
  | None => rows ← renderMsgBase t m; Some (t <| rowCache ::= insert (mLT m) rows |>, rows)
  end.

(** The closure appendMsg of lines: the lines, the LT of each, the span of each node. *)
Definition drawing : Type := list gostr * list Z * gmap nodeRef nodeSpan.
Definition append_row (marks : gmap nodeRef selectionMark) (w lt : Z) (d : drawing) (r : transcriptRow) : drawing :=
  let '(out, lts, spans) := d in
  if valid (ref r) then
    let i := glen out in
    let span := mkSpan (match spans !! ref r with Some s => first s | None => i end) i in
    (out ++ [decorateNodeRow (text r) (default (mkMark false false) (marks !! ref r)) w], lts ++ [lt], <[ref r := span]> spans)
  else (out ++ [text r], lts ++ [lt], spans).
Definition appendMsg (marks : gmap nodeRef selectionMark) (w : Z) (d : drawing) (rows : list transcriptRow) (lt : Z) : drawing :=
  let '(out, lts, spans) := d in
  let d := match out with [] => d | _ => (out ++ [[]; dimTransRule w; []], lts ++ [lt; lt; lt], spans) end in
  foldl (append_row marks w lt) d rows.

(** func lines *)
Definition line_step (marks : gmap nodeRef selectionMark) (st : option (transcript * drawing)) (m : Message)
  : option (transcript * drawing) :=
  '(t, d) ← st; '(t, rows) ← cached_rows m t; Some (t, appendMsg marks (tw t) d rows (mLT m)).
Definition lines (t : transcript) : option (transcript * list gostr) :=
  let t := if follow t then resetToTail t else t in
  let t := if cacheW t =? tw t then t else t <| rowCache := ∅; cacheW := tw t |> in
  let marks := selectionMarks t in
  '(t, d) ← foldl (line_step marks) (Some (t, ([], [], ∅))) (messages t);
  d ← match openMessage t with
      | None => Some d
      | Some m => rows ← renderMsgBase t m; Some (appendMsg marks (tw t) d rows (mLT m))
      end;
  let '(out, lts, spans) := d in
  Some (t <| nodeRows := spans; lineLT := lts |>, out).

(** ** The screen *)

(** func helpLines, statusPanelLines *)
Definition panel (t : transcript) (rows : list gostr) : list gostr :=
  let max := th t - 4 in
  let rows := if (max <? glen rows) && (0 <? max) then take (Z.to_nat max) rows else rows in
  map (fun r => dimmed (clipToWidth r (tw t))) rows.
Definition help_text : list gostr :=
  [ #""; #"  j/k · u/d · gg/G    scroll · half-page · top/bottom"; #"  /                   search (Enter jump · Esc cancel)";
    #"  y                   copy aria id"; #"  ^O                  toggle verbose tool output";
    #"  ^N/^P               select next/previous node";
    #"  ^N/^P + Shift       extend node selection (Alt+^N/^P fallback)";
    #"  Enter / ^C          expand tools / copy selected node(s)"; #"  ^L                  listen — stay open after the turn ends";
    #"  ^D                  detach; the turn keeps running"; #"  ^C                  interrupt the turn / close";
    #"  !                   figaro status panel"; #"  ?                   close help"].
Definition helpLines (t : transcript) : list gostr :=
  panel t (help_text ++ match helpVersionLine with [] => [] | v => [[]; #"  " ++ v] end).
Definition statusPanelLines (t : transcript) : list gostr := panel t (panelLines (status t)).

(** func footerRows *)
Definition footerRows (t : transcript) (total body : Z) : gostr * gostr :=
  let stop := offset t + body in
  let pos := if body <? total
             then itoa (offset t + 1) ++ #"–" ++ itoa (if total <? stop then total else stop) ++ #"/" ++ itoa total ++
                  (if follow t then #" live" else [])
             else [] in
  (dimmed (ruleLine (status t) (tw t) pos),
   dimmed (if inSearch t then clipToWidth (#"/" ++ query t) (tw t) else statusLine (status t) (tw t) true)).

(** func paint: the rows written, and the new last screen. *)
Definition changed_rows (old screen : list gostr) : list (nat * gostr) :=
  List.filter (fun r : nat * gostr => negb (bool_decide (default [] (old !! r.1) = r.2))) (imap pair screen).
Definition paint (screen : list gostr) (t : transcript) : transcript :=
  t <| painted ::= fun l => l ++ [PRows (changed_rows (prev t) screen)]; prev := screen |>.

(** Row [r] of the screen but the footer's two. *)
Definition body_row (all foot : list gostr) (off body : Z) (h : Z) (r : nat) : gostr :=
  let in_body := if Z.of_nat r <? body then default [] (all !! Z.to_nat (off + Z.of_nat r)) else [] in
  let k := Z.of_nat r - body in
  if (0 <=? k) && (Z.of_nat r <? h - 2) then default in_body (foot !! Z.to_nat k) else in_body.

(** The rows left to the body, and the line it starts at. *)
Definition body_rows (h : Z) (foot : list gostr) : Z :=
  let body := h - 2 - glen foot in if body <? 1 then 1 else body.
Definition clamp_offset (t : transcript) (total body : Z) : Z :=
  let maxOff := total - body in
  let maxOff := if maxOff <? 0 then 0 else maxOff in
  let off := if follow t then maxOff else offset t in
  let off := if maxOff <? off then maxOff else off in
  if off <? 0 then 0 else off.
Definition footing (t : transcript) : list gostr :=
  if showHelp t then helpLines t else if showStatus t then statusPanelLines t else [].

(** func render; a screen of fewer than two rows is indexed out of range. *)
Definition render (t : transcript) : option transcript :=
  if negb (active t) then Some t else
  '(t, all) ← lines t;
  let foot := footing t in
  let body := body_rows (th t) foot in
  let t := t <| offset := clamp_offset t (glen all) body |> in
  if th t <? 2 then None else
  let '(rule, stat) := footerRows t (glen all) body in
  let h := Z.to_nat (th t) in
  let screen := map (body_row all foot (offset t) body (th t)) (seq 0 (h - 2)) ++ [rule; stat] in
  Some (paint screen t).

(** ** The viewport *)

(** How many lines up from [i] have the LT of line [i]. *)
Fixpoint run_up (lts : list Z) (lt : Z) (i : nat) : nat :=
  match i with
  | O => O
  | S i => if bool_decide (lts !! i = Some lt) then S (run_up lts lt i) else O
  end.

(** func viewportAnchor, restoreViewportAnchor *)
Definition viewportAnchor (t : transcript) : option (Z * Z) :=
  if follow t || (glen (lineLT t) <=? offset t) then Some (0, 0) else
  if offset t <? 0 then None else
  let i := Z.to_nat (offset t) in
  lt ← lineLT t !! i;
  Some (lt, Z.of_nat (run_up (lineLT t) lt i)).
Definition restoreViewportAnchor (lt within : Z) (t : transcript) : transcript :=
  if lt =? 0 then t else
  match list_find (fun x => x = lt) (lineLT t) with
  | Some (i, _) => t <| offset := Z.of_nat i + within |>
  | None => t
  end.

(** func enter, leave, scrollBy, resize, invalidateRows *)
Definition enter (t : transcript) : option transcript :=
  let t := t <| active := true; follow := true; prev := []; pendG := false; inSearch := false; query := [] |> in
  render ((resetToTail t) <| painted ::= fun l => l ++ [PEnter] |>).
Definition leave (t : transcript) : transcript :=
  t <| active := false; painted ::= fun l => l ++ [PLeave]; prev := [] |>.
Definition scrollBy (delta : Z) (t : transcript) : option transcript :=
  if negb (active t) then Some t else
  let t := stopFollowing (t <| offset := offset t + delta |>) in
  render (if delta <? 0 then t <| checkOlder := true |> else if 0 <? delta then t <| checkNewer := true |> else t).
Definition resize (w h : Z) (t : transcript) : option transcript :=
  '(lt, within) ← viewportAnchor t;
  '(t, _) ← lines (t <| tw := w; th := h; prev := [] |>);
  render (restoreViewportAnchor lt within t).
Definition invalidateRows (t : transcript) : transcript := t <| rowCache := ∅ |>.

(** ** Searching *)

(** The visible bytes of a row: CSI sequences and pairs after ESC are left out. *)
Fixpoint after_csi (s : gostr) : gostr :=
  match s with
  | [] => []
  | c :: r => if (64 <=? bz c) && (bz c <=? 126) then r else after_csi r
  end.
Fixpoint visible_bytes (fuel : nat) (s : gostr) : gostr :=
  match fuel, s with
  | S fuel, c :: r =>
      if negb (Byte.eqb c ESC) then c :: visible_bytes fuel r else
      match r with
      | [] => []
      | d :: r => if Byte.eqb d x5b then visible_bytes fuel (after_csi r) else visible_bytes fuel r
      end
  | _, _ => []
  end.

(** func searchContains *)
Definition searchContains (row q : gostr) : bool :=
  if negb (existsb (Byte.eqb ESC) row) then Contains row q else Contains (visible_bytes (length row) row) q.

(** func containsIgnoringMarkdown *)
Definition markup (c : byte) : bool := existsb (Byte.eqb c) #"*_~`[]()".
Fixpoint matches_ignoring (m q : gostr) : bool :=
  match q, m with
  | [], _ => true
  | _, [] => false
  | c :: q', x :: m => if markup x then matches_ignoring m q else Byte.eqb x c && matches_ignoring m q'
  end.
Fixpoint contains_ignoring (m q : gostr) : bool :=
  match m with
  | [] => false
  | _ :: m' => matches_ignoring m q || contains_ignoring m' q
  end.
Definition containsIgnoringMarkdown (m q : gostr) : bool := bool_decide (q = []) || contains_ignoring m q.

(** The words of a query, which is printable ASCII, found one after the other. *)
Fixpoint words_in_order (ws : list gostr) (m : gostr) : bool :=
  match ws with
  | [] => true
  | w :: ws => match Index m w with Some i => words_in_order ws (drop (i + length w) m) | None => false end
  end.
Definition words (q : gostr) : list gostr := List.filter (fun w => negb (bool_decide (w = []))) (SplitByte x20 q).

(** func markdownMayRenderQuery *)
Definition markdownMayRenderQuery (m q : gostr) : bool :=
  Contains m q || containsIgnoringMarkdown m q || words_in_order (words q) m ||
  (Contains m #"&" && Contains (UnescapeString m) q).

(** func messageMayRenderQuery: the tests on node [i]. *)
Definition tool_may_render (t : transcript) (r : nodeRef) (n : Node) (q : gostr) : bool :=
  bool_decide (nName n = []) && Contains #"tool" q ||
  Contains (#"✓✗" ++ string_of_runes SpinnerFrames) q ||
  negb (nStartedAt n =? 0) &&
    (Contains (toolDuration n (now t)) q ||
     verbose t && (Contains (#"started " ++ Time_text (nStartedAt n)) q || Contains (#"finished " ++ Time_text (nFinishedAt n)) q)) ||
  verbose t && existsb (fun kv : gostr * json => Contains (kv.1 ++ #"=" ++ Sprint_value kv.2) q) (default [] (nArgs n)) ||
  bool_decide (r ∉ expanded t) && negb (bool_decide (nOutput n = [])) &&
    (let total := 1 + Z.of_nat (CountByte (TrimRightByte (nOutput n) LF) LF) in
     (nodeBashCapDefault <? total) &&
     Contains (#"last " ++ itoa nodeBashCapDefault ++ #" of " ++ itoa total ++ #" lines") q).
Definition node_may_render (t : transcript) (q : gostr) (r : nodeRef) (n : Node) : bool :=
  markdownMayRenderQuery (nMarkdown n) q || Contains (nName n) q || Contains (nSummary n) q || Contains (nOutput n) q ||
  bool_decide (nType n = NodeSteering) && Contains #"↳ you" q ||
  bool_decide (nType n = NodeTool) && tool_may_render t r n q.
Definition messageMayRenderQuery (t : transcript) (m : Message) (q : gostr) : bool :=
  Contains (messageHeader (mRole m)) q ||
  existsb (fun rn => node_may_render t q rn.1 rn.2) (zip (refs_of m) (nodes_of m)).

(** func findPage: the page's first message with a row that holds the query. *)
Fixpoint findPage (q : gostr) (ms : list Message) (t : transcript) : option (transcript * bool) :=
  match ms with
  | [] => Some (t, false)
  | m :: ms =>
      if negb (messageMayRenderQuery t m q) then findPage q ms t else
      '(t, rows) ← cached_rows m t;
      if existsb (fun r => searchContains (text r) q) rows then
        '(t, all) ← lines t;
        match list_find (fun il : Z * gostr => il.1 = mLT m /\ searchContains il.2 q = true) (zip (lineLT t) all) with
        | Some (i, _) => Some (t <| offset := Z.of_nat i; follow := false |>, true)
        | None => Some (t, false)
        end
      else findPage q ms t
  end.

(** func find: the lines after the first one shown, around. *)
Definition line_from (off n : Z) (i : nat) : Z := Z.rem (off + 1 + Z.of_nat i) n.
Definition find (q : gostr) (t : transcript) : option transcript :=
  if bool_decide (q = []) then Some t else
  '(t, all) ← lines t;
  if bool_decide (all = []) then Some t else
  let idx := map (line_from (offset t) (glen all)) (seq 0 (length all)) in
  hits ← mapM (fun i => row ← (if i <? 0 then None else all !! Z.to_nat i); Some (i, searchContains row q)) idx;
  match list_find (fun h : Z * bool => h.2 = true) hits with
  | Some (_, (i, _)) => Some (stopFollowing (t <| offset := i |>))
  | None =>
      let origin dir := mkSearch q (pages t) (newer t) (offset t) (follow t) (noMoreOlder t) dir in
      let t' := stopFollowing t in
      Some (if hasNewerHistory t then t' <| search := Some (origin pageNewer); checkNewer := true |>
            else t' <| search := Some (origin pageOlder); checkOlder := true |>)
  end.

(** func searchKey *)
Definition searchKey (b : byte) (t : transcript) : option transcript :=
  if Byte.eqb b x0d || Byte.eqb b x0a then find (query t) (t <| inSearch := false |>)
  else if Byte.eqb b ESC then Some (t <| inSearch := false; query := [] |>)
  else if Byte.eqb b x7f || Byte.eqb b x08 then Some (t <| query ::= fun q => removelast q |>)
  else if (0x20 <=? bz b) && (bz b <? 0x7f) then Some (t <| query ::= fun q => q ++ [b] |>) else Some t.

(** ** Selecting *)

(** func nodeHash *)
Definition hash_string (h : Z) (s : gostr) : Z := fnv_write (fnv_write h (le64 (glen s))) s.
Definition nodeHash (n : Node) : Z :=
  let h := foldl hash_string fnv_offset [nType n; nName n; nSummary n; nStatus n; nMarkdown n; nOutput n] in
  let h := fnv_write (fnv_write h (le64 (nStartedAt n))) (le64 (nFinishedAt n)) in
  match nArgs n with
  | Some (kv :: a) => hash_string h (Print (JObj (kv :: a)))
  | _ => h
  end.

(** func nodeRefs *)
Definition points_of (m : Message) : list selectionPoint :=
  zip_with (fun r n => mkPoint r (nodeHash n)) (refs_of m) (nodes_of m).
Definition nodeRefs (t : transcript) : list selectionPoint := concat (map points_of (shown t)).

(** func ensureSelectionVisible *)
Definition ensureSelectionVisible (t : transcript) : option transcript :=
  if negb (selActive (selection t)) then Some t else
  '(t, _) ← lines t;
  Some match nodeRows t !! spRef (focus (selection t)) with
  | None => t
  | Some span =>
      let body := th t - 1 in
      let body := if body <? 1 then 1 else body in
      if first span <? offset t then t <| offset := first span |>
      else if offset t + body <=? last_row span then t <| offset := last_row span - body + 1 |> else t
  end.

(** func selectNode: the node to go to from [index], or None when the pager first
    has to fetch what lies between the window and the held message. *)
Definition clamp_index (next : Z) (refs : list selectionPoint) (t : transcript) : transcript * nat :=
  if next <? 0 then (t <| checkOlder := true |>, 0%nat)
  else if glen refs <=? next then (t <| checkNewer := true |>, (length refs - 1)%nat)
  else (t, Z.to_nat next).
Definition next_index (delta : Z) (refs : list selectionPoint) (index : nat) (t : transcript) : transcript * option nat :=
  let next := Z.of_nat index + delta in
  let lt_at (i : nat) := (fun p => rfLT (spRef p)) <$> refs !! i in
  let waits := match heldOpen t with
    | Some h => hasNewerHistory t && (0 <=? next) && (next <? glen refs) &&
        (bool_decide (lt_at index = Some (mLT h)) || bool_decide (lt_at (Z.to_nat next) = Some (mLT h)))
    | None => false
    end in
  if waits then (t <| checkNewer := true |>, None)
  else let '(t, i) := clamp_index next refs t in (t, Some i).
Definition selectNode (delta : Z) (extend : bool) (t : transcript) : option transcript :=
  let refs := nodeRefs t in
  if bool_decide (refs = []) then Some t else
  let focused := if selActive (selection t)
                 then fst <$> list_find (fun p => spRef p = spRef (focus (selection t))) refs else None in
  let '(t, index) := match focused with
    | None => (t, Some (if delta <? 0 then (length refs - 1)%nat else 0%nat))
    | Some i => next_index delta refs i t
    end in
  match index with
  | None => Some t
  | Some i =>
      p ← refs !! i;
      let sel := selection t in
      let t := t <| selection := mkSelection true (if negb extend || negb (selActive sel) then p else anchor sel) p |> in
      ensureSelectionVisible (stopFollowing t)
  end.

(** func toggleSelectedTools *)
Definition selected_tools (t : transcript) : list nodeRef :=
  let marks := selectionMarks t in
  concat (map (fun m => map fst (List.filter (fun rn : nodeRef * Node =>
    match marks !! rn.1 with Some mk => selected mk | None => false end &&
    bool_decide (nType rn.2 = NodeTool) && negb (bool_decide (nOutput rn.2 = []))) (zip (refs_of m) (nodes_of m)))) (shown t)).
Definition toggleSelectedTools (t : transcript) : option (transcript * bool) :=
  let tools := selected_tools t in
  if bool_decide (tools = []) then Some (t, false) else
  let expand := existsb (fun r => bool_decide (r ∉ expanded t)) tools in
  let t := foldl (fun t r =>
    t <| expanded ::= fun e => if expand then {[r]} ∪ e else e ∖ {[r]}; rowCache ::= delete (rfLT r) |>) t tools in
  t ← ensureSelectionVisible t; Some (t, true).

(** func clearSelection *)
Definition middle_direction (t : transcript) : direction :=
  let ms := messages t in
  match ms !! (length ms / 2)%nat with
  | Some m => if mLT m <=? rfLT (spRef (focus (selection t))) then pageNewer else pageOlder
  | None => pageOlder
  end.
Definition clearSelection (t : transcript) : option transcript :=
  let dir := middle_direction t in
  '(lt, within) ← viewportAnchor t;
  '(t, _) ← lines (pruneCaches (trimPages dir (t <| selection := no_selection |>)));
  Some (restoreViewportAnchor lt within t).

(** func selectionPlan *)
Definition selectionPlan (t : transcript) : option selectionCopyPlan :=
  if negb (selActive (selection t)) then None else
  let '(l, h) := selection_ends t in
  let open := match openMessage t with
    | Some m => if (rfLT (spRef l) <=? mLT m) && (mLT m <=? rfLT (spRef h)) then Some m else None
    | None => None
    end in
  Some (mkPlan l h open).

(** ** Keys *)

(** The keys of navigation, once the panels are dealt with. *)
Definition nav_key (b : byte) (t : transcript) : option transcript :=
  let half := Z.quot (th t) 2 in
  if Byte.eqb b x6a then Some ((stopFollowing (t <| offset := offset t + 1 |>)) <| checkNewer := true |>)
  else if Byte.eqb b x6b then Some ((stopFollowing (t <| offset := offset t - 1 |>)) <| checkOlder := true |>)
  else if Byte.eqb b x64 then Some ((stopFollowing (t <| offset := offset t + half |>)) <| checkNewer := true |>)
  else if Byte.eqb b x75 then Some ((stopFollowing (t <| offset := offset t - half |>)) <| checkOlder := true |>)
  else if Byte.eqb b x47 then Some (resetToTail (t <| follow := true |>))
  else if Byte.eqb b x67 then Some (if pendG t then (stopFollowing (t <| offset := 0 |>)) <| checkOlder := true |> else t)
  else if Byte.eqb b x2f then Some (t <| inSearch := true; query := [] |>)
  else if Byte.eqb b x3f then Some (t <| showHelp := true |>)
  else if Byte.eqb b x21 then Some (t <| showStatus := true |>)
  else if Byte.eqb b x0e then selectNode 1 false t
  else if Byte.eqb b x10 then selectNode (-1) false t
  else if Byte.eqb b x0d || Byte.eqb b x0a then fst <$> toggleSelectedTools t
  else Some t.

(** func key *)
Definition key (b : byte) (t : transcript) : option transcript :=
  if inSearch t then t ← searchKey b t; render t else
  let nav t := t ← nav_key b t; render (t <| pendG := Byte.eqb b x67 && negb (pendG t) |>) in
  if showHelp t || showStatus t then
    let to_status := showHelp t && Byte.eqb b x21 in
    let to_help := showStatus t && Byte.eqb b x3f in
    let t := t <| showHelp := false; showStatus := false |> in
    if to_help then render (t <| showHelp := true |>)
    else if to_status then render (t <| showStatus := true |>)
    else if existsb (Byte.eqb b) [x3f; x21; ESC; x71] then render t else nav t
  else nav t.

(** ** Pages *)

(** func pageCursor: the page the pager needs next. *)
Definition newer_request (t : transcript) : transcript * option transcriptPageRequest :=
  if negb (checkNewer t) then (t, None) else
  let t := t <| checkNewer := false |> in
  match last (newer t) with
  | Some d =>
      if negb (searchingHistory t) && (offset t + th t <? glen (lineLT t)) then (t, None)
      else let '(t, ms) := takePayload d t in (t, Some (mkRequest (ReplayBefore d) pageNewer d 0 0 ms))
  | None =>
      (t, match newestLT t with
          | Some n => if n <? committedW t then Some (mkRequest 0 pageNewer no_desc n (committedW t) []) else None
          | None => None
          end)
  end.
Definition pageCursor (t : transcript) : option (transcript * option transcriptPageRequest) :=
  let t := if checkOlder t && noMoreOlder t then t <| checkOlder := false |> else t in
  if checkOlder t then
    let t := t <| checkOlder := false |> in
    if negb (searchingHistory t) && (th t <=? offset t) then Some (t, None) else
    match oldestLT t with
    | None => Some (t, None)
    | Some o =>
        if o <=? 1 then t ← render (finishSearch (t <| noMoreOlder := true |>)); Some (t, None)
        else Some (t, Some (mkRequest o pageOlder no_desc 0 0 []))
    end
  else Some (newer_request t).

(** The search after a page [ms] has come in: whether the page is to be drawn. *)
Definition search_page (ms : list Message) (t : transcript) : option transcript :=
  match search t with
  | None => Some t
  | Some s =>
      r ← findPage (sQuery s) ms t;
      let '(t, found) := (r : transcript * bool) in
      Some (if found then t <| search := None |> else
            match sDirection s with
            | pageNewer => if hasNewerHistory t then t <| checkNewer := true |> else wrapSearchOlder t
            | pageOlder => t <| checkOlder := true |>
            end)
  end.

(** func applyPage *)
Definition add_page (req : transcriptPageRequest) (p : transcriptPage) (t : transcript) : transcript :=
  match rDirection req with
  | pageOlder => t <| pages ::= cons p |>
  | pageNewer =>
      let t := t <| pages ::= fun l => l ++ [p] |> in
      if negb (Count (expected req) =? 0) && (0 <? length (newer t))%nat
      then t <| newer ::= fun l => removelast l |> else t
  end.
Definition release_held (d : pageDesc) (t : transcript) : transcript :=
  match heldOpen t with
  | Some h => if (FirstLT d <=? mLT h) && (mLT h <=? LastLT d) then t <| heldOpen := None |> else t
  | None => t
  end.
Definition applyPage (req : transcriptPageRequest) (ms : list Message) (t : transcript) : option transcript :=
  if negb (active t) then Some t else
  if bool_decide (ms = []) then
    match rDirection req with
    | pageOlder => render (finishSearch (t <| noMoreOlder := true |>))
    | pageNewer => Some (wrapSearchOlder t)
    end
  else
  let d := describePage ms in
  if negb (Count (expected req) =? 0) && negb (bool_decide (expected req = d))
  then render (t <| newer := []; checkNewer := true |>) else
  let t := release_held d t in
  let put t := trimPages (rDirection req) (add_page req (mkPage d ms) t) in
  match search t with
  | Some _ => t ← search_page ms (put t); if searchingHistory t then Some t else render t
  | None =>
      '(lt, within) ← viewportAnchor t;
      '(t, _) ← lines (put t);
      render (restoreViewportAnchor lt within t)
  end.

(** func transcriptPageFailed of livelog_bridge.go *)
Definition pageFailed (t : transcript) : option transcript :=
  render ((finishSearch t) <| checkOlder := false; checkNewer := false |>).
End pager.
