(* ===== verification/PagerReads.v ===== *)
(** * cli: the history the pager reads (readNextPage and readTranscriptPage of
    src/internal/cli/stream.go, selectionText of transcript_selection.go)

    A read of the server may fail and may change the world it runs in; [read] is
    that call.  The next page after a message is found by binary search over
    reads of the page before a bound; the text of a selection is put together
    from pages read backwards, so it does not need the messages to be in the
    pager's window. *)

From S2P Require Import Prelude GoStrings Json GoJson Livedoc Aria Sanitize Rows RecordSet Pager.

Section reads.
Context {R : Type} (read : R -> Z -> Z -> R * option AriaRead).

(** ** The next page *)

(** func committedAfter, filterCommittedAfter *)
Definition committedAfter (l : list Committed) (after : Z) : Z := glen (List.filter (fun c => after <? cmLT c) l).
Definition filterCommittedAfter (a : AriaRead) (after : Z) : AriaRead :=
  mkAriaRead (List.filter (fun c => after <? cmLT c) (arCommitted a)) (arLive a) (arMetrics a).

(** The rounds of the search between [low] and [high]. *)
Fixpoint next_page_loop (rounds : nat) (after limit low high : Z) (best : AriaRead) (r : R) : R * option AriaRead :=
  match rounds with
  | O => (r, Some (filterCommittedAfter best after))
  | S rounds =>
      if high <=? low then (r, Some (filterCommittedAfter best after)) else
      let mid := low + Z.quot (high - low) 2 in
      match read r mid limit with
      | (r, None) => (r, None)
      | (r, Some a) =>
          if limit <=? committedAfter (arCommitted a) after
          then next_page_loop rounds after limit low mid a r
          else next_page_loop rounds after limit (mid + 1) high best r
      end
  end.

(** func readNextPage *)
Definition readNextPage (after watermark limit : Z) (r : R) : R * option AriaRead :=
  if (watermark <=? after) || (limit <=? 0) then (r, Some empty_read) else
  let high := watermark + 1 in
  match read r high limit with
  | (r, None) => (r, None)
  | (r, Some best) =>
      if committedAfter (arCommitted best) after <? limit then (r, Some (filterCommittedAfter best after))
      else next_page_loop 64 after limit (after + 1) high best r
  end.

(** func readTranscriptPage *)
Definition readTranscriptPage (req : transcriptPageRequest) (r : R) : R * option (list Message) :=
  match cached req with
  | _ :: _ => (r, Some (cached req))
  | [] =>
      let '(r, a) :=
        if negb (after req =? 0) then readNextPage (after req) (watermark req) transcriptPageSize r
        else read r (before req) (if negb (Count (expected req) =? 0) then Count (expected req) else transcriptPageSize) in
      (r, (fun a => committedMessages (arCommitted a)) <$> a)
  end.

(** ** The text of a selection *)

Inductive selection_error := ReadFailed | HistoryUnavailable | EndpointsUnavailable | StartChanged | EndChanged.

(** func nodeClipboardText *)
Definition nodeClipboardText (n : Node) : gostr :=
  if bool_decide (nType n = NodeTool) then
    if negb (bool_decide (nOutput n = [])) then nOutput n else
    match nArgs n with
    | Some (kv :: a) => nName n ++ #" " ++ Print (JObj (kv :: a))
    | _ => if negb (bool_decide (nSummary n = [])) then nSummary n else nName n
    end
  else nMarkdown n.

(** func selectedMessageText: the loop over the nodes from the [i]th. *)
Definition in_plan (plan : selectionCopyPlan) (r : nodeRef) : bool :=
  negb (pointLess r (spRef (lo plan))) && negb (pointLess (spRef (hi plan)) r).
Definition node_text (plan : selectionCopyPlan) (r : nodeRef) (n : Node) : list gostr :=
  if in_plan plan r then match nodeClipboardText n with [] => [] | s => [s] end else [].
Fixpoint selected_nodes (plan : selectionCopyPlan) (rns : list (nodeRef * Node))
  : list gostr * bool * bool + selection_error :=
  match rns with
  | [] => inl ([], false, false)
  | (r, n) :: rns =>
      let isLo := bool_decide (r = spRef (lo plan)) in
      let isHi := bool_decide (r = spRef (hi plan)) in
      if isLo && negb (nodeHash n =? spHash (lo plan)) then inr StartChanged
      else if isHi && negb (nodeHash n =? spHash (hi plan)) then inr EndChanged
      else match selected_nodes plan rns with
           | inl (texts, foundLo, foundHi) => inl (node_text plan r n ++ texts, isLo || foundLo, isHi || foundHi)
           | inr e => inr e
           end
  end.
Definition selectedMessageText (m : Message) (plan : selectionCopyPlan) : list gostr * bool * bool + selection_error :=
  selected_nodes plan (zip (refs_of m) (nodes_of m)).

(** The messages of one page. *)
Fixpoint page_text (plan : selectionCopyPlan) (ms : list Message) : list gostr * bool * bool + selection_error :=
  match ms with
  | [] => inl ([], false, false)
  | m :: ms =>
      match selectedMessageText m plan with
      | inr e => inr e
      | inl (t, l, h) =>
          match page_text plan ms with
          | inr e => inr e
          | inl (ts, l', h') => inl (t ++ ts, l || l', h || h')
          end
      end
  end.

(** The loop over the pages, newest first: the texts so far, which of the ends
    were seen.  [None] is running out of rounds. *)
Fixpoint copy_loop (rounds : nat) (plan : selectionCopyPlan) (pageSize before : Z) (texts : list gostr)
  (foundLo foundHi : bool) (r : R) : option (R * (list gostr * bool * bool + selection_error)) :=
  if before <=? rfLT (spRef (lo plan)) then Some (r, inl (texts, foundLo, foundHi)) else
  match rounds with
  | O => None
  | S rounds =>
      match read r before pageSize with
      | (r, None) => Some (r, inr ReadFailed)
      | (r, Some a) =>
          match committedMessages (arCommitted a) with
          | [] => Some (r, inr HistoryUnavailable)
          | m :: ms =>
              match page_text plan (m :: ms) with
              | inr e => Some (r, inr e)
              | inl (page, l, h) => copy_loop rounds plan pageSize (mLT m) (page ++ texts) (foundLo || l) (foundHi || h) r
              end
          end
      end
  end.

Definition blank_line : gostr := [LF; LF].
Definition open_text (plan : selectionCopyPlan) : list gostr * bool * bool + selection_error :=
  match planOpen plan with Some m => selectedMessageText m plan | None => inl ([], false, false) end.

(** func selectionText *)
Definition selectionText (rounds : nat) (plan : selectionCopyPlan) (pageSize : Z) (r : R)
  : option (R * (gostr + selection_error)) :=
  match open_text plan with
  | inr e => Some (r, inr e)
  | inl (newest, foundLo, foundHi) =>
      if foundLo && foundHi then Some (r, inl (Join blank_line newest)) else
      let before := match planOpen plan with
        | Some m => if mLT m =? rfLT (spRef (hi plan)) then mLT m else rfLT (spRef (hi plan)) + 1
        | None => rfLT (spRef (hi plan)) + 1
        end in
      '(r, res) ← copy_loop rounds plan pageSize before newest foundLo foundHi r;
      Some (r, match res with
        | inr e => inr e
        | inl (texts, foundLo, foundHi) =>
            if negb foundLo || negb foundHi then inr EndpointsUnavailable else inl (Join blank_line texts)
        end)
  end.
End reads.

(** ** A history and its readers *)

(** The last [limit] messages before [before]. *)
Definition window (H : list Message) (before limit : Z) : list Message :=
  keep_last (Z.to_nat limit) (List.filter (fun m => mLT m <? before) H).

Definition by_lt (H : list Message) : Prop := StronglySorted (fun a b => mLT a < mLT b) H.

(** A committed entry that carries message [m]. *)
Definition carries (c : Committed) (m : Message) : Prop := cmLT c = mLT m /\ cmRole c = mRole m /\ cmNodes c = mNodes m.

(** What is read below [top] is the history's window; a read may fail. *)
Definition reads_history {R} (read : R -> Z -> Z -> R * option AriaRead) (H : list Message) (top : Z) : Prop :=
  forall r b limit a, b <= top -> 0 < limit -> (read r b limit).2 = Some a ->
    Forall2 carries (arCommitted a) (window H b limit).

(** The messages between [after] and [b]. *)
Definition between (H : list Message) (after b : Z) : list Message :=
  List.filter (fun m => (after <? mLT m) && (mLT m <? b)) H.

(** ** Windows *)

Lemma by_lt_filter H f : by_lt H -> by_lt (List.filter f H).
Proof.
  induction 1 as [|m H Hs IH Hm]; cbn; [constructor|]. destruct (f m); [|done]. constructor; [done|].
  rewrite Forall_forall in *. intros x Hx. apply Hm. apply list_elem_of_In in Hx. apply filter_In in Hx as [Hx _]. by apply list_elem_of_In.
Qed.

Lemma filter_every {A} (f : A -> bool) l : (forall x, x ∈ l -> f x = true) -> List.filter f l = l.
Proof.
  induction l as [|x l IH]; intros H; cbn; [done|]. rewrite H by apply elem_of_cons, or_introl, eq_refl. f_equal.
  apply IH. intros y Hy. apply H, elem_of_cons. by right.
Qed.

Lemma filter_no {A} (f : A -> bool) l : (forall x, x ∈ l -> f x = false) -> List.filter f l = [].
Proof.
  induction l as [|x l IH]; intros H; cbn; [done|]. rewrite H by apply elem_of_cons, or_introl, eq_refl.
  apply IH. intros y Hy. apply H, elem_of_cons. by right.
Qed.

Lemma elem_of_filter_b {A} (f : A -> bool) l x : x ∈ List.filter f l <-> x ∈ l /\ f x = true.
Proof. by rewrite !list_elem_of_In, filter_In. Qed.

Lemma keep_last_all {A} n (l : list A) : (length l <= n)%nat -> keep_last n l = l.
Proof. intros H. unfold keep_last. replace (length l - n)%nat with 0%nat by lia. done. Qed.

Lemma keep_last_length {A} n (l : list A) : length (keep_last n l) = Nat.min n (length l).
Proof. unfold keep_last. rewrite length_drop. lia. Qed.

Lemma keep_last_elem {A} n (l : list A) x : x ∈ keep_last n l -> x ∈ l.
Proof. unfold keep_last. rewrite <-(take_drop (length l - n) l) at 3. rewrite elem_of_app. by right. Qed.

Lemma keep_last_app {A} n (p l : list A) : (n <= length l)%nat -> keep_last n (p ++ l) = keep_last n l.
Proof. intros H. unfold keep_last. rewrite length_app, drop_app_ge by lia. f_equal. lia. Qed.

Lemma keep_last_app_more {A} n (p l : list A) : (length l <= n)%nat -> keep_last n (p ++ l) = keep_last (n - length l) p ++ l.
Proof. intros H. unfold keep_last. rewrite length_app, drop_app_le by lia. do 2 f_equal. lia. Qed.

Lemma before_split H after b : by_lt H -> after < b ->
  List.filter (fun m => mLT m <? b) H = List.filter (fun m => mLT m <=? after) H ++ between H after b.
Proof.
  intros Hs Hb. unfold between. induction Hs as [|m H Hs IH Hm]; [done|]. cbn [List.filter].
  destruct (Z.leb_spec (mLT m) after) as [Hle|Hgt].
  - destruct (Z.ltb_spec (mLT m) b), (Z.ltb_spec after (mLT m)); try lia. cbn [andb app]. by rewrite IH.
  - rewrite (filter_no (fun m => mLT m <=? after) H).
    2: { intros x Hx. rewrite Forall_forall in Hm. specialize (Hm x Hx). apply Z.leb_gt. lia. }
    destruct (Z.ltb_spec (mLT m) b), (Z.ltb_spec after (mLT m)); try lia; cbn [andb app]; [f_equal|];
      rewrite IH; by rewrite (filter_no (fun m => mLT m <=? after) H) by
        (intros x Hx; rewrite Forall_forall in Hm; specialize (Hm x Hx); apply Z.leb_gt; lia).
Qed.

(** What a read below [b] holds after [after]. *)
Lemma window_after H after b limit : by_lt H -> after < b ->
  List.filter (fun m => after <? mLT m) (window H b limit) = keep_last (Z.to_nat limit) (between H after b).
Proof.
  intros Hs Hb. unfold window. rewrite (before_split H after b) by done.
  set (p := List.filter _ H). assert (forall n, List.filter (fun m => after <? mLT m) (keep_last n p) = []) as Hp.
  { intros n. apply filter_no. intros x Hx. apply keep_last_elem, elem_of_filter_b in Hx as [_ Hx]. apply Z.leb_le in Hx. apply Z.ltb_ge. lia. }
  assert (forall n, List.filter (fun m => after <? mLT m) (keep_last n (between H after b)) = keep_last n (between H after b)) as Ha.
  { intros n. apply filter_every. intros x Hx. apply keep_last_elem, elem_of_filter_b in Hx as [_ Hx]. by apply andb_true_iff in Hx as [? _]. }
  destruct (Nat.le_gt_cases (Z.to_nat limit) (length (between H after b))).
  - rewrite keep_last_app by done. apply Ha.
  - rewrite keep_last_app_more, List.filter_app, Hp by lia. rewrite (keep_last_all _ (between H after b)) by lia. cbn.
    rewrite <-(keep_last_all (length (between H after b)) (between H after b)) at 1 by lia. rewrite Ha. by apply keep_last_all.
Qed.

Lemma carries_filter l ms after : Forall2 carries l ms ->
  Forall2 carries (List.filter (fun c => after <? cmLT c) l) (List.filter (fun m => after <? mLT m) ms).
Proof. induction 1 as [|c m l ms Hc Hl IH]; cbn; [constructor|]. pose proof (proj1 Hc) as E. rewrite E. destruct (_ <? _); [|done]. by constructor. Qed.

Lemma between_mono H after b c : b <= c -> by_lt H -> after < b -> exists m, between H after c = between H after b ++ m /\ Forall (fun x => b <= mLT x < c) m.
Proof.
  intros Hbc Hs Hab. exists (List.filter (fun m => (b <=? mLT m) && (mLT m <? c)) H). split.
  - unfold between. induction Hs as [|m H Hs IH Hm]; [done|]. cbn [List.filter]. rewrite Forall_forall in Hm.
    destruct (Z.ltb_spec after (mLT m)), (Z.ltb_spec (mLT m) b), (Z.ltb_spec (mLT m) c), (Z.leb_spec b (mLT m)); cbn [andb app]; try lia; rewrite IH; try done.
    + rewrite (filter_no (fun m => (after <? mLT m) && (mLT m <? b)) H); [done|].
      intros x Hx. specialize (Hm x Hx). destruct (Z.ltb_spec (mLT x) b); [lia|]. by rewrite andb_false_r.
  - apply Forall_forall. intros x [_ Hx]%elem_of_filter_b. apply andb_true_iff in Hx as [H1%Z.leb_le H2%Z.ltb_lt]. lia.
Qed.

Lemma between_next H after b : by_lt H -> after < b -> (length (between H after (b + 1)) <= S (length (between H after b)))%nat.
Proof.
  intros Hs Hb. destruct (between_mono H after b (b + 1)) as (m & E & Hm); [lia|done|done|].
  assert (by_lt (between H after (b + 1))) as Hs' by by apply by_lt_filter. rewrite E in *. rewrite length_app.
  destruct m as [|x [|y m]]; cbn; try lia. exfalso.
  apply StronglySorted_app in Hs' as (_ & _ & Hs'). apply StronglySorted_inv in Hs' as [_ Hxy].
  apply Forall_cons in Hxy as [Hxy _]. repeat (apply Forall_cons in Hm as [? Hm]). lia.
Qed.

(** ** The next page *)

Section next_page.
Context {R : Type} (read : R -> Z -> Z -> R * option AriaRead) (H : list Message) (top after limit : Z).
Context (Hs : by_lt H) (Hread : reads_history read H top) (Hlimit : 0 < limit).

Lemma read_after r b a : after < b <= top -> (read r b limit).2 = Some a ->
  Forall2 carries (arCommitted (filterCommittedAfter a after)) (keep_last (Z.to_nat limit) (between H after b)) /\
  committedAfter (arCommitted a) after = Z.min limit (glen (between H after b)).
Proof.
  intros Hb Ha. pose proof (carries_filter _ _ after (Hread r b limit a (proj2 Hb) Hlimit Ha)) as Hf.
  rewrite window_after in Hf by (done || lia). split; [done|]. unfold committedAfter, glen.
  rewrite (Forall2_length _ _ _ Hf), keep_last_length. lia.
Qed.

Lemma page_of_enough b : after < b -> limit <= glen (between H after b) -> glen (between H after (b - 1)) < limit ->
  b <= top -> keep_last (Z.to_nat limit) (between H after b) = take (Z.to_nat limit) (between H after top).
Proof.
  unfold glen. intros Hb Hl Hlt Ht. destruct (between_mono H after b top Ht Hs Hb) as (m & -> & _).
  assert (length (between H after b) = Z.to_nat limit) as E.
  { destruct (decide (after < b - 1)) as [H1|H1].
    - pose proof (between_next H after (b - 1) Hs H1) as Hn. replace (b - 1 + 1) with b in Hn by lia. lia.
    - assert (between H after b = []) as E0; [|rewrite E0 in *; cbn in *; lia].
      apply filter_no. intros x _. destruct (Z.ltb_spec after (mLT x)), (Z.ltb_spec (mLT x) b); cbn; try done; lia. }
  rewrite keep_last_all by lia. by rewrite take_app_length' by lia.
Qed.

Lemma next_page_loop_spec rounds low high best r a :
  high - low < 2 ^ Z.of_nat rounds -> after < low -> high <= top -> low <= high ->
  Forall2 carries (arCommitted (filterCommittedAfter best after)) (keep_last (Z.to_nat limit) (between H after high)) ->
  limit <= glen (between H after high) -> glen (between H after (low - 1)) < limit ->
  (next_page_loop read rounds after limit low high best r).2 = Some a ->
  Forall2 carries (arCommitted a) (take (Z.to_nat limit) (between H after top)).
Proof.
  revert low high best r. induction rounds as [|n IH]; intros low high best r Hw Hlow Hhigh Hlh Hbest He Hne.
  - cbn. intros [= <-]. change (2 ^ Z.of_nat 0) with 1 in Hw. replace low with high in * by lia.
    by rewrite <-(page_of_enough high) by lia.
  - cbn [next_page_loop]. destruct (Z.leb_spec high low).
    { cbn. intros [= <-]. replace low with high in * by lia. by rewrite <-(page_of_enough high) by lia. }
    rewrite Nat2Z.inj_succ, Z.pow_succ_r in Hw by lia.
    assert (0 <= Z.quot (high - low) 2 /\ Z.quot (high - low) 2 * 2 <= high - low < Z.quot (high - low) 2 * 2 + 2) as Hq.
    { rewrite Z.quot_div_nonneg by lia. pose proof (Z.div_mod (high - low) 2 ltac:(lia)).
      pose proof (Z.mod_pos_bound (high - low) 2 ltac:(lia)). lia. }
    set (q := Z.quot (high - low) 2) in *. destruct (read r (low + q) limit) as [r' [a'|]] eqn:Er; [|done].
    destruct (read_after r (low + q) a') as [Ha Hc]; [lia|by rewrite Er|]. rewrite Hc.
    destruct (Z.leb_spec limit (Z.min limit (glen (between H after (low + q))))).
    + apply IH; try done; lia.
    + apply IH; try done; try lia. replace (low + q + 1 - 1) with (low + q) by lia. lia.
Qed.

Lemma next_page_loop_some rounds low high best r : (forall r b l, is_Some (read r b l).2) ->
  is_Some (next_page_loop read rounds after limit low high best r).2.
Proof.
  intros Hok. revert low high best r. induction rounds as [|n IH]; intros low high best r; cbn; [by eexists|].
  destruct (high <=? low); [by eexists|]. specialize (Hok r (low + (high - low) ÷ 2) limit).
  destruct (read r _ limit) as [r' [a|]]; [|by destruct Hok]. destruct (_ <=? _); apply IH.
Qed.
End next_page.

Lemma next_page_answer {R} (read : R -> Z -> Z -> R * option AriaRead) (H : list Message) (after watermark limit : Z) (r : R) a :
  by_lt H -> reads_history read H (watermark + 1) -> 0 < limit -> 0 <= after /\ watermark < 2 ^ 63 ->
  (readNextPage read after watermark limit r).2 = Some a ->
  Forall2 carries (arCommitted a) (take (Z.to_nat limit) (between H after (watermark + 1))).
Proof.
  intros Hs Hread Hlimit Hint. unfold readNextPage.
  destruct (Z.leb_spec limit 0); [lia|]. destruct (Z.leb_spec watermark after) as [Hle|Hgt]; cbn [orb].
  { intros [= <-]. assert (between H after (watermark + 1) = []) as ->; [|rewrite take_nil; constructor].
    apply filter_no. intros x _. destruct (Z.ltb_spec after (mLT x)), (Z.ltb_spec (mLT x) (watermark + 1)); cbn; try done; lia. }
  destruct (read r (watermark + 1) limit) as [r' [best|]] eqn:Er; [|done].
  destruct (read_after read H (watermark + 1) after limit Hs Hread Hlimit r (watermark + 1) best) as [Hb Hc]; [lia|by rewrite Er|].
  rewrite Hc. destruct (Z.ltb_spec (Z.min limit (glen (between H after (watermark + 1)))) limit) as [Hlt|Hge].
  - cbn. intros [= <-]. unfold glen in *. rewrite keep_last_all in Hb by lia. by rewrite take_ge by lia.
  - apply (next_page_loop_spec read H (watermark + 1) after limit Hs Hread Hlimit); try done; try lia.
    replace (after + 1 - 1) with after by lia. unfold glen. assert (between H after after = []) as ->; [|cbn; lia].
    apply filter_no. intros x _. destruct (Z.ltb_spec after (mLT x)), (Z.ltb_spec (mLT x) after); cbn; try done; lia.
Qed.

(** C29: The next page after a message is exactly the next messages up to the
    watermark, as many as the limit lets, whatever the history holds beyond; only
    a failed read leaves it without an answer. *)
Theorem pager_next_page {R} (read : R -> Z -> Z -> R * option AriaRead) (H : list Message) (after watermark limit : Z) (r : R)
  (Hs : by_lt H) (Hread : reads_history read H (watermark + 1)) (Hlimit : 0 < limit) (Hint : 0 <= after /\ watermark < 2 ^ 63) :
  (forall a, (readNextPage read after watermark limit r).2 = Some a ->
     Forall2 carries (arCommitted a) (take (Z.to_nat limit) (between H after (watermark + 1)))) /\
  ((forall r b l, is_Some (read r b l).2) -> is_Some (readNextPage read after watermark limit r).2).
Proof.
  split; [intros a; by apply next_page_answer|]. intros Hok. unfold readNextPage. destruct (_ || _); [by eexists|].
  destruct (Hok r (watermark + 1) limit) as [best Hb]. destruct (read r (watermark + 1) limit) as [r' [b|]]; [|done].
  destruct (_ <? _); [by eexists|]. by apply next_page_loop_some.
Qed.
