(* ===== verification/PagerCopy.v ===== *)
(** * cli: copying a selection out of the pager's history (selectionText of
    src/internal/cli/transcript_selection.go over the reads of a server)

    A selection runs from a node of one message to a node of another; its text is
    read back in pages and checked at its ends.  The reads are those of the
    broadcast server of Aria. *)

From S2P Require Import Prelude GoStrings Json GoJson Livedoc Aria Sanitize Rows RecordSet Pager AriaTrace PagerReads.

(** ** Copying *)

Section copying.
Context (plan : selectionCopyPlan).

Definition nodes_at (m : Message) : list (nodeRef * Node) := zip (refs_of m) (nodes_of m).
Definition texts_of (ms : list Message) : list gostr :=
  concat (map (fun rn => node_text plan rn.1 rn.2) (concat (map nodes_at ms))).
(** The points of the nodes, as nodeRefs lists them. *)
Definition points (ms : list Message) : list selectionPoint := concat (map points_of ms).

Definition node_unchanged (rn : nodeRef * Node) : Prop :=
  (rn.1 = spRef (lo plan) -> nodeHash rn.2 = spHash (lo plan)) /\ (rn.1 = spRef (hi plan) -> nodeHash rn.2 = spHash (hi plan)).
Definition unchanged (ms : list Message) : Prop := Forall node_unchanged (concat (map nodes_at ms)).
Definition has_ref (r : nodeRef) (ms : list Message) : bool := bool_decide (r ∈ map fst (concat (map nodes_at ms))).

Lemma selected_nodes_spec rns :
  match selected_nodes plan rns with
  | inl (texts, l, h) => texts = concat (map (fun rn => node_text plan rn.1 rn.2) rns) /\
      l = bool_decide (spRef (lo plan) ∈ map fst rns) /\ h = bool_decide (spRef (hi plan) ∈ map fst rns) /\ Forall node_unchanged rns
  | inr e => (e = StartChanged \/ e = EndChanged) /\ ~ Forall node_unchanged rns
  end.
Proof.
  induction rns as [|[r n] rns IH]; cbn [selected_nodes].
  { cbn. split; [done|]. rewrite !bool_decide_eq_false_2 by apply not_elem_of_nil. repeat split; constructor. }
  assert (forall p : selectionPoint, bool_decide (r = spRef p) && negb (nodeHash n =? spHash p) = false <->
    (r = spRef p -> nodeHash n = spHash p)) as Hp.
  { clear IH. intros p. case_bool_decide; cbn [andb]; [|naive_solver].
    destruct (Z.eqb_spec (nodeHash n) (spHash p)); cbn; naive_solver. }
  destruct (bool_decide (r = spRef (lo plan)) && negb (nodeHash n =? spHash (lo plan))) eqn:E1.
  { split; [by left|]. intros [[H _] _]%Forall_cons. by rewrite (proj2 (Hp (lo plan)) H) in E1. }
  destruct (bool_decide (r = spRef (hi plan)) && negb (nodeHash n =? spHash (hi plan))) eqn:E2.
  { split; [by right|]. intros [[_ H] _]%Forall_cons. by rewrite (proj2 (Hp (hi plan)) H) in E2. }
  assert (node_unchanged (r, n)) as Hn by exact (conj (proj1 (Hp _) E1) (proj1 (Hp _) E2)).
  destruct (selected_nodes plan rns) as [[[texts l] h]|e]; [|destruct IH as [H1 H2]; split; [done|]; by intros [_ ?]%Forall_cons].
  destruct IH as (-> & -> & -> & Hr). cbn [map concat fst snd]. split; [done|].
  split; [|split; [|by constructor]]; apply eq_true_iff_eq; rewrite orb_true_iff, !bool_decide_eq_true, elem_of_cons; naive_solver.
Qed.

Lemma page_text_spec ms :
  match page_text plan ms with
  | inl (texts, l, h) => texts = texts_of ms /\ l = has_ref (spRef (lo plan)) ms /\ h = has_ref (spRef (hi plan)) ms /\ unchanged ms
  | inr e => (e = StartChanged \/ e = EndChanged) /\ ~ unchanged ms
  end.
Proof.
  induction ms as [|m ms IH]; cbn [page_text].
  { unfold has_ref. cbn. rewrite !bool_decide_eq_false_2 by apply not_elem_of_nil. repeat split; constructor. }
  pose proof (selected_nodes_spec (nodes_at m)) as Hm. unfold selectedMessageText. fold (nodes_at m).
  assert (unchanged (m :: ms) <-> Forall node_unchanged (nodes_at m) /\ unchanged ms) as Hu by apply Forall_app.
  destruct (selected_nodes plan (nodes_at m)) as [[[t l] h]|e]; [|naive_solver].
  destruct (page_text plan ms) as [[[ts l'] h']|e]; [|naive_solver].
  destruct Hm as (-> & -> & -> & Hm), IH as (-> & -> & -> & IH). unfold texts_of, has_ref. cbn [map concat].
  rewrite map_app, concat_app, !map_app. split; [done|]. split; [|split; [|by apply Hu]];
    apply eq_true_iff_eq; rewrite orb_true_iff, !bool_decide_eq_true, elem_of_app; done.
Qed.

Lemma nodes_at_lt m rn : rn ∈ nodes_at m -> rfLT rn.1 = mLT m.
Proof.
  destruct rn as [r n]. intros H. apply list_elem_of_lookup in H as [i H]. unfold nodes_at in H. apply lookup_zip_Some in H as [H _].
  unfold refs_of in H. rewrite list_lookup_imap in H. by apply fmap_Some in H as (x & _ & ->).
Qed.

(** Messages before the selection hold nothing of it. *)
Lemma below_texts ms : Forall (fun m => mLT m < rfLT (spRef (lo plan))) ms -> rfLT (spRef (lo plan)) <= rfLT (spRef (hi plan)) ->
  texts_of ms = [] /\ unchanged ms /\ has_ref (spRef (lo plan)) ms = false /\ has_ref (spRef (hi plan)) ms = false.
Proof.
  intros Hms Hle. assert (forall rn, rn ∈ concat (map nodes_at ms) -> rfLT rn.1 < rfLT (spRef (lo plan))) as Hrn.
  { intros rn Hrn. apply list_elem_of_In, in_concat in Hrn as (l & (m & <- & Hm)%in_map_iff & Hrn).
    apply list_elem_of_In in Hrn. rewrite (nodes_at_lt m) by done. rewrite Forall_forall in Hms. apply Hms. by apply list_elem_of_In. }
  unfold texts_of, unchanged, has_ref. split; [|split; [|split]].
  - induction (concat (map nodes_at ms)) as [|rn l IH]; [done|]. cbn. rewrite IH by (intros; apply Hrn, elem_of_cons; auto).
    rewrite app_nil_r. unfold node_text, in_plan, pointLess. assert (rfLT rn.1 < rfLT (spRef (lo plan))) by (apply Hrn, elem_of_cons; by left).
    destruct (Z.ltb_spec (rfLT rn.1) (rfLT (spRef (lo plan)))); [done|lia].
  - apply Forall_forall. intros rn H%Hrn. split; intros E; rewrite E in H; lia.
  - apply bool_decide_eq_false. intros (rn & E & H%Hrn)%list_elem_of_fmap. rewrite <-E in H. lia.
  - apply bool_decide_eq_false. intros (rn & E & H%Hrn)%list_elem_of_fmap. rewrite <-E in H. lia.
Qed.

Lemma texts_app a b : texts_of (a ++ b) = texts_of a ++ texts_of b.
Proof. unfold texts_of. by rewrite map_app, concat_app, map_app, concat_app. Qed.
Lemma unchanged_app a b : unchanged (a ++ b) <-> unchanged a /\ unchanged b.
Proof. unfold unchanged. by rewrite map_app, concat_app, Forall_app. Qed.
Lemma has_ref_app r a b : has_ref r (a ++ b) = has_ref r a || has_ref r b.
Proof.
  unfold has_ref. rewrite map_app, concat_app, map_app.
  apply eq_true_iff_eq. by rewrite orb_true_iff, !bool_decide_eq_true, elem_of_app.
Qed.
End copying.

Lemma lt_split L c : by_lt L -> L = List.filter (fun m => mLT m <? c) L ++ List.filter (fun m => c <=? mLT m) L.
Proof.
  induction 1 as [|m L Hs IH Hm]; [done|]. cbn [List.filter]. rewrite Forall_forall in Hm.
  destruct (Z.ltb_spec (mLT m) c), (Z.leb_spec c (mLT m)); try lia; cbn [app]; [by f_equal|].
  rewrite (filter_no (fun m => mLT m <? c)) by (intros x Hx; specialize (Hm x Hx); apply Z.ltb_ge; lia). cbn. f_equal.
  symmetry. apply filter_every. intros x Hx. specialize (Hm x Hx). apply Z.leb_le. lia.
Qed.

Lemma filter_filter {A} (f g : A -> bool) l : List.filter f (List.filter g l) = List.filter (fun x => g x && f x) l.
Proof. induction l as [|x l IH]; [done|]. cbn. destruct (g x); cbn; [destruct (f x); by rewrite IH|done]. Qed.

(** A page and what comes before it. *)
Lemma window_cut H b n m ms : by_lt H -> window H b n = m :: ms ->
  List.filter (fun x => mLT x <? b) H = List.filter (fun x => mLT x <? mLT m) H ++ m :: ms /\ mLT m < b.
Proof.
  intros Hs E. unfold window, keep_last in E. set (F := List.filter (fun x => mLT x <? b) H) in *.
  assert (by_lt F) as HF by by apply by_lt_filter. set (k := (length F - Z.to_nat n)%nat) in *.
  assert (forall x, x ∈ F -> mLT x < b) as Hb by (intros x [_ Hx]%elem_of_filter_b; by apply Z.ltb_lt in Hx).
  assert (F = take k F ++ m :: ms) as Ek by (by rewrite <-E, take_drop).
  assert (mLT m < b) as Hm by (apply Hb; rewrite Ek; set_solver). split; [|done].
  assert (List.filter (fun x => mLT x <? mLT m) H = List.filter (fun x => mLT x <? mLT m) F) as ->.
  { subst F. rewrite filter_filter. apply filter_ext. intros x.
    destruct (Z.ltb_spec (mLT x) (mLT m)), (Z.ltb_spec (mLT x) b); try done; lia. }
  rewrite Ek in HF. apply StronglySorted_app in HF as (Hcross & _ & Hms). apply StronglySorted_inv in Hms as [_ Hms].
  rewrite Ek at 2. rewrite List.filter_app. rewrite (filter_every _ (take k F)).
  - rewrite (filter_no _ (m :: ms)); [by rewrite app_nil_r|]. intros x Hx. apply Z.ltb_ge.
    apply elem_of_cons in Hx as [->|Hx]; [lia|]. rewrite Forall_forall in Hms. specialize (Hms x Hx). lia.
  - intros x Hx. apply Z.ltb_lt. apply Hcross; [done|]. apply elem_of_cons. by left.
Qed.

Lemma committed_of_carries l ms : Forall2 carries l ms -> Forall (fun m => mNodes m <> None) ms -> committedMessages l = ms.
Proof.
  induction 1 as [|c m l ms (E1 & E2 & E3) Hl IH]; [done|]. intros [Hm Hms]%Forall_cons. specialize (IH Hms).
  unfold committedMessages in *. cbn. unfold Full at 1. rewrite E3. destruct m as [lt role [ns|]]; [|done]. cbn in *. rewrite E1, E2, E3. by f_equal.
Qed.

Section copy.
Context {R : Type} (read : R -> Z -> Z -> R * option AriaRead) (H : list Message) (plan : selectionCopyPlan) (top pageSize : Z).
Context (Hs : by_lt H) (Hfull : Forall (fun m => mNodes m <> None) H).
Context (Hread : reads_history read H top) (Hsize : 0 < pageSize).
#[local] Abbreviation loLT := (rfLT (spRef (lo plan))).
#[local] Abbreviation hiLT := (rfLT (spRef (hi plan))).
Context (Hle : loLT <= hiLT).

Definition selected_below (b : Z) : list Message := List.filter (fun m => (loLT <=? mLT m) && (mLT m <? b)) H.

Lemma selected_page b n m ms : window H b n = m :: ms ->
  exists below inside, m :: ms = below ++ inside /\ Forall (fun x => mLT x < loLT) below /\
    selected_below b = selected_below (mLT m) ++ inside.
Proof.
  intros E. destruct (window_cut H b n m ms Hs E) as [Ew Hm].
  exists (List.filter (fun x => mLT x <? loLT) (m :: ms)), (List.filter (fun x => loLT <=? mLT x) (m :: ms)).
  assert (by_lt (m :: ms)) as Hms.
  { pose proof (by_lt_filter H (fun x => mLT x <? b) Hs) as HF. rewrite Ew in HF. by apply StronglySorted_app in HF as (_ & _ & ?). }
  split; [by apply lt_split|]. split.
  { apply Forall_forall. intros x [_ Hx]%elem_of_filter_b. by apply Z.ltb_lt in Hx. }
  unfold selected_below.
  assert (forall c, List.filter (fun x => (loLT <=? mLT x) && (mLT x <? c)) H =
    List.filter (fun x => loLT <=? mLT x) (List.filter (fun x => mLT x <? c) H)) as Hf.
  { intros c. rewrite filter_filter. apply filter_ext. intros x. apply andb_comm. }
  by rewrite !Hf, Ew, List.filter_app.
Qed.

Definition copy_result (b : Z) (texts : list gostr) (l h : bool) (res : list gostr * bool * bool + selection_error) : Prop :=
  let sel := selected_below b in
  match res with
  | inl (ts, l', h') => ts = texts_of plan sel ++ texts /\ l' = l || has_ref (spRef (lo plan)) sel /\
                        h' = h || has_ref (spRef (hi plan)) sel /\ unchanged plan sel
  | inr ReadFailed => exists r b n, (read r b n).2 = None
  | inr HistoryUnavailable => Forall (fun m => mLT m <> loLT) H /\ loLT < b
  | inr EndpointsUnavailable => False
  | inr _ => ~ unchanged plan sel
  end.

Lemma copy_loop_spec rounds b texts l h r : b <= top -> (length (List.filter (fun m => (mLT m <? b)%Z) H) < rounds)%nat ->
  exists r' res, copy_loop read rounds plan pageSize b texts l h r = Some (r', res) /\ copy_result b texts l h res.
Proof.
  revert b texts l h r. induction rounds as [|n IH]; intros b texts l h r Hb Hn; [lia|]. cbn [copy_loop].
  destruct (Z.leb_spec b loLT) as [Hbl|Hbl].
  { eexists _, _. split; [done|]. unfold copy_result. assert (selected_below b = []) as ->.
    { apply filter_no. intros x _. destruct (Z.leb_spec loLT (mLT x)), (Z.ltb_spec (mLT x) b); cbn; try done; lia. }
    unfold has_ref. cbn. rewrite !bool_decide_eq_false_2 by apply not_elem_of_nil. rewrite !orb_false_r. repeat split; constructor. }
  destruct (read r b pageSize) as [r1 [a|]] eqn:Er.
  2: { eexists _, _. split; [done|]. cbn. exists r, b, pageSize. by rewrite Er. }
  pose proof (Hread r b pageSize a Hb Hsize ltac:(by rewrite Er)) as Hc.
  assert (forall x, x ∈ window H b pageSize -> x ∈ H) as Hsub by (intros x Hx%keep_last_elem; by apply elem_of_filter_b in Hx as [? _]).
  rewrite (committed_of_carries _ _ Hc) by (apply Forall_forall; intros x Hx%Hsub; rewrite Forall_forall in Hfull; auto).
  destruct (window H b pageSize) as [|m ms] eqn:Ew.
  { eexists _, _. split; [done|]. split; [|lia]. apply Forall_forall. intros x Hx E.
    assert (x ∈ List.filter (fun m => mLT m <? b) H) as Hx' by (apply elem_of_filter_b; split; [done|]; apply Z.ltb_lt; lia).
    apply (f_equal length) in Ew. unfold window in Ew. rewrite keep_last_length in Ew. cbn in Ew.
    destruct (List.filter _ H); [by apply not_elem_of_nil in Hx'|cbn in Ew; lia]. }
  destruct (selected_page b pageSize m ms Ew) as (below & inside & Ems & Hbelow & Esel).
  destruct (window_cut H b pageSize m ms Hs Ew) as [Ef Hm].
  destruct (below_texts plan below Hbelow Hle) as (T1 & U1 & R1 & R2).
  pose proof (page_text_spec plan (m :: ms)) as Hp. destruct (page_text plan (m :: ms)) as [[[page pl] ph]|e].
  - rewrite Ems, texts_app, unchanged_app, !has_ref_app, T1, R1, R2 in Hp. cbn in Hp. destruct Hp as (-> & -> & -> & _ & Hu).
    destruct (IH (mLT m) (texts_of plan inside ++ texts) (l || has_ref (spRef (lo plan)) inside) (h || has_ref (spRef (hi plan)) inside) r1)
      as (r' & res & E & Hres); [lia| |].
    { rewrite Ef, length_app in Hn. cbn in Hn. lia. }
    exists r', res. split; [done|]. unfold copy_result in *. rewrite Esel. destruct res as [[[ts l'] h']|[]]; try done.
    + destruct Hres as (-> & -> & -> & Hu'). rewrite texts_app, !has_ref_app, unchanged_app, <-app_assoc. split; [done|].
      rewrite <-!orb_assoc, (orb_comm (has_ref _ inside)), (orb_comm (has_ref (spRef (hi plan)) inside)). done.
    + split; [tauto|lia].
    + intros [? ?]%unchanged_app. tauto.
    + intros [? ?]%unchanged_app. tauto.
  - eexists _, _. split; [done|]. destruct Hp as [He Hp]. rewrite Ems in Hp.
    assert (~ unchanged plan (selected_below (mLT m) ++ inside)) as Hn'.
    { intros [_ Hu]%unchanged_app. apply Hp, unchanged_app. done. }
    unfold copy_result. rewrite Esel. by destruct He as [-> | ->].
Qed.
End copy.

(** A server's pages are its closed messages. *)
Lemma server_reads (s : Server) top : StronglySorted Z.lt (map mLT (svClosed s)) -> Forall (fun m => 0 < mLT m) (svClosed s) ->
  by_lt (svClosed s) /\ reads_history (fun (_ : unit) b limit => (tt, ReadBefore s b limit)) (svClosed s) top.
Proof.
  intros Hs Hpos. split.
  { unfold by_lt. clear Hpos. induction (svClosed s) as [|m l IH]; [constructor|]. cbn in Hs. apply StronglySorted_inv in Hs as [Hs Hm].
    constructor; [by apply IH|]. exact (proj1 (Forall_fmap mLT _ l) Hm). }
  intros r b limit a _ Hl. cbn. unfold window, keep_last. destruct (Z.le_gt_cases b 0) as [Hb|Hb].
  - unfold ReadBefore. rewrite (proj2 (Z.leb_le b 0) Hb). intros [= <-]. cbn.
    rewrite filter_no; [rewrite drop_nil; constructor|]. intros x Hx. rewrite Forall_forall in Hpos. specialize (Hpos x Hx). apply Z.ltb_ge. lia.
  - rewrite aria_read_before by done. intros [= <-]. cbn [arCommitted]. apply Forall2_fmap_l, Forall_Forall2_diag, Forall_true. done.
Qed.

(** The messages of a history that a selection reaches, and what copying it gives:
    the text of every node between its ends. *)
Definition copied (H : list Message) (plan : selectionCopyPlan) : list Message :=
  selected_below H plan (match planOpen plan with Some m => mLT m | None => rfLT (spRef (hi plan)) + 1 end) ++
  match planOpen plan with Some m => [m] | None => [] end.

Section selection.
Context (H : list Message) (plan : selectionCopyPlan).

Lemma open_text_spec : match open_text plan with
  | inl (texts, l, h) => let o := match planOpen plan with Some m => [m] | None => [] end in
      texts = texts_of plan o /\ l = has_ref (spRef (lo plan)) o /\ h = has_ref (spRef (hi plan)) o /\ unchanged plan o
  | inr e => (e = StartChanged \/ e = EndChanged) /\ ~ unchanged plan (match planOpen plan with Some m => [m] | None => [] end)
  end.
Proof.
  unfold open_text. destruct (planOpen plan) as [m|].
  - pose proof (page_text_spec plan [m]) as Hp. cbn [page_text] in Hp. destruct (selectedMessageText m plan) as [[[t l] h]|e]; [|done].
    by rewrite app_nil_r, !orb_false_r in Hp.
  - cbn. unfold has_ref. cbn. rewrite !bool_decide_eq_false_2 by apply not_elem_of_nil. repeat split; constructor.
Qed.

(** Nothing older than the open message holds anything of a selection that
    begins in it. *)
Lemma selected_in_open m : planOpen plan = Some m -> rfLT (spRef (lo plan)) = mLT m -> selected_below H plan (mLT m) = [].
Proof.
  intros _ E. apply filter_no. intros x _. rewrite E. destruct (Z.leb_spec (mLT m) (mLT x)), (Z.ltb_spec (mLT x) (mLT m)); cbn; try done; lia.
Qed.
End selection.

Lemma has_ref_in r ms : has_ref r ms = true -> exists m, m ∈ ms /\ mLT m = rfLT r.
Proof.
  unfold has_ref. intros (rn & -> & Hrn)%bool_decide_eq_true%list_elem_of_fmap.
  apply list_elem_of_In, in_concat in Hrn as (l & (m & <- & Hm)%in_map_iff & Hrn). apply list_elem_of_In in Hrn, Hm.
  exists m. split; [done|]. symmetry. by apply nodes_at_lt.
Qed.

(** C28: Copying a selection gives the text of every node between its ends, in the
    history's order and once each, whatever pages it is read in: an answer is that
    text and both ends are there as they were selected; and it is refused only for
    a failed read, or when an end has gone or changed. *)
Theorem pager_copy {R} (read : R -> Z -> Z -> R * option AriaRead) (H : list Message) (plan : selectionCopyPlan)
  (pageSize : Z) (rounds : nat) (r : R)
  (Hs : by_lt H) (Hfull : Forall (fun m => mNodes m <> None) H)
  (Hread : reads_history read H (rfLT (spRef (hi plan)) + 1)) (Hsize : 0 < pageSize)
  (Hle : rfLT (spRef (lo plan)) <= rfLT (spRef (hi plan)))
  (Hopen : match planOpen plan with Some m => mLT m = rfLT (spRef (hi plan)) | None => True end)
  (Hrounds : (length H < rounds)%nat) :
  let sel := copied H plan in
  let there := unchanged plan sel /\ has_ref (spRef (lo plan)) sel = true /\ has_ref (spRef (hi plan)) sel = true in
  exists r' res, selectionText read rounds plan pageSize r = Some (r', res) /\
    match res with
    | inl text => text = Join blank_line (texts_of plan sel) /\ there
    | inr ReadFailed => exists r b n, (read r b n).2 = None
    | inr _ => ~ there
    end.
Proof.
  cbv zeta. unfold selectionText, copied.
  set (o := match planOpen plan with Some m => [m] | None => [] end). set (b := match planOpen plan with Some m => mLT m | None => _ end).
  pose proof (open_text_spec plan) as Ho. fold o in Ho. destruct (open_text plan) as [[[newest l] h]|e].
  2: { eexists _, _. split; [done|]. destruct Ho as [He Ho]. assert (forall l, ~ unchanged plan (l ++ o)) as Hn by (intros ? [_ ?]%unchanged_app; done).
    destruct He as [-> | ->]; intros [Hu _]; by eapply Hn. }
  destruct Ho as (-> & -> & -> & Huo). set (sel := selected_below H plan b).
  destruct (has_ref (spRef (lo plan)) o && has_ref (spRef (hi plan)) o) eqn:Eboth.
  { apply andb_true_iff in Eboth as [El Eh]. assert (sel = []) as ->.
    { destruct (has_ref_in _ _ El) as (m & Hm & E). subst o sel b. destruct (planOpen plan) as [m'|] eqn:Eo; [|by apply not_elem_of_nil in Hm].
      apply list_elem_of_singleton in Hm as ->. by apply selected_in_open. }
    eexists _, _. split; [done|]. by rewrite app_nil_l, El, Eh. }
  replace (match planOpen plan with Some m => _ | None => _ end) with b.
  2: { subst b. destruct (planOpen plan) as [m|]; [|done]. by rewrite Hopen, Z.eqb_refl. }
  assert (b <= rfLT (spRef (hi plan)) + 1) as Hb by (subst b; destruct (planOpen plan); lia).
  destruct (copy_loop_spec read H plan _ pageSize Hs Hfull Hread Hsize Hle rounds b (texts_of plan o)
    (has_ref (spRef (lo plan)) o) (has_ref (spRef (hi plan)) o) r Hb) as (r' & res & -> & Hres).
  { pose proof (filter_length_le (fun m => mLT m <? b) H). lia. }
  cbn [mbind option_bind]. eexists r', _. split; [done|]. unfold copy_result in Hres. fold sel in Hres.
  assert (forall x, has_ref x (sel ++ o) = has_ref x o || has_ref x sel) as Hor by (intros x; rewrite has_ref_app; apply orb_comm).
  rewrite !Hor, texts_app. destruct res as [[[ts l'] h']|[]]; try done; try (intros [[Hu _]%unchanged_app _]; done).
  - destruct Hres as (-> & <- & <- & Hu). pose proof (proj2 (unchanged_app plan sel o) (conj Hu Huo)).
    destruct l', h'; cbn; try done; by intros (_ & ? & ?).
  - destruct Hres as [Hno Hlt]. rewrite Forall_forall in Hno. intros (_ & Hl & _). rewrite <-Hor in Hl.
    destruct (has_ref_in _ _ Hl) as (m & [Hm|Hm]%elem_of_app & E).
    + apply (Hno m); [|done]. by apply elem_of_filter_b in Hm as [? _].
    + subst o b. destruct (planOpen plan); [|by apply not_elem_of_nil in Hm]. apply list_elem_of_singleton in Hm as ->. lia.
Qed.

(** ** A small history, read from a server *)

Definition server3 : Server :=
  mkServer [mkMessage 2 #"user" (Some [ex_prose #"ask"]);
            mkMessage 5 #"assistant" (Some [ex_prose #"one"; ex_prose #"two"]);
            mkMessage 7 #"user" (Some [ex_prose #"next"])] None ∅ 0.
Definition read3 (_ : unit) (b limit : Z) : unit * option AriaRead := (tt, ReadBefore server3 b limit).
Definition point3 (lt i : Z) (text : gostr) : selectionPoint := mkPoint (mkRef lt i) (nodeHash (ex_prose text)).

(** A selection from the second message into the open one. *)
Definition plan3 : selectionCopyPlan :=
  mkPlan (point3 5 1 #"two") (point3 9 0 #"live") (Some (mkMessage 9 #"assistant" (Some [ex_prose #"live"; ex_prose #"more"]))).

Lemma reads3 top : by_lt (svClosed server3) /\ reads_history read3 (svClosed server3) top.
Proof. apply server_reads; cbn; repeat constructor. Qed.

Lemma pager_next_page_witness :
  (forall a, (readNextPage read3 2 7 1 tt).2 = Some a ->
     Forall2 carries (arCommitted a) [mkMessage 5 #"assistant" (Some [ex_prose #"one"; ex_prose #"two"])]) /\
  ((forall r b l, is_Some (read3 r b l).2) -> is_Some (readNextPage read3 2 7 1 tt).2).
Proof.
  apply (pager_next_page read3 (svClosed server3) 2 7 1 tt); [apply (reads3 0)|apply reads3|lia|lia].
Defined.

Lemma pager_copy_witness :
  exists r' res, selectionText read3 4 plan3 2 tt = Some (r', res) /\
    match res with
    | inl text => text = Join blank_line (texts_of plan3 (copied (svClosed server3) plan3)) /\
        unchanged plan3 (copied (svClosed server3) plan3) /\
        has_ref (spRef (lo plan3)) (copied (svClosed server3) plan3) = true /\
        has_ref (spRef (hi plan3)) (copied (svClosed server3) plan3) = true
    | inr ReadFailed => exists r b n, (read3 r b n).2 = None
    | inr _ => ~ (unchanged plan3 (copied (svClosed server3) plan3) /\
        has_ref (spRef (lo plan3)) (copied (svClosed server3) plan3) = true /\
        has_ref (spRef (hi plan3)) (copied (svClosed server3) plan3) = true)
    end.
Proof.
  apply (pager_copy read3 (svClosed server3) plan3 2 4 tt);
    [apply (reads3 0)|repeat constructor; done|apply reads3|lia|done|reflexivity|cbn; lia].
Defined.

Example copied3 : selectionText read3 4 plan3 2 tt = Some (tt, inl (Join blank_line [ #"two"; #"next"; #"live"])).
Proof. vm_compute. reflexivity. Qed.
