(* ===== verification/PagerLoop.v ===== *)
(** * cli: the input loop around the pager (interactiveInput of
    src/internal/cli/stream.go, livelogTurn of src/internal/cli/livelog_bridge.go)

    The loop handles one key at a time and then pages: the read it makes keeps the
    loop, but not the frames of the server, a resize or the end of a copy, which
    come in under the lock.  A history search is paged by a worker beside the loop;
    a key cancels it first.  One event is what one holder of the lock does. *)

From S2P Require Import Prelude GoStrings Json GoJson Livedoc Aria Sanitize Rows RecordSet Pager PagerReads PagerCopy.

(** ** Events *)

Section events.
Context {scr : Screen} {St : Type} {env : PagerEnv St}.
Implicit Types t u : transcript (St:=St).

(** Where the input loop and the search worker are. *)
Inductive phase :=
| Idle                                       (* the loop waits for input *)
| Paging                                     (* a key is handled, pageTranscript follows *)
| Reading (req : transcriptPageRequest)      (* pageTranscript waits for its read *)
| Searching                                  (* the worker is about to ask for a page *)
| SearchReading (req : transcriptPageRequest)
| Left.                                      (* the command is over *)

Inductive event :=
| EEnter
| EKey (b : byte)
| EScroll (delta : Z)
| ESelect (delta : Z) (extend : bool)
| EVerbose
| ECancel
| EPage
| EAnswer (ms : option (list Message))       (* None: the read failed *)
| EFrame (c : Client) (closed : option Message) (st : St) (tk time : Z) (overflows : bool)
| EResize (w h : Z)
| ECopied
| ELeave.

(** func cancelTranscriptSearchLocked; the worker is gone with its phase. *)
Definition cancelTranscriptSearchLocked t : option transcript :=
  if searchingHistory t then pageFailed t else Some t.

(** func enterTranscript *)
Definition enterTranscript t : option transcript := if active t then Some t else enter t.

(** func pageTranscript up to its read, and after it. *)
Definition pageTranscript t : option (transcript (St:=St) * phase) :=
  if searchingHistory t then Some (t, Searching) else
  '(t, r) ← pageCursor t; Some (t, match r with None => Idle | Some req => Reading req end).
Definition page_answer (req : transcriptPageRequest) (ms : option (list Message)) t : option transcript :=
  match ms with None => pageFailed t | Some ms => applyPage req ms t end.

(** func searchMatchesLocked of the worker of the search *)
Definition searchMatchesLocked t : bool := active t && searchingHistory t.

(** func pageTranscriptSearch, from the head of its loop to its read, and from
    there to the head again. *)
Definition pageTranscriptSearch t : option (transcript (St:=St) * phase) :=
  if negb (searchMatchesLocked t) then Some (t, Idle) else
  '(t, r) ← pageCursor t; Some (t, match r with None => Idle | Some req => SearchReading req end).
Definition search_answer (req : transcriptPageRequest) (ms : option (list Message)) t : option (transcript (St:=St) * phase) :=
  if negb (searchMatchesLocked t) then Some (t, Idle) else
  t ← page_answer req ms t;
  Some (t, match ms with Some _ => if searchingHistory t then Searching else Idle | None => Idle end).

(** The hooks OnClosed and OnLive: the client after a frame, the message it closed
    if any; a turn too tall for the terminal opens the pager. *)
Definition frame (c : Client) (closed : option Message) (st : St) (tk time : Z) t : transcript :=
  let t := t <| client := c; status := st; tick := tk; now := time |> in
  match closed with Some m => observeCommitted m t | None => t end.
Definition on_frame (c : Client) (closed : option Message) (st : St) (tk time : Z) (overflows : bool) t : option transcript :=
  let t := frame c closed st tk time t in
  t ← (if overflows then enterTranscript t else Some t); render t.

(** The cases of run, and what comes in beside it. *)
Definition handle (e : event) (s : transcript (St:=St) * phase) : option (transcript (St:=St) * phase) :=
  let '(t, p) := s in
  match e with
  | EEnter => t ← cancelTranscriptSearchLocked t; t ← enterTranscript t; Some (t, Idle)
  | EKey b => t ← cancelTranscriptSearchLocked t; t ← key b t; Some (t, Paging)
  | EScroll delta => t ← cancelTranscriptSearchLocked t; t ← scrollBy delta t; Some (t, Paging)
  | ESelect delta extend => t ← cancelTranscriptSearchLocked t; t ← selectNode delta extend t; t ← render t; Some (t, Paging)
  | EVerbose => t ← cancelTranscriptSearchLocked t; t ← render (invalidateRows (t <| verbose := negb (verbose t) |>)); Some (t, Idle)
  | ECancel => t ← cancelTranscriptSearchLocked t; Some (t, Idle)
  | EPage => match p with Paging => pageTranscript t | Searching => pageTranscriptSearch t | _ => Some s end
  | EAnswer ms =>
      match p with
      | Reading req => t ← page_answer req ms t; Some (t, Idle)
      | SearchReading req => search_answer req ms t
      | _ => Some s
      end
  | EFrame c closed st tk time overflows => t ← on_frame c closed st tk time overflows t; Some (t, p)
  | EResize w h => t ← (if active t then resize w h t else Some t); Some (t, p)
  | ECopied => t ← clearSelection t; t ← render t; Some (t, p)
  | ELeave => Some ((if active t then leave t else t), Left)
  end.

Fixpoint run_events (es : list event) (s : transcript (St:=St) * phase) : option (transcript (St:=St) * phase) :=
  match es with [] => Some s | e :: es => s ← handle e s; run_events es s end.
End events.
