(* ===== verification/PagerFacts.v ===== *)
(** * The pager: what drawing leaves alone, and windows over a history

    A frame never panics on two rows or more and touches neither the pages nor the
    requests, except that a following pager first goes to the tail ([core], [tail]).
    [window_ok] says of the pages and the descriptors kept for the newer ones that
    they cover consecutive messages of the history; the lemmas give it for each way
    a page is added or dropped. *)

From S2P Require Import Prelude GoStrings Json GoJson Livedoc Aria Sanitize Rows RecordSet Pager PagerReads PagerCopy.

Section facts.
Context {scr : Screen} {St : Type} {env : PagerEnv St}.
Implicit Types t u : transcript (St:=St).

(** ** What drawing leaves alone *)

(** The part of the pager's state that does not belong to drawing. *)
Definition core t :=
  (pages t, newer t, payloadLRU t, search t, (follow t, heldOpen t, committedW t, client t),
   (checkOlder t, checkNewer t, noMoreOlder t), (active t, th t, tick t)).

(** Following, a frame first goes to the tail. *)
Definition tail t : transcript := if follow t then resetToTail t else t.

Lemma RenderExpanded_some n w tick now verb full : 0 <= tick < 2 ^ 63 -> is_Some (RenderExpanded n w tick now verb full).
Proof.
  intros Ht. unfold RenderExpanded, renderToolNode, tool_glyph. case_bool_decide; [|by eexists].
  replace (wrapu64 tick) with tick by (unfold wrapu64; rewrite Z.mod_small; lia).
  destruct (spinner_some tick Ht) as [f ->]. repeat case_bool_decide; by eexists.
Qed.

Lemma mapM_some {A B} (f : A -> option B) l : (forall x, is_Some (f x)) -> is_Some (mapM f l).
Proof. intros H. apply mapM_is_Some, Forall_true. done. Qed.

Lemma renderMsgBase_some t m : 0 <= tick t < 2 ^ 63 -> is_Some (renderMsgBase t m).
Proof.
  intros Ht. unfold renderMsgBase. destruct (mapM_some (fun kn : nat * Node => node_rows t (mLT m) kn.1 kn.2) (imap pair (nodes_of m))) as [rs ->]; [|by eexists].
  intros [k n]. unfold node_rows, renderNode. cbn. edestruct RenderExpanded_some as [ls ->]; [done|]. by eexists.
Qed.

Lemma cached_rows_spec t m : 0 <= tick t < 2 ^ 63 -> exists t' rows, cached_rows m t = Some (t', rows) /\ core t' = core t /\ offset t' = offset t.
Proof.
  intros Ht. unfold cached_rows. destruct (rowCache t !! mLT m); [by eexists _, _|].
  destruct (renderMsgBase_some t m Ht) as [rows ->]. by eexists _, _.
Qed.

Lemma core_tick t u : core t = core u -> tick t = tick u.
Proof. by intros [= ]. Qed.

(** Every line has an LT, and a node begins at a line. *)
Definition even (d : drawing) : Prop := length d.1.1 = length d.1.2 /\ map_Forall (fun _ s => 0 <= first s) d.2.

Lemma append_row_even marks w lt d r : even d -> even (append_row marks w lt d r).
Proof.
  destruct d as [[out lts] spans]. unfold even, append_row. cbn. intros [H1 H2].
  destruct (valid (ref r)); cbn; rewrite !length_app; cbn; (split; [lia|]); [|done].
  apply map_Forall_insert_2; [|done]. cbn. destruct (spans !! ref r) eqn:E; [by apply (H2 (ref r))|apply glen_nonneg].
Qed.

Lemma appendMsg_even marks w lt d rows : even d -> even (appendMsg marks w d rows lt).
Proof.
  intros H. unfold appendMsg. destruct d as [[out lts] spans]. set (d := match out with [] => _ | _ => _ end).
  assert (even d) as Hd by (subst d; destruct out; [done|]; unfold even in *; cbn in *; rewrite !length_app; cbn; split; [lia|apply H]).
  clearbody d. clear H. revert d Hd. induction rows as [|r rows IH]; intros d Hd; [done|]. apply IH. by apply append_row_even.
Qed.

Lemma lines_loop marks ms t d : 0 <= tick t < 2 ^ 63 -> even d ->
  exists t' d', foldl (line_step marks) (Some (t, d)) ms = Some (t', d') /\ core t' = core t /\ offset t' = offset t /\ even d'.
Proof.
  revert t d. induction ms as [|m ms IH]; intros t d Ht Hd; [by eexists _, _|]. cbn.
  destruct (cached_rows_spec t m Ht) as (t' & rows & -> & Hc & Ho). cbn.
  destruct (IH t' (appendMsg marks (tw t') d rows (mLT m))) as (u & d' & E & Hc' & Ho' & He); [by rewrite (core_tick _ _ Hc)|by apply appendMsg_even|].
  exists u, d'. split; [exact E|]. by rewrite Hc', Ho', Hc, Ho.
Qed.

Lemma tail_fields t : offset (tail t) = offset t /\ tick (tail t) = tick t /\ th (tail t) = th t /\ active (tail t) = active t.
Proof. unfold tail, resetToTail. destruct (follow t); [|done]. by destruct (last _). Qed.

Lemma core_kept t t' : core t' = core (tail t) ->
  active t' = active t /\ search t' = search t /\ follow t' = follow t /\ checkOlder t' = checkOlder t.
Proof. unfold tail, resetToTail. destruct (follow t) eqn:E; [destruct (last _)|]; intros [=]; split_and!; congruence. Qed.

(** Drawing never panics. *)
Lemma lines_spec t : 0 <= tick t < 2 ^ 63 ->
  exists t' out, lines t = Some (t', out) /\ core t' = core (tail t) /\ offset t' = offset t /\ length (lineLT t') = length out /\
    map_Forall (fun _ s => 0 <= first s) (nodeRows t').
Proof.
  intros Ht. destruct (tail_fields t) as (Ho & Htk & _). unfold lines. fold (tail t).
  set (t1 := if cacheW _ =? _ then _ else _). assert (core t1 = core (tail t) /\ offset t1 = offset t) as [Hc1 Ho1] by (subst t1; rewrite <-Ho; by case_match).
  assert (tick t1 = tick t) as Ht1 by (rewrite <-Htk; by apply core_tick). clearbody t1. cbn zeta.
  destruct (lines_loop (selectionMarks t1) (messages t1) t1 ([], [], ∅)) as (t2 & d & E & Hc2 & Ho2 & Hd); [lia|by split; [|apply map_Forall_empty]|].
  unfold drawing in E. match type of E with ?l = _ => change l with (foldl (line_step (selectionMarks t1)) (Some (t1, ([], [], ∅))) (messages t1)) in E end.
  rewrite E. clear E. cbn. assert (tick t2 = tick t) as Ht2 by (rewrite <-Ht1; by apply core_tick).
  assert (forall d', even d' -> exists t' out, (let '(out, lts, spans) := d' in Some (t2 <| nodeRows := spans; lineLT := lts |>, out)) = Some (t', out) /\
    core t' = core (tail t) /\ offset t' = offset t /\ length (lineLT t') = length out /\
    map_Forall (fun _ s => 0 <= first s) (nodeRows t')) as Hend.
  { intros [[out lts] spans] He. eexists _, out. split; [done|]. split; [by rewrite <-Hc1, <-Hc2|].
    split; [by cbn; rewrite Ho2|]. unfold even in He. cbn in *. by destruct He. }
  destruct (openMessage t2) as [m|]; [|by apply (Hend d)].
  destruct (renderMsgBase_some t2 m ltac:(lia)) as [rows ->]. cbn. by apply (Hend (appendMsg _ _ _ _ _)), appendMsg_even.
Qed.

Lemma clamp_offset_pos t total body : 0 <= clamp_offset t total body.
Proof. unfold clamp_offset. cbv zeta. match goal with |- _ <= (if ?x <? 0 then _ else _) => destruct (Z.ltb_spec x 0); lia end. Qed.

Lemma render_spec t : 0 <= tick t < 2 ^ 63 -> 2 <= th t -> active t = true ->
  exists t', render t = Some t' /\ core t' = core (tail t) /\ 0 <= offset t'.
Proof.
  intros Ht Hh Ha. destruct (tail_fields t) as (_ & _ & Hth & _). unfold render. rewrite Ha. cbn [negb].
  destruct (lines_spec t Ht) as (t1 & all & -> & Hc & Ho & _).
  assert (th t1 = th t) as Eh by (rewrite <-Hth; by injection Hc). cbn [mbind option_bind].
  rewrite Eh. set (off := clamp_offset _ _ _). set (t2 := t1 <| offset := off |>).
  change (th t2) with (th t1). rewrite Eh. destruct (Z.ltb_spec (th t) 2); [lia|]. destruct (footerRows _ _ _) as [rule stat].
  eexists. split; [done|]. split; [by rewrite <-Hc|]. apply clamp_offset_pos.
Qed.
End facts.

(** ** Blocks of a history *)

Section window.
Context (H : list Message) (Hs : by_lt H) (Hlt : Forall (fun m => 0 < mLT m < 2 ^ 63 - 1) H).

(** Consecutive messages of the history. *)
Definition block (ms : list Message) : Prop := exists a z, H = a ++ ms ++ z.

Definition page_ok (p : transcriptPage) : Prop :=
  desc p = describePage (messages_of p) /\ messages_of p <> [] /\ (length (messages_of p) <= 30)%nat.

(** The pages are consecutive, and the descriptors, the nearest last, are those of
    the pages that follow them; nothing is past [W]. *)
Definition window_ok (W : Z) (ps : list transcriptPage) (nw : list pageDesc) : Prop :=
  exists a bs z, H = a ++ concat (map messages_of ps) ++ concat bs ++ z /\
    Forall page_ok ps /\ Forall (fun b => b <> [] /\ (length b <= 30)%nat) bs /\
    nw = rev (map describePage bs) /\ (ps = [] -> bs = []) /\
    Forall (fun m => mLT m <= W) (concat (map messages_of ps) ++ concat bs).

Lemma by_lt_app a b : by_lt (a ++ b) -> by_lt a /\ by_lt b /\ forall x y, x ∈ a -> y ∈ b -> mLT x < mLT y.
Proof. intros (H1 & H2 & H3)%StronglySorted_app. split; [done|]. split; [done|]. intros x y Hx Hy. by apply H1. Qed.

(** What a block is a part of: the messages before its first and after its last. *)
Lemma before_block a m z : H = a ++ m :: z -> List.filter (fun x => mLT x <? mLT m) H = a.
Proof.
  intros E. rewrite E in Hs. apply by_lt_app in Hs as (_ & Hz & Hx). apply StronglySorted_inv in Hz as [_ Hz].
  rewrite E, List.filter_app, filter_every, filter_no; [apply app_nil_r|..]; intros x H1; [apply Z.ltb_ge|apply Z.ltb_lt].
  - apply elem_of_cons in H1 as [->|H1]; [lia|]. rewrite Forall_forall in Hz. specialize (Hz x H1). lia.
  - apply Hx; [done|]. apply elem_of_cons. by left.
Qed.

Lemma after_block a m z b : H = a ++ m :: z -> between H (mLT m) b = List.filter (fun x => mLT x <? b) z.
Proof.
  intros E. pose proof Hs as Hs'. rewrite E in Hs'. apply by_lt_app in Hs' as (_ & Hz & Hx). apply StronglySorted_inv in Hz as [_ Hz].
  unfold between. rewrite E, List.filter_app. cbn [List.filter]. rewrite Z.ltb_irrefl. cbn [andb].
  rewrite filter_no by (intros x H1; specialize (Hx x m H1 ltac:(apply elem_of_cons; by left)); destruct (Z.ltb_spec (mLT m) (mLT x)); [lia|done]).
  cbn. apply List.filter_ext_in. intros x H1%list_elem_of_In. rewrite Forall_forall in Hz. specialize (Hz x H1).
  destruct (Z.ltb_spec (mLT m) (mLT x)); [done|lia].
Qed.

Lemma before_after_block a b m z : H = a ++ b ++ z -> last b = Some m ->
  List.filter (fun x => mLT x <? mLT m + 1) H = a ++ b.
Proof.
  intros E Hl. apply last_Some in Hl as [b' ->]. rewrite E in Hs. rewrite app_assoc in Hs. apply by_lt_app in Hs as (Hab & _ & Hx).
  rewrite app_assoc in Hab. apply by_lt_app in Hab as (_ & _ & Hab). rewrite E, app_assoc, List.filter_app, filter_every, filter_no; [apply app_nil_r|..]; intros x H1; [apply Z.ltb_ge|apply Z.ltb_lt].
  - specialize (Hx m x ltac:(set_solver) H1). lia.
  - rewrite app_assoc in H1. apply elem_of_app in H1 as [H1|H1%list_elem_of_singleton]; [|subst; lia].
    specialize (Hab x m H1 ltac:(set_solver)). lia.
Qed.

Lemma describe_first m ms l : last (m :: ms) = Some l -> describePage (m :: ms) =
  mkDesc (mLT m) (mLT l) (glen (m :: ms)) (wrap64 (mLT l + 1)) (foldl (fun h m => fnv_write h (le64 (mLT m))) fnv_offset (m :: ms)).
Proof. intros E. unfold describePage. by rewrite E. Qed.

(** A descriptor names one block of the history. *)
Lemma describe_inj b c : block b -> block c -> b <> [] -> c <> [] -> describePage b = describePage c -> b = c.
Proof.
  intros (a1 & z1 & E1) (a2 & z2 & E2) Hb Hc. destruct b as [|m b], c as [|n c]; try done.
  destruct (last (m :: b)) as [lb|] eqn:Lb; [|by apply last_None in Lb]. destruct (last (n :: c)) as [lc|] eqn:Lc; [|by apply last_None in Lc].
  rewrite (describe_first _ _ _ Lb), (describe_first _ _ _ Lc). intros E. pose proof (f_equal FirstLT E) as Hf. pose proof (f_equal Count E) as Hn. cbn [FirstLT Count] in Hf, Hn. clear E.
  pose proof (before_block _ _ _ E1) as F1. pose proof (before_block _ _ _ E2) as F2. rewrite Hf in F1. rewrite F1 in F2. subst a2.
  rewrite E1 in E2. apply app_inv_head in E2. apply app_inj_1 in E2 as [? _]; [done|]. unfold glen in Hn. cbn in *. lia.
Qed.

Lemma describe_count b : b <> [] -> Count (describePage b) = glen b.
Proof. intros Hb. destruct b as [|m b]; [done|]. destruct (last (m :: b)) as [l|] eqn:E; [|by apply last_None in E]. by rewrite (describe_first _ _ _ E). Qed.

(** The page a descriptor stands for is what is read back for it. *)
Lemma replay_block b : block b -> b <> [] -> window H (ReplayBefore (describePage b)) (Count (describePage b)) = b.
Proof.
  intros (a & z & E) Hb. rewrite describe_count by done. destruct b as [|m b]; [done|].
  destruct (last (m :: b)) as [l|] eqn:Lb; [|by apply last_None in Lb]. rewrite (describe_first _ _ _ Lb). cbn [ReplayBefore].
  assert (l ∈ H) as Hl by (rewrite E; apply last_Some in Lb as [b' ->]; set_solver).
  pose proof (proj1 (Forall_forall _ _) Hlt l Hl) as Hl'. cbn in Hl'. rewrite wrap64_id by (unfold int64_ok; lia).
  unfold window. rewrite (before_after_block a (m :: b) l z) by done. unfold glen. rewrite Nat2Z.id, keep_last_app by done. by apply keep_last_all.
Qed.

(** ** Windows *)

Definition page_of (ms : list Message) : transcriptPage := mkPage (describePage ms) ms.

Lemma window_up W V ps nw : W <= V -> window_ok W ps nw -> window_ok V ps nw.
Proof.
  intros HWV (a & bs & z & E & Hp & Hb & En & Hnil & Htop). exists a, bs, z. split_and!; try done.
  eapply Forall_impl; [exact Htop|]. intros x Hx. cbn in *. lia.
Qed.

(** The window of the messages at the tail. *)
Lemma window_tail W ms : block ms -> ms <> [] -> (length ms <= 30)%nat -> Forall (fun m => mLT m <= W) ms -> window_ok W [page_of ms] [].
Proof.
  intros (a & z & E) Hms Hl Htop. exists a, [], z. cbn. rewrite !app_nil_r. split; [done|]. split; [by apply Forall_singleton|].
  split; [constructor|]. done.
Qed.

Lemma window_empty W : window_ok W [] [].
Proof. exists [], [], H. cbn. split_and!; done || constructor. Qed.

Lemma window_block W ps nw : window_ok W ps nw -> block (concat (map messages_of ps)).
Proof. intros (a & bs & z & E & _). by exists a, (concat bs ++ z). Qed.

Lemma window_pages W ps nw : window_ok W ps nw -> Forall page_ok ps.
Proof. by intros (a & bs & z & E & Hp & _). Qed.

Lemma pages_first p ps : page_ok p -> exists m ms, concat (map messages_of (p :: ps)) = m :: ms /\ head (messages_of p) = Some m.
Proof. intros (_ & Hne & _). cbn. destruct (messages_of p) as [|m ms]; [done|]. by exists m, (ms ++ concat (map messages_of ps)). Qed.

(** A page read before the first message. *)
Lemma window_older W ps nw m : window_ok W ps nw -> head (concat (map messages_of ps)) = Some m ->
  let ms := window H (mLT m) 30 in ms <> [] -> window_ok W (page_of ms :: ps) nw.
Proof.
  intros Hw Hm ms Hne. destruct Hw as (a & bs & z & E & Hp & Hb & En & Hnil & Htop).
  assert (exists k, a = k ++ ms) as [k Ek].
  { subst ms. unfold window. destruct (concat (map messages_of ps)) as [|m' l] eqn:El; [done|]. injection Hm as ->.
    rewrite (before_block a m (l ++ concat bs ++ z)) by (rewrite E; done). unfold keep_last. eexists. symmetry. apply take_drop. }
  assert (length ms <= 30)%nat as Hl by (subst ms; unfold window; rewrite keep_last_length; lia).
  exists k, bs, z. cbn [map concat messages_of page_of].
  split; [rewrite E, Ek, <-!app_assoc; done|]. split; [by constructor|]. split; [done|]. split; [done|]. split; [done|].
  rewrite <-app_assoc. apply Forall_app. split; [|done]. destruct (concat (map messages_of ps)) as [|m' l] eqn:El; [done|]. injection Hm as ->.
  apply Forall_cons in Htop as [Hm _]. apply Forall_forall. intros x Hx%keep_last_elem%elem_of_filter_b. destruct Hx as [_ Hx%Z.ltb_lt]. lia.
Qed.

(** The nearest descriptor, read back. *)
Lemma window_replay W ps nw d : window_ok W ps (nw ++ [d]) ->
  exists b, d = describePage b /\ block b /\ b <> [] /\ (length b <= 30)%nat /\ window_ok W (ps ++ [page_of b]) nw.
Proof.
  intros (a & bs & z & E & Hp & Hb & En & Hnil & Htop). destruct bs as [|b bs]; [by destruct nw|].
  cbn in En. apply app_inj_tail in En as [-> ->]. apply Forall_cons in Hb as [[Hb1 Hb2] Hb]. exists b. split; [done|].
  split; [exists (a ++ concat (map messages_of ps)), (concat bs ++ z); rewrite E; cbn; by rewrite <-!app_assoc|]. split; [done|]. split; [done|].
  exists a, bs, z. rewrite map_app, concat_app. cbn. rewrite app_nil_r. cbn in E, Htop.
  split; [rewrite E, <-!app_assoc; done|]. split; [apply Forall_app; split; [done|by apply Forall_singleton]|]. split; [done|]. split; [done|].
  split; [by destruct ps|]. by rewrite <-app_assoc.
Qed.

(** A page read after the last message. *)
Lemma window_next W V ps m : window_ok W ps [] -> last (concat (map messages_of ps)) = Some m -> V <= W ->
  let ms := take 30 (between H (mLT m) (V + 1)) in ms <> [] -> window_ok W (ps ++ [page_of ms]) [].
Proof.
  intros (a & bs & z & E & Hp & Hb & En & Hnil & Htop) Hm HV ms Hne. destruct bs as [|b bs]; [|by cbn in En; destruct (rev (map describePage bs))].
  cbn in E, Htop. rewrite app_nil_r in Htop.
  apply last_Some in Hm as [l El]. assert (exists k, z = ms ++ k) as [k Ek].
  { rewrite El, <-app_assoc in E. cbn in E. rewrite app_assoc in E. subst ms. rewrite (after_block _ _ _ (V + 1) E).
    assert (by_lt z) as Hz by (rewrite E in Hs; apply by_lt_app in Hs as (_ & Hz & _); by apply StronglySorted_inv in Hz as [? _]).
    exists (drop 30 (List.filter (fun x => mLT x <? V + 1) z) ++ List.filter (fun x => V + 1 <=? mLT x) z). rewrite app_assoc, take_drop. by apply lt_split. }
  assert (length ms <= 30)%nat as Hl by (subst ms; rewrite length_take; lia).
  exists a, [], k. rewrite map_app, concat_app. cbn. rewrite !app_nil_r. split; [rewrite E, Ek, <-!app_assoc; done|].
  split; [apply Forall_app; split; [done|by apply Forall_singleton]|]. split; [done|]. split; [done|]. split; [by destruct ps|].
  apply Forall_app. split; [done|]. apply Forall_forall. intros x Hx.
  assert (x ∈ between H (mLT m) (V + 1)) as Hx' by (rewrite <-(take_drop 30 (between _ _ _)); apply elem_of_app; by left).
  apply elem_of_filter_b in Hx' as [_ Hx']. apply andb_true_iff in Hx' as [_ Hx'%Z.ltb_lt]. lia.
Qed.

Lemma keep_last_rev {A} n (l : list A) : keep_last n (rev l) = rev (take n l).
Proof. unfold keep_last. rewrite length_rev, skipn_rev. f_equal. destruct (Nat.le_gt_cases n (length l)); [f_equal; lia|]. rewrite !take_ge by lia. done. Qed.

(** Dropping the last page keeps its descriptor; dropping the first one nothing. *)
Lemma window_drop_last W ps p nw n : window_ok W (ps ++ [p]) nw -> ps <> [] -> window_ok W ps (keep_last n (nw ++ [desc p])).
Proof.
  intros (a & bs & z & E & Hp & Hb & En & Hnil & Htop) Hne. apply Forall_app in Hp as [Hp [(Hd & Hm & Hl) _]%Forall_cons].
  rewrite map_app, concat_app in E, Htop. cbn in E, Htop. rewrite app_nil_r in E, Htop.
  exists a, (take n (messages_of p :: bs)), (concat (drop n (messages_of p :: bs)) ++ z).
  assert (concat (take n (messages_of p :: bs)) ++ concat (drop n (messages_of p :: bs)) = messages_of p ++ concat bs) as Ec.
  { rewrite <-concat_app, take_drop. done. }
  split; [rewrite E, (app_assoc (concat (take _ _))), Ec, <-!app_assoc; done|]. split; [done|].
  split; [apply Forall_take; by constructor|]. split; [by rewrite En, Hd, <-firstn_map, <-keep_last_rev|]. split; [done|].
  rewrite <-app_assoc, <-Ec, app_assoc in Htop. by apply Forall_app in Htop as [Htop _].
Qed.

Lemma window_drop_first W p ps nw : window_ok W (p :: ps) nw -> ps <> [] -> window_ok W ps nw.
Proof.
  intros (a & bs & z & E & Hp & Hb & En & Hnil & Htop) Hne. apply Forall_cons in Hp as [_ Hp]. cbn in E, Htop.
  exists (a ++ messages_of p), bs, z. split; [rewrite E, <-!app_assoc; done|]. split; [done|]. split; [done|]. split; [done|].
  split; [done|]. rewrite <-app_assoc in Htop. by apply Forall_app in Htop as [_ Htop].
Qed.
End window.
