(* ===== verification/PagerInv.v ===== *)
(** * The pager: its invariant under keys, frames, resizes and copies

    [winv] is the invariant of the state, [calm] ties the flags that ask for pages
    to following and searching, and [good] is both with an offset that is not
    negative.  Every operation of [Pager] that draws keeps [good]; those that come
    in beside the input loop also keep the window a request was made for
    ([same_window]). *)

From S2P Require Import Prelude GoStrings Json GoJson Livedoc Aria Sanitize Rows RecordSet Pager PagerReads PagerCopy PagerLoop PagerFacts.

(** ** The invariant of the window *)

Section invariant.
Context {scr : Screen} {St : Type} {env : PagerEnv St}.
Context (H : list Message) (Hs : by_lt H) (Hlt : Forall (fun m => 0 < mLT m < 2 ^ 63 - 1) H).
Implicit Types t u : transcript (St:=St).

(** What the client keeps is a part of the history. *)
Definition client_ok (c : Client) : Prop := block H (View c).1.

Definition kept_page (p : transcriptPage) : Prop := page_ok p /\ block H (messages_of p).
Definition sized (ps : list transcriptPage) (nw : list pageDesc) : Prop :=
  (length ps <= transcriptPageLimit)%nat /\ (length nw <= transcriptDescLimit)%nat.
Definition origin_ok (W : Z) (s : transcriptSearch) : Prop :=
  window_ok H W (sPages s) (sNewer s) /\ sized (sPages s) (sNewer s) /\ 0 <= sOffset s.

Record winv t : Prop := {
  wi_win : window_ok H (committedW t) (pages t) (newer t);
  wi_lru : Forall kept_page (payloadLRU t);
  wi_search : forall s, search t = Some s -> origin_ok (committedW t) s;
  wi_client : client_ok (client t);
  wi_size : sized (pages t) (newer t) /\ (length (payloadLRU t) <= transcriptPayloadLRULimit)%nat;
  wi_screen : 2 <= th t /\ 0 <= tick t < 2 ^ 63;
  wi_top : committedW t < 2 ^ 63 - 1 }.

(** Following, no page is to be fetched; searching, the pager does not follow. *)
Record calm t : Prop := {
  ca_older : follow t = true -> checkOlder t = false;
  ca_newer : follow t = true -> checkNewer t = false;
  ca_search : search t <> None -> follow t = false }.

Record good t : Prop := { go_inv : winv t; go_calm : calm t; go_offset : 0 <= offset t }.

Lemma winv_core t u : core t = core u -> winv u -> winv t.
Proof. intros [= E1 E2 E3 E4 E5 E6 E7 E8 E9 E10 E11 E12 E13 E14] []. constructor; rewrite ?E1, ?E2, ?E3, ?E4, ?E7, ?E8, ?E13, ?E14; done. Qed.

Lemma calm_core t u : core t = core u -> calm u -> calm t.
Proof. intros [= E1 E2 E3 E4 E5 E6 E7 E8 E9 E10 E11 E12 E13 E14] []. constructor; rewrite ?E4, ?E5, ?E9, ?E10; done. Qed.

Lemma block_part a ms : block H (a ++ ms) -> block H ms.
Proof. intros (x & z & E). exists (x ++ a), z. by rewrite E, <-!app_assoc. Qed.

Lemma keep_last_part {A} n (l : list A) : exists a, l = a ++ keep_last n l.
Proof. exists (take (length l - n) l). symmetry. apply take_drop. Qed.

Lemma block_sorted ms : block H ms -> by_lt ms.
Proof. intros (a & z & E). rewrite E in Hs. by apply by_lt_app in Hs as (_ & (? & _ & _)%by_lt_app & _). Qed.

Lemma block_top ms l : block H ms -> last ms = Some l -> Forall (fun m => mLT m <= mLT l) ms.
Proof.
  intros Hb%block_sorted Hl. apply last_Some in Hl as [k ->]. apply by_lt_app in Hb as (_ & _ & Hk).
  apply Forall_app. split; [|by apply Forall_singleton]. apply Forall_forall. intros x Hx. specialize (Hk x l Hx ltac:(set_solver)). lia.
Qed.

Lemma origin_up W V s : W <= V -> origin_ok W s -> origin_ok V s.
Proof. intros HWV (Hw & Hr). split; [by eapply window_up|done]. Qed.

Lemma reset_winv t : winv t -> winv (resetToTail t).
Proof.
  intros [Hw Hl Hse Hc [Hz Hz'] Hscr Hcw]. unfold resetToTail. destruct (keep_last_part (Z.to_nat transcriptPageSize) (View (client t)).1) as [a Ea].
  set (closed := keep_last _ _) in *. assert (block H closed) as Hb by (unfold client_ok in Hc; rewrite Ea in Hc; by eapply block_part).
  assert (length closed <= 30)%nat as Hlen by (subst closed; rewrite keep_last_length; apply Nat.le_min_l).
  clearbody closed. destruct (last closed) as [m|] eqn:El.
  - set (V := if committedW t <? mLT m then mLT m else committedW t). assert (committedW t <= V /\ mLT m <= V) as [HV Hm] by (subst V; destruct (Z.ltb_spec (committedW t) (mLT m)); lia).
    constructor; cbn.
    + apply window_tail; [done|by intros ->|done|]. eapply Forall_impl; [by apply block_top|]. cbn. intros. lia.
    + constructor.
    + intros s E. eapply origin_up; [exact HV|]. by apply Hse.
    + exact Hc.
    + unfold sized, transcriptPageLimit, transcriptDescLimit, transcriptPayloadLRULimit. cbn. lia.
    + exact Hscr.
    + assert (mLT m < 2 ^ 63 - 1) as Hm2.
      { pose proof (proj1 (Forall_forall _ _) Hlt m) as Hm2. cbn in Hm2. apply Hm2. destruct Hb as (p & z & ->). apply last_Some in El as [k ->]. set_solver. }
      subst V. destruct (Z.ltb_spec (committedW t) (mLT m)); lia.
  - constructor; cbn; [apply window_empty|constructor|exact Hse|exact Hc|unfold sized, transcriptPageLimit, transcriptDescLimit, transcriptPayloadLRULimit; cbn; lia|exact Hscr|exact Hcw].
Qed.

Lemma tail_winv t : winv t -> winv (tail t).
Proof. unfold tail. destruct (follow t); [apply reset_winv|done]. Qed.

Lemma tail_calm t : (follow t = true -> checkOlder t = false) -> (search t <> None -> follow t = false) -> calm (tail t).
Proof.
  intros H1 H2. unfold tail. destruct (follow t) eqn:E; [|by constructor; rewrite E].
  unfold resetToTail. destruct (last _); constructor; cbn; auto; intros Hsr; apply H2 in Hsr; done.
Qed.

Lemma tail_still t : follow t = false -> tail t = t.
Proof. intros E. unfold tail. by rewrite E. Qed.

(** A frame keeps the invariant and, without panicking, leaves the window as it
    is or, following, at the tail. *)
Lemma render_good t : winv t -> (follow t = true -> checkOlder t = false) -> (search t <> None -> follow t = false) -> active t = true ->
  exists t', render t = Some t' /\ good t' /\ core t' = core (tail t).
Proof.
  intros Hw H1 H2 Ha. destruct (wi_screen t Hw). destruct (render_spec t) as (t' & E & Hc & Ho); [done|done|done|].
  exists t'. split; [done|]. split; [|done]. constructor; [|by eapply calm_core; [|by apply tail_calm]|done].
  eapply winv_core; [exact Hc|]. by apply tail_winv.
Qed.

Lemma render_keeps t : good t -> exists t', render t = Some t' /\ good t' /\ (active t = true -> core t' = core (tail t)) /\ (active t = false -> t' = t).
Proof.
  intros Hg. pose proof Hg as [Hw [] Ho]. destruct (active t) eqn:Ha.
  - destruct (render_good t) as (t' & E & Hg' & Hc); try done. by exists t'.
  - exists t. unfold render. rewrite Ha. by split_and!.
Qed.

Lemma lines_good t : winv t -> exists t' out, lines t = Some (t', out) /\ winv t' /\ core t' = core (tail t) /\ offset t' = offset t /\ length (lineLT t') = length out /\
  map_Forall (fun _ s => 0 <= first s) (nodeRows t').
Proof.
  intros Hw. destruct (lines_spec t) as (t' & out & E & Hc & Ho & Hl); [apply (wi_screen t Hw)|].
  exists t', out. split; [done|]. split; [|done]. eapply winv_core; [exact Hc|]. by apply tail_winv.
Qed.

(** ** Searching and selecting *)

(** What an operation leaves for the frame that ends it. *)
Record ready t : Prop := {
  re_inv : winv t;
  re_older : follow t = true -> checkOlder t = false;
  re_search : search t <> None -> follow t = false }.

Lemma good_ready t : good t -> ready t.
Proof. by intros [Hw [] Ho]. Qed.

Lemma ready_render t : ready t -> active t = true -> exists t', render t = Some t' /\ good t' /\ active t' = true.
Proof.
  intros [Hw H1 H2] Ha. destruct (render_good t Hw H1 H2 Ha) as (t' & E & Hg & Hc). exists t'. split; [done|]. split; [done|].
  destruct (core_kept _ _ Hc) as (-> & _). done.
Qed.

Lemma stop_following_still t : follow (stopFollowing t) = false /\ search (stopFollowing t) = search t /\ active (stopFollowing t) = active t /\
  offset (stopFollowing t) = offset t.
Proof. unfold stopFollowing. by destruct (follow t). Qed.

Lemma finish_search_good t : good t -> good (finishSearch t) /\ search (finishSearch t) = None /\ active (finishSearch t) = active t /\
  (checkOlder t = false -> checkOlder (finishSearch t) = false).
Proof.
  intros Hg. pose proof Hg as [[Hw Hl Hse Hc [Hz Hz'] Hscr Hcw] [C1 C2 C3] Ho]. unfold finishSearch. destruct (search t) as [s|] eqn:E; [|by split_and!].
  destruct (Hse s eq_refl) as (Hsw & Hss & Hso). split; [|done]. constructor; cbn; [|by constructor|done].
  constructor; cbn; try done.
Qed.

Lemma page_failed_good t : good t -> exists t', pageFailed t = Some t' /\ good t' /\ search t' = None /\ checkOlder t' = false /\ active t' = active t.
Proof.
  intros Hg. destruct (finish_search_good t Hg) as ([Hw [C1 C2 C3] Ho] & Hsn & Ha & _). unfold pageFailed.
  set (u := finishSearch t) in *. assert (good (u <| checkOlder := false; checkNewer := false |>)) as Hg'.
  { constructor; [by destruct Hw|by constructor|done]. }
  destruct (render_keeps _ Hg') as (t' & E & Hg'' & Hac & Hin). exists t'. split; [done|]. split; [done|].
  destruct (active (u <| checkOlder := false; checkNewer := false |>)) eqn:Hact.
  - destruct (core_kept _ _ (Hac eq_refl)) as (-> & -> & _ & ->). by rewrite <-Ha.
  - rewrite (Hin eq_refl). by rewrite <-Ha.
Qed.

Lemma ready_core t u : core t = core u -> ready u -> ready t.
Proof. intros E [Hw H1 H2]. pose proof E as [= E1 E2 E3 E4 E5 E6 E7 E8 E9 E10 E11 E12 E13 E14]. constructor; [by eapply winv_core|by rewrite E5, E9|by rewrite E4, E5]. Qed.

Lemma tail_ready t : ready t -> ready (tail t).
Proof.
  intros [Hw H1 H2]. pose proof (core_kept t (tail t) eq_refl) as (_ & Es & Ef & Eo). constructor; [by apply tail_winv|by rewrite Ef, Eo|by rewrite Es, Ef].
Qed.

Lemma lines_ready t : ready t -> exists t' out, lines t = Some (t', out) /\ ready t' /\ core t' = core (tail t) /\ offset t' = offset t /\
  length (lineLT t') = length out /\ map_Forall (fun _ s => 0 <= first s) (nodeRows t').
Proof.
  intros Hr. destruct (lines_good t (re_inv t Hr)) as (t' & out & E & _ & Hc & Ho & Hl & Hn). exists t', out. split; [done|].
  split; [eapply ready_core; [exact Hc|]; by apply tail_ready|done].
Qed.

Lemma ensure_visible t : ready t -> exists t', ensureSelectionVisible t = Some t' /\ ready t' /\ active t' = active t.
Proof.
  intros Hr. unfold ensureSelectionVisible. destruct (negb _); [by eexists|].
  destruct (lines_ready t Hr) as (u & out & -> & Hu & Hc & _). cbn. destruct (core_kept _ _ Hc) as (Ea & _).
  eexists. split; [done|]. repeat case_match; (split; [by apply (ready_core _ u)|done]).
Qed.

Lemma still_ready t : winv t -> follow t = false -> ready t.
Proof. intros Hw E. constructor; [done|by rewrite E|done]. Qed.

Lemma stopped_ready t : winv t -> ready (stopFollowing t) /\ active (stopFollowing t) = active t.
Proof.
  intros Hw. destruct (stop_following_still t) as (Ef & _ & Ea & _). split; [|done]. apply still_ready; [|done].
  unfold stopFollowing. destruct Hw. by destruct (follow t).
Qed.

Lemma clamp_index_spec next refs t : winv t -> refs <> [] ->
  winv (clamp_index next refs t).1 /\ active (clamp_index next refs t).1 = active t /\ ((clamp_index next refs t).2 < length refs)%nat.
Proof.
  intros [] Hr. assert (0 < length refs)%nat by (destruct refs; [done|cbn; lia]). unfold clamp_index, glen.
  destruct (Z.ltb_spec next 0); [|destruct (Z.leb_spec (Z.of_nat (length refs)) next)]; cbn; (split; [done|]); split; done || lia.
Qed.

Lemma select_ready delta extend t : good t -> active t = true ->
  exists t', selectNode delta extend t = Some t' /\ ready t' /\ active t' = true.
Proof.
  intros Hg Ha. pose proof (good_ready t Hg) as Hr. unfold selectNode. case_bool_decide as Hne; [by eexists|].
  set (focused := if selActive _ then _ else _).
  assert (forall u i, winv u -> active u = true -> (i < length (nodeRefs t))%nat -> exists t', 
    (p ← nodeRefs t !! i;
     ensureSelectionVisible (stopFollowing (u <| selection := mkSelection true (if negb extend || negb (selActive (selection u)) then p else anchor (selection u)) p |>)))
    = Some t' /\ ready t' /\ active t' = true) as Hsel.
  { intros u i Hu Hua Hi. destruct (lookup_lt_is_Some_2 (nodeRefs t) i Hi) as [p ->]. cbn.
    set (v := u <| selection := _ |>). assert (winv v) as Hv by (by destruct Hu). destruct (stopped_ready v Hv) as [Hst Hsa].
    destruct (ensure_visible _ Hst) as (t' & E & Hr' & Ha'). exists t'. split; [exact E|]. split; [done|]. by rewrite Ha', Hsa. }
  assert (forall i, focused = Some i -> (i < length (nodeRefs t))%nat) as Hf.
  { intros i. subst focused. destruct (selActive _); [|done]. intros ([k p] & E & ->)%fmap_Some. apply list_find_Some in E as (E & _). by apply lookup_lt_Some in E. }
  destruct focused as [i|].
  - unfold next_index. set (waits := match heldOpen t with Some _ => _ | None => _ end). destruct waits.
    { eexists. split; [done|]. split; [|done]. destruct Hr as [[] H1 H2]. by constructor. }
    destruct (clamp_index_spec (Z.of_nat i + delta) (nodeRefs t) t (re_inv t Hr) Hne) as (Hu & Hua & Hi).
    destruct (clamp_index _ _ t) as [u k]. cbn in *. apply Hsel; congruence || done.
  - cbn zeta. apply Hsel; [apply Hr|done|]. assert (0 < length (nodeRefs t))%nat by (destruct (nodeRefs t); [done|cbn; lia]). destruct (delta <? 0); lia.
Qed.

Lemma toggle_ready t : ready t -> exists t' b, toggleSelectedTools t = Some (t', b) /\ ready t' /\ active t' = active t.
Proof.
  intros Hr. unfold toggleSelectedTools. case_bool_decide; [by eexists _, _|]. set (f := fun t r => _).
  assert (forall l u, ready u -> ready (foldl f u l) /\ active (foldl f u l) = active u) as Hl.
  { induction l as [|r l IH]; intros u Hu; [done|]. cbn. destruct (IH (f u r)) as [H1 H2]; [by apply (ready_core _ u)|]. by rewrite H2. }
  destruct (Hl (selected_tools t) t Hr) as [Hr' Ha]. destruct (ensure_visible _ Hr') as (t' & -> & Hr'' & Ha'). cbn.
  eexists _, _. split; [done|]. by rewrite Ha', Ha.
Qed.

(** ** Keys *)

Lemma winv_search t s : winv t -> origin_ok (committedW t) s -> winv (t <| search := Some s |>).
Proof. intros [] Hok. constructor; try done. by intros s' [= <-]. Qed.

Lemma origin_here t q dir : winv t -> 0 <= offset t -> origin_ok (committedW t) (mkSearch q (pages t) (newer t) (offset t) (follow t) (noMoreOlder t) dir).
Proof. intros [Hw _ _ _ [Hz _] _ _] Ho. done. Qed.

Lemma line_from_in off n i : 0 <= off -> 0 < n -> 0 <= line_from off n i < n.
Proof. intros Ho Hn. unfold line_from. apply Z.rem_bound_pos; lia. Qed.

Lemma find_ready q t : good t -> exists t', find q t = Some t' /\ ready t' /\ active t' = active t.
Proof.
  intros Hg. pose proof (good_ready t Hg) as Hr. unfold find. case_bool_decide; [by eexists|].
  destruct (lines_ready t Hr) as (u & all & -> & Hu & Hc & Ho & _). destruct (core_kept _ _ Hc) as (Ha & _). cbn [mbind option_bind].
  case_bool_decide as Hne; [by eexists|].
  assert (0 <= offset u) as Hou by (rewrite Ho; apply Hg). assert (0 < glen all) as Hl by (unfold glen; destruct all; [done|cbn; lia]).
  set (idx := map _ _). set (row := fun i : Z => _). assert (exists hits, mapM row idx = Some hits /\ Forall (fun h : Z * bool => 0 <= h.1) hits) as (hits & -> & Hh).
  { assert (Forall (fun i => 0 <= i < glen all) idx) as Hidx.
    { apply Forall_forall. intros i Hi. subst idx. apply list_elem_of_In, in_map_iff in Hi as (k & <- & _). by apply line_from_in. }
    clearbody idx. induction Hidx as [|i idx Hi Hidx IH]; [by exists []|]. destruct IH as (hits & E & Hf). cbn [mapM]. subst row. cbn beta.
    destruct (Z.ltb_spec i 0); [lia|]. destruct (lookup_lt_is_Some_2 all (Z.to_nat i)) as [r ->]; [unfold glen in Hi; lia|]. cbn [mbind option_bind].
    rewrite E. cbn. eexists. split; [done|]. constructor; [cbn; lia|done]. }
  cbn [mbind option_bind]. destruct (list_find _ hits) as [[k [i b]]|].
  - eexists. split; [done|]. destruct (stopped_ready (u <| offset := i |>)) as [H1 H2]; [by destruct Hu as [[]]|]. split; [done|]. by rewrite H2.
  - destruct (stopped_ready u (re_inv u Hu)) as [Hst Hsa]. destruct (stop_following_still u) as (Ef & _ & _ & _).
    assert (committedW (stopFollowing u) = committedW u) as EW by (unfold stopFollowing; by destruct (follow u)).
    pose proof (winv_search _ (mkSearch q (pages u) (newer u) (offset u) (follow u) (noMoreOlder u) pageNewer) (re_inv _ Hst)
      ltac:(rewrite EW; by apply origin_here; [apply Hu|])) as Hn.
    pose proof (winv_search _ (mkSearch q (pages u) (newer u) (offset u) (follow u) (noMoreOlder u) pageOlder) (re_inv _ Hst)
      ltac:(rewrite EW; by apply origin_here; [apply Hu|])) as Hp.
    cbn zeta. eexists. split; [done|]. destruct (hasNewerHistory u); (split; [|exact (eq_trans Hsa Ha)]); apply still_ready; try exact Ef;
      [destruct Hn|destruct Hp]; by constructor.
Qed.

Lemma search_key_ready b t : good t -> exists t', searchKey b t = Some t' /\ ready t' /\ active t' = active t.
Proof.
  intros Hg. pose proof (good_ready t Hg) as Hr. unfold searchKey.
  assert (forall u, core u = core t -> exists t', Some u = Some t' /\ ready t' /\ active t' = active t) as Hsame.
  { intros u E. exists u. split; [done|]. split; [by eapply ready_core|]. by injection E. }
  repeat case_match; try by apply Hsame.
  destruct (find_ready (query t) (t <| inSearch := false |>)) as (t' & E & H1 & H2); [|by exists t'].
  destruct Hg as [Hw Hc Ho]. constructor; [by apply (winv_core _ t)|by apply (calm_core _ t)|done].
Qed.

Lemma reset_follow t : winv t -> active (resetToTail t) = active t /\ checkOlder (resetToTail t) = checkOlder t /\ search (resetToTail t) = search t.
Proof. intros _. unfold resetToTail. by destruct (last _). Qed.

Lemma winv_offset t o : winv t -> winv (t <| offset := o |>).
Proof. by intros []. Qed.

Lemma nav_key_ready b t : good t -> active t = true -> checkOlder t = false -> search t = None -> exists t', nav_key b t = Some t' /\ ready t' /\ active t' = true.
Proof.
  intros Hg Ha Hco Hsn. pose proof (good_ready t Hg) as Hr. unfold nav_key.
  assert (forall u, core u = core t -> exists t', Some u = Some t' /\ ready t' /\ active t' = true) as Hsame.
  { intros u E. exists u. split; [done|]. split; [by eapply ready_core|]. rewrite <-Ha. by injection E. }
  assert (forall o n, exists t', Some ((stopFollowing (t <| offset := o |>)) <| checkNewer := n |>) = Some t' /\ ready t' /\ active t' = true) as Hnew.
  { intros o n. destruct (stopped_ready (t <| offset := o |>)) as [[H1 _ _] H2]; [apply winv_offset, Hr|]. destruct (stop_following_still (t <| offset := o |>)) as (Ef & _).
    eexists. split; [done|]. split; [apply still_ready; [by destruct H1|exact Ef]|exact (eq_trans H2 Ha)]. }
  assert (forall o n, exists t', Some ((stopFollowing (t <| offset := o |>)) <| checkOlder := n |>) = Some t' /\ ready t' /\ active t' = true) as Hold.
  { intros o n. destruct (stopped_ready (t <| offset := o |>)) as [[H1 _ _] H2]; [apply winv_offset, Hr|]. destruct (stop_following_still (t <| offset := o |>)) as (Ef & _).
    eexists. split; [done|]. split; [apply still_ready; [by destruct H1|exact Ef]|exact (eq_trans H2 Ha)]. }
  cbn zeta. repeat (match goal with |- context[if ?c then _ else _] => destruct c end); try by apply Hsame.
  all: try apply Hnew. all: try apply Hold.
  - destruct (reset_follow (t <| follow := true |>)) as (E1 & E2 & E3); [by destruct Hr as [[]]|].
    eexists. split; [done|]. split; [|by rewrite E1]. constructor; [apply reset_winv; by destruct Hr as [[]]|by rewrite E2|by rewrite E3; cbn; rewrite Hsn].
  - by apply select_ready.
  - by apply select_ready.
  - destruct (toggle_ready t Hr) as (t' & f & -> & Hr' & Ha'). exists t'. split; [done|]. by rewrite Ha'.
Qed.

Lemma key_good b t : good t -> active t = true -> checkOlder t = false -> search t = None ->
  exists t', key b t = Some t' /\ good t' /\ active t' = true.
Proof.
  intros Hg Ha Hco Hsn. unfold key. destruct (inSearch t).
  { destruct (search_key_ready b t Hg) as (u & -> & Hu & Hau). cbn. apply ready_render; [done|congruence]. }
  assert (forall u, core u = core t -> offset u = offset t -> good u) as Hsame.
  { intros u E Eo. destruct Hg as [Hw Hc Ho]. constructor; [by apply (winv_core _ t)|by apply (calm_core _ t)|by rewrite Eo]. }
  assert (forall u, core u = core t -> offset u = offset t -> exists t', (u ← nav_key b u; render (u <| pendG := Byte.eqb b x67 && negb (pendG u) |>)) = Some t' /\ good t' /\ active t' = true) as Hnav.
  { intros u E Eo. pose proof (Hsame u E Eo) as Hgu. injection E as E1 E2 E3 E4 E5 E6 E7 E8 E9 E10 E11 E12 E13 E14.
    destruct (nav_key_ready b u Hgu) as (v & -> & Hv & Hav); [congruence..|]. cbn [mbind option_bind].
    apply ready_render; [by apply (ready_core _ v)|done]. }
  assert (forall u, core u = core t -> offset u = offset t -> exists t', render u = Some t' /\ good t' /\ active t' = true) as Hren.
  { intros u E Eo. apply ready_render; [by apply good_ready, Hsame|]. rewrite <-Ha. by injection E. }
  cbn zeta. repeat (match goal with |- context[if ?c then _ else _] => destruct c end); by apply Hnav || by apply Hren.
Qed.

(** ** The viewport *)

Lemma anchor_some t : 0 <= offset t -> exists lt within, viewportAnchor t = Some (lt, within) /\ 0 <= within.
Proof.
  intros Ho. unfold viewportAnchor. destruct (follow t); cbn [orb]; [by exists 0, 0|]. destruct (Z.leb_spec (glen (lineLT t)) (offset t)); [by exists 0, 0|].
  destruct (Z.ltb_spec (offset t) 0); [lia|]. destruct (lookup_lt_is_Some_2 (lineLT t) (Z.to_nat (offset t))) as [lt ->]; [unfold glen in *; lia|].
  eexists _, _. split; [done|lia].
Qed.

Lemma restore_core lt within t : core (restoreViewportAnchor lt within t) = core t.
Proof. unfold restoreViewportAnchor. destruct (lt =? 0); [done|]. by destruct (list_find _ _) as [[]|]. Qed.

Lemma restore_offset lt within t : 0 <= within -> 0 <= offset t -> 0 <= offset (restoreViewportAnchor lt within t).
Proof. intros Hw Ho. unfold restoreViewportAnchor. destruct (lt =? 0); [done|]. destruct (list_find _ _) as [[]|]; cbn; lia. Qed.

(** Drawing [u] again around the message anchored in [t]. *)
Lemma redraw t u : 0 <= offset t -> 0 <= offset u -> ready u ->
  exists lt within v out, viewportAnchor t = Some (lt, within) /\ lines u = Some (v, out) /\
    good (restoreViewportAnchor lt within v) /\ core (restoreViewportAnchor lt within v) = core (tail u).
Proof.
  intros Ht Hou Hru. destruct (anchor_some t Ht) as (lt & within & E & Hin). destruct (lines_ready u Hru) as (v & out & Ev & Hv & Hc & Ho & _).
  exists lt, within, v, out. split; [done|]. split; [done|]. rewrite restore_core. split; [|done].
  destruct Hru as [Hw H1 H2]. constructor.
  - apply (winv_core _ v); [apply restore_core|apply Hv].
  - apply (calm_core _ (tail u)); [by rewrite restore_core|by apply tail_calm].
  - apply restore_offset; [done|]. by rewrite Ho.
Qed.

Lemma scroll_good delta t : good t -> exists t', scrollBy delta t = Some t' /\ good t' /\ active t' = active t.
Proof.
  intros Hg. unfold scrollBy. destruct (active t) eqn:Ha; cbn [negb]; [|by exists t].
  destruct (stopped_ready (t <| offset := offset t + delta |>)) as [[H1 H2 H3] H4]; [apply winv_offset, Hg|].
  destruct (stop_following_still (t <| offset := offset t + delta |>)) as (Ef & _). cbn zeta. set (u := stopFollowing _) in *.
  assert (active u = true) as Hau by (by rewrite H4). clearbody u.
  destruct (delta <? 0); [|destruct (0 <? delta)].
  - edestruct (ready_render (u <| checkOlder := true |>)) as (t' & E & Hg' & Ha'); [apply still_ready; [by destruct H1|done]|done|]. exists t'. by split.
  - edestruct (ready_render (u <| checkNewer := true |>)) as (t' & E & Hg' & Ha'); [apply still_ready; [by destruct H1|done]|done|]. exists t'. by split.
  - edestruct (ready_render u) as (t' & E & Hg' & Ha'); [by constructor|done|]. exists t'. by split.
Qed.

(** [t'] shows the same window as [t] when [t] does not follow: the rest may only
    learn of newer messages. *)
Definition same_window t t' : Prop :=
  (follow t' = follow t /\ search t' = search t /\ checkOlder t' = checkOlder t) /\
  (follow t = false -> pages t' = pages t /\ newer t' = newer t /\ committedW t <= committedW t').

Lemma same_window_intro t u : follow u = follow t -> search u = search t -> checkOlder u = checkOlder t -> pages u = pages t -> newer u = newer t ->
  committedW t <= committedW u -> same_window t u.
Proof. done. Qed.

Lemma same_window_core t t' : core t' = core (tail t) -> same_window t t'.
Proof.
  intros E. destruct (core_kept _ _ E) as (_ & Es & Ef & Eo). split; [done|]. intros Hf. rewrite tail_still in E by done.
  injection E as E1 E2 _ _ _ _ E7 _ _ _ _ _ _ _. rewrite E1, E2, E7. split_and!; done || lia.
Qed.

Lemma same_window_trans t u v : same_window t u -> same_window u v -> same_window t v.
Proof.
  intros [(F1 & F2 & F3) H1] [(G1 & G2 & G3) H2]. split; [split_and!; congruence|]. intros Ef. destruct (H1 Ef) as (E1 & E2 & E3).
  destruct H2 as (E4 & E5 & E6); [congruence|]. rewrite E4, E5. split_and!; done || lia.
Qed.

Lemma render_same t : good t -> exists t', render t = Some t' /\ good t' /\ active t' = active t /\ same_window t t'.
Proof.
  intros Hg. destruct (render_keeps t Hg) as (t' & E & Hg' & Hac & Hin). exists t'. split; [done|]. split; [done|].
  destruct (active t) eqn:Ha.
  - specialize (Hac eq_refl). destruct (core_kept _ _ Hac) as (Ea & _). split; [congruence|]. by apply same_window_core.
  - rewrite (Hin eq_refl). split; [done|]. apply same_window_intro; done || lia.
Qed.

Lemma render_flags t t' : good t -> render t = Some t' -> checkOlder t' = checkOlder t /\ search t' = search t /\ follow t' = follow t.
Proof.
  intros Hg E. destruct (render_keeps t Hg) as (u & E' & _ & Hac & Hin). rewrite E in E'. injection E' as <-. destruct (active t).
  - destruct (core_kept _ _ (Hac eq_refl)) as (_ & -> & -> & ->). done.
  - by rewrite (Hin eq_refl).
Qed.

Lemma trim_noop dir t : (length (pages t) <= transcriptPageLimit)%nat -> trimPages dir t = t.
Proof.
  intros Hl. unfold trimPages. destruct (length (pages t)) as [|n] eqn:E; [done|]. cbn [trim_loop]. rewrite E.
  rewrite (proj2 (Nat.ltb_ge _ _) Hl). done.
Qed.

Lemma same_core t u : core u = core t -> same_window t u.
Proof. intros [= E1 E2 E3 E4 E5 E6 E7 E8 E9 E10 E11 E12 E13 E14]. apply same_window_intro; done || lia. Qed.

Lemma core_active t u : core u = core t -> active u = active t.
Proof. intros E. by injection E. Qed.

Lemma resize_good w h t : good t -> 2 <= h -> exists t', resize w h t = Some t' /\ good t' /\ active t' = active t /\ same_window t t'.
Proof.
  intros Hg Hh. pose proof (good_ready t Hg) as [[Hw Hl Hse Hc Hz [Hs1 Hs2] Hcw] H1 H2]. unfold resize.
  set (u := t <| tw := w; th := h; prev := [] |>). assert (ready u) as Hru by by constructor.
  destruct (redraw t u (go_offset t Hg) (go_offset t Hg) Hru) as (lt & within & v & out & -> & E & Hgx & Hcx).
  cbn [mbind option_bind]. fold u. rewrite E. cbn [mbind option_bind].
  destruct (render_same _ Hgx) as (t' & -> & Hg' & Ha' & Hsm). exists t'. split; [done|]. split; [done|].
  destruct (core_kept _ _ Hcx) as (Hax & _). split; [by rewrite Ha', Hax|].
  apply (same_window_trans _ u); [by apply same_window_intro; done || lia|]. eapply same_window_trans; [by apply same_window_core|done].
Qed.

Lemma clear_good t : good t -> exists t', (u ← clearSelection t; render u) = Some t' /\ good t' /\ active t' = active t /\ same_window t t'.
Proof.
  intros Hg. unfold clearSelection. set (u := pruneCaches _).
  assert (core u = core t /\ offset u = offset t) as [Hcu Hou].
  { subst u. by rewrite trim_noop by apply (wi_size t (go_inv t Hg)). }
  destruct (redraw t u) as (lt & within & v & out & -> & E & Hgx & Hcx); [apply Hg|rewrite Hou; apply Hg|by apply (ready_core _ t); [|apply good_ready]|].
  cbn [mbind option_bind]. rewrite E. cbn [mbind option_bind].
  destruct (render_same _ Hgx) as (t' & -> & Hg' & Ha' & Hsm). exists t'. split; [done|]. split; [done|].
  destruct (core_kept _ _ Hcx) as (Hax & _). split; [by rewrite Ha', Hax, (core_active _ _ Hcu)|].
  apply (same_window_trans _ u); [by apply same_core|]. eapply same_window_trans; [by apply same_window_core|done].
Qed.

(** A frame of the server. *)

Lemma observe_winv m t : mLT m < 2 ^ 63 - 1 -> winv t -> winv (observeCommitted m t) /\ committedW t <= committedW (observeCommitted m t).
Proof.
  intros Hm [Hw Hl Hse Hc Hz Hscr Hcw]. unfold observeCommitted.
  set (u := if committedW t <? mLT m then _ else t). assert (winv u /\ committedW t <= committedW u) as [Hu HW].
  { subst u. destruct (Z.ltb_spec (committedW t) (mLT m)); [|split; [by constructor|lia]]. split; [|cbn; lia].
    constructor; cbn; try done; [eapply window_up; [|done]; lia|]. intros s E. eapply origin_up; [|by apply Hse]. lia. }
  destruct (heldOpen u); [|done]. destruct (_ =? _); [|done]. split; [by destruct Hu|done].
Qed.

Lemma frame_good c om st tk time t : good t -> client_ok c -> 0 <= tk < 2 ^ 63 -> (forall m, om = Some m -> m ∈ H) ->
  good (frame c om st tk time t) /\ active (frame c om st tk time t) = active t /\ same_window t (frame c om st tk time t).
Proof.
  intros Hg Hc Htk Hom. unfold frame. set (u0 := t <| client := c; status := st; tick := tk; now := time |>).
  assert (good u0) as Hg0 by (destruct Hg as [[? ? ? ? ? [] ?] [] ?]; constructor; [constructor|constructor|]; done).
  destruct om as [m|]; [|split; [done|]; split; [done|]; apply same_window_intro; done || lia].
  assert (mLT m < 2 ^ 63 - 1) as Hm2 by (pose proof (proj1 (Forall_forall _ _) Hlt m (Hom m eq_refl)); cbn in *; lia).
  destruct (observe_winv m u0 Hm2 (go_inv u0 Hg0)) as [Hw HW]. destruct Hg0 as [_ [C1 C2 C3] Ho].
  assert (follow (observeCommitted m u0) = follow t /\ search (observeCommitted m u0) = search t /\ checkOlder (observeCommitted m u0) = checkOlder t /\
    checkNewer (observeCommitted m u0) = checkNewer t /\ offset (observeCommitted m u0) = offset t /\ active (observeCommitted m u0) = active t /\
    pages (observeCommitted m u0) = pages t /\ newer (observeCommitted m u0) = newer t) as (E1 & E2 & E3 & E4 & E5 & E6 & E7 & E8).
  { unfold observeCommitted. destruct (_ <? _); cbn; destruct (heldOpen t); cbn; try destruct (_ =? _); done. }
  split; [constructor; [done|constructor; by rewrite ?E1, ?E2, ?E3, ?E4|by rewrite E5]|]. split; [done|]. by apply same_window_intro.
Qed.

(** Opening, closing and the verbosity switch. *)
Lemma enter_good t : good t -> search t = None -> checkOlder t = false -> exists t', enter t = Some t' /\ good t' /\ checkOlder t' = false /\ search t' = None.
Proof.
  intros Hg Hsn Hco. unfold enter. set (u := t <| active := true; follow := true; prev := []; pendG := false; inSearch := false; query := [] |>).
  assert (winv u) as Hwu by (by destruct Hg as [[] _ _]). pose proof (reset_winv u Hwu) as Hwr.
  destruct (reset_follow u Hwu) as (E1 & E2 & E3). change (active u) with true in E1. change (checkOlder u) with (checkOlder t) in E2.
  change (search u) with (search t) in E3. generalize dependent (resetToTail u). clear Hwu. clearbody u. intros r Hwr E1 E2 E3.
  assert (ready (r <| painted ::= fun l => l ++ [PEnter] |>)) as Hr.
  { constructor; [by apply (winv_core _ r)|intros _; exact (eq_trans E2 Hco)|intros Hne; destruct Hne; exact (eq_trans E3 Hsn)]. }
  destruct (ready_render _ Hr E1) as (t' & Et & Hg' & Ha'). exists t'. split; [exact Et|]. split; [done|].
  destruct (render_spec _ (proj2 (wi_screen _ (re_inv _ Hr))) (proj1 (wi_screen _ (re_inv _ Hr))) E1) as (t'' & Et' & Hct & _).
  rewrite Et in Et'. injection Et' as <-. destruct (core_kept _ _ Hct) as (_ & -> & _ & ->). split; [exact (eq_trans E2 Hco)|exact (eq_trans E3 Hsn)].
Qed.

Lemma leave_good t : good t -> good (leave t) /\ active (leave t) = false /\ same_window t (leave t).
Proof. intros [[] [] Ho]. split; [constructor; [constructor|constructor|]; done|]. split; [done|]. apply same_window_intro; done || lia. Qed.

Lemma verbose_good v t : good t -> exists t', render (invalidateRows (t <| verbose := v |>)) = Some t' /\ good t' /\ active t' = active t /\ same_window t t'.
Proof.
  intros Hg. set (u := invalidateRows _). assert (core u = core t /\ offset u = offset t) as [Hcu Hou] by done.
  destruct (render_same u) as (t' & -> & Hg' & Ha' & Hsm); [destruct Hg; constructor; [by apply (winv_core _ t)|by apply (calm_core _ t)|by rewrite Hou]|].
  exists t'. split; [done|]. split; [done|]. split; [by rewrite Ha', (core_active _ _ Hcu)|]. apply (same_window_trans _ u); [by apply same_core|done].
Qed.

End invariant.
