(* ===== verification/PagerPages.v ===== *)
(** * The pager: pages asked for, read and applied

    [asked] says what a request was made for, [answers] what the server may answer,
    [fits] that a page goes where it was asked for; an answer to what was asked
    fits, and a page that fits is applied and keeps the invariant. *)

From S2P Require Import Prelude GoStrings Json GoJson Livedoc Aria Sanitize Rows RecordSet Pager PagerReads PagerCopy PagerLoop PagerFacts PagerInv.

Section pages.
Context {scr : Screen} {St : Type} {env : PagerEnv St}.
Context (H : list Message) (Hs : by_lt H) (Hlt : Forall (fun m => 0 < mLT m < 2 ^ 63 - 1) H).
Implicit Types t u : transcript (St:=St).
#[local] Abbreviation kept_page := (kept_page H).
#[local] Abbreviation winv := (winv H).
#[local] Abbreviation good := (good H).
#[local] Abbreviation block := (block H).
(** ** Pages *)

(** The rest of the state, which adding and dropping pages leaves alone. *)
Definition rest t := (search t, follow t, heldOpen t, committedW t, client t, (checkOlder t, checkNewer t), (active t, th t, tick t), offset t).

Lemma remember_kept p l : Forall kept_page l -> kept_page p -> Forall kept_page (keep_last transcriptPayloadLRULimit (remove_first (desc p) l ++ [p])).
Proof.
  intros Hl Hp. unfold keep_last. apply Forall_drop, Forall_app. split; [|by apply Forall_singleton].
  induction Hl as [|q l Hq Hl IH]; cbn; [done|]. destruct (decide _); [done|by constructor].
Qed.

Definition remembered (p : transcriptPage) (l : list transcriptPage) : list transcriptPage :=
  if Count (desc p) =? 0 then l else keep_last transcriptPayloadLRULimit (remove_first (desc p) l ++ [p]).

Lemma remembered_spec p l : Forall kept_page l -> (length l <= transcriptPayloadLRULimit)%nat -> kept_page p ->
  Forall kept_page (remembered p l) /\ (length (remembered p l) <= transcriptPayloadLRULimit)%nat.
Proof.
  intros Hl Hn Hp. unfold remembered. destruct (Count (desc p) =? 0); [done|]. split; [by apply remember_kept|]. rewrite keep_last_length. lia.
Qed.

Lemma trim_older t p : last (pages t) = Some p ->
  let u := trim_one pageOlder t in
  pages u = removelast (pages t) /\ newer u = keep_last transcriptDescLimit (newer t ++ [desc p]) /\ payloadLRU u = remembered p (payloadLRU t) /\ rest u = rest t.
Proof. intros E. unfold trim_one, rememberPayload, remembered. rewrite E. destruct (Count (desc p) =? 0); split_and!; reflexivity. Qed.

Lemma trim_newer t p ps : pages t = p :: ps ->
  let u := trim_one pageNewer t in pages u = ps /\ newer u = newer t /\ payloadLRU u = remembered p (payloadLRU t) /\ rest u = rest t.
Proof. intros E. unfold trim_one, rememberPayload, remembered. rewrite E. destruct (Count (desc p) =? 0); split_and!; reflexivity. Qed.

Lemma page_kept W ps nw p : window_ok H W ps nw -> p ∈ ps -> kept_page p.
Proof.
  intros Hw Hp. split; [pose proof (window_pages H W ps nw Hw) as Hf; rewrite Forall_forall in Hf; by apply Hf|].
  destruct (window_block H W ps nw Hw) as (a & z & E). apply list_elem_of_split in Hp as (l & k & ->). rewrite map_app, concat_app in E. cbn in E.
  exists (a ++ concat (map messages_of l)), (concat (map messages_of k) ++ z). by rewrite E, <-!app_assoc.
Qed.

Lemma trim_one_spec dir W t : window_ok H W (pages t) (newer t) -> Forall kept_page (payloadLRU t) ->
  (length (payloadLRU t) <= transcriptPayloadLRULimit)%nat -> (1 < length (pages t))%nat -> (length (newer t) <= transcriptDescLimit)%nat ->
  let u := trim_one dir t in
  window_ok H W (pages u) (newer u) /\ Forall kept_page (payloadLRU u) /\ (length (payloadLRU u) <= transcriptPayloadLRULimit)%nat /\
  length (pages u) = pred (length (pages t)) /\ (length (newer u) <= transcriptDescLimit)%nat /\ rest u = rest t.
Proof.
  intros Hw Hl Hn Hp Hd. destruct dir; cbv zeta.
  - destruct (last (pages t)) as [p|] eqn:El; [|apply last_None in El; rewrite El in Hp; cbn in Hp; lia].
    destruct (trim_older t p El) as (-> & -> & -> & ->). apply last_Some in El as [ps Eps]. rewrite Eps, removelast_last in *.
    assert (kept_page p) as Hk by (eapply page_kept; [exact Hw|set_solver]). destruct (remembered_spec p (payloadLRU t) Hl Hn Hk).
    split; [apply window_drop_last; [done|]; destruct ps; [cbn in Hp; lia|done]|].
    split; [done|]. split; [done|]. split; [rewrite length_app; cbn; lia|]. split; [rewrite keep_last_length; lia|done].
  - destruct (pages t) as [|p ps] eqn:Eps; [cbn in Hp; lia|]. destruct (trim_newer t p ps Eps) as (-> & -> & -> & ->).
    assert (kept_page p) as Hk by (eapply page_kept; [exact Hw|set_solver]). destruct (remembered_spec p (payloadLRU t) Hl Hn Hk).
    split; [eapply window_drop_first; [exact Hw|]; destruct ps; [cbn in Hp; lia|done]|]. done.
Qed.

Lemma trim_four dir t : length (pages t) = 4%nat -> length (pages (trim_one dir t)) = 3%nat -> trimPages dir t = trim_one dir t.
Proof. intros E4 E3. unfold trimPages. rewrite E4. cbn [trim_loop]. by rewrite E4, E3. Qed.

Lemma trim_spec dir W t : window_ok H W (pages t) (newer t) -> Forall kept_page (payloadLRU t) ->
  (length (payloadLRU t) <= transcriptPayloadLRULimit)%nat -> (length (pages t) <= 4)%nat -> (length (newer t) <= transcriptDescLimit)%nat ->
  let u := trimPages dir t in
  window_ok H W (pages u) (newer u) /\ Forall kept_page (payloadLRU u) /\ (length (payloadLRU u) <= transcriptPayloadLRULimit)%nat /\
  sized (pages u) (newer u) /\ rest u = rest t.
Proof.
  intros Hw Hl Hn Hp Hd. destruct (decide (length (pages t) <= 3)%nat) as [H3|H3].
  { rewrite trim_noop by done. done. }
  assert (length (pages t) = 4%nat) as E4 by lia. destruct (trim_one_spec dir W t) as (K1 & K2 & K3 & K4 & K5 & K6); try done; [lia|].
  cbn zeta. rewrite trim_four by (done || by rewrite K4, E4). split; [done|]. split; [done|]. split; [done|]. split; [|done].
  split; [|done]. rewrite K4, E4. unfold transcriptPageLimit. cbn. lia.
Qed.

(** ** Requests *)

(** What the pager asks for, in the state that asked: the page before its first
    message, the page of the nearest descriptor, or the page after its last
    message when no descriptor is left. *)
Inductive asked t : transcriptPageRequest -> Prop :=
| ask_older o : oldestLT t = Some o -> asked t (mkRequest o pageOlder no_desc 0 0 [])
| ask_replay d ms : last (newer t) = Some d -> (ms = [] \/ block ms /\ ms <> [] /\ describePage ms = d) ->
    asked t (mkRequest (ReplayBefore d) pageNewer d 0 0 ms)
| ask_next n w : newer t = [] -> newestLT t = Some n -> n < w <= committedW t ->
    asked t (mkRequest 0 pageNewer no_desc n w []).

Lemma asked_same t u req : follow t = false -> same_window t u -> asked t req -> asked u req.
Proof.
  intros Ef Hs' Ha. destruct Hs' as [_ Hs']. destruct (Hs' Ef) as (E1 & E2 & E6).
  destruct Ha as [o Ho|d ms Hd Hm|n w Hn Ho Hw]; [apply ask_older|apply ask_replay|apply ask_next]; unfold oldestLT, newestLT, messages in *; rewrite ?E1, ?E2; done || lia.
Qed.

Lemma take_last_spec d l p k : take_last d l = Some (p, k) -> desc p = d /\ p ∈ l /\ (forall q, q ∈ k -> q ∈ l) /\ (length k <= length l)%nat.
Proof.
  revert p k. induction l as [|q l IH]; intros p k; [done|]. cbn. destruct (take_last d l) as [[p' k']|].
  - intros [= <- <-]. destruct (IH p' k' eq_refl) as (H1 & H2 & H3 & H4). split; [done|]. split; [set_solver|]. split; [set_solver|]. cbn. lia.
  - destruct (decide _) as [E|]; [|done]. intros [= <- <-]. split; [done|]. split; [set_solver|]. split; [set_solver|]. cbn. lia.
Qed.

Lemma take_payload_spec d t : winv t -> let '(u, ms) := takePayload d t in
  winv u /\ (ms = [] \/ block ms /\ ms <> [] /\ describePage ms = d) /\ rest u = rest t /\ pages u = pages t /\ newer u = newer t.
Proof.
  intros [Hw Hl Hse Hc [Hz Hz'] Hscr Hcw]. unfold takePayload. destruct (take_last d (payloadLRU t)) as [[p k]|] eqn:E.
  2: { split; [by constructor|]. split; [by left|]. done. }
  destruct (take_last_spec _ _ _ _ E) as (Hd & Hp & Hk & Hlen). rewrite Forall_forall in Hl. destruct (Hl p Hp) as [(Hpd & Hpn & _) Hpb].
  split; [constructor; cbn; try done; [apply Forall_forall; auto|split; [done|lia]]|]. split; [right; split; [done|]; split; [done|]; congruence|]. done.
Qed.

Lemma newer_request_spec t : good t -> checkOlder t = false ->
  let '(u, r) := newer_request t in
  good u /\ active u = active t /\ checkOlder u = false /\ search u = search t /\ forall req, r = Some req -> follow u = false /\ asked u req.
Proof.
  intros Hg Hco. unfold newer_request. destruct (checkNewer t) eqn:En; cbn [negb]; [|done].
  assert (follow t = false) as Ef.
  { destruct (follow t) eqn:E; [|done]. pose proof (ca_newer t (go_calm H t Hg) E). congruence. }
  cbn zeta. set (u := t <| checkNewer := false |>). assert (good u) as Hgu.
  { destruct Hg as [[] [] Ho]. constructor; [constructor|constructor|]; done. }
  assert (active u = active t /\ checkOlder u = false /\ search u = search t /\ follow u = false) as (Ea & Eo & Es & Eu) by done.
  clearbody u. destruct (last (newer u)) as [d|] eqn:Ed.
  - destruct (negb (searchingHistory u) && _); [by split_and!|]. pose proof (take_payload_spec d u (go_inv H u Hgu)) as Htp.
    destruct (takePayload d u) as [v ms]. destruct Htp as (Hv & Hms & Hrv & _ & Fn). injection Hrv as Fs Ff _ _ _ Fo Fc Fa _ _ Foff.
    split; [constructor; [done|constructor; by rewrite ?Ff, ?Eu, ?Fs|rewrite Foff; apply Hgu]|]. split; [congruence|]. split; [congruence|].
    split; [congruence|]. intros req [= <-]. split; [congruence|]. apply ask_replay; [by rewrite Fn|done].
  - split; [done|]. split; [done|]. split; [done|]. split; [done|]. intros req. destruct (newestLT u) as [n|] eqn:En'; [|done].
    destruct (Z.ltb_spec n (committedW u)); [|done]. intros [= <-]. split; [done|]. apply ask_next; [by apply last_None in Ed|done|lia].
Qed.

Lemma page_cursor_spec t : good t ->
  exists u r, pageCursor t = Some (u, r) /\ good u /\ active u = active t /\ checkOlder u = false /\ forall req, r = Some req -> follow u = false /\ asked u req.
Proof.
  intros Hg. unfold pageCursor. cbv zeta. set (t0 := if checkOlder t && noMoreOlder t then _ else t).
  assert (good t0 /\ active t0 = active t) as [Hg0 Ha0].
  { subst t0. destruct (_ && _); [|done]. destruct Hg as [[] [] Ho]. split; [|done]. constructor; [constructor|constructor|]; done. }
  clearbody t0. rewrite <-Ha0. clear Hg Ha0 t. destruct (checkOlder t0) eqn:Eo.
  2: { pose proof (newer_request_spec t0 Hg0 Eo) as Hn. destruct (newer_request t0) as [u r]. exists u, r. split; [done|]. naive_solver. }
  assert (follow t0 = false) as Ef. { destruct (follow t0) eqn:E; [|done]. pose proof (ca_older t0 (go_calm H t0 Hg0) E). congruence. }
  set (u := t0 <| checkOlder := false |>). assert (good u) as Hgu.
  { destruct Hg0 as [[] [] Ho]. constructor; [constructor|constructor|]; done. }
  assert (active u = active t0 /\ checkOlder u = false /\ follow u = false) as (Ea & Eu & Efu) by done. clearbody u.
  destruct (negb (searchingHistory u) && _); [by exists u, None|]. destruct (oldestLT u) as [o|] eqn:Eold; [|by exists u, None].
  destruct (Z.leb_spec o 1) as [Ho|Ho].
  - set (v := u <| noMoreOlder := true |>). assert (good v) as Hgv by (destruct Hgu as [[] [] Ho']; constructor; [constructor|constructor|]; done).
    assert (active v = active u /\ checkOlder v = false) as [Fa Fo] by done. clearbody v.
    destruct (finish_search_good H v Hgv) as (Hgf & _ & Haf & Hof). destruct (render_same H Hs Hlt _ Hgf) as (w & Er & Hgw & Haw & Hsm). rewrite Er. cbn [mbind option_bind].
    exists w, None. split; [done|]. split; [done|]. split; [congruence|]. split; [|done]. destruct (render_flags H Hs Hlt _ _ Hgf Er) as (-> & _). auto.
  - exists u, (Some (mkRequest o pageOlder no_desc 0 0 [])). split; [done|]. split; [done|]. split; [done|]. split; [done|].
    intros req [= <-]. split; [done|]. by apply ask_older.
Qed.

(** ** Answers *)

Section answers.
Context (Hfull : Forall (fun m => mNodes m <> None) H).

(** The last cursor a request reads before. *)
Definition req_bound (req : transcriptPageRequest) : Z := if after req =? 0 then before req else watermark req + 1.

(** What a read of the server's history may answer. *)
Definition answers (req : transcriptPageRequest) (ms : list Message) : Prop :=
  exists (R : Type) (read : R -> Z -> Z -> R * option AriaRead) (r : R), reads_history read H (req_bound req) /\ (readTranscriptPage read req r).2 = Some ms.

Lemma committed_of ms l : Forall2 carries l ms -> (forall m, m ∈ ms -> m ∈ H) -> committedMessages l = ms.
Proof.
  intros Hc Hsub. apply committed_of_carries; [done|]. apply Forall_forall. intros m Hm%Hsub. rewrite Forall_forall in Hfull. by apply Hfull.
Qed.

Lemma window_sub b n m : m ∈ window H b n -> m ∈ H.
Proof. intros Hm%keep_last_elem. by apply elem_of_filter_b in Hm as [? _]. Qed.

(** The page that comes in answer to a request. *)
Definition fits t req (ms : list Message) : Prop :=
  let d := describePage ms in
  negb (Count (expected req) =? 0) && negb (bool_decide (expected req = d)) = false /\
  forall u, pages u = pages t -> newer u = newer t ->
    let v := add_page req (mkPage d ms) u in
    window_ok H (committedW t) (pages v) (newer v) /\ (length (pages v) <= S (length (pages t)))%nat /\ (length (newer v) <= length (newer t))%nat /\
    payloadLRU v = payloadLRU u /\ rest v = rest u.

Lemma fits_older t o ms : winv t -> oldestLT t = Some o -> ms = window H o 30 -> ms <> [] -> fits t (mkRequest o pageOlder no_desc 0 0 []) ms.
Proof.
  intros Hw Ho -> Hne. split; [done|]. intros u Ep En. cbn. rewrite Ep, En. unfold oldestLT, messages in Ho. apply fmap_Some in Ho as (m & Hm & ->).
  split; [by apply window_older; [done|apply Hw|..]|]. done.
Qed.

Lemma fits_replay t d ms cache : winv t -> last (newer t) = Some d -> describePage ms = d -> block ms -> ms <> [] ->
  fits t (mkRequest (ReplayBefore d) pageNewer d 0 0 cache) ms.
Proof.
  intros Hw Hd <- Hb Hne. split; [rewrite bool_decide_eq_true_2 by done; by rewrite andb_false_r|]. intros u Ep En.
  apply last_Some in Hd as [nw Enw]. pose proof (wi_win H t Hw) as Hwin. rewrite Enw in Hwin.
  destruct (window_replay H _ _ _ _ Hwin) as (b & Eb & Hbb & Hbn & Hbl & Hwb). assert (ms = b) as -> by by apply (describe_inj H Hs).
  unfold add_page. cbn [rDirection expected]. assert (negb (Count (describePage b) =? 0) = true) as ->.
  { rewrite describe_count by done. unfold glen. destruct b; [done|]. cbn [length]. destruct (Z.eqb_spec (Z.of_nat (S (length b))) 0); [lia|done]. }
  cbn. rewrite En, Enw. destruct (length (nw ++ [describePage b])) eqn:El; [rewrite length_app in El; cbn in El; lia|].
  cbn. rewrite En, Enw, Ep, removelast_last. split; [exact Hwb|]. split; [rewrite length_app; cbn; lia|]. split; [rewrite length_app in El; cbn in El; lia|done].
Qed.

Lemma fits_next t n w ms : winv t -> newer t = [] -> newestLT t = Some n -> w <= committedW t -> ms = take 30 (between H n (w + 1)) -> ms <> [] ->
  fits t (mkRequest 0 pageNewer no_desc n w []) ms.
Proof.
  intros Hw Hn Hl Hle -> Hne. split; [done|]. intros u Ep En. unfold add_page. cbn. rewrite Ep, En, Hn.
  unfold newestLT, messages in Hl. apply fmap_Some in Hl as (m & Hm & ->). pose proof (wi_win H t Hw) as Hwin. rewrite Hn in Hwin.
  split; [by apply window_next|]. rewrite length_app. cbn. split; [lia|]. split; [lia|done].
Qed.

Context (t : transcript (St:=St)) (Hw : winv t).

Lemma answer_older {R} (read : R -> Z -> Z -> R * option AriaRead) r o ms : reads_history read H o -> oldestLT t = Some o -> (readTranscriptPage read (mkRequest o pageOlder no_desc 0 0 []) r).2 = Some ms -> ms <> [] ->
  fits t (mkRequest o pageOlder no_desc 0 0 []) ms.
Proof.
  intros Hread Ho. unfold readTranscriptPage. cbn [cached after before expected no_desc Count Z.eqb negb].
  destruct (read r o transcriptPageSize) as [r' a] eqn:Er. cbn. intros (x & -> & ->)%fmap_Some Hne.
    apply fits_older; [done|done| |done]. apply committed_of; [|apply window_sub]. apply (Hread r); [lia|lia|exact (f_equal snd Er)].
Qed.

(** The nearest descriptor is that of the block read back for it. *)
Lemma replay_read d : last (newer t) = Some d ->
  exists b, describePage b = d /\ block b /\ 0 < Count d /\ window H (ReplayBefore d) (Count d) = b.
Proof.
  intros [nw Enw]%last_Some. pose proof (wi_win H t Hw) as Hwin. rewrite Enw in Hwin.
  destruct (window_replay H _ _ _ _ Hwin) as (b & Ed & Hbb & Hbn & _ & Hwb). exists b. split; [done|]. split; [done|].
  pose proof (replay_block H Hs Hlt b Hbb Hbn) as Hr. pose proof (describe_count b Hbn) as Hc. rewrite <-Ed in Hr, Hc. split; [|exact Hr].
  rewrite Hc. clear -Hbn. unfold glen. destruct b; [done|cbn [length]; lia].
Qed.

Lemma answer_replay {R} (read : R -> Z -> Z -> R * option AriaRead) r d cache ms : reads_history read H (ReplayBefore d) -> last (newer t) = Some d -> cache = [] \/ block cache /\ cache <> [] /\ describePage cache = d ->
  (readTranscriptPage read (mkRequest (ReplayBefore d) pageNewer d 0 0 cache) r).2 = Some ms -> ms <> [] ->
  fits t (mkRequest (ReplayBefore d) pageNewer d 0 0 cache) ms.
Proof.
  intros Hread Hd Hcache Hms Hne. assert (describePage ms = d /\ block ms) as [Hdm Hbm]; [|by apply fits_replay].
  revert Hms. unfold readTranscriptPage. cbn [cached after before expected Z.eqb negb]. destruct cache as [|m cache].
  - destruct (replay_read d Hd) as (b & Ed & Hb & Hcnt & Hwin). destruct (Z.eqb_spec (Count d) 0); [lia|]. cbn [negb].
    destruct (read r (ReplayBefore d) (Count d)) as [r' a] eqn:Er. cbn [snd]. intros (x & -> & ->)%fmap_Some.
    assert (committedMessages (arCommitted x) = b) as ->; [|done].
    apply committed_of; [|intros y Hy; destruct Hb as (p & z & ->); rewrite !elem_of_app; auto]. rewrite <-Hwin.
    apply (Hread r); [lia|done|exact (f_equal snd Er)].
  - cbn [snd]. intros E. pose proof (f_equal (default []) E : m :: cache = ms) as <-. clear E. destruct Hcache as [?|(Hb & _ & Hdd)]; [done|]. done.
Qed.

Lemma newest_pos n : newestLT t = Some n -> 0 < n.
Proof.
  unfold newestLT, messages. intros (m & Hm & ->)%fmap_Some. assert (m ∈ H) as HmH.
  { destruct (window_block H _ _ _ (wi_win H t Hw)) as (a & z & ->). apply last_Some in Hm as [k ->]. set_solver. }
  pose proof (proj1 (Forall_forall _ _) Hlt m HmH). cbn in *. lia.
Qed.

Lemma answer_next {R} (read : R -> Z -> Z -> R * option AriaRead) r n w ms : reads_history read H (w + 1) -> newer t = [] -> newestLT t = Some n -> n < w <= committedW t ->
  (readTranscriptPage read (mkRequest 0 pageNewer no_desc n w []) r).2 = Some ms -> ms <> [] -> fits t (mkRequest 0 pageNewer no_desc n w []) ms.
Proof.
  intros Hread Hn Hl Hlw.  unfold readTranscriptPage. cbn [cached after watermark].
  pose proof (newest_pos n Hl) as Hnp. destruct (Z.eqb_spec n 0); [lia|]. cbn [negb]. destruct (readNextPage read n w transcriptPageSize r) as [r' a] eqn:Er. cbn.
    intros (x & -> & ->)%fmap_Some Hne. eapply fits_next; [done|done|done|apply Hlw| |exact Hne].
    apply committed_of.
    + apply (next_page_answer read H n w 30 r); [done|exact Hread|lia| |exact (f_equal snd Er)].
      pose proof (wi_top H t Hw). lia.
    + intros y Hy. assert (y ∈ between H n (w + 1)) as Hy' by (rewrite <-(take_drop (Z.to_nat 30) (between _ _ _)); apply elem_of_app; by left).
      by apply elem_of_filter_b in Hy' as [? _].
Qed.

(** Every answer of the server to what was asked fits. *)
Lemma answer_fits req ms : asked t req -> answers req ms -> ms <> [] -> fits t req ms.
Proof.
  intros Ha (R & read & r & Hread & Hms). revert Hread Hms. unfold req_bound.
  destruct Ha as [o Ho|d c Hd Hc|n w Hn Hl Hlw]; cbn [after before watermark]; intros Hread; [eapply answer_older; [exact Hread|done]|eapply answer_replay; [exact Hread|done..]|].
  pose proof (newest_pos n Hl). destruct (Z.eqb_spec n 0); [lia|]. by eapply answer_next.
Qed.
End answers.

(** ** A page applied *)


Lemma cached_rows_ready m t : ready H t -> follow t = false ->
  exists u rows, cached_rows m t = Some (u, rows) /\ ready H u /\ core u = core t /\ offset u = offset t.
Proof.
  intros Hr Ef. destruct (cached_rows_spec t m) as (u & rows & E & Hc & Ho); [apply (wi_screen H t (re_inv H t Hr))|].
  exists u, rows. split; [done|]. split; [by apply (ready_core H u t)|done].
Qed.

(** Looking for the query moves the viewport at most. *)
Lemma find_page_spec q ms t : ready H t -> follow t = false -> 0 <= offset t ->
  exists u b, findPage q ms t = Some (u, b) /\ core u = core t /\ 0 <= offset u.
Proof.
  revert t. induction ms as [|m ms IH]; intros t Hr Ef Ho; [by exists t, false|]. cbn [findPage].
  destruct (negb _); [by apply IH|]. destruct (cached_rows_ready m t Hr Ef) as (u & rows & -> & Hu & Hc & Hou). cbn [mbind option_bind].
  assert (follow u = false) as Efu by (injection Hc; congruence). destruct (existsb _ _).
  - destruct (lines_ready H Hs Hlt u Hu) as (v & out & -> & Hv & Hcv & Hov & _). rewrite tail_still in Hcv by done. cbn [mbind option_bind].
    destruct (list_find _ _) as [[i p]|].
    + eexists _, true. split; [done|]. split; [|cbn; lia]. rewrite <-Hc, <-Hcv. injection Hcv as _ _ _ _ E5 _ _ _ _ _ _ _ _ _. unfold core. cbn. by rewrite E5, Efu.
    + exists v, false. split; [done|]. split; [congruence|]. by rewrite Hov, Hou.
  - destruct (IH u Hu Efu) as (v & b & E & Hcv & Hov); [by rewrite Hou|]. exists v, b. split; [done|]. split; [congruence|done].
Qed.

Lemma wrap_older_good t : good t -> good (wrapSearchOlder t) /\ active (wrapSearchOlder t) = active t /\
  (checkOlder t = false -> search (wrapSearchOlder t) = None -> checkOlder (wrapSearchOlder t) = false).
Proof.
  intros Hg. unfold wrapSearchOlder. destruct (search t) as [s|] eqn:E; [|by split_and!].
  pose proof Hg as [[Hw Hl Hse Hc [Hz Hz'] Hscr Hcw] [C1 C2 C3] Ho]. destruct (Hse s E) as (Hsw & Hss & Hso). cbn zeta.
  set (u := t <| pages := sPages s; newer := sNewer s; offset := sOffset s; follow := false; noMoreOlder := sNoMoreOlder s; checkNewer := false |>).
  assert (good u) as Hgu by (constructor; [by constructor|by constructor|done]).
  assert (search u = search t /\ checkOlder u = checkOlder t /\ active u = active t /\ follow u = false) as (Es & Eo & Ea & Ef) by done.
  clearbody u. destruct (noMoreOlder u).
  - destruct (finish_search_good H u Hgu) as (Hgf & _ & Haf & Hof). split; [done|]. split; [congruence|]. rewrite <-Eo. auto.
  - split; [|split; [exact Ea|done]]. destruct Hgu as [[Hw' Hl' Hse' Hc' Hz2 Hscr' Hcw'] _ Ho'].
    constructor; [constructor; cbn; try done|constructor; cbn; rewrite Ef; done|exact Ho'].
    intros s' [= <-]. unfold origin_ok. cbn. rewrite Es in Hse'. exact (Hse' s E).
Qed.

Lemma still_good t u : good t -> core u = core t -> 0 <= offset u -> good u.
Proof. intros [Hw Hc _] E Ho. constructor; [by apply (winv_core H u t)|by apply (calm_core u t)|done]. Qed.

Lemma search_page_good ms t : good t -> follow t = false -> checkOlder t = false ->
  exists u, search_page ms t = Some u /\ good u /\ active u = active t /\ (search u = None -> checkOlder u = false).
Proof.
  intros Hg Ef Eo. unfold search_page. destruct (search t) as [s|] eqn:Es; [|exists t; done].
  destruct (find_page_spec (sQuery s) ms t (good_ready H t Hg) Ef (go_offset H t Hg)) as (u & b & -> & Hc & Ho). cbn [mbind option_bind].
  pose proof (still_good t u Hg Hc Ho) as Hgu. pose proof Hc as [= E1 E2 E3 E4 E5 E6 E7 E8 E9 E10 E11 E12 E13 E14].
  eexists. split; [done|]. destruct b.
  { split; [|cbn; by rewrite E9, E12]. destruct Hgu as [[] [] ?]. constructor; [constructor|constructor|]; done. }
  destruct (sDirection s).
  - split; [|cbn; by rewrite E4, Es]. destruct Hgu as [[] [C1 C2 C3] ?]. constructor; [constructor; done|constructor; cbn; by rewrite ?E5, ?Ef|done].
  - destruct (hasNewerHistory u).
    + split; [|cbn; by rewrite E4, Es]. destruct Hgu as [[] [C1 C2 C3] ?]. constructor; [constructor; done|constructor; cbn; by rewrite ?E5, ?Ef|done].
    + destruct (wrap_older_good u Hgu) as (Hgw & Ha & Hco). split; [done|]. split; [by rewrite Ha|]. apply Hco. by rewrite E9.
Qed.

(** The page that fits, added. *)
Lemma put_spec t req ms : good t -> fits t req ms ->
  let d := describePage ms in
  let v := trimPages (rDirection req) (add_page req (mkPage d ms) (release_held d t)) in
  winv v /\ follow v = follow t /\ search v = search t /\ checkOlder v = checkOlder t /\ checkNewer v = checkNewer t /\ active v = active t /\ offset v = offset t.
Proof.
  intros Hg [_ Hf] d v. set (u := release_held d t) in *.
  assert (pages u = pages t /\ newer u = newer t /\ payloadLRU u = payloadLRU t /\ (search u, follow u, committedW u, client u, (checkOlder u, checkNewer u), (active u, th u, tick u), offset u) =
    (search t, follow t, committedW t, client t, (checkOlder t, checkNewer t), (active t, th t, tick t), offset t)) as (Ep & En & El & Er).
  { subst u. unfold release_held. destruct (heldOpen t); [|done]. by destruct (_ && _). }
  clearbody u. destruct (Hf u Ep En) as (Hwin & Hlp & Hln & Hlru & Hrest). fold d in Hwin, Hlp, Hln, Hlru, Hrest.
  destruct Hg as [[Hw Hl Hse Hc [[Hz1 Hz2] Hz3] Hscr Hcw] _ _].
  destruct (trim_spec (rDirection req) (committedW t) (add_page req (mkPage d ms) u)) as (K1 & K2 & K3 & K4 & K5);
    [done|by rewrite Hlru, El|by rewrite Hlru, El|unfold transcriptPageLimit in Hz1; lia|lia|]. fold v in K1, K2, K3, K4, K5.
  rewrite Hrest in K5. injection K5 as F1 F2 F3 F4 F5 F6 F7 F8 F9 F10 F11. injection Er as G1 G2 G3 G4 G5 G6 G7 G8 G9 G10.
  split; [|split_and!; congruence]. constructor.
  - rewrite F4, G3. exact K1.
  - exact K2.
  - intros s E. rewrite F4, G3. apply Hse. congruence.
  - rewrite F5, G4. exact Hc.
  - done.
  - rewrite F9, F10, G8, G9. exact Hscr.
  - rewrite F4, G3. exact Hcw.
Qed.

Lemma put_good t req ms : good t -> follow t = false -> fits t req ms ->
  let v := trimPages (rDirection req) (add_page req (mkPage (describePage ms) ms) (release_held (describePage ms) t)) in
  good v /\ follow v = false /\ search v = search t /\ checkOlder v = checkOlder t /\ active v = active t /\ offset v = offset t.
Proof.
  intros Hg Ef Hf v. destruct (put_spec t req ms Hg Hf) as (Hv & E1 & E2 & E3 & E4 & E5 & E6). fold v in Hv, E1, E2, E3, E4, E5, E6.
  split; [|split_and!; congruence]. constructor; [done|constructor; by rewrite E1, Ef|]. rewrite E6. apply Hg.
Qed.

Lemma ends_good t : good t -> active t = true -> exists u, render t = Some u /\ good u /\ active u = true /\ search u = search t /\ checkOlder u = checkOlder t.
Proof.
  intros Hg Ha. destruct (render_same H Hs Hlt t Hg) as (u & E & Hgu & Hau & _). destruct (render_flags H Hs Hlt _ _ Hg E) as (E1 & E2 & _).
  exists u. split_and!; congruence || done.
Qed.

(** A page that fits is applied without a panic. *)
Lemma apply_good t req ms : good t -> active t = true -> follow t = false -> checkOlder t = false -> (ms <> [] -> fits t req ms) ->
  exists u, applyPage req ms t = Some u /\ good u /\ active u = true /\ (search u = None -> checkOlder u = false).
Proof.
  intros Hg Ha Ef Eo Hf. unfold applyPage. rewrite Ha. cbn [negb]. case_bool_decide as Hms.
  - destruct (rDirection req).
    + assert (good (t <| noMoreOlder := true |>)) as Hg0 by (destruct Hg as [[] [] ?]; constructor; [constructor|constructor|]; done).
      destruct (finish_search_good H _ Hg0) as (Hgf & _ & Haf & Hof). destruct (ends_good _ Hgf) as (u & E & Hgu & Hau & Es & Eou); [by rewrite Haf|].
      exists u. split; [exact E|]. split; [done|]. split; [done|]. intros _. rewrite Eou. by apply Hof.
    + destruct (wrap_older_good t Hg) as (Hgw & Haw & Hco). eexists. split; [done|]. split; [done|]. split; [congruence|]. by apply Hco.
  - specialize (Hf Hms). pose proof Hf as [-> _]. destruct (put_good t req ms Hg Ef Hf) as (Hgv & Efv & Esv & Eov & Hav & Hofv).
    cbn zeta in *. set (v := trimPages _ _) in *. assert (search (release_held (describePage ms) t) = search t) as -> by (unfold release_held; destruct (heldOpen t); [by destruct (_ && _)|done]).
    destruct (search t) eqn:Es.
    + destruct (search_page_good ms v Hgv Efv) as (w & -> & Hgw & Haw & Hcow); [congruence|]. cbn [mbind option_bind].
      unfold searchingHistory. destruct (search w) eqn:Ew; [exists w; split_and!; congruence || done|].
      destruct (ends_good w Hgw) as (u & E & Hgu & Hau & Eu & Eou); [congruence|]. exists u. split; [done|]. split; [done|]. split; [done|].
      intros _. rewrite Eou. by apply Hcow.
    + destruct (redraw H Hs Hlt (release_held (describePage ms) t) v) as (lt & within & w & out & -> & Ew & Hgw & Hcw).
      * unfold release_held. destruct (heldOpen t); [|apply Hg]. destruct (_ && _); apply Hg.
      * rewrite Hofv. apply Hg.
      * by apply good_ready.
      * cbn [mbind option_bind]. rewrite Ew. cbn [mbind option_bind]. destruct (core_kept _ _ Hcw) as (Haw & Esw & _ & Eow).
        destruct (ends_good _ Hgw) as (u & E & Hgu & Hau & Eu & Eou); [by rewrite Haw, Hav|]. exists u. split; [done|]. split; [done|]. split; [done|].
        intros _. rewrite Eou, Eow, Eov. done.
Qed.
End pages.
