(* ===== verification/PagerSpec.v ===== *)
(** * The pager: every run of the input loop

    [allowed] is what may come in where the loop and the search worker are;
    [loop_ok] adds to the invariant of the pager what each of their places knows.
    Every event keeps it, so no run panics and the window is always consecutive. *)

From S2P Require Import Prelude GoStrings Json GoJson Livedoc Aria Sanitize Rows RecordSet Pager PagerReads PagerCopy PagerLoop PagerFacts PagerInv PagerPages.

Section spec.
Context {scr : Screen} {St : Type} {env : PagerEnv St}.
Context (H : list Message) (Hs : by_lt H) (Hlt : Forall (fun m => 0 < mLT m < 2 ^ 63 - 1) H) (Hfull : Forall (fun m => mNodes m <> None) H).
Implicit Types t u : transcript (St:=St).

(** ** What may come in *)

(** The loop reads a key when it is free; the keys of the pager act when it is up. *)
Definition free (p : phase) : bool := match p with Idle | Searching | SearchReading _ => true | _ => false end.

(** The terminal has two rows; what the client keeps and what the server answers
    are of the history. *)
Definition allowed (e : event (St:=St)) (s : transcript (St:=St) * phase) : Prop :=
  match e with
  | EEnter | EVerbose | ECancel => free s.2 = true
  | EKey _ | EScroll _ | ESelect _ _ => free s.2 = true /\ active s.1 = true
  | EAnswer (Some ms) => match s.2 with Reading req | SearchReading req => answers H req ms | _ => True end
  | EFrame c closed _ tk _ overflows =>
      client_ok H c /\ 0 <= tk < 2 ^ 63 /\ (forall m, closed = Some m -> m ∈ H) /\ (overflows = true -> s.2 <> Left)
  | EResize _ h => 2 <= h
  | EPage | EAnswer None | ECopied | ELeave => True
  end.

Fixpoint allowed_run (es : list event) (s : transcript (St:=St) * phase) : Prop :=
  match es with
  | [] => True
  | e :: es => allowed e s /\ forall s', handle e s = Some s' -> allowed_run es s'
  end.

(** ** The invariant of the loop *)

(** No page is to be fetched before the window unless a search asks for it. *)
Definition settled t : Prop := search t = None -> checkOlder t = false.
Definition waiting t req : Prop := active t = true /\ follow t = false /\ checkOlder t = false /\ asked H t req.

Definition loop_ok (s : transcript (St:=St) * phase) : Prop :=
  good H s.1 /\
  match s.2 with
  | Idle => settled s.1 /\ (active s.1 = false -> search s.1 = None)
  | Paging => active s.1 = true
  | Reading req | SearchReading req => waiting s.1 req
  | Searching => active s.1 = true /\ settled s.1
  | Left => True
  end.

Lemma free_settled s : loop_ok s -> free s.2 = true -> settled s.1 /\ (active s.1 = false -> search s.1 = None).
Proof.
  destruct s as [t p]. intros [_ Hp] Hf. cbn in *. unfold settled. destruct p; try done.
  - destruct Hp as [Ha Hp]. split; [done|congruence].
  - destruct Hp as (Ha & _ & Ho & _). split; [done|congruence].
Qed.

Lemma cancel_good t : good H t -> settled t ->
  exists u, cancelTranscriptSearchLocked t = Some u /\ good H u /\ search u = None /\ checkOlder u = false /\ active u = active t.
Proof.
  intros Hg Hse. unfold cancelTranscriptSearchLocked, searchingHistory. destruct (search t) eqn:E.
  - by apply page_failed_good.
  - exists t. split; [done|]. split; [done|]. split; [done|]. split; [by apply Hse|done].
Qed.

(** What an asynchronous event may do to the pager. *)
Lemma keeps_phase t u p : loop_ok (t, p) -> good H u -> active u = active t -> same_window t u -> loop_ok (u, p).
Proof.
  intros [Hg Hp] Hgu Ha Hsm. pose proof Hsm as [(Ef & Es & Eo) _]. split; [done|]. cbn in *. unfold settled, waiting in *.
  destruct p; rewrite ?Ha, ?Ef, ?Es, ?Eo; try done; destruct Hp as (? & Hf & ? & Hk); (split; [done|]); (split; [done|]); (split; [done|]); by eapply asked_same.
Qed.


(** ** Every event keeps it *)

Definition goes (e : event (St:=St)) (s : transcript (St:=St) * phase) : Prop := exists s', handle e s = Some s' /\ loop_ok s'.

Lemma frame_goes c closed st tk time overflows s : loop_ok s -> allowed (EFrame c closed st tk time overflows) s -> goes (EFrame c closed st tk time overflows) s.
Proof.
  destruct s as [t p]. intros Hl (Hc & Htk & Hcl & Hov). pose proof Hl as [Hg Hp]. unfold goes. cbn [handle]. unfold on_frame. cbn [snd] in Hov. cbn zeta.
  destruct (frame_good H Hlt c closed st tk time t Hg Hc Htk Hcl) as (Hgu & Hau & Hsu). set (u := frame c closed st tk time t) in *.
  pose proof (keeps_phase t u p Hl Hgu Hau Hsu) as Hlu. clearbody u.
  assert (exists v, (if overflows then enterTranscript u else Some u) = Some v /\ loop_ok (v, p)) as (v & -> & Hlv).
  { destruct overflows; [|by exists u]. unfold enterTranscript. destruct (active u) eqn:Ea; [by exists u|].
    assert (p = Idle) as -> by (specialize (Hov eq_refl); destruct Hlu as [_ Hq]; cbn in Hq; unfold waiting in Hq; rewrite Ea in Hq; destruct p; done || (by destruct Hq) ).
    destruct Hlu as (_ & Hse & Hin). cbn in *. specialize (Hin Ea). destruct (enter_good H Hs Hlt u Hgu Hin (Hse Hin)) as (v & E & Hgv & Eo & Es).
    exists v. split; [done|]. split; [done|]. split; [by intros _|by intros _]. }
  cbn [mbind option_bind]. destruct (render_same H Hs Hlt v (proj1 Hlv)) as (w & -> & Hgw & Haw & Hsw). cbn. eexists. split; [done|].
  by apply (keeps_phase v).
Qed.

Lemma beside_goes e s : loop_ok s -> allowed e s -> match e with EResize _ _ | ECopied | ELeave => True | _ => False end -> goes e s.
Proof.
  destruct s as [t p]. intros Hl Ha He. pose proof Hl as [Hg _]. unfold goes. destruct e; try done; cbn [handle].
  - destruct (active t); [|by exists (t, p)]. destruct (resize_good H Hs Hlt w h t Hg Ha) as (u & -> & Hgu & Hau & Hsu). cbn. eexists. split; [done|]. by apply (keeps_phase t).
  - destruct (clear_good H Hs Hlt t Hg) as (u & E & Hgu & Hau & Hsu). destruct (clearSelection t) as [v|]; [|done]. cbn [mbind option_bind] in *. rewrite E. cbn. eexists. split; [done|]. by apply (keeps_phase t).
  - eexists. split; [done|]. split; [|done]. cbn. destruct (active t); [|done]. by apply leave_good.
Qed.

Lemma input_goes e s : loop_ok s -> allowed e s -> match e with EKey _ | EScroll _ | ESelect _ _ | EVerbose | ECancel | EEnter => True | _ => False end -> goes e s.
Proof.
  destruct s as [t p]. intros Hl Ha He. pose proof Hl as [Hg _]. assert (free p = true) as Hf by (destruct e; done || apply Ha).
  destruct (free_settled _ Hl Hf) as [Hse _]. destruct (cancel_good t Hg Hse) as (u & E & Hgu & Hsn & Hco & Hau).
  unfold goes. destruct e; try done; cbn [handle]; rewrite E; cbn [mbind option_bind].
  - unfold enterTranscript. destruct (active u) eqn:Eu.
    + eexists. split; [done|]. split; [done|]. split; [by intros _|by intros _].
    + destruct (enter_good H Hs Hlt u Hgu Hsn Hco) as (v & -> & Hgv & Eo & Es). eexists. split; [done|]. split; [done|]. split; [by intros _|by intros _].
  - destruct (key_good H Hs Hlt b u Hgu) as (v & -> & Hgv & Hav); [rewrite Hau; apply Ha|done|done|]. eexists. split; [done|]. by split.
  - destruct (scroll_good H Hs Hlt delta u Hgu) as (v & -> & Hgv & Hav). eexists. split; [done|]. split; [done|]. cbn in *. rewrite Hav, Hau. apply Ha.
  - destruct (select_ready H Hs Hlt delta extend u Hgu) as (v & -> & Hrv & Hav); [rewrite Hau; apply Ha|]. cbn [mbind option_bind].
    destruct (ready_render H Hs Hlt v Hrv Hav) as (w & -> & Hgw & Haw). eexists. split; [done|]. by split.
  - destruct (verbose_good H Hs Hlt (negb (verbose u)) u Hgu) as (v & -> & Hgv & Hav & [(_ & Es & Eo) _]). eexists. split; [done|]. split; [done|].
    cbn. unfold settled. rewrite Es, Eo. by split.
  - eexists. split; [done|]. split; [done|]. split; [by intros _|by intros _].
Qed.

Lemma page_goes s : loop_ok s -> goes EPage s.
Proof.
  destruct s as [t p]. intros [Hg Hp]. unfold goes. cbn in *. destruct p; try by (eexists; split; [done|]; split).
  - unfold pageTranscript, searchingHistory. destruct (search t) eqn:Es.
    + eexists. split; [done|]. split; [done|]. split; [done|]. cbn. unfold settled. by rewrite Es.
    + destruct (page_cursor_spec H Hs Hlt t Hg) as (u & r & -> & Hgu & Hau & Hou & Hr). cbn. eexists. split; [done|]. split; [done|]. cbn.
      destruct r as [req|]; cbn; [destruct (Hr req eq_refl) as [? ?]; unfold waiting; split_and!; done || congruence|]. split; [by intros _|]. congruence.
  - unfold pageTranscriptSearch, searchMatchesLocked, searchingHistory. destruct Hp as [Ha Hse]. rewrite Ha. cbn [andb]. destruct (search t) eqn:Es; cbn [negb].
    + destruct (page_cursor_spec H Hs Hlt t Hg) as (u & r & -> & Hgu & Hau & Hou & Hr). cbn. eexists. split; [done|]. split; [done|]. cbn.
      destruct r as [req|]; cbn; [destruct (Hr req eq_refl) as [? ?]; unfold waiting; split_and!; done || congruence|]. split; [by intros _|]. congruence.
    + eexists. split; [done|]. split; [done|]. split; [done|]. cbn. by rewrite Es.
Qed.

(** A page is never refused: what is read for a descriptor is what it names. *)
Lemma waiting_fits t req ms : good H t -> waiting t req -> answers H req ms -> ms <> [] -> fits H t req ms.
Proof. intros Hg (_ & _ & _ & Ha). by apply answer_fits; [..|apply Hg|]. Qed.

Lemma answer_good t req ms : good H t -> waiting t req -> (forall l, ms = Some l -> answers H req l) ->
  exists u, page_answer req ms t = Some u /\ good H u /\ active u = true /\ settled u.
Proof.
  intros Hg Hwt Hans. pose proof Hwt as (Ha & Ef & Eo & _). destruct ms as [ms|]; cbn.
  - apply (apply_good H Hs Hlt); [done..|]. intros Hne. apply waiting_fits; [done|done|by apply Hans|done].
  - destruct (page_failed_good H Hs Hlt t Hg) as (u & -> & Hgu & Es & Eou & Hau). exists u. split; [done|]. split; [done|]. split; [congruence|by intros _].
Qed.

Lemma answer_goes ms s : loop_ok s -> allowed (EAnswer ms) s -> goes (EAnswer ms) s.
Proof.
  destruct s as [t p]. intros [Hg Hp] Ha. unfold goes. cbn [handle].
  destruct p as [| |req| |req|]; try (eexists; split; [reflexivity|]; by split).
  - destruct (answer_good t req ms Hg Hp) as (u & -> & Hgu & Hau & Hse); [by intros l ->|]. eexists. split; [done|]. split; [done|]. split; [done|]. cbn. congruence.
  - unfold search_answer, searchMatchesLocked. pose proof Hp as (Hat & _ & Hco & _). cbn in Hat, Hco. destruct (active t && searchingHistory t) eqn:Em; cbn [negb].
    + destruct (answer_good t req ms Hg Hp) as (u & -> & Hgu & Hau & Hse); [by intros l ->|]. cbn [mbind option_bind]. eexists. split; [done|]. split; [done|]. cbn.
      destruct ms; [destruct (searchingHistory u); [done|]|]; (split; [done|congruence]).
    + eexists. split; [done|]. split; [done|]. split; [by intros _|]. cbn. congruence.
Qed.

Lemma event_goes e s : loop_ok s -> allowed e s -> goes e s.
Proof.
  intros Hl Ha. destruct e; first [by apply page_goes|by apply answer_goes|by apply frame_goes|by apply beside_goes|by apply input_goes].
Qed.

Lemma run_ok es s : loop_ok s -> allowed_run es s -> exists s', run_events es s = Some s' /\ loop_ok s'.
Proof.
  revert s. induction es as [|e es IH]; intros s Hl Ha; [by exists s|]. destruct Ha as [Ha Hr].
  destruct (event_goes e s Hl Ha) as (s' & E & Hl'). cbn [run_events]. rewrite E. cbn. apply IH; [done|]. by apply Hr.
Qed.

Lemma start_ok w h c st time verb : 2 <= h -> client_ok H c -> loop_ok (newTranscript w h c st time verb, Idle).
Proof.
  intros Hh Hc. split; [|done]. constructor; [|done|done]. constructor; cbn; try done; try lia; [apply window_empty|].
  unfold sized, transcriptPageLimit, transcriptDescLimit, transcriptPayloadLRULimit. cbn. lia.
Qed.

(** C27: in every run of the input loop on a terminal that has, and keeps through
    every resize, two rows or more, over one history (by LT, every message with its
    nodes) that the page reads answer from and the client's frames belong to, the
    pager neither indexes out of range nor refuses a page: keys, scrolls, searches,
    failed reads, frames, such resizes and copies in any order leave it with
    consecutive messages of the history in at most three pages, each with its own
    descriptor, followed by the pages of the newer descriptors, nearest last; and
    the page read for a descriptor is the one it names. *)
Theorem pager_window w h c st time verb es : 2 <= h -> client_ok H c ->
  allowed_run es (newTranscript w h c st time verb, Idle) ->
  exists t p, run_events es (newTranscript w h c st time verb, Idle) = Some (t, p) /\
    (exists a bs z, H = a ++ messages t ++ concat bs ++ z /\ newer t = rev (map describePage bs)) /\
    Forall (fun pg => desc pg = describePage (messages_of pg) /\ messages_of pg <> []) (pages t) /\
    (length (pages t) <= transcriptPageLimit)%nat /\ (length (newer t) <= transcriptDescLimit)%nat /\
    (length (payloadLRU t) <= transcriptPayloadLRULimit)%nat /\
    forall req ms, p = Reading req \/ p = SearchReading req -> answers H req ms -> ms <> [] ->
      Count (expected req) <> 0 -> expected req = describePage ms.
Proof.
  intros Hh Hc Ha. destruct (run_ok es _ (start_ok w h c st time verb Hh Hc) Ha) as ([t p] & E & Hg & Hp). cbn in Hg, Hp.
  exists t, p. split; [exact E|]. pose proof Hg as [Hw _ _]. destruct (wi_win H t Hw) as (a & bs & z & Eh & Hpg & _ & En & _). destruct (wi_size H t Hw) as [[Hz1 Hz2] Hz3].
  split; [by exists a, bs, z|]. split; [eapply Forall_impl; [exact Hpg|]; intros pg (? & ? & _); done|]. split; [done|]. split; [done|]. split; [done|].
  intros req ms Hr Hans Hne Hcnt. assert (waiting t req) as Hwt by (by destruct Hr as [-> | ->]).
  destruct (waiting_fits t req ms Hg Hwt Hans Hne) as [Hf _]. destruct (Z.eqb_spec (Count (expected req)) 0); [done|].
  cbn in Hf. apply negb_false_iff in Hf. by apply bool_decide_eq_true in Hf.
Qed.

Lemma allowed_prefixes es s : (forall n e, es !! n = Some e -> allowed e (default s (run_events (take n es) s))) -> allowed_run es s.
Proof.
  assert ((forall n e (v : transcript (St:=St) * phase), es !! n = Some e -> run_events (take n es) s = Some v -> allowed e v) -> allowed_run es s) as Hu.
  { revert s. induction es as [|e es IH]; intros s Ha; [done|]. split; [by apply (Ha 0%nat)|].
    intros s' E. apply IH. intros n e' u Hn Hu. apply (Ha (S n)); [done|]. cbn. by rewrite E. }
  intros Ha. apply Hu. intros n e u Hn E. specialize (Ha n e Hn). by rewrite E in Ha.
Qed.

Lemma allowed_answer ms s req : s.2 = Reading req -> answers H req ms -> allowed (EAnswer (Some ms)) s.
Proof. intros E Ha. unfold allowed. by rewrite E. Qed.

End spec.

(** ** A run over a long history *)

Definition message_at (i : nat) : Message := mkMessage (Z.of_nat i + 1) #"user" (Some [ex_prose #"hi"]).
Definition messages_from (a n : nat) : list Message := map message_at (seq a n).
Definition history : list Message := messages_from 0 125.
Definition history_server : Server := mkServer history None ∅ 0.
Definition tail_client : Client := mkClient (messages_from 65 60) ∅ 0 60 125 0 [] 0 [] ∅.

#[local] Instance plain_screen : Screen := {|
  RuneWidth r := 1; Truncate s w := take (Z.to_nat w) s; Enabled := false; Prose s w := [s];
  Sprint_value v := []; Seconds_text d := []; Time_text ms := [] |}.
#[local] Instance plain_env : PagerEnv unit := {|
  ruleLine s w l := l; statusLine s w b := []; panelLines s := []; helpVersionLine := []; UnescapeString s := s |}.

Lemma from_lts a n : map mLT (messages_from a n) = map (fun i => Z.of_nat i + 1) (seq a n).
Proof. unfold messages_from. rewrite map_map. done. Qed.

Lemma from_sorted a n : StronglySorted Z.lt (map mLT (messages_from a n)).
Proof.
  rewrite from_lts. revert a. induction n as [|n IH]; intros a; [constructor|]. cbn. constructor; [apply IH|].
  apply Forall_forall. intros x Hx%list_elem_of_In. apply in_map_iff in Hx as (i & <- & Hi%in_seq). lia.
Qed.

Lemma history_lts : Forall (fun m => 0 < mLT m < 2 ^ 63 - 1) history.
Proof. apply Forall_forall. intros m Hm%list_elem_of_In. apply in_map_iff in Hm as (i & <- & Hi%in_seq). cbn. lia. Qed.

Lemma history_full : Forall (fun m => mNodes m <> None) history.
Proof. apply Forall_forall. intros m Hm%list_elem_of_In. by apply in_map_iff in Hm as (i & <- & Hi%in_seq). Qed.

Lemma history_reads top : by_lt history /\ reads_history (fun (_ : unit) b limit => (tt, ReadBefore history_server b limit)) history top.
Proof.
  apply (server_reads history_server); [apply from_sorted|]. eapply Forall_impl; [apply history_lts|]. cbn. lia.
Qed.

Lemma history_answers req ms : (readTranscriptPage (fun (_ : unit) b limit => (tt, ReadBefore history_server b limit)) req tt).2 = Some ms -> answers history req ms.
Proof. intros E. eexists _, _, tt. split; [apply history_reads|exact E]. Qed.

(** Up three pages, which drops the newest, and down again. *)
Definition older (b : nat) : transcriptPageRequest := mkRequest (Z.of_nat b + 1) pageOlder no_desc 0 0 [].
Definition up_and_down : list (event (St:=unit)) :=
  [EFrame tail_client None tt 0 0 false; EEnter;
   EScroll (-1000); EPage; EAnswer (Some (messages_from 65 30));
   EScroll (-1000); EPage; EAnswer (Some (messages_from 35 30));
   EScroll (-1000); EPage; EAnswer (Some (messages_from 5 30));
   EScroll 1000; EPage; EAnswer (Some (messages_from 95 30))].
Definition at_start : transcript (St:=unit) * phase := (newTranscript 40 10 tail_client tt 0 false, Idle).

Definition window_after (n : nat) : option (list Z * list pageDesc) :=
  option_map (fun s : transcript (St:=unit) * phase => (map (FirstLT ∘ desc) (pages s.1), newer s.1)) (run_events (take n up_and_down) at_start).
Example up_and_down_window :
  window_after 11 = Some ([6; 36; 66], [describePage (messages_from 95 30)]) /\ window_after 14 = Some ([36; 66; 96], []).
Proof. split; vm_compute; reflexivity. Qed.

Lemma tail_client_ok : client_ok history tail_client.
Proof. exists (messages_from 0 65), []. vm_compute. reflexivity. Qed.

Lemma answers_at (s : transcript (St:=unit) * phase) req ms : s.2 = Reading req ->
  (readTranscriptPage (fun (_ : unit) b limit => (tt, ReadBefore history_server b limit)) req tt).2 = Some ms -> allowed history (EAnswer (Some ms)) s.
Proof. intros E Ha. eapply allowed_answer; [exact E|]. by apply history_answers. Qed.

Definition replay_last : transcriptPageRequest :=
  let d := describePage (messages_from 95 30) in mkRequest (ReplayBefore d) pageNewer d 0 0 (messages_from 95 30).

Lemma up_and_down_allowed : allowed_run history up_and_down at_start.
Proof.
  apply allowed_prefixes. intros n e He. destruct n as [|[|[|[|[|[|[|[|[|[|[|[|[|[|n]]]]]]]]]]]]]]; [injection He as <-..|by destruct n].
  1: (split; [apply tail_client_ok|split; [lia|split; done]]).
  4: (apply (answers_at _ (older 95)); vm_compute; reflexivity).
  6: (apply (answers_at _ (older 65)); vm_compute; reflexivity).
  8: (apply (answers_at _ (older 35)); vm_compute; reflexivity).
  10: (apply (answers_at _ replay_last); vm_compute; reflexivity).
  all: vm_compute; done.
Qed.

Lemma pager_window_witness :
  window_after 11 = Some ([6; 36; 66], [describePage (messages_from 95 30)]) /\
  exists t p, run_events up_and_down at_start = Some (t, p) /\
    (exists a bs z, history = a ++ messages t ++ concat bs ++ z /\ newer t = rev (map describePage bs)) /\
    Forall (fun pg => desc pg = describePage (messages_of pg) /\ messages_of pg <> []) (pages t) /\
    (length (pages t) <= transcriptPageLimit)%nat /\ (length (newer t) <= transcriptDescLimit)%nat /\
    (length (payloadLRU t) <= transcriptPayloadLRULimit)%nat /\
    forall req ms, p = Reading req \/ p = SearchReading req -> answers history req ms -> ms <> [] ->
      Count (expected req) <> 0 -> expected req = describePage ms.
Proof.
  split; [vm_compute; reflexivity|].
  apply (pager_window history (proj1 (history_reads 0)) history_lts history_full 40 10 tail_client tt 0 false up_and_down);
    [lia|apply tail_client_ok|apply up_and_down_allowed].
Defined.
