(* ===== verification/Incipit.v ===== *)
(** * livelog/render: the inline renderer and the terminal it is tested on
    (src/internal/livelog/render: incipit.go, lines.go, fake.go)

    Incipit keeps the open message as a region of rows below the printed ones and
    repaints what changed.  Each method is a function of the state that gives the
    bytes it writes; FakeTerminal.Write reads such bytes as a terminal does.  The
    view that draws a node and the rows that close a message are parameters.

    The rows and columns of FakeTerminal are unbounded: a sequence whose number
    would take the cursor past an int is outside the model. *)

From S2P Require Import Prelude Utf8 GoStrings Json GoJson Livedoc Aria Sanitize Rows RecordSet.

(** ** FakeTerminal *)

Record FakeTerminal := mkFake {
  grid : list (list Z); row : Z; col : Z; top : Z; width : Z; height : Z; autowrap : bool }.
#[export] Instance fake_rebuild : Rebuild FakeTerminal := fun t =>
  mkFake (grid t) (row t) (col t) (top t) (width t) (height t) (autowrap t).

Definition NewFakeTerminal (w h : Z) : FakeTerminal := mkFake [] 0 0 0 w h false.

(** func ensure, scroll *)
Definition ensure (r : Z) (t : FakeTerminal) : FakeTerminal :=
  t <| grid ::= fun g => g ++ replicate (Z.to_nat (r + 1) - length g) [] |>.
Definition scroll (t : FakeTerminal) : FakeTerminal :=
  if (0 <? height t) && (top t + height t - 1 <? row t) then t <| top := row t - (height t - 1) |> else t.

(** Row [r] of the grid, rewritten. *)
Definition on_row (r : Z) (f : list Z -> list Z) (t : FakeTerminal) : FakeTerminal :=
  (ensure r t) <| grid ::= alter f (Z.to_nat r) |>.

(** func put *)
Definition put_at (c : Z) (x : Z) (l : list Z) : list Z :=
  <[Z.to_nat c := x]> (l ++ replicate (S (Z.to_nat c) - length l) 0x20).
Definition put (x : Z) (t : FakeTerminal) : FakeTerminal :=
  let t := (on_row (row t) (put_at (col t) x) t) <| col ::= Z.add 1 |> in
  if (width t <=? col t) && autowrap t
  then let t := scroll (t <| row ::= Z.add 1; col := 0 |>) in ensure (row t) t
  else t.

(** strconv.Atoi of runes; 0 where it gives an error other than the range's. *)
Definition is_digit (r : Z) : bool := (0x30 <=? r) && (r <=? 0x39).
Definition Atoi (rs : list Z) : Z :=
  if forallb is_digit rs then Z.min (foldl (fun v r => 10 * v + (r - 0x30)) 0 rs) (2 ^ 63 - 1) else 0.

(** strings.SplitN(params, semicolon, 2) *)
Fixpoint split_params (rs : list Z) : list Z * option (list Z) :=
  match rs with
  | [] => ([], None)
  | r :: rs => if r =? 0x3b then ([], Some rs) else let '(a, b) := split_params rs in (r :: a, b)
  end.

(** func Resize *)
Definition fake_Resize (w h : Z) (t : FakeTerminal) : FakeTerminal := scroll (t <| width := w; height := h |>).

(** func csi *)
Definition cursor_up (n : Z) (t : FakeTerminal) : FakeTerminal := t <| row := Z.max 0 (Z.max (row t - n) (top t)) |>.
Definition cursor_down (n : Z) (t : FakeTerminal) : FakeTerminal :=
  let r := row t + n in
  let r := if (0 <? height t) && (top t + height t - 1 <? r) then top t + height t - 1 else r in
  ensure r (t <| row := r |>).
Definition cursor_to (params : list Z) (t : FakeTerminal) : FakeTerminal :=
  let '(a, b) := split_params params in
  let r := match a with [] => 1 | _ => Atoi a end in
  let c := match b with None | Some [] => 1 | Some b => Atoi b end in
  ensure (Z.max 0 (r - 1)) (t <| row := Z.max 0 (r - 1); col := Z.max 0 (c - 1) |>).
Definition erase_line (n : Z) (t : FakeTerminal) : FakeTerminal :=
  if n =? 2 then (on_row (row t) (fun _ => []) t) <| col := 0 |> else on_row (row t) (take (Z.to_nat (col t))) t.
Definition erase_screen (n : Z) (t : FakeTerminal) : FakeTerminal :=
  if (n =? 2) || (n =? 3) then t <| grid := []; row := 0; col := 0; top := 0 |>
  else (on_row (row t) (take (Z.to_nat (col t))) t) <| grid ::= take (Z.to_nat (row t + 1)) |>.
Definition fake_csi (params : list Z) (final : Z) (t : FakeTerminal) : FakeTerminal :=
  let n := Atoi (split_params params).1 in
  if final =? 0x41 then cursor_up n t
  else if final =? 0x42 then cursor_down n t
  else if final =? 0x48 then cursor_to params t
  else if final =? 0x4b then erase_line n t
  else if final =? 0x4a then erase_screen n t
  else t.

(** The pattern fakeCSI after its ESC: the parameters, the final letter and the
    number of runes it takes. *)
Definition is_param (r : Z) : bool := is_digit r || (r =? 0x3b).
Fixpoint params_of (rs : list Z) : list Z * list Z :=
  match rs with
  | r :: rs' => if is_param r then let '(a, b) := params_of rs' in (r :: a, b) else ([], rs)
  | [] => ([], [])
  end.
Definition skip_question (rs : list Z) : list Z * nat :=
  match rs with r :: rs' => if r =? 0x3f then (rs', 1%nat) else (rs, 0%nat) | [] => ([], 0%nat) end.
Definition fakeCSI (rs : list Z) : option (list Z * Z * nat) :=
  match rs with
  | r :: rs =>
      if r =? 0x5b then
        let '(rs, q) := skip_question rs in
        let '(p, rs) := params_of rs in
        match rs with
        | f :: _ => if ascii_letter f then Some (p, f, (q + length p + 2)%nat) else None
        | [] => None
        end
      else None
  | [] => None
  end.

(** func Write; [skip] runes belong to a sequence that is done. *)
Definition newline (t : FakeTerminal) : FakeTerminal :=
  let t := scroll (t <| row ::= Z.add 1; col := 0 |>) in ensure (row t) t.
Fixpoint write_runes (skip : nat) (rs : list Z) (t : FakeTerminal) : FakeTerminal :=
  match rs with
  | [] => t
  | r :: rs =>
      match skip with
      | S skip => write_runes skip rs t
      | O =>
          if r =? 0x1b then
            match fakeCSI rs with
            | Some (p, f, n) => write_runes n rs (fake_csi p f t)
            | None => write_runes 0 rs t
            end
          else if r =? 0x0d then write_runes 0 rs (t <| col := 0 |>)
          else if r =? 0x0a then write_runes 0 rs (newline t)
          else write_runes 0 rs (put r t)
      end
  end.
Definition Write (s : gostr) (t : FakeTerminal) : FakeTerminal := write_runes 0 (runes s) t.

(** ** Lines *)

(** func clip: one column a rune. *)
Fixpoint clip_loop (fuel : nat) (w c : Z) (rs : list Z) : list Z * bool :=
  match fuel, rs with
  | S fuel, r :: rs =>
      if r =? ESC_rune then
        let '(seq, rs) := escape_rest rs in
        let '(out, clipped) := clip_loop fuel w c rs in (r :: seq ++ out, clipped)
      else if w <? c + 1 then ([], true)
      else let '(out, clipped) := clip_loop fuel w (c + 1) rs in (flatten_rune r :: out, clipped)
  | _, _ => ([], false)
  end.
Definition clip (s : gostr) (w : Z) : gostr :=
  if w <=? 0 then [] else
  let '(out, clipped) := clip_loop (length (runes s)) w 0 (runes s) in
  string_of_runes out ++ if clipped then reset else [].

(** ** Incipit *)

(** What draws a node, and the header of a role. *)
Class IncipitView := { Render : Node -> Z -> Z -> list gostr; Header : option (gostr -> gostr) }.

(** The rows that close a message, as the callbacks Bookend and Rule give them
    when they are called. *)
Record closing := mkClosing { Bookend : option (list gostr); Rule : option gostr }.

Record Incipit := mkIncipit {
  iTick : Z; liveLT : Z; iRole : gostr; live : list gostr; vt : Z; cur : Z }.
#[export] Instance incipit_rebuild : Rebuild Incipit := fun i => mkIncipit (iTick i) (liveLT i) (iRole i) (live i) (vt i) (cur i).

Definition NewIncipit : Incipit := mkIncipit 0 0 [] [] 0 0.

Definition CRLF : gostr := [x0d; x0a].
Definition crlfs (n : Z) : gostr := concat (replicate (Z.to_nat n) CRLF).
Definition ESC_seq (s : gostr) : gostr := ESC :: s.

(** func diffRange; None for -1, -1. *)
Definition row_of (l : list gostr) (k : nat) : gostr := default [] (l !! k).
Definition diff_step (old next : list gostr) (r : option (nat * nat)) (k : nat) : option (nat * nat) :=
  if decide (row_of old k = row_of next k) then r
  else match r with None => Some (k, k) | Some (first, _) => Some (first, k) end.
Definition diffRange (old next : list gostr) : option (nat * nat) :=
  foldl (diff_step old next) None (seq 0 (Nat.max (length old) (length next))).

Section incipit.
Context {view : IncipitView}.

(** The size the terminal reports: columns and rows. *)
Context (w h : Z).

(** func header, seal, renderNodes *)
Definition header (role : gostr) : gostr := match Header with Some f => f role | None => [] end.
Definition seal (c : closing) (role : gostr) : list gostr :=
  match Bookend c with
  | Some rows => if bool_decide (role = #"assistant") then rows else match Rule c with Some r => [r] | None => [] end
  | None => match Rule c with Some r => [r] | None => [] end
  end.
Definition node_rows (tick : Z) (k : nat) (n : Node) : list gostr :=
  let width := if w <=? 0 then 80 else w in
  (if (0 <? k)%nat then [[]] else []) ++ map (fun l => clip l width) (Render n width tick).
Definition renderNodes (tick : Z) (nodes : list Node) : list gostr := concat (imap (node_rows tick) nodes).

(** The rows above and below the body of a message. *)
Definition head_rows (role : gostr) : list gostr :=
  [] :: (if bool_decide (header role = []) then [] else [header role; []]).
Definition seal_rows (c : closing) (role : gostr) : list gostr :=
  match seal c role with [] => [] | rows => [] :: map (fun s => clip s w) rows end.

(** func compose *)
Definition compose (c : closing) (nodes : list Node) (i : Incipit) : list gostr :=
  head_rows (iRole i) ++ renderNodes (iTick i) nodes ++ seal_rows c (iRole i).

(** func vmove: the sequence and the new row. *)
Definition vmove (target from : Z) : gostr :=
  let d := target - from in
  if 0 <? d then ESC_seq (#"[" ++ itoa d ++ #"B")
  else if d <? 0 then ESC_seq (#"[" ++ itoa (- d) ++ #"A") else [].

(** The rounds of the loop of paint from [k] through [last]. *)
Definition paint_row (rows : list gostr) (first k : nat) (s : Z * Z * gostr) : Z * Z * gostr :=
  let '(vt, cur, out) := s in
  let '(vt, cur, out) :=
    if (first <? k)%nat then
      let cur := cur + 1 in
      (if (0 <? h) && (vt + h - 1 <? cur) then cur - (h - 1) else vt, cur, out ++ CRLF)
    else (vt, cur, out) in
  (vt, cur, out ++ ESC_seq #"[2K" ++ row_of rows k).
Definition paint_rows (rows : list gostr) (first last : nat) (s : Z * Z * gostr) : Z * Z * gostr :=
  foldl (fun s k => paint_row rows first k s) s (seq first (S last - first)).

(** The move to the first row that changed. *)
Definition paint_start (first : Z) (i : Incipit) : Z * Z * gostr :=
  let bottom := vt i + h - 1 in
  if (0 <? h) && (bottom <? first)
  then (vt i + (first - bottom), first, vmove bottom (cur i) ++ crlfs (first - bottom))
  else (vt i, first, vmove first (cur i)).

(** func paint *)
Definition paint (rows : list gostr) (i : Incipit) : Incipit * gostr :=
  match diffRange (live i) rows with
  | None => (i, [])
  | Some (first, last) =>
      let '(v, c, out) := paint_start (Z.of_nat first) i in
      let '(v, c, out) := paint_rows rows first last (v, c, ESC_seq #"[?2026h" ++ out ++ [x0d]) in
      (i <| live := rows; vt := v; cur := v |>,
       out ++ vmove v (Z.of_nat last) ++ [x0d] ++ ESC_seq #"[?2026l")
  end.

(** func reset, dropBelow *)
Definition reset_region (i : Incipit) : Incipit := i <| liveLT := 0; iRole := []; live := []; vt := 0; cur := 0 |>.
Definition dropBelow (i : Incipit) : gostr := crlfs (glen (live i) - vt i).

(** func Open, Tick, Resize *)
Definition Open (c : closing) (lt : Z) (role : gostr) (nodes : list Node) (i : Incipit) : Incipit * gostr :=
  let '(i, out) :=
    if lt =? liveLT i then (i, [])
    else ((reset_region i) <| liveLT := lt |>, if liveLT i =? 0 then [] else dropBelow i) in
  let i := i <| iRole := role |> in
  let '(i, out') := paint (compose c nodes i) i in (i, out ++ out').
Definition Tick (c : closing) (nodes : list Node) (i : Incipit) : Incipit * gostr :=
  if liveLT i =? 0 then (i, []) else
  let i := i <| iTick ::= Z.add 1 |> in paint (compose c nodes i) i.
Definition Resize (c : closing) (nodes : list Node) (i : Incipit) : Incipit * gostr :=
  if liveLT i =? 0 then (i, []) else
  let i := i <| live := []; vt := 0; cur := 0 |> in
  let '(i, out) := paint (compose c nodes i) i in (i, ESC_seq #"[J" ++ out).

(** Rows, each ended by a line break. *)
Definition print_rows (rows : list gostr) : gostr := concat (map (fun r => r ++ CRLF) rows).

(** func Seal, printMessage, Resume, AbandonOpen *)
Definition Seal (m : Message) (i : Incipit) : Incipit * gostr :=
  if (mLT m =? liveLT i) && negb (liveLT i =? 0) then (reset_region i, dropBelow i)
  else (i, print_rows (head_rows (mRole m) ++ renderNodes (iTick i) (default [] (mNodes m)))).
Definition message_rows (c : closing) (m : Message) (i : Incipit) : list gostr :=
  match renderNodes (iTick i) (default [] (mNodes m)) with
  | [] => []
  | body => head_rows (mRole m) ++ body ++ seal_rows c (mRole m)
  end.
Definition printMessage (c : closing) (m : Message) (i : Incipit) : gostr :=
  match message_rows c m i with [] => [] | rows => Join CRLF rows ++ CRLF end.
Definition Resume (c : closing) (closed : list Message) (lt : Z) (role : gostr) (open : list Node) (i : Incipit) : Incipit * gostr :=
  let i := reset_region i in
  let out := ESC_seq #"[J" ++ concat (map (fun m => printMessage c m i) closed) in
  if lt =? 0 then (i, out) else let '(i, out') := Open c lt role open i in (i, out ++ out').
Definition AbandonOpen (line : gostr) (i : Incipit) : Incipit * gostr :=
  (reset_region i,
   (if liveLT i =? 0 then [] else dropBelow i) ++ (if bool_decide (line = []) then [] else CRLF ++ clip line w ++ CRLF)).
End incipit.
