(* ===== verification/IncipitFacts.v ===== *)
(** * livelog/render: what a piece of output does to the terminal

    A string is read back rune by rune, so a piece that is whole ([writes]) acts on
    the terminal by itself.  Rows of printable runes and colours put their text; a
    clipped row is one; moves, line breaks and erasures do what they say within the
    screen.  [region] ties the renderer's idea of the open message to the terminal,
    and [paint_spec] shows that paint keeps it. *)

From S2P Require Import Prelude Utf8 GoStrings Json GoJson Livedoc Aria KeyInput Sanitize Rows RecordSet Incipit.

(** ** What a piece of output does *)

Definition whole (rs : list Z) (f : FakeTerminal -> FakeTerminal) : Prop :=
  forall b t, write_runes 0 (rs ++ b) t = write_runes 0 b (f t).
Definition writes (s : gostr) (f : FakeTerminal -> FakeTerminal) : Prop := valid_utf8 s /\ whole (runes s) f.

Lemma Write_writes s f t : writes s f -> Write s t = f t.
Proof. intros [_ Hw]. unfold Write. specialize (Hw [] t). by rewrite app_nil_r in Hw. Qed.

Lemma writes_nil : writes [] id.
Proof. split; [constructor|done]. Qed.

Lemma writes_app s u f g : writes s f -> writes u g -> writes (s ++ u) (fun t => g (f t)).
Proof.
  intros [Hs Hf] [Hu Hg]. split; [by apply valid_utf8_app|]. intros b t. by rewrite runes_app, <-app_assoc, Hf, Hg.
Qed.

Lemma whole_app a b f g : whole a f -> whole b g -> whole (a ++ b) (fun t => g (f t)).
Proof. intros Hf Hg c t. by rewrite <-app_assoc, Hf, Hg. Qed.

Lemma writes_ascii s f : ascii s -> whole (map bz s) f -> writes s f.
Proof. intros Hs Hf. destruct (ascii_runes s Hs) as [Hv E]. split; [done|]. by rewrite E. Qed.

Definition home (t : FakeTerminal) : FakeTerminal := t <| col := 0 |>.

Lemma writes_CR : writes [x0d] home.
Proof. apply writes_ascii; [by repeat constructor|]. done. Qed.

Lemma writes_CRLF : writes CRLF newline.
Proof. apply writes_ascii; [by repeat constructor|]. done. Qed.

Lemma skip_runes a b t : write_runes (length a) (a ++ b) t = write_runes 0 b t.
Proof. revert t. induction a as [|r a IH]; intros t; [done|]. cbn [app length write_runes]. apply IH. Qed.

Lemma letter_no_param f : ascii_letter f = true -> is_param f = false /\ f <> 0x3f.
Proof. unfold ascii_letter, is_param, is_digit. intros H. destruct (Z.eqb_spec f 0x3b); bool_hyps; lia || (split; [bool_hyps; lia|lia]). Qed.

Lemma params_of_all p f b : Forall (fun r => is_param r = true) p -> is_param f = false -> params_of (p ++ f :: b) = (p, f :: b).
Proof. intros Hp Hf. induction Hp as [|r p Hr Hp IH]; cbn; [by rewrite Hf|]. by rewrite Hr, IH. Qed.

(** A control sequence, with the private marker or without. *)
Lemma whole_csi q p f : (q = [] \/ q = [0x3f]) -> Forall (fun r => is_param r = true) p -> ascii_letter f = true ->
  whole (0x1b :: 0x5b :: q ++ p ++ [f]) (fake_csi p f).
Proof.
  intros Hq Hp Hf b t. destruct (letter_no_param f Hf) as [Hnf Hf'].
  assert (skip_question (q ++ p ++ [f] ++ b) = (p ++ f :: b, length q)) as Eq.
  { destruct Hq as [-> | ->]; [|done]. cbn [app length]. unfold skip_question. destruct p as [|r p]; cbn [app].
    - destruct (Z.eqb_spec f 0x3f); [done|done].
    - apply Forall_cons in Hp as [Hr _]. destruct (Z.eqb_spec r 0x3f) as [->|]; done. }
  assert (fakeCSI (0x5b :: q ++ p ++ [f] ++ b) = Some (p, f, (length q + length p + 2)%nat)) as E.
  { unfold fakeCSI. rewrite Z.eqb_refl, Eq, params_of_all by done. by rewrite Hf. }
  cbn [app]. rewrite <-!app_assoc. cbn [write_runes]. change (0x1b =? 0x1b) with true. cbv iota. rewrite E.
  replace (length q + length p + 2)%nat with (length (0x5b :: q ++ p ++ [f])) by (cbn [length]; rewrite !length_app; cbn [length]; lia).
  rewrite <-(skip_runes (0x5b :: q ++ p ++ [f]) b). cbn [app]. by rewrite <-!app_assoc.
Qed.

(** ** Numbers in sequences *)

Definition digit_step (v r : Z) : Z := 10 * v + (r - 0x30).

Lemma digits_text u : let rs := map bz (lit (DecimalString.NilEmpty.string_of_uint u)) in
  Forall (fun r => is_digit r = true) rs /\ forall v, foldl digit_step v rs = dvalue v u.
Proof.
  cbv zeta. induction u as [|u IH|u IH|u IH|u IH|u IH|u IH|u IH|u IH|u IH|u IH]; cbn [DecimalString.NilEmpty.string_of_uint dvalue]; [by split; [constructor|]|..].
  all: lazymatch goal with |- context [lit (String ?a ?s)] =>
        let b := eval vm_compute in (Ascii.byte_of_ascii a) in change (lit (String a s)) with (b :: lit s);
        destruct IH as [IH1 IH2]; split; [constructor; [reflexivity|exact IH1]|]; intros v; cbn [map foldl];
        let z := eval vm_compute in (bz b) in change (bz b) with z; rewrite IH2; unfold digit_step; f_equal; lia end.
Qed.

Lemma itoa_pos p : itoa (Z.pos p) = lit (DecimalString.NilEmpty.string_of_uint (Pos.to_uint p)) /\ dvalue 0 (Pos.to_uint p) = Z.pos p.
Proof.
  assert (dvalue 0 (Pos.to_uint p) = Z.pos p) as Hp by (rewrite <-dvalue_uint, DecimalPos.Unsigned.of_to; done). split; [|done].
  unfold itoa. cbn [Z.to_int DecimalString.NilZero.string_of_int]. unfold DecimalString.NilZero.string_of_uint.
  destruct (Pos.to_uint p) eqn:E; [cbn in Hp; lia|done..].
Qed.

Lemma itoa_number n : 0 < n < 2 ^ 63 -> Forall (fun r => is_digit r = true) (map bz (itoa n)) /\ foldl digit_step 0 (map bz (itoa n)) = n.
Proof.
  intros Hn. destruct n as [|p|p]; [lia| |lia]. destruct (itoa_pos p) as [-> E]. destruct (digits_text (Pos.to_uint p)) as [H1 H2].
  split; [exact H1|]. by rewrite H2.
Qed.

Lemma split_params_none rs : Forall (fun r => is_digit r = true) rs -> split_params rs = (rs, None).
Proof.
  induction 1 as [|r rs Hr Hrs IH]; [done|]. cbn. rewrite IH. unfold is_digit in Hr. destruct (Z.eqb_spec r 0x3b) as [->|]; [done|done].
Qed.

Lemma first_number n : 0 < n < 2 ^ 63 -> Atoi (split_params (map bz (itoa n))).1 = n.
Proof.
  intros Hn. destruct (itoa_number n Hn) as [Hd E]. rewrite split_params_none by done. cbn. unfold Atoi.
  rewrite (proj2 (forallb_forall _ _)) by (intros r Hr%list_elem_of_In; rewrite Forall_forall in Hd; by apply Hd).
  fold digit_step. rewrite E. lia.
Qed.

Lemma digit_ascii b : is_digit (bz b) = true -> bz b < 128.
Proof. unfold is_digit. intros H. bool_hyps. lia. Qed.

Lemma writes_move n f : 0 < n < 2 ^ 63 -> (f = x41 \/ f = x42) ->
  writes (ESC_seq (#"[" ++ itoa n ++ [f])) (fun t => if Byte.eqb f x41 then cursor_up n t else cursor_down n t).
Proof.
  intros Hn Hf. destruct (itoa_number n Hn) as [Hd _]. apply writes_ascii.
  - unfold ESC_seq. repeat constructor. apply Forall_app. split; [|by destruct Hf as [-> | ->]; repeat constructor].
    rewrite Forall_map in Hd. eapply Forall_impl; [exact Hd|]. intros b. apply digit_ascii.
  - unfold ESC_seq. cbn [map]. rewrite !map_app. change (map bz #"[") with [0x5b]. cbn [map app].
    assert (whole (0x1b :: 0x5b :: [] ++ map bz (itoa n) ++ [bz f]) (fake_csi (map bz (itoa n)) (bz f))) as Hw.
    { apply whole_csi; [by left| |by destruct Hf as [-> | ->]]. eapply Forall_impl; [exact Hd|]. unfold is_param. by intros r ->. }
    intros b t. etransitivity; [exact (Hw b t)|]. f_equal. unfold fake_csi. rewrite first_number by done. by destruct Hf as [-> | ->].
Qed.

(** ** Rows of text *)

Definition content (t : FakeTerminal) (k : nat) : list Z := default [] (grid t !! k).
Definition same_frame (t u : FakeTerminal) : Prop := row u = row t /\ top u = top t /\ height u = height t /\ autowrap u = autowrap t.

Lemma content_ensure r t k : content (ensure r t) k = content t k.
Proof.
  unfold content, ensure. cbn. destruct (decide (k < length (grid t))%nat) as [Hk|Hk]; [by rewrite lookup_app_l|].
  rewrite lookup_app_r by lia. rewrite (lookup_ge_None_2 (grid t) k) by lia.
  destruct (replicate _ _ !! _) eqn:E; [|done]. by apply lookup_replicate in E as [-> _].
Qed.

Lemma content_on_row r f t k : 0 <= r -> content (on_row r f t) k = if decide (k = Z.to_nat r) then f (content t k) else content t k.
Proof.
  intros Hr. rewrite <-(content_ensure r t k). unfold content. change (grid (on_row r f t)) with (alter f (Z.to_nat r) (grid (ensure r t))). rewrite list_lookup_alter. case_decide as Hk.
  - subst k. rewrite decide_True by done. destruct (lookup_lt_is_Some_2 (grid (ensure r t)) (Z.to_nat r)) as [l ->]; [|done].
    unfold ensure. cbn. rewrite length_app, length_replicate. lia.
  - by rewrite decide_False by congruence.
Qed.

Lemma put_rune_spec x t : autowrap t = false -> 0 <= row t -> col t = glen (content t (Z.to_nat (row t))) ->
  same_frame t (put x t) /\ col (put x t) = col t + 1 /\
  forall k, content (put x t) k = if decide (k = Z.to_nat (row t)) then content t k ++ [x] else content t k.
Proof.
  intros Ha Hr Hc. unfold put. set (u := on_row (row t) (put_at (col t) x) t). assert (autowrap u = false) as Hu by done.
  cbn [autowrap]. change (autowrap (u <| col ::= Z.add 1 |>)) with (autowrap u). rewrite Hu, andb_false_r. split; [done|]. split; [cbn; lia|].
  intros k. change (content (u <| col ::= Z.add 1 |>) k) with (content u k). subst u. rewrite content_on_row by done. case_decide; [|done]. subst k.
  unfold put_at. rewrite Hc. unfold glen. rewrite Nat2Z.id. set (l := content t _).
  replace (S (length l) - length l)%nat with 1%nat by lia. cbn [replicate]. by rewrite insert_app_r_alt, Nat.sub_diag by lia.
Qed.

Definition put_text (xs : list Z) (t : FakeTerminal) : FakeTerminal := foldl (fun t x => put x t) t xs.

Lemma put_text_spec xs t : autowrap t = false -> 0 <= row t -> col t = glen (content t (Z.to_nat (row t))) ->
  same_frame t (put_text xs t) /\
  forall k, content (put_text xs t) k = if decide (k = Z.to_nat (row t)) then content t k ++ xs else content t k.
Proof.
  unfold put_text. revert t. induction xs as [|x xs IH]; intros t Ha Hr Hc.
  { split; [done|]. intros k. cbn. case_decide; [by rewrite app_nil_r|done]. }
  destruct (put_rune_spec x t Ha Hr Hc) as ((F1 & F2 & F3 & F4) & Hcol & Hk). cbn [foldl].
  destruct (IH (put x t)) as ((G1 & G2 & G3 & G4) & Hk').
  - by rewrite F4.
  - by rewrite F1.
  - rewrite F1, Hk, decide_True by done. rewrite Hcol, Hc. unfold glen. rewrite length_app. cbn. lia.
  - unfold same_frame. rewrite G1, G2, G3, G4. split; [done|]. intros k. rewrite Hk', F1, !Hk. case_decide; [|done]. by rewrite <-app_assoc.
Qed.

(** Printable runes and colours. *)
Inductive clean : list Z -> Prop :=
| clean_nil : clean []
| clean_rune r rs : 0x20 <= r -> clean rs -> clean (r :: rs)
| clean_colour p rs : Forall (fun r => is_param r = true) p -> clean rs -> clean (0x1b :: 0x5b :: p ++ 0x6d :: rs).

Lemma escape_colour p rs : Forall (fun r => is_param r = true) p -> escape_rest (0x5b :: p ++ 0x6d :: rs) = (0x5b :: p ++ [0x6d], rs).
Proof.
  intros Hp. change (escape_rest (0x5b :: p ++ 0x6d :: rs)) with (let '(a, b) := escape_rest (p ++ 0x6d :: rs) in (0x5b :: a, b)).
  assert (escape_rest (p ++ 0x6d :: rs) = (p ++ [0x6d], rs)) as ->; [|done].
  induction Hp as [|r p Hr Hp IH]; [done|]. cbn [app escape_rest]. rewrite IH.
  assert (ascii_letter r = false) as ->; [|done]. revert Hr. unfold is_param, is_digit, ascii_letter. intros Hr. apply orb_true_iff in Hr as [Hr|Hr]; bool_hyps; lia || (apply orb_false_iff; split; apply andb_false_iff; lia).
Qed.

Lemma visible_colour p rs : Forall (fun r => is_param r = true) p -> visible (0x1b :: 0x5b :: p ++ 0x6d :: rs) = visible rs.
Proof.
  intros Hp. transitivity (visible_from (length (0x5b :: p ++ 0x6d :: rs)) (escape_rest (0x5b :: p ++ 0x6d :: rs)).2); [done|].
  rewrite escape_colour by done. cbn [snd]. apply visible_fuel; cbn [length]; rewrite ?length_app; cbn [length]; lia.
Qed.

Lemma whole_clean rs : clean rs -> whole rs (put_text (visible rs)).
Proof.
  induction 1 as [|r rs Hr Hrs IH|p rs Hp Hrs IH]; [done|..].
  - intros b t. cbn [app write_runes]. rewrite (proj2 (Z.eqb_neq r 0x1b)), (proj2 (Z.eqb_neq r 0x0d)), (proj2 (Z.eqb_neq r 0x0a)) by lia.
    rewrite IH, visible_cons by (unfold ESC_rune; lia). done.
  - rewrite visible_colour by done. intros b t.
    pose proof (whole_app _ _ _ _ (whole_csi [] p 0x6d ltac:(by left) Hp eq_refl) IH) as Hw. specialize (Hw b t). cbn [app] in Hw. cbn [app].
    rewrite <-!app_assoc in Hw. cbn [app] in Hw. rewrite <-app_assoc. exact Hw.
Qed.

(** ** Clipped rows *)

Inductive coloured : list Z -> Prop :=
| coloured_nil : coloured []
| coloured_rune r rs : r <> 0x1b -> coloured rs -> coloured (r :: rs)
| coloured_colour p rs : Forall (fun r => is_param r = true) p -> coloured rs -> coloured (0x1b :: 0x5b :: p ++ 0x6d :: rs).

Lemma clean_app a b : clean a -> clean b -> clean (a ++ b) /\ visible (a ++ b) = visible a ++ visible b.
Proof.
  intros Ha Hb. induction Ha as [|r rs Hr Hrs [IH1 IH2]|p rs Hp Hrs [IH1 IH2]]; [done|..].
  - cbn [app]. rewrite !visible_cons, IH2 by (unfold ESC_rune; lia). by split; [constructor|].
  - cbn [app]. rewrite <-app_assoc. cbn [app]. rewrite !visible_colour, IH2 by done. by split; [constructor|].
Qed.

Lemma flatten_clean r : 0x20 <= flatten_rune r.
Proof. unfold flatten_rune. destruct (Z.ltb_spec r 0x20); cbn; [lia|]. destruct (Z.eqb_spec r 0x7f); lia. Qed.

Lemma flatten_scalar r : scalar_rune r -> scalar_rune (flatten_rune r).
Proof. intros Hr. unfold flatten_rune. destruct (_ || _); [by vm_compute|done]. Qed.

Lemma clip_loop_spec f w c rs : (length rs <= f)%nat -> 0 <= c <= w -> coloured rs -> Forall scalar_rune rs ->
  let out := (clip_loop f w c rs).1 in
  clean out /\ Forall scalar_rune out /\ visible out = take (Z.to_nat (w - c)) (map flatten_rune (visible rs)).
Proof.
  cbv zeta. intros Hf Hc Hrs. revert f c Hf Hc. induction Hrs as [|r rs Hr Hrs IH|p rs Hp Hrs IH]; intros f c Hf Hc Hs.
  - destruct f; cbn; (split; [constructor|split; [constructor|by rewrite take_nil]]).
  - apply Forall_cons in Hs as [Hsr Hs]. destruct f as [|f]; cbn in Hf; [lia|]. cbn [clip_loop].
    destruct (Z.eqb_spec r ESC_rune) as [|_]; [done|]. rewrite visible_cons by done. destruct (Z.ltb_spec w (c + 1)) as [Hw|Hw].
    + replace (w - c) with 0 by lia. split; [constructor|split; [constructor|done]].
    + destruct (IH f (c + 1) ltac:(lia) ltac:(lia) Hs) as (H1 & H2 & H3). destruct (clip_loop f w (c + 1) rs) as [out b]. cbn [fst] in *.
      split; [apply clean_rune; [apply flatten_clean|done]|]. split; [apply Forall_cons; split; [by apply flatten_scalar|done]|].
      rewrite visible_cons by apply flatten_not_esc. rewrite H3. replace (Z.to_nat (w - c)) with (S (Z.to_nat (w - (c + 1)))) by lia. done.
  - destruct f as [|f]; cbn [length] in Hf; [lia|]. cbn [clip_loop]. change (0x1b =? ESC_rune) with true. cbv iota. rewrite escape_colour by done.
    rewrite visible_colour by done. apply Forall_cons in Hs as [Hs1 Hs]. apply Forall_cons in Hs as [Hs2 Hs].
    apply Forall_app in Hs as [Hsp Hs]. apply Forall_cons in Hs as [Hsm Hs]. rewrite length_app in Hf. cbn [length] in Hf.
    destruct (IH f c ltac:(lia) Hc Hs) as (H1 & H2 & H3). destruct (clip_loop f w c rs) as [out b]. cbn [fst] in *.
    replace (0x1b :: (0x5b :: p ++ [0x6d]) ++ out) with (0x1b :: 0x5b :: p ++ 0x6d :: out) by (cbn; by rewrite <-app_assoc).
    split; [by apply clean_colour|]. split; [|by rewrite visible_colour]. repeat (apply Forall_cons; split; [done|]). apply Forall_app. split; [done|]. by apply Forall_cons.
Qed.

(** A clipped row is printable: its text is that of the row, as far as it fits. *)
Lemma clip_clean s w : coloured (runes s) ->
  valid_utf8 (clip s w) /\ clean (runes (clip s w)) /\ visible (runes (clip s w)) = take (Z.to_nat w) (map flatten_rune (visible (runes s))).
Proof.
  intros Hs. unfold clip. destruct (Z.leb_spec w 0) as [Hw|Hw].
  { split; [constructor|]. split; [constructor|]. by replace (Z.to_nat w) with 0%nat by lia. }
  destruct (clip_loop_spec (length (runes s)) w 0 (runes s) ltac:(lia) ltac:(lia) Hs (scalar_runes s)) as (H1 & H2 & H3).
  destruct (clip_loop _ w 0 (runes s)) as [out c]. cbn [fst] in *. rewrite Z.sub_0_r in H3. destruct (runes_of out H2) as [Hv E].
  assert (valid_utf8 reset /\ clean (runes reset) /\ visible (runes reset) = []) as (R1 & R2 & R3).
  { split; [by apply ascii_runes; repeat constructor|]. split; [|by vm_compute]. change (runes reset) with (0x1b :: 0x5b :: [0x30] ++ 0x6d :: []). apply clean_colour; [by apply Forall_singleton|constructor]. }
  destruct c.
  - split; [by apply valid_utf8_app|]. rewrite runes_app, E by done. destruct (clean_app out (runes reset) H1 R2) as [H4 H5].
    split; [done|]. by rewrite H5, R3, app_nil_r, H3.
  - rewrite app_nil_r, E. done.
Qed.

(** ** Painting rows *)

Definition txt (s : gostr) : list Z := visible (runes s).
Definition printable (s : gostr) : Prop := valid_utf8 s /\ clean (runes s).

Lemma printable_nil : printable [].
Proof. split; constructor. Qed.

Lemma row_of_printable rows k : Forall printable rows -> printable (row_of rows k).
Proof. intros Hr. unfold row_of. destruct (rows !! k) eqn:E; [|apply printable_nil]. rewrite Forall_forall in Hr. apply Hr. by eapply list_elem_of_lookup_2. Qed.

Definition draw (s : gostr) (t : FakeTerminal) : FakeTerminal := put_text (txt s) (erase_line 2 t).

Lemma writes_printable s : printable s -> writes s (put_text (txt s)).
Proof. intros [Hv Hc]. split; [done|]. by apply whole_clean. Qed.

Lemma writes_csi q p f : (q = [] \/ q = [x3f]) -> Forall (fun b => is_param (bz b) = true) p -> ascii_letter (bz f) = true ->
  writes (ESC_seq (x5b :: q ++ p ++ [f])) (fake_csi (map bz p) (bz f)).
Proof.
  intros Hq Hp Hf. apply writes_ascii.
  - unfold ESC_seq. repeat (apply Forall_cons; split; [done|]). apply Forall_app. split; [by destruct Hq as [-> | ->]; repeat constructor|].
    apply Forall_app. split; [|apply Forall_singleton; unfold ascii_letter in Hf; apply orb_true_iff in Hf as [Hf|Hf]; bool_hyps; lia].
    eapply Forall_impl; [exact Hp|]. intros b Hb. unfold is_param, is_digit in Hb. apply orb_true_iff in Hb as [Hb|Hb]; bool_hyps; lia.
  - unfold ESC_seq. cbn [map]. rewrite !map_app. change (bz ESC) with 0x1b. change (bz x5b) with 0x5b.
    apply whole_csi; [by destruct Hq as [-> | ->]; [left|right]|by apply Forall_fmap|done].
Qed.

Lemma writes_draw s : printable s -> writes (ESC_seq #"[2K" ++ s) (draw s).
Proof.
  intros Hs. apply (writes_app _ _ (erase_line 2) (put_text (txt s))); [|by apply writes_printable].
  apply (writes_csi [] [x32] x4b); [by left|by apply Forall_singleton|done].
Qed.

Lemma draw_spec s t : autowrap t = false -> 0 <= row t ->
  same_frame t (draw s t) /\ forall k, content (draw s t) k = if decide (k = Z.to_nat (row t)) then txt s else content t k.
Proof.
  intros Ha Hr. unfold draw. set (u := erase_line 2 t). assert (same_frame t u /\ col u = 0) as [(F1 & F2 & F3 & F4) Hcol] by done.
  assert (forall k, content u k = if decide (k = Z.to_nat (row t)) then [] else content t k) as Hk.
  { intros k. change (content u k) with (content (on_row (row t) (fun _ => []) t) k). by rewrite content_on_row. }
  destruct (put_text_spec (txt s) u) as ((G1 & G2 & G3 & G4) & Hk'); [by rewrite F4|by rewrite F1|by rewrite F1, Hk, decide_True|].
  unfold same_frame. rewrite G1, G2, G3, G4. split; [done|]. intros k. rewrite Hk', F1, Hk. by case_decide.
Qed.

Lemma newline_spec t : 0 < height t -> let u := newline t in
  row u = row t + 1 /\ col u = 0 /\ height u = height t /\ autowrap u = autowrap t /\ top u = Z.max (top t) (row t + 1 - (height t - 1)) /\
  forall k, content u k = content t k.
Proof.
  intros Hh. unfold newline. set (v := t <| row ::= Z.add 1; col := 0 |>).
  assert (row v = row t + 1 /\ col v = 0 /\ height v = height t /\ autowrap v = autowrap t /\ top v = top t /\ forall k, content v k = content t k) as (E1 & E2 & E3 & E4 & E5 & E6) by (cbn; split_and!; done || lia).
  clearbody v. cbn zeta. unfold scroll. rewrite E3, E5, E1. rewrite (proj2 (Z.ltb_lt 0 (height t)) Hh). cbn [andb].
  destruct (Z.ltb_spec (top t + height t - 1) (row t + 1)).
  - set (x := v <| top := _ |>). set (y := ensure _ x). assert (forall k, content y k = content t k) as Hk by (intros k; subst y; rewrite content_ensure; exact (E6 k)).
    assert (row y = row v /\ col y = col v /\ height y = height v /\ autowrap y = autowrap v /\ top y = row t + 1 - (height t - 1)) as (G1 & G2 & G3 & G4 & G5) by done.
    rewrite G1, G2, G3, G4, G5, E1, E2, E3, E4. split_and!; done || lia.
  - set (y := ensure _ v). assert (forall k, content y k = content t k) as Hk by (intros k; subst y; rewrite content_ensure; exact (E6 k)).
    assert (row y = row v /\ col y = col v /\ height y = height v /\ autowrap y = autowrap v /\ top y = top v) as (G1 & G2 & G3 & G4 & G5) by done.
    rewrite G1, G2, G3, G4, G5, E1, E2, E3, E4, E5. split_and!; done || lia.
Qed.

(** The cursor is on row [r] of a region that begins at line [B]. *)
Definition at_row (h B r : Z) (t : FakeTerminal) : Prop :=
  autowrap t = false /\ height t = h /\ row t = B + r /\ 0 <= top t <= row t /\ row t <= top t + h - 1.

Lemma paint_rows_spec h B rows first n v out : 0 < h -> 0 <= B -> Forall printable rows -> Z.of_nat first <= v + h - 1 ->
  let last := Z.of_nat (first + n) in
  exists bytes g,
    foldl (fun s k => paint_row h rows first k s) (v, Z.of_nat first, out) (seq first (S n)) = (Z.max v (last - (h - 1)), last, out ++ bytes) /\
    writes bytes g /\
    forall t, at_row h B (Z.of_nat first) t ->
      at_row h B last (g t) /\ top (g t) = Z.max (top t) (B + last - (h - 1)) /\
      forall k, content (g t) k = if decide (Z.to_nat B + first <= k <= Z.to_nat B + (first + n))%nat then txt (row_of rows (k - Z.to_nat B)) else content t k.
Proof.
  intros Hh HB Hr Hv. cbv zeta. induction n as [|n IH].
  - exists (ESC_seq #"[2K" ++ row_of rows first), (draw (row_of rows first)). rewrite Nat.add_0_r. split; [|split].
    + cbn [seq foldl]. unfold paint_row. rewrite Nat.ltb_irrefl. by rewrite Z.max_l by lia.
    + by apply writes_draw, row_of_printable.
    + intros t (Ha & Hht & Hrt & Htop & Hbot). destruct (draw_spec (row_of rows first) t) as ((F1 & F2 & F3 & F4) & Hk); [done|lia|].
      unfold at_row. rewrite F1, F2, F3, F4. split; [done|]. split; [lia|]. intros k. rewrite Hk, Hrt.
      destruct (decide (k = Z.to_nat (B + Z.of_nat first))) as [->|]; [rewrite decide_True by lia; do 2 f_equal; lia|by rewrite decide_False by lia].
  - destruct IH as (bytes & g & E & Hw & Ht). rewrite seq_S, foldl_app, E. set (l := Z.of_nat (first + n)) in *. replace (Z.of_nat (first + S n)) with (l + 1) by lia.
    exists (bytes ++ CRLF ++ ESC_seq #"[2K" ++ row_of rows (first + S n)), (fun t => draw (row_of rows (first + S n)) (newline (g t))).
    split; [|split].
    + cbn [foldl]. unfold paint_row. rewrite (proj2 (Nat.ltb_lt first (first + S n))) by lia. rewrite (proj2 (Z.ltb_lt 0 h) Hh). cbn [andb].
      rewrite <-!app_assoc. f_equal. f_equal. destruct (Z.ltb_spec (Z.max v (l - (h - 1)) + h - 1) (l + 1)); lia.
    + apply (writes_app bytes _ g (fun t => draw _ (newline t))); [done|].
      apply (writes_app CRLF _ newline (draw _)); [apply writes_CRLF|]. by apply writes_draw, row_of_printable.
    + intros t Hat. destruct (Ht t Hat) as ((Ha & Hht & Hrt & Htop & Hbot) & Etop & Hk).
      destruct (newline_spec (g t)) as (N1 & N2 & N3 & N4 & N5 & N6); [lia|]. set (u := newline (g t)) in *.
      destruct (draw_spec (row_of rows (first + S n)) u) as ((F1 & F2 & F3 & F4) & Hk'); [congruence|lia|].
      unfold at_row. rewrite F1, F2, F3, F4, N1, N3, N4, N5, Hht. split; [split_and!; done || lia|]. split; [lia|].
      intros k. rewrite Hk', N1, N6, Hk, Hrt.
      destruct (decide (k = Z.to_nat (B + l + 1))) as [->|]; [rewrite (decide_True (P:=_ <= _ <= _)%nat) by lia; do 2 f_equal; lia|].
      destruct (decide (Z.to_nat B + first <= k <= Z.to_nat B + (first + n))%nat); [by rewrite decide_True by lia|by rewrite decide_False by lia].
Qed.

(** ** The rows that changed *)

Lemma diff_scan old next n : match foldl (diff_step old next) None (seq 0 n) with
  | None => forall k, (k < n)%nat -> row_of old k = row_of next k
  | Some (f, l) => (f <= l < n)%nat /\ row_of old f <> row_of next f /\
      forall k, (k < f)%nat \/ (l < k < n)%nat -> row_of old k = row_of next k
  end.
Proof.
  induction n as [|n IH]; [cbn; intros; lia|]. rewrite seq_S, foldl_app. cbn [foldl Nat.add]. unfold diff_step at 1.
  destruct (foldl _ None (seq 0 n)) as [[f l]|]; case_decide as Hd.
  - destruct IH as (H1 & H2 & H3). split; [lia|]. split; [done|]. intros k Hk. destruct (decide (k = n)) as [->|]; [done|]. apply H3. lia.
  - destruct IH as (H1 & H2 & H3). split; [lia|]. split; [done|]. intros k Hk. apply H3. lia.
  - intros k Hk. destruct (decide (k = n)) as [->|]; [done|]. apply IH. lia.
  - split; [lia|]. split; [done|]. intros k Hk. apply IH. lia.
Qed.

Lemma row_of_past l k : (length l <= k)%nat -> row_of l k = [].
Proof. intros Hk. unfold row_of. by rewrite lookup_ge_None_2. Qed.

Lemma diffRange_spec old next : match diffRange old next with
  | None => forall k, row_of old k = row_of next k
  | Some (f, l) => (f <= l < Nat.max (length old) (length next))%nat /\ row_of old f <> row_of next f /\
      forall k, (k < f \/ l < k)%nat -> row_of old k = row_of next k
  end.
Proof.
  unfold diffRange. pose proof (diff_scan old next (Nat.max (length old) (length next))) as Hd.
  assert (forall k, (Nat.max (length old) (length next) <= k)%nat -> row_of old k = row_of next k) as Hp by (intros k Hk; by rewrite !row_of_past by lia).
  destruct (foldl _ None _) as [[f l]|].
  - destruct Hd as (H1 & H2 & H3). split; [done|]. split; [done|]. intros k Hk. destruct (decide (k < Nat.max (length old) (length next)))%nat; [apply H3; lia|apply Hp; lia].
  - intros k. destruct (decide (k < Nat.max (length old) (length next)))%nat; [by apply Hd|apply Hp; lia].
Qed.

(** ** Moving *)

Lemma cursor_down_spec n t : 0 < height t -> row t + n <= top t + height t - 1 -> let u := cursor_down n t in
  row u = row t + n /\ col u = col t /\ height u = height t /\ autowrap u = autowrap t /\ top u = top t /\ forall k, content u k = content t k.
Proof.
  intros Hh Hb. unfold cursor_down. rewrite (proj2 (Z.ltb_lt 0 (height t)) Hh). cbn [andb]. destruct (Z.ltb_spec (top t + height t - 1) (row t + n)); [lia|].
  split_and!; try done. intros k. cbn zeta. rewrite content_ensure. done.
Qed.

Lemma vmove_spec h B target from t : 0 < h -> 0 <= B -> at_row h B from t -> top t <= B + target <= top t + h - 1 -> Z.abs (target - from) < 2 ^ 63 -> 0 <= B + target ->
  exists g, writes (vmove target from) g /\ at_row h B target (g t) /\ col (g t) = col t /\ top (g t) = top t /\ forall k, content (g t) k = content t k.
Proof.
  intros Hh HB (Ha & Hht & Hrt & Htop & Hbot) Htg Hn Hp. unfold vmove. destruct (Z.ltb_spec 0 (target - from)); [|destruct (Z.ltb_spec (target - from) 0)].
  - eexists. split; [apply (writes_move _ x42); [lia|by right]|]. cbn [Byte.eqb].
    destruct (cursor_down_spec (target - from) t) as (E1 & E2 & E3 & E4 & E5 & E6); [lia..|]. change (Byte.eqb x42 x41) with false. cbv iota.
    unfold at_row. rewrite E1, E2, E3, E4, E5. split; [split_and!; done || lia|done].
  - eexists. split; [apply (writes_move _ x41); [lia|by left]|]. change (Byte.eqb x41 x41) with true. cbv iota.
    split; [|done]. unfold at_row, cursor_up. cbn. split_and!; done || lia.
  - exists id. split; [apply writes_nil|]. split; [|done]. unfold at_row, id. split_and!; done || lia.
Qed.

Definition newlines (n : nat) : FakeTerminal -> FakeTerminal := Nat.iter n newline.

Lemma writes_crlfs n : writes (concat (replicate n CRLF)) (newlines n).
Proof.
  induction n as [|n IH]; [apply writes_nil|]. cbn [replicate concat]. destruct (writes_app _ _ _ _ writes_CRLF IH) as [Hv Hw]. split; [done|].
  intros b t. rewrite (Hw b t). f_equal. apply Nat.iter_swap.
Qed.

Lemma newlines_spec n t : 0 < height t -> row t <= top t + height t - 1 -> let u := newlines n t in
  row u = row t + Z.of_nat n /\ col u = (if (n =? 0)%nat then col t else 0) /\ height u = height t /\ autowrap u = autowrap t /\
  top u = Z.max (top t) (row t + Z.of_nat n - (height t - 1)) /\ forall k, content u k = content t k.
Proof.
  intros Hh Hb. induction n as [|n IH]; [cbn; split_and!; done || lia|]. destruct IH as (E1 & E2 & E3 & E4 & E5 & E6). cbn zeta in *.
  change (newlines (S n) t) with (newline (newlines n t)). destruct (newline_spec (newlines n t)) as (N1 & N2 & N3 & N4 & N5 & N6); [lia|].
  rewrite N1, N2, N3, N4, N5, E1, E3, E4, E5. split_and!; try done; try lia. intros k. by rewrite N6.
Qed.

(** ** paint *)

(** The region of the open message on the terminal: [above] are the rows before it. *)
Record region (h : Z) (above : list (list Z)) (i : Incipit) (t : FakeTerminal) : Prop := {
  rg_frame : at_row h (glen above) (vt i) t;
  rg_col : col t = 0;
  rg_content : forall k, content t k = default [] ((above ++ map txt (live i)) !! k);
  rg_cur : cur i = vt i;
  rg_vt : vt i = Z.max 0 (top t - glen above);
  rg_live : liveLT i = 0 -> live i = [] /\ vt i = 0;
  rg_rows : Forall printable (live i) }.

(** Row [f] can be reached from the top of the visible part: it is not above it,
    and it is on the screen, or below the screen that the region fills. *)
Definition reach (h : Z) (above : list (list Z)) (i : Incipit) (t : FakeTerminal) (f : Z) : Prop :=
  vt i <= f < 2 ^ 63 /\ (glen above + f <= top t + h - 1 \/ (vt i + h - 1 < f /\ glen above + vt i <= top t)).

Lemma paint_start_spec h above i t f : 0 < h -> region h above i t -> reach h above i t (Z.of_nat f) ->
  exists v bytes g, paint_start h (Z.of_nat f) i = (v, Z.of_nat f, bytes) /\ writes bytes g /\ at_row h (glen above) (Z.of_nat f) (g t) /\
    v = Z.max 0 (top (g t) - glen above) /\ Z.of_nat f <= v + h - 1 /\ forall k, content (g t) k = content t k.
Proof.
  intros Hh [Hfr Hcol _ Hcur Hvt _ _] [Hf Hreach]. pose proof Hfr as (Ha & Hht & Hrt & Htop & Hbot). pose proof (glen_nonneg above) as HB.
  unfold paint_start. rewrite (proj2 (Z.ltb_lt 0 h) Hh). cbn [andb]. rewrite Hcur. destruct (Z.ltb_spec (vt i + h - 1) (Z.of_nat f)) as [Hb|Hb].
  - destruct (vmove_spec h (glen above) (vt i + h - 1) (vt i) t) as (g & Hw & (Ga & Gh & Gr & Gt & Gb) & Gc & Gtop & Gk); [done|done|done|lia..|].
    set (n := Z.to_nat (Z.of_nat f - (vt i + h - 1))). destruct (newlines_spec n (g t)) as (E1 & E2 & E3 & E4 & E5 & E6); [lia|lia|].
    eexists _, _, (fun t => newlines n (g t)). split; [done|]. split; [apply (writes_app _ _ g (newlines n)); [done|apply writes_crlfs]|].
    unfold at_row. rewrite E1, E3, E4, E5. split; [split_and!; done || lia|]. split; [lia|]. split; [lia|]. intros k. by rewrite E6.
  - destruct (vmove_spec h (glen above) (Z.of_nat f) (vt i) t) as (g & Hw & Hat & Gc & Gtop & Gk); [done|done|done|lia..|].
    eexists _, _, g. split; [done|]. split; [done|]. split; [done|]. rewrite Gtop. split; [done|]. split; [lia|done].
Qed.

Definition reachable_rows (h : Z) (above : list (list Z)) (i : Incipit) (t : FakeTerminal) (rows : list gostr) : Prop :=
  match diffRange (live i) rows with None => True | Some (f, _) => reach h above i t (Z.of_nat f) end.

Lemma content_rows above rows k :
  default [] ((above ++ map txt rows) !! k) = if decide (k < length above)%nat then default [] (above !! k) else txt (row_of rows (k - length above)).
Proof.
  case_decide as Hk; [by rewrite lookup_app_l|]. rewrite lookup_app_r by lia. rewrite list_lookup_fmap. unfold row_of. by destruct (rows !! _).
Qed.

Lemma writes_sync p f : (f = x68 \/ f = x6c) -> Forall (fun b => is_param (bz b) = true) p -> writes (ESC_seq (x5b :: [x3f] ++ p ++ [f])) id.
Proof.
  intros Hf Hp. destruct (writes_csi [x3f] p f) as [Hv Hw]; [by right|done|by destruct Hf as [-> | ->]|]. split; [done|].
  intros b t. rewrite (Hw b t). by destruct Hf as [-> | ->].
Qed.

(** What paint is to do: the region then shows [rows]. *)
Definition painted (h : Z) (above : list (list Z)) (rows : list gostr) (i i' : Incipit) (t : FakeTerminal) : Prop :=
  region h above i' t /\ (forall k, row_of (live i') k = row_of rows k) /\ liveLT i' = liveLT i /\ iRole i' = iRole i /\ iTick i' = iTick i.

Lemma paint_spec h above i t rows : 0 < h -> Forall printable rows -> region h above i t -> liveLT i <> 0 -> reachable_rows h above i t rows ->
  Z.max (glen rows) (glen (live i)) < 2 ^ 63 ->
  exists g, writes (paint h rows i).2 g /\ painted h above rows i (paint h rows i).1 (g t).
Proof.
  intros Hh Hr Hreg Hlt Hreach Hlen. unfold paint, reachable_rows in *. pose proof (diffRange_spec (live i) rows) as Hd.
  destruct (diffRange (live i) rows) as [[f l]|]; [|exists id; split; [apply writes_nil|by split]].
  destruct Hd as (Hfl & _ & Hsame). destruct (paint_start_spec h above i t f Hh Hreg Hreach) as (v & bytes & g & -> & Hw & Hat & Hv & Hfv & Hk).
  pose proof Hreg as [_ _ Hcont _ _ _ _]. pose proof (glen_nonneg above) as HB.
  destruct (paint_rows_spec h (glen above) rows f (l - f) v (ESC_seq #"[?2026h" ++ bytes ++ [x0d]) Hh HB Hr Hfv) as (bytes' & g' & E & Hw' & Hg').
  unfold paint_rows. replace (S l - f)%nat with (S (l - f)) by lia. rewrite E. replace (f + (l - f))%nat with l in * by lia. clear E.
  cbn [fst snd]. set (v' := Z.max v (Z.of_nat l - (h - 1))).
  assert (at_row h (glen above) (Z.of_nat f) (home (g t))) as Hat' by exact Hat.
  destruct (Hg' (home (g t)) Hat') as (Hat2 & Htop2 & Hk2). change (top (home (g t))) with (top (g t)) in Htop2. set (u := g' (home (g t))) in *.
  pose proof Hat2 as (Ua & Uh & Ur & Ut & Ub). unfold glen in Hlen. pose proof Hat as (_ & _ & Fr & Ft & _). assert (v' = Z.max v (Z.of_nat l - (h - 1))) as Ev by done. clearbody v'.
  destruct (vmove_spec h (glen above) v' (Z.of_nat l) u) as (g3 & Hw3 & (Ga & Gh & Gr & Gt & Gb) & Gc & Gtop & Gk); [done|done|done|lia..|].
  exists (fun t => home (g3 (g' (home (g t))))). split.
  - rewrite <-!app_assoc.
    apply (writes_app _ _ id (fun t => home (g3 (g' (home (g t)))))); [apply (writes_sync #"2026" x68); [by left|by repeat constructor]|].
    apply (writes_app bytes _ g (fun t => home (g3 (g' (home t))))); [done|]. apply (writes_app [x0d] _ home (fun t => home (g3 (g' t)))); [apply writes_CR|].
    apply (writes_app bytes' _ g' (fun t => home (g3 t))); [done|]. apply (writes_app _ _ g3 home); [done|].
    apply (writes_app [x0d] _ home id); [apply writes_CR|]. apply (writes_sync #"2026" x6c); [by right|by repeat constructor].
  - fold u. set (x := g3 u) in *. split; [|done]. constructor; cbn [live vt cur liveLT].
    + exact (conj Ga (conj Gh (conj Gr (conj Gt Gb)))).
    + done.
    + intros k. change (content (home x) k) with (content x k). rewrite Gk, Hk2. change (content (home (g t)) k) with (content (g t) k). rewrite Hk, Hcont, !content_rows.
      unfold glen. rewrite Nat2Z.id. destruct (decide (k < length above)%nat); [by rewrite decide_False by lia|]. case_decide; [done|]. f_equal. apply Hsame. lia.
    + done.
    + change (top (home x)) with (top x). rewrite Gtop, Htop2. transitivity v'; [done|]. lia.
    + intros E. contradict Hlt. exact E.
    + done.
Qed.

(** ** Printing below the region *)

(** The rows a closed region leaves, and those of it that are above the screen. *)
Definition closed (above : list (list Z)) (i : Incipit) : list (list Z) :=
  above ++ map txt (live i) ++ replicate (Z.to_nat (vt i) - length (live i)) [].
Definition scrolled (above : list (list Z)) (i : Incipit) : list (list Z) :=
  above ++ take (Z.to_nat (vt i)) (map txt (live i) ++ replicate (Z.to_nat (vt i)) []).

Lemma reset_region_ok h above i t : at_row h (glen above) 0 t -> col t = 0 ->
  (forall k, content t k = default [] (above !! k)) -> region h above (reset_region i) t.
Proof.
  intros Hat Hc Hk. pose proof Hat as (_ & _ & Hr & Ht & _). constructor; [exact Hat|exact Hc| |done|cbn; lia|done|constructor].
  intros k. cbn. by rewrite app_nil_r.
Qed.

Lemma default_blanks {A} (l : list (list A)) n k : default [] ((l ++ replicate n []) !! k) = default [] (l !! k).
Proof.
  destruct (decide (k < length l)%nat); [by rewrite lookup_app_l|]. rewrite lookup_app_r by lia. rewrite (lookup_ge_None_2 l) by lia.
  destruct (replicate n [] !! _) eqn:E; [by apply lookup_replicate in E as [-> _]|done].
Qed.

Lemma drop_below_spec h above i t : 0 < h -> region h above i t ->
  exists g, writes (dropBelow i) g /\ region h (closed above i) (reset_region i) (g t).
Proof.
  intros Hh [(Ha & Hht & Hrt & Htop & Hbot) Hcol Hcont Hcur Hvt _ _]. pose proof (glen_nonneg above) as HB.
  exists (newlines (Z.to_nat (glen (live i) - vt i))). split; [apply writes_crlfs|].
  destruct (newlines_spec (Z.to_nat (glen (live i) - vt i)) t) as (E1 & E2 & E3 & E4 & E5 & E6); [lia|lia|].
  assert (glen (closed above i) = glen above + Z.max (glen (live i)) (vt i)) as Hl.
  { unfold closed, glen. rewrite !length_app, length_map, length_replicate. lia. }
  apply reset_region_ok.
  - unfold at_row. rewrite E1, E3, E4, E5, Hl. unfold glen in *. split_and!; done || lia.
  - rewrite E2, Hcol. by case_match.
  - intros k. rewrite E6, Hcont. unfold closed. by rewrite app_assoc, default_blanks.
Qed.

(** A row printed on a blank line. *)
Lemma print_row_spec h above i t s : 0 < h -> printable s -> live i = [] -> vt i = 0 -> cur i = 0 -> region h above i t ->
  exists g, writes (s ++ CRLF) g /\ region h (above ++ [txt s]) i (g t).
Proof.
  intros Hh Hs Hl Hv Hcu [(Ha & Hht & Hrt & Htop & Hbot) Hcol Hcont Hcur Hvt _ _]. pose proof (glen_nonneg above) as HB.
  exists (fun t => newline (put_text (txt s) t)). split; [by apply (writes_app s CRLF (put_text (txt s)) newline); [apply writes_printable|apply writes_CRLF]|].
  assert (content t (Z.to_nat (row t)) = []) as Hb.
  { rewrite Hcont, Hl, app_nil_r, lookup_ge_None_2; [done|]. unfold glen in *. lia. }
  destruct (put_text_spec (txt s) t) as ((F1 & F2 & F3 & F4) & Hk); [done|lia|by rewrite Hb|].
  destruct (newline_spec (put_text (txt s) t)) as (N1 & N2 & N3 & N4 & N5 & N6); [lia|].
  assert (glen (above ++ [txt s]) = glen above + 1) as El by (unfold glen; rewrite length_app; cbn; lia).
  constructor; rewrite ?Hl, ?Hv, ?Hcu; try done.
  - unfold at_row. rewrite N1, N3, N4, N5, F1, F2, F3, F4, El, Hrt, Hv. split_and!; done || lia.
  - intros k. rewrite N6, Hk, Hcont, Hl. cbn. rewrite !app_nil_r. case_decide as Hd.
    + subst k. unfold glen in *. rewrite (lookup_ge_None_2 above) by lia. rewrite lookup_app_r by lia.
      replace (Z.to_nat (row t) - length above)%nat with 0%nat by lia. done.
    + destruct (decide (k < length above)%nat); [by rewrite lookup_app_l|]. unfold glen in *. rewrite !lookup_ge_None_2 by (rewrite ?length_app; cbn; lia). done.
  - rewrite N5, F1, F2, El. lia.
Qed.

Lemma print_rows_spec h above i t rows : 0 < h -> Forall printable rows -> live i = [] -> vt i = 0 -> cur i = 0 -> region h above i t ->
  exists g, writes (print_rows rows) g /\ region h (above ++ map txt rows) i (g t).
Proof.
  intros Hh Hr Hl Hv Hc. revert above t. induction Hr as [|s rows Hs Hr IH]; intros above t Hreg.
  - exists id. split; [apply writes_nil|]. by rewrite app_nil_r.
  - destruct (print_row_spec h above i t s) as (g & Hw & Hg); [done..|]. destruct (IH (above ++ [txt s]) (g t) Hg) as (g' & Hw' & Hg').
    exists (fun t => g' (g t)). split; [by apply writes_app|]. by rewrite <-app_assoc in Hg'.
Qed.

(** The region erased from the top of its visible part. *)
Lemma erase_spec h above i t : 0 < h -> region h above i t ->
  writes (ESC_seq #"[J") (erase_screen 0) /\ region h (scrolled above i) (reset_region i) (erase_screen 0 t).
Proof.
  intros Hh [(Ha & Hht & Hrt & Htop & Hbot) Hcol Hcont Hcur Hvt _ _]. pose proof (glen_nonneg above) as HB.
  split; [apply (writes_csi [] [] x4a); [by left|constructor|done]|].
  assert (length (scrolled above i) = Z.to_nat (row t)) as El.
  { unfold scrolled, glen in *. rewrite length_app, length_take, length_app, length_map, length_replicate. lia. }
  apply reset_region_ok.
  - unfold at_row, erase_screen. cbn. rewrite Hht. unfold glen in *. split_and!; done || lia.
  - done.
  - intros k. assert (content (erase_screen 0 t) k = if decide (k < Z.to_nat (row t))%nat then content t k else []) as ->.
    { unfold erase_screen. cbn [orb Z.eqb]. set (u := on_row (row t) _ t).
      change (content (u <| grid ::= take (Z.to_nat (row t + 1)) |>) k) with (default [] (take (Z.to_nat (row t + 1)) (grid u) !! k)).
      destruct (decide (k < Z.to_nat (row t + 1))%nat).
      - rewrite lookup_take_lt by lia. change (default [] (grid u !! k)) with (content u k). subst u. rewrite content_on_row by lia.
        destruct (decide (k = Z.to_nat (row t))) as [->|]; [rewrite decide_False by lia; by rewrite Hcol|by rewrite decide_True by lia].
      - rewrite lookup_take_ge by lia. by rewrite decide_False by lia. }
    case_decide as Hk; [|by rewrite lookup_ge_None_2 by lia]. rewrite Hcont. unfold scrolled. unfold glen in *.
    destruct (decide (k < length above)%nat); [by rewrite !lookup_app_l by lia|]. rewrite !(lookup_app_r above) by lia. rewrite lookup_take_lt by lia. by rewrite default_blanks.
Qed.
