(* ===== verification/IncipitSpec.v ===== *)
(** * livelog/render: sessions of the inline renderer on a terminal

    [step] is a call of Incipit whose bytes the terminal reads, beside the rows that
    call is to print for good and to show; [allowed] is what it needs of the screen.
    incipit_screen says the terminal then shows just those rows. *)

From S2P Require Import Prelude Utf8 GoStrings Json GoJson Livedoc Aria KeyInput Sanitize Rows RecordSet Incipit IncipitFacts.

(** ** A session: calls of the renderer on a terminal *)

Inductive call :=
| COpen (c : closing) (lt : Z) (role : gostr) (nodes : list Node)
| CTick (c : closing) (nodes : list Node)
| CResize (w h : Z) (c : closing) (nodes : list Node)
| CSeal (m : Message)
| CResume (c : closing) (printed : list Message) (lt : Z) (role : gostr) (nodes : list Node)
| CAbandon (line : gostr).

(** The renderer, the terminal, the rows printed for good, and the rows the open
    message is to have. *)
Record session := mkSession { sInc : Incipit; sTerm : FakeTerminal; sAbove : list (list Z); sShown : list gostr }.

Section session.
Context {view : IncipitView}.

(** Open up to its paint. *)
Definition before_open (lt : Z) (role : gostr) (i : Incipit) : Incipit * gostr :=
  let '(i, out) :=
    if lt =? liveLT i then (i, [])
    else ((reset_region i) <| liveLT := lt |>, if liveLT i =? 0 then [] else dropBelow i) in
  (i <| iRole := role |>, out).

(** The rows each call prints for good. *)
Definition opened (lt : Z) (i : Incipit) (above : list (list Z)) : list (list Z) :=
  if lt =? liveLT i then above else if liveLT i =? 0 then above else closed above i.
Definition resumed (w : Z) (c : closing) (printed : list Message) (i : Incipit) (above : list (list Z)) : list (list Z) :=
  scrolled above i ++ map txt (concat (map (fun m => message_rows w c m (reset_region i)) printed)).

Definition step (e : call) (s : session) : session :=
  let '(i, t, above, shown) := (sInc s, sTerm s, sAbove s, sShown s) in
  match e with
  | COpen c lt role nodes =>
      let '(i', out) := Open (width t) (height t) c lt role nodes i in
      mkSession i' (Write out t) (opened lt i above) (compose (width t) c nodes i')
  | CTick c nodes =>
      if liveLT i =? 0 then s else
      let '(i', out) := Tick (width t) (height t) c nodes i in mkSession i' (Write out t) above (compose (width t) c nodes i')
  | CResize w h c nodes =>
      let t := fake_Resize w h t in
      if liveLT i =? 0 then mkSession i t above shown else
      let '(i', out) := Resize w h c nodes i in mkSession i' (Write out t) (scrolled above i) (compose w c nodes i')
  | CSeal m =>
      let '(i', out) := Seal (width t) m i in
      mkSession i' (Write out t)
        (if liveLT i =? 0 then above ++ map txt (head_rows (mRole m) ++ renderNodes (width t) (iTick i) (default [] (mNodes m)))
         else closed above i) []
  | CResume c printed lt role nodes =>
      let '(i', out) := Resume (width t) (height t) c printed lt role nodes i in
      mkSession i' (Write out t) (resumed (width t) c printed i above) (if lt =? 0 then [] else compose (width t) c nodes i')
  | CAbandon line =>
      let '(i', out) := AbandonOpen (width t) line i in
      mkSession i' (Write out t)
        ((if liveLT i =? 0 then above else closed above i) ++ (if bool_decide (line = []) then [] else [[]; txt (clip line (width t))])) []
  end.

(** A paint that can reach its first row. *)
Definition paintable (h : Z) (above : list (list Z)) (i : Incipit) (t : FakeTerminal) (rows : list gostr) : Prop :=
  reachable_rows h above i t rows /\ Z.max (glen rows) (glen (live i)) < 2 ^ 63.
Definition tinted (c : closing) (role : gostr) : Prop := Forall (fun r => coloured (runes r)) (seal c role).

Definition allowed (e : call) (s : session) : Prop :=
  let '(i, t, above) := (sInc s, sTerm s, sAbove s) in
  match e with
  | COpen c lt role nodes =>
      lt <> 0 /\ tinted c role /\
      let '(i', out) := before_open lt role i in
      paintable (height t) (opened lt i above) i' (Write out t) (compose (width t) c nodes i')
  | CTick c nodes =>
      liveLT i <> 0 -> tinted c (iRole i) /\
      let i' := i <| iTick ::= Z.add 1 |> in paintable (height t) above i' t (compose (width t) c nodes i')
  | CResize w h c nodes =>
      0 < h /\ (liveLT i <> 0 -> tinted c (iRole i) /\
      let i' := i <| live := []; vt := 0; cur := 0 |> in
      paintable h (scrolled above i) i' (Write (ESC_seq #"[J") (fake_Resize w h t)) (compose w c nodes i'))
  | CSeal m => liveLT i = 0 \/ liveLT i = mLT m
  | CResume c printed lt role nodes =>
      Forall (fun m => tinted c (mRole m)) printed /\
      (lt <> 0 -> tinted c role /\
       let '(i', _) := before_open lt role (reset_region i) in
       paintable (height t) (resumed (width t) c printed i above) i'
         (Write (ESC_seq #"[J" ++ concat (map (fun m => printMessage (width t) c m (reset_region i)) printed)) t) (compose (width t) c nodes i'))
  | CAbandon line => coloured (runes line)
  end.

Fixpoint allowed_all (es : list call) (s : session) : Prop :=
  match es with [] => True | e :: es => allowed e s /\ allowed_all es (step e s) end.

(** ** Every call keeps the region *)

Context (Hview : forall n w tick, Forall (fun r => coloured (runes r)) (Render n w tick)).
Context (Hhead : forall role, printable (header role)).

Definition shows (s : session) : Prop :=
  0 < height (sTerm s) /\ region (height (sTerm s)) (sAbove s) (sInc s) (sTerm s) /\ forall k, row_of (live (sInc s)) k = row_of (sShown s) k.

Lemma clip_printable s w : coloured (runes s) -> printable (clip s w).
Proof. intros Hs. by destruct (clip_clean s w Hs) as (H1 & H2 & _). Qed.

Lemma head_printable role : Forall printable (head_rows role).
Proof. unfold head_rows. constructor; [apply printable_nil|]. case_bool_decide; [constructor|]. repeat constructor; apply Hhead || constructor. Qed.

Lemma nodes_printable w tick nodes : Forall printable (renderNodes w tick nodes).
Proof.
  unfold renderNodes. apply Forall_concat. apply Forall_forall. intros l Hl. apply list_elem_of_lookup in Hl as (k & Hk).
  rewrite list_lookup_imap in Hk. apply fmap_Some in Hk as (n & _ & ->). unfold node_rows. apply Forall_app. split.
  - destruct (0 <? k)%nat; repeat constructor.
  - apply Forall_map. eapply Forall_impl; [apply Hview|]. intros r. apply clip_printable.
Qed.

Lemma seal_printable w c role : tinted c role -> Forall printable (seal_rows w c role).
Proof.
  unfold tinted, seal_rows. intros Ht. destruct (seal c role) as [|r rs]; [constructor|]. constructor; [apply printable_nil|].
  apply Forall_map. eapply Forall_impl; [exact Ht|]. intros x. apply clip_printable.
Qed.

Lemma compose_printable w c nodes i : tinted c (iRole i) -> Forall printable (compose w c nodes i).
Proof. intros Ht. unfold compose. repeat (apply Forall_app; split); [apply head_printable|apply nodes_printable|by apply seal_printable]. Qed.

Lemma message_rows_printable w c m i : tinted c (mRole m) -> Forall printable (message_rows w c m i).
Proof.
  intros Ht. unfold message_rows. pose proof (nodes_printable w (iTick i) (default [] (mNodes m))) as Hn. destruct (renderNodes w _ _) as [|r rs]; [constructor|].
  repeat (apply Forall_app; split); [apply head_printable|done|by apply seal_printable].
Qed.

Lemma region_set h above i i' t : region h above i t -> live i' = live i -> vt i' = vt i -> cur i' = cur i ->
  (liveLT i' = 0 -> live i' = [] /\ vt i' = 0) -> region h above i' t.
Proof. intros [H1 H2 H3 H4 H5 H6 H7] El Ev Ec Hl. constructor; rewrite ?El, ?Ev, ?Ec; try done. by rewrite <-El, <-Ev. Qed.

Lemma idle_region h above i t : region h above i t -> liveLT i = 0 -> region h above (reset_region i) t.
Proof. intros Hr E. destruct (rg_live _ _ _ _ Hr E) as [El Ev]. apply (region_set h above i); [done|by rewrite El|by rewrite Ev|by rewrite (rg_cur _ _ _ _ Hr), Ev|done]. Qed.

Lemma before_open_spec h above i t lt role : 0 < h -> region h above i t -> lt <> 0 ->
  exists g, writes (before_open lt role i).2 g /\ region h (opened lt i above) (before_open lt role i).1 (g t) /\
    liveLT (before_open lt role i).1 = lt /\ iRole (before_open lt role i).1 = role /\ iTick (before_open lt role i).1 = iTick i.
Proof.
  intros Hh Hr Hlt. unfold before_open, opened. destruct (Z.eqb_spec lt (liveLT i)) as [E|E].
  - exists id. split; [apply writes_nil|]. split; [|by subst]. by apply (region_set h above i); [..|intros E'; rewrite E in Hlt].
  - destruct (Z.eqb_spec (liveLT i) 0) as [E0|E0].
    + exists id. split; [apply writes_nil|]. split; [|done]. by apply (region_set h above (reset_region i)); [apply idle_region|..].
    + destruct (drop_below_spec h above i t Hh Hr) as (g & Hw & Hg). exists g. split; [done|]. split; [|done].
      by apply (region_set h (closed above i) (reset_region i)).
Qed.

Lemma paint_shows w h above i t c nodes : 0 < h -> region h above i t -> liveLT i <> 0 -> tinted c (iRole i) ->
  paintable h above i t (compose w c nodes i) ->
  exists g, writes (paint h (compose w c nodes i) i).2 g /\
    painted h above (compose w c nodes (paint h (compose w c nodes i) i).1) i (paint h (compose w c nodes i) i).1 (g t).
Proof.
  intros Hh Hr Hlt Ht [Hp Hb]. destruct (paint_spec h above i t (compose w c nodes i) Hh (compose_printable w c nodes i Ht) Hr Hlt Hp Hb) as (g & Hw & Hg).
  exists g. split; [done|]. pose proof Hg as (_ & _ & _ & Erole & Etick).
  assert (compose w c nodes (paint h (compose w c nodes i) i).1 = compose w c nodes i) as ->; [|done]. unfold compose at 1. by rewrite Erole, Etick.
Qed.

Lemma Open_parts w h c lt role nodes i : let '(i1, out1) := before_open lt role i in
  Open w h c lt role nodes i = ((paint h (compose w c nodes i1) i1).1, out1 ++ (paint h (compose w c nodes i1) i1).2).
Proof. unfold Open, before_open. destruct (lt =? liveLT i); by destruct (paint _ _ _). Qed.

(** Open, from any state of the renderer. *)
Lemma open_spec w h above i t c lt role nodes : 0 < h -> region h above i t -> lt <> 0 -> tinted c role ->
  paintable h (opened lt i above) (before_open lt role i).1 (Write (before_open lt role i).2 t) (compose w c nodes (before_open lt role i).1) ->
  exists g, writes (Open w h c lt role nodes i).2 g /\ region h (opened lt i above) (Open w h c lt role nodes i).1 (g t) /\
    forall k, row_of (live (Open w h c lt role nodes i).1) k = row_of (compose w c nodes (Open w h c lt role nodes i).1) k.
Proof.
  intros Hh Hr Hlt Ht Hp. destruct (before_open_spec h above i t lt role Hh Hr Hlt) as (g & Hw & Hg & El & Er & Etk).
  pose proof (Open_parts w h c lt role nodes i) as Eo. destruct (before_open lt role i) as [i1 out1]. cbn [fst snd] in *.
  rewrite (Write_writes _ g) in Hp by done.
  destruct (paint_shows w h (opened lt i above) i1 (g t) c nodes) as (g' & Hw' & Hg'); [done|done|congruence|by rewrite Er|done|].
  rewrite Eo. cbn [fst snd]. exists (fun t => g' (g t)). split; [by apply writes_app|]. by destruct Hg' as (H1 & H2 & _).
Qed.

Lemma join_rows rows : rows <> [] -> Join CRLF rows ++ CRLF = print_rows rows.
Proof.
  induction rows as [|r rows IH]; [done|]. intros _. destruct (decide (rows = [])) as [->|Hne].
  - unfold print_rows. cbn. by rewrite app_nil_r.
  - rewrite Join_cons by done. unfold print_rows in *. cbn [map concat]. rewrite <-IH by done. by rewrite <-!app_assoc.
Qed.

Lemma print_messages_rows w c i ms : concat (map (fun m => printMessage w c m i) ms) = print_rows (concat (map (fun m => message_rows w c m i) ms)).
Proof.
  induction ms as [|m ms IH]; [done|]. cbn [map concat]. rewrite IH. unfold printMessage. destruct (message_rows w c m i) as [|r rows] eqn:E; [done|].
  rewrite <-E, join_rows by (by rewrite E). unfold print_rows. by rewrite map_app, concat_app.
Qed.

Lemma step_open c lt role nodes s : shows s -> allowed (COpen c lt role nodes) s -> shows (step (COpen c lt role nodes) s).
Proof.
  destruct s as [i t above shown]. intros (Hh & Hr & _) (Hlt & Ht & Hp). cbn in *.
  destruct (before_open lt role i) as [i1 out1] eqn:Eb.
  destruct (open_spec (width t) (height t) above i t c lt role nodes Hh Hr Hlt Ht) as (g & Hw & Hg & Hk); [by rewrite Eb|].
  destruct (Open _ _ c lt role nodes i) as [i' out]. cbn [fst snd] in *. unfold shows. cbn. rewrite (Write_writes _ g) by done.
  pose proof (rg_frame _ _ _ _ Hg) as (_ & -> & _). done.
Qed.

Lemma step_tick c nodes s : shows s -> allowed (CTick c nodes) s -> shows (step (CTick c nodes) s).
Proof.
  destruct s as [i t above shown]. intros (Hh & Hr & Hk) Hal. cbn in *. destruct (Z.eqb_spec (liveLT i) 0) as [|Hlt]; [done|].
  destruct (Hal Hlt) as [Ht Hp]. unfold Tick. rewrite (proj2 (Z.eqb_neq (liveLT i) 0) Hlt). set (i1 := i <| iTick ::= Z.add 1 |>) in *.
  assert (region (height t) above i1 t) as Hr1 by (by apply (region_set _ _ i); [..|intros E; destruct Hlt]).
  destruct (paint_shows (width t) (height t) above i1 t c nodes) as (g & Hw & Hg & Hrows & _); [done..|].
  destruct (paint _ _ i1) as [i' out]. cbn [fst snd] in *. unfold shows. cbn. rewrite (Write_writes _ g) by done. pose proof (rg_frame _ _ _ _ Hg) as (_ & -> & _). done.
Qed.

Lemma fake_resize_region w h above i t : 0 < h -> 0 < height t -> region (height t) above i t -> region h above i (fake_Resize w h t).
Proof.
  intros Hh Hh' [(Ha & Hht & Hrt & Htop & Hbot) Hcol Hcont Hcur Hvt Hl Hrows]. pose proof (glen_nonneg above) as HB.
  set (u := fake_Resize w h t). assert (autowrap u = autowrap t /\ height u = h /\ row u = row t /\ col u = col t /\ (forall k, content u k = content t k) /\
    top u = (if top t + h - 1 <? row t then row t - (h - 1) else top t)) as (E1 & E2 & E3 & E4 & E5 & E6).
  { subst u. unfold fake_Resize, scroll. cbn. rewrite (proj2 (Z.ltb_lt 0 h) Hh). cbn [andb]. by destruct (_ <? _). }
  clearbody u. assert (at_row h (glen above) (vt i) u) as Hat.
  { unfold at_row. rewrite E1, E2, E3, E6. destruct (Z.ltb_spec (top t + h - 1) (row t)); split_and!; done || lia. }
  constructor; [done|congruence| |done| |done|done].
  - intros k. by rewrite E5.
  - rewrite E6. destruct (Z.ltb_spec (top t + h - 1) (row t)); lia.
Qed.

Lemma step_resize w h c nodes s : shows s -> allowed (CResize w h c nodes) s -> shows (step (CResize w h c nodes) s).
Proof.
  destruct s as [i t above shown]. intros (Hh & Hr & Hk) (Hh' & Hal). cbn [sInc sTerm sAbove sShown step] in *. set (u := fake_Resize w h t) in *.
  assert (region h above i u) as Hru by by apply fake_resize_region. clearbody u. clear Hr Hh.
  destruct (Z.eqb_spec (liveLT i) 0) as [E|Hlt].
  - unfold shows. cbn [sInc sTerm sAbove sShown]. pose proof (rg_frame _ _ _ _ Hru) as (_ & -> & _). done.
  - destruct (Hal Hlt) as [Ht Hp]. cbv zeta in Hp. unfold paintable in Hp. unfold Resize. rewrite (proj2 (Z.eqb_neq (liveLT i) 0) Hlt). set (i1 := i <| live := []; vt := 0; cur := 0 |>) in *.
    destruct (erase_spec h above i u Hh' Hru) as [Hwe He]. rewrite (Write_writes _ (erase_screen 0)) in Hp by done.
    assert (region h (scrolled above i) i1 (erase_screen 0 u)) as Hr1 by by apply (region_set _ _ (reset_region i)).
    destruct (paint_shows w h (scrolled above i) i1 (erase_screen 0 u) c nodes) as (g & Hw & Hg & Hrows & _); [done..|].
    destruct (paint _ _ i1) as [i' out]. cbn [fst snd] in *. unfold shows. cbn [sInc sTerm sAbove sShown].
    rewrite (Write_writes _ (fun t => g (erase_screen 0 t))) by by apply writes_app. pose proof (rg_frame _ _ _ _ Hg) as (_ & -> & _). done.
Qed.

Lemma step_seal m s : shows s -> allowed (CSeal m) s -> shows (step (CSeal m) s).
Proof.
  destruct s as [i t above shown]. intros (Hh & Hr & Hk) Hal. cbn in *. unfold Seal.
  destruct (Z.eqb_spec (liveLT i) 0) as [E|Hlt].
  - rewrite andb_false_r. destruct (rg_live _ _ _ _ Hr E) as [El Ev].
    destruct (print_rows_spec (height t) above i t (head_rows (mRole m) ++ renderNodes (width t) (iTick i) (default [] (mNodes m)))) as (g & Hw & Hg); [done| |done|done|by rewrite (rg_cur _ _ _ _ Hr)|done|].
    { apply Forall_app. split; [apply head_printable|apply nodes_printable]. }
    unfold shows. cbn [sInc sTerm sAbove sShown]. rewrite (Write_writes _ g) by done. pose proof (rg_frame _ _ _ _ Hg) as (_ & -> & _). split; [done|]. split; [done|]. by rewrite El.
  - destruct Hal as [?|Hm]; [done|]. rewrite (proj2 (Z.eqb_eq (mLT m) (liveLT i))) by done. cbn.
    destruct (drop_below_spec (height t) above i t Hh Hr) as (g & Hw & Hg). unfold shows. cbn [sInc sTerm sAbove sShown]. rewrite (Write_writes _ g) by done.
    pose proof (rg_frame _ _ _ _ Hg) as (_ & -> & _). done.
Qed.

Lemma resume_print w above i t c printed : 0 < height t -> region (height t) above i t -> Forall (fun m => tinted c (mRole m)) printed ->
  exists g, writes (ESC_seq #"[J" ++ concat (map (fun m => printMessage w c m (reset_region i)) printed)) g /\
    region (height t) (resumed w c printed i above) (reset_region i) (g t).
Proof.
  intros Hh Hr Ht. destruct (erase_spec (height t) above i t Hh Hr) as [Hwe He]. rewrite print_messages_rows.
  destruct (print_rows_spec (height t) (scrolled above i) (reset_region i) (erase_screen 0 t) (concat (map (fun m => message_rows w c m (reset_region i)) printed)))
    as (g & Hw & Hg); [done| |done..|].
  { apply Forall_concat, Forall_map. eapply Forall_impl; [exact Ht|]. intros m. apply message_rows_printable. }
  exists (fun t => g (erase_screen 0 t)). split; [by apply writes_app|exact Hg].
Qed.

Lemma step_resume c printed lt role nodes s : shows s -> allowed (CResume c printed lt role nodes) s -> shows (step (CResume c printed lt role nodes) s).
Proof.
  destruct s as [i t above shown]. intros (Hh & Hr & Hk) (Hpr & Hal). cbn [sInc sTerm sAbove sShown step] in *. unfold Resume.
  destruct (resume_print (width t) above i t c printed Hh Hr Hpr) as (g & Hw & Hg). destruct (Z.eqb_spec lt 0) as [E|Hlt].
  - unfold shows. cbn [sInc sTerm sAbove sShown]. rewrite (Write_writes _ g) by done. pose proof (rg_frame _ _ _ _ Hg) as (_ & -> & _). done.
  - destruct (Hal Hlt) as [Ht Hp]. destruct (before_open lt role (reset_region i)) as [i1 out1] eqn:Eb.
    assert (opened lt (reset_region i) (resumed (width t) c printed i above) = resumed (width t) c printed i above) as Eop by (unfold opened; cbn; by destruct (lt =? 0)).
    assert (out1 = []) as -> by (unfold before_open in Eb; cbn in Eb; by destruct (lt =? 0); injection Eb).
    rewrite (Write_writes _ g) in Hp by done.
    destruct (open_spec (width t) (height t) (resumed (width t) c printed i above) (reset_region i) (g t) c lt role nodes Hh Hg Hlt Ht) as (g' & Hw' & Hg' & Hk').
    { rewrite Eb, Eop. cbn [fst snd]. rewrite (Write_writes [] id) by apply writes_nil. exact Hp. }
    rewrite Eop in Hg'. destruct (Open _ _ c lt role nodes (reset_region i)) as [i' out']. cbn [fst snd] in *. unfold shows. cbn [sInc sTerm sAbove sShown].
    rewrite (Write_writes _ (fun t => g' (g t))) by by apply writes_app. pose proof (rg_frame _ _ _ _ Hg') as (_ & -> & _). done.
Qed.

Lemma step_abandon line s : shows s -> allowed (CAbandon line) s -> shows (step (CAbandon line) s).
Proof.
  destruct s as [i t above shown]. intros (Hh & Hr & Hk) Hal. cbn in *.
  assert (exists g, writes (if liveLT i =? 0 then [] else dropBelow i) g /\ region (height t) (if liveLT i =? 0 then above else closed above i) (reset_region i) (g t)) as (g & Hw & Hg).
  { destruct (Z.eqb_spec (liveLT i) 0); [exists id; split; [apply writes_nil|by apply idle_region]|by apply drop_below_spec]. }
  assert (exists g', writes (if bool_decide (line = []) then [] else CRLF ++ clip line (width t) ++ CRLF) g' /\
    region (height t) ((if liveLT i =? 0 then above else closed above i) ++ (if bool_decide (line = []) then [] else [[]; txt (clip line (width t))])) (reset_region i) (g' (g t))) as (g' & Hw' & Hg').
  { case_bool_decide; [exists id; split; [apply writes_nil|by rewrite app_nil_r]|].
    destruct (print_rows_spec (height t) (if liveLT i =? 0 then above else closed above i) (reset_region i) (g t) [[]; clip line (width t)] Hh) as (g' & Hw' & Hg'); [|done..|].
    { apply Forall_cons; split; [apply printable_nil|]. apply Forall_singleton. by apply clip_printable. }
    exists g'. split; [|exact Hg']. unfold print_rows in Hw'. cbn in Hw'. by rewrite app_nil_r in Hw'. }
  unfold shows. cbn [sInc sTerm sAbove sShown]. rewrite (Write_writes _ (fun t => g' (g t))) by by apply writes_app. pose proof (rg_frame _ _ _ _ Hg') as (_ & -> & _). done.
Qed.

Lemma step_shows e s : shows s -> allowed e s -> shows (step e s).
Proof. destruct e; [apply step_open|apply step_tick|apply step_resize|apply step_seal|apply step_resume|apply step_abandon]. Qed.

Lemma step_printed e s : exists l, sAbove (step e s) = sAbove s ++ l.
Proof.
  assert (forall above i, exists l, closed above i = above ++ l) as Hc by (intros; by eexists).
  assert (forall above i, exists l, scrolled above i = above ++ l) as Hs by (intros; by eexists).
  assert (forall above : list (list Z), exists l, above = above ++ l) as Hn by (intros; exists []; by rewrite app_nil_r).
  destruct s as [i t above shown]. destruct e; cbn.
  - destruct (Open _ _ c lt role nodes i). cbn. unfold opened. destruct (_ =? _); [done|]. destruct (_ =? _); done.
  - destruct (_ =? _); [done|]. by destruct (Tick _ _ _ _ _).
  - destruct (_ =? _); [done|]. destruct (Resize _ _ _ _ _). apply Hs.
  - destruct (Seal _ _ _). cbn. destruct (_ =? _); [by eexists|apply Hc].
  - destruct (Resume _ _ _ _ _ _ _ _). cbn. unfold resumed, scrolled. rewrite <-app_assoc. by eexists.
  - destruct (_ =? 0); [by eexists|]. unfold closed. rewrite <-!app_assoc. by eexists.
Qed.

Lemma steps_show es s : shows s -> allowed_all es s ->
  shows (foldl (fun s e => step e s) s es) /\ exists printed, sAbove (foldl (fun s e => step e s) s es) = sAbove s ++ printed.
Proof.
  revert s. induction es as [|e es IH]; intros s Hs Ha; [split; [done|]; exists []; by rewrite app_nil_r|]. destruct Ha as [Ha Hr]. cbn [foldl].
  destruct (IH (step e s) (step_shows e s Hs Ha) Hr) as [H1 (l & H2)]. split; [done|]. destruct (step_printed e s) as [l' E].
  rewrite H2, E, <-app_assoc. by eexists.
Qed.

(** C26: whatever is opened, ticked, resized, sealed, resumed and abandoned within
    the bounds of [allowed], the terminal shows exactly the rows printed so far and
    below them the rows of the open message, each clipped to the width and on its own
    line; the printed rows only grow; and the cursor rests on the top of the part of
    the open message that is on the screen.  The bounds: the view draws rows whose
    escape sequences are colours, the terminal has a row, a message opened has an LT,
    each paint finds its first changed row on the screen or right below a screen the
    message fills, and no other message is sealed while one is open.  Without them it
    fails: [opened_at_bottom], [changed_above_screen], [sealed_over_open]. *)
Theorem incipit_screen es s : shows s -> allowed_all es s ->
  let s' := foldl (fun s e => step e s) s es in
  (exists printed, sAbove s' = sAbove s ++ printed) /\
  (forall k, content (sTerm s') k = default [] ((sAbove s' ++ map txt (sShown s')) !! k)) /\
  col (sTerm s') = 0 /\ row (sTerm s') = Z.max (glen (sAbove s')) (top (sTerm s')).
Proof.
  intros Hs Ha. destruct (steps_show es s Hs Ha) as [(_ & [(_ & _ & Hrt & Htop & _) Hcol Hcont _ Hvt _ _] & Hk) Hp]. cbv zeta.
  split; [done|]. split; [|split; [done|lia]]. intros k. rewrite Hcont, !content_rows. case_decide; [done|]. by rewrite Hk.
Qed.
End session.

(** ** A session on a screen of four rows *)

Definition plain_byte (b : byte) : bool := (bz b <? 128) && negb (Byte.eqb b ESC).
#[local] Instance plain_view : IncipitView := {|
  Render n w tick := map (List.filter plain_byte) (SplitByte LF (nMarkdown n));
  Header := Some (fun role => if bool_decide (role = #"user") then #"> you" else []) |}.

Lemma plain_coloured s : coloured (runes (List.filter plain_byte s)).
Proof.
  assert (Forall (fun b => plain_byte b = true) (List.filter plain_byte s)) as Hf by (apply Forall_forall; intros b Hb%list_elem_of_In; by apply List.filter_In in Hb as [_ ?]).
  destruct (ascii_runes (List.filter plain_byte s)) as [_ ->].
  { eapply Forall_impl; [exact Hf|]. unfold plain_byte. intros b Hb. bool_hyps. lia. }
  induction Hf as [|b l Hb Hl IH]; cbn [map]; [constructor|]. apply coloured_rune; [|exact IH]. unfold plain_byte in Hb. apply andb_true_iff in Hb as [_ Hb].
  intros E. change 0x1b with (bz ESC) in E. apply bz_inj in E as ->. done.
Qed.

Lemma plain_rows n w tick : Forall (fun r => coloured (runes r)) (Render n w tick).
Proof. apply Forall_map. apply Forall_true. intros x. apply plain_coloured. Qed.

Lemma plain_header role : printable (header role).
Proof.
  unfold header. cbn. case_bool_decide; [|apply printable_nil]. destruct (ascii_runes #"> you") as [Hv E]; [repeat constructor|]. split; [done|].
  rewrite E. repeat (apply clean_rune; [vm_compute; discriminate|]). constructor.
Qed.

#[local] Instance reach_dec h above i t f : Decision (reach h above i t f).
Proof. unfold reach. apply _. Defined.
#[local] Instance reachable_dec h above i t rows : Decision (reachable_rows h above i t rows).
Proof. unfold reachable_rows. destruct (diffRange (live i) rows) as [[]|]; apply _. Defined.
#[local] Instance paintable_dec h above i t rows : Decision (paintable h above i t rows).
Proof. unfold paintable. apply _. Defined.

Definition status_rows : closing := mkClosing (Some [ #"--"; #"ok"]) (Some #"----").
Definition prose (s : gostr) : list Node := [ex_prose s].
Definition growing : list call :=
  [CSeal (mkMessage 1 #"user" (Some (prose #"hi")));
   COpen status_rows 2 #"assistant" (prose #"one");
   COpen status_rows 2 #"assistant" (prose (Join [LF] [ #"one"; #"two"; #"three"]));
   CTick status_rows (prose (Join [LF] [ #"one"; #"two"; #"three!"]));
   CSeal (mkMessage 2 #"assistant" None);
   CAbandon #"bye"].
Definition on_screen : session := mkSession NewIncipit (NewFakeTerminal 20 8) [] [].

Lemma on_screen_shows w h : 0 < h -> shows (mkSession NewIncipit (NewFakeTerminal w h) [] []).
Proof.
  intros Hh. split; [done|]. split; [|done]. constructor; [|done|done|done|done|done|constructor].
  unfold at_row. cbn. split_and!; done || lia.
Qed.

Lemma plain_tinted c role : Forall (fun b => plain_byte b = true) (concat (seal c role)) -> tinted c role.
Proof.
  intros Hf. unfold tinted. apply Forall_forall. intros r Hr. assert (List.filter plain_byte r = r) as <-; [|apply plain_coloured].
  apply List.forallb_filter_id, forallb_forall. intros b Hb. rewrite Forall_forall in Hf. apply Hf. apply list_elem_of_In, in_concat. exists r. by rewrite <-list_elem_of_In.
Qed.

Lemma open_allowed c lt role nodes s : lt <> 0 -> Forall (fun b => plain_byte b = true) (concat (seal c role)) ->
  (let '(i', out) := before_open lt role (sInc s) in
   bool_decide (paintable (height (sTerm s)) (opened lt (sInc s) (sAbove s)) i' (Write out (sTerm s)) (compose (width (sTerm s)) c nodes i'))) = true ->
  allowed (COpen c lt role nodes) s.
Proof.
  intros Hlt Ht Hp. cbn [allowed]. split; [done|]. split; [by apply plain_tinted|].
  destruct (before_open lt role (sInc s)) as [i' out]. by apply bool_decide_eq_true in Hp.
Qed.

Lemma tick_allowed c nodes s : Forall (fun b => plain_byte b = true) (concat (seal c (iRole (sInc s)))) ->
  (let i' := (sInc s) <| iTick ::= Z.add 1 |> in bool_decide (paintable (height (sTerm s)) (sAbove s) i' (sTerm s) (compose (width (sTerm s)) c nodes i'))) = true ->
  allowed (CTick c nodes) s.
Proof. intros Ht Hp. cbn [allowed]. intros _. split; [by apply plain_tinted|]. by apply bool_decide_eq_true in Hp. Qed.

Lemma growing_allowed : allowed_all growing on_screen.
Proof.
  unfold growing. cbn [allowed_all]. split; [by left|].
  split; [apply open_allowed; [done|repeat constructor|vm_compute; reflexivity]|].
  split; [apply open_allowed; [done|repeat constructor|vm_compute; reflexivity]|].
  split; [apply tick_allowed; [vm_compute; repeat constructor|vm_compute; reflexivity]|].
  split; [right; vm_compute; reflexivity|]. split; [|done]. exact (plain_coloured #"bye").
Qed.

Lemma incipit_screen_witness :
  map (map zb) (sAbove (foldl (fun s e => step e s) on_screen growing)) =
    [[]; #"> you"; []; #"hi"; []; #"one"; #"two"; #"three!"; []; #"--"; #"ok"; []; #"bye"] /\
  let s' := foldl (fun s e => step e s) on_screen growing in
  (exists printed, sAbove s' = sAbove on_screen ++ printed) /\
  (forall k, content (sTerm s') k = default [] ((sAbove s' ++ map txt (sShown s')) !! k)) /\
  col (sTerm s') = 0 /\ row (sTerm s') = Z.max (glen (sAbove s')) (top (sTerm s')).
Proof.
  split; [vm_compute; reflexivity|].
  apply (incipit_screen plain_rows plain_header growing on_screen); [by apply on_screen_shows|apply growing_allowed].
Defined.

(** ** Calls that are not allowed *)

Definition grid_after (w h : Z) (es : list call) : list gostr :=
  map (map zb) (grid (sTerm (foldl (fun s e => step e s) (mkSession NewIncipit (NewFakeTerminal w h) [] []) es))).

(** Opened on the last row of the screen, a message loses the blank row that is to
    set it off. *)
Example opened_at_bottom :
  grid_after 20 5 [CSeal (mkMessage 1 #"user" (Some (prose #"hi"))); COpen (mkClosing None None) 2 #"assistant" (prose #"one")] =
    [[]; #"> you"; []; #"hi"; #"one"].
Proof. vm_compute. reflexivity. Qed.

(** A row that changes above the screen is written over the top row of the screen. *)
Example changed_above_screen :
  grid_after 20 3 [COpen (mkClosing None None) 2 #"assistant" (prose (Join [LF] [ #"a"; #"b"; #"c"; #"d"]));
                   CTick (mkClosing None None) (prose (Join [LF] [ #"A"; #"b"; #"c"; #"d"]))] =
    [[]; #"a"; #"A"; #"c"; #"d"].
Proof. vm_compute. reflexivity. Qed.

(** A message sealed while another is open is printed over it. *)
Example sealed_over_open :
  grid_after 20 9 [COpen (mkClosing None None) 2 #"assistant" (prose (Join [LF] [ #"a"; #"b"; #"close"]));
                   CSeal (mkMessage 3 #"user" (Some (prose #"hi")))] =
    [[]; #"> you"; #"b"; #"hiose"; []].
Proof. vm_compute. reflexivity. Qed.
